(* ===== verification/_CoqProject ===== *)
-Q . S2P
Prelude.v
JsBase.v
Json.v
JsonText.v
DeltaOps.v
DeltaApply.v
JsText.v
DeltaDiff.v
DeltaCodec.v
JsHeap.v
Cbor.v
CborSpec.v
Framing.v
Protocol.v
DurableTypes.v
SortedIds.v
MemoryStorage.v
MemoryStorageInv.v
MemoryStorageTables.v
MemoryStorageDocuments.v
MemoryStorageCommit.v
Truncate.v
ServiceState.v
MemoryStorageSpec.v
MemoryStorageScans.v
DeltaTheorems.v
WireTheorems.v
JsFloat.v
JsonParse.v
SessionTypes.v
SessionState.v
SessionFork.v
SessionInv.v
SessionBranch.v
SessionForkSpec.v
JsonlCodec.v
JsonlStorage.v
JsonlDurable.v
JsonlFork.v
JsonlForkSpec.v
JsonlTheorems.v
AiTypes.v
AgentMessages.v
Transcript.v
Compaction.v
CompactionSpec.v
BranchSummary.v
CompactionRequests.v
CompactionTheorems.v
Retry.v
LaneReducer.v
StreamingJson.v
AssistantFrames.v
AssistantFramesSpec.v
SerialQueue.v
AgentLoop.v
AgentLoopSpec.v
Agent.v
AgentSpec.v
StorageQueue.v
SessionObject.v
EditDiff.v
EditSpec.v
DiffString.v
EditTool.v
ConcurrencyTheorems.v
SessionTheorems.v
StateDiff.v
StateDiffSpec.v
FacetGraph.v
ReplicatedState.v
ChordTheorems.v
StorageTheorems.v
EditTheorems.v
AiTheorems.v
AgentTheorems.v
HarnessTheorems.v
