(* ===== verification/Prelude.v ===== *)
(** * Replicated JSON, its wire and its durable storage

    A verification development of the parts of this repository that keep data:
    the delta operations that replicate JSON state (packages/chord), the binary
    protocol that carries messages (packages/protocol), the durable storage of
    conversations, tasks and documents (packages/durable), the sessions of the
    agent harness, its edit tool and the truncation of tool output, the agent loop
    and the agent around it (packages/agent), the transcripts given to models and
    the frames model streams are sent in (packages/ai).

    ** The program

    A facet owns a JSON value.  A change to it is a batch of operations ([Op] of
    chord/src/delta/index.ts): the differ emits them, an encoder interns their
    paths for the wire, a decoder and an applier replay them on a replica, and
    [applyImmutable] replays them on a value that must not change.  Snapshots and
    updates of whole services pass through one such codec per state
    (chord/src/services/state-codec.ts).  A service whose state is a sequence of
    immutable revisions has a differ of its own, which compares by identity
    (chord/src/state/diff.ts); the state tells its listeners of every change, and
    replicas elsewhere follow it from a snapshot on (chord/src/services/state.ts).
    The facets of a host provide services to each other and are started in the order
    of what they require (chord/src/facets/host.ts).  Messages between client and server are
    JSON-like values, encoded as strict CBOR (protocol/src/cbor), put in
    length-prefixed frames (protocol/src/framing.ts) and validated on both sides
    (protocol/src/codec.ts).  A session writes conversations, entries, tasks,
    submissions and documents in atomic commits; documents are chains of base
    values and batches of the same operations (durable/src/storage/memory.ts).
    A harness session keeps a tree of entries, values, lists and usage rows under
    one sequence; commits are prepared, validated and applied
    (agent/src/harness/session/commit.ts, in-memory-storage-state.ts), and a fork
    copies a branch or the whole tree under the policy of fork-policy.ts.  Kept in
    a file, a session is a header and one line of JSON per commit: opening it
    replays the lines and drops what an interrupted write left of the last one
    (agent/src/harness/session/jsonl).

    The edit tool (agent/src/harness/tools/edit.ts, edit-diff.ts) replaces texts in
    a file: an old text is looked for as it is and then up to white space and the
    form of characters, the places must not overlap, and what is shown is a diff of
    lines.  A model's message arrives as events, is sent as frames that leave out
    what is known, and is put together again by a reducer
    (ai/src/utils/assistant-message-frame.ts); the arguments of its tool calls are
    JSON that is not complete or not quite JSON (ai/src/utils/json-parse.ts), and
    calls that fail in passing are tried again (ai/src/utils/retry.ts).

    When a conversation outgrows the model, it is compacted
    (agent/src/harness/compaction): the messages are counted, a place to cut is
    looked for from the end, what comes before is summarized by a request, and the
    context becomes the summary and what is kept (session/context.ts).  A branch
    that is left is summarized too.

    The agent loop (agent/src/agent-loop.ts) asks a model, runs the tools of the
    answer one after the other or side by side, takes the messages queued meanwhile
    and asks again, and tells of it all in events; [Agent] (agent/src/agent.ts) holds
    the transcript, the queues and the run under way, and reduces the events.
    Before a request the loop declares the tools that came and went in a system
    message; what a transcript declares is replayed, compared and collapsed by
    ai/src/utils/transcript.ts.

    Who watches a lane keeps a snapshot of it and applies the events that come
    (runtime/reducer.ts).

    ** Files

    - [Prelude]: results, the state-and-error monad, lists, tactics, the hint
      database [s2r].
    - [JsBase]: JavaScript numbers (integers and the bits of the other doubles),
      strings as lists of UTF-16 units, UTF-8, bytes.  [Json]: ordered objects
      as JavaScript enumerates them, JSON values and their equality, [cloneJson],
      [jsonEqual].  [JsonText]: the text of JSON strings and of the arrays used
      as keys.  [JsFloat]: the addition and the shortest text of JavaScript
      numbers.  [JsonParse]: [JSON.stringify] and [JSON.parse].
    - [DeltaOps]: [Op], [assertValidOp], [apply], [applyImmutable].
      [DeltaApply]: the validator, and what an operation changes.
      [DeltaDiff]: [overlap], the differ and its correctness.  [DeltaCodec]: the
      wire encoder and decoder in step.
    - [JsHeap]: objects on a heap, with property descriptors, and [isJsonValue].
      [Cbor], [CborSpec]: the codec and its canonical bytes.  [Framing]: the
      frame decoder as a state machine.  [Protocol]: the message codec.
    - [DurableTypes], [SortedIds], [MemoryStorage]: the storage, method by
      method.  [MemoryStorageInv]: its invariant.  [MemoryStorageTables],
      [MemoryStorageDocuments], [MemoryStorageCommit]: the two loops of a commit
      and their composition.  [MemoryStorageSpec]: plain tables and the
      refinement, and documents over time.  [MemoryStorageScans]: pages, and the
      entries a conversation sees.
    - [SessionTypes], [SessionState], [SessionFork]: the writes, the state of a
      session method by method, forks.  [SessionInv]: the
      invariant, and a commit against the plain tables of what is stored.
      [SessionBranch]: ancestors and scans.  [SessionForkSpec]: what a fork copies.
    - [JsonlCodec]: the lines of a session file, written and read.
      [JsonlStorage]: the file system as an interface with its laws, and the
      storage on it.  [JsonlDurable]: the file and the session in step, appends
      cut short included.  [JsonlFork], [JsonlForkSpec]: the fork
      of a file, what its index knows, and the fork it makes.
    - [SerialQueue]: calls that run one after the other, turn by turn.
      [StorageQueue]: the two storages as objects that are
      called concurrently, and the file storage against one whose commits happen
      at once.  [SessionObject]: the sessions callers hold,
      and what appends from many callers leave.
    - [JsText]: the methods of strings the tools use, and the normal forms of
      Unicode as an interface.  [EditDiff]: matching and replacing.  [EditSpec]:
      what a replacement and a group of lines mean, the reasons for errors,
      and that the code does it.  [DiffString]: the diff shown.  [EditTool]: the tool, turn
      by turn.
    - [AiTypes], [AgentMessages]: the messages of models and of the harness, the
      entries they stand in, and the context made of a path.  [Retry]: the loop
      that tries calls again, and its trace.
    - [Transcript]: prompts, system messages and the tools they declare.
      [AgentLoop]: the loop, with the surroundings it calls as an interface.
      [AgentLoopSpec]: the protocol of its events as a step relation, and that the
      loop keeps it.  [Agent], [AgentSpec]: the queues, the state and the methods of
      the agent, and what its state is after any events.
    - [Compaction]: file lists and texts; counting, cutting and
      preparing.  [CompactionSpec]: where a cut falls and what it keeps.
      [CompactionRequests]: the prompts, how much of a branch is sent, the requests,
      and the plan of them that is carried out.  [BranchSummary]: the entries of a
      branch that is left.
    - [LaneReducer]: the snapshot of a lane, the reducer of events, and what every
      event preserves.
    - [StreamingJson]: the repair of JSON, and the texts it
      restores.  [AssistantFrames], [AssistantFramesSpec]: the encoder of events,
      the reducer of frames, and both in step with what the events tell.
    - [StateDiff], [StateDiffSpec]: the differ of revisions and its correctness.
      [ReplicatedState]: the states that change, with listeners that may do
      anything, and their replicas.  [FacetGraph]: requirements, the order of
      facets, their life cycle.
    - [Truncate]: the truncation of text.  [ServiceState]: the service codec.
    - [DeltaTheorems], [WireTheorems], [StorageTheorems], [SessionTheorems],
      [JsonlTheorems], [ConcurrencyTheorems], [EditTheorems], [ChordTheorems],
      [AiTheorems], [AgentTheorems], [CompactionTheorems],
      [HarnessTheorems]: the properties, numbered C1 onwards, each with an instance at a concrete input.

    ** How the code is modelled

    A function that throws returns a [result]; the error keeps the class and, for
    path errors, the path.  Error texts are kept where the code inspects them.  A
    class is a record of its fields and every method is a function of it; a
    method that may throw half-way is a step of [SM], which keeps the state
    reached, so atomicity is a theorem and not a convention.  JavaScript's
    [Map]s keyed by numbers or strings are [gmap]s where the order of keys is
    never observed and association lists where it is.

    Values handed over by reference are modelled by what they hold.  The
    appliers mutate containers in place; the model returns the new tree, which
    is the same for values without shared containers, as everything decoded from
    a wire or parsed from JSON is.  [MemoryStorage] clones what it keeps and
    returns, so its model has no aliasing; the session state shares the values
    it is given, which no operation of it changes.  [isJsonValue] and
    [encodeCbor], which detect cycles, work on a heap of objects instead, and
    the containers of a revision ([rev]) carry the identity the differ compares.

    Sequence numbers are unbounded integers; usage totals are sums of IEEE
    doubles in the order of the rows.

    A file is the text it holds, and the file system a state with the methods the
    storage calls, each of which may fail; a failed append may leave any part of
    its text, and of the character it was cut in.  What a line holds is read by
    [JSON.parse] into a tree and checked as the code checks it; the casts after
    those checks become conversions to the records, and where the tree has not
    the members the cast claims, the model stops with [JsonlUntyped] instead of
    going on with them.

    A promise is what is left to do, one turn at a time ([job]): what the code
    does until it waits, and how it goes on.  Where the code chains promises, a
    line ([MutationLine]) holds the calls that are not settled yet; a schedule is
    any sequence of calls, turns and seals, so a theorem about all schedules is
    about all interleavings.  What others do to the file system between two turns
    is a step of the schedule too.

    A listener of a replicated state is a [script]: while it is told of a change it
    may read and change the state, subscribe and unsubscribe.  What happened, commits
    and calls, is kept in the order it happened in.

    What the agent loop calls (the model, the hooks, the tools, the listeners) are
    steps on a state of the outside world, each of which may throw.  A stream is the
    list of the events it yields.  Tools that run side by side are [job]s,
    interleaved turn by turn as a component of the surroundings ([sr_picks]) says.
    Hooks read what they are handed and do not change it in place.

    ** Bounds and fuel

    [check], [encodeValue] and [readItem] recurse on the levels left below the
    depth limit the code checks, so they need no fuel.  The binary searches run
    at most [length ids] rounds ([bound_loop_separates]).  The frame decoder
    runs at most twice per byte.  The walks up the ancestors of a conversation
    return [None] out of fuel; the theorems show that as many rounds as there
    are conversations are enough in a forest, and as many as there are entries
    on the branches of a session.  [read_pages], a reader that
    follows cursors, is given more pages than records.  [parse] has twice
    as much as its text is long.  The agent loop spends one unit of fuel per
    iteration, that is per request, and answers [None] when it has none left: a
    model may ask for tools for ever.  That queued messages are delivered is proved
    with as much fuel as there are messages, and one.  The loop that orders facets
    runs once per facet.  What a replicated state sets off may go on for ever, when
    listeners keep changing it; calls within calls have fuel, and the theorem is
    about programs that end.

    ** What the theorems show

    Round trips: of the delta codec over a stream, from any base batch on; of
    CBOR; of frames and of validated messages under any chunking; of service
    snapshots and updates.  Functional behaviour: the differ against the
    applier, the entries in sight and the latest head marker against a
    declarative relation, pages against the tables, truncation against the
    longest run that fits.  Invariants: of the storage under every commit.
    Refinement: of commits of both storages against plain tables; of the file of
    a session against the session in memory, which it opens to at any time as long
    as addresses are valid and no append fails; with the last commit done or not
    done when its append was cut short and the file system lets the file be mended
    (an address that is not valid, or a commit after an append that failed, spoils
    the file).  Forks: the
    entries of a branch fork are one path, a fork is a session again, nothing in
    flight is carried over, and the fork of a file is the fork in memory.  Atomicity of failed commits,
    stability of the past of documents, safety of decoded paths, bounds of
    decoded values.  Concurrency: a line of calls does what the calls do one after
    the other, every call settles once and in a known number of turns, a sealed
    line starts nothing, commits to a file are atomic for every caller, and
    appends to the branches of a session chain.  Edits: an old text that is there
    is replaced once and nothing else changes; a fuzzy edit keeps every line it
    does not touch; edits are refused exactly when there is reason, for the first
    reason; the tool keeps byte order mark and line ending, whatever else happens
    between its turns, and only an abort that comes behind the write, or a write that
    fails, finds its file changed; the rows of the diff account for every difference.  Streams: the
    frames of a message whose blocks start in order replay to it, also for a reader
    that comes late (out of order they are refused), JSON
    with raw control characters is repaired to the value meant, and calls are tried
    again as announced.  Compaction: the context after it is the summary and a last
    part of the context before, a result of a tool is parted from its call only by a
    message at which a cut can be made, standing between the two; the cut is the first
    at or after the budget; the requests are those planned, and the
    file lists forget nothing.  The agent: a run that ends has told its events in the
    order of the protocol; the calls of tools in an answer are answered in order,
    once each; tools that run side by side all settle and leave their results in the
    order of the calls; queued messages are delivered; an agent is idle again after
    each run, whatever throws, and after a reset, and its state is a function of the events.  Before a
    request the transcript declares exactly the tools at hand; a transcript collapsed
    says the same.  Replicated states: a listener that is not subscribed twice is told
    every value once, in order, whatever listeners do; a replica never shows a value its source did not have.
    Facets: the order exists exactly when it should, and what depends on a facet is
    started after it and disposed of before it.  Lanes: a watcher has the transcript of the path,
    whatever events come between.

    ** Assumptions

    [Buffer.byteLength], where there is a [Buffer], is the length of the UTF-8
    encoding ([buffer_ok]).  The schemas of the protocol are a predicate on
    values and one on decoded trees that agree.  Limits of truncation are
    integers.  The file system does what its interface documents
    ([FileSystemLaws]): calls touch the paths they name, a successful call has
    done its work, renaming replaces the destination or leaves it.  Which texts
    [Date.parse] accepts is a parameter, used for headers of format 3 only.
    [String.prototype.normalize] obeys what UAX 15 says of the form NFKC
    ([Normalizer]); the parts of the diff library spell both texts ([diff_of]);
    what the partial-json library makes of a text is a parameter without laws.
    A request to a model, a sleep and a callback are steps of the outside world
    about which nothing is assumed.  Counts of tokens are exact integers; settings
    and what providers report are doubles.  The stream of a model starts a message at
    most once and first ([streams_start_once]); the check of the arguments of a tool,
    which hands the schema to TypeBox, is a parameter; the schemas of tools are JSON
    whose numbers print exactly ([tool_ok]).

    ** Not modelled

    The tracker's Proxy traps, drafts of revisions, schedulers, sockets,
    bindings of services and the replacement of facets,
    repositories of session files and the conversion of format 3, the durable
    operations of a lane, the event streams around the agent loop ([agentLoop]) and
    what a tool does on its own after its batch failed, the tools other than the edit
    tool and the queue of writers per file, model providers, the terminal and web interfaces and the
    database back ends: they are asynchronous or glue around third-party code.  The TypeBox schemas of
    the protocol are data for a third-party checker. *)
From stdpp Require Export base tactics list numbers option gmap strings pretty.
From Stdlib Require Export ZArith Lia.

#[global] Open Scope Z_scope.

(** * Results: a call that returns or throws *)

Inductive result (E A : Type) : Type :=
| Ok (a : A)
| Err (e : E).
Arguments Ok {E A} a.
Arguments Err {E A} e.

#[export] Instance result_ret E : MRet (result E) := @Ok E.
#[export] Instance result_throw E : MThrow E (result E) := @Err E.
#[export] Instance result_bind E : MBind (result E) :=
  fun _ _ f m => match m with Ok a => f a | Err e => Err e end.
#[export] Instance result_fmap E : FMap (result E) :=
  fun _ _ f m => match m with Ok a => Ok (f a) | Err e => Err e end.
#[export] Instance result_eq_dec E A `{EqDecision E} `{EqDecision A} : EqDecision (result E A).
Proof. solve_decision. Defined.

(** [if (b) throw e;] *)
Definition throw_if {E} (b : bool) (e : E) : result E unit :=
  if b then Err e else Ok tt.

(** [o ?? throw e] *)
Definition ok_or {E A} (e : E) (o : option A) : result E A :=
  match o with Some a => Ok a | None => Err e end.

Definition map_err {E E' A} (f : E -> E') (m : result E A) : result E' A :=
  match m with Ok a => Ok a | Err e => Err (f e) end.

Definition is_Ok {E A} (m : result E A) : bool :=
  match m with Ok _ => true | Err _ => false end.

(** A loop whose body may throw, over the elements of a list. *)
Fixpoint foldM {E A B} (f : B -> A -> result E B) (b : B) (l : list A) : result E B :=
  match l with
  | [] => Ok b
  | a :: l => b' ← f b a; foldM f b' l
  end.

Section ResultLemmas.
Context {E : Type}.
Implicit Types e : E.

Lemma bind_Ok {A B} (m : result E A) (f : A -> result E B) b :
  m ≫= f = Ok b <-> exists a, m = Ok a /\ f a = Ok b.
Proof. destruct m; cbn; naive_solver. Qed.

Lemma bind_Err {A B} (m : result E A) (f : A -> result E B) e :
  m ≫= f = Err e <-> m = Err e \/ exists a, m = Ok a /\ f a = Err e.
Proof. destruct m; cbn; naive_solver. Qed.

Lemma Ok_inj {A} (a b : A) : @Ok E A a = Ok b -> a = b.
Proof. by intros [= ->]. Qed.

Lemma throw_if_Ok (b : bool) (e : E) u : throw_if b e = Ok u <-> b = false.
Proof. destruct b, u; cbn; naive_solver. Qed.

Lemma throw_if_Err (b : bool) (e e' : E) : throw_if b e = Err e' <-> b = true /\ e = e'.
Proof. destruct b; cbn; naive_solver. Qed.

Lemma ok_or_Ok {A} (e : E) (o : option A) a : ok_or e o = Ok a <-> o = Some a.
Proof. destruct o; cbn; naive_solver. Qed.

Lemma map_err_Ok {E' A} (f : E -> E') (m : result E A) a : map_err f m = Ok a <-> m = Ok a.
Proof. destruct m; cbn; naive_solver. Qed.

Lemma foldM_app {A B} (f : B -> A -> result E B) b l1 l2 :
  foldM f b (l1 ++ l2) = (b' ← foldM f b l1; foldM f b' l2).
Proof. revert b; induction l1 as [|a l1 IH]; intros b; cbn; [done|]. destruct (f b a); cbn; auto. Qed.

Lemma foldM_nil {A B} (f : B -> A -> result E B) b : foldM f b [] = Ok b.
Proof. done. Qed.

Lemma foldM_invariant {A B} (P : B -> Prop) (f : B -> A -> result E B) l b b' :
  (forall b a b', a ∈ l -> P b -> f b a = Ok b' -> P b') ->
  P b -> foldM f b l = Ok b' -> P b'.
Proof.
  revert b; induction l as [|a l IH]; cbn; intros b Hstep Hb; [naive_solver|].
  intros (b1 & H1 & H2)%bind_Ok.
  apply (IH b1); [intros; eapply Hstep; [right| |]; eauto| |done].
  eapply (Hstep b a); [left| |]; eauto.
Qed.

Lemma foldM_Err {A B} (f : B -> A -> result E B) b l e : foldM f b l = Err e -> exists b' a, a ∈ l /\ f b' a = Err e.
Proof.
  revert b. induction l as [|a l IH]; intros b; cbn; [done|]. intros [H|(b' & _ & H)]%bind_Err; [exists b, a; split; [by left|done]|].
  destruct (IH b' H) as (b1 & a1 & ? & ?). exists b1, a1. split; [by right|done].
Qed.

Lemma is_Ok_exists {A} (m : result E A) : is_Ok m = true <-> exists a, m = Ok a.
Proof. destruct m; cbn; naive_solver. Qed.
End ResultLemmas.

(** [res_inv] turns every hypothesis [m = Ok _] on a sequence of steps into
    one equation per step. *)
Ltac res_inv :=
  repeat match goal with
  | H : mbind _ _ = Ok _ |- _ => apply bind_Ok in H as (? & ? & ?)
  | H : throw_if _ _ = Ok _ |- _ => apply throw_if_Ok in H
  | H : ok_or _ _ = Ok _ |- _ => apply ok_or_Ok in H
  | H : mret _ = Ok _ |- _ => apply Ok_inj in H
  | H : Ok _ = Ok _ |- _ => apply Ok_inj in H
  | H : Err _ = Ok _ |- _ => discriminate H
  | H : Ok _ = Err _ |- _ => discriminate H
  | H : mthrow _ = Ok _ |- _ => discriminate H
  end; subst; simplify_eq.

(** [split_if] removes the boolean tests of the goal, one [if] at a time. *)
Ltac split_if :=
  match goal with
  | |- context [if ?b then _ else _] => destruct b eqn:?
  end.

Ltac bool_lia :=
  repeat match goal with
  | H : (_ && _)%bool = true |- _ => apply andb_true_iff in H as [? ?]
  | H : (_ || _)%bool = false |- _ => apply orb_false_iff in H as [? ?]
  | H : negb _ = true |- _ => apply negb_true_iff in H
  | H : negb _ = false |- _ => apply negb_false_iff in H
  | H : (_ <=? _) = true |- _ => apply Z.leb_le in H
  | H : (_ <=? _) = false |- _ => apply Z.leb_gt in H
  | H : (_ <? _) = true |- _ => apply Z.ltb_lt in H
  | H : (_ <? _) = false |- _ => apply Z.ltb_ge in H
  | H : (_ =? _) = true |- _ => apply Z.eqb_eq in H
  | H : (_ =? _) = false |- _ => apply Z.eqb_neq in H
  end; try lia.

Create HintDb s2r.

(** * Steps on a state that may throw

    What was changed before a throw stays changed. *)

Definition SM (S E A : Type) : Type := S -> S * result E A.

#[export] Instance sm_ret S E : MRet (SM S E) := fun _ a s => (s, Ok a).
#[export] Instance sm_throw S E : MThrow E (SM S E) := fun _ e s => (s, Err e).
#[export] Instance sm_bind S E : MBind (SM S E) :=
  fun _ _ f m s => match m s with (s, Ok a) => f a s | (s, Err e) => (s, Err e) end.

Definition gets {S E A} (f : S -> A) : SM S E A := fun s => (s, Ok (f s)).
Definition modify {S E} (f : S -> S) : SM S E unit := fun s => (f s, Ok tt).
(** A step that only reads the state, and may throw. *)
Definition reads_state {S E A} (f : S -> result E A) : SM S E A := fun s => (s, f s).

Fixpoint for_each {S E A} (f : A -> SM S E unit) (l : list A) : SM S E unit :=
  match l with
  | [] => mret tt
  | a :: l => f a;; for_each f l
  end.

Section StateSteps.
Context {S E : Type}.

Lemma sm_bind_Ok {A B} (m : SM S E A) (f : A -> SM S E B) s s' b :
  (m ≫= f) s = (s', Ok b) <-> exists s1 a, m s = (s1, Ok a) /\ f a s1 = (s', Ok b).
Proof. unfold mbind, sm_bind. destruct (m s) as [s1 [a|e]]; naive_solver. Qed.

Lemma for_each_invariant {A} (P : S -> Prop) (f : A -> SM S E unit) l s s' r :
  (forall a s s' r, a ∈ l -> P s -> f a s = (s', r) -> P s') ->
  P s -> for_each f l s = (s', r) -> P s'.
Proof.
  revert s. induction l as [|a l IH]; intros s Hstep Hs; cbn; [by intros [= <- _]|].
  unfold mbind, sm_bind. destruct (f a s) as [s1 [u|e]] eqn:E1; intros H.
  - eapply IH; [|eapply (Hstep a); [by left|..]; eauto|exact H]. intros; eapply Hstep; eauto; by right.
  - injection H as <- _. eapply (Hstep a); [by left|..]; eauto.
Qed.
End StateSteps.

(** * Insertion-ordered maps

    A JavaScript [Map] that is iterated over: setting a present key keeps its
    place. *)

Section OrderedMap.
Context {K V : Type} `{EqDecision K}.

Fixpoint amap_get (m : list (K * V)) (k : K) : option V :=
  match m with
  | [] => None
  | (k', v) :: m => if decide (k' = k) then Some v else amap_get m k
  end.

Fixpoint amap_set (m : list (K * V)) (k : K) (v : V) : list (K * V) :=
  match m with
  | [] => [(k, v)]
  | (k', v') :: m => if decide (k' = k) then (k, v) :: m else (k', v') :: amap_set m k v
  end.

Definition amap_delete (m : list (K * V)) (k : K) : list (K * V) :=
  List.filter (fun kv => negb (bool_decide (fst kv = k))) m.

Lemma amap_get_set m k v k' : amap_get (amap_set m k v) k' = if decide (k = k') then Some v else amap_get m k'.
Proof.
  induction m as [|[k1 v1] m IH]; cbn; [by repeat case_decide|].
  destruct (decide (k1 = k)) as [->|]; cbn; [by repeat case_decide|].
  destruct (decide (k1 = k')) as [->|]; [by rewrite decide_False|done].
Qed.

Lemma amap_keys_set m k v : amap_get m k = None -> (amap_set m k v).*1 = m.*1 ++ [k].
Proof. induction m as [|[k1 v1] m IH]; cbn; [done|]. case_decide; [done|]. cbn. intros Hk. by rewrite IH. Qed.

Lemma amap_keys_set_present m k v w : amap_get m k = Some w -> (amap_set m k v).*1 = m.*1.
Proof.
  induction m as [|[k1 v1] m IH]; cbn; [done|]. case_decide; cbn; [by subst|]. intros Hk. by rewrite IH.
Qed.

Lemma amap_get_None m k : amap_get m k = None <-> k ∉ m.*1.
Proof.
  induction m as [|[k1 v1] m IH]; cbn; [split; [intros _; apply not_elem_of_nil|done]|].
  case_decide; rewrite not_elem_of_cons; naive_solver.
Qed.

Lemma amap_get_elem m k v : NoDup m.*1 -> (k, v) ∈ m <-> amap_get m k = Some v.
Proof.
  induction m as [|[k1 v1] m IH]; cbn; [intros _; split; [by intros ?%elem_of_nil|done]|].
  intros [Hni Hnd]%NoDup_cons. rewrite elem_of_cons, (IH Hnd). case_decide as E; [subst|naive_solver].
  split; [|naive_solver]. intros [[= ->]|Hg]; [done|]. exfalso. apply Hni.
  destruct (decide (k ∈ m.*1)); [done|]. apply amap_get_None in n. congruence.
Qed.

Lemma amap_set_NoDup m k v : NoDup m.*1 -> NoDup (amap_set m k v).*1.
Proof.
  intros H. destruct (amap_get m k) as [w|] eqn:E; [by erewrite amap_keys_set_present|].
  rewrite amap_keys_set by done. apply NoDup_app. split_and!; [done| |apply NoDup_singleton].
  intros x Hx ->%list_elem_of_singleton. apply amap_get_None in E. done.
Qed.

Lemma amap_set_new m k v : amap_get m k = None -> amap_set m k v = m ++ [(k, v)].
Proof. induction m as [|[k1 v1] m IH]; cbn; [done|]. case_decide; [done|]. intros Hk. by rewrite IH. Qed.

Lemma amap_set_elem m k v kv : kv ∈ amap_set m k v -> kv = (k, v) \/ kv ∈ m.
Proof.
  induction m as [|[k1 v1] m IH]; cbn; [set_solver|]. case_decide; set_solver.
Qed.

Lemma amap_get_delete m k k' : amap_get (amap_delete m k) k' = if decide (k = k') then None else amap_get m k'.
Proof.
  unfold amap_delete. induction m as [|[k1 v1] m IH]; cbn; [by case_decide|].
  case_bool_decide as E; cbn; rewrite IH; repeat case_decide; congruence.
Qed.

Lemma amap_delete_elem m k kv : kv ∈ amap_delete m k <-> kv ∈ m /\ fst kv <> k.
Proof.
  unfold amap_delete. rewrite !list_elem_of_In, filter_In, negb_true_iff, bool_decide_eq_false. done.
Qed.

Lemma amap_delete_NoDup m k : NoDup m.*1 -> NoDup (amap_delete m k).*1.
Proof.
  unfold amap_delete. induction m as [|[k' v] m IH]; cbn; [done|]. intros [Hni Hnd]%NoDup_cons.
  destruct (bool_decide (k' = k)) eqn:E; cbn; [by apply IH|]. apply NoDup_cons. split; [|by apply IH].
  intros ([k1 v1] & Hk & Hin)%list_elem_of_fmap. cbn in Hk. subst k1. apply Hni.
  rewrite list_elem_of_In, filter_In in Hin. destruct Hin as [Hin _]. apply list_elem_of_fmap. exists (k', v1).
  split; [done|]. by apply list_elem_of_In.
Qed.
End OrderedMap.
