(* ===== verification/JsBase.v ===== *)
(** The part of ECMAScript (and of the Encoding standard) the modelled code
    rests on: numbers, UTF-16 strings with the methods the code calls, UTF-8
    text encoding and decoding, big-endian words as [DataView] writes them.

    These are platform definitions: none of them is mapped to a file of the
    repository.  The components use them as the code uses the platform. *)
From Stdlib Require Import Ascii String.
From S2P Require Import Prelude.

(** * Numbers

    A [number] is an IEEE-754 binary64.  The integer-valued doubles other than
    [-0] are represented by their integer, every other double (fractions, [-0],
    the infinities, NaN) by its bit pattern.  [num_of_f64] is the canonical
    view of a bit pattern; two numbers are the same JavaScript value
    ([Object.is], up to the payload of NaN) iff their views are equal. *)

Inductive jsnum : Type :=
| NInt (z : Z)
| NFlt (bits : Z).

#[export] Instance jsnum_eq_dec : EqDecision jsnum.
Proof. solve_decision. Defined.

Definition f64_sign (b : Z) : bool := Z.testbit b 63.
Definition f64_exponent (b : Z) : Z := (b / 2 ^ 52) mod 2 ^ 11.
Definition f64_mantissa (b : Z) : Z := b mod 2 ^ 52.
Definition f64_minus_zero : Z := 2 ^ 63.

(** The integer a finite double denotes, if it denotes one. *)
Definition f64_integer (b : Z) : option Z :=
  let e := f64_exponent b in
  if e =? 2047 then None
  else
    let m := if e =? 0 then f64_mantissa b else f64_mantissa b + 2 ^ 52 in
    let s := Z.max e 1 - 1075 in
    let signed z := if f64_sign b then - z else z in
    if 0 <=? s then Some (signed (m * 2 ^ s))
    else if m mod 2 ^ (- s) =? 0 then Some (signed (m / 2 ^ (- s)))
    else None.

Definition num_of_f64 (b : Z) : jsnum :=
  if b =? f64_minus_zero then NFlt b
  else match f64_integer b with Some z => NInt z | None => NFlt b end.

Definition MAX_SAFE_INTEGER : Z := 2 ^ 53 - 1.

(** [Number.isFinite], [Number.isInteger], [Number.isSafeInteger],
    [Object.is(_, -0)] and [Number.isNaN]. *)
Definition isFinite (n : jsnum) : bool :=
  match n with NInt _ => true | NFlt b => negb (f64_exponent b =? 2047) end.
Definition is_minus_zero (n : jsnum) : bool :=
  match n with NInt _ => false | NFlt b => b =? f64_minus_zero end.
Definition isInteger (n : jsnum) : bool :=
  match n with NInt _ => true | NFlt b => b =? f64_minus_zero end.
Definition isSafeInteger (n : jsnum) : bool :=
  match n with
  | NInt z => Z.abs z <=? MAX_SAFE_INTEGER
  | NFlt b => b =? f64_minus_zero
  end.
Definition isNaN (n : jsnum) : bool :=
  match n with
  | NInt _ => false
  | NFlt b => (f64_exponent b =? 2047) && negb (f64_mantissa b =? 0)
  end.

(** The natural number an index-like number denotes: integers [>= 0], where
    [-0] indexes like [0]. *)
Definition num_index (n : jsnum) : option N :=
  match n with
  | NInt z => if 0 <=? z then Some (Z.to_N z) else None
  | NFlt b => if b =? f64_minus_zero then Some 0%N else None
  end.

(** [left === right] on numbers. *)
Definition num_strict_eq (a b : jsnum) : bool :=
  let zero n := match n with NInt 0 => true | _ => is_minus_zero n end in
  if isNaN a || isNaN b then false
  else if zero a && zero b then true
  else bool_decide (a = b).

(** A number in canonical form. *)
Definition num_wf (n : jsnum) : Prop :=
  match n with
  | NInt _ => True
  | NFlt b => 0 <= b < 2 ^ 64 /\ num_of_f64 b = NFlt b
  end.

(** * Strings of UTF-16 code units *)

Abbreviation jsstr := (list Z).

(** ASCII literals. *)
Definition js (s : string) : jsstr :=
  Z.of_nat ∘ Ascii.nat_of_ascii <$> String.list_ascii_of_string s.

Definition unit_ok (u : Z) : Prop := 0 <= u < 2 ^ 16.
Definition str_wf (s : jsstr) : Prop := Forall unit_ok s.

(** [s.indexOf(pat, from)]. *)
Definition index_of (s pat : jsstr) (from : nat) : option nat :=
  let start := Nat.min from (length s) in
  List.find (fun k => bool_decide (take (length pat) (drop k s) = pat))
    (seq start (S (length s - start))).

(** [s.startsWith(p)]. *)
Definition starts_with (s p : jsstr) : bool := bool_decide (take (length p) s = p).

Definition newline : Z := 10.

(** [s.split("\n")] and [lines.join("\n")]. *)
Fixpoint split_lines (s : jsstr) : list jsstr :=
  match s with
  | [] => [[]]
  | u :: s =>
      if u =? newline then [] :: split_lines s
      else match split_lines s with l :: ls => (u :: l) :: ls | [] => [[u]] end
  end.

Fixpoint join_rest (lines : list jsstr) : jsstr :=
  match lines with [] => [] | l :: ls => newline :: l ++ join_rest ls end.

Definition join_lines (lines : list jsstr) : jsstr :=
  match lines with [] => [] | l :: ls => l ++ join_rest ls end.

(** [String(n)] for an integer below [10^21] in absolute value (the values
    whose decimal form has no exponent). *)
Definition js_of_Z (z : Z) : jsstr := js (pretty z).

(** * Surrogates and code points *)

Definition is_high (u : Z) : bool := (0xD800 <=? u) && (u <=? 0xDBFF).
Definition is_low (u : Z) : bool := (0xDC00 <=? u) && (u <=? 0xDFFF).
Definition combine_surrogates (h l : Z) : Z := 0x10000 + (h - 0xD800) * 0x400 + (l - 0xDC00).

(** The conversion to scalar values ([USVString]) that [TextEncoder] applies:
    unpaired surrogates become U+FFFD. *)
Fixpoint code_points (s : jsstr) : list Z :=
  match s with
  | [] => []
  | u :: s' =>
      if is_high u then
        match s' with
        | l :: s'' =>
            if is_low l then combine_surrogates u l :: code_points s''
            else 0xFFFD :: code_points s'
        | [] => [0xFFFD]
        end
      else if is_low u then 0xFFFD :: code_points s'
      else u :: code_points s'
  end.

Definition utf16_of_code_point (c : Z) : jsstr :=
  if c <? 0x10000 then [c]
  else [0xD800 + (c - 0x10000) / 0x400; 0xDC00 + (c - 0x10000) mod 0x400].

Definition to_well_formed (s : jsstr) : jsstr := concat (utf16_of_code_point <$> code_points s).

(** No unpaired surrogates ([String.prototype.isWellFormed]). *)
Fixpoint is_well_formed (s : jsstr) : bool :=
  match s with
  | [] => true
  | u :: s' =>
      if is_high u then
        match s' with l :: s'' => is_low l && is_well_formed s'' | [] => false end
      else negb (is_low u) && is_well_formed s'
  end.

(** * UTF-8 *)

Abbreviation bytes := (list Z).

Definition byte_ok (b : Z) : Prop := 0 <= b < 256.
Definition bytes_wf (l : bytes) : Prop := Forall byte_ok l.

Definition utf8_of_code_point (c : Z) : bytes :=
  if c <? 0x80 then [c]
  else if c <? 0x800 then [0xC0 + c / 64; 0x80 + c mod 64]
  else if c <? 0x10000 then [0xE0 + c / 4096; 0x80 + (c / 64) mod 64; 0x80 + c mod 64]
  else [0xF0 + c / 262144; 0x80 + (c / 4096) mod 64; 0x80 + (c / 64) mod 64; 0x80 + c mod 64].

(** [new TextEncoder().encode(s)]. *)
Definition utf8_encode (s : jsstr) : bytes := concat (utf8_of_code_point <$> code_points s).

Definition in_range (lo hi b : Z) : bool := (lo <=? b) && (b <=? hi).

(** [new TextDecoder("utf-8", { fatal: true, ignoreBOM: true }).decode(bytes)],
    the decoder of the Encoding standard; [None] where it throws. *)
Fixpoint utf8_decode (l : bytes) : option jsstr :=
  match l with
  | [] => Some []
  | b0 :: r0 =>
      if in_range 0 0x7F b0 then cons b0 <$> utf8_decode r0
      else if in_range 0xC2 0xDF b0 then
        match r0 with
        | b1 :: r1 =>
            if in_range 0x80 0xBF b1
            then cons ((b0 - 0xC0) * 64 + (b1 - 0x80)) <$> utf8_decode r1
            else None
        | [] => None
        end
      else if in_range 0xE0 0xEF b0 then
        match r0 with
        | b1 :: b2 :: r2 =>
            let lo := if b0 =? 0xE0 then 0xA0 else 0x80 in
            let hi := if b0 =? 0xED then 0x9F else 0xBF in
            if in_range lo hi b1 && in_range 0x80 0xBF b2
            then cons ((b0 - 0xE0) * 4096 + (b1 - 0x80) * 64 + (b2 - 0x80)) <$> utf8_decode r2
            else None
        | _ => None
        end
      else if in_range 0xF0 0xF4 b0 then
        match r0 with
        | b1 :: b2 :: b3 :: r3 =>
            let lo := if b0 =? 0xF0 then 0x90 else 0x80 in
            let hi := if b0 =? 0xF4 then 0x8F else 0xBF in
            if in_range lo hi b1 && in_range 0x80 0xBF b2 && in_range 0x80 0xBF b3
            then
              let c := (b0 - 0xF0) * 262144 + (b1 - 0x80) * 4096 + (b2 - 0x80) * 64 + (b3 - 0x80) in
              app (utf16_of_code_point c) <$> utf8_decode r3
            else None
        | _ => None
        end
      else None
  end.

(** * Typed arrays *)

(** Elements of a [Uint8Array] are stored modulo 256; [>>>] works on the value
    modulo [2^32]. *)
Definition u8 (z : Z) : Z := z mod 2 ^ 8.
Definition u32 (z : Z) : Z := z mod 2 ^ 32.

(** [buffer.set(bs, at)] where there is room for it. *)
Definition buf_set (buf : bytes) (at_ : nat) (bs : bytes) : bytes :=
  take at_ buf ++ bs ++ drop (at_ + length bs) buf.

(** [byteLength]. *)
Definition len {A} (l : list A) : Z := Z.of_nat (length l).

Lemma len_app {A} (a b : list A) : len (a ++ b) = len a + len b.
Proof. unfold len. rewrite length_app. lia. Qed.

Lemma len_nonneg {A} (a : list A) : 0 <= len a.
Proof. unfold len. lia. Qed.

Lemma length_buf_set buf i bs : (i + length bs <= length buf)%nat -> length (buf_set buf i bs) = length buf.
Proof. intros H. unfold buf_set. rewrite !length_app, length_take, length_drop. lia. Qed.

Lemma take_buf_set buf i bs :
  (i <= length buf)%nat -> take (i + length bs) (buf_set buf i bs) = take i buf ++ bs.
Proof.
  intros H. unfold buf_set. rewrite app_assoc, take_app_le by (rewrite length_app, length_take; lia).
  apply take_ge. rewrite length_app, length_take. lia.
Qed.

(** * Big-endian words *)

(** [view.setUint8/16/32], [setFloat64]: the [n] low bytes of [z], most
    significant first. *)
Fixpoint be_bytes (n : nat) (z : Z) : bytes :=
  match n with
  | O => []
  | S n => (z / 2 ^ (8 * Z.of_nat n)) mod 256 :: be_bytes n z
  end.

Definition be_value (l : bytes) : Z := foldl (fun acc b => acc * 256 + b) 0 l.

(** * Lemmas on words *)

Lemma length_be_bytes n z : length (be_bytes n z) = n.
Proof. induction n; cbn; auto. Qed.

Lemma be_bytes_wf n z : bytes_wf (be_bytes n z).
Proof.
  induction n; cbn; constructor; auto.
  red. apply Z.mod_pos_bound. lia.
Qed.

Lemma foldl_be_shift l acc :
  foldl (fun acc b => acc * 256 + b) acc l = acc * 2 ^ (8 * Z.of_nat (length l)) + be_value l.
Proof.
  unfold be_value. revert acc. induction l as [|b l IH]; intros acc; cbn [foldl length].
  - rewrite Z.mul_0_r. lia.
  - rewrite IH, (IH (0 * 256 + b)). rewrite Nat2Z.inj_succ, Z.mul_succ_r, Z.pow_add_r by lia.
    change (2 ^ 8) with 256. ring.
Qed.

Lemma be_value_cons b l : be_value (b :: l) = b * 2 ^ (8 * Z.of_nat (length l)) + be_value l.
Proof. unfold be_value at 1. cbn [foldl]. rewrite foldl_be_shift. lia. Qed.

Lemma be_value_be_bytes n z : be_value (be_bytes n z) = z mod 2 ^ (8 * Z.of_nat n).
Proof.
  induction n as [|n IH].
  - cbn. rewrite Z.mod_1_r. done.
  - cbn [be_bytes]. rewrite be_value_cons, length_be_bytes, IH.
    rewrite Nat2Z.inj_succ, Z.mul_succ_r, Z.pow_add_r by lia. change (2 ^ 8) with 256.
    rewrite Z.rem_mul_r by lia. lia.
Qed.

Lemma be_value_be_bytes_small n z :
  0 <= z < 2 ^ (8 * Z.of_nat n) -> be_value (be_bytes n z) = z.
Proof. intros H. rewrite be_value_be_bytes, Z.mod_small; auto. Qed.

Lemma be_value_bound l : bytes_wf l -> 0 <= be_value l < 2 ^ (8 * Z.of_nat (length l)).
Proof.
  induction 1 as [|b l Hb _ IH].
  - cbn. lia.
  - rewrite be_value_cons. cbn [length]. rewrite Nat2Z.inj_succ, Z.mul_succ_r, Z.pow_add_r by lia.
    change (2 ^ 8) with 256. unfold byte_ok in Hb. nia.
Qed.

Lemma be_bytes_add_high n m z k :
  (n <= m)%nat -> be_bytes n (k * 2 ^ (8 * Z.of_nat m) + z) = be_bytes n z.
Proof.
  induction n as [|n IH]; intros Hm; [done|]. cbn [be_bytes]. rewrite IH by lia. f_equal.
  replace (8 * Z.of_nat m) with (8 * (Z.of_nat m - Z.of_nat n - 1) + 8 + 8 * Z.of_nat n) by lia.
  rewrite !Z.pow_add_r by lia. change (2 ^ 8) with 256.
  set (p := 2 ^ (8 * (Z.of_nat m - Z.of_nat n - 1))).
  replace (k * (p * 256 * 2 ^ (8 * Z.of_nat n)) + z)
    with (k * p * 256 * 2 ^ (8 * Z.of_nat n) + z) by ring.
  rewrite Z.div_add_l by lia. rewrite Z.add_comm. apply Z.mod_add. lia.
Qed.

Lemma be_bytes_be_value l : bytes_wf l -> be_bytes (length l) (be_value l) = l.
Proof.
  induction 1 as [|b l Hb Hl IH]; [done|]. cbn [length be_bytes]. rewrite be_value_cons.
  pose proof (be_value_bound l Hl) as Hv. unfold byte_ok in Hb. f_equal.
  - rewrite Z.div_add_l by lia. rewrite (Z.div_small (be_value l)) by lia.
    rewrite Z.add_0_r. apply Z.mod_small. lia.
  - rewrite be_bytes_add_high; [done|lia].
Qed.

(** * Lemmas on lines *)

Lemma split_lines_cons s : exists l ls, split_lines s = l :: ls.
Proof.
  induction s as [|u s (l & ls & E)]; cbn; [eauto|]. destruct (u =? newline); [eauto|]. rewrite E. eauto.
Qed.

Lemma join_split_lines s : join_lines (split_lines s) = s.
Proof.
  induction s as [|u s IH]; [done|]. cbn [split_lines]. destruct (split_lines_cons s) as (l & ls & E). rewrite E in *.
  cbn [join_lines] in IH. destruct (Z.eqb_spec u newline) as [->|]; cbn [join_lines join_rest app]; by rewrite IH.
Qed.

Lemma join_lines_snoc lines l :
  join_lines (lines ++ [l]) = match lines with [] => l | _ => join_lines lines ++ newline :: l end.
Proof.
  assert (forall ls, join_rest (ls ++ [l]) = join_rest ls ++ newline :: l) as Hr.
  { induction ls as [|x ls IH]; cbn [app join_rest]; [by rewrite app_nil_r|]. by rewrite IH, <- app_assoc. }
  destruct lines as [|x ls]; [cbn; by rewrite app_nil_r|]. cbn [app join_lines]. by rewrite Hr, app_assoc.
Qed.

Lemma join_lines_cons l lines :
  join_lines (l :: lines) = match lines with [] => l | _ => l ++ newline :: join_lines lines end.
Proof. destruct lines; cbn; [by rewrite app_nil_r|done]. Qed.

(** * Lemmas on text encoding *)

Definition scalar_ok (c : Z) : Prop := 0 <= c < 0xD800 \/ 0xDFFF < c < 0x110000.

Ltac range_lia :=
  unfold in_range, is_high, is_low in *;
  repeat match goal with
  | |- context [?a <=? ?b] => destruct (Z.leb_spec a b); try lia
  | |- context [?a <? ?b] => destruct (Z.ltb_spec a b); try lia
  | |- context [?a =? ?b] => destruct (Z.eqb_spec a b); try lia
  end; cbn [andb]; try lia.

Lemma code_points_cons u s :
  code_points (u :: s) =
    if is_high u then
      match s with
      | l :: s'' =>
          if is_low l then combine_surrogates u l :: code_points s'' else 0xFFFD :: code_points s
      | [] => [0xFFFD]
      end
    else if is_low u then 0xFFFD :: code_points s
    else u :: code_points s.
Proof. done. Qed.

Lemma code_points_ok s : str_wf s -> Forall scalar_ok (code_points s).
Proof.
  unfold str_wf. remember (length s) as n eqn:Hn. assert (length s <= n)%nat as Hle by lia. clear Hn.
  revert s Hle. induction n as [|n IH]; intros [|u s] Hle Hs; cbn [length] in Hle; try lia; [constructor..|].
  apply Forall_cons in Hs as [Hu Hs]. rewrite code_points_cons. unfold unit_ok in Hu.
  assert (scalar_ok 0xFFFD) as Hrep by (unfold scalar_ok; lia).
  destruct (is_high u) eqn:Hh; [destruct s as [|l s'']|].
  - by repeat constructor.
  - destruct (is_low l) eqn:Hl; [|constructor; [done|apply IH; [lia|done]]].
    apply Forall_cons in Hs as [_ Hs]. constructor; [|apply IH; [cbn in Hle; lia|done]].
    unfold is_high, is_low, scalar_ok, combine_surrogates in *. bool_lia.
  - destruct (is_low u) eqn:Hl; constructor; try apply IH; try done; try lia.
    unfold is_high, is_low, scalar_ok in *. apply andb_false_iff in Hh, Hl. rewrite !Z.leb_gt in *. lia.
Qed.

Lemma in_range_true lo hi b : lo <= b <= hi -> in_range lo hi b = true.
Proof. intros H. unfold in_range. apply andb_true_iff. rewrite !Z.leb_le. lia. Qed.

Lemma in_range_false lo hi b : b < lo \/ hi < b -> in_range lo hi b = false.
Proof. intros H. unfold in_range. apply andb_false_iff. rewrite !Z.leb_gt. lia. Qed.

(** The decoder on each well-formed sequence of the Encoding standard. *)
Lemma utf8_decode_1 b0 r :
  0 <= b0 <= 0x7F -> utf8_decode (b0 :: r) = cons b0 <$> utf8_decode r.
Proof. intros H. cbn -[in_range]. by rewrite in_range_true. Qed.

Lemma utf8_decode_2 b0 b1 r :
  0xC2 <= b0 <= 0xDF -> 0x80 <= b1 <= 0xBF ->
  utf8_decode (b0 :: b1 :: r) = cons ((b0 - 0xC0) * 64 + (b1 - 0x80)) <$> utf8_decode r.
Proof.
  intros H0 H1. unfold utf8_decode at 1; fold utf8_decode.
  rewrite (in_range_false 0 0x7F b0), (in_range_true 0xC2 0xDF b0), (in_range_true 0x80 0xBF b1) by lia.
  done.
Qed.

Lemma utf8_decode_3 b0 b1 b2 r :
  0xE0 <= b0 <= 0xEF ->
  (if b0 =? 0xE0 then 0xA0 else 0x80) <= b1 <= (if b0 =? 0xED then 0x9F else 0xBF) ->
  0x80 <= b2 <= 0xBF ->
  utf8_decode (b0 :: b1 :: b2 :: r) =
    cons ((b0 - 0xE0) * 4096 + (b1 - 0x80) * 64 + (b2 - 0x80)) <$> utf8_decode r.
Proof.
  intros H0 H1 H2. unfold utf8_decode at 1; fold utf8_decode.
  rewrite (in_range_false 0 0x7F b0), (in_range_false 0xC2 0xDF b0), (in_range_true 0xE0 0xEF b0) by lia.
  cbv zeta. rewrite (in_range_true _ _ b1 H1), (in_range_true _ _ b2 H2). done.
Qed.

Lemma utf8_decode_4 b0 b1 b2 b3 r :
  0xF0 <= b0 <= 0xF4 ->
  (if b0 =? 0xF0 then 0x90 else 0x80) <= b1 <= (if b0 =? 0xF4 then 0x8F else 0xBF) ->
  0x80 <= b2 <= 0xBF -> 0x80 <= b3 <= 0xBF ->
  utf8_decode (b0 :: b1 :: b2 :: b3 :: r) =
    app (utf16_of_code_point ((b0 - 0xF0) * 262144 + (b1 - 0x80) * 4096 + (b2 - 0x80) * 64 + (b3 - 0x80)))
      <$> utf8_decode r.
Proof.
  intros H0 H1 H2 H3. unfold utf8_decode at 1; fold utf8_decode.
  rewrite (in_range_false 0 0x7F b0), (in_range_false 0xC2 0xDF b0), (in_range_false 0xE0 0xEF b0),
    (in_range_true 0xF0 0xF4 b0) by lia.
  cbv zeta. rewrite (in_range_true _ _ b1 H1), (in_range_true _ _ b2 H2), (in_range_true _ _ b3 H3). done.
Qed.

Lemma utf8_decode_code_point c r :
  scalar_ok c ->
  utf8_decode (utf8_of_code_point c ++ r) = app (utf16_of_code_point c) <$> utf8_decode r.
Proof.
  intros Hc. unfold scalar_ok in Hc.
  pose proof (Z.div_mod c 64 ltac:(lia)). pose proof (Z.mod_pos_bound c 64 ltac:(lia)).
  pose proof (Z.div_mod (c / 64) 64 ltac:(lia)). pose proof (Z.mod_pos_bound (c / 64) 64 ltac:(lia)).
  pose proof (Z.div_mod (c / 4096) 64 ltac:(lia)). pose proof (Z.mod_pos_bound (c / 4096) 64 ltac:(lia)).
  assert (c / 64 / 64 = c / 4096) as H64 by (rewrite Z.div_div; [done|lia|lia]).
  assert (c / 4096 / 64 = c / 262144) as H4096 by (rewrite Z.div_div; [done|lia|lia]).
  unfold utf8_of_code_point.
  destruct (Z.ltb_spec c 0x80).
  { unfold utf16_of_code_point. destruct (Z.ltb_spec c 0x10000); [|lia].
    cbn [app]. by rewrite utf8_decode_1 by lia. }
  destruct (Z.ltb_spec c 0x800).
  { unfold utf16_of_code_point. destruct (Z.ltb_spec c 0x10000); [|lia].
    cbn [app]. rewrite utf8_decode_2 by lia. do 2 f_equal. f_equal. lia. }
  destruct (Z.ltb_spec c 0x10000).
  { unfold utf16_of_code_point. destruct (Z.ltb_spec c 0x10000); [|lia].
    cbn [app]. rewrite utf8_decode_3; [do 2 f_equal; f_equal; lia|lia| |lia].
    destruct (Z.eqb_spec (0xE0 + c / 4096) 0xE0), (Z.eqb_spec (0xE0 + c / 4096) 0xED); lia. }
  cbn [app]. rewrite utf8_decode_4; [do 3 f_equal; lia|lia| |lia|lia].
  destruct (Z.eqb_spec (0xF0 + c / 262144) 0xF0), (Z.eqb_spec (0xF0 + c / 262144) 0xF4); lia.
Qed.

Lemma utf8_decode_encode s : str_wf s -> utf8_decode (utf8_encode s) = Some (to_well_formed s).
Proof.
  intros Hs. unfold utf8_encode, to_well_formed. pose proof (code_points_ok s Hs) as Hc.
  clear Hs. induction Hc as [|c l Hc _ IH]; [done|].
  cbn [fmap list_fmap concat]. rewrite utf8_decode_code_point, IH; done.
Qed.

Lemma utf16_combine h l :
  is_high h = true -> is_low l = true -> utf16_of_code_point (combine_surrogates h l) = [h; l].
Proof.
  unfold is_high, is_low, utf16_of_code_point, combine_surrogates. intros Hh Hl. bool_lia.
  destruct (Z.ltb_spec (0x10000 + (h - 0xD800) * 0x400 + (l - 0xDC00)) 0x10000); [lia|].
  replace (0x10000 + (h - 0xD800) * 0x400 + (l - 0xDC00) - 0x10000)
    with ((h - 0xD800) * 0x400 + (l - 0xDC00)) by lia.
  rewrite Z.div_add_l, (Z.div_small (l - 0xDC00)) by lia.
  rewrite (Z.add_comm ((h - 0xD800) * 0x400)), Z.mod_add, Z.mod_small by lia.
  f_equal; [lia|f_equal; lia].
Qed.

Lemma is_well_formed_cons u s :
  is_well_formed (u :: s) =
    if is_high u then match s with l :: s'' => is_low l && is_well_formed s'' | [] => false end
    else negb (is_low u) && is_well_formed s.
Proof. done. Qed.

(** [textDecoder.decode(textEncoder.encode(s)) === s] holds exactly on the
    strings without unpaired surrogates. *)
Lemma to_well_formed_id s : str_wf s -> to_well_formed s = s <-> is_well_formed s = true.
Proof.
  unfold str_wf. remember (length s) as n eqn:Hn. assert (length s <= n)%nat as Hle by lia. clear Hn.
  revert s Hle. induction n as [|n IH]; intros [|u s] Hle Hs; cbn [length] in Hle; try lia; try done.
  apply Forall_cons in Hs as [Hu Hs]. unfold unit_ok in Hu.
  unfold to_well_formed in *. rewrite code_points_cons, is_well_formed_cons.
  assert (forall r, 0xFFFD :: r = u :: s -> is_high u || is_low u = true -> False) as Hrep.
  { intros r E Hs2. injection E as <- _. vm_compute in Hs2. discriminate. }
  destruct (is_high u) eqn:Hh; [destruct s as [|l s'']|].
  - split; [|done]. intros E. exfalso. exact (Hrep _ E eq_refl).
  - destruct (is_low l) eqn:Hlow; cbn [andb fmap list_fmap concat].
    + apply Forall_cons in Hs as [_ Hs]. cbn [length] in Hle.
      rewrite utf16_combine by done. cbn [app]. rewrite <- IH by (done || lia).
      split; [by intros [=]|by intros ->].
    + split; [|done]. intros E. exfalso. exact (Hrep _ E eq_refl).
  - destruct (is_low u) eqn:Hl; cbn [negb andb fmap list_fmap concat].
    + split; [|done]. intros E. exfalso. exact (Hrep _ E eq_refl).
    + unfold utf16_of_code_point at 1. destruct (Z.ltb_spec u 0x10000); [|lia]. cbn [app].
      rewrite <- (IH s) by (done || lia). split; [by intros [=]|by intros ->].
Qed.

Lemma utf8_of_code_point_length c :
  length (utf8_of_code_point c) =
    if c <? 0x80 then 1%nat else if c <? 0x800 then 2%nat else if c <? 0x10000 then 3%nat else 4%nat.
Proof. unfold utf8_of_code_point. repeat split_if; done. Qed.

Lemma utf8_encode_bytes_wf s : str_wf s -> bytes_wf (utf8_encode s).
Proof.
  intros Hs. unfold utf8_encode, bytes_wf. pose proof (code_points_ok s Hs) as Hc. clear Hs.
  induction Hc as [|c l Hc _ IH]; cbn; [constructor|]. apply Forall_app. split; [|done].
  unfold scalar_ok in Hc. unfold utf8_of_code_point, byte_ok.
  pose proof (Z.div_mod c 64 ltac:(lia)). pose proof (Z.mod_pos_bound c 64 ltac:(lia)).
  pose proof (Z.mod_pos_bound (c / 64) 64 ltac:(lia)).
  pose proof (Z.mod_pos_bound (c / 4096) 64 ltac:(lia)).
  assert (0 <= c / 4096 < 272) by (split; [apply Z.div_pos; lia|apply Z.div_lt_upper_bound; lia]).
  assert (0 <= c / 262144 < 5) by (split; [apply Z.div_pos; lia|apply Z.div_lt_upper_bound; lia]).
  destruct (Z.ltb_spec c 0x80); [repeat constructor; lia|].
  destruct (Z.ltb_spec c 0x800); [repeat constructor; lia|].
  destruct (Z.ltb_spec c 0x10000); [|repeat constructor; lia].
  assert (c / 4096 < 16) by (apply Z.div_lt_upper_bound; lia). repeat constructor; lia.
Qed.

Lemma div64 a b : 0 <= b < 64 -> (a * 64 + b) / 64 = a.
Proof. intros H. rewrite Z.div_add_l, Z.div_small by lia. lia. Qed.

Lemma mod64 a b : 0 <= b < 64 -> (a * 64 + b) mod 64 = b.
Proof. intros H. by rewrite Z.add_comm, Z.mod_add, Z.mod_small by lia. Qed.

(** One step of the decoder. *)
Lemma utf8_decode_inv l s :
  utf8_decode l = Some s -> (l = [] /\ s = []) \/
    exists c r s', scalar_ok c /\ l = utf8_of_code_point c ++ r /\ utf8_decode r = Some s' /\
      s = utf16_of_code_point c ++ s'.
Proof.
  destruct l as [|b0 r0]; [by intros [= <-]; left|]. intros H. right. cbn -[in_range utf16_of_code_point] in H.
  assert (forall c, c < 0x10000 -> utf16_of_code_point c = [c]) as Hsmall.
  { intros c Hc. unfold utf16_of_code_point. by destruct (Z.ltb_spec c 0x10000); [|lia]. }
  assert (forall lo hi b, in_range lo hi b = true -> lo <= b <= hi) as Hr.
  { intros lo hi b. unfold in_range. rewrite andb_true_iff, !Z.leb_le. done. }
  destruct (in_range 0 0x7F b0) eqn:E0.
  { apply Hr in E0. apply fmap_Some in H as (s' & Hs' & ->). exists b0, r0, s'. rewrite Hsmall by lia.
    split_and!; [unfold scalar_ok; lia| |done|done]. unfold utf8_of_code_point. range_lia. done. }
  destruct (in_range 0xC2 0xDF b0) eqn:E1; [|destruct (in_range 0xE0 0xEF b0) eqn:E2; [|destruct (in_range 0xF0 0xF4 b0) eqn:E3; [|done]]].
  - destruct r0 as [|b1 r]; [done|]. destruct (in_range 0x80 0xBF b1) eqn:F1; [|done]. apply Hr in E1, F1.
    apply fmap_Some in H as (s' & Hs' & ->). set (c := (b0 - 0xC0) * 64 + (b1 - 0x80)).
    assert (c / 64 = b0 - 0xC0 /\ c mod 64 = b1 - 0x80) as [Hd Hm].
    { unfold c. by rewrite div64, mod64 by lia. }
    exists c, r, s'. rewrite Hsmall by lia. split_and!; [unfold scalar_ok; lia| |done|done].
    unfold utf8_of_code_point. rewrite Hd, Hm. range_lia. cbn [app]. repeat f_equal; lia.
  - destruct r0 as [|b1 [|b2 r]]; [done..|]. destruct (_ && _) eqn:F; [|done].
    apply andb_true_iff in F as [F1 F2]. apply Hr in E2, F1, F2.
    apply fmap_Some in H as (s' & Hs' & ->).
    set (c := (b0 - 0xE0) * 4096 + (b1 - 0x80) * 64 + (b2 - 0x80)).
    assert (0x80 <= b1 <= 0xBF /\ 0x800 <= c < 0x10000 /\ scalar_ok c) as (Hb1 & Hc & Hok).
    { unfold scalar_ok, c. destruct (Z.eqb_spec b0 0xE0), (Z.eqb_spec b0 0xED); lia. }
    assert (c / 4096 = b0 - 0xE0 /\ c / 64 mod 64 = b1 - 0x80 /\ c mod 64 = b2 - 0x80) as (Hd1 & Hd2 & Hd3).
    { replace c with (((b0 - 0xE0) * 64 + (b1 - 0x80)) * 64 + (b2 - 0x80)) by (unfold c; lia).
      split_and!.
      - change 4096 with (64 * 64). rewrite <- Z.div_div by lia. by rewrite !div64 by lia.
      - by rewrite div64, mod64 by lia.
      - by rewrite mod64 by lia. }
    exists c, r, s'. rewrite Hsmall by lia. split_and!; [done| |done|done].
    unfold utf8_of_code_point. rewrite Hd1, Hd2, Hd3. range_lia. cbn [app]. repeat f_equal; lia.
  - destruct r0 as [|b1 [|b2 [|b3 r]]]; [done..|]. destruct (_ && _) eqn:F; [|done].
    apply andb_true_iff in F as [[F1 F2]%andb_true_iff F3]. apply Hr in E3, F1, F2, F3.
    apply fmap_Some in H as (s' & Hs' & ->).
    set (c := (b0 - 0xF0) * 262144 + (b1 - 0x80) * 4096 + (b2 - 0x80) * 64 + (b3 - 0x80)).
    assert (0x80 <= b1 <= 0xBF /\ 0x10000 <= c < 0x110000) as (Hb1 & Hc).
    { unfold c. destruct (Z.eqb_spec b0 0xF0), (Z.eqb_spec b0 0xF4); lia. }
    assert (c / 262144 = b0 - 0xF0 /\ c / 4096 mod 64 = b1 - 0x80 /\ c / 64 mod 64 = b2 - 0x80 /\ c mod 64 = b3 - 0x80)
      as (Hd0 & Hd1 & Hd2 & Hd3).
    { replace c with ((((b0 - 0xF0) * 64 + (b1 - 0x80)) * 64 + (b2 - 0x80)) * 64 + (b3 - 0x80)) by (unfold c; lia).
      split_and!.
      - change 262144 with (64 * 64 * 64). rewrite <- !Z.div_div by lia. by rewrite !div64 by lia.
      - change 4096 with (64 * 64). rewrite <- !Z.div_div by lia. by rewrite !div64, mod64 by lia.
      - by rewrite div64, mod64 by lia.
      - by rewrite mod64 by lia. }
    exists c, r, s'. split_and!; [unfold scalar_ok; lia| |done|done].
    unfold utf8_of_code_point. rewrite Hd0, Hd1, Hd2, Hd3. range_lia. cbn [app]. repeat f_equal; lia.
Qed.

Lemma utf16_of_code_point_props c s :
  scalar_ok c ->
  code_points (utf16_of_code_point c ++ s) = c :: code_points s /\
  is_well_formed (utf16_of_code_point c ++ s) = is_well_formed s /\ str_wf (utf16_of_code_point c).
Proof.
  intros Hc. unfold scalar_ok in Hc. unfold utf16_of_code_point. destruct (Z.ltb_spec c 0x10000).
  - cbn [app]. rewrite code_points_cons, is_well_formed_cons.
    assert (is_high c = false /\ is_low c = false) as [-> ->].
    { unfold is_high, is_low. rewrite !andb_false_iff, !Z.leb_gt. lia. }
    split_and!; [done|done|]. repeat constructor; lia.
  - pose proof (Z.div_mod (c - 0x10000) 0x400 ltac:(lia)). pose proof (Z.mod_pos_bound (c - 0x10000) 0x400 ltac:(lia)).
    cbn [app]. rewrite code_points_cons, is_well_formed_cons.
    assert (is_high (0xD800 + (c - 0x10000) / 0x400) = true) as ->.
    { unfold is_high. rewrite andb_true_iff, !Z.leb_le. lia. }
    assert (is_low (0xDC00 + (c - 0x10000) mod 0x400) = true) as ->.
    { unfold is_low. rewrite andb_true_iff, !Z.leb_le. lia. }
    split_and!; [f_equal; unfold combine_surrogates; lia|done|]. unfold str_wf, unit_ok. repeat constructor; lia.
Qed.

(** Every valid UTF-8 sequence is the encoding of the text it decodes to. *)
Lemma utf8_encode_decode l s :
  utf8_decode l = Some s -> str_wf s /\ is_well_formed s = true /\ utf8_encode s = l.
Proof.
  remember (length l) as n eqn:Hn. assert (length l <= n)%nat as Hle by lia. clear Hn.
  revert l s Hle. induction n as [|n IH]; intros l s Hle H;
    (apply utf8_decode_inv in H as [[-> ->]|(c & r & s' & Hc & -> & Hr & ->)]; [by repeat constructor|]);
    pose proof (utf8_of_code_point_length c) as Hlen; rewrite length_app in Hle;
    (assert (1 <= length (utf8_of_code_point c))%nat by (rewrite Hlen; repeat split_if; lia)); [lia|].
  destruct (utf16_of_code_point_props c s' Hc) as (Hcp & Hwf & Hs). destruct (IH r s') as (H1 & H2 & H3); [lia|done|].
  split_and!; [by apply Forall_app|by rewrite Hwf|]. unfold utf8_encode. rewrite Hcp. cbn. by rewrite <- H3.
Qed.

(** * Lemmas on literals and numerals *)

#[export] Instance js_inj : Inj (=) (=) js.
Proof.
  assert (Inj (=) (=) (Z.of_nat ∘ nat_of_ascii)) as Hinj.
  { intros a b H. cbn in H. apply Nat2Z.inj in H.
    by rewrite <- (ascii_nat_embedding a), <- (ascii_nat_embedding b), H. }
  intros s1 s2 H. unfold js in H. apply (inj (fmap (Z.of_nat ∘ nat_of_ascii))) in H.
  rewrite <- (String.string_of_list_ascii_of_string s1), <- (String.string_of_list_ascii_of_string s2).
  by rewrite H.
Qed.

Lemma js_str_wf s : str_wf (js s).
Proof.
  unfold js, str_wf. apply Forall_fmap, Forall_true. intros a. unfold unit_ok. cbn.
  pose proof (nat_ascii_bounded a). lia.
Qed.

#[export] Instance js_of_Z_inj : Inj (=) (=) js_of_Z.
Proof. intros a b H. unfold js_of_Z in H. apply (inj js) in H. by apply (inj pretty) in H. Qed.

Lemma js_of_Z_str_wf z : str_wf (js_of_Z z).
Proof. apply js_str_wf. Qed.

#[export] Hint Resolve be_bytes_wf js_str_wf js_of_Z_str_wf utf8_encode_bytes_wf : s2r.
