(* ===== verification/Json.v ===== *)
(** JSON values as the code holds them: plain JavaScript objects and arrays.

    An object is the list of its own enumerable string-keyed data properties in
    [Object.keys] order: array-index keys ascending, then the other keys in
    creation order.  [obj_set] is [Object.defineProperty] (or a spread or
    assignment) of an own data property, [obj_delete] is [delete].

    [json_eqv] is the equality the code can observe on JSON data: [===] on
    primitives (so [0] and [-0] are equal), elementwise on arrays, by key on
    objects whatever the key order. *)
From Stdlib Require Import Sorted.
From S2P Require Import Prelude JsBase.

(** * Objects as ordered property lists *)

Section Objects.
Context {V : Type}.
Implicit Types (o : list (jsstr * V)) (k : jsstr) (v : V).

(** The array index a key spells ([CanonicalNumericIndexString] below
    [2^32 - 1]). *)
Definition parse_decimal k : option Z :=
  foldl (fun acc u => match acc with
                      | Some n => if in_range 0x30 0x39 u then Some (10 * n + (u - 0x30)) else None
                      | None => None
                      end) (Some 0) k.

Definition array_index k : option Z :=
  match parse_decimal k with
  | Some n => if (n <? 2 ^ 32 - 1) && bool_decide (js_of_Z n = k) then Some n else None
  | None => None
  end.

(** [k1] is listed before [k2] when [k2] is added after [k1]. *)
Definition key_before k1 k2 : Prop :=
  match array_index k1, array_index k2 with
  | Some a, Some b => a < b
  | Some _, None => True
  | None, Some _ => False
  | None, None => k1 <> k2
  end.

Fixpoint obj_get o k : option V :=
  match o with
  | [] => None
  | (k', v) :: o => if decide (k' = k) then Some v else obj_get o k
  end.

(** [Object.hasOwn(o, k)]. *)
Definition obj_has o k : bool := match obj_get o k with Some _ => true | None => false end.

(** [Object.keys(o)]. *)
Definition obj_keys o : list jsstr := fst <$> o.

Fixpoint obj_replace o k v : list (jsstr * V) :=
  match o with
  | [] => []
  | (k', v') :: o => if decide (k' = k) then (k, v) :: o else (k', v') :: obj_replace o k v
  end.

(** Where a new array-index key goes: before the first key that is not a
    smaller array index. *)
Fixpoint obj_insert_index (n : Z) o k v : list (jsstr * V) :=
  match o with
  | [] => [(k, v)]
  | (k', v') :: o' =>
      match array_index k' with
      | Some m => if m <? n then (k', v') :: obj_insert_index n o' k v else (k, v) :: o
      | None => (k, v) :: o
      end
  end.

Definition obj_set o k v : list (jsstr * V) :=
  if obj_has o k then obj_replace o k v
  else match array_index k with
       | Some n => obj_insert_index n o k v
       | None => o ++ [(k, v)]
       end.

Definition obj_delete o k : list (jsstr * V) := List.filter (fun kv => negb (bool_decide (fst kv = k))) o.

(** An object built by setting properties one after the other. *)
Definition obj_of_entries (l : list (jsstr * V)) : list (jsstr * V) :=
  foldl (fun o kv => obj_set o (fst kv) (snd kv)) [] l.

Definition obj_sorted o : Prop := StronglySorted key_before (obj_keys o).

Lemma obj_get_None o k : obj_get o k = None <-> k ∉ obj_keys o.
Proof.
  unfold obj_keys. induction o as [|[k' v] o IH]; cbn; [split; [intros _; set_solver|done]|].
  case_decide; rewrite ?elem_of_cons; naive_solver.
Qed.

Lemma obj_get_Some_elem o k v : obj_get o k = Some v -> (k, v) ∈ o.
Proof.
  induction o as [|[k' v'] o IH]; cbn; [done|]. rewrite elem_of_cons. case_decide; naive_solver.
Qed.

Lemma obj_get_elem o k v : NoDup (obj_keys o) -> (k, v) ∈ o -> obj_get o k = Some v.
Proof.
  unfold obj_keys. induction o as [|[k' v'] o IH]; cbn; [by intros _ ?%elem_of_nil|].
  rewrite NoDup_cons, elem_of_cons. intros [Hni Hnd] [[= -> ->]|Hin]; [by rewrite decide_True|].
  case_decide; subst; [|auto]. exfalso. apply Hni. apply list_elem_of_fmap. by exists (k, v).
Qed.

Lemma obj_has_elem o k : obj_has o k = true <-> k ∈ obj_keys o.
Proof.
  unfold obj_has. destruct (obj_get o k) eqn:E.
  - split; [|done]. intros _. apply obj_get_Some_elem in E.
    apply list_elem_of_fmap. by exists (k, v).
  - apply obj_get_None in E. split; [done|naive_solver].
Qed.

Lemma obj_get_app o1 o2 k :
  obj_get (o1 ++ o2) k = match obj_get o1 k with Some v => Some v | None => obj_get o2 k end.
Proof. induction o1 as [|[k' v'] o1 IH]; cbn; [done|]. by case_decide. Qed.

Lemma obj_get_replace o k v k' :
  obj_has o k = true ->
  obj_get (obj_replace o k v) k' = if decide (k = k') then Some v else obj_get o k'.
Proof.
  rewrite obj_has_elem. unfold obj_keys. induction o as [|[k1 v1] o IH]; cbn; [by intros ?%elem_of_nil|].
  rewrite elem_of_cons. intros Hk.
  destruct (decide (k1 = k)) as [->|Hne]; cbn.
  - by destruct (decide (k = k')).
  - destruct (decide (k1 = k')) as [->|]; [rewrite decide_False by done; done|].
    apply IH. naive_solver.
Qed.

Lemma obj_get_insert_index n o k v k' :
  obj_get o k = None ->
  obj_get (obj_insert_index n o k v) k' = if decide (k = k') then Some v else obj_get o k'.
Proof.
  induction o as [|[k1 v1] o IH]; cbn; intros Hk.
  - by destruct (decide (k = k')).
  - destruct (decide (k1 = k)) as [|Hne]; [done|].
    destruct (array_index k1) as [m|]; [destruct (m <? n)|]; cbn;
      repeat (case_decide; subst; try done); rewrite IH by done; by repeat case_decide.
Qed.

(** Reading a property after a write. *)
Lemma obj_get_set o k v k' :
  obj_get (obj_set o k v) k' = if decide (k = k') then Some v else obj_get o k'.
Proof.
  unfold obj_set. destruct (obj_has o k) eqn:E; [by apply obj_get_replace|].
  assert (obj_get o k = None) as Hn.
  { unfold obj_has in E. by destruct (obj_get o k). }
  destruct (array_index k); [by apply obj_get_insert_index|].
  rewrite obj_get_app. cbn. case_decide; subst; [by rewrite Hn|by destruct (obj_get o k')].
Qed.

Lemma obj_get_delete o k k' :
  obj_get (obj_delete o k) k' = if decide (k = k') then None else obj_get o k'.
Proof.
  induction o as [|[k1 v1] o IH]; cbn; [by case_decide|].
  case_bool_decide; cbn; subst; rewrite ?IH; repeat case_decide; subst; done.
Qed.

Lemma obj_keys_replace o k v : obj_keys (obj_replace o k v) = obj_keys o.
Proof.
  unfold obj_keys. induction o as [|[k1 v1] o IH]; cbn; [done|]. case_decide; cbn; subst; congruence.
Qed.

Lemma obj_keys_insert_index n o k v : obj_keys (obj_insert_index n o k v) ≡ₚ k :: obj_keys o.
Proof.
  unfold obj_keys. induction o as [|[k1 v1] o IH]; cbn; [done|].
  destruct (array_index k1) as [m|]; [destruct (m <? n)|]; cbn; [|done..].
  rewrite IH. by rewrite Permutation_swap.
Qed.
End Objects.

Lemma array_index_inj k1 k2 n : array_index k1 = Some n -> array_index k2 = Some n -> k1 = k2.
Proof.
  unfold array_index. intros H1 H2.
  destruct (parse_decimal k1) as [n1|]; [|done]. destruct (parse_decimal k2) as [n2|]; [|done].
  destruct ((n1 <? 2 ^ 32 - 1) && bool_decide (js_of_Z n1 = k1)) eqn:E1; [|done].
  destruct ((n2 <? 2 ^ 32 - 1) && bool_decide (js_of_Z n2 = k2)) eqn:E2; [|done].
  simplify_eq. apply andb_true_iff in E1 as [_ E1], E2 as [_ E2].
  apply bool_decide_eq_true in E1, E2. congruence.
Qed.

Lemma key_before_ne k1 k2 : key_before k1 k2 -> k1 <> k2.
Proof.
  unfold key_before. intros H ->. destruct (array_index k2); [lia|done].
Qed.

Section SortedObjects.
Context {V : Type}.
Implicit Types (o : list (jsstr * V)) (k : jsstr) (v : V).

Lemma obj_sorted_nil : @obj_sorted V [].
Proof. constructor. Qed.

Lemma obj_sorted_NoDup o : obj_sorted o -> NoDup (obj_keys o).
Proof.
  unfold obj_sorted. induction 1 as [|k l _ IH Hk]; [constructor|]. constructor; [|done].
  intros Hin. rewrite Forall_forall in Hk. by apply (key_before_ne k k); [apply Hk|].
Qed.

Lemma obj_sorted_cons k v o :
  obj_sorted ((k, v) :: o) <-> obj_sorted o /\ Forall (key_before k) (obj_keys o).
Proof.
  unfold obj_sorted, obj_keys. cbn. split.
  - intros H. by apply StronglySorted_inv in H.
  - intros [H1 H2]. by constructor.
Qed.

Lemma obj_sorted_replace o k v : obj_sorted o -> obj_sorted (obj_replace o k v).
Proof. unfold obj_sorted. by rewrite obj_keys_replace. Qed.

Lemma obj_sorted_insert_index n o k v :
  array_index k = Some n -> obj_get o k = None -> obj_sorted o -> obj_sorted (obj_insert_index n o k v).
Proof.
  intros Hn. induction o as [|[k1 v1] o IH]; cbn; intros Hk Hs.
  { apply obj_sorted_cons. split; [done|constructor]. }
  destruct (decide (k1 = k)) as [|Hne]; [done|].
  apply obj_sorted_cons in Hs as Hs'. destruct Hs' as [Hs1 Hb].
  assert (key_before k k1 -> obj_sorted ((k, v) :: (k1, v1) :: o)) as Hfront.
  { intros Hkk. apply obj_sorted_cons. split; [done|]. constructor; [done|].
    eapply Forall_impl; [exact Hb|]. intros k2. unfold key_before in *. rewrite Hn in *.
    destruct (array_index k1) eqn:E1, (array_index k2); naive_solver lia. }
  destruct (array_index k1) as [m|] eqn:Em; [destruct (m <? n) eqn:Hmn|].
  - apply obj_sorted_cons. split; [by apply IH|].
    rewrite obj_keys_insert_index. constructor; [|done]. unfold key_before. rewrite Em, Hn. bool_lia.
  - apply Hfront. unfold key_before. rewrite Em, Hn.
    assert (m <> n) by (intros ->; apply Hne; by eapply array_index_inj). bool_lia.
  - apply Hfront. unfold key_before. by rewrite Em, Hn.
Qed.

Lemma obj_sorted_snoc o k v :
  obj_sorted o -> Forall (fun k' => key_before k' k) (obj_keys o) -> obj_sorted (o ++ [(k, v)]).
Proof.
  induction o as [|[k1 v1] o IH]; cbn; intros Hs Hb.
  { apply obj_sorted_cons. split; [done|constructor]. }
  apply obj_sorted_cons in Hs as [Hs Hb1]. apply Forall_cons in Hb as [Hk1 Hb].
  apply obj_sorted_cons. split; [by apply IH|].
  unfold obj_keys in *. rewrite fmap_app. apply Forall_app. split; [done|by constructor].
Qed.

(** Writing a property keeps the property order of the language. *)
Lemma obj_sorted_set o k v : obj_sorted o -> obj_sorted (obj_set o k v).
Proof.
  intros Hs. unfold obj_set. destruct (obj_has o k) eqn:E; [by apply obj_sorted_replace|].
  assert (obj_get o k = None) as Hn by (unfold obj_has in E; by destruct (obj_get o k)).
  destruct (array_index k) eqn:Ei; [by apply obj_sorted_insert_index|].
  apply obj_sorted_snoc; [done|]. apply obj_get_None in Hn.
  apply Forall_forall. intros k' Hk'. unfold key_before. rewrite Ei.
  destruct (array_index k'); [done|]. by intros ->.
Qed.

Lemma obj_sorted_of_entries (l : list (jsstr * V)) : obj_sorted (obj_of_entries l).
Proof.
  unfold obj_of_entries. assert (forall o, obj_sorted o ->
    obj_sorted (foldl (fun o kv => obj_set o (fst kv) (snd kv)) o l)) as H; [|by apply H, obj_sorted_nil].
  induction l as [|[k v] l IH]; cbn; intros o Ho; [done|]. by apply IH, obj_sorted_set.
Qed.

Lemma obj_sorted_delete o k : obj_sorted o -> obj_sorted (obj_delete o k).
Proof.
  induction o as [|[k1 v1] o IH]; cbn; [done|]. intros [Hs Hb]%obj_sorted_cons.
  case_bool_decide; cbn; [by apply IH|]. apply obj_sorted_cons. split; [by apply IH|].
  apply Forall_forall. intros k2 Hk2. rewrite Forall_forall in Hb. apply Hb.
  unfold obj_keys in *. apply list_elem_of_fmap in Hk2 as ([k3 v3] & -> & Hin).
  apply list_elem_of_fmap. exists (k3, v3). split; [done|].
  unfold obj_delete in Hin. apply list_elem_of_In, filter_In in Hin as [Hin _]. by apply list_elem_of_In.
Qed.

Lemma obj_set_last o k v :
  Forall (fun k' => key_before k' k) (obj_keys o) -> obj_set o k v = o ++ [(k, v)].
Proof.
  intros Hb. unfold obj_set.
  assert (obj_has o k = false) as ->.
  { unfold obj_has. destruct (obj_get o k) as [v'|] eqn:E; [|done]. exfalso.
    rewrite Forall_forall in Hb. apply (key_before_ne k k); [|done]. apply Hb.
    apply obj_has_elem. unfold obj_has. by rewrite E. }
  destruct (array_index k) as [n|] eqn:En; [|done].
  induction o as [|[k1 v1] o IH]; cbn; [done|].
  apply Forall_cons in Hb as [H1 Hb]. unfold key_before in H1. cbn in H1. rewrite En in H1.
  destruct (array_index k1) as [m|]; [|done]. assert ((m <? n) = true) as -> by lia. f_equal. by apply IH.
Qed.

(** Copying an object property by property ([{ ...o }], [clone], the decoder
    of maps) gives the same object. *)
Lemma obj_of_entries_id o : obj_sorted o -> obj_of_entries o = o.
Proof.
  unfold obj_of_entries.
  assert (forall o1 o2, obj_sorted (o1 ++ o2) ->
    foldl (fun o kv => obj_set o (fst kv) (snd kv)) o1 o2 = o1 ++ o2) as H; [|by apply (H [])].
  intros o1 o2. revert o1. induction o2 as [|[k v] o2 IH]; intros o1 Hs; cbn; [by rewrite app_nil_r|].
  rewrite obj_set_last.
  - rewrite IH; rewrite <- app_assoc; done.
  - clear IH. induction o1 as [|[k1 v1] o1 IH1]; [constructor|]. cbn in Hs.
    apply obj_sorted_cons in Hs as [Hs Hb]. constructor; [|by apply IH1].
    rewrite Forall_forall in Hb. apply Hb. unfold obj_keys. rewrite fmap_app. set_solver.
Qed.
End SortedObjects.

(** * JSON values *)

#[local] Unset Elimination Schemes.
Inductive json : Type :=
| JNull
| JBool (b : bool)
| JNum (n : jsnum)
| JStr (s : jsstr)
| JArr (l : list json)
| JObj (o : list (jsstr * json)).
#[local] Set Elimination Schemes.

Lemma json_ind (P : json -> Prop) :
  P JNull -> (forall b, P (JBool b)) -> (forall n, P (JNum n)) -> (forall s, P (JStr s)) ->
  (forall l, Forall P l -> P (JArr l)) ->
  (forall o, Forall (fun kv => P (snd kv)) o -> P (JObj o)) ->
  forall j, P j.
Proof.
  intros Hnull Hbool Hnum Hstr Harr Hobj.
  fix F 1. intros [| b | n | s | l | o];
    [exact Hnull|exact (Hbool b)|exact (Hnum n)|exact (Hstr s)|clear Hobj|clear Harr].
  - apply Harr. induction l as [|j l IH]; constructor; [apply F|exact IH].
  - apply Hobj. induction o as [|[k j] o IH]; constructor; [apply F|exact IH].
Qed.

Fixpoint json_beq (a b : json) : bool :=
  match a, b with
  | JNull, JNull => true
  | JBool x, JBool y => Bool.eqb x y
  | JNum x, JNum y => bool_decide (x = y)
  | JStr x, JStr y => bool_decide (x = y)
  | JArr x, JArr y =>
      (fix go x y := match x, y with
                     | [], [] => true
                     | a :: x, b :: y => json_beq a b && go x y
                     | _, _ => false
                     end) x y
  | JObj x, JObj y =>
      (fix go x y := match x, y with
                     | [], [] => true
                     | (k1, a) :: x, (k2, b) :: y => bool_decide (k1 = k2) && json_beq a b && go x y
                     | _, _ => false
                     end) x y
  | _, _ => false
  end.

Lemma json_beq_eq a b : json_beq a b = true <-> a = b.
Proof.
  revert b. induction a as [|x|x|x|x IH|x IH] using json_ind; intros [|y|y|y|y|y]; cbn; try (split; congruence).
  - rewrite Bool.eqb_true_iff. naive_solver.
  - rewrite bool_decide_eq_true. naive_solver.
  - rewrite bool_decide_eq_true. naive_solver.
  - transitivity (x = y); [|naive_solver]. revert y.
    induction IH as [|a x Ha _ IHx]; intros [|b y]; try (split; congruence).
    rewrite andb_true_iff, Ha, IHx. naive_solver.
  - transitivity (x = y); [|naive_solver]. revert y.
    induction IH as [|[k a] x Ha _ IHx]; intros [|[k' b] y]; try (split; congruence).
    cbn in Ha. rewrite !andb_true_iff, Ha, IHx, bool_decide_eq_true. naive_solver.
Qed.

#[export] Instance json_eq_dec : EqDecision json.
Proof.
  intros a b. destruct (json_beq a b) eqn:E; [left; by apply json_beq_eq|right].
  intros ->. assert (json_beq b b = true) by by apply json_beq_eq. congruence.
Defined.

(** Finite numbers, well-formed strings and sorted duplicate-free objects: the
    values of type [JsonValue]. *)
Inductive json_wf : json -> Prop :=
| wf_null : json_wf JNull
| wf_bool b : json_wf (JBool b)
| wf_num n : num_wf n -> isFinite n = true -> json_wf (JNum n)
| wf_str s : str_wf s -> json_wf (JStr s)
| wf_arr l : Forall json_wf l -> json_wf (JArr l)
| wf_obj o :
    obj_sorted o -> Forall (fun kv => str_wf (fst kv)) o ->
    Forall (fun kv => json_wf (snd kv)) o -> json_wf (JObj o).

#[export] Hint Constructors json_wf : s2r.

Lemma wf_empty : json_wf (JObj []).
Proof. by apply wf_obj; constructor. Qed.

(** Well-formedness of concrete values. *)
Ltac wf_json :=
  repeat first
    [ apply js_str_wf | apply wf_arr | apply wf_str | apply wf_null | apply wf_bool | apply wf_empty
    | apply wf_num; [exact I|reflexivity]
    | apply Forall_nil_2 | apply Forall_cons_2 | progress cbn [fst snd] ].

(** [typeof value === "object" && value !== null]. *)
Definition isObj (v : json) : bool :=
  match v with JArr _ | JObj _ => true | _ => false end.

(** * Observable equality *)

Definition num_eqv (a b : jsnum) : Prop :=
  a = b \/ (num_index a = Some 0%N /\ num_index b = Some 0%N).

Inductive json_eqv : json -> json -> Prop :=
| eqv_null : json_eqv JNull JNull
| eqv_bool b : json_eqv (JBool b) (JBool b)
| eqv_num a b : num_eqv a b -> json_eqv (JNum a) (JNum b)
| eqv_str s : json_eqv (JStr s) (JStr s)
| eqv_arr l1 l2 : Forall2 json_eqv l1 l2 -> json_eqv (JArr l1) (JArr l2)
| eqv_obj o1 o2 :
    (forall k, option_Forall2 json_eqv (obj_get o1 k) (obj_get o2 k)) ->
    json_eqv (JObj o1) (JObj o2).

#[export] Hint Constructors json_eqv : s2r.

#[export] Instance num_eqv_equiv : Equivalence num_eqv.
Proof. unfold num_eqv. split; red; naive_solver. Qed.

Lemma Forall_obj_get (P : json -> Prop) o k v :
  Forall (fun kv => P (snd kv)) o -> obj_get o k = Some v -> P v.
Proof. rewrite Forall_forall. intros H Hg%obj_get_Some_elem. exact (H _ Hg). Qed.

Lemma json_eqv_refl a : json_eqv a a.
Proof.
  induction a as [| | | |l IH|o IH] using json_ind; auto with s2r.
  - constructor. reflexivity.
  - constructor. by induction IH; constructor.
  - constructor. intros k. destruct (obj_get o k) eqn:E; constructor.
    exact (Forall_obj_get (fun v => json_eqv v v) _ _ _ IH E).
Qed.

Lemma json_eqv_sym a b : json_eqv a b -> json_eqv b a.
Proof.
  revert b. induction a as [|x0|x0|x0|l IH|o IH] using json_ind; intros b Hb; inversion Hb as [| | | |? l2 Hl|? o2 Ho]; subst; auto with s2r.
  - constructor. by symmetry.
  - constructor. clear Hb. induction Hl as [|x y l l2 Hxy _ IHl]; constructor;
      apply Forall_cons in IH as [? ?]; auto.
  - constructor. intros k. specialize (Ho k). destruct (obj_get o k) eqn:E; inversion Ho; subst; constructor.
    eapply (Forall_obj_get (fun v => forall b, json_eqv v b -> json_eqv b v)); eauto.
Qed.

Lemma json_eqv_trans a b c : json_eqv a b -> json_eqv b c -> json_eqv a c.
Proof.
  revert b c. induction a as [|x0|x0|x0|l IH|o IH] using json_ind; intros b c Hab Hbc;
    inversion Hab as [| | | |? l2 Hl|? o2 Ho]; subst; inversion Hbc as [| | | |? l3 Hl'|? o3 Ho']; subst; auto with s2r.
  - constructor. by etransitivity.
  - constructor. clear Hab Hbc. revert l3 Hl'. induction Hl as [|x y l l2 Hxy _ IHl]; intros l3 Hl';
      inversion Hl'; subst; constructor; apply Forall_cons in IH as [? ?]; eauto.
  - constructor. intros k. specialize (Ho k). specialize (Ho' k).
    destruct (obj_get o k) eqn:E; inversion Ho as [x y Hxy Hx Hy|Hx Hy]; subst; rewrite <- Hy in Ho';
      inversion Ho'; subst; constructor.
    eapply (Forall_obj_get (fun v => forall b c, json_eqv v b -> json_eqv b c -> json_eqv v c)); eauto.
Qed.

#[export] Instance json_eqv_equiv : Equivalence json_eqv.
Proof. split; red; eauto using json_eqv_refl, json_eqv_sym, json_eqv_trans. Qed.

#[export] Hint Resolve json_eqv_refl : s2r.

(** * Copies and comparisons the code makes *)

(** [clone] and [cloneJson]: arrays element by element, objects property by
    property. *)
Fixpoint cloneJson (value : json) : json :=
  match value with
  | JArr l => JArr (cloneJson <$> l)
  | JObj o => JObj (obj_of_entries ((fun kv => (fst kv, cloneJson (snd kv))) <$> o))
  | _ => value
  end.

(** [left === right] where at most one side is a container, or the containers
    are distinct objects. *)
Definition prim_strict_eq (left right : json) : bool :=
  match left, right with
  | JNull, JNull => true
  | JBool a, JBool b => Bool.eqb a b
  | JNum a, JNum b => num_strict_eq a b
  | JStr a, JStr b => bool_decide (a = b)
  | _, _ => false
  end.

(** [jsonEqual].  The code's [left === right] shortcut on one and the same
    container only skips a comparison that succeeds ([jsonEqual_eqv]). *)
Fixpoint jsonEqual (left right : json) : bool :=
  prim_strict_eq left right ||
  match left, right with
  | JArr l, JArr r =>
      (length l =? length r)%nat &&
      (fix go l r := match l, r with
                     | a :: l, b :: r => jsonEqual a b && go l r
                     | _, _ => true
                     end) l r
  | JObj l, JObj r =>
      (length (obj_keys l) =? length (obj_keys r))%nat &&
      (fix go l := match l with
                   | [] => true
                   | (k, a) :: l =>
                       match obj_get r k with Some b => jsonEqual a b | None => false end && go l
                   end) l
  | _, _ => false
  end.

Lemma cloneJson_id v : json_wf v -> cloneJson v = v.
Proof.
  induction v as [| | | |l IH|o IH] using json_ind; intros Hv; try done; inversion Hv as [| | | |? Hl|? Hs _ Ho]; subst; cbn; f_equal.
  - clear Hv. induction IH as [|x l Hx _ IHl]; [done|]. apply Forall_cons in Hl as [? ?].
    cbn. rewrite Hx, IHl; done.
  - assert ((fun kv => (fst kv, cloneJson (snd kv))) <$> o = o) as ->; [|by apply obj_of_entries_id].
    clear Hs Hv. induction IH as [|[k x] o Hx _ IHo]; [done|]. apply Forall_cons in Ho as [? ?].
    cbn in *. rewrite Hx, IHo; done.
Qed.

Lemma num_strict_eq_eqv a b :
  isFinite a = true -> isFinite b = true -> num_strict_eq a b = true <-> num_eqv a b.
Proof.
  assert (forall n, isFinite n = true -> isNaN n = false) as Hnan.
  { intros [z|f]; [done|]. cbn. intros ->%negb_true_iff. done. }
  assert (forall n, match n with NInt 0 => true | _ => is_minus_zero n end = true <-> num_index n = Some 0%N) as Hzero.
  { intros [[|q|q]|f]; cbn; try naive_solver. by destruct (f =? f64_minus_zero). }
  intros Ha Hb. unfold num_strict_eq, num_eqv. rewrite !Hnan by done. cbn [orb].
  specialize (Hzero a) as Hza. specialize (Hzero b) as Hzb.
  destruct (match a with NInt 0 => true | _ => is_minus_zero a end);
    destruct (match b with NInt 0 => true | _ => is_minus_zero b end); cbn;
    rewrite ?bool_decide_eq_true; naive_solver.
Qed.

Lemma obj_eqv_keys {A B} (R : A -> B -> Prop) (l : list (jsstr * A)) (r : list (jsstr * B)) :
  NoDup (obj_keys l) -> NoDup (obj_keys r) -> length (obj_keys l) = length (obj_keys r) ->
  (forall k a, (k, a) ∈ l -> exists b, obj_get r k = Some b /\ R a b) ->
  forall k, option_Forall2 R (obj_get l k) (obj_get r k).
Proof.
  intros Hl Hr Hlen H k.
  destruct (obj_get l k) as [a|] eqn:E.
  - apply obj_get_Some_elem in E. destruct (H k a E) as (b & -> & Hab). by constructor.
  - assert (obj_get r k = None) as ->; [|constructor]. apply obj_get_None in E. apply obj_get_None.
    assert (obj_keys l ≡ₚ obj_keys r) as Hp; [|by rewrite <- Hp].
    apply submseteq_length_Permutation; [|lia]. apply NoDup_submseteq; [done|].
    intros k' Hk'. unfold obj_keys in Hk'. apply list_elem_of_fmap in Hk' as ([k1 a1] & -> & Hin).
    destruct (H _ _ Hin) as (b & Hb & _). apply obj_has_elem. unfold obj_has. cbn. by rewrite Hb.
Qed.

(** [jsonEqual] decides observable equality of JSON data. *)
Lemma jsonEqual_eqv a b : json_wf a -> json_wf b -> jsonEqual a b = true <-> json_eqv a b.
Proof.
  revert b. induction a as [|x|x|x|l IH|l IH] using json_ind; intros b Ha Hb;
    destruct b as [|y|y|y|r|r]; cbn -[num_strict_eq]; rewrite ?orb_false_r;
    try (split; [done|by inversion 1]); try done.
  - rewrite Bool.eqb_true_iff. split; [intros ->; constructor|by inversion 1].
  - inversion Ha; inversion Hb; subst. rewrite num_strict_eq_eqv by done.
    split; [by constructor|by inversion 1].
  - rewrite bool_decide_eq_true. split; [intros ->; constructor|by inversion 1].
  - inversion Ha as [| | | |? Hl|]; inversion Hb as [| | | |? Hr|]; subst. clear Ha Hb.
    rewrite andb_true_iff, Nat.eqb_eq.
    transitivity (Forall2 json_eqv l r); [|split; [by constructor|by inversion 1]].
    revert r Hr. induction IH as [|a l Ha _ IHl]; intros [|b r] Hr; cbn [length];
      try (split; [naive_solver lia|by inversion 1]).
    apply Forall_cons in Hl as [Hla Hl], Hr as [Hrb Hr]. rewrite Forall2_cons, andb_true_iff, <- IHl, Ha by done.
    naive_solver lia.
  - inversion Ha as [| | | | |? Hsl _ Hl]; inversion Hb as [| | | | |? Hsr _ Hr]; subst. clear Ha Hb.
    apply obj_sorted_NoDup in Hsl, Hsr. rewrite andb_true_iff, Nat.eqb_eq.
    assert (forall l0, Forall (fun kv => forall b, json_wf (snd kv) -> json_wf b -> jsonEqual (snd kv) b = true <-> json_eqv (snd kv) b) l0 ->
      Forall (fun kv => json_wf (snd kv)) l0 ->
      (fix go l := match l with
                   | [] => true
                   | (k, a) :: l =>
                       match obj_get r k with Some b => jsonEqual a b | None => false end && go l
                   end) l0 = true <-> forall k a, (k, a) ∈ l0 -> exists b, obj_get r k = Some b /\ json_eqv a b) as Hgo.
    { induction 1 as [|[k a] l0 Hka _ IHl0]; intros Hw; [split; [by intros _ ? ? ?%elem_of_nil|done]|].
      apply Forall_cons in Hw as [Hwa Hw]. rewrite andb_true_iff, IHl0 by done. cbn in Hka, Hwa.
      setoid_rewrite elem_of_cons. split.
      - intros [Hab Hrest] k1 a1 [[= -> ->]|Hin]; [|by apply Hrest].
        destruct (obj_get r k) as [b|] eqn:E; [|done]. exists b. split; [done|].
        apply Hka; [done| |done]. exact (Forall_obj_get json_wf _ _ _ Hr E).
      - intros H. split; [|intros k1 a1 Hin; apply H; by right].
        destruct (H k a) as (b & E & Hab); [by left|]. rewrite E.
        apply Hka; [done| |done]. exact (Forall_obj_get json_wf _ _ _ Hr E). }
    rewrite Hgo by done. clear Hgo IH. split.
    + intros [Hlen Hk]. constructor. by apply obj_eqv_keys.
    + inversion 1 as [| | | | |? ? Hk]; subst. split.
      * assert (obj_keys l ≡ₚ obj_keys r) as Hp; [|by rewrite Hp]. apply NoDup_Permutation; [done..|].
        intros k. rewrite <- !obj_has_elem. unfold obj_has. specialize (Hk k). by inversion Hk.
      * intros k a Hin. specialize (Hk k). rewrite (obj_get_elem l k a) in Hk by done.
        inversion Hk; subst. eauto.
Qed.
