(* ===== verification/JsonText.v ===== *)
(** [JSON.stringify] on strings, natural numbers and arrays of such: the keys
    the code builds for its maps.  Two different keys are never the same
    text. *)
From S2P Require Import Prelude JsBase.

(** * Quoted strings *)

Definition hex_digit (d : Z) : Z := if d <? 10 then 0x30 + d else 0x57 + d.

Definition unicode_escape (u : Z) : jsstr :=
  [0x5C; 0x75; hex_digit (u / 4096); hex_digit (u / 256 mod 16); hex_digit (u / 16 mod 16); hex_digit (u mod 16)].

(** A code unit that is not half of a surrogate pair. *)
Definition quote_unit (u : Z) : jsstr :=
  if u =? 0x22 then [0x5C; 0x22]
  else if u =? 0x5C then [0x5C; 0x5C]
  else if u =? 8 then [0x5C; 0x62]
  else if u =? 9 then [0x5C; 0x74]
  else if u =? 10 then [0x5C; 0x6E]
  else if u =? 12 then [0x5C; 0x66]
  else if u =? 13 then [0x5C; 0x72]
  else if (u <? 0x20) || is_high u || is_low u then unicode_escape u
  else [u].

Fixpoint quote_body (s : jsstr) : jsstr :=
  match s with
  | [] => []
  | u :: s' =>
      match s' with
      | l :: s'' => if is_high u && is_low l then u :: l :: quote_body s'' else quote_unit u ++ quote_body s'
      | [] => quote_unit u
      end
  end.

(** [JSON.stringify(s)]. *)
Definition stringify_str (s : jsstr) : jsstr := 0x22 :: quote_body s ++ [0x22].

(** [JSON.stringify(n)]. *)
Definition stringify_N (n : N) : jsstr := js_of_Z (Z.of_N n).

(** The elements of an array between their commas, and the closing bracket. *)
Fixpoint stringify_rest (items : list jsstr) : jsstr :=
  match items with
  | [] => [0x5D]
  | t :: items => 0x2C :: t ++ stringify_rest items
  end.

(** [JSON.stringify] of an array, from the texts of its elements. *)
Definition stringify_items (items : list jsstr) : jsstr :=
  0x5B :: match items with
          | [] => [0x5D]
          | t :: items => t ++ stringify_rest items
          end.

(** * Reading quoted text back *)

Definition hex_value (c : Z) : option Z :=
  if (0x30 <=? c) && (c <=? 0x39) then Some (c - 0x30)
  else if (0x61 <=? c) && (c <=? 0x66) then Some (c - 0x57)
  else if (0x41 <=? c) && (c <=? 0x46) then Some (c - 0x37)
  else None.

Definition escape_of (e : Z) : option Z :=
  if (e =? 0x22) || (e =? 0x5C) || (e =? 0x2F) then Some e
  else if e =? 0x62 then Some 8
  else if e =? 0x66 then Some 12
  else if e =? 0x6E then Some 10
  else if e =? 0x72 then Some 13
  else if e =? 0x74 then Some 9
  else None.

(** One code unit of a string literal. *)
Definition string_unit (l : jsstr) : option (Z * jsstr) :=
  match l with
  | [] => None
  | c :: r =>
      if (c =? 0x22) || (c <? 0x20) then None
      else if c =? 0x5C then
        match r with
        | e :: r =>
            if e =? 0x75 then
              match r with
              | a :: b :: c :: d :: r =>
                  a ← hex_value a; b ← hex_value b; c ← hex_value c; d ← hex_value d;
                  Some (a * 4096 + b * 256 + c * 16 + d, r)
              | _ => None
              end
            else u ← escape_of e; Some (u, r)
        | [] => None
        end
      else Some (c, r)
  end.

(** The texts a code unit may have. *)
Definition word (u : Z) (w : jsstr) : Prop := forall r, string_unit (w ++ r) = Some (u, r).

Inductive quoted : jsstr -> jsstr -> Prop :=
| quoted_nil : quoted [] []
| quoted_cons u w s t : word u w -> quoted s t -> quoted (u :: s) (w ++ t).

Lemma hex_value_digit d : 0 <= d < 16 -> hex_value (hex_digit d) = Some d.
Proof.
  intros H. unfold hex_value, hex_digit. destruct (d <? 10) eqn:E; bool_lia; repeat split_if; bool_lia; try (f_equal; lia).
Qed.

Lemma word_raw u : 0x20 <= u -> u <> 0x22 -> u <> 0x5C -> word u [u].
Proof.
  intros H0 H1 H2 r. cbn. rewrite !(proj2 (Z.eqb_neq _ _)) by done. by rewrite (proj2 (Z.ltb_ge _ _)).
Qed.

Lemma word_unicode u : unit_ok u -> word u (unicode_escape u).
Proof.
  intros H r. unfold unit_ok in H. cbn.
  rewrite !hex_value_digit by first [apply Z.mod_pos_bound; lia|split; [apply Z.div_pos; lia|apply Z.div_lt_upper_bound; lia]].
  cbn. assert (u / 4096 = u / 16 / 16 / 16) as -> by by rewrite !Z.div_div by lia.
  assert (u / 256 = u / 16 / 16) as -> by by rewrite !Z.div_div by lia.
  pose proof (Z.div_mod u 16 ltac:(lia)). pose proof (Z.div_mod (u / 16) 16 ltac:(lia)).
  pose proof (Z.div_mod (u / 16 / 16) 16 ltac:(lia)). do 2 f_equal. lia.
Qed.

Lemma word_quote_unit u : unit_ok u -> word u (quote_unit u).
Proof.
  intros H. unfold quote_unit.
  do 7 (match goal with |- context [u =? ?c] => destruct (Z.eqb_spec u c) as [->|] end; [by intros r|]).
  split_if; [by apply word_unicode|apply word_raw; bool_lia].
Qed.

Lemma quoted_quote_body s : str_wf s -> quoted s (quote_body s).
Proof.
  assert (forall n s, (length s <= n)%nat -> str_wf s -> quoted s (quote_body s)) as H; [|by apply (H (length s))].
  clear s. intros n. induction n as [|n IH]; intros [|u s] Hn Hs; cbn in Hn; try lia; try constructor.
  apply Forall_cons in Hs as [Hu Hs]. cbn [quote_body]. destruct s as [|l s].
  { rewrite <- (app_nil_r (quote_unit u)). constructor; [by apply word_quote_unit|constructor]. }
  split_if.
  - apply andb_true_iff in Heqb as [Hh Hl]. unfold is_high, is_low in *. apply Forall_cons in Hs as [_ Hs].
    apply (quoted_cons u [u] (l :: s) (l :: quote_body s)); [apply word_raw; bool_lia|].
    apply (quoted_cons l [l]); [apply word_raw; bool_lia|]. apply IH; [cbn in Hn; lia|done].
  - constructor; [by apply word_quote_unit|]. apply IH; [cbn in *; lia|done].
Qed.

Lemma quoted_inj s1 t1 s2 t2 r1 r2 :
  quoted s1 t1 -> quoted s2 t2 -> t1 ++ 0x22 :: r1 = t2 ++ 0x22 :: r2 -> s1 = s2 /\ r1 = r2.
Proof.
  intros H1. revert s2 t2. induction H1 as [|u w s t Hw _ IH]; intros s2 t2 H2 E;
    inversion H2 as [|u2 w2 s2' t2' Hw2 H2']; subst.
  - by injection E.
  - apply (f_equal string_unit) in E. cbn [app] in E. rewrite <- app_assoc, Hw2 in E. discriminate.
  - apply (f_equal string_unit) in E. cbn [app] in E. rewrite <- app_assoc, Hw in E. discriminate.
  - rewrite <- !app_assoc in E. apply (f_equal string_unit) in E. rewrite Hw, Hw2 in E.
    injection E as -> E. destruct (IH _ _ H2' E) as [-> ->]. done.
Qed.

(** * Injectivity *)

(** Texts that end where the next comma or bracket begins. *)
Definition delimited (T : jsstr -> Prop) : Prop :=
  forall t1 t2 c1 c2 r1 r2, T t1 -> T t2 -> c1 = 0x2C \/ c1 = 0x5D -> c2 = 0x2C \/ c2 = 0x5D ->
    t1 ++ c1 :: r1 = t2 ++ c2 :: r2 -> t1 = t2 /\ c1 :: r1 = c2 :: r2.

Lemma stringify_str_inj_app s1 s2 r1 r2 :
  str_wf s1 -> str_wf s2 -> stringify_str s1 ++ r1 = stringify_str s2 ++ r2 -> s1 = s2 /\ r1 = r2.
Proof.
  intros H1 H2 E. unfold stringify_str in E. cbn in E. rewrite <- !app_assoc in E. cbn in E. injection E as E.
  eapply quoted_inj; [by apply quoted_quote_body..|done].
Qed.

Lemma stringify_str_inj s1 s2 : str_wf s1 -> str_wf s2 -> stringify_str s1 = stringify_str s2 -> s1 = s2.
Proof.
  intros H1 H2 E. apply (stringify_str_inj_app s1 s2 [] []); [done..|]. by rewrite E.
Qed.

Definition digit (c : Z) : Prop := 0x30 <= c <= 0x39.

Lemma pretty_N_char_digit d : digit (Z.of_nat (Ascii.nat_of_ascii (pretty_N_char d))).
Proof.
  unfold digit. unfold pretty_N_char. destruct d as [|p]; [by vm_compute|].
  do 4 (destruct p as [p|p|]; try (by vm_compute)).
Qed.

Lemma js_cons a s : js (String a s) = Z.of_nat (Ascii.nat_of_ascii a) :: js s.
Proof. done. Qed.

Lemma pretty_N_go_digits x s : Forall digit (js s) -> Forall digit (js (pretty_N_go x s)).
Proof.
  revert s. induction (N.lt_wf_0 x) as [x _ IH]. intros s Hs.
  destruct (decide (0 < x)%N) as [Hx|Hx].
  - rewrite pretty_N_go_step by done. apply IH; [by apply N.div_lt|].
    rewrite js_cons. constructor; [apply pretty_N_char_digit|done].
  - assert (x = 0%N) as -> by lia. done.
Qed.

Lemma pretty_N_go_cons x a s : exists b t, pretty_N_go x (String a s) = String b t.
Proof.
  revert a s. induction (N.lt_wf_0 x) as [x _ IH]. intros a s.
  destruct (decide (0 < x)%N) as [Hx|Hx].
  - rewrite pretty_N_go_step by done. apply IH. by apply N.div_lt.
  - assert (x = 0%N) as -> by lia. by exists a, s.
Qed.

Lemma stringify_N_digits n : Forall digit (stringify_N n) /\ stringify_N n <> [].
Proof.
  assert (stringify_N n = js (pretty n)) as ->.
  { unfold stringify_N, js_of_Z. by destruct n. }
  destruct n as [|p]; [split; [by repeat constructor|done]|].
  change (pretty (N.pos p)) with (pretty_N_go (N.pos p) "").
  split; [apply pretty_N_go_digits; constructor|].
  rewrite pretty_N_go_step by done.
  destruct (pretty_N_go_cons (N.pos p / 10) (pretty_N_char (N.pos p mod 10)) "") as (b & t & ->). done.
Qed.

Lemma digits_inj t1 t2 c1 c2 r1 r2 :
  Forall digit t1 -> Forall digit t2 -> ~ digit c1 -> ~ digit c2 ->
  t1 ++ c1 :: r1 = t2 ++ c2 :: r2 -> t1 = t2 /\ c1 :: r1 = c2 :: r2.
Proof.
  intros H1. revert t2. induction H1 as [|d t1 Hd _ IH]; intros t2 H2 Hc1 Hc2 E; destruct H2 as [|d2 t2 Hd2 H2];
    cbn in E; injection E; intros; subst; try done.
  destruct (IH t2) as [-> ?]; done.
Qed.

(** The texts of strings and of natural numbers. *)
Definition seg_text (t : jsstr) : Prop :=
  (exists s, str_wf s /\ t = stringify_str s) \/ exists n, t = stringify_N n.

Lemma seg_text_delimited : delimited seg_text.
Proof.
  assert (forall s n r1 r2, stringify_str s ++ r1 = stringify_N n ++ r2 -> False) as Hmix.
  { intros s n r1 r2 E. destruct (stringify_N_digits n) as [Hd Hn]. destruct (stringify_N n) as [|d t]; [done|].
    cbn in E. injection E as <- _. apply Forall_cons in Hd as [Hd _]. unfold digit in Hd. lia. }
  intros t1 t2 c1 c2 r1 r2 [(s1 & H1 & ->)|(n1 & ->)] [(s2 & H2 & ->)|(n2 & ->)] Hc1 Hc2 E.
  - apply stringify_str_inj_app in E as [-> ?]; done.
  - by apply Hmix in E.
  - symmetry in E. by apply Hmix in E.
  - apply digits_inj in E; [done|apply stringify_N_digits..| |]; unfold digit; lia.
Qed.

Lemma stringify_rest_inj T i1 i2 :
  delimited T -> Forall T i1 -> Forall T i2 -> stringify_rest i1 = stringify_rest i2 -> i1 = i2.
Proof.
  intros HT H1. revert i2. induction H1 as [|t1 i1 Ht1 _ IH]; intros i2 H2 E; destruct H2 as [|t2 i2 Ht2 H2];
    cbn in E; try done.
  injection E as E.
  assert (forall i, exists c r, stringify_rest i = c :: r /\ (c = 0x2C \/ c = 0x5D)) as Hr by (intros []; cbn; eauto).
  destruct (Hr i1) as (c1 & r1 & E1 & Hc1), (Hr i2) as (c2 & r2 & E2 & Hc2). rewrite E1, E2 in E.
  destruct (HT t1 t2 c1 c2 r1 r2) as [-> E']; [done..|]. f_equal. apply IH; [done|]. by rewrite E1, E2.
Qed.

Lemma seg_text_head t : seg_text t -> exists c r, t = c :: r /\ c <> 0x5D.
Proof.
  intros [(s & _ & ->)|(n & ->)]; [by eexists _, _|].
  destruct (stringify_N_digits n) as [Hd Hn]. destruct (stringify_N n) as [|d t]; [done|].
  exists d, t. split; [done|]. apply Forall_cons in Hd as [Hd _]. unfold digit in Hd. lia.
Qed.

Lemma stringify_items_inj i1 i2 :
  Forall seg_text i1 -> Forall seg_text i2 -> stringify_items i1 = stringify_items i2 -> i1 = i2.
Proof.
  intros H1 H2 E. unfold stringify_items in E. injection E as E.
  destruct H1 as [|t1 i1 Ht1 H1], H2 as [|t2 i2 Ht2 H2]; try done.
  - apply seg_text_head in Ht2 as (c & r & -> & Hc). cbn in E. congruence.
  - apply seg_text_head in Ht1 as (c & r & -> & Hc). cbn in E. congruence.
  - apply (stringify_rest_inj seg_text); [apply seg_text_delimited|by constructor..|]. cbn. by rewrite E.
Qed.
