(* ===== verification/DeltaOps.v ===== *)
(** [packages/chord/src/delta/index.ts]: operations on plain JSON, their
    validation and their application.

    An operation crosses boundaries as a JSON tuple.  [assertValidOp] is the
    assertion of the code: it takes any JSON value and, where the code returns
    normally (and TypeScript narrows the value to [Op]), returns the typed view
    of the tuple.  [op_to_json] is the tuple of a typed operation.

    [apply] mutates its target in place; a JSON value is a tree, so the mutation
    of the container a path leads to is the rebuilding of the spine
    ([modify_at]). *)
From S2P Require Import Prelude JsBase Json.

(** * Operations *)

Inductive seg : Type :=
| SStr (s : jsstr)
| SNum (n : N).

Abbreviation path := (list seg).

#[export] Instance seg_eq_dec : EqDecision seg.
Proof. solve_decision. Defined.

Inductive Op : Type :=
| OpR (v : json)
| OpS (p : path) (v : json)
| OpD (p : path)
| OpA (p : path) (s : jsstr)
| OpT (p : path) (n : N)
| OpP (p : path) (index remove : N) (items : list json)
| OpM (p : path) (permutation : list N).

Inductive delta_err : Type :=
| TypeErr (msg : string)
| UnsafePathError (segment : json)
| PathError (p : json).

Definition num_to_json (n : N) : json := JNum (NInt (Z.of_N n)).
Definition seg_to_json (s : seg) : json :=
  match s with SStr s => JStr s | SNum n => num_to_json n end.
Definition path_to_json (p : path) : json := JArr (seg_to_json <$> p).

Definition op_to_json (op : Op) : json :=
  match op with
  | OpR v => JArr [JStr (js "r"); v]
  | OpS p v => JArr [JStr (js "s"); path_to_json p; v]
  | OpD p => JArr [JStr (js "d"); path_to_json p]
  | OpA p s => JArr [JStr (js "a"); path_to_json p; JStr s]
  | OpT p n => JArr [JStr (js "t"); path_to_json p; num_to_json n]
  | OpP p i r items => JArr [JStr (js "p"); path_to_json p; num_to_json i; num_to_json r; JArr items]
  | OpM p m => JArr [JStr (js "m"); path_to_json p; JArr (num_to_json <$> m)]
  end.

Definition isReplace (op : Op) : bool := match op with OpR _ => true | _ => false end.

(** A batch begins with a replacement. *)
Definition isBase (ops : list Op) : bool :=
  match ops with OpR _ :: _ => true | _ => false end.

(** * Validation *)

Definition RESERVED_SEGMENTS : list jsstr := [js "__proto__"; js "constructor"; js "prototype"].

Definition reserved (s : jsstr) : bool := bool_decide (s ∈ RESERVED_SEGMENTS).

Definition assertSafeSeg (j : json) : result delta_err seg :=
  match j with
  | JStr s => if reserved s then Err (UnsafePathError j) else Ok (SStr s)
  | JNum n => match num_index n with Some i => Ok (SNum i) | None => Err (UnsafePathError j) end
  | _ => Err (UnsafePathError j)
  end.

Definition assertSafePath (p : list json) : result delta_err path := mapM assertSafeSeg p.

Definition assertPathArg (nonEmpty : bool) (p : json) : result delta_err path :=
  match p with
  | JArr p =>
      throw_if (nonEmpty && bool_decide (p = [])) (TypeErr "path is empty");;
      assertSafePath p
  | _ => Err (TypeErr "path is not an array")
  end.

(** [Number.isInteger(v) && v >= 0], with the number it is. *)
Definition assertCount (msg : string) (v : json) : result delta_err N :=
  match v with
  | JNum n => ok_or (TypeErr msg) (num_index n)
  | _ => Err (TypeErr msg)
  end.

(** One step of the loop of [assertPermutation]: [seen] is the byte array. *)
Definition permutation_step (len : nat) (st : list bool * list N) (v : json)
  : result delta_err (list bool * list N) :=
  let bad := TypeErr "m permutation is not a bijection" in
  i ← assertCount "m permutation is not a bijection" v;
  throw_if (N.of_nat len <=? i)%N bad;;
  throw_if (default false (fst st !! N.to_nat i)) bad;;
  Ok (<[N.to_nat i := true]> (fst st), snd st ++ [i]).

Definition assertPermutation (value : json) : result delta_err (list N) :=
  match value with
  | JArr l => snd <$> foldM (permutation_step (length l)) (replicate (length l) false, []) l
  | _ => Err (TypeErr "m permutation is not an array")
  end.

Definition verb_is (v : jsstr) (s : string) : bool := bool_decide (v = js s).

Definition assertValidOp (op : json) : result delta_err Op :=
  match op with
  | JArr [] => Err (TypeErr "op is not a tuple")
  | JArr (JStr verb :: args) =>
      if verb_is verb "r" then
        match args with [v] => Ok (OpR v) | _ => Err (TypeErr "r arity") end
      else if verb_is verb "s" then
        match args with
        | [p; v] => p ← assertPathArg true p; Ok (OpS p v)
        | _ => Err (TypeErr "s arity")
        end
      else if verb_is verb "d" then
        match args with
        | [p] => p ← assertPathArg true p; Ok (OpD p)
        | _ => Err (TypeErr "d arity")
        end
      else if verb_is verb "a" then
        match args with
        | [p; JStr s] => p ← assertPathArg true p; Ok (OpA p s)
        | _ => Err (TypeErr "a shape")
        end
      else if verb_is verb "t" then
        match args with
        | [p; n] => n ← assertCount "t shape" n; p ← assertPathArg true p; Ok (OpT p n)
        | _ => Err (TypeErr "t shape")
        end
      else if verb_is verb "p" then
        match args with
        | [p; i; r; items] =>
            p ← assertPathArg false p;
            i ← assertCount "p index" i;
            r ← assertCount "p remove" r;
            match items with
            | JArr items => Ok (OpP p i r items)
            | _ => Err (TypeErr "p items")
            end
        | _ => Err (TypeErr "p arity")
        end
      else if verb_is verb "m" then
        match args with
        | [p; m] => p ← assertPathArg false p; m ← assertPermutation m; Ok (OpM p m)
        | _ => Err (TypeErr "m arity")
        end
      else Err (TypeErr "unknown op verb")
  | JArr (_ :: _) => Err (TypeErr "unknown op verb")
  | _ => Err (TypeErr "op is not a tuple")
  end.

(** * Arrays *)

(** [l[i]]; the guard keeps huge indices from being counted out in unary. *)
Definition nth_N {A} (l : list A) (i : N) : option A :=
  if (i <? N.of_nat (length l))%N then l !! N.to_nat i else None.

(** [target.splice(index, remove, ...items)] for [index, remove >= 0]: the new
    array and the removed elements. *)
Definition js_splice {A} (l : list A) (index remove : N) (items : list A) : list A * list A :=
  let start := N.to_nat (N.min index (N.of_nat (length l))) in
  let count := N.to_nat (N.min remove (N.of_nat (length l - start))) in
  (take start l ++ items ++ drop (start + count) l, take count (drop start l)).

#[global] Arguments js_splice : simpl never.

Definition splice_chunk : nat := Z.to_nat 10000.

(** The insertion loop of [spliceItems] (and of [applyOps]): chunks of 10,000
    items, at [index + offset].  One round per chunk, so [length items] rounds
    are enough. *)
Fixpoint insert_chunks {A} (fuel : nat) (target : list A) (index : N) (items : list A) : list A :=
  match fuel, items with
  | S fuel, _ :: _ =>
      insert_chunks fuel
        (fst (js_splice target index 0 (take splice_chunk items)))
        (index + N.of_nat splice_chunk) (drop splice_chunk items)
  | _, _ => target
  end.

Definition spliceItems {A} (target : list A) (index remove : N) (items : list A) : list A * list A :=
  let '(target, removed) := js_splice target index remove [] in
  (insert_chunks (length items) target index items, removed).

#[global] Arguments spliceItems : simpl never.

(** * Paths *)

(** The property key of a segment. *)
Definition seg_key (s : seg) : jsstr :=
  match s with SStr s => s | SNum n => js_of_Z (Z.of_N n) end.

(** One step of [resolveValue]: an own property of the node, where arrays are
    addressed by numbers only. *)
Definition child_of (full : path) (node : json) (s : seg) : result delta_err json :=
  match node with
  | JArr l =>
      match s with
      | SStr _ => Err (UnsafePathError (seg_to_json s))
      | SNum i => ok_or (PathError (path_to_json full)) (nth_N l i)
      end
  | JObj o => ok_or (PathError (path_to_json full)) (obj_get o (seg_key s))
  | _ => Err (PathError (path_to_json full))
  end.

Fixpoint resolveValue (full : path) (node : json) (p : path) : result delta_err json :=
  match p with
  | [] => Ok node
  | s :: p => child ← child_of full node s; resolveValue full child p
  end.

Definition resolve (root : json) (p : path) : result delta_err json :=
  node ← resolveValue p root p;
  throw_if (negb (isObj node)) (PathError (path_to_json p));;
  Ok node.

(** Store a child back into the container it was read from. *)
Definition put_child (node : json) (s : seg) (child : json) : json :=
  match node, s with
  | JArr l, SNum i => JArr (<[N.to_nat i := child]> l)
  | JObj o, _ => JObj (obj_set o (seg_key s) child)
  | _, _ => node
  end.

(** Mutate, in place, the value a path leads to. *)
Fixpoint modify_at (full : path) (f : json -> result delta_err json) (node : json) (p : path)
  : result delta_err json :=
  match p with
  | [] => f node
  | s :: p =>
      child ← child_of full node s;
      child' ← modify_at full f child p;
      Ok (put_child node s child')
  end.

(** * The applier *)

(** [assertIndexInRange] and the type check before a write below an array. *)
Definition assertKey (parent : json) (key : seg) : result delta_err unit :=
  match parent with
  | JArr l =>
      match key with
      | SStr _ => Err (UnsafePathError (seg_to_json key))
      | SNum i => throw_if (N.of_nat (length l) <? i)%N (UnsafePathError (seg_to_json key))
      end
  | _ => Ok tt
  end.

(** [Object.defineProperty(parent, key, { value, ... })]; on an array the key is
    at most its length, and writing at the length appends. *)
Definition write_child (parent : json) (key : seg) (value : json) : json :=
  match parent, key with
  | JArr l, SNum i =>
      if (i <? N.of_nat (length l))%N then JArr (<[N.to_nat i := value]> l) else JArr (l ++ [value])
  | JObj o, _ => JObj (obj_set o (seg_key key) value)
  | _, _ => parent
  end.

(** [Object.hasOwn(parent, key) ? parent[key] : undefined]. *)
Definition read_child (parent : json) (key : seg) : option json :=
  match parent, key with
  | JArr l, SNum i => nth_N l i
  | JObj o, _ => obj_get o (seg_key key)
  | _, _ => None
  end.

Definition read_string (full : path) (parent : json) (key : seg) : result delta_err jsstr :=
  match read_child parent key with
  | Some (JStr s) => Ok s
  | _ => Err (PathError (path_to_json full))
  end.

(** [delete parent[key]], a splice on arrays. *)
Definition delete_child (full : path) (parent : json) (key : seg) : result delta_err json :=
  match parent, key with
  | JArr l, SNum i =>
      throw_if (N.of_nat (length l) <=? i)%N (PathError (path_to_json full));;
      Ok (JArr (fst (js_splice l i 1 [])))
  | JObj o, _ => Ok (JObj (obj_delete o (seg_key key)))
  | _, _ => Err (PathError (path_to_json full))
  end.

(** The verbs [s], [d], [a] and [t] on the parent of their target. *)
Definition child_op (op : Op) (full : path) (key : seg) (parent : json) : result delta_err json :=
  assertKey parent key;;
  match op with
  | OpS _ v => Ok (write_child parent key v)
  | OpD _ => delete_child full parent key
  | OpA _ s => current ← read_string full parent key; Ok (write_child parent key (JStr (current ++ s)))
  | OpT _ n =>
      current ← read_string full parent key;
      Ok (write_child parent key (JStr (drop (N.to_nat (N.min n (N.of_nat (length current)))) current)))
  | _ => Ok parent
  end.

Definition splice_op (p : path) (index remove : N) (items : list json) (node : json)
  : result delta_err json :=
  match node with
  | JArr l => Ok (JArr (fst (spliceItems l index remove items)))
  | _ => Err (PathError (path_to_json p))
  end.

(** [new[i] = old[permutation[i]]]. *)
Definition permute_op (p : path) (m : list N) (node : json) : result delta_err json :=
  match node with
  | JArr l =>
      throw_if (negb (length l =? length m)%nat) (PathError (path_to_json p));;
      Ok (JArr (omap (nth_N l) m))
  | _ => Err (PathError (path_to_json p))
  end.

(** [resolve] followed by a mutation of the container found. *)
Definition on_container (p : path) (f : json -> result delta_err json) (root : option json)
  : result delta_err (option json) :=
  match root with
  | None => Err (PathError (path_to_json p))
  | Some root =>
      Some <$> modify_at p
        (fun node => throw_if (negb (isObj node)) (PathError (path_to_json p));; f node) root p
  end.

(** [path.slice(0, -1)] and [path[path.length - 1]]. *)
Definition path_init (p : path) : path := removelast p.
Definition path_last (p : path) : seg := List.last p (SStr []).

(** One validated operation; [None] is an [undefined] target. *)
Definition applyOp (root : option json) (op : Op) : result delta_err (option json) :=
  match op with
  | OpR v => Ok (Some v)
  | OpP p index remove items => on_container p (splice_op p index remove items) root
  | OpM p m => on_container p (permute_op p m) root
  | OpS p _ | OpD p | OpA p _ | OpT p _ =>
      on_container (path_init p) (child_op op p (path_last p)) root
  end.

Definition applyOps (target : option json) (ops : list json) : result delta_err (option json) :=
  foldM (fun root op => op ← assertValidOp op; applyOp root op) target ops.

(** [apply]. *)
Definition apply (target : option json) (ops : list json) : result delta_err (option json) :=
  applyOps target ops.

(** * The immutable applier *)

(** [copy]: a fresh container with the same own properties. *)
Definition copy_container (full : path) (value : json) : result delta_err json :=
  match value with
  | JArr l => Ok (JArr l)
  | JObj o => Ok (JObj (obj_of_entries o))
  | _ => Err (PathError (path_to_json full))
  end.

(** [!isObj(source) || !Object.hasOwn(source, segment)], then the array check. *)
Definition copy_child (full : path) (source : json) (s : seg) : result delta_err json :=
  match source with
  | JArr l =>
      match s with
      | SNum i => ok_or (PathError (path_to_json full)) (nth_N l i)
      | SStr k =>
          let own := bool_decide (k = js "length") ||
            match array_index k with Some i => i <? Z.of_nat (length l) | None => false end in
          if own then Err (UnsafePathError (seg_to_json s)) else Err (PathError (path_to_json full))
      end
  | JObj o => ok_or (PathError (path_to_json full)) (obj_get o (seg_key s))
  | _ => Err (PathError (path_to_json full))
  end.

Fixpoint copyContainers (full : path) (root : json) (p : path) : result delta_err json :=
  copied ← copy_container full root;
  match p with
  | [] => Ok copied
  | s :: p =>
      child ← copy_child full root s;
      copiedChild ← copyContainers full child p;
      Ok (put_child copied s copiedChild)
  end.

Definition container_path (op : Op) : path :=
  match op with
  | OpR _ => []
  | OpP p _ _ _ | OpM p _ => p
  | OpS p _ | OpD p | OpA p _ | OpT p _ => path_init p
  end.

Definition applyImmutable_step (root : option json) (op : Op) : result delta_err (option json) :=
  match op with
  | OpR v => assertValidOp (op_to_json op);; Ok (Some v)
  | _ =>
      root ← match root with
             | None => Err (PathError (path_to_json (container_path op)))
             | Some root => copyContainers (container_path op) root (container_path op)
             end;
      applyOps (Some root) [op_to_json op]
  end.

Definition applyImmutable (target : option json) (ops : list Op) : result delta_err (option json) :=
  foldM applyImmutable_step target ops.

(** * Well-formed operations *)

Definition seg_safe (s : seg) : bool := match s with SStr s => negb (reserved s) | SNum _ => true end.
Definition path_safe (p : path) : bool := forallb seg_safe p.

(** A bijection of [0 .. length m - 1]. *)
Definition is_permutation (m : list N) : Prop :=
  NoDup m /\ Forall (fun i => (i < N.of_nat (length m))%N) m.

Definition op_path (op : Op) : path :=
  match op with
  | OpR _ => []
  | OpS p _ | OpD p | OpA p _ | OpT p _ | OpP p _ _ _ | OpM p _ => p
  end.

(** The values of type [Op] the code accepts. *)
Definition op_ok (op : Op) : Prop :=
  path_safe (op_path op) = true /\
  match op with
  | OpS p _ | OpD p | OpA p _ | OpT p _ => p <> []
  | OpM _ m => is_permutation m
  | _ => True
  end.

Definition seg_wf (s : seg) : Prop := match s with SStr s => str_wf s | SNum n => True end.

(** Operations whose payload is JSON data. *)
Definition op_wf (op : Op) : Prop :=
  op_ok op /\ Forall seg_wf (op_path op) /\
  match op with
  | OpR v | OpS _ v => json_wf v
  | OpA _ s => str_wf s
  | OpP _ _ _ items => Forall json_wf items
  | _ => True
  end.
