(* ===== verification/DeltaApply.v ===== *)
(** The applier: what an operation changes, what it leaves alone, that it keeps
    JSON data well formed, and that the immutable applier computes the same
    value. *)
From S2P Require Import Prelude JsBase Json DeltaOps.

(** * Validation of delta operations: [assertValidOp] accepts exactly the tuples
    of well-formed operations, and what it accepts is safe to apply; the array
    primitives of the applier. *)

(** * Array primitives *)

Lemma nth_N_lookup {A} (l : list A) i : nth_N l i = l !! N.to_nat i.
Proof.
  unfold nth_N. destruct (N.ltb_spec i (N.of_nat (length l))); [done|].
  symmetry. apply lookup_ge_None. lia.
Qed.

Lemma js_splice_in_range {A} (l : list A) i r items :
  (N.to_nat i <= length l)%nat ->
  fst (js_splice l i r items) = take (N.to_nat i) l ++ items ++ drop (N.to_nat i + N.to_nat r) l.
Proof.
  intros Hi. unfold js_splice. cbn [fst].
  replace (N.to_nat (N.min i (N.of_nat (length l)))) with (N.to_nat i) by lia.
  do 2 f_equal. destruct (decide (N.to_nat i + N.to_nat r <= length l)%nat).
  - f_equal. lia.
  - rewrite !drop_ge; [done|lia|lia].
Qed.

Lemma js_splice_insert {A} (l : list A) i items :
  (N.to_nat i <= length l)%nat ->
  fst (js_splice l i 0 items) = take (N.to_nat i) l ++ items ++ drop (N.to_nat i) l.
Proof. intros Hi. rewrite js_splice_in_range by done. do 3 f_equal. lia. Qed.

Lemma insert_chunks_in_range {A} fuel (l : list A) i items :
  (N.to_nat i <= length l)%nat -> (length items <= fuel)%nat ->
  insert_chunks fuel l i items = take (N.to_nat i) l ++ items ++ drop (N.to_nat i) l.
Proof.
  revert l i items. induction fuel as [|fuel IH]; intros l i items Hi Hf.
  { destruct items; [|cbn in Hf; lia]. cbn. by rewrite take_drop. }
  destruct items as [|x items]; [cbn; by rewrite take_drop|]. cbn [insert_chunks].
  set (its := x :: items) in *. set (c := splice_chunk).
  assert (0 < c)%nat as Hc by (unfold c, splice_chunk; lia).
  rewrite js_splice_insert by done.
  assert (length (take (N.to_nat i) l) = N.to_nat i) as Hlen by (rewrite length_take; lia).
  destruct (decide (c <= length its)%nat) as [Hle|Hgt].
  - assert (length (take c its) = c) as Hlc by (rewrite length_take; lia).
    rewrite IH.
    + replace (N.to_nat (i + N.of_nat c)) with (length (take (N.to_nat i) l ++ take c its))
        by (rewrite length_app; lia).
      rewrite (app_assoc (take (N.to_nat i) l) (take c its) (drop (N.to_nat i) l)).
      rewrite take_app_length, drop_app_length, <- app_assoc. f_equal.
      by rewrite app_assoc, take_drop.
    + rewrite !length_app, Hlen, Hlc. lia.
    + rewrite length_drop. cbn in Hf. unfold its in *. cbn in *. lia.
  - rewrite (drop_ge its) by lia. rewrite (take_ge its) by lia. destruct fuel; reflexivity.
Qed.

Lemma insert_chunks_ge {A} fuel (l : list A) i items :
  (length l <= N.to_nat i)%nat -> (length items <= fuel)%nat ->
  insert_chunks fuel l i items = l ++ items.
Proof.
  revert l i items. induction fuel as [|fuel IH]; intros l i items Hi Hf.
  { destruct items; [|cbn in Hf; lia]. cbn. by rewrite app_nil_r. }
  destruct items as [|x items]; [cbn; by rewrite app_nil_r|]. cbn [insert_chunks].
  set (its := x :: items) in *. set (c := splice_chunk).
  assert (0 < c)%nat as Hc by (unfold c, splice_chunk; lia).
  assert (fst (js_splice l i 0 (take c its)) = l ++ take c its) as ->.
  { unfold js_splice. cbn [fst]. rewrite take_ge, drop_ge by lia. by rewrite app_nil_r. }
  destruct (decide (c <= length its)%nat) as [Hle|Hgt].
  - rewrite IH; [by rewrite <- app_assoc, take_drop| |].
    + rewrite length_app, length_take. lia.
    + rewrite length_drop. unfold its in *. cbn in *. lia.
  - rewrite (drop_ge its) by lia. rewrite (take_ge its) by lia. destruct fuel; reflexivity.
Qed.

(** Inserting in chunks of 10,000 is one [splice]. *)
Lemma spliceItems_js_splice {A} (l : list A) i r items :
  spliceItems l i r items = js_splice l i r items.
Proof.
  unfold spliceItems. destruct (js_splice l i r []) as [target removed] eqn:E.
  unfold js_splice in *. injection E as <- <-. f_equal. cbn [app].
  set (s := N.to_nat (N.min i (N.of_nat (length l)))).
  set (c := N.to_nat (N.min r (N.of_nat (length l - s)))).
  destruct (decide (N.to_nat i <= length l)%nat) as [Hi|Hi].
  - assert (s = N.to_nat i) as Hs by (unfold s; lia).
    rewrite insert_chunks_in_range by (rewrite ?length_app, ?length_take; lia).
    rewrite <- Hs. assert (length (take s l) = s) as Hl by (rewrite length_take; lia).
    rewrite <- Hl at 1. rewrite take_app_length. rewrite <- Hl at 2. by rewrite drop_app_length.
  - assert (s = length l) as Hs by (unfold s; lia). rewrite Hs.
    rewrite insert_chunks_ge by (rewrite ?length_app, ?length_take, ?length_drop; lia).
    rewrite firstn_all, drop_ge by lia. by rewrite !app_nil_r.
Qed.

(** * Acceptance *)

Lemma num_index_of_N n : num_index (NInt (Z.of_N n)) = Some n.
Proof. cbn. destruct (Z.leb_spec 0 (Z.of_N n)); [|lia]. f_equal. lia. Qed.

Lemma assertCount_num msg n : assertCount msg (num_to_json n) = Ok n.
Proof. unfold assertCount, num_to_json. by rewrite num_index_of_N. Qed.

Lemma assertSafeSeg_to_json s : seg_safe s = true -> assertSafeSeg (seg_to_json s) = Ok s.
Proof.
  destruct s; cbn -[num_index]; [intros ->%negb_true_iff; done|]. by rewrite num_index_of_N.
Qed.

Lemma assertSafePath_to_json p : path_safe p = true -> assertSafePath (seg_to_json <$> p) = Ok p.
Proof.
  unfold assertSafePath, path_safe. induction p as [|s p IH]; [done|].
  cbn [forallb fmap list_fmap mapM]. intros [Hs Hp]%andb_true_iff.
  rewrite assertSafeSeg_to_json by done. cbn. rewrite IH by done. done.
Qed.

Lemma assertPathArg_to_json b p :
  path_safe p = true -> (b = true -> p <> []) -> assertPathArg b (path_to_json p) = Ok p.
Proof.
  intros Hp Hb. unfold assertPathArg, path_to_json.
  assert (b && bool_decide (seg_to_json <$> p = []) = false) as ->.
  { destruct b; [|done]. cbn. apply bool_decide_eq_false. intros H%fmap_nil_inv. by apply Hb. }
  cbn. by apply assertSafePath_to_json.
Qed.

Lemma assertSafeSeg_safe j s : assertSafeSeg j = Ok s -> seg_safe s = true.
Proof.
  destruct j; cbn; intros H; try done.
  - destruct (num_index n); naive_solver.
  - destruct (reserved s0) eqn:E; [done|]. injection H as <-. cbn. by rewrite E.
Qed.

Lemma assertSafePath_safe l p : assertSafePath l = Ok p -> path_safe p = true.
Proof.
  unfold assertSafePath. revert p. induction l as [|j l IH]; cbn; intros p H; res_inv; [done|].
  cbn. apply andb_true_iff. eauto using assertSafeSeg_safe.
Qed.

Lemma assertPathArg_safe b j p : assertPathArg b j = Ok p -> path_safe p = true /\ (b = true -> p <> []).
Proof.
  destruct j; cbn; try done. intros H. res_inv. split; [by eapply assertSafePath_safe|].
  intros -> ->. destruct l; [done|]. unfold assertSafePath in *. cbn in *. res_inv.
Qed.

(** * Permutations *)

(** What the byte array [seen] knows after the indices [acc]. *)
Definition seen_inv (len : nat) (st : list bool * list N) : Prop :=
  length (fst st) = len /\ NoDup (snd st) /\ Forall (fun i => (i < N.of_nat len)%N) (snd st) /\
  forall i, (i < len)%nat -> fst st !! i = Some true <-> N.of_nat i ∈ snd st.

Lemma seen_inv_init len : seen_inv len (replicate len false, []).
Proof.
  split; [apply length_replicate|]. split; [constructor|]. split; [constructor|].
  intros i Hi. cbn. rewrite lookup_replicate_2 by done. split; [done|by intros ?%elem_of_nil].
Qed.

Lemma permutation_step_inv len st v st' :
  seen_inv len st -> permutation_step len st v = Ok st' ->
  seen_inv len st' /\ exists i, assertCount "m permutation is not a bijection" v = Ok i /\ snd st' = snd st ++ [i].
Proof.
  destruct st as [seen acc]. intros (Hlen & Hnd & Hall & Hseen) H. unfold permutation_step in H. res_inv.
  match goal with H : assertCount _ _ = Ok ?x |- _ => rename x into i, H into Hc end.
  match goal with H : (_ <=? _)%N = false |- _ => apply N.leb_gt in H end.
  cbn in *. assert (i ∉ acc) as Hi.
  { intros Hin. assert (seen !! N.to_nat i = Some true) as Hl.
    { apply Hseen; [lia|]. by rewrite N2Nat.id. }
    by rewrite Hl in *. }
  split; [|eauto]. split; cbn; [by rewrite length_insert|]. split; [|split].
  - apply NoDup_app. split; [done|]. split; [set_solver|]. apply NoDup_singleton.
  - apply Forall_app. split; [done|]. by constructor.
  - intros j Hj. rewrite elem_of_app, list_elem_of_singleton.
    destruct (decide (N.to_nat i = j)) as [<-|Hne].
    + rewrite list_lookup_insert_eq by lia. rewrite N2Nat.id. naive_solver.
    + rewrite list_lookup_insert_ne by done. rewrite Hseen by done. split; [by left|].
      intros [?|E]; [done|]. exfalso. apply Hne. lia.
Qed.

Lemma permutation_step_ok len st i :
  seen_inv len st -> i ∉ snd st -> (i < N.of_nat len)%N ->
  exists st', permutation_step len st (num_to_json i) = Ok st' /\ seen_inv len st' /\ snd st' = snd st ++ [i].
Proof.
  intros Hst Hi Hlt.
  assert (exists st', permutation_step len st (num_to_json i) = Ok st') as [st' E].
  { destruct st as [seen acc], Hst as (Hlen & Hnd & Hall & Hseen). unfold permutation_step.
    rewrite assertCount_num. cbn. destruct (N.leb_spec (N.of_nat len) i); [lia|]. cbn in *.
    destruct (seen !! N.to_nat i) as [[]|] eqn:E; cbn; eauto. exfalso. apply Hi.
    apply Hseen in E; [by rewrite N2Nat.id in E|lia]. }
  exists st'. split; [done|]. destruct (permutation_step_inv _ _ _ _ Hst E) as (Hinv & i' & Hc & Hs).
  rewrite assertCount_num in Hc. by simplify_eq.
Qed.

Lemma permutation_fold_ok len m st :
  seen_inv len st -> NoDup (snd st ++ m) -> Forall (fun i => (i < N.of_nat len)%N) m ->
  exists st', foldM (permutation_step len) st (num_to_json <$> m) = Ok st' /\ snd st' = snd st ++ m.
Proof.
  revert st. induction m as [|i m IH]; intros st Hst Hnd Hall; cbn [fmap list_fmap foldM].
  { exists st. by rewrite app_nil_r. }
  apply Forall_cons in Hall as [Hi Hall].
  assert (i ∉ snd st) as Hni.
  { apply NoDup_app in Hnd as (_ & Hd & _). intros Hin. apply (Hd i Hin). by left. }
  destruct (permutation_step_ok len st i Hst Hni Hi) as (st1 & -> & Hst1 & Hs1). cbn.
  destruct (IH st1) as (st' & -> & Hs'); rewrite ?Hs1, <- ?app_assoc; try done.
  exists st'. split; [done|]. rewrite Hs', Hs1, <- app_assoc. done.
Qed.

Lemma assertPermutation_to_json m :
  is_permutation m -> assertPermutation (JArr (num_to_json <$> m)) = Ok m.
Proof.
  intros [Hnd Hall]. cbn. rewrite length_fmap.
  destruct (permutation_fold_ok (length m) m _ (seen_inv_init _) Hnd Hall) as (st' & -> & Hs). cbn in *. by rewrite Hs.
Qed.

Lemma permutation_fold_inv len l st st' :
  seen_inv len st -> foldM (permutation_step len) st l = Ok st' ->
  seen_inv len st' /\ length (snd st') = (length (snd st) + length l)%nat.
Proof.
  revert st. induction l as [|v l IH]; cbn; intros st Hst H; res_inv; [split; [done|lia]|].
  edestruct permutation_step_inv as (Hst1 & i & _ & Hi); [exact Hst|eassumption|].
  destruct (IH _ Hst1 ltac:(eassumption)) as [Hinv Hlen]. split; [done|].
  rewrite Hlen, Hi, length_app. cbn. lia.
Qed.

Lemma assertPermutation_sound j m : assertPermutation j = Ok m -> is_permutation m.
Proof.
  destruct j; cbn; try done. intros H.
  destruct (foldM _ _ _) as [[seen acc]|] eqn:E; [|done]. cbn in H. injection H as <-.
  destruct (permutation_fold_inv _ _ _ _ (seen_inv_init _) E) as [(_ & Hnd & Hall & _) Hlen]. cbn in *.
  split; [done|]. by rewrite Hlen.
Qed.

(** * The tuple of a well-formed operation is accepted, as that operation *)

(** Evaluate the verb tests on a literal verb. *)
Ltac eval_verbs :=
  repeat match goal with
  | |- context [verb_is (js ?a) ?b] =>
      let v := eval vm_compute in (verb_is (js a) b) in
      change (verb_is (js a) b) with v
  end; cbn match.

Lemma assertValidOp_to_json op : op_ok op -> assertValidOp (op_to_json op) = Ok op.
Proof.
  intros [Hp Hop]. destruct op; cbn [op_path] in Hp; unfold op_to_json, assertValidOp; eval_verbs;
    rewrite ?assertCount_num; cbn [mbind result_bind]; rewrite ?assertPathArg_to_json by done;
    cbn [mbind result_bind]; rewrite ?assertCount_num, ?assertPermutation_to_json by done; done.
Qed.

(** Whatever [assertValidOp] lets through has a safe path (no segment reaches
    the prototype chain, indices are naturals), a non-empty one where the verb
    needs a parent, and a bijective permutation. *)
Lemma assertValidOp_sound j op : assertValidOp j = Ok op -> op_ok op.
Proof.
  unfold assertValidOp. intros H.
  destruct j as [| | | |[|[| | |verb| |] args]|]; try done.
  repeat match type of H with (if ?b then _ else _) = _ => destruct b end; try done;
    repeat match type of H with
           | match ?l with [] => _ | _ :: _ => _ end = _ => destruct l
           | match ?j with JNull => _ | _ => _ end = _ => destruct j
           end; try done; res_inv;
    repeat match goal with
           | H : match ?j with JNull => _ | _ => _ end = Ok _ |- _ => destruct j; try done
           end; res_inv; split; cbn; try done;
    eauto using assertPermutation_sound;
    match goal with H : assertPathArg _ _ = Ok _ |- _ => apply assertPathArg_safe in H as [? ?] end; auto.
Qed.

(** * Reading and replacing at a path *)

(** The value a path leads to, and the tree with that value replaced: the
    specification of [resolveValue] and [modify_at]. *)
Fixpoint get_at (node : json) (p : path) : option json :=
  match p with
  | [] => Some node
  | s :: p => child ← read_child node s; get_at child p
  end.

Fixpoint put_at (node : json) (p : path) (v : json) : json :=
  match p with
  | [] => v
  | s :: p =>
      match read_child node s with
      | Some child => put_child node s (put_at child p v)
      | None => node
      end
  end.

(** Two paths that part at different property keys. *)
Inductive diverge : path -> path -> Prop :=
| diverge_here s1 s2 p q : seg_key s1 <> seg_key s2 -> diverge (s1 :: p) (s2 :: q)
| diverge_next s1 s2 p q : seg_key s1 = seg_key s2 -> diverge p q -> diverge (s1 :: p) (s2 :: q).

(** The path below which an operation may change the tree: its target for the
    verbs that write a value, the container for those that move elements. *)
Definition op_footprint (op : Op) : path :=
  match op with
  | OpR _ => []
  | OpS p _ | OpA p _ | OpT p _ => p
  | OpD p => path_init p
  | OpP p _ _ _ | OpM p _ => p
  end.

(** JSON data or [undefined]. *)
Definition opt_json_wf (v : option json) : Prop := match v with Some v => json_wf v | None => True end.

Lemma child_of_Ok full node s c : child_of full node s = Ok c <-> read_child node s = Some c.
Proof. destruct node, s; cbn -[nth_N]; rewrite ?ok_or_Ok; naive_solver. Qed.

Lemma resolveValue_Ok full node p v : resolveValue full node p = Ok v <-> get_at node p = Some v.
Proof.
  revert node. induction p as [|s p IH]; intros node; cbn; [naive_solver|].
  rewrite bind_Ok, bind_Some. setoid_rewrite child_of_Ok. setoid_rewrite IH. done.
Qed.

Lemma modify_at_Ok full f node p node' :
  modify_at full f node p = Ok node' <->
  exists v v', get_at node p = Some v /\ f v = Ok v' /\ node' = put_at node p v'.
Proof.
  revert node node'. induction p as [|s p IH]; intros node node'; cbn.
  { naive_solver. }
  rewrite bind_Ok. setoid_rewrite child_of_Ok. setoid_rewrite bind_Ok. setoid_rewrite bind_Some.
  setoid_rewrite IH. split.
  - intros (c & -> & c' & (v & v' & Hg & Hf & ->) & [= <-]). eauto 10.
  - intros (v & v' & (c & -> & Hg) & Hf & ->). eauto 10.
Qed.

Lemma on_container_Ok p f root root' :
  on_container p f root = Ok root' <->
  exists r v v', root = Some r /\ get_at r p = Some v /\ isObj v = true /\ f v = Ok v' /\
    root' = Some (put_at r p v').
Proof.
  unfold on_container. destruct root as [r|]; [|naive_solver].
  destruct (modify_at _ _ _ _) as [r'|e] eqn:E; cbn [fmap result_fmap].
  - apply modify_at_Ok in E as (v & v' & Hg & Hf & ->). res_inv.
    match goal with H : negb _ = false |- _ => apply negb_false_iff in H end.
    split; [intros [= <-]; eauto 10|]. intros (r0 & w & w' & [= <-] & Hg' & _ & Hf & ->). congruence.
  - split; [done|]. intros (r0 & v & v' & [= <-] & Hg & Ho & Hf & ->). exfalso.
    match type of E with modify_at ?a ?b ?c ?d = _ =>
      assert (modify_at a b c d = Ok (put_at r p v')) as E' end.
    { apply modify_at_Ok. exists v, v'. split; [done|]. split; [|done]. by rewrite Ho. }
    congruence.
Qed.

(** * Lens laws *)

Lemma read_put_child node s c c' :
  read_child node s = Some c -> read_child (put_child node s c') s = Some c'.
Proof.
  destruct node as [| | | |l|o], s as [k|i]; cbn; rewrite ?nth_N_lookup; try done; intros H.
  - apply list_lookup_insert_eq. by eapply lookup_lt_Some.
  - rewrite obj_get_set. by case_decide.
  - rewrite obj_get_set. by case_decide.
Qed.

Lemma obj_replace_replace {V} (o : list (jsstr * V)) k v v' :
  obj_replace (obj_replace o k v) k v' = obj_replace o k v'.
Proof. induction o as [|[k1 v1] o IH]; cbn; [done|]. case_decide; cbn; subst; repeat case_decide; congruence. Qed.

Lemma obj_set_has {V} (o : list (jsstr * V)) k c v : obj_get o k = Some c -> obj_set o k v = obj_replace o k v.
Proof. intros H. unfold obj_set, obj_has. by rewrite H. Qed.

Lemma obj_set_set {V} (o : list (jsstr * V)) k c v v' :
  obj_get o k = Some c -> obj_set (obj_set o k v) k v' = obj_set o k v'.
Proof.
  intros H. rewrite (obj_set_has (obj_set o k v) k v) by (rewrite obj_get_set; by case_decide).
  rewrite !(obj_set_has o k c) by done. apply obj_replace_replace.
Qed.

Lemma obj_replace_id {V} (o : list (jsstr * V)) k v : obj_get o k = Some v -> obj_replace o k v = o.
Proof. induction o as [|[k1 v1] o IH]; cbn; [done|]. case_decide; [naive_solver|]. intros. by rewrite IH. Qed.

Lemma put_put_child node s c c1 c2 :
  read_child node s = Some c -> put_child (put_child node s c1) s c2 = put_child node s c2.
Proof.
  destruct node as [| | | |l|o], s as [k|i]; cbn; try done; intros H; f_equal.
  - apply list_insert_insert_eq.
  - by eapply obj_set_set.
  - by eapply obj_set_set.
Qed.

Lemma put_child_id node s c : read_child node s = Some c -> put_child node s c = node.
Proof.
  destruct node as [| | | |l|o], s as [k|i]; cbn; rewrite ?nth_N_lookup; try done; intros H; f_equal.
  - by apply list_insert_id.
  - erewrite obj_set_has by done. by apply obj_replace_id.
  - erewrite obj_set_has by done. by apply obj_replace_id.
Qed.

Lemma get_put_at node p v w : get_at node p = Some w -> get_at (put_at node p v) p = Some v.
Proof.
  revert node. induction p as [|s p IH]; intros node; cbn; [done|]. rewrite bind_Some.
  intros (c & Hc & Hg). rewrite Hc. erewrite read_put_child by done. cbn. by apply IH.
Qed.

Lemma put_put_at node p v v' w : get_at node p = Some w -> put_at (put_at node p v) p v' = put_at node p v'.
Proof.
  revert node. induction p as [|s p IH]; intros node; cbn; [done|]. rewrite bind_Some.
  intros (c & Hc & Hg). rewrite Hc. erewrite read_put_child by done.
  erewrite put_put_child by done. by rewrite IH.
Qed.

Lemma put_get_at node p w : get_at node p = Some w -> put_at node p w = node.
Proof.
  revert node. induction p as [|s p IH]; intros node; cbn; [naive_solver|]. rewrite bind_Some.
  intros (c & Hc & Hg). rewrite Hc, IH by done. by apply put_child_id.
Qed.

Lemma get_at_app node p q : get_at node (p ++ q) = (v ← get_at node p; get_at v q).
Proof.
  revert node. induction p as [|s p IH]; intros node; cbn; [done|].
  destruct (read_child node s); cbn; [apply IH|done].
Qed.

Lemma put_at_app node p q v w :
  get_at node p = Some w -> put_at node (p ++ q) v = put_at node p (put_at w q v).
Proof.
  revert node. induction p as [|s p IH]; intros node; cbn; [naive_solver|]. rewrite bind_Some.
  intros (c & Hc & Hg). rewrite Hc. by rewrite IH.
Qed.

Lemma read_put_child_ne node s s' c c' :
  seg_key s <> seg_key s' -> read_child node s = Some c ->
  read_child (put_child node s c') s' = read_child node s'.
Proof.
  intros Hne. destruct node as [| | | |l|o], s as [k|i]; cbn; try done; intros H.
  - destruct s' as [k'|j]; cbn; [done|]. rewrite !nth_N_lookup. apply list_lookup_insert_ne.
    intros E. apply Hne. cbn. do 2 f_equal. lia.
  - rewrite obj_get_set. by case_decide.
  - rewrite obj_get_set. by case_decide.
Qed.

Lemma read_child_key node s s' :
  (forall l, node <> JArr l) -> seg_key s = seg_key s' -> read_child node s = read_child node s'.
Proof. intros Hl H. destruct node, s, s'; cbn in *; try congruence; by destruct (Hl l). Qed.

Lemma seg_key_num_inj i j : seg_key (SNum i) = seg_key (SNum j) -> i = j.
Proof. cbn. intros H%(inj js_of_Z). lia. Qed.

(** * Frame *)

Lemma get_put_at_diverge node p q v w :
  diverge p q -> get_at node p = Some w -> get_at (put_at node p v) q = get_at node q.
Proof.
  intros Hd. revert node. induction Hd as [s1 s2 p q Hne|s1 s2 p q Heq _ IH]; intros node; cbn;
    rewrite bind_Some; intros (c & Hc & Hg); rewrite Hc.
  - by erewrite read_put_child_ne.
  - destruct node as [| | | |l|o]; try (by destruct s1).
    + destruct s1 as [k|i]; [done|]. destruct s2 as [k|j]; [done|].
      apply seg_key_num_inj in Heq as <-. erewrite read_put_child by done. cbn [mbind option_bind].
      rewrite Hc. by apply IH.
    + rewrite (read_child_key (put_child (JObj o) s1 (put_at c p v)) s2 s1) by (done || by destruct s1).
      rewrite (read_child_key (JObj o) s2 s1) by done.
      erewrite read_put_child by done. rewrite Hc. by apply IH.
Qed.

Lemma path_split p : p <> [] -> p = path_init p ++ [path_last p].
Proof. intros H. unfold path_init, path_last. by apply app_removelast_last. Qed.

Lemma read_write_child_ne node s s' v :
  seg_key s <> seg_key s' -> assertKey node s = Ok tt -> read_child (write_child node s v) s' = read_child node s'.
Proof.
  intros Hne Hk. destruct node as [| | | |l|o], s as [k|i]; cbn in *; try done; res_inv.
  - destruct s' as [k'|j].
    { by destruct (i <? N.of_nat (length l))%N. }
    match goal with H : (_ <? _)%N = false |- _ => apply N.ltb_ge in H end.
    assert (i <> j) as Hij by (intros ->; done).
    destruct (N.ltb_spec i (N.of_nat (length l))); cbn; rewrite !nth_N_lookup.
    + apply list_lookup_insert_ne. lia.
    + destruct (decide (N.to_nat j < length l)%nat).
      * by rewrite lookup_app_l.
      * rewrite !(proj2 (lookup_ge_None _ _)); [done|lia|rewrite length_app; cbn; lia].
  - rewrite obj_get_set. by case_decide.
  - rewrite obj_get_set. by case_decide.
Qed.

Lemma diverge_app_inv p s q :
  diverge (p ++ [s]) q -> diverge p q \/ exists p' s' q', q = p' ++ s' :: q' /\
    Forall2 (fun a b => seg_key a = seg_key b) p p' /\ seg_key s <> seg_key s'.
Proof.
  revert q. induction p as [|a p IH]; intros q; cbn; intros H; inversion H as [? s2 ? q' Hne|? s2 ? q' Heq Hd]; subst.
  - right. exists [], s2, q'. auto.
  - inversion Hd.
  - left. by constructor.
  - destruct (IH _ Hd) as [?|(p' & s' & q'' & -> & Hp & Hs)]; [left; by constructor 2|].
    right. exists (s2 :: p'), s', q''. auto.
Qed.

Lemma get_at_keys node p p' w :
  Forall2 (fun a b => seg_key a = seg_key b) p p' ->
  get_at node p = Some w -> get_at node p' = Some w \/ get_at node p' = None.
Proof.
  intros Hp. revert node. induction Hp as [|a b p p' Hab _ IH]; intros node; cbn; [auto|].
  rewrite bind_Some. intros (c & Hc & Hg). destruct (read_child node b) as [c'|] eqn:Hb; [|auto]. cbn.
  assert (c' = c) as ->; [|auto].
  destruct node as [| | | |l|o]; try (by destruct a).
  - destruct a as [|i], b as [|j]; try done. apply seg_key_num_inj in Hab as ->. congruence.
  - rewrite (read_child_key (JObj o) a b) in Hc by done. congruence.
Qed.

(** A write below [p] is seen through any path with the same keys. *)
Lemma get_put_at_keys node p p' v w :
  Forall2 (fun a b => seg_key a = seg_key b) p p' ->
  get_at node p = Some w ->
  (get_at node p' = Some w /\ get_at (put_at node p v) p' = Some v) \/
  (get_at node p' = None /\ get_at (put_at node p v) p' = None).
Proof.
  intros Hp. revert node. induction Hp as [|a b p p' Hab _ IH]; intros node; cbn; [intros [= ->]; auto|].
  rewrite bind_Some. intros (c & Hc & Hg). rewrite Hc.
  destruct node as [| | | |l|o]; try (by destruct a).
  - destruct a as [|i], b as [|j]; try done; [by right|]. apply seg_key_num_inj in Hab as ->.
    erewrite read_put_child by done. rewrite Hc. cbn. auto.
  - rewrite (read_child_key (JObj o) b a) by done. rewrite Hc.
    rewrite (read_child_key (put_child (JObj o) a (put_at c p v)) b a) by (done || by destruct a).
    erewrite read_put_child by done. cbn. auto.
Qed.

Lemma child_op_write op full key parent parent' :
  (forall p, op <> OpD p) -> child_op op full key parent = Ok parent' ->
  assertKey parent key = Ok tt /\ (parent' = parent \/ exists v, parent' = write_child parent key v).
Proof.
  intros Hd H. unfold child_op in H. res_inv. destruct x. split; [done|].
  destruct op; res_inv; eauto. by destruct (Hd p).
Qed.

Lemma get_put_at_write node p s q v parent :
  diverge (p ++ [s]) q -> get_at node p = Some parent -> assertKey parent s = Ok tt ->
  get_at (put_at node p (write_child parent s v)) q = get_at node q.
Proof.
  intros Hd Hg Hk. apply diverge_app_inv in Hd as [Hd|(p' & s' & q' & -> & Hp & Hs)].
  { by eapply get_put_at_diverge. }
  rewrite !get_at_app.
  destruct (get_put_at_keys _ _ _ (write_child parent s v) _ Hp Hg) as [[-> ->]|[-> ->]]; [|done].
  cbn. by rewrite read_write_child_ne.
Qed.

(** An operation leaves everything outside its footprint as it was. *)
Lemma applyOp_frame r op r' q :
  applyOp (Some r) op = Ok (Some r') -> diverge (op_footprint op) q -> get_at r' q = get_at r q.
Proof.
  intros H Hd. destruct op; cbn [op_footprint] in Hd; [by inversion Hd|..];
    cbn [applyOp] in H; apply on_container_Ok in H as (r0 & v1 & v' & [= <-] & Hg & _ & Hf & [= ->]);
    try (by eapply get_put_at_diverge);
    (destruct (decide (p = [])) as [->|Hne]; [by inversion Hd|]);
    rewrite (path_split p) in Hd by done;
    (apply child_op_write in Hf as [Hk [->|[x ->]]]; [| |done]);
    try (by eapply get_put_at_write); by rewrite put_get_at.
Qed.

(** * Well-formedness *)

Lemma seg_key_wf s : seg_wf s -> str_wf (seg_key s).
Proof. destruct s; cbn; auto with s2r. Qed.

Lemma obj_set_wf o k v :
  json_wf (JObj o) -> str_wf k -> json_wf v -> json_wf (JObj (obj_set o k v)).
Proof.
  intros Ho Hk Hv. inversion Ho as [| | | | |? Hs Hkeys Hvals]; subst.
  assert (forall kv, kv ∈ obj_set o k v -> kv ∈ o \/ kv = (k, v)) as Hin.
  { intros [k' v'] Hin. apply obj_get_elem in Hin; [|by apply obj_sorted_NoDup, obj_sorted_set].
    rewrite obj_get_set in Hin. case_decide; [right; naive_solver|left; by apply obj_get_Some_elem]. }
  constructor; [by apply obj_sorted_set| |]; apply Forall_forall; intros kv Hkv; apply Hin in Hkv as [Hkv| ->]; cbn; auto.
  - rewrite Forall_forall in Hkeys. auto.
  - rewrite Forall_forall in Hvals. auto.
Qed.

Lemma obj_delete_wf o k : json_wf (JObj o) -> json_wf (JObj (obj_delete o k)).
Proof.
  intros Ho. inversion Ho as [| | | | |? Hs Hkeys Hvals]; subst.
  assert (forall kv, kv ∈ obj_delete o k -> kv ∈ o) as Hin.
  { intros kv. unfold obj_delete. rewrite !list_elem_of_In, filter_In. naive_solver. }
  constructor; [by apply obj_sorted_delete| |]; apply Forall_forall; intros kv Hkv%Hin.
  - rewrite Forall_forall in Hkeys. auto.
  - rewrite Forall_forall in Hvals. auto.
Qed.

Lemma Forall_js_splice {A} (P : A -> Prop) l i r items :
  Forall P l -> Forall P items -> Forall P (fst (js_splice l i r items)).
Proof.
  intros Hl Hi. unfold js_splice. cbn. apply Forall_app. split; [by apply Forall_take|].
  apply Forall_app. split; [done|by apply Forall_drop].
Qed.

Lemma Forall_nth_N {A} (P : A -> Prop) l i x : Forall P l -> nth_N l i = Some x -> P x.
Proof. rewrite nth_N_lookup. intros Hl Hx. by eapply Forall_lookup_1. Qed.

Lemma read_child_wf node s c : json_wf node -> read_child node s = Some c -> json_wf c.
Proof.
  intros Hn Hc. destruct node as [| | | |l|o], s; cbn in Hc; try done; inversion Hn; subst.
  - by eapply Forall_nth_N.
  - by eapply (Forall_obj_get json_wf).
  - by eapply (Forall_obj_get json_wf).
Qed.

Lemma get_at_wf node p v : json_wf node -> get_at node p = Some v -> json_wf v.
Proof.
  revert node. induction p as [|s p IH]; intros node Hn; cbn; [naive_solver|].
  rewrite bind_Some. intros (c & Hc & Hg). eauto using read_child_wf.
Qed.

Lemma put_child_wf node s c : json_wf node -> seg_wf s -> json_wf c -> json_wf (put_child node s c).
Proof.
  intros Hn Hs Hc. destruct node as [| | | |l|o], s; cbn; auto.
  - inversion Hn; subst. constructor. by apply Forall_insert.
  - by apply obj_set_wf.
  - apply obj_set_wf; auto with s2r.
Qed.

Lemma put_at_wf node p v : json_wf node -> Forall seg_wf p -> json_wf v -> json_wf (put_at node p v).
Proof.
  intros Hn Hp Hv. revert node Hn. induction Hp as [|s p Hs _ IH]; intros node Hn; cbn; [done|].
  destruct (read_child node s) eqn:E; [|done]. apply put_child_wf; eauto using read_child_wf.
Qed.

Lemma write_child_wf node s c : json_wf node -> seg_wf s -> json_wf c -> json_wf (write_child node s c).
Proof.
  intros Hn Hs Hc. destruct node as [| | | |l|o], s as [k|i]; cbn; auto.
  - inversion Hn; subst. destruct (i <? N.of_nat (length l))%N; constructor; [by apply Forall_insert|].
    apply Forall_app. auto.
  - by apply obj_set_wf.
  - apply obj_set_wf; auto with s2r.
Qed.

Lemma Forall_app_split {A} (P : A -> Prop) p : p <> [] -> forall d, Forall P p -> Forall P (removelast p) /\ P (List.last p d).
Proof.
  intros Hne d Hp. rewrite (app_removelast_last d Hne) in Hp. apply Forall_app in Hp as [? Hl].
  split; [done|]. by inversion Hl.
Qed.

Lemma child_op_wf op p parent v :
  op_wf op -> op_path op = p -> p <> [] -> json_wf parent ->
  child_op op p (path_last p) parent = Ok v -> json_wf v.
Proof.
  intros (Hok & Hseg & Hpay) <- Hne Hp H.
  destruct (Forall_app_split seg_wf (op_path op) Hne (SStr []) Hseg) as [_ Hl].
  change (seg_wf (path_last (op_path op))) in Hl. set (key := path_last (op_path op)) in *. clearbody key.
  assert (forall s, read_string (op_path op) parent key = Ok s -> str_wf s) as Hread.
  { unfold read_string. intros s Hs. destruct (read_child parent key) as [[]|] eqn:E; try done.
    injection Hs as ->. apply read_child_wf in E; [|done]. by inversion E. }
  unfold child_op in H. res_inv. destruct op; res_inv; cbn [op_path] in *; auto using write_child_wf.
  - destruct parent as [| | | |l|o], key; cbn -[js_splice] in *; res_inv; try done;
      try exact (obj_delete_wf _ _ Hp).
    constructor. inversion Hp as [| | | |? Hl'|]; subst. exact (Forall_js_splice _ l n 1 [] Hl' (Forall_nil_2 _)).
  - apply write_child_wf; auto. constructor. apply Forall_app. split; [by apply Hread|done].
  - apply write_child_wf; auto. constructor. apply Forall_drop. by apply Hread.
Qed.

Lemma applyOp_wf root op root' :
  opt_json_wf root -> op_wf op -> applyOp root op = Ok root' -> opt_json_wf root'.
Proof.
  intros Hr Hop H. assert (op_wf op) as (Hok & Hseg & Hpay) by done. destruct Hok as [Hsafe Hne].
  assert (forall p f, (forall v v', json_wf v -> f v = Ok v' -> json_wf v') -> Forall seg_wf p ->
    on_container p f root = Ok root' -> opt_json_wf root') as Hcont.
  { intros p f Hf Hp (r & v & v' & -> & Hg & _ & Hv & ->)%on_container_Ok. cbn in *.
    apply put_at_wf; [done..|]. eapply Hf; [|done]. by eapply get_at_wf. }
  destruct op; cbn [applyOp op_path] in *.
  - by injection H as <-.
  - eapply Hcont; [|by apply (Forall_app_split _ p Hne (SStr []))|done]. intros. by eapply child_op_wf.
  - eapply Hcont; [|by apply (Forall_app_split _ p Hne (SStr []))|done]. intros. by eapply child_op_wf.
  - eapply Hcont; [|by apply (Forall_app_split _ p Hne (SStr []))|done]. intros. by eapply child_op_wf.
  - eapply Hcont; [|by apply (Forall_app_split _ p Hne (SStr []))|done]. intros. by eapply child_op_wf.
  - eapply Hcont; [|done|done]. intros v v' Hv Hs. destruct v; cbn in Hs; res_inv.
    rewrite spliceItems_js_splice. inversion Hv; subst. constructor. by apply Forall_js_splice.
  - eapply Hcont; [|done|done]. intros v v' Hv Hs. destruct v; cbn -[omap] in Hs; res_inv.
    inversion Hv; subst. constructor. apply Forall_forall. intros y (i & _ & Hi)%list_elem_of_omap.
    by eapply Forall_nth_N.
Qed.

(** * The payload of accepted raw operations *)

Lemma assertSafePath_wf l p : Forall json_wf l -> assertSafePath l = Ok p -> Forall seg_wf p.
Proof.
  unfold assertSafePath. intros Hl. revert p. induction Hl as [|j l Hj _ IH]; cbn; intros p H; res_inv; [constructor|].
  constructor; [|by apply IH]. inversion Hj; subst; cbn in *; try done.
  - destruct (num_index _); naive_solver.
  - by destruct (reserved _); res_inv.
Qed.

Lemma assertPathArg_wf b j p : json_wf j -> assertPathArg b j = Ok p -> Forall seg_wf p.
Proof. intros Hj H. inversion Hj; subst; cbn in H; try done. res_inv. by eapply assertSafePath_wf. Qed.

Lemma assertValidOp_wf j op : json_wf j -> assertValidOp j = Ok op -> op_wf op.
Proof.
  intros Hj H. split; [by eapply assertValidOp_sound|].
  unfold assertValidOp in H. inversion Hj as [| | | |args Hargs|]; subst; try done.
  destruct args as [|[| | |verb| |] args]; try done. apply Forall_cons in Hargs as [_ Hargs].
  repeat match type of H with (if ?b then _ else _) = _ => destruct b end; try done;
    repeat match type of H with
           | match ?l with [] => _ | _ :: _ => _ end = _ => destruct l
           | match ?j with JNull => _ | _ => _ end = _ => destruct j
           end; try done; res_inv;
    repeat match goal with
           | H : match ?j with JNull => _ | _ => _ end = Ok _ |- _ => destruct j; try done
           end; res_inv; cbn [op_path];
    repeat match goal with H : Forall _ (_ :: _) |- _ => apply Forall_cons in H as [? ?] end;
    (split; [first [eapply assertPathArg_wf; [|eassumption]; done|by apply Forall_nil_2]|try done]);
    match goal with H : json_wf _ |- _ => by inversion H end.
Qed.

(** [apply] on JSON operations, whoever sent them, keeps JSON data well formed. *)
Lemma applyOps_wf root ops root' :
  opt_json_wf root -> Forall json_wf ops -> applyOps root ops = Ok root' -> opt_json_wf root'.
Proof.
  intros Hr Hops. unfold applyOps. revert root Hr. induction Hops as [|op ops Hop _ IH]; cbn; intros root Hr H.
  { by res_inv. }
  res_inv. eapply IH; [|eassumption]. eapply applyOp_wf; [exact Hr|by eapply assertValidOp_wf|done].
Qed.

(** * The immutable applier *)

(** Typed operations are read back as themselves or refused. *)
Lemma assertSafePath_inv p p' : assertSafePath (seg_to_json <$> p) = Ok p' -> p' = p.
Proof.
  unfold assertSafePath. revert p'. induction p as [|s p IH]; cbn -[seg_to_json]; intros p' H; res_inv; [done|].
  f_equal; [|by apply IH]. destruct s; cbn -[num_index] in *.
  - by destruct (reserved s); res_inv.
  - rewrite num_index_of_N in *. by simplify_eq.
Qed.

Lemma assertPathArg_inv b p p' : assertPathArg b (path_to_json p) = Ok p' -> p' = p.
Proof. cbn. intros H. res_inv. by apply assertSafePath_inv. Qed.

Lemma assertCount_inv msg n n' : assertCount msg (num_to_json n) = Ok n' -> n' = n.
Proof. rewrite assertCount_num. congruence. Qed.

Lemma permutation_fold_inv_num len m st st' :
  foldM (permutation_step len) st (num_to_json <$> m) = Ok st' -> snd st' = snd st ++ m.
Proof.
  revert st. induction m as [|i m IH]; cbn [fmap list_fmap foldM]; intros st H; res_inv; [by rewrite app_nil_r|].
  apply IH in H0 as ->. unfold permutation_step in H. rewrite assertCount_num in H. cbn [mbind result_bind] in H.
  res_inv. cbn. by rewrite <- app_assoc.
Qed.

Lemma assertPermutation_inv m m' : assertPermutation (JArr (num_to_json <$> m)) = Ok m' -> m' = m.
Proof.
  cbn. destruct (foldM _ _ _) as [st|] eqn:E; [|done]. cbn. intros [= <-].
  by apply permutation_fold_inv_num in E as ->.
Qed.

Lemma assertValidOp_inv op op' : assertValidOp (op_to_json op) = Ok op' -> op' = op.
Proof.
  unfold op_to_json, assertValidOp. destruct op; eval_verbs; intros H; res_inv; try done;
    repeat match goal with
    | H : assertPathArg _ _ = Ok _ |- _ => apply assertPathArg_inv in H
    | H : assertCount _ _ = Ok _ |- _ => apply assertCount_inv in H
    | H : assertPermutation _ = Ok _ |- _ => apply assertPermutation_inv in H
    end; congruence.
Qed.

Lemma copy_container_Ok full v v' :
  json_wf v -> copy_container full v = Ok v' <-> isObj v = true /\ v' = v.
Proof.
  intros Hv. destruct v; cbn; try naive_solver. inversion Hv; subst.
  rewrite obj_of_entries_id by done. naive_solver.
Qed.

Lemma copy_child_Ok full node s c : copy_child full node s = Ok c <-> read_child node s = Some c.
Proof.
  destruct node, s; cbn -[nth_N]; rewrite ?ok_or_Ok; try naive_solver. split_if; naive_solver.
Qed.

(** The copied spine is the same value. *)
Lemma copyContainers_Ok full root p root' :
  json_wf root ->
  copyContainers full root p = Ok root' <->
  root' = root /\ exists v, get_at root p = Some v /\ isObj v = true.
Proof.
  revert root root'. induction p as [|s p IH]; intros root root' Hr; cbn [copyContainers get_at].
  - rewrite bind_Ok. setoid_rewrite copy_container_Ok; [|done]. naive_solver.
  - rewrite bind_Ok. setoid_rewrite copy_container_Ok; [|done]. setoid_rewrite bind_Ok.
    setoid_rewrite bind_Ok. setoid_rewrite copy_child_Ok. split.
    + intros (c & [Ho ->] & ch & Hch & ch' & Hcopy & [= <-]).
      apply IH in Hcopy as [-> (v & Hg & Hv)]; [|by eapply read_child_wf].
      split; [by apply put_child_id|]. exists v. by rewrite Hch.
    + intros [-> (v & Hg & Hv)]. apply bind_Some in Hg as (c & Hc & Hg).
      exists root. split; [split; [by destruct root, s|done]|]. exists c. split; [done|].
      exists c. split; [|by rewrite put_child_id].
      apply IH; [by eapply read_child_wf|]. eauto.
Qed.

Lemma applyOps_one root op root' :
  applyOps root [op_to_json op] = Ok root' <->
  assertValidOp (op_to_json op) = Ok op /\ applyOp root op = Ok root'.
Proof.
  unfold applyOps. cbn [foldM]. rewrite bind_Ok. split.
  - intros (r & H & [= ->]). apply bind_Ok in H as (op' & Hv & H).
    pose proof (assertValidOp_inv _ _ Hv) as ->. done.
  - intros [Hv H]. exists root'. split; [|done]. by rewrite Hv.
Qed.

Lemma applyOp_container root op root' :
  isReplace op = false -> applyOp root op = Ok root' ->
  exists r v, root = Some r /\ get_at r (container_path op) = Some v /\ isObj v = true.
Proof.
  intros Hr H. destruct op; try done; cbn [applyOp container_path] in *;
    apply on_container_Ok in H as (r & v' & ? & -> & ? & ? & _); eauto.
Qed.

Lemma applyImmutable_step_Ok root op root' :
  opt_json_wf root ->
  applyImmutable_step root op = Ok root' <-> applyOps root [op_to_json op] = Ok root'.
Proof.
  intros Hr. rewrite applyOps_one. destruct (isReplace op) eqn:Erep.
  - destruct op; try done. cbn. naive_solver.
  - assert (applyImmutable_step root op =
      (root ← match root with
              | None => Err (PathError (path_to_json (container_path op)))
              | Some root => copyContainers (container_path op) root (container_path op)
              end; applyOps (Some root) [op_to_json op])) as -> by (by destruct op).
    rewrite bind_Ok. setoid_rewrite applyOps_one. split.
    + intros (r & Hc & Hv & Ha). destruct root as [root|]; [|done].
      apply copyContainers_Ok in Hc as [-> _]; done.
    + intros [Hv Ha]. destruct (applyOp_container _ _ _ Erep Ha) as (r & v & -> & Hg & Ho).
      exists r. split; [|done]. apply copyContainers_Ok; [done|]. eauto.
Qed.

Lemma op_to_json_wf op : op_wf op -> json_wf (op_to_json op).
Proof.
  intros (_ & Hseg & Hpay).
  assert (Forall json_wf (seg_to_json <$> op_path op)) as Hp.
  { apply Forall_fmap. eapply Forall_impl; [exact Hseg|]. intros [s|n] Hs; repeat constructor; done. }
  assert (forall m, Forall json_wf (num_to_json <$> m)) as Hm.
  { intros m. apply Forall_fmap, Forall_true. intros n. by repeat constructor. }
  assert (forall s, json_wf (JStr (js s))) as Hv by (intros; constructor; apply js_str_wf).
  assert (forall n, json_wf (num_to_json n)) as Hn by (intros; by repeat constructor).
  destruct op; cbn [op_to_json op_path] in *; unfold path_to_json; apply wf_arr;
    repeat apply Forall_cons_2; try apply Forall_nil_2; auto with s2r.
Qed.

Lemma applyImmutable_applyOps root ops root' :
  opt_json_wf root -> Forall op_wf ops ->
  applyImmutable root ops = Ok root' <-> applyOps root (op_to_json <$> ops) = Ok root'.
Proof.
  intros Hr Hops. unfold applyImmutable, applyOps. revert root Hr.
  induction Hops as [|op ops Hop _ IH]; intros root Hr; [done|].
  cbn [fmap list_fmap foldM]. rewrite !bind_Ok.
  assert (forall r, applyImmutable_step root op = Ok r <->
    (op0 ← assertValidOp (op_to_json op); applyOp root op0) = Ok r) as Hstep.
  { intros r. rewrite applyImmutable_step_Ok by done. unfold applyOps. cbn [foldM]. rewrite bind_Ok. naive_solver. }
  split; intros (r & Hs & Hf); exists r.
  - apply Hstep in Hs. split; [done|]. apply IH; [|done]. apply bind_Ok in Hs as (op' & Hv & Ha).
    apply assertValidOp_inv in Hv as ->. by eapply applyOp_wf.
  - split; [by apply Hstep|]. apply IH; [|done]. apply bind_Ok in Hs as (op' & Hv & Ha).
    apply assertValidOp_inv in Hv as ->. by eapply applyOp_wf.
Qed.
