(* ===== verification/JsText.v ===== *)
(** The methods of JavaScript strings that the file tools use: [indexOf],
    [split], [trimEnd], [padStart], [substring], [normalize], and the stable
    sort of arrays.  Platform definitions, like those of [JsBase]. *)
From Stdlib Require Import Sorted.
From stdpp Require Import sorting.
From S2P Require Import Prelude JsBase.

(** * Searching *)

Lemma index_of_Some (s pat : jsstr) from k :
  index_of s pat from = Some k ->
  (Nat.min from (length s) <= k <= length s)%nat /\ take (length pat) (drop k s) = pat /\
  forall j, (Nat.min from (length s) <= j < k)%nat -> take (length pat) (drop j s) <> pat.
Proof.
  unfold index_of. set (start := Nat.min from (length s)). intros H.
  apply find_some in H as H'. destruct H' as [Hin Hb]. apply in_seq in Hin. apply bool_decide_eq_true in Hb.
  split; [lia|]. split; [done|]. intros j Hj Heq.
  assert (forall i n, find (fun k => bool_decide (take (length pat) (drop k s) = pat)) (seq i n) = Some k ->
    (i <= j)%nat -> False) as Hf; [|by eapply Hf; [exact H|lia]].
  intros i n. revert i. induction n as [|n IH]; intros i; cbn; [done|].
  case_bool_decide as E; [intros [= ->]; lia|]. intros Hk Hi.
  destruct (decide (i = j)) as [->|]; [done|]. eapply IH; [exact Hk|lia].
Qed.

Lemma index_of_None (s pat : jsstr) from j :
  index_of s pat from = None -> (Nat.min from (length s) <= j <= length s)%nat ->
  take (length pat) (drop j s) <> pat.
Proof.
  unfold index_of. intros H Hj Heq.
  assert (In j (seq (Nat.min from (length s)) (S (length s - Nat.min from (length s))))) as Hin.
  { apply in_seq. lia. }
  apply (find_none _ _ H) in Hin. by apply bool_decide_eq_false in Hin.
Qed.

(** [pat] starts at [k] in [s]. *)
Definition occurs_at (s pat : jsstr) (k : nat) : Prop := (k <= length s)%nat /\ take (length pat) (drop k s) = pat.

Lemma occurs_at_bound s pat k : occurs_at s pat k -> (k + length pat <= length s)%nat.
Proof. intros [Hk H]. apply (f_equal length) in H. rewrite length_take, length_drop in H. lia. Qed.

Lemma index_of_occurs s pat k : index_of s pat 0 = Some k -> occurs_at s pat k /\ forall j, (j < k)%nat -> ~ occurs_at s pat j.
Proof.
  intros H. apply index_of_Some in H as (Hk & Ho & Hf). split; [split; [lia|done]|]. intros j Hj [_ H]. apply (Hf j); [lia|done].
Qed.

Lemma index_of_absent s pat : index_of s pat 0 = None -> forall j, ~ occurs_at s pat j.
Proof. intros H j [Hj Ho]. apply (index_of_None _ _ _ j H); [lia|done]. Qed.

Lemma index_of_first s pat k : occurs_at s pat k -> (forall j, (j < k)%nat -> ~ occurs_at s pat j) -> index_of s pat 0 = Some k.
Proof.
  intros Ho Hf. destruct (index_of s pat 0) as [k'|] eqn:E; [|by destruct (index_of_absent _ _ E k)]. apply index_of_occurs in E as [Ho' Hf'].
  f_equal. destruct (lt_eq_lt_dec k k') as [[H| ->]|H]; [|done|]; exfalso; [by apply (Hf' k)|by apply (Hf k')].
Qed.

(** * Splitting *)

Fixpoint split_loop (fuel : nat) (s pat : jsstr) : list jsstr :=
  match fuel with
  | O => [s]
  | S fuel =>
      match index_of s pat 0 with
      | None => [s]
      | Some k => take k s :: split_loop fuel (drop (k + length pat) s) pat
      end
  end.

(** [s.split(pat)]: the empty pattern takes the units apart; any other is found
    at most as often as [s] is long. *)
Definition split_on (s pat : jsstr) : list jsstr :=
  match pat with [] => (fun u => [u]) <$> s | _ => split_loop (length s) s pat end.

Lemma occurs_drop s pat k j : occurs_at (drop k s) pat j -> (k <= length s)%nat -> occurs_at s pat (k + j).
Proof. intros [Hj H] Hk. rewrite drop_drop in H. rewrite length_drop in Hj. split; [lia|done]. Qed.

Lemma drop_occurs s pat k j : occurs_at s pat j -> (k <= j)%nat -> occurs_at (drop k s) pat (j - k).
Proof. intros [Hj H] Hk. split; [rewrite length_drop; lia|]. rewrite drop_drop. by replace (k + (j - k))%nat with j by lia. Qed.

(** Two pieces or less: no two occurrences apart from each other. *)
Lemma split_on_twice s pat i j :
  pat <> [] -> (length (split_on s pat) <= 2)%nat -> occurs_at s pat i -> occurs_at s pat j -> ~ (i + length pat <= j)%nat.
Proof.
  intros Hp Hl Hi Hj Hij. destruct pat as [|c pat]; [done|]. cbn [split_on] in Hl. set (p := c :: pat) in *.
  assert (1 <= length p)%nat as Hp1 by (unfold p; cbn; lia).
  pose proof (occurs_at_bound _ _ _ Hi) as Hbi. pose proof (occurs_at_bound _ _ _ Hj) as Hbj.
  destruct (length s) as [|[|n]] eqn:Es; [lia..|]. cbn [split_loop] in Hl.
  destruct (index_of s p 0) as [k|] eqn:Ek; [|by apply (index_of_absent _ _ Ek i)].
  apply index_of_occurs in Ek as [Hk Hf]. assert (k <= i)%nat by (destruct (decide (k <= i)%nat); [done|]; by exfalso; apply (Hf i); [lia|]).
  assert (occurs_at (drop (k + length p) s) p (j - (k + length p))) as Ho by (apply drop_occurs; [done|lia]).
  destruct (index_of (drop (k + length p) s) p 0) as [k'|] eqn:Ek'; [|by apply (index_of_absent _ _ Ek' _ Ho)].
  cbn [length] in Hl. destruct n; cbn [split_loop] in Hl; [|destruct (index_of _ p 0) in Hl]; cbn in Hl; lia.
Qed.

(** Three pieces or more: two occurrences apart from each other. *)
Lemma split_on_many s pat : pat <> [] -> (2 < length (split_on s pat))%nat -> exists i j, occurs_at s pat i /\ occurs_at s pat j /\ (i + length pat <= j)%nat.
Proof.
  intros Hp Hl. destruct pat as [|c pat]; [done|]. cbn [split_on] in Hl. set (p := c :: pat) in *. destruct (length s) as [|n]; cbn [split_loop] in Hl; [cbn in Hl; lia|].
  destruct (index_of s p 0) as [k|] eqn:Ek; [|cbn in Hl; lia]. apply index_of_occurs in Ek as [Hk _]. pose proof (occurs_at_bound _ _ _ Hk).
  destruct n as [|n]; cbn [split_loop] in Hl; [cbn in Hl; lia|]. destruct (index_of (drop (k + length p) s) p 0) as [k'|] eqn:Ek'; [|cbn in Hl; lia].
  apply index_of_occurs in Ek' as [Hk' _]. exists k, (k + length p + k')%nat. split_and!; [done|by apply occurs_drop|lia].
Qed.

(** * Lines *)

Lemma split_lines_newline l rest : newline ∉ l -> split_lines (l ++ newline :: rest) = l :: split_lines rest.
Proof.
  induction l as [|c l IH]; [done|]. intros [Hc Hl]%not_elem_of_cons. cbn [app split_lines].
  by rewrite (IH Hl), (proj2 (Z.eqb_neq _ _)) by done.
Qed.

Lemma split_lines_single l : newline ∉ l -> split_lines l = [l].
Proof.
  induction l as [|c l IH]; [done|]. intros [Hc Hl]%not_elem_of_cons. cbn [split_lines].
  by rewrite (IH Hl), (proj2 (Z.eqb_neq _ _)) by done.
Qed.

Lemma split_join_lines l lines : Forall (fun l => newline ∉ l) (l :: lines) -> split_lines (join_lines (l :: lines)) = l :: lines.
Proof.
  intros [Hl Hls]%Forall_cons. revert l Hl. induction Hls as [|l' lines Hl' _ IH]; intros l Hl; rewrite join_lines_cons.
  - by apply split_lines_single.
  - by rewrite split_lines_newline, IH.
Qed.

Lemma split_lines_no_newline s : Forall (fun l => newline ∉ l) (split_lines s).
Proof.
  induction s as [|u s IH]; cbn [split_lines]; [repeat constructor; apply not_elem_of_nil|]. destruct (Z.eqb_spec u newline); [constructor; [apply not_elem_of_nil|done]|].
  destruct (split_lines_cons s) as (l & ls & E). rewrite E in *. inversion IH; subst. constructor; [|done]. apply not_elem_of_cons. done.
Qed.

Lemma split_lines_at a b : split_lines (a ++ newline :: b) = split_lines a ++ split_lines b.
Proof.
  induction a as [|u a IH]; [done|]. cbn [app split_lines]. destruct (u =? newline); [by rewrite IH|]. rewrite IH.
  by destruct (split_lines_cons a) as (l & ls & ->).
Qed.

Lemma split_lines_ne s : split_lines s <> [].
Proof. destruct (split_lines_cons s) as (l & ls & ->). done. Qed.

Lemma join_lines_inj ls1 ls2 : ls1 <> [] -> ls2 <> [] -> Forall (fun l => newline ∉ l) ls1 -> Forall (fun l => newline ∉ l) ls2 -> join_lines ls1 = join_lines ls2 -> ls1 = ls2.
Proof.
  destruct ls1 as [|l1 ls1]; [done|]. destruct ls2 as [|l2 ls2]; [done|]. intros _ _ H1 H2 E. apply (f_equal split_lines) in E.
  by rewrite !split_join_lines in E.
Qed.

(** * Trimming and padding *)

(** WhiteSpace and LineTerminator. *)
Definition is_space (u : Z) : bool :=
  in_range 9 13 u || (u =? 0x20) || (u =? 0xA0) || (u =? 0x1680) || in_range 0x2000 0x200A u || (u =? 0x2028) || (u =? 0x2029)
  || (u =? 0x202F) || (u =? 0x205F) || (u =? 0x3000) || (u =? 0xFEFF).

Fixpoint trim_end (s : jsstr) : jsstr :=
  match s with
  | [] => []
  | u :: s => match trim_end s with [] => if is_space u then [] else [u] | t => u :: t end
  end.

Definition pad_start (s : jsstr) (width : nat) : jsstr := replicate (width - length s) 0x20 ++ s.

Lemma trim_end_prefix s : exists rest, s = trim_end s ++ rest /\ Forall (fun u => is_space u = true) rest.
Proof.
  induction s as [|u s (rest & E & H)]; [by exists []|]. cbn. destruct (trim_end s) eqn:Et.
  - destruct (is_space u) eqn:Eu; [exists (u :: s)|exists s]; (split; [done|]); cbn in E; subst; [by constructor|done].
  - exists rest. split; [cbn; by rewrite E at 1|done].
Qed.

Lemma trim_end_nil s : trim_end s = [] <-> Forall (fun u => is_space u = true) s.
Proof.
  split; [intros E; destruct (trim_end_prefix s) as (rest & Es & H); rewrite E in Es; cbn in Es; by subst|].
  induction 1 as [|u s Hu _ IH]; [done|]. cbn. by rewrite IH, Hu.
Qed.

(** * Taking out ranges *)

(** [s.substring(0, i)] and [s.substring(i)]. *)
Definition substring_to (s : jsstr) (i : Z) : jsstr := take (Z.to_nat i) s.
Definition substring_from (s : jsstr) (i : Z) : jsstr := drop (Z.to_nat i) s.

(** * Sorting *)

(** [xs.sort((a, b) => key(a) - key(b))], which is stable. *)
Section Sort.
Context {A : Type} (key : A -> nat).

Fixpoint insert_by (x : A) (l : list A) : list A :=
  match l with
  | [] => [x]
  | y :: l => if (key x <=? key y)%nat then x :: y :: l else y :: insert_by x l
  end.

Definition sort_by (l : list A) : list A := foldr insert_by [] l.

Definition sorted_by : list A -> Prop := Sorted (fun a b => (key a <= key b)%nat).

Lemma insert_by_perm x l : insert_by x l ≡ₚ x :: l.
Proof. induction l as [|y l IH]; cbn; [done|]. destruct (_ <=? _)%nat; [done|]. rewrite IH. by constructor. Qed.

Lemma sort_by_perm l : sort_by l ≡ₚ l.
Proof. unfold sort_by. induction l as [|x l IH]; cbn; [done|]. by rewrite insert_by_perm, IH. Qed.

Lemma insert_by_sorted x l : sorted_by l -> sorted_by (insert_by x l).
Proof.
  unfold sorted_by. induction 1 as [|y l Hs IH Hy]; cbn; [by repeat constructor|]. destruct (Nat.leb_spec (key x) (key y)); [by repeat constructor|].
  constructor; [done|]. destruct l as [|z l]; cbn; [constructor; lia|]. inversion Hy; subst. destruct (_ <=? _)%nat; constructor; lia.
Qed.

Lemma sort_by_sorted l : sorted_by (sort_by l).
Proof. unfold sort_by. induction l as [|x l IH]; cbn; [constructor|]. by apply insert_by_sorted. Qed.

Lemma insert_by_head x l : match l with y :: _ => (key x <= key y)%nat | [] => True end -> insert_by x l = x :: l.
Proof. destruct l as [|y l]; cbn; [done|]. intros H. by destruct (Nat.leb_spec (key x) (key y)); [|lia]. Qed.

Lemma sort_by_sorted_id l : sorted_by l -> sort_by l = l.
Proof.
  unfold sorted_by, sort_by. induction 1 as [|x l Hs IH Hx]; [done|]. cbn. rewrite IH. apply insert_by_head. destruct Hx; [done|lia].
Qed.

(** By key, and by number where keys are the same. *)
Definition key_before (number : A -> nat) (a b : A) : Prop := (key a < key b \/ key a = key b /\ number a < number b)%nat.

(** Items that are numbered in order stay in order where keys are the same. *)
Lemma sort_by_stable (number : A -> nat) l : StronglySorted (fun a b => (number a < number b)%nat) l -> StronglySorted (key_before number) (sort_by l).
Proof.
  unfold sort_by. induction 1 as [|x l Hs IH Hx]; [constructor|]. cbn [foldr]. change (foldr insert_by [] l) with (sort_by l) in *.
  rewrite <- (sort_by_perm l) in Hx. clear Hs. revert IH Hx. generalize (sort_by l). clear l. intros l. induction 1 as [|y l Hs IH Hy]; intros Hx; cbn [insert_by].
  - repeat constructor.
  - apply Forall_cons in Hx as [Hxy Hx]. destruct (Nat.leb_spec (key x) (key y)).
    + constructor; [by constructor|]. rewrite !Forall_forall in Hx, Hy. constructor; [unfold key_before; lia|].
      apply Forall_forall. intros z Hz. specialize (Hx z Hz). specialize (Hy z Hz). unfold key_before in *. lia.
    + constructor; [by apply IH|]. rewrite insert_by_perm. constructor; [left; lia|done].
Qed.
End Sort.

(** * Texts in order, and joined *)

Definition blank_line : jsstr := [newline; newline].

(** [parts.join(separator)] *)
Definition join (separator : jsstr) (parts : list jsstr) : jsstr :=
  match parts with
  | [] => []
  | part :: parts => part ++ concat ((fun p => separator ++ p) <$> parts)
  end.

(** [a <= b] on strings: by their units. *)
Fixpoint units_le (a b : jsstr) : bool :=
  match a, b with
  | [], _ => true
  | _ :: _, [] => false
  | x :: a', y :: b' => if x =? y then units_le a' b' else x <? y
  end.

Definition str_le (a b : jsstr) : Prop := units_le a b = true.

#[export] Instance str_le_dec a b : Decision (str_le a b) := decide (units_le a b = true).

#[export] Instance str_le_total : Total str_le.
Proof.
  intros a. induction a as [|x a IH]; intros [|y b]; unfold str_le in *; cbn; [by left..|by right|].
  rewrite (Z.eqb_sym y x). destruct (x =? y) eqn:E; [apply IH|]. apply Z.eqb_neq in E.
  destruct (Z.lt_total x y) as [?|[?|?]]; [left|done|right]; by apply Z.ltb_lt.
Qed.

#[export] Instance str_le_trans : Transitive str_le.
Proof.
  intros a. induction a as [|x a IH]; intros [|y b] [|z c]; unfold str_le in *; cbn; try done.
  destruct (x =? y) eqn:E1; bool_lia.
  - subst. destruct (y =? z); [apply IH|done].
  - destruct (y =? z) eqn:E2; bool_lia.
    + subst. by rewrite (proj2 (Z.eqb_neq _ _) E1).
    + intros ??; bool_lia. rewrite (proj2 (Z.eqb_neq x z)) by lia. by apply Z.ltb_lt; lia.
Qed.

Lemma str_le_antisymm a b : str_le a b -> str_le b a -> a = b.
Proof.
  unfold str_le. revert b. induction a as [|x a IH]; intros [|y b]; cbn; try done.
  rewrite (Z.eqb_sym y x). destruct (x =? y) eqn:E; bool_lia; intros H1 H2; bool_lia. subst. by f_equal; apply IH.
Qed.

(** [texts.sort()] *)
Definition sort_strings (texts : list jsstr) : list jsstr := merge_sort str_le texts.

Lemma sort_strings_elem x l : x ∈ sort_strings l <-> x ∈ l.
Proof. unfold sort_strings. by rewrite merge_sort_Permutation. Qed.

Lemma sort_strings_sorted l : StronglySorted str_le (sort_strings l).
Proof. apply Sorted_StronglySorted; [apply _|]. apply (Sorted_merge_sort str_le). Qed.

Lemma sort_strings_NoDup l : NoDup l -> NoDup (sort_strings l).
Proof. unfold sort_strings. by rewrite merge_sort_Permutation. Qed.

(** * Unicode normalization

    [s.normalize("NFKC")], with what Unicode Standard Annex 15 says of it and the
    code rests on: it is idempotent; every piece of normalized text is
    normalized; line feeds are left alone, and nothing else becomes one or goes
    across one; empty text is all that becomes empty; and quotes, the hyphen and
    the space of ASCII, which compose with nothing, keep text normalized when
    they take the place of the other characters of their kind. *)

Definition single_quote (u : Z) : bool := in_range 0x2018 0x201B u.
Definition double_quote (u : Z) : bool := in_range 0x201C 0x201F u.
Definition dash (u : Z) : bool := in_range 0x2010 0x2015 u || (u =? 0x2212).
Definition wide_space (u : Z) : bool := (u =? 0xA0) || in_range 0x2002 0x200A u || (u =? 0x202F) || (u =? 0x205F) || (u =? 0x3000).

(** [s.replace(/[class]/g, by)]. *)
Definition replace_class (class : Z -> bool) (by_ : Z) (s : jsstr) : jsstr := (fun u => if class u then by_ else u) <$> s.

Definition to_ascii (s : jsstr) : jsstr :=
  replace_class wide_space 0x20 (replace_class dash 0x2D (replace_class double_quote 0x22 (replace_class single_quote 0x27 s))).

Class Normalizer (normalize : jsstr -> jsstr) : Prop := {
  normalize_idem s : normalize (normalize s) = normalize s;
  normalize_prefix a b : normalize (a ++ b) = a ++ b -> normalize a = a;
  normalize_lines s : normalize s = join_lines (normalize <$> split_lines s);
  normalize_newline s : newline ∉ s -> newline ∉ normalize s;
  normalize_nil s : normalize s = [] <-> s = [];
  normalize_ascii s : normalize s = s -> normalize (to_ascii s) = to_ascii s;
}.
