(* ===== verification/DeltaDiff.v ===== *)
(** [packages/chord/src/delta/index.ts]: the structural differ behind a flush.

    [diffValue before after path scan out] pushes the operations that turn
    [before] into [after]; here it returns them.  The [before === after] test on
    containers is the oracle [same], a function of the path the differ has
    reached: the code may stop wherever both sides are one object, and the
    theorems hold for every oracle that answers truthfully ([same_ok]). *)
From S2P Require Import Prelude JsBase JsText Json DeltaOps DeltaApply.

(** * Overlap of two strings *)

(** The loop over the occurrences of [head]: [candidates] is what is left of
    [maxCandidates], [k] the occurrence at hand. *)
Fixpoint overlap_loop (tail b head : jsstr) (candidates : nat) (k : option nat) : option nat :=
  match k, candidates with
  | Some k, S candidates =>
      let n := (length tail - k)%nat in
      if (n <=? length b)%nat && bool_decide (drop k tail = take n b) then Some n
      else overlap_loop tail b head candidates (index_of tail head (k + 1))
  | _, _ => None
  end.

(** Candidates for a head of length [h]. *)
Definition overlap_probe (tail b : jsstr) (maxCandidates h : nat) : option nat :=
  let head := take h b in
  overlap_loop tail b head maxCandidates (index_of tail head 0).

Definition overlap (a b : jsstr) (scan : N) (probe maxCandidates : nat) : nat :=
  if bool_decide (a = []) || bool_decide (b = []) || (scan =? 0)%N then 0%nat
  else
    let tail := if (scan <? N.of_nat (length a))%N then drop (length a - N.to_nat scan) a else a in
    let h := Nat.min probe (length b) in
    match overlap_probe tail b maxCandidates h with
    | Some n => n
    | None =>
        if (h =? 1)%nat then 0%nat
        else default 0%nat (overlap_probe tail b maxCandidates 1)
    end.

Definition overlap_probe_default : nat := 64.
Definition overlap_candidates_default : nat := 8.

(** * The differ *)

Definition emitSet (p : path) (value : json) : list Op :=
  let snapshot := cloneJson value in
  match p with
  | [] => [OpR snapshot]
  | _ => [OpS p snapshot]
  end.

(** The code throws on the empty path; the differ deletes properties only. *)
Definition emitDelete (p : path) : list Op := [OpD p].

(** The number of equal leading elements. *)
Fixpoint common_prefix (before after : list json) : nat :=
  match before, after with
  | b :: before, a :: after => if jsonEqual b a then S (common_prefix before after) else 0%nat
  | _, _ => 0%nat
  end.

Section Differ.
Variable scan : N.
Variable same : path -> bool.

Definition strict_eq_at (p : path) (before after : json) : bool :=
  prim_strict_eq before after || (isObj before && isObj after && same p).

Definition diffString (before after : jsstr) (p : path) : list Op :=
  if bool_decide (before = after) then []
  else if bool_decide (p = []) then emitSet p (JStr after)
  else if (length before <? length after)%nat && bool_decide (take (length before) after = before) then
    [OpA p (drop (length before) after)]
  else
    let shared := overlap before after scan overlap_probe_default overlap_candidates_default in
    if (shared =? 0)%nat then [OpS p (JStr after)]
    else
      OpT p (N.of_nat (length before - shared)) ::
      (if (shared <? length after)%nat then [OpA p (drop shared after)] else []).

Section Recursion.
Variable diffValue : json -> json -> path -> list Op.

Definition diff_property (before : list (jsstr * json)) (p : path) (kv : jsstr * json) : list Op :=
  let (key, after) := kv in
  match obj_get before key with
  | Some b => diffValue b after (p ++ [SStr key])
  | None => emitSet (p ++ [SStr key]) after
  end.

Definition drop_property (after : list (jsstr * json)) (p : path) (key : jsstr) : list Op :=
  if obj_has after key then [] else emitDelete (p ++ [SStr key]).

Definition diffObject (before after : list (jsstr * json)) (p : path) : list Op :=
  if existsb reserved (obj_keys before ++ obj_keys after) then emitSet p (JObj after)
  else
    flat_map (diff_property before p) after ++ flat_map (drop_property after p) (obj_keys before).

(** The loops [for (index ...) diffValue(before[index], after[index], ...)], as
    far as the shorter side. *)
Fixpoint diff_indices (p : path) (index : N) (before after : list json) {struct after} : list Op :=
  match after, before with
  | a :: after, b :: before =>
      diffValue b a (p ++ [SNum index]) ++ diff_indices p (index + 1) before after
  | _, _ => []
  end.

Definition diffArray (before after : list json) (p : path) : list Op :=
  if (length before =? length after)%nat then diff_indices p 0 before after
  else
    let prefix := common_prefix before after in
    let suffix := common_prefix (rev (drop prefix before)) (rev (drop prefix after)) in
    let shorter := Nat.min (length before) (length after) in
    if (prefix + suffix =? shorter)%nat then
      let remove := (length before - prefix - suffix)%nat in
      let items := take (length after - suffix - prefix) (drop prefix after) in
      if (prefix =? 0)%nat && (remove =? length before)%nat then emitSet p (JArr after)
      else [OpP p (N.of_nat prefix) (N.of_nat remove) (cloneJson <$> items)]
    else
      diff_indices p 0 before after ++
      (if (length before <? length after)%nat then
         [OpP p (N.of_nat (length before)) 0 (cloneJson <$> drop (length before) after)]
       else if (length after <? length before)%nat then
         if (length after =? 0)%nat then emitSet p (JArr after)
         else [OpP p (N.of_nat (length after)) (N.of_nat (length before - length after)) []]
       else []).
End Recursion.

Fixpoint diffValue (before after : json) (p : path) {struct after} : list Op :=
  if strict_eq_at p before after then []
  else
    match before, after with
    | JStr b, JStr a => diffString b a p
    | JArr b, JArr a => diffArray diffValue b a p
    | JObj b, JObj a => diffObject diffValue b a p
    | _, _ => emitSet p after
    end.

(** [diffValue] with [MISSING] sides. *)
Definition diffMaybe (before after : option json) (p : path) : list Op :=
  match before, after with
  | None, None => []
  | None, Some a => emitSet p a
  | Some _, None => emitDelete p
  | Some b, Some a => diffValue b a p
  end.
End Differ.

(** The oracle answers truthfully: where it says that both sides are one
    object, they are the same value. *)
Definition same_ok (same : path -> bool) (p : path) (before after : json) : Prop :=
  forall q b a, get_at before q = Some b -> get_at after q = Some a -> same (p ++ q) = true -> b = a.

(** * Overlap *)

(** [n] code units at the end of [a] are the first [n] of [b]. *)
Definition overlaps (a b : jsstr) (n : nat) : Prop :=
  (n <= length a)%nat /\ (n <= length b)%nat /\ drop (length a - n) a = take n b.

Lemma overlap_loop_sound tail b head c k n :
  (forall i, k = Some i -> (i <= length tail)%nat) ->
  overlap_loop tail b head c k = Some n -> overlaps tail b n.
Proof.
  revert k. induction c as [|c IH]; intros k Hk; destruct k as [k|]; try done. cbn.
  specialize (Hk k eq_refl). split_if.
  - intros [= <-]. apply andb_true_iff in Heqb0 as [Hl Hd]. apply Nat.leb_le in Hl. apply bool_decide_eq_true in Hd.
    split; [lia|]. split; [done|]. rewrite <- Hd. f_equal. lia.
  - apply IH. intros i Hi. apply index_of_Some in Hi. lia.
Qed.

(** An overlap of at least the head's length shows the head where it starts. *)
Lemma overlaps_head tail b m h :
  overlaps tail b m -> (h <= m)%nat ->
  take (length (take h b)) (drop (length tail - m) tail) = take h b.
Proof.
  intros (Ht & Hb & ->) Hh. rewrite take_take, length_take. f_equal. lia.
Qed.

Lemma overlap_loop_longest tail b h c from m :
  (length tail - from < c)%nat -> (0 < h)%nat -> (h <= m)%nat -> (m <= length tail - from)%nat ->
  overlaps tail b m ->
  exists n, overlap_loop tail b (take h b) c (index_of tail (take h b) from) = Some n /\ (m <= n)%nat.
Proof.
  revert from. induction c as [|c IH]; intros from Hc Hpos Hh Hm Hov; [lia|].
  destruct (index_of tail (take h b) from) as [k|] eqn:E.
  - apply index_of_Some in E as (Hk & Hhead & Hfirst). cbn.
    assert (k <= length tail - m)%nat as Hkm.
    { destruct (decide (k <= length tail - m)%nat); [done|]. exfalso.
      apply (Hfirst (length tail - m)%nat); [lia|]. by apply overlaps_head. }
    split_if; [eexists; split; [done|]; lia|].
    destruct (decide (k = (length tail - m)%nat)) as [->|Hne].
    + exfalso. destruct Hov as (Ht & Hb & Hd). apply andb_false_iff in Heqb0 as [H|H].
      * apply Nat.leb_gt in H. lia.
      * apply bool_decide_eq_false in H. apply H. rewrite Hd. f_equal. lia.
    + apply IH; try done; lia.
  - exfalso. apply (index_of_None _ _ _ (length tail - m) E); [lia|]. by apply overlaps_head.
Qed.

Lemma overlaps_tail (a b : jsstr) k n :
  (k <= length a)%nat -> overlaps (drop k a) b n -> overlaps a b n.
Proof.
  intros Hk (Ha & Hb & Hd). rewrite length_drop in Ha. split; [lia|]. split; [done|].
  rewrite <- Hd, drop_drop, length_drop. f_equal. lia.
Qed.

Lemma overlap_probe_sound tail b c h n : overlap_probe tail b c h = Some n -> overlaps tail b n.
Proof.
  apply overlap_loop_sound. intros i Hi. apply index_of_Some in Hi. lia.
Qed.

Lemma overlaps_0 a b : overlaps a b 0.
Proof. split; [lia|]. split; [lia|]. rewrite Nat.sub_0_r, drop_all. done. Qed.

(** The number returned is an overlap, however few candidates are tried. *)
Lemma overlap_overlaps a b scan probe c : overlaps a b (overlap a b scan probe c).
Proof.
  unfold overlap. split_if; [apply overlaps_0|]. clear Heqb0.
  set (tail := if (scan <? N.of_nat (length a))%N then _ else a).
  assert (forall n, overlaps tail b n -> overlaps a b n) as Htail.
  { intros n. unfold tail. split_if; [apply overlaps_tail; lia|done]. }
  destruct (overlap_probe tail b c (probe `min` length b)) eqn:E1; [by eapply Htail, overlap_probe_sound|].
  split_if; [apply overlaps_0|].
  destruct (overlap_probe tail b c 1) eqn:E2; cbn; [by eapply Htail, overlap_probe_sound|apply overlaps_0].
Qed.

(** With a window and a candidate budget as large as the string, it is the
    longest overlap. *)
Lemma overlap_longest a b scan probe c m :
  (N.of_nat (length a) <= scan)%N -> (length a < c)%nat -> (0 < probe)%nat ->
  overlaps a b m -> (m <= overlap a b scan probe c)%nat.
Proof.
  intros Hscan Hc Hprobe Hm. unfold overlap. destruct (decide (m = 0%nat)) as [->|Hm0]; [lia|].
  assert (Hm' : overlaps a b m) by done. destruct Hm' as (Ha & Hb & _).
  assert (bool_decide (a = []) || bool_decide (b = []) || (scan =? 0)%N = false) as ->.
  { rewrite !orb_false_iff, !bool_decide_eq_false, N.eqb_neq. destruct a; [cbn in *; lia|]. destruct b; [cbn in *; lia|].
    cbn in *. split_and!; [done|done|lia]. }
  assert ((scan <? N.of_nat (length a))%N = false) as -> by (apply N.ltb_ge; lia).
  set (h := (probe `min` length b)%nat).
  destruct (overlap_probe a b c h) as [n|] eqn:E1.
  - destruct (decide (h <= m)%nat) as [Hle|Hlt].
    + destruct (overlap_loop_longest a b h c 0 m) as (n' & Hn' & Hmn); [lia..|done|].
      unfold overlap_probe in E1. rewrite Hn' in E1. by injection E1 as <-.
    + (* the head itself occurs, so the overlap found is longer than the head *)
      enough (h <= n)%nat by lia. unfold overlap_probe in E1.
      assert (forall c k, (forall i, k = Some i -> take (length (take h b)) (drop i a) = take h b) ->
        overlap_loop a b (take h b) c k = Some n -> (h <= n)%nat) as Hhead.
      { intros c'. induction c' as [|c' IH]; intros k Hk; destruct k as [k|]; try done. cbn.
        specialize (Hk k eq_refl). split_if.
        - intros [= <-]. apply (f_equal length) in Hk. rewrite !length_take, length_drop in Hk. lia.
        - apply IH. intros i Hi. by apply index_of_Some in Hi as (_ & ? & _). }
      eapply Hhead; [|exact E1]. intros i Hi. by apply index_of_Some in Hi as (_ & ? & _).
  - destruct (decide (h = 1%nat)) as [H1|H1].
    + exfalso. destruct (overlap_loop_longest a b h c 0 m) as (n' & Hn' & Hmn); [lia..|done|].
      unfold overlap_probe in E1. congruence.
    + assert ((h =? 1)%nat = false) as -> by by apply Nat.eqb_neq.
      destruct (overlap_loop_longest a b 1 c 0 m) as (n' & Hn' & Hmn); [lia..|done|].
      unfold overlap_probe. by rewrite Hn'.
Qed.

(** * What single operations do at a path *)

Lemma path_init_snoc p s : path_init (p ++ [s]) = p.
Proof. apply removelast_last. Qed.

Lemma path_last_snoc p s : path_last (p ++ [s]) = s.
Proof. apply last_last. Qed.

Lemma snoc_ne_nil {A} (p : list A) s : p ++ [s] <> [].
Proof. by destruct p. Qed.

Lemma assertKey_present node s c : read_child node s = Some c -> assertKey node s = Ok tt.
Proof.
  destruct node as [| | | |l|o], s as [k|i]; cbn; try done. rewrite nth_N_lookup. intros H%lookup_lt_Some.
  assert ((N.of_nat (length l) <? i)%N = false) as -> by (apply N.ltb_ge; lia). done.
Qed.

Lemma write_child_present node s c v : read_child node s = Some c -> write_child node s v = put_child node s v.
Proof.
  destruct node as [| | | |l|o], s as [k|i]; cbn; try done. rewrite nth_N_lookup. intros H%lookup_lt_Some.
  assert ((i <? N.of_nat (length l))%N = true) as -> by (apply N.ltb_lt; lia). done.
Qed.

Lemma read_child_isObj node s c : read_child node s = Some c -> isObj node = true.
Proof. by destruct node, s. Qed.

Lemma get_at_snoc root p s c :
  get_at root (p ++ [s]) = Some c <-> exists parent, get_at root p = Some parent /\ read_child parent s = Some c.
Proof.
  rewrite get_at_app, bind_Some. cbn. split; intros (parent & Hp & H); exists parent; (split; [done|]).
  - apply bind_Some in H. naive_solver.
  - by rewrite H.
Qed.

Lemma put_at_snoc root p s v parent c :
  get_at root p = Some parent -> read_child parent s = Some c ->
  put_at root (p ++ [s]) v = put_at root p (put_child parent s v).
Proof. intros Hp Hc. erewrite put_at_app by done. cbn. by rewrite Hc. Qed.

(** The verbs that rewrite the child found at a non-empty path. *)
Lemma applyOp_child root op p s parent parent' :
  op_path op = p ++ [s] -> (forall p i r items, op <> OpP p i r items) -> (forall p m, op <> OpM p m) ->
  get_at root p = Some parent -> isObj parent = true -> child_op op (p ++ [s]) s parent = Ok parent' ->
  applyOp (Some root) op = Ok (Some (put_at root p parent')).
Proof.
  intros Hp HP HM Hg Ho Hc.
  assert (on_container (path_init (op_path op)) (child_op op (op_path op) (path_last (op_path op))) (Some root) =
    Ok (Some (put_at root p parent'))) as H.
  { rewrite Hp, path_init_snoc, path_last_snoc. apply on_container_Ok. eauto 10. }
  destruct op; cbn [op_path] in *; try done.
  - by destruct p.
  - by destruct (HP p0 index remove items).
  - by destruct (HM p0 permutation).
Qed.

Lemma emitSet_apply root p v old :
  get_at root p = Some old -> foldM applyOp (Some root) (emitSet p v) = Ok (Some (put_at root p (cloneJson v))).
Proof.
  intros Hg. destruct (decide (p = [])) as [->|Hne]; [done|].
  destruct (exists_last Hne) as (q & s & ->). clear Hne.
  assert (emitSet (q ++ [s]) v = [OpS (q ++ [s]) (cloneJson v)]) as -> by by destruct q.
  apply get_at_snoc in Hg as (parent & Hp & Hc). cbn [foldM].
  rewrite (applyOp_child root (OpS (q ++ [s]) (cloneJson v)) q s parent (put_child parent s (cloneJson v))); try done.
  - cbn. by erewrite put_at_snoc by done.
  - by eapply read_child_isObj.
  - unfold child_op. erewrite assertKey_present by done. cbn. by erewrite write_child_present by done.
Qed.

Lemma emitSet_new root p k v o :
  get_at root p = Some (JObj o) ->
  foldM applyOp (Some root) (emitSet (p ++ [SStr k]) v) =
    Ok (Some (put_at root p (JObj (obj_set o k (cloneJson v))))).
Proof.
  intros Hg. assert (emitSet (p ++ [SStr k]) v = [OpS (p ++ [SStr k]) (cloneJson v)]) as -> by by destruct p.
  cbn [foldM].
  by rewrite (applyOp_child root (OpS (p ++ [SStr k]) (cloneJson v)) p (SStr k) (JObj o) (JObj (obj_set o k (cloneJson v)))).
Qed.

Lemma emitDelete_apply root p k o :
  get_at root p = Some (JObj o) ->
  foldM applyOp (Some root) (emitDelete (p ++ [SStr k])) = Ok (Some (put_at root p (JObj (obj_delete o k)))).
Proof.
  intros Hg. cbn [emitDelete foldM].
  by rewrite (applyOp_child root (OpD (p ++ [SStr k])) p (SStr k) (JObj o) (JObj (obj_delete o k))).
Qed.

Lemma splice_apply root p l i r items :
  get_at root p = Some (JArr l) -> (N.to_nat i <= length l)%nat ->
  applyOp (Some root) (OpP p i r items) =
    Ok (Some (put_at root p (JArr (take (N.to_nat i) l ++ items ++ drop (N.to_nat i + N.to_nat r) l)))).
Proof.
  intros Hg Hi. cbn [applyOp]. apply on_container_Ok. do 3 eexists. split; [done|]. split; [done|].
  split; [done|]. split; [|done]. unfold splice_op. rewrite spliceItems_js_splice. by rewrite js_splice_in_range.
Qed.

(** String verbs on a string found at a non-empty path. *)
Lemma string_apply root p s (f : jsstr -> jsstr) op :
  p <> [] -> get_at root p = Some (JStr s) ->
  (exists x, op = OpA p x /\ f s = s ++ x) \/
  (exists n, op = OpT p (N.of_nat n) /\ (n <= length s)%nat /\ f s = drop n s) ->
  applyOp (Some root) op = Ok (Some (put_at root p (JStr (f s)))).
Proof.
  intros Hne Hg Hop. destruct (exists_last Hne) as (q & k & ->). clear Hne.
  apply get_at_snoc in Hg as (parent & Hp & Hc). erewrite put_at_snoc by done.
  apply (applyOp_child root op q k parent);
    try (destruct Hop as [(x & -> & _)|(n & -> & _)]; done); [by eapply read_child_isObj|].
  unfold child_op. erewrite assertKey_present by done. cbn [mbind result_bind].
  destruct Hop as [(x & -> & ->)|(n & -> & Hn & ->)]; unfold read_string; rewrite Hc; cbn [mbind result_bind];
    erewrite write_child_present by done; [done|].
  do 4 f_equal. lia.
Qed.

(** * Correctness of the differ *)

(** Applied to [root], the operations turn the value at [p] into one equal to
    [after] and change nothing else. *)
Definition turns_into (ops : list Op) (root : json) (p : path) (after : json) : Prop :=
  exists v, foldM applyOp (Some root) ops = Ok (Some (put_at root p v)) /\ json_eqv v after.

Lemma turns_into_emitSet root p old v :
  get_at root p = Some old -> json_wf v -> turns_into (emitSet p v) root p v.
Proof.
  intros Hg Hv. exists v. split; [|done]. erewrite emitSet_apply by done. by rewrite cloneJson_id.
Qed.

Lemma turns_into_nil root p old v : get_at root p = Some old -> json_eqv old v -> turns_into [] root p v.
Proof. intros Hg Hv. exists old. split; [|done]. cbn. by rewrite put_get_at. Qed.

Lemma fmap_cloneJson_id l : Forall json_wf l -> cloneJson <$> l = l.
Proof.
  intros H. rewrite <- (list_fmap_id l) at 2. apply list_fmap_ext. intros i x Hx.
  apply cloneJson_id. by eapply Forall_lookup_1.
Qed.

Lemma diffString_turns scan root p before after :
  get_at root p = Some (JStr before) -> turns_into (diffString scan before after p) root p (JStr after).
Proof.
  intros Hg. unfold diffString. case_bool_decide as Heq; [subst; by eapply turns_into_nil|].
  case_bool_decide as Hp; [subst; by exists (JStr after)|].
  exists (JStr after). split; [|done]. split_if.
  { apply andb_true_iff in Heqb as [Hl Htake]. apply bool_decide_eq_true in Htake. cbn [foldM].
    rewrite (string_apply root p before (fun _ => after)); [done|done|done|].
    left. eexists. split; [done|]. rewrite <- Htake at 1. by rewrite take_drop. }
  set (n := overlap _ _ _ _ _). pose proof (overlap_overlaps before after scan overlap_probe_default
    overlap_candidates_default) as Hov. fold n in Hov. clearbody n. destruct Hov as (Hb & Ha & Hd).
  split_if.
  { apply (emitSet_apply root p (JStr after)) in Hg. by destruct p. }
  assert (forall ops, foldM applyOp (Some root) (OpT p (N.of_nat (length before - n)) :: ops) =
    foldM applyOp (Some (put_at root p (JStr (take n after)))) ops) as Ht.
  { intros ops. cbn [foldM]. rewrite (string_apply root p before (fun _ => take n after)); [done|done|done|].
    right. exists (length before - n)%nat. split; [done|]. split; [lia|done]. }
  rewrite Ht. clear Ht. split_if.
  - cbn [foldM].
    rewrite (string_apply _ p (take n after) (fun _ => after)); [cbn; by erewrite put_put_at by done|done|by eapply get_put_at|].
    left. eexists. split; [done|]. by rewrite take_drop.
  - cbn. apply Nat.ltb_ge in Heqb1. by rewrite take_ge by lia.
Qed.

Section DifferCorrect.
Variable scan : N.
Variable same : path -> bool.
Variable dv : json -> json -> path -> list Op.

Definition differ_ok (after : json) : Prop :=
  forall before p root, get_at root p = Some before -> json_wf before -> json_wf after ->
    same_ok same p before after -> turns_into (dv before after p) root p after.

Lemma same_ok_child p before after s b a :
  read_child before s = Some b -> read_child after s = Some a ->
  same_ok same p before after -> same_ok same (p ++ [s]) b a.
Proof.
  intros Hb Ha H q b' a' Hb' Ha' Hs. apply (H (s :: q)); cbn.
  - by rewrite Hb.
  - by rewrite Ha.
  - by rewrite <- app_assoc in Hs.
Qed.

Lemma diff_property_loop before p l root o :
  get_at root p = Some (JObj o) -> NoDup (obj_keys l) ->
  Forall (fun kv => differ_ok (snd kv)) l -> Forall (fun kv => json_wf (snd kv)) l ->
  (forall k b, obj_get before k = Some b -> json_wf b) ->
  (forall k a, (k, a) ∈ l -> obj_get o k = obj_get before k) ->
  (forall k a b, (k, a) ∈ l -> obj_get before k = Some b -> same_ok same (p ++ [SStr k]) b a) ->
  exists o', foldM applyOp (Some root) (flat_map (diff_property dv before p) l) = Ok (Some (put_at root p (JObj o'))) /\
    (forall k a, (k, a) ∈ l -> exists v, obj_get o' k = Some v /\ json_eqv v a) /\
    (forall k, k ∉ obj_keys l -> obj_get o' k = obj_get o k).
Proof.
  revert root o. induction l as [|[k a] l IH]; intros root o Hg Hnd Hdv Hwf Hbwf Ho Hsame.
  { exists o. cbn. rewrite put_get_at by done. split_and!; [done| |done]. by intros ? ? ?%elem_of_nil. }
  apply NoDup_cons in Hnd as [Hk Hnd]. apply Forall_cons in Hdv as [Hd Hdv], Hwf as [Ha Hwf]. cbn [snd] in *.
  assert (exists v, foldM applyOp (Some root) (diff_property dv before p (k, a)) =
    Ok (Some (put_at root p (JObj (obj_set o k v)))) /\ json_eqv v a) as (v & Hstep & Hv).
  { cbn [diff_property]. destruct (obj_get before k) as [b|] eqn:Eb.
    - assert (read_child (JObj o) (SStr k) = Some b) as Hrc by (cbn; erewrite Ho; [done|by left]).
      destruct (Hd b (p ++ [SStr k]) root) as (v & Hf & Hv); eauto.
      + apply get_at_snoc. eauto.
      + eapply Hsame; [by left|done].
      + exists v. split; [|done]. rewrite Hf. by erewrite put_at_snoc by done.
    - exists a. split; [|done]. rewrite (emitSet_new root p k a o Hg). by rewrite cloneJson_id. }
  destruct (IH (put_at root p (JObj (obj_set o k v))) (obj_set o k v)) as (o' & Hf & Hin & Hout); try done.
  - by eapply get_put_at.
  - intros k' a' Hin. rewrite obj_get_set, decide_False; [apply (Ho k' a'); by right|].
    intros <-. apply Hk. apply list_elem_of_fmap. by exists (k, a').
  - intros k' a' b' Hin. apply Hsame. by right.
  - exists o'. cbn [flat_map]. rewrite foldM_app, Hstep. cbn [mbind result_bind]. rewrite Hf.
    split; [by erewrite put_put_at by done|]. split.
    + intros k' a' [[= -> ->]|Hin']%elem_of_cons; [|by apply Hin].
      rewrite Hout by done. rewrite obj_get_set, decide_True by done. eauto.
    + intros k' Hk'. cbn in Hk'. apply not_elem_of_cons in Hk' as [Hne Hk'].
      rewrite Hout by done. by rewrite obj_get_set, decide_False.
Qed.

Lemma drop_property_loop after p ks root o :
  get_at root p = Some (JObj o) ->
  exists o', foldM applyOp (Some root) (flat_map (drop_property after p) ks) = Ok (Some (put_at root p (JObj o'))) /\
    forall k, obj_get o' k = if decide (k ∈ ks /\ obj_has after k = false) then None else obj_get o k.
Proof.
  revert root o. induction ks as [|k ks IH]; intros root o Hg.
  { exists o. cbn. rewrite put_get_at by done. split; [done|]. intros k. rewrite decide_False; [done|].
    by intros [?%elem_of_nil _]. }
  cbn [flat_map]. unfold drop_property at 1. destruct (obj_has after k) eqn:Ek.
  - destruct (IH root o Hg) as (o' & Hf & Ho'). exists o'. split; [done|]. intros k'. rewrite Ho'.
    apply decide_ext. rewrite elem_of_cons. intuition congruence.
  - destruct (IH (put_at root p (JObj (obj_delete o k))) (obj_delete o k)) as (o' & Hf & Ho'); [by eapply get_put_at|].
    exists o'. rewrite foldM_app, (emitDelete_apply _ _ _ _ Hg). cbn [mbind result_bind]. rewrite Hf.
    split; [by erewrite put_put_at by done|]. intros k'. rewrite Ho', obj_get_delete.
    destruct (decide (k = k')) as [->|].
    + rewrite (decide_True (P := k' ∈ k' :: ks /\ _)); [by case_decide|]. split; [by left|done].
    + apply decide_ext. rewrite elem_of_cons. intuition congruence.
Qed.

Lemma diffObject_turns before after p root :
  get_at root p = Some (JObj before) -> json_wf (JObj before) -> json_wf (JObj after) ->
  Forall (fun kv => differ_ok (snd kv)) after -> same_ok same p (JObj before) (JObj after) ->
  turns_into (diffObject dv before after p) root p (JObj after).
Proof.
  intros Hg Hb Ha Hdv Hsame. unfold diffObject. split_if; [by eapply turns_into_emitSet|].
  inversion Hb as [| | | | |? Hbs _ Hbv]; inversion Ha as [| | | | |? Has _ Hav]; subst.
  apply obj_sorted_NoDup in Has as Hnd.
  destruct (diff_property_loop before p after root before Hg Hnd Hdv Hav) as (o1 & Hf1 & Hin & Hout); try done.
  { intros k b Hk. by eapply (Forall_obj_get json_wf before k b). }
  { intros k a b Hk Hkb. eapply same_ok_child; [..|exact Hsame]; [done|]. by apply obj_get_elem. }
  destruct (drop_property_loop after p (obj_keys before) (put_at root p (JObj o1)) o1) as (o2 & Hf2 & Hdel).
  { by eapply get_put_at. }
  exists (JObj o2). rewrite foldM_app, Hf1. cbn [mbind result_bind]. rewrite Hf2.
  split; [by erewrite put_put_at by done|]. constructor. intros k. rewrite Hdel.
  destruct (obj_get after k) as [a|] eqn:Ek.
  - rewrite decide_False by (unfold obj_has; rewrite Ek; naive_solver).
    destruct (Hin k a) as (v & -> & Hv); [by apply obj_get_Some_elem|]. by constructor.
  - case_decide as Hd; [constructor|]. rewrite Hout by by apply obj_get_None.
    destruct (obj_get before k) as [b|] eqn:Eb; [|constructor]. exfalso. apply Hd.
    split; [|by unfold obj_has; rewrite Ek]. apply obj_has_elem. unfold obj_has. by rewrite Eb.
Qed.

Lemma diff_indices_loop p after before pre root :
  get_at root p = Some (JArr (pre ++ before)) ->
  Forall differ_ok after -> Forall json_wf before -> Forall json_wf after ->
  (forall i b a, before !! i = Some b -> after !! i = Some a ->
    same_ok same (p ++ [SNum (N.of_nat (length pre + i))]) b a) ->
  exists new,
    foldM applyOp (Some root) (diff_indices dv p (N.of_nat (length pre)) before after) =
      Ok (Some (put_at root p (JArr (pre ++ new ++ drop (length after) before)))) /\
    Forall2 json_eqv new (take (length before) after).
Proof.
  revert before pre root. induction after as [|a after IH]; intros before pre root Hg Hdv Hb Ha Hsame.
  { exists []. cbn. rewrite drop_0, take_nil, put_get_at by done. done. }
  destruct before as [|b before]; [exists []; cbn; by rewrite put_get_at|].
  apply Forall_cons in Hdv as [Hd Hdv], Hb as [Hb0 Hb], Ha as [Ha0 Ha]. cbn [diff_indices].
  assert (forall x, read_child (JArr (pre ++ x :: before)) (SNum (N.of_nat (length pre))) = Some x) as Hrc.
  { intros x. cbn. rewrite nth_N_lookup, Nat2N.id. by apply list_lookup_middle. }
  destruct (Hd b (p ++ [SNum (N.of_nat (length pre))]) root) as (v & Hf & Hv); try done.
  { apply get_at_snoc. eauto. }
  { specialize (Hsame 0%nat b a eq_refl eq_refl). by rewrite Nat.add_0_r in Hsame. }
  rewrite foldM_app, Hf. cbn [mbind result_bind]. erewrite put_at_snoc by done.
  assert (put_child (JArr (pre ++ b :: before)) (SNum (N.of_nat (length pre))) v = JArr ((pre ++ [v]) ++ before)) as ->.
  { cbn. rewrite Nat2N.id. rewrite insert_app_r_alt, Nat.sub_diag by lia. cbn. by rewrite <- app_assoc. }
  assert ((N.of_nat (length pre) + 1)%N = N.of_nat (length (pre ++ [v]))) as -> by (rewrite length_app; cbn; lia).
  destruct (IH before (pre ++ [v]) (put_at root p (JArr ((pre ++ [v]) ++ before)))) as (new & -> & Hnew); try done.
  { by eapply get_put_at. }
  { intros i b' a' Hb' Ha'. specialize (Hsame (S i) b' a' Hb' Ha').
    rewrite length_app. cbn. by replace (length pre + 1 + i)%nat with (length pre + S i)%nat by lia. }
  exists (v :: new). erewrite put_put_at by done. split; [by rewrite <- app_assoc|]. cbn. by constructor.
Qed.
End DifferCorrect.

Lemma common_prefix_spec before after :
  Forall json_wf before -> Forall json_wf after ->
  let n := common_prefix before after in
  (n <= length before)%nat /\ (n <= length after)%nat /\ Forall2 json_eqv (take n before) (take n after).
Proof.
  revert after. induction before as [|b before IH]; intros [|a after] Hb Ha; cbn; try (split_and!; [lia..|done]).
  apply Forall_cons in Hb as [Hb0 Hb], Ha as [Ha0 Ha].
  destruct (jsonEqual b a) eqn:E; cbn; [|split_and!; [lia..|done]].
  destruct (IH after Hb Ha) as (H1 & H2 & H3). split_and!; [lia..|]. constructor; [|done]. by apply jsonEqual_eqv.
Qed.

Lemma Forall2_rev {A B} (R : A -> B -> Prop) l r : Forall2 R l r -> Forall2 R (rev l) (rev r).
Proof. induction 1 as [|x y l r Hxy _ IH]; cbn; [done|]. apply Forall2_app; auto. Qed.

Lemma common_suffix_spec before after :
  Forall json_wf before -> Forall json_wf after ->
  let n := common_prefix (rev before) (rev after) in
  (n <= length before)%nat /\ (n <= length after)%nat /\
  Forall2 json_eqv (drop (length before - n) before) (drop (length after - n) after).
Proof.
  intros Hb Ha. pose proof (common_prefix_spec (rev before) (rev after)) as H.
  rewrite !length_rev in H.
  destruct H as (H1 & H2 & H3); [by apply Forall_rev..|]. split; [done|]. split; [done|].
  apply Forall2_rev in H3. by rewrite !firstn_rev, !rev_involutive in H3.
Qed.

Lemma diffArray_turns scan same before after p root :
  get_at root p = Some (JArr before) -> Forall json_wf before -> Forall json_wf after ->
  Forall (differ_ok same (diffValue scan same)) after -> same_ok same p (JArr before) (JArr after) ->
  turns_into (diffArray (diffValue scan same) before after p) root p (JArr after).
Proof.
  intros Hg Hb Ha Hdv Hsame.
  destruct (diff_indices_loop same (diffValue scan same) p after before [] root Hg Hdv Hb Ha) as (new & Hnew & Heqv).
  { intros i b a Hb' Ha'. eapply same_ok_child; [..|exact Hsame]; cbn; by rewrite nth_N_lookup, Nat2N.id. }
  change (N.of_nat (length [])) with 0%N in Hnew. cbn [app] in Hnew. unfold diffArray.
  pose proof (Forall2_length _ _ _ Heqv) as Hlen. rewrite length_take in Hlen.
  destruct (length before =? length after)%nat eqn:El; [apply Nat.eqb_eq in El|apply Nat.eqb_neq in El].
  { exists (JArr new). rewrite Hnew, drop_ge, app_nil_r by lia. split; [done|]. constructor.
    by rewrite take_ge in Heqv by lia. }
  destruct (common_prefix_spec before after Hb Ha) as (Hp1 & Hp2 & Hpre).
  set (prefix := common_prefix before after) in *.
  destruct (common_suffix_spec (drop prefix before) (drop prefix after)) as (Hs1 & Hs2 & Hsuf); [by apply Forall_drop..|].
  set (suffix := common_prefix (rev (drop prefix before)) (rev (drop prefix after))) in *.
  rewrite !length_drop in Hs1, Hs2, Hsuf. rewrite !drop_drop in Hsuf. clearbody prefix suffix.
  split_if.
  - clear Hnew. split_if; [eapply turns_into_emitSet; [done|by constructor]|].
    eexists. split.
    { cbn [foldM]. rewrite (splice_apply root p before) by (done || lia). done. }
    constructor. rewrite fmap_cloneJson_id by by apply Forall_take, Forall_drop. rewrite !Nat2N.id.
    rewrite (length_drop after prefix) in Hsuf. set (k := (length after - suffix - prefix)%nat).
    assert (take prefix after ++ take k (drop prefix after) ++ drop (prefix + k) after = after) as E.
    { by rewrite <- drop_drop, !take_drop. }
    match goal with |- Forall2 _ ?l _ =>
      cut (Forall2 json_eqv l (take prefix after ++ take k (drop prefix after) ++ drop (prefix + k) after)) end.
    { by rewrite E. }
    apply Forall2_app; [done|]. apply Forall2_app; [done|].
    by replace (prefix + k)%nat with (prefix + (length after - prefix - suffix))%nat by lia.
  - unfold turns_into. destruct (length before <? length after)%nat eqn:Elt; [apply Nat.ltb_lt in Elt|apply Nat.ltb_ge in Elt].
    + rewrite foldM_app, Hnew. cbn [mbind result_bind foldM]. rewrite drop_ge, app_nil_r by lia.
      rewrite (splice_apply _ p new) by (first [by eapply get_put_at|lia]). cbn [mbind result_bind].
      rewrite fmap_cloneJson_id by by apply Forall_drop. eexists. split; [by erewrite put_put_at by done|].
      constructor. rewrite (take_ge new) by lia. rewrite (drop_ge new) by lia. rewrite app_nil_r.
      match goal with |- Forall2 _ ?l _ =>
        cut (Forall2 json_eqv l (take (length before) after ++ drop (length before) after)) end.
      { by rewrite take_drop. }
      by apply Forall2_app.
    + assert ((length after <? length before)%nat = true) as -> by (apply Nat.ltb_lt; lia).
      rewrite take_ge in Heqv by lia. rewrite foldM_app, Hnew. cbn [mbind result_bind].
      split_if.
      * rewrite (emitSet_apply _ p (JArr after) _ (get_put_at _ _ _ _ Hg)). eexists.
        split; [by erewrite put_put_at by done|]. by rewrite cloneJson_id by by constructor.
      * cbn [foldM]. rewrite (splice_apply _ p (new ++ drop (length after) before)).
        -- cbn [mbind result_bind]. eexists. split; [by erewrite put_put_at by done|]. constructor.
           cbn [app]. rewrite !Nat2N.id. rewrite take_app_le by lia. rewrite take_ge by lia.
           rewrite drop_ge by (rewrite length_app, length_drop; lia). by rewrite app_nil_r.
        -- by eapply get_put_at.
        -- rewrite length_app. lia.
Qed.

Lemma strict_eq_at_eqv same p before after :
  json_wf before -> json_wf after -> same_ok same p before after ->
  strict_eq_at same p before after = true -> json_eqv before after.
Proof.
  intros Hb Ha Hsame [H|H]%orb_true_iff.
  - destruct before, after; cbn in H; try done.
    + apply Bool.eqb_prop in H as ->. done.
    + inversion Hb; inversion Ha; subst. constructor. by apply num_strict_eq_eqv.
    + by apply bool_decide_eq_true in H as ->.
  - apply andb_true_iff in H as [_ H]. rewrite (Hsame [] before after); [done..|]. by rewrite app_nil_r.
Qed.

(** The operations of a diff, applied to a tree that holds [before] at [p],
    put a value equal to [after] there and change nothing else. *)
Lemma diffValue_turns scan same after : differ_ok same (diffValue scan same) after.
Proof.
  induction after as [| | | |l IH|o IH] using json_ind; intros before p root Hg Hb Ha Hsame; cbn [diffValue];
    (destruct (strict_eq_at same p before _) eqn:Es; [by eapply turns_into_nil, strict_eq_at_eqv|]);
    try (destruct before; by eapply turns_into_emitSet).
  - destruct before; try by eapply turns_into_emitSet. by apply diffString_turns.
  - destruct before; try by eapply turns_into_emitSet. inversion Hb; inversion Ha; subst. by apply diffArray_turns.
  - destruct before; try by eapply turns_into_emitSet. by apply diffObject_turns with same.
Qed.

(** * The operations of a diff are valid *)

Definition path_wf (p : path) : Prop := path_safe p = true /\ Forall seg_wf p.

Lemma path_wf_snoc p s : path_wf p -> seg_safe s = true -> seg_wf s -> path_wf (p ++ [s]).
Proof.
  intros [Hp Hw] Hs Hsw. split; [|by apply Forall_app; auto].
  unfold path_safe in *. rewrite forallb_app, Hp. cbn. by rewrite Hs.
Qed.

Lemma emitSet_op_wf p v : path_wf p -> json_wf v -> Forall op_wf (emitSet p v).
Proof.
  intros [Hp Hw] Hv. unfold emitSet. rewrite cloneJson_id by done.
  destruct p; constructor; try constructor; by repeat split.
Qed.

Lemma str_wf_drop n s : str_wf s -> str_wf (drop n s).
Proof. apply Forall_drop. Qed.

Lemma diffString_op_wf scan before after p :
  path_wf p -> str_wf after -> Forall op_wf (diffString scan before after p).
Proof.
  intros Hp Ha. unfold diffString. case_bool_decide; [constructor|].
  case_bool_decide as Hne; [apply emitSet_op_wf; [done|by constructor]|]. destruct Hp as [Hp Hw].
  assert (forall n, str_wf (drop n after)) as Hd by by intros; apply str_wf_drop.
  assert (json_wf (JStr after)) by by constructor.
  split_if; [by repeat constructor|]. split_if; [by repeat constructor|].
  apply Forall_cons. split; [by repeat split|]. split_if; by repeat constructor.
Qed.

Section DifferValid.
Variable dv : json -> json -> path -> list Op.

Definition differ_valid (after : json) : Prop :=
  forall before p, path_wf p -> json_wf before -> json_wf after -> Forall op_wf (dv before after p).

Lemma Forall_flat_map {A B} (P : B -> Prop) (f : A -> list B) l :
  Forall (fun x => Forall P (f x)) l -> Forall P (flat_map f l).
Proof. induction 1; cbn; [done|]. by apply Forall_app. Qed.

Lemma diffObject_op_wf before after p :
  path_wf p -> json_wf (JObj before) -> json_wf (JObj after) ->
  Forall (fun kv => differ_valid (snd kv)) after -> Forall op_wf (diffObject dv before after p).
Proof.
  intros Hp Hb Ha Hdv. unfold diffObject. destruct (existsb _ _) eqn:Ex; [by apply emitSet_op_wf|].
  inversion Hb as [| | | | |? _ Hbk Hbv]; inversion Ha as [| | | | |? _ Hak Hav]; subst.
  assert (forall k, k ∈ obj_keys before \/ k ∈ obj_keys after -> str_wf k -> path_wf (p ++ [SStr k])) as Hkey.
  { intros k Hk Hkw. apply path_wf_snoc; [done| |done]. cbn. apply negb_true_iff.
    destruct (reserved k) eqn:Er; [|done]. rewrite <- Ex. symmetry. apply existsb_exists. exists k.
    split; [|done]. apply list_elem_of_In, elem_of_app. tauto. }
  apply Forall_app. split; apply Forall_flat_map, Forall_forall.
  - intros [k a] Hin. rewrite Forall_forall in Hdv, Hak, Hav. cbn.
    assert (path_wf (p ++ [SStr k])) as Hpk.
    { apply Hkey; [right|exact (Hak _ Hin)]. apply list_elem_of_fmap. by exists (k, a). }
    destruct (obj_get before k) as [b|] eqn:Eb.
    { apply (Hdv _ Hin); [done| |exact (Hav _ Hin)]. by eapply (Forall_obj_get json_wf before). }
    apply emitSet_op_wf; [done|exact (Hav _ Hin)].
  - intros k Hin. unfold drop_property. split_if; [done|]. apply Forall_singleton.
    assert (path_wf (p ++ [SStr k])) as [? ?].
    { apply Hkey; [by left|]. unfold obj_keys in Hin. apply list_elem_of_fmap in Hin as (kv & -> & Hin).
      rewrite Forall_forall in Hbk. by apply Hbk. }
    repeat split; try done. cbn. apply snoc_ne_nil.
Qed.

Lemma diff_indices_op_wf p i before after :
  path_wf p -> Forall json_wf before -> Forall json_wf after -> Forall differ_valid after ->
  Forall op_wf (diff_indices dv p i before after).
Proof.
  intros Hp Hb Ha. revert i before Hb. induction Ha as [|a after Ha0 _ IH]; intros i before Hb Hdv; [done|].
  destruct before as [|b before]; [done|]. apply Forall_cons in Hdv as [Hd Hdv], Hb as [Hb0 Hb].
  cbn. apply Forall_app. split; [|by apply IH]. apply Hd; [|done..]. by apply path_wf_snoc.
Qed.

Lemma splice_op_wf p i r items : path_wf p -> Forall json_wf items -> op_wf (OpP p i r items).
Proof. intros [Hp Hw] Hi. by repeat split. Qed.

Lemma diffArray_op_wf before after p :
  path_wf p -> Forall json_wf before -> Forall json_wf after -> Forall differ_valid after ->
  Forall op_wf (diffArray dv before after p).
Proof.
  intros Hp Hb Ha Hdv. unfold diffArray. split_if; [by apply diff_indices_op_wf|].
  assert (json_wf (JArr after)) by by constructor.
  split_if.
  - split_if; [by apply emitSet_op_wf|]. apply Forall_singleton, splice_op_wf; [done|].
    rewrite fmap_cloneJson_id; by apply Forall_take, Forall_drop.
  - apply Forall_app. split; [by apply diff_indices_op_wf|].
    split_if; [apply Forall_singleton, splice_op_wf; [done|]; rewrite fmap_cloneJson_id; by apply Forall_drop|].
    split_if; [|done]. split_if; [by apply emitSet_op_wf|]. by apply Forall_singleton, splice_op_wf.
Qed.
End DifferValid.

Lemma diffValue_op_wf scan same after : differ_valid (diffValue scan same) after.
Proof.
  induction after as [| | | |l IH|o IH] using json_ind; intros before p Hp Hb Ha; cbn [diffValue];
    (destruct (strict_eq_at same p before _); [done|]); try (destruct before; by apply emitSet_op_wf).
  - destruct before; try by apply emitSet_op_wf. inversion Ha; subst. by apply diffString_op_wf.
  - destruct before; try by apply emitSet_op_wf. inversion Hb; inversion Ha; subst. by apply diffArray_op_wf.
  - destruct before; try by apply emitSet_op_wf. by apply diffObject_op_wf.
Qed.

Lemma op_wf_ok op : op_wf op -> op_ok op.
Proof. by intros [? _]. Qed.

(** Applying the tuples of valid operations is applying the operations. *)
Lemma applyOps_typed root ops :
  Forall op_ok ops -> applyOps root (op_to_json <$> ops) = foldM applyOp root ops.
Proof.
  intros H. unfold applyOps. revert root. induction H as [|op ops Hop _ IH]; intros root; [done|].
  cbn [fmap list_fmap foldM]. rewrite assertValidOp_to_json by done. cbn [mbind result_bind].
  destruct (applyOp root op); cbn [mbind result_bind]; [apply IH|done].
Qed.
