(* ===== verification/DeltaCodec.v ===== *)
(** [packages/chord/src/delta/index.ts]: the wire form of operations.

    [encoder] and [decoder] keep state across batches: [enc_state] and the map
    of path ids are their closures.  A batch of wire operations is untrusted
    JSON on the decoding side; [assertValidWireOp] returns the typed view. *)
From S2P Require Import Prelude JsBase JsonText Json DeltaOps DeltaApply.

(** * Wire operations *)

Inductive PathRef : Type :=
| RefPath (p : path)
| RefId (id : N).

(** [ref = None] is a short form: the tuple without its path. *)
Inductive WireOp : Type :=
| WireR (v : json)
| WireS (ref : option PathRef) (v : json)
| WireD (ref : option PathRef)
| WireA (ref : option PathRef) (s : jsstr)
| WireT (ref : option PathRef) (n : N)
| WireP (ref : option PathRef) (index remove : N) (items : list json)
| WireM (ref : option PathRef) (permutation : list N)
| WireDef (id : N) (p : path).

Definition ref_to_json (ref : option PathRef) : list json :=
  match ref with
  | None => []
  | Some (RefPath p) => [path_to_json p]
  | Some (RefId id) => [num_to_json id]
  end.

Definition wire_to_json (op : WireOp) : json :=
  JArr match op with
       | WireR v => [JStr (js "r"); v]
       | WireS ref v => JStr (js "s") :: ref_to_json ref ++ [v]
       | WireD ref => JStr (js "d") :: ref_to_json ref
       | WireA ref s => JStr (js "a") :: ref_to_json ref ++ [JStr s]
       | WireT ref n => JStr (js "t") :: ref_to_json ref ++ [num_to_json n]
       | WireP ref i r items => JStr (js "p") :: ref_to_json ref ++ [num_to_json i; num_to_json r; JArr items]
       | WireM ref m => JStr (js "m") :: ref_to_json ref ++ [JArr (num_to_json <$> m)]
       | WireDef id p => [JStr (js "#"); num_to_json id; path_to_json p]
       end.

(** * Validation of the wire grammar *)

Definition okRef (r : json) : result delta_err PathRef :=
  match r with
  | JNum _ => RefId <$> assertCount "bad path id" r
  | JArr p => RefPath <$> assertSafePath p
  | _ => Err (TypeErr "path is not an array")
  end.

Definition assertString (msg : string) (v : json) : result delta_err jsstr :=
  match v with JStr s => Ok s | _ => Err (TypeErr msg) end.

(** Index, count and items of a splice. *)
Definition assertSplice (i r items : json) : result delta_err (N * N * list json) :=
  i ← assertCount "p index" i;
  r ← assertCount "p remove" r;
  match items with
  | JArr items => Ok (i, r, items)
  | _ => Err (TypeErr "p items")
  end.

Definition assertValidWireOp (op : json) : result delta_err WireOp :=
  match op with
  | JArr [] => Err (TypeErr "op is not a tuple")
  | JArr (JStr verb :: args) =>
      if verb_is verb "r" then
        match args with [v] => Ok (WireR v) | _ => Err (TypeErr "r arity") end
      else if verb_is verb "s" then
        match args with
        | [r; v] => r ← okRef r; Ok (WireS (Some r) v)
        | [v] => Ok (WireS None v)
        | _ => Err (TypeErr "s arity")
        end
      else if verb_is verb "d" then
        match args with
        | [r] => r ← okRef r; Ok (WireD (Some r))
        | [] => Ok (WireD None)
        | _ => Err (TypeErr "d arity")
        end
      else if verb_is verb "a" then
        match args with
        | [r; s] => r ← okRef r; s ← assertString "a value" s; Ok (WireA (Some r) s)
        | [s] => s ← assertString "a value" s; Ok (WireA None s)
        | _ => Err (TypeErr "a arity")
        end
      else if verb_is verb "t" then
        match args with
        | [r; n] => r ← okRef r; n ← assertCount "t count" n; Ok (WireT (Some r) n)
        | [n] => n ← assertCount "t count" n; Ok (WireT None n)
        | _ => Err (TypeErr "t arity")
        end
      else if verb_is verb "p" then
        match args with
        | [ref; i; r; items] =>
            ref ← okRef ref;
            '(i, r, items) ← assertSplice i r items;
            Ok (WireP (Some ref) i r items)
        | [i; r; items] =>
            '(i, r, items) ← assertSplice i r items;
            Ok (WireP None i r items)
        | _ => Err (TypeErr "p arity")
        end
      else if verb_is verb "m" then
        match args with
        | [r; m] => r ← okRef r; m ← assertPermutation m; Ok (WireM (Some r) m)
        | [m] => m ← assertPermutation m; Ok (WireM None m)
        | _ => Err (TypeErr "m arity")
        end
      else if verb_is verb "#" then
        match args with
        | [id; JArr p] =>
            id ← assertCount "# shape" id;
            p ← assertSafePath p;
            Ok (WireDef id p)
        | _ => Err (TypeErr "# shape")
        end
      else Err (TypeErr "unknown op verb")
  | JArr (_ :: _) => Err (TypeErr "unknown op verb")
  | _ => Err (TypeErr "op is not a tuple")
  end.

(** * The encoder *)

Definition seg_to_text (s : seg) : jsstr :=
  match s with SStr s => stringify_str s | SNum n => stringify_N n end.

Definition pathKey (p : path) : jsstr := stringify_items (seg_to_text <$> p).

Record enc_state : Type := EncState {
  seen : gset jsstr;
  ids : gmap jsstr N;
  nextId : N;
  enc_previous : option jsstr;
}.

Definition encoder : enc_state := EncState ∅ ∅ 0 None.

(** The wire tuple of an operation other than a replacement, whole or short. *)
Definition wire_of_op (op : Op) (ref : option PathRef) : WireOp :=
  match op with
  | OpR v => WireR v
  | OpS _ v => WireS ref v
  | OpD _ => WireD ref
  | OpA _ s => WireA ref s
  | OpT _ n => WireT ref n
  | OpP _ i r items => WireP ref i r items
  | OpM _ m => WireM ref m
  end.

(** One round of the loop of [encode]: the new state and the tuples pushed. *)
Definition encode_step (st : enc_state) (op : Op) : enc_state * list WireOp :=
  match op with
  | OpR v => (encoder, [WireR v])
  | _ =>
      let key := pathKey (op_path op) in
      if decide (Some key = enc_previous st) then (st, [wire_of_op op None])
      else
        match ids st !! key with
        | Some id =>
            (EncState (seen st) (ids st) (nextId st) (Some key), [wire_of_op op (Some (RefId id))])
        | None =>
            if decide (key ∈ seen st) then
              let id := nextId st in
              (EncState (seen st) (<[key := id]> (ids st)) (id + 1) (Some key),
               [WireDef id (op_path op); wire_of_op op (Some (RefId id))])
            else
              (EncState ({[key]} ∪ seen st) (ids st) (nextId st) (Some key),
               [wire_of_op op (Some (RefPath (op_path op)))])
        end
  end.

Fixpoint encode_loop (st : enc_state) (ops : list Op) : enc_state * list WireOp :=
  match ops with
  | [] => (st, [])
  | op :: ops =>
      let '(st, out) := encode_step st op in
      let '(st, rest) := encode_loop st ops in
      (st, out ++ rest)
  end.

Definition encode (st : enc_state) (ops : list Op) : enc_state * list WireOp :=
  encode_loop (EncState (seen st) (ids st) (nextId st) None) ops.

(** * The decoder *)

(** [paths] outlives the batch; [dec_previous] and [out] do not. *)
Record dec_state : Type := DecState {
  paths : gmap N path;
  dec_previous : option path;
  out : list Op;
}.

Definition decoder : gmap N path := ∅.

Definition wire_ref (op : WireOp) : option PathRef :=
  match op with
  | WireR _ | WireDef _ _ => None
  | WireS r _ | WireD r | WireA r _ | WireT r _ | WireP r _ _ _ | WireM r _ => r
  end.

(** The operation a tuple stands for once its path is known. *)
Definition op_of_wire (op : WireOp) (p : path) : Op :=
  match op with
  | WireR v => OpR v
  | WireS _ v => OpS p v
  | WireD _ => OpD p
  | WireA _ s => OpA p s
  | WireT _ n => OpT p n
  | WireP _ i r items => OpP p i r items
  | WireM _ m => OpM p m
  | WireDef _ _ => OpR JNull
  end.

Definition moves_elements (op : WireOp) : bool :=
  match op with WireP _ _ _ _ | WireM _ _ => true | _ => false end.

Definition resolve_ref (st : dec_state) (ref : option PathRef) : result delta_err path :=
  match ref with
  | None => ok_or (PathError (path_to_json [])) (dec_previous st)
  | Some (RefId id) => ok_or (PathError (num_to_json id)) (paths st !! id)
  | Some (RefPath p) => Ok p
  end.

Definition decode_step (st : dec_state) (op : json) : result delta_err dec_state :=
  op ← assertValidWireOp op;
  match op with
  | WireDef id p => Ok (DecState (<[id := p]> (paths st)) (dec_previous st) (out st))
  | WireR v => Ok (DecState ∅ None (out st ++ [OpR v]))
  | _ =>
      p ← resolve_ref st (wire_ref op);
      throw_if (negb (moves_elements op) && bool_decide (p = [])) (PathError (path_to_json p));;
      Ok (DecState (paths st) (Some p) (out st ++ [op_of_wire op p]))
  end.

(** A throw leaves the ids defined so far in the map. *)
Fixpoint decode_loop (st : dec_state) (wire : list json) : gmap N path * result delta_err (list Op) :=
  match wire with
  | [] => (paths st, Ok (out st))
  | op :: wire =>
      match decode_step st op with
      | Ok st => decode_loop st wire
      | Err e => (paths st, Err e)
      end
  end.

Definition decode (ps : gmap N path) (wire : list json) : gmap N path * result delta_err (list Op) :=
  decode_loop (DecState ps None []) wire.

(** * Streams of batches *)

(** The batches one encoder writes, and what one decoder reads from them, up to
    the first batch it rejects. *)
Fixpoint encode_stream (st : enc_state) (batches : list (list Op)) : enc_state * list (list WireOp) :=
  match batches with
  | [] => (st, [])
  | ops :: batches =>
      let '(st, wire) := encode st ops in
      let '(st, wires) := encode_stream st batches in
      (st, wire :: wires)
  end.

Fixpoint decode_stream (ps : gmap N path) (wires : list (list json)) : result delta_err (list (list Op)) :=
  match wires with
  | [] => Ok []
  | wire :: wires =>
      let '(ps, r) := decode ps wire in
      ops ← r;
      rest ← decode_stream ps wires;
      Ok (ops :: rest)
  end.

(** * The wire grammar accepts what the encoder writes *)

Definition ref_ok (ref : option PathRef) : Prop :=
  match ref with Some (RefPath p) => path_safe p = true | _ => True end.

Definition wire_ok (op : WireOp) : Prop :=
  ref_ok (wire_ref op) /\
  match op with
  | WireM _ m => is_permutation m
  | WireDef _ p => path_safe p = true
  | _ => True
  end.

Lemma okRef_to_json ref : ref_ok (Some ref) -> exists r, ref_to_json (Some ref) = [r] /\ okRef r = Ok ref.
Proof.
  intros Hok. destruct ref as [p|id]; eexists; (split; [done|]).
  - cbn [okRef path_to_json]. unfold path_to_json, okRef. by rewrite assertSafePath_to_json.
  - change (okRef (num_to_json id)) with (RefId <$> @assertCount "bad path id" (num_to_json id)).
    by rewrite assertCount_num.
Qed.

Lemma assertValidWireOp_to_json op : wire_ok op -> assertValidWireOp (wire_to_json op) = Ok op.
Proof.
  intros [Href Hop]. unfold wire_to_json, assertValidWireOp.
  assert (forall ref, wire_ref op = Some ref -> exists r, ref_to_json (Some ref) = [r] /\ okRef r = Ok ref) as Hr.
  { intros ref E. rewrite E in Href. by apply okRef_to_json. }
  destruct op as [v|[ref|] v|[ref|]|[ref|] s|[ref|] n|[ref|] i r items|[ref|] m|id p]; cbn [wire_ref] in *;
    try (destruct (Hr ref eq_refl) as (r0 & -> & Hr0)); cbn [app ref_to_json]; eval_verbs;
    unfold assertSplice; rewrite ?Hr0; cbn [mbind result_bind];
    rewrite ?assertCount_num; cbn [mbind result_bind]; rewrite ?assertCount_num; cbn [mbind result_bind];
    rewrite ?assertPermutation_to_json by done; try done.
  unfold path_to_json. cbn match. by rewrite assertSafePath_to_json.
Qed.

(** * Encoder and decoder in step *)

Definition path_good (p : path) : Prop := path_safe p = true /\ Forall seg_wf p.

Lemma seg_to_text_seg_text s : seg_wf s -> seg_text (seg_to_text s).
Proof. destruct s as [s|n]; intros H; [left; by exists s|right; by exists n]. Qed.

Lemma seg_to_text_inj s1 s2 : seg_wf s1 -> seg_wf s2 -> seg_to_text s1 = seg_to_text s2 -> s1 = s2.
Proof.
  assert (forall s n, stringify_str s = stringify_N n -> False) as Hmix.
  { intros s n E. destruct (stringify_N_digits n) as [Hd Hn]. rewrite <- E in Hd.
    apply Forall_cons in Hd as [Hd _]. unfold digit in Hd. lia. }
  destruct s1, s2; cbn; intros H1 H2 E.
  - f_equal. by apply stringify_str_inj.
  - by apply Hmix in E.
  - symmetry in E. by apply Hmix in E.
  - f_equal. apply (inj js_of_Z) in E. lia.
Qed.

(** The key of a path identifies it. *)
Lemma pathKey_inj p q : Forall seg_wf p -> Forall seg_wf q -> pathKey p = pathKey q -> p = q.
Proof.
  intros Hp Hq E.
  assert (forall p, Forall seg_wf p -> Forall seg_text (seg_to_text <$> p)) as Ht.
  { intros p' H. apply Forall_fmap. eapply Forall_impl; [exact H|]. intros s. apply seg_to_text_seg_text. }
  apply stringify_items_inj in E; [|by apply Ht..]. clear Ht. revert q Hq E.
  induction Hp as [|s p Hs _ IH]; intros [|t q] Hq E; try done. cbn in E. injection E as Es E.
  apply Forall_cons in Hq as [Ht Hq]. f_equal; [by apply seg_to_text_inj|by apply IH].
Qed.

(** Every id the encoder may refer to is defined, as the path of its key. *)
Definition ids_sync (st : enc_state) (ps : gmap N path) : Prop :=
  forall key id, ids st !! key = Some id ->
    (id < nextId st)%N /\ exists p, path_good p /\ pathKey p = key /\ ps !! id = Some p.

Definition previous_sync (e : option jsstr) (d : option path) : Prop :=
  match e with
  | None => True
  | Some key => exists p, path_good p /\ pathKey p = key /\ d = Some p
  end.

Definition in_sync (st : enc_state) (d : dec_state) : Prop :=
  ids_sync st (paths d) /\ previous_sync (enc_previous st) (dec_previous d).

Lemma decode_loop_steps d wire d' :
  foldM decode_step d wire = Ok d' -> decode_loop d wire = (paths d', Ok (out d')).
Proof.
  revert d. induction wire as [|op wire IH]; intros d; cbn; [by intros [= ->]|].
  destruct (decode_step d op); cbn; [apply IH|done].
Qed.

Lemma op_of_wire_of_op op ref : isReplace op = false -> op_of_wire (wire_of_op op ref) (op_path op) = op.
Proof. by destruct op. Qed.

Lemma wire_ref_of_op op ref : isReplace op = false -> wire_ref (wire_of_op op ref) = ref.
Proof. by destruct op. Qed.

Lemma wire_of_op_ok op ref : op_ok op -> isReplace op = false -> ref_ok ref -> wire_ok (wire_of_op op ref).
Proof. intros [Hs Hop] Hr Href. split; [by rewrite wire_ref_of_op|]. by destruct op. Qed.

(** Decoding one operation tuple whose reference resolves to its path. *)
Lemma decode_step_op d op ref :
  op_ok op -> isReplace op = false -> ref_ok ref -> resolve_ref d ref = Ok (op_path op) ->
  decode_step d (wire_to_json (wire_of_op op ref)) =
    Ok (DecState (paths d) (Some (op_path op)) (out d ++ [op])).
Proof.
  intros Hok Hrep Href Hres. unfold decode_step.
  rewrite assertValidWireOp_to_json by by apply wire_of_op_ok. cbn [mbind result_bind].
  assert (negb (moves_elements (wire_of_op op ref)) && bool_decide (op_path op = []) = false) as Hne.
  { destruct Hok as [_ Hop]. apply andb_false_iff.
    destruct op; try done; try (by left); right; by apply bool_decide_eq_false_2. }
  rewrite <- (wire_ref_of_op op ref Hrep) in Hres.
  destruct op; try done; cbn [wire_of_op wire_ref op_path] in *; rewrite Hres; cbn [mbind result_bind];
    rewrite Hne; done.
Qed.

Lemma decode_step_def d id p :
  path_safe p = true ->
  decode_step d (wire_to_json (WireDef id p)) = Ok (DecState (<[id := p]> (paths d)) (dec_previous d) (out d)).
Proof.
  intros Hp. unfold decode_step. by rewrite assertValidWireOp_to_json by by repeat split.
Qed.

Lemma decode_step_r d v : decode_step d (wire_to_json (WireR v)) = Ok (DecState ∅ None (out d ++ [OpR v])).
Proof. unfold decode_step. by rewrite assertValidWireOp_to_json by by repeat split. Qed.

Lemma op_path_good op : op_wf op -> path_good (op_path op).
Proof. by intros ([? _] & ? & _). Qed.

Lemma encode_step_sync st d op st' ws :
  in_sync st d -> op_wf op -> encode_step st op = (st', ws) ->
  exists d', foldM decode_step d (wire_to_json <$> ws) = Ok d' /\ out d' = out d ++ [op] /\ in_sync st' d'.
Proof.
  intros [Hids Hprev] Hop E. assert (Hok : op_ok op) by apply Hop.
  pose proof (op_path_good op Hop) as Hgood.
  destruct (isReplace op) eqn:Hrep.
  { destruct op; try done. injection E as <- <-. eexists. cbn [fmap list_fmap foldM].
    rewrite decode_step_r. cbn [mbind result_bind]. split_and!; [done|done|]. by split. }
  assert (encode_step st op =
    let key := pathKey (op_path op) in
    if decide (Some key = enc_previous st) then (st, [wire_of_op op None])
    else match ids st !! key with
         | Some id => (EncState (seen st) (ids st) (nextId st) (Some key), [wire_of_op op (Some (RefId id))])
         | None =>
             if decide (key ∈ seen st) then
               (EncState (seen st) (<[key := nextId st]> (ids st)) (nextId st + 1) (Some key),
                [WireDef (nextId st) (op_path op); wire_of_op op (Some (RefId (nextId st)))])
             else (EncState ({[key]} ∪ seen st) (ids st) (nextId st) (Some key),
                   [wire_of_op op (Some (RefPath (op_path op)))])
         end) as E' by by destruct op.
  rewrite E' in E. clear E'. cbv zeta in E. set (key := pathKey (op_path op)) in *.
  assert (previous_sync (Some key) (Some (op_path op))) as Hnew by by exists (op_path op).
  assert (forall p, path_good p -> pathKey p = key -> p = op_path op) as Hkey.
  { intros p [_ Hp] Heq. apply pathKey_inj; [done|apply Hgood|done]. }
  case_decide as Hs; [|destruct (ids st !! key) as [id|] eqn:Eid; [|case_decide as Hseen]];
    injection E as <- <-; cbn [fmap list_fmap foldM].
  - rewrite <- Hs in Hprev. destruct Hprev as (p & Hp & Hk & Hd). apply Hkey in Hk as ->; [|done].
    rewrite decode_step_op; [|done..|cbn; by rewrite Hd]. cbn [mbind result_bind].
    eexists. split_and!; [done|done|]. split; [done|]. by rewrite <- Hs.
  - destruct (Hids key id Eid) as (Hlt & p & Hp & Hk & Hd). apply Hkey in Hk as ->; [|done].
    rewrite decode_step_op; [|done..|cbn; by rewrite Hd]. cbn [mbind result_bind].
    eexists. split_and!; [done|done|]. by split.
  - rewrite decode_step_def by apply Hgood. cbn [mbind result_bind].
    rewrite decode_step_op; [|done..|cbn; by rewrite lookup_insert_eq]. cbn [mbind result_bind].
    eexists. split_and!; [done|done|]. split; [|done]. intros key' id' H. cbn in *.
    destruct (decide (key = key')) as [<-|Hne].
    + rewrite lookup_insert_eq in H. injection H as <-. split; [lia|]. exists (op_path op). by rewrite lookup_insert_eq.
    + rewrite lookup_insert_ne in H by done. destruct (Hids key' id' H) as (Hlt & p & Hp).
      split; [lia|]. exists p. rewrite lookup_insert_ne by lia. done.
  - rewrite decode_step_op; [|done|done|apply Hgood|done]. cbn [mbind result_bind].
    eexists. split_and!; [done|done|]. by split.
Qed.

Lemma encode_loop_sync ops st d st' ws :
  in_sync st d -> Forall op_wf ops -> encode_loop st ops = (st', ws) ->
  exists d', foldM decode_step d (wire_to_json <$> ws) = Ok d' /\ out d' = out d ++ ops /\ in_sync st' d'.
Proof.
  intros Hsync Hops. revert st d ws Hsync. induction Hops as [|op ops Hop _ IH]; intros st d ws Hsync; cbn.
  { intros [= <- <-]. exists d. by rewrite app_nil_r. }
  destruct (encode_step st op) as [st1 ws1] eqn:E1. destruct (encode_loop st1 ops) as [st2 ws2] eqn:E2.
  intros [= <- <-]. destruct (encode_step_sync _ _ _ _ _ Hsync Hop E1) as (d1 & H1 & Ho1 & Hs1).
  destruct (IH _ _ _ Hs1 E2) as (d2 & H2 & Ho2 & Hs2). exists d2.
  rewrite fmap_app, foldM_app, H1. cbn [mbind result_bind]. split_and!; [done| |done].
  by rewrite Ho2, Ho1, <- app_assoc.
Qed.

(** One batch: decoding gives the operations encoded, and the two stay in
    step. *)
Lemma encode_decode_sync ops st ps st' ws :
  ids_sync st ps -> Forall op_wf ops -> encode st ops = (st', ws) ->
  exists ps', decode ps (wire_to_json <$> ws) = (ps', Ok ops) /\ ids_sync st' ps'.
Proof.
  intros Hsync Hops E. unfold encode in E.
  eapply (encode_loop_sync ops _ (DecState ps None [])) in E as (d & Hd & Ho & [Hs _]); [|by split|done].
  exists (paths d). split; [|done]. unfold decode. rewrite (decode_loop_steps _ _ _ Hd). by rewrite Ho.
Qed.

Lemma encoder_sync ps : ids_sync encoder ps.
Proof. intros key id H. cbn in H. by rewrite lookup_empty in H. Qed.

(** A base batch brings any encoder and any decoder into step. *)
Lemma encode_decode_base ops st ps st' ws :
  isBase ops = true -> Forall op_wf ops -> encode st ops = (st', ws) ->
  exists ps', decode ps (wire_to_json <$> ws) = (ps', Ok ops) /\ ids_sync st' ps'.
Proof.
  intros Hb Hops E. destruct ops as [|[v| | | | | |] ops]; try done. apply Forall_cons in Hops as [Hr Hops].
  unfold encode in E. cbn in E. destruct (encode_loop encoder ops) as [st2 ws2] eqn:E2. injection E as <- <-.
  eapply (encode_loop_sync ops encoder (DecState ∅ None [OpR v])) in E2 as (d & Hd & Ho & [Hs _]);
    [|split; [apply encoder_sync|done]|done].
  exists (paths d). split; [|done]. unfold decode. cbn [app fmap list_fmap].
  rewrite (decode_loop_steps _ _ d); [by rewrite Ho|]. cbn [foldM]. rewrite decode_step_r. done.
Qed.

Lemma encode_decode_stream batches st ps st' wires :
  ids_sync st ps -> Forall (Forall op_wf) batches -> encode_stream st batches = (st', wires) ->
  decode_stream ps (map (map wire_to_json) wires) = Ok batches.
Proof.
  intros Hsync Hb. revert st ps wires Hsync. induction Hb as [|ops batches Hops _ IH]; intros st ps wires Hsync; cbn.
  { by intros [= <- <-]. }
  destruct (encode st ops) as [st1 ws] eqn:E1. destruct (encode_stream st1 batches) as [st2 wss] eqn:E2.
  intros [= <- <-]. destruct (encode_decode_sync _ _ _ _ _ Hsync Hops E1) as (ps' & Hd & Hs).
  cbn [map decode_stream]. change (map wire_to_json ws) with (wire_to_json <$> ws). rewrite Hd.
  cbn [mbind result_bind]. by erewrite IH by done.
Qed.

(** * What a decoder lets through *)

Lemma okRef_ok j r : okRef j = Ok r -> ref_ok (Some r).
Proof.
  unfold okRef. destruct j; try done.
  - destruct (assertCount _ _); cbn; [by intros [= <-]|done].
  - destruct (assertSafePath l) as [p|] eqn:E; cbn; [|done]. intros [= <-]. by eapply assertSafePath_safe.
Qed.

Lemma assertValidWireOp_sound j op : assertValidWireOp j = Ok op -> wire_ok op.
Proof.
  unfold assertValidWireOp. intros H.
  destruct j as [| | | |[|[| | |verb| |] args]|]; try done.
  repeat match type of H with (if ?b then _ else _) = _ => destruct b end; try done;
    repeat match type of H with
           | match ?l with [] => _ | _ :: _ => _ end = _ => destruct l
           | match ?j with JNull => _ | _ => _ end = _ => destruct j
           end; try done; res_inv;
    repeat match goal with
           | H : (let (_, _) := ?x in _) = Ok _ |- _ => destruct x
           end; res_inv;
    repeat match goal with
           | H : okRef _ = Ok _ |- _ => apply okRef_ok in H
           | H : assertPermutation _ = Ok _ |- _ => apply assertPermutation_sound in H
           | H : assertSafePath _ = Ok _ |- _ => apply assertSafePath_safe in H
           end; by split.
Qed.

Definition paths_safe (ps : gmap N path) : Prop := map_Forall (fun _ p => path_safe p = true) ps.

Definition dec_safe (d : dec_state) : Prop :=
  paths_safe (paths d) /\ (forall p, dec_previous d = Some p -> path_safe p = true) /\ Forall op_ok (out d).

Lemma resolve_ref_safe d ref p :
  dec_safe d -> ref_ok ref -> resolve_ref d ref = Ok p -> path_safe p = true.
Proof.
  intros (Hp & Hprev & _) Hr H. destruct ref as [[q|id]|]; cbn in H; res_inv.
  - done.
  - exact (Hp id p H).
  - by apply Hprev.
Qed.

Lemma decode_step_safe d j d' : dec_safe d -> decode_step d j = Ok d' -> dec_safe d'.
Proof.
  intros Hd H. assert (Hd' : dec_safe d) by done. destruct Hd' as (Hp & Hprev & Hout).
  unfold decode_step in H. apply bind_Ok in H as (op & Hv & H). apply assertValidWireOp_sound in Hv as [Href Hop].
  assert ((exists v, op = WireR v) \/ (exists id p, op = WireDef id p) \/
    exists p, resolve_ref d (wire_ref op) = Ok p /\
      negb (moves_elements op) && bool_decide (p = []) = false /\
      (forall v, op <> WireR v) /\ (forall id q, op <> WireDef id q) /\
      d' = DecState (paths d) (Some p) (out d ++ [op_of_wire op p])) as [[v ->]|[(id & p & ->)|(p & Hres & Hne & HR & HD & ->)]].
  { destruct op; eauto; right; right; apply bind_Ok in H as (p & Hres & H);
      apply bind_Ok in H as (u & Hne & H); apply throw_if_Ok in Hne; apply Ok_inj in H; exists p; done. }
  - injection H as <-. split; [apply map_Forall_empty|]. split; [done|]. apply Forall_app. by repeat constructor.
  - injection H as <-. split; [by apply map_Forall_insert_2|]. by split.
  - pose proof (resolve_ref_safe _ _ _ Hd Href Hres) as Hs. split; [done|]. split; [by intros ? [= <-]|].
    apply Forall_app. split; [done|]. constructor; [|done].
    apply andb_false_iff in Hne. rewrite bool_decide_eq_false in Hne.
    destruct op; try (by destruct (HR v)); try (by destruct (HD id p0)); split; cbn in *; try done; naive_solver.
Qed.

Lemma decode_loop_safe wire d ps' r :
  dec_safe d -> decode_loop d wire = (ps', r) -> paths_safe ps' /\ forall ops, r = Ok ops -> Forall op_ok ops.
Proof.
  revert d. induction wire as [|j wire IH]; intros d Hd; cbn.
  - intros [= <- <-]. destruct Hd as (Hp & _ & Ho). split; [done|]. by intros ops [= <-].
  - destruct (decode_step d j) as [d'|e] eqn:E.
    + apply IH. by eapply decode_step_safe.
    + intros [= <- <-]. split; [apply Hd|done].
Qed.

(** A tuple or two for each operation. *)
Lemma encode_loop_length st ops : (length ops <= length (snd (encode_loop st ops)) <= 2 * length ops)%nat.
Proof.
  revert st. induction ops as [|op ops IH]; intros st; cbn; [lia|].
  destruct (encode_step st op) as [st1 ws] eqn:E. specialize (IH st1).
  destruct (encode_loop st1 ops) as [st2 ws2]. cbn in *. rewrite length_app.
  assert (1 <= length ws <= 2)%nat; [|lia].
  unfold encode_step in E. destruct op; [|case_decide; [|destruct (ids st !! _); [|case_decide]]..];
    injection E as <- <-; cbn; lia.
Qed.
