(* ===== verification/JsHeap.v ===== *)
(** JavaScript values as the encoders see them: references into a store of
    objects, with holes, accessors, symbols and cycles.

    [heap_repr] says which tree a value stands for, where it stands for one;
    [isJsonValue] ([packages/chord/src/json.ts]) is the test of the code. *)
From S2P Require Import Prelude JsBase Json.

(** * Values and objects *)

Inductive val : Type :=
| VUndef
| VNull
| VBool (b : bool)
| VNum (n : jsnum)
| VStr (s : jsstr)
| VOther (** a bigint, a symbol or a function *)
| VRef (l : positive).

#[export] Instance val_eq_dec : EqDecision val.
Proof. solve_decision. Defined.

(** An own property.  An accessor's getter is taken to be a function without
    effects that returns [pvalue]. *)
Record prop : Type := Prop_ { enumerable : bool; accessor : bool; pvalue : val }.

Definition data (v : val) : prop := Prop_ true false v.

Inductive obj : Type :=
| OArray (slots : list (option prop)) (named symbols : nat)
    (** the indices below [length] ([None] is a hole), and how many further own
        string keys and symbol keys it has *)
| OPlain (props : list (jsstr * prop)) (symbols : list bool)
    (** a prototype of [Object.prototype] or [null]; [symbols] lists whether each
        own symbol key is enumerable *)
| OBytes (bs : bytes)
    (** a [Uint8Array] *)
| OExotic.
    (** any other object *)

Abbreviation heap := (gmap positive obj).

(** * Trees *)

(** JSON data and byte strings. *)
#[local] Unset Elimination Schemes.
Inductive tree : Type :=
| TNull
| TBool (b : bool)
| TNum (n : jsnum)
| TStr (s : jsstr)
| TBytes (bs : bytes)
| TArr (l : list tree)
| TObj (o : list (jsstr * tree)).
#[local] Set Elimination Schemes.

Lemma tree_ind (P : tree -> Prop) :
  P TNull -> (forall b, P (TBool b)) -> (forall n, P (TNum n)) -> (forall s, P (TStr s)) ->
  (forall bs, P (TBytes bs)) ->
  (forall l, Forall P l -> P (TArr l)) ->
  (forall o, Forall (fun kv => P (snd kv)) o -> P (TObj o)) ->
  forall t, P t.
Proof.
  intros Hnull Hbool Hnum Hstr Hbytes Harr Hobj.
  fix F 1. intros [| b | n | s | bs | l | o];
    [exact Hnull|exact (Hbool b)|exact (Hnum n)|exact (Hstr s)|exact (Hbytes bs)|clear Hobj|clear Harr].
  - apply Harr. induction l as [|j l IH]; constructor; [apply F|exact IH].
  - apply Hobj. induction o as [|[k j] o IH]; constructor; [apply F|exact IH].
Qed.

Inductive tree_wf : tree -> Prop :=
| twf_null : tree_wf TNull
| twf_bool b : tree_wf (TBool b)
| twf_num n : num_wf n -> tree_wf (TNum n)
| twf_str s : str_wf s -> tree_wf (TStr s)
| twf_bytes bs : bytes_wf bs -> tree_wf (TBytes bs)
| twf_arr l : Forall tree_wf l -> tree_wf (TArr l)
| twf_obj o :
    obj_sorted o -> Forall (fun kv => str_wf (fst kv)) o ->
    Forall (fun kv => tree_wf (snd kv)) o -> tree_wf (TObj o).

#[export] Hint Constructors tree_wf : s2r.

Fixpoint tree_of_json (j : json) : tree :=
  match j with
  | JNull => TNull
  | JBool b => TBool b
  | JNum n => TNum n
  | JStr s => TStr s
  | JArr l => TArr (tree_of_json <$> l)
  | JObj o => TObj ((fun kv => (fst kv, tree_of_json (snd kv))) <$> o)
  end.

(** Levels of nesting: 1 for a scalar or an empty container. *)
Fixpoint tree_levels (t : tree) : nat :=
  match t with
  | TArr l => S (foldr (fun t n => Nat.max (tree_levels t) n) 0%nat l)
  | TObj o => S (foldr (fun kv n => Nat.max (tree_levels (snd kv)) n) 0%nat o)
  | _ => 1%nat
  end.

Lemma foldr_max_le {A} (f : A -> nat) l n :
  (foldr (fun x m => Nat.max (f x) m) 0%nat l <= n)%nat <-> Forall (fun x => (f x <= n)%nat) l.
Proof.
  induction l as [|x l IH]; cbn; [split; [constructor|lia]|]. rewrite Forall_cons, <- IH. lia.
Qed.

Lemma tree_levels_arr l n : (tree_levels (TArr l) <= S n)%nat <-> Forall (fun t => (tree_levels t <= n)%nat) l.
Proof. cbn. rewrite <- (foldr_max_le tree_levels). lia. Qed.

Lemma tree_levels_obj o n :
  (tree_levels (TObj o) <= S n)%nat <-> Forall (fun kv => (tree_levels (snd kv) <= n)%nat) o.
Proof. cbn. rewrite <- (foldr_max_le (fun kv => tree_levels (snd kv))). lia. Qed.

Lemma tree_levels_pos t : (1 <= tree_levels t)%nat.
Proof. destruct t; cbn; lia. Qed.

(** * The tree a value stands for *)

(** [props] without the entries an encoder leaves out: properties that are not
    enumerable, and those whose value is [undefined]. *)
Definition defined_props (props : list (jsstr * prop)) : list (jsstr * val) :=
  omap (fun kp => if enumerable (snd kp) && negb (bool_decide (pvalue (snd kp) = VUndef))
                  then Some (fst kp, pvalue (snd kp)) else None) props.

Inductive heap_repr (h : heap) : val -> tree -> Prop :=
| repr_null : heap_repr h VNull TNull
| repr_bool b : heap_repr h (VBool b) (TBool b)
| repr_num n : heap_repr h (VNum n) (TNum n)
| repr_str s : heap_repr h (VStr s) (TStr s)
| repr_bytes l bs : h !! l = Some (OBytes bs) -> heap_repr h (VRef l) (TBytes bs)
| repr_arr l slots named symbols ts :
    h !! l = Some (OArray slots named symbols) ->
    Forall2 (fun slot t => exists p, slot = Some p /\ heap_repr h (pvalue p) t) slots ts ->
    heap_repr h (VRef l) (TArr ts)
| repr_obj l props symbols o :
    h !! l = Some (OPlain props symbols) -> forallb negb symbols = true ->
    Forall2 (fun kv kt => fst kv = fst kt /\ heap_repr h (snd kv) (snd kt)) (defined_props props) o ->
    heap_repr h (VRef l) (TObj o).

Lemma heap_repr_not_undef h v t : heap_repr h v t -> v <> VUndef.
Proof. by inversion 1. Qed.

(** A value stands for one tree at most. *)
Lemma heap_repr_fun h v t1 t2 : heap_repr h v t1 -> heap_repr h v t2 -> t1 = t2.
Proof.
  intros H1. revert v t2 H1. induction t1 as [| | | | |l IH|o IH] using tree_ind; intros v t2 H1 H2;
    inversion H1 as [| | | |? ? Hl1|? ? ? ? ? Hl1 Hs1|? ? ? ? Hl1 _ Hs1]; subst;
    inversion H2 as [| | | |? ? Hl2|? ? ? ? ? Hl2 Hs2|? ? ? ? Hl2 _ Hs2]; subst; try congruence;
    rewrite Hl1 in Hl2; injection Hl2; intros; subst; f_equal.
  - clear H1 H2 Hl1. revert ts Hs2. induction Hs1 as [|s t ss l (p & -> & Hp) _ IHs]; intros ts Hs2; inversion Hs2 as [|? ? ? ? (p' & Hpp & Hp')]; subst; [done|].
    injection Hpp as <-.
    apply Forall_cons in IH as [Ht IH]. f_equal; [by eapply Ht|by apply IHs].
  - clear H1 H2 Hl1. revert o0 Hs2. induction Hs1 as [|s [k t] ss l2 [Hk Hp] _ IHs]; intros ts Hs2; inversion Hs2 as [|? [k' t'] ? ? [Hk' Hp']]; subst; [done|].
    apply Forall_cons in IH as [Ht IH]. cbn in *. f_equal; [|by apply IHs]. f_equal; [congruence|by eapply Ht].
Qed.

(** * [isJsonValue] *)

Section IsJsonValue.
Variable h : heap.

Definition slot_key_count (slots : list (option prop)) (named symbols : nat) : nat :=
  (length (omap id slots) + 1 + named + symbols)%nat.

(** [levels] is [513 - depth]. *)
Fixpoint check (levels : nat) (ancestors : gset positive) (v : val) : bool :=
  match levels with
  | O => false
  | S levels =>
      match v with
      | VNull | VStr _ | VBool _ => true
      | VNum n => isFinite n
      | VUndef | VOther => false
      | VRef l =>
          match h !! l with
          | Some (OArray slots named symbols) =>
              if negb (slot_key_count slots named symbols =? length slots + 1)%nat || (0 <? symbols)%nat then false
              else if bool_decide (l ∈ ancestors) then false
              else
                forallb (fun slot => match slot with
                                     | None => false
                                     | Some p => enumerable p && negb (accessor p) && check levels ({[l]} ∪ ancestors) (pvalue p)
                                     end) slots
          | Some (OPlain props symbols) =>
              if (0 <? length symbols)%nat then false
              else if bool_decide (l ∈ ancestors) then false
              else
                forallb (fun kp => enumerable (snd kp) && negb (accessor (snd kp)) &&
                                   check levels ({[l]} ∪ ancestors) (pvalue (snd kp))) props
          | Some (OBytes _) | Some OExotic | None => false
          end
      end
  end.

Definition json_max_levels : nat := 513.

Definition isJsonValue (v : val) : bool := check json_max_levels ∅ v.
End IsJsonValue.

(** * What [isJsonValue] accepts *)

(** A value that is strict JSON: dense arrays and plain objects with nothing but
    enumerable data properties under string keys, and finite numbers. *)
Inductive json_repr (h : heap) : val -> json -> Prop :=
| jrepr_null : json_repr h VNull JNull
| jrepr_bool b : json_repr h (VBool b) (JBool b)
| jrepr_num n : isFinite n = true -> json_repr h (VNum n) (JNum n)
| jrepr_str s : json_repr h (VStr s) (JStr s)
| jrepr_arr l slots js :
    h !! l = Some (OArray slots 0 0) ->
    Forall2 (fun slot j => exists v, slot = Some (data v) /\ json_repr h v j) slots js ->
    json_repr h (VRef l) (JArr js)
| jrepr_obj l props o :
    h !! l = Some (OPlain props []) ->
    Forall2 (fun kp kj => fst kp = fst kj /\ exists v, snd kp = data v /\ json_repr h v (snd kj)) props o ->
    json_repr h (VRef l) (JObj o).

Definition json_levels (j : json) : nat := tree_levels (tree_of_json j).

Lemma json_levels_arr l n : (json_levels (JArr l) <= S n)%nat <-> Forall (fun j => (json_levels j <= n)%nat) l.
Proof. unfold json_levels. cbn [tree_of_json]. by rewrite tree_levels_arr, Forall_fmap. Qed.

Lemma json_levels_obj o n :
  (json_levels (JObj o) <= S n)%nat <-> Forall (fun kv => (json_levels (snd kv) <= n)%nat) o.
Proof. unfold json_levels. cbn [tree_of_json]. by rewrite tree_levels_obj, Forall_fmap. Qed.

Lemma Forall_exists_Forall2 {A B} (R : A -> B -> Prop) l :
  Forall (fun a => exists b, R a b) l -> exists k, Forall2 R l k.
Proof.
  induction 1 as [|a l [b Hb] _ [k Hk]]; [by exists []|]. exists (b :: k). by constructor.
Qed.

Lemma omap_id_length_le {A} (l : list (option A)) : (length (omap id l) <= length l)%nat.
Proof. induction l as [|[x|] l IH]; cbn; lia. Qed.

Lemma data_prop p : enumerable p = true -> accessor p = false -> p = data (pvalue p).
Proof. destruct p. cbn. by intros -> ->. Qed.

Lemma check_sound h levels anc v :
  check h levels anc v = true -> exists j, json_repr h v j /\ (json_levels j <= levels)%nat.
Proof.
  revert anc v. induction levels as [|levels IH]; intros anc v; [done|]. cbn [check].
  destruct v as [| |b|n|s| |l]; try done; intros Hc;
    try (eexists; split; [by constructor|unfold json_levels; cbn; lia]).
  assert (forall p anc, (enumerable p && negb (accessor p) && check h levels anc (pvalue p)) = true ->
    exists j, (exists v, p = data v /\ json_repr h v j) /\ (json_levels j <= levels)%nat) as Hprop.
  { intros p anc' [[He Ha]%andb_true_iff Hp]%andb_true_iff. apply negb_true_iff in Ha.
    destruct (IH _ _ Hp) as (j & Hj & Hl). exists j. split; [|done]. exists (pvalue p). split; [by apply data_prop|done]. }
  destruct (h !! l) as [[slots named symbols|props symbols| |]|] eqn:El; try done.
  - destruct (negb _ || _) eqn:Ek; [done|]. case_bool_decide; [done|].
    apply orb_false_iff in Ek as [Ek1%negb_false_iff%Nat.eqb_eq Ek2%Nat.ltb_ge]. unfold slot_key_count in Ek1.
    assert (exists js, Forall2 (fun slot j => (exists v, slot = Some (data v) /\ json_repr h v j) /\
      (json_levels j <= levels)%nat) slots js) as [js Hjs].
    { apply Forall_exists_Forall2, Forall_forall. intros slot Hin. pose proof (proj1 (forallb_forall _ _) Hc slot (proj1 (list_elem_of_In _ _) Hin)) as Hs. destruct slot as [p|]; [|done].
      destruct (Hprop p _ Hs) as (j & (v & -> & Hv) & Hl). eauto. }
    exists (JArr js). split.
    + assert (named = 0%nat /\ symbols = 0%nat) as [-> ->].
      { enough (length (omap id slots) = length slots) by lia.
        clear -Hjs. induction Hjs as [|s j ss jj [(v & -> & _) _] _ IHs]; cbn; [done|]. by rewrite IHs. }
      eapply jrepr_arr; [done|]. eapply Forall2_impl; [exact Hjs|]. by intros ? ? [? _].
    + apply json_levels_arr. eapply Forall2_Forall_r; [exact Hjs|]. apply Forall_true. by intros ? ? [_ ?].
  - destruct (0 <? length symbols)%nat eqn:Es; [done|]. apply Nat.ltb_ge in Es. destruct symbols; [|cbn in Es; lia].
    case_bool_decide; [done|].
    assert (exists o, Forall2 (fun kp (kj : jsstr * json) => (fst kp = fst kj /\ exists v, snd kp = data v /\ json_repr h v (snd kj)) /\
      (json_levels (snd kj) <= levels)%nat) props o) as [o Ho].
    { apply Forall_exists_Forall2, Forall_forall. intros kp Hin. pose proof (proj1 (forallb_forall _ _) Hc kp (proj1 (list_elem_of_In _ _) Hin)) as Hs.
      destruct (Hprop _ _ Hs) as (j & (v & Hv & Hj) & Hl). exists (fst kp, j). eauto 6. }
    exists (JObj o). split.
    + eapply jrepr_obj; [done|]. eapply Forall2_impl; [exact Ho|]. by intros ? ? [? _].
    + apply json_levels_obj. eapply Forall2_Forall_r; [exact Ho|]. apply Forall_true. by intros ? ? [_ ?].
Qed.

Lemma json_repr_fun h v j1 j2 : json_repr h v j1 -> json_repr h v j2 -> j1 = j2.
Proof.
  intros H1. revert v j2 H1. induction j1 as [| | | |l IH|o IH] using json_ind; intros v j2 H1 H2;
    inversion H1 as [| | | |? ? ? Hl1 Hs1|? ? ? Hl1 Hs1]; subst;
    inversion H2 as [| | | |? ? ks Hl2 Hs2|? ? ks Hl2 Hs2]; subst; try congruence;
    rewrite Hl1 in Hl2; injection Hl2; intros; subst; f_equal; clear H1 H2 Hl1 Hl2.
  - revert ks Hs2. induction Hs1 as [|s t ss ts (p & -> & Hp) _ IHs]; intros js2 Hs2; inversion Hs2 as [|? ? ? ? (p' & Hpp & Hp')]; subst; [done|].
    injection Hpp as <-. apply Forall_cons in IH as [Ht IH]. f_equal; [by eapply Ht|by apply IHs].
  - revert ks Hs2. induction Hs1 as [|s [k t] ss ts [Hk (p & Hps & Hp)] _ IHs]; intros js2 Hs2; inversion Hs2 as [|? [k' t'] ? ? [Hk' (p' & Hpp & Hp')]]; subst; [done|].
    rewrite Hps in Hpp. injection Hpp as <-. apply Forall_cons in IH as [Ht IH]. cbn in *.
    f_equal; [|by apply IHs]. f_equal; [congruence|by eapply Ht].
Qed.

(** The containers a value lies in are strictly deeper. *)
Definition ancestors_ok (R : val -> tree -> Prop) (anc : gset positive) (t : tree) : Prop :=
  forall a, a ∈ anc -> exists ta, R (VRef a) ta /\ (tree_levels t < tree_levels ta)%nat.

Lemma ancestors_ok_child R anc l t c :
  ancestors_ok R anc t -> R (VRef l) t -> (tree_levels c < tree_levels t)%nat -> ancestors_ok R ({[l]} ∪ anc) c.
Proof.
  intros Ha Hl Hc a [->%elem_of_singleton|Hin]%elem_of_union; [by exists t|].
  destruct (Ha a Hin) as (ta & Hta & Hlt). exists ta. split; [done|lia].
Qed.

Lemma ancestors_ok_notin R anc l t :
  (forall v t1 t2, R v t1 -> R v t2 -> t1 = t2) -> ancestors_ok R anc t -> R (VRef l) t -> l ∉ anc.
Proof. intros Hfun Ha Hl Hin. destruct (Ha l Hin) as (ta & Hta & Hlt). rewrite (Hfun _ _ _ Hl Hta) in Hlt. lia. Qed.

Lemma tree_levels_elem t l : t ∈ l -> (tree_levels t < tree_levels (TArr l))%nat.
Proof.
  intros Hin. assert (Forall (fun t => (tree_levels t <= pred (tree_levels (TArr l)))%nat) l) as H.
  { apply tree_levels_arr. lia. }
  rewrite Forall_forall in H. specialize (H t Hin). pose proof (tree_levels_pos (TArr l)). lia.
Qed.

Lemma tree_levels_value kv o : kv ∈ o -> (tree_levels (snd kv) < tree_levels (TObj o))%nat.
Proof.
  intros Hin. assert (Forall (fun kv => (tree_levels (snd kv) <= pred (tree_levels (TObj o)))%nat) o) as H.
  { apply tree_levels_obj. lia. }
  rewrite Forall_forall in H. specialize (H kv Hin). pose proof (tree_levels_pos (TObj o)). lia.
Qed.

Definition json_tree_repr (h : heap) (v : val) (t : tree) : Prop := exists j, json_repr h v j /\ tree_of_json j = t.

Lemma json_tree_repr_fun h v t1 t2 : json_tree_repr h v t1 -> json_tree_repr h v t2 -> t1 = t2.
Proof. intros (j1 & H1 & <-) (j2 & H2 & <-). f_equal. by eapply json_repr_fun. Qed.

Lemma Forall2_elem_l {A B} (R : A -> B -> Prop) l k a : Forall2 R l k -> a ∈ l -> exists b, b ∈ k /\ R a b.
Proof.
  induction 1 as [|x y l k Hxy _ IH]; [by intros ?%elem_of_nil|].
  intros [->|Hin]%elem_of_cons; [exists y; split; [by left|done]|].
  destruct (IH Hin) as (b & ? & ?). exists b. split; [by right|done].
Qed.

Lemma check_complete h j levels anc v :
  json_repr h v j -> (json_levels j <= levels)%nat -> ancestors_ok (json_tree_repr h) anc (tree_of_json j) ->
  check h levels anc v = true.
Proof.
  revert levels anc v. induction j as [|b|n|s|js IH|o IH] using json_ind; intros [|levels] anc v Hv Hl Ha;
    try (unfold json_levels in Hl; cbn in Hl; lia);
    inversion Hv as [| | | |l slots ? El Hs|l props ? El Hs]; subst; try done.
  - assert (json_tree_repr h (VRef l) (tree_of_json (JArr js))) as Ht by by exists (JArr js).
    cbn [check]. rewrite El.
    assert (length (omap id slots) = length slots) as Hlen.
    { clear -Hs. induction Hs as [|s j ss jj (v & -> & _) _ IHs]; cbn; [done|]. by rewrite IHs. }
    unfold slot_key_count. rewrite Hlen, !Nat.add_0_r, Nat.eqb_refl. cbn [negb orb Nat.ltb Nat.leb].
    rewrite bool_decide_eq_false_2 by (eapply ancestors_ok_notin; eauto using json_tree_repr_fun).
    apply forallb_forall. intros slot Hin%list_elem_of_In.
    destruct (Forall2_elem_l _ _ _ _ Hs Hin) as (j & Hj & v & -> & Hvj). cbn [data enumerable accessor negb andb pvalue].
    rewrite Forall_forall in IH. apply (IH j Hj); [done| |].
    + apply json_levels_arr in Hl. rewrite Forall_forall in Hl. by apply Hl.
    + eapply ancestors_ok_child; [exact Ha|exact Ht|]. apply tree_levels_elem. by apply list_elem_of_fmap_2.
  - assert (json_tree_repr h (VRef l) (tree_of_json (JObj o))) as Ht by by exists (JObj o).
    cbn [check]. rewrite El. cbn [length Nat.ltb Nat.leb].
    rewrite bool_decide_eq_false_2 by (eapply ancestors_ok_notin; eauto using json_tree_repr_fun).
    apply forallb_forall. intros kp Hin%list_elem_of_In.
    destruct (Forall2_elem_l _ _ _ _ Hs Hin) as (kj & Hj & _ & v & -> & Hvj). cbn [data enumerable accessor negb andb pvalue].
    rewrite Forall_forall in IH. apply (IH kj Hj); [done| |].
    + apply json_levels_obj in Hl. rewrite Forall_forall in Hl. by apply Hl.
    + eapply ancestors_ok_child; [exact Ha|exact Ht|].
      apply (tree_levels_value (fst kj, tree_of_json (snd kj))).
      by apply (list_elem_of_fmap_2 (fun kv => (fst kv, tree_of_json (snd kv)))).
Qed.

(** Strict JSON stands for its tree. *)
Lemma json_repr_heap_repr h v j : json_repr h v j -> heap_repr h v (tree_of_json j).
Proof.
  revert v. induction j as [|b|n|s|js IH|o IH] using json_ind; intros v Hv;
    inversion Hv as [| | | |l slots ? El Hs|l props ? El Hs]; subst; cbn [tree_of_json]; try by constructor.
  - eapply repr_arr; [done|]. clear Hv El. induction Hs as [|s j ss js (v & -> & Hv) _ IHs]; cbn; [done|].
    apply Forall_cons in IH as [Hj IH]. constructor; [|by apply IHs]. exists (data v). split; [done|]. by apply Hj.
  - eapply repr_obj; [done|done|]. clear Hv El. induction Hs as [|[k p] [k' j] ss js [Hk (v & Hp & Hv)] _ IHs]; cbn; [done|].
    apply Forall_cons in IH as [Hj IH]. cbn in Hk, Hp, Hv. subst k' p. unfold defined_props. cbn [omap list_omap fst snd data enumerable pvalue andb].
    rewrite bool_decide_eq_false_2; [|eapply heap_repr_not_undef; by apply Hj]. cbn [negb].
    constructor; [|by apply IHs]. split; [done|]. by apply Hj.
Qed.

Lemma isJsonValue_check h v : isJsonValue h v = check h json_max_levels ∅ v.
Proof. reflexivity. Qed.

(** [isJsonValue] accepts exactly the strict JSON values of at most 512 nested
    containers above a leaf. *)
Lemma isJsonValue_json h v : isJsonValue h v = true <-> exists j, json_repr h v j /\ (json_levels j <= json_max_levels)%nat.
Proof.
  rewrite isJsonValue_check. split; [apply check_sound|]. intros (j & Hj & Hl).
  apply (check_complete h j); [done|done|]. by intros a ?%elem_of_empty.
Qed.
