(* ===== verification/Cbor.v ===== *)
(** [packages/protocol/src/cbor]: the encoder and decoder of a strict,
    definite-length subset of CBOR.

    [encodeValue] recurses over values of the store and writes into a growing
    buffer; [readItem] reads trees.  [levels] is what is left of the depth
    budget, [maxDepth + 1 - depth], and the recursion is structural in it. *)
From S2P Require Import Prelude JsBase Json JsHeap.

Inductive cbor_err : Type :=
| CborError (msg : string)
| RangeError (msg : string).

(** * Options ([options.ts]) *)

Definition UINT32_BASE : Z := 0x100000000.
Definition MAX_UINT32 : Z := 0xffffffff.
Definition MAX_CONFIGURED_DEPTH : Z := 512.
Definition DEFAULT_MAX_CBOR_BYTE_LENGTH : Z := 16 * 1024 * 1024.
Definition DEFAULT_MAX_CBOR_CONTAINER_LENGTH : Z := 1000000.
Definition DEFAULT_MAX_CBOR_DEPTH : Z := 64.

Record CborOptions : Type := CborOptions_ {
  opt_maxByteLength : option jsnum;
  opt_maxContainerLength : option jsnum;
  opt_maxDepth : option jsnum;
}.

Record ResolvedCborOptions : Type := ResolvedCborOptions_ {
  maxByteLength : Z;
  maxContainerLength : Z;
  maxDepth : Z;
}.

(** A safe integer is an [NInt], or [-0], which counts as [0]. *)
Definition num_value (n : jsnum) : Z := match n with NInt z => z | NFlt _ => 0 end.

Definition resolveLimit (name : string) (value : jsnum) (maximum : Z) : result cbor_err Z :=
  throw_if (negb (isSafeInteger value) || (num_value value <? 0) || (maximum <? num_value value)) (RangeError name);;
  Ok (num_value value).

Definition resolveOptions (o : CborOptions) : result cbor_err ResolvedCborOptions :=
  b ← resolveLimit "maxByteLength" (default (NInt DEFAULT_MAX_CBOR_BYTE_LENGTH) (opt_maxByteLength o)) MAX_UINT32;
  c ← resolveLimit "maxContainerLength"
        (default (NInt DEFAULT_MAX_CBOR_CONTAINER_LENGTH) (opt_maxContainerLength o)) MAX_UINT32;
  d ← resolveLimit "maxDepth" (default (NInt DEFAULT_MAX_CBOR_DEPTH) (opt_maxDepth o)) MAX_CONFIGURED_DEPTH;
  Ok (ResolvedCborOptions_ b c d).

(** Levels available at depth 0. *)
Definition depth_levels (o : ResolvedCborOptions) : nat := S (Z.to_nat (maxDepth o)).

(** * The writer ([CborWriter]) *)

Record writer : Type := Writer { buffer : bytes; offset : nat; w_maxByteLength : Z }.

Definition new_writer (max : Z) : writer := Writer (replicate (Z.to_nat (Z.min 256 max)) 0) 0 max.

(** The growth loop.  A round yields at least [required], so a second round is
    never taken; [fuel] is 2. *)
Fixpoint grow (fuel : nat) (max required capacity : Z) : Z :=
  match fuel with
  | O => capacity
  | S fuel =>
      if capacity <? required then grow fuel max required (Z.min max (Z.max required (capacity * 2)))
      else capacity
  end.

Definition ensureCapacity (w : writer) (additionalBytes : nat) : result cbor_err writer :=
  let required := Z.of_nat (offset w) + Z.of_nat additionalBytes in
  throw_if (w_maxByteLength w <? required) (CborError "byte length");;
  if required <=? Z.of_nat (length (buffer w)) then Ok w
  else
    let capacity := grow 2 (w_maxByteLength w) required (Z.max 1 (Z.of_nat (length (buffer w)))) in
    let expanded := replicate (Z.to_nat capacity) 0 in
    Ok (Writer (buf_set expanded 0 (buffer w)) (offset w) (w_maxByteLength w)).

(** Store [bs] at the offset of a buffer that has room for them. *)
Definition store (w : writer) (bs : bytes) : writer :=
  Writer (buf_set (buffer w) (offset w) bs) (offset w + length bs) (w_maxByteLength w).

Definition writeByte (w : writer) (value : Z) : result cbor_err writer :=
  w ← ensureCapacity w 1;
  Ok (store w [u8 value]).

Definition writeBytes (w : writer) (bs : bytes) : result cbor_err writer :=
  w ← ensureCapacity w (length bs);
  Ok (store w bs).

Definition writeUint16 (w : writer) (value : Z) : result cbor_err writer :=
  w ← ensureCapacity w 2;
  Ok (store w [u8 (Z.shiftr (u32 value) 8); u8 value]).

Definition writeUint32 (w : writer) (value : Z) : result cbor_err writer :=
  w ← ensureCapacity w 4;
  Ok (store w [u8 (Z.shiftr (u32 value) 24); u8 (Z.shiftr (u32 value) 16); u8 (Z.shiftr (u32 value) 8); u8 value]).

Definition writeUint64 (w : writer) (value : Z) : result cbor_err writer :=
  let high := value / UINT32_BASE in
  let low := value - high * UINT32_BASE in
  w ← writeUint32 w high;
  writeUint32 w low.

(** [bits] is the IEEE 754 representation of the value. *)
Definition writeFloat64 (w : writer) (bits : Z) : result cbor_err writer :=
  w ← ensureCapacity w 9;
  Ok (store w (0xfb :: be_bytes 8 bits)).

Definition finish (w : writer) : bytes := take (offset w) (buffer w).

(** * The encoder ([encoder.ts]) *)

Definition writeArgument (w : writer) (majorType value : Z) : result cbor_err writer :=
  let prefix := Z.shiftl majorType 5 in
  if value <? 24 then writeByte w (Z.lor prefix value)
  else if value <=? 0xff then w ← writeByte w (Z.lor prefix 24); writeByte w value
  else if value <=? 0xffff then w ← writeByte w (Z.lor prefix 25); writeUint16 w value
  else if value <=? MAX_UINT32 then w ← writeByte w (Z.lor prefix 26); writeUint32 w value
  else w ← writeByte w (Z.lor prefix 27); writeUint64 w value.

Definition encodeText (o : ResolvedCborOptions) (w : writer) (value : jsstr) : result cbor_err writer :=
  let bs := utf8_encode value in
  throw_if (maxByteLength o <? len bs) (CborError "text string length");;
  throw_if (negb (bool_decide (utf8_decode bs = Some value))) (CborError "invalid Unicode");;
  w ← writeArgument w 3 (len bs);
  writeBytes w bs.

(** [Number.isInteger(value) && !Object.is(value, -0)] holds of the [NInt]s. *)
Definition encodeNumber (w : writer) (n : jsnum) : result cbor_err writer :=
  throw_if (negb (isFinite n)) (CborError "numbers must be finite");;
  match n with
  | NInt z =>
      throw_if (negb (isSafeInteger n)) (CborError "integers must be safe");;
      if 0 <=? z then writeArgument w 0 z else writeArgument w 1 (-1 - z)
  | NFlt bits => writeFloat64 w bits
  end.

Section Encoder.
Variable o : ResolvedCborOptions.
Variable h : heap.

Fixpoint encodeValue (levels : nat) (ancestors : gset positive) (w : writer) (v : val) : result cbor_err writer :=
  match levels with
  | O => Err (CborError "nesting depth")
  | S levels =>
      match v with
      | VNull => writeByte w 0xf6
      | VBool b => writeByte w (if b then 0xf5 else 0xf4)
      | VNum n => encodeNumber w n
      | VStr s => encodeText o w s
      | VUndef | VOther => Err (CborError "unsupported value type")
      | VRef l =>
          match h !! l with
          | Some (OBytes bs) =>
              throw_if (maxByteLength o <? len bs) (CborError "byte string length");;
              w ← writeArgument w 2 (len bs);
              writeBytes w bs
          | Some (OArray slots _ _) =>
              throw_if (bool_decide (l ∈ ancestors)) (CborError "cycle");;
              throw_if (maxContainerLength o <? len slots) (CborError "array length");;
              w ← writeArgument w 4 (len slots);
              foldM (fun w slot =>
                match slot with
                | Some p =>
                    throw_if (bool_decide (pvalue p = VUndef)) (CborError "holes or undefined values");;
                    encodeValue levels ({[l]} ∪ ancestors) w (pvalue p)
                | None => Err (CborError "holes or undefined values")
                end) w slots
          | Some (OPlain props symbols) =>
              throw_if (bool_decide (l ∈ ancestors)) (CborError "cycle");;
              throw_if (existsb id symbols) (CborError "map keys must be strings");;
              let entries := defined_props props in
              throw_if (maxContainerLength o <? len entries) (CborError "map length");;
              w ← writeArgument w 5 (len entries);
              foldM (fun w kv =>
                w ← encodeText o w (fst kv);
                encodeValue levels ({[l]} ∪ ancestors) w (snd kv)) w entries
          | Some OExotic | None => Err (CborError "unsupported value type")
          end
      end
  end.
End Encoder.

Definition encodeCbor (h : heap) (v : val) (options : CborOptions) : result cbor_err bytes :=
  o ← resolveOptions options;
  w ← encodeValue o h (depth_levels o) ∅ (new_writer (maxByteLength o)) v;
  Ok (finish w).

(** * The decoder ([decoder.ts])

    The reader is the bytes left to read, [bytes.subarray(offset)]. *)

Definition reads (A : Type) : Type := bytes -> result cbor_err (A * bytes).

Definition readByte : reads Z := fun r =>
  match r with
  | [] => Err (CborError "Truncated CBOR payload")
  | b :: r => Ok (b, r)
  end.

Definition readBytes (length_ : Z) : reads bytes := fun r =>
  throw_if (len r <? length_) (CborError "Truncated CBOR payload");;
  Ok (take (Z.to_nat length_) r, drop (Z.to_nat length_) r).

(** [readArgument(26)]. *)
Definition readUint32 : reads Z := fun r =>
  '(bs, r) ← readBytes 4 r;
  match bs with
  | [b0; b1; b2; b3] => Ok (b0 * 0x1000000 + b1 * 0x10000 + b2 * 0x100 + b3, r)
  | _ => Err (CborError "Truncated CBOR payload")
  end.

Definition readArgument (additionalInformation : Z) : reads Z := fun r =>
  if additionalInformation <? 24 then Ok (additionalInformation, r)
  else if additionalInformation =? 24 then readByte r
  else if additionalInformation =? 25 then
    '(bs, r) ← readBytes 2 r;
    match bs with
    | [b0; b1] => Ok (b0 * 0x100 + b1, r)
    | _ => Err (CborError "Truncated CBOR payload")
    end
  else if additionalInformation =? 26 then readUint32 r
  else if additionalInformation =? 27 then
    '(high, r) ← readUint32 r;
    '(low, r) ← readUint32 r;
    throw_if (0x1fffff <? high) (CborError "outside the safe range");;
    Ok (high * UINT32_BASE + low, r)
  else if additionalInformation =? 31 then Err (CborError "Indefinite-length CBOR items are not supported")
  else Err (CborError "Malformed CBOR additional information").

Definition readLength (additionalInformation limit : Z) : reads Z := fun r =>
  throw_if (additionalInformation =? 31) (CborError "Indefinite-length");;
  '(length_, r) ← readArgument additionalInformation r;
  throw_if (limit <? length_) (CborError "length exceeds configured limit");;
  Ok (length_, r).

Definition readSimple (additionalInformation : Z) : reads tree := fun r =>
  if additionalInformation =? 20 then Ok (TBool false, r)
  else if additionalInformation =? 21 then Ok (TBool true, r)
  else if additionalInformation =? 22 then Ok (TNull, r)
  else if additionalInformation =? 27 then
    '(bs, r) ← readBytes 8 r;
    let value := num_of_f64 (be_value bs) in
    throw_if (negb (isFinite value)) (CborError "Decoded CBOR number must be finite");;
    throw_if (isInteger value && negb (isSafeInteger value)) (CborError "outside the safe range");;
    Ok (TNum value, r)
  else if additionalInformation =? 31 then Err (CborError "CBOR break marker is not supported")
  else Err (CborError "Unsupported CBOR simple value or floating-point width").

Section Decoder.
Variable o : ResolvedCborOptions.

Section Loops.
Variable readItem : reads tree.

Fixpoint read_items (n : nat) : reads (list tree) := fun r =>
  match n with
  | O => Ok ([], r)
  | S n =>
      '(t, r) ← readItem r;
      '(ts, r) ← read_items n r;
      Ok (t :: ts, r)
  end.

(** [keys] holds the keys read so far, which are those of [result_]. *)
Fixpoint read_entries (n : nat) (keys : gset jsstr) (result_ : list (jsstr * tree)) : reads (list (jsstr * tree)) := fun r =>
  match n with
  | O => Ok (result_, r)
  | S n =>
      '(key, r) ← readItem r;
      match key with
      | TStr key =>
          throw_if (bool_decide (key ∈ keys)) (CborError "CBOR map contains a duplicate key");;
          '(value, r) ← readItem r;
          read_entries n ({[key]} ∪ keys) (obj_set result_ key value) r
      | _ => Err (CborError "CBOR map keys must be strings")
      end
  end.
End Loops.

Fixpoint readItem (levels : nat) : reads tree := fun r =>
  match levels with
  | O => Err (CborError "nesting depth")
  | S levels =>
      '(initial, r) ← readByte r;
      let majorType := Z.shiftr initial 5 in
      let additionalInformation := Z.land initial 0x1f in
      if majorType =? 0 then '(n, r) ← readArgument additionalInformation r; Ok (TNum (NInt n), r)
      else if majorType =? 1 then
        '(n, r) ← readArgument additionalInformation r;
        let value := NInt (-1 - n) in
        throw_if (negb (isSafeInteger value)) (CborError "outside the safe range");;
        Ok (TNum value, r)
      else if majorType =? 2 then
        '(n, r) ← readLength additionalInformation (maxByteLength o) r;
        '(bs, r) ← readBytes n r;
        Ok (TBytes bs, r)
      else if majorType =? 3 then
        '(n, r) ← readLength additionalInformation (maxByteLength o) r;
        '(bs, r) ← readBytes n r;
        s ← ok_or (CborError "CBOR text string contains invalid UTF-8") (utf8_decode bs);
        Ok (TStr s, r)
      else if majorType =? 4 then
        '(n, r) ← readLength additionalInformation (maxContainerLength o) r;
        '(ts, r) ← read_items (readItem levels) (Z.to_nat n) r;
        Ok (TArr ts, r)
      else if majorType =? 5 then
        '(n, r) ← readLength additionalInformation (maxContainerLength o) r;
        '(kvs, r) ← read_entries (readItem levels) (Z.to_nat n) ∅ [] r;
        Ok (TObj kvs, r)
      else if majorType =? 6 then Err (CborError "CBOR tags are not supported")
      else if majorType =? 7 then readSimple additionalInformation r
      else Err (CborError "Malformed CBOR major type")
  end.
End Decoder.

Definition decodeCbor (bs : bytes) (options : CborOptions) : result cbor_err tree :=
  o ← resolveOptions options;
  throw_if (maxByteLength o <? len bs) (CborError "byte length");;
  '(value, r) ← readItem o (depth_levels o) bs;
  throw_if (negb (len r =? 0)) (CborError "CBOR payload contains trailing data");;
  Ok value.
