(* ===== verification/CborSpec.v ===== *)
(** The bytes of a tree, and that the encoder writes them and the decoder reads
    them back. *)
From S2P Require Import Prelude JsBase Json JsHeap Cbor.

(** * The canonical bytes of a tree *)

Definition arg_bytes (majorType n : Z) : bytes :=
  let head i := majorType * 32 + i in
  if n <? 24 then [head n]
  else if n <=? 0xff then head 24 :: be_bytes 1 n
  else if n <=? 0xffff then head 25 :: be_bytes 2 n
  else if n <=? MAX_UINT32 then head 26 :: be_bytes 4 n
  else head 27 :: be_bytes 8 n.

Definition text_bytes (s : jsstr) : bytes := arg_bytes 3 (len (utf8_encode s)) ++ utf8_encode s.

Definition num_bytes (n : jsnum) : bytes :=
  match n with
  | NInt z => if 0 <=? z then arg_bytes 0 z else arg_bytes 1 (-1 - z)
  | NFlt bits => 0xfb :: be_bytes 8 bits
  end.

Fixpoint cbor_bytes (t : tree) : bytes :=
  match t with
  | TNull => [0xf6]
  | TBool b => [if b then 0xf5 else 0xf4]
  | TNum n => num_bytes n
  | TStr s => text_bytes s
  | TBytes bs => arg_bytes 2 (len bs) ++ bs
  | TArr l => arg_bytes 4 (len l) ++ concat (cbor_bytes <$> l)
  | TObj o => arg_bytes 5 (len o) ++ concat ((fun kv => text_bytes (fst kv) ++ cbor_bytes (snd kv)) <$> o)
  end.

(** * The limits *)

Definition text_fits (o : ResolvedCborOptions) (s : jsstr) : bool :=
  (len (utf8_encode s) <=? maxByteLength o) && is_well_formed s.

Fixpoint tree_fits (o : ResolvedCborOptions) (t : tree) : bool :=
  match t with
  | TNull | TBool _ => true
  | TNum n => isFinite n && (negb (isInteger n) || isSafeInteger n)
  | TStr s => text_fits o s
  | TBytes bs => len bs <=? maxByteLength o
  | TArr l => (len l <=? maxContainerLength o) && forallb (tree_fits o) l
  | TObj e => (len e <=? maxContainerLength o) && forallb (fun kv => text_fits o (fst kv) && tree_fits o (snd kv)) e
  end.

(** * The writer appends *)

Definition wrepr (max : Z) (w : writer) (acc : bytes) : Prop :=
  w_maxByteLength w = max /\ offset w = length acc /\ (length acc <= length (buffer w))%nat /\
  take (length acc) (buffer w) = acc /\ len acc <= max.

(** A step that appends [bs], or fails because there is no room for them. *)
Definition wrote (max : Z) (acc bs : bytes) (m : result cbor_err writer) : Prop :=
  if max <? len acc + len bs then m = Err (CborError "byte length")
  else exists w, m = Ok w /\ wrepr max w (acc ++ bs).

Lemma wrote_Ok max acc bs w : wrote max acc bs (Ok w) -> len acc + len bs <= max /\ wrepr max w (acc ++ bs).
Proof.
  unfold wrote. destruct (max <? len acc + len bs) eqn:E; [done|]. intros (w' & [= <-] & H). split; [bool_lia|done].
Qed.

Lemma wrote_ok max acc bs m :
  wrote max acc bs m -> len acc + len bs <= max -> exists w, m = Ok w /\ wrepr max w (acc ++ bs).
Proof. unfold wrote. intros H Hl. assert ((max <? len acc + len bs) = false) as E by bool_lia. by rewrite E in H. Qed.

Lemma wrote_bind max acc b1 b2 m f :
  wrote max acc b1 m -> (forall w, wrepr max w (acc ++ b1) -> wrote max (acc ++ b1) b2 (f w)) ->
  wrote max acc (b1 ++ b2) (m ≫= f).
Proof.
  unfold wrote. intros H1 H2. rewrite len_app. destruct (max <? len acc + len b1) eqn:E1.
  - rewrite H1. pose proof (len_nonneg b2).
    assert ((max <? len acc + (len b1 + len b2)) = true) as -> by (bool_lia; apply Z.ltb_lt; bool_lia). done.
  - destruct H1 as (w & -> & Hw). specialize (H2 w Hw). cbn [mbind result_bind]. rewrite len_app in H2.
    rewrite Z.add_assoc, app_assoc. done.
Qed.

Lemma grow_ge max required capacity :
  required <= max -> required <= grow 2 max required capacity.
Proof.
  intros Hr. cbn [grow]. destruct (capacity <? required) eqn:E; [|bool_lia].
  destruct (Z.min _ _ <? required) eqn:E2; bool_lia.
Qed.

Lemma new_writer_repr max : 0 <= max -> wrepr max (new_writer max) [].
Proof. intros Hm. unfold wrepr, new_writer. cbn. split_and!; [done|done|lia|done|done]. Qed.

(** Making room and storing [n] bytes appends them. *)
Lemma write_store max w acc bs :
  wrepr max w acc -> wrote max acc bs (w ← ensureCapacity w (length bs); Ok (store w bs)).
Proof.
  intros (Hm & Ho & Hl & Ht & Hle). unfold ensureCapacity, wrote. rewrite Hm, Ho.
  change (Z.of_nat (length acc)) with (len acc). change (Z.of_nat (length bs)) with (len bs).
  destruct (max <? len acc + len bs) eqn:E; [done|]. cbn [throw_if mbind result_bind].
  assert (forall buf, (length acc + length bs <= length buf)%nat -> take (length acc) buf = acc ->
    wrepr max (store (Writer buf (length acc) max) bs) (acc ++ bs)) as Hstore.
  { intros buf Hb Hta. unfold store, wrepr. cbn [w_maxByteLength offset buffer]. rewrite length_app, length_buf_set by done.
    split_and!; [done|done|done| |rewrite len_app; bool_lia]. unfold buf_set. rewrite Hta.
    rewrite app_assoc. rewrite take_app_le by (rewrite length_app; lia). by rewrite take_ge by (rewrite length_app; lia). }
  destruct (len acc + len bs <=? Z.of_nat (length (buffer w))) eqn:E2; cbn [mbind result_bind].
  - eexists. split; [done|]. destruct w as [buf off max']. cbn in *. subst. apply Hstore; [|done].
    unfold len in *. bool_lia.
  - eexists. split; [done|].
    pose proof (grow_ge max (len acc + len bs) (Z.max 1 (Z.of_nat (length (buffer w)))) ltac:(bool_lia)) as Hg.
    set (cap := grow _ _ _ _) in *. clearbody cap. unfold len in *.
    assert (length (buffer w) <= length (replicate (Z.to_nat cap) 0%Z))%nat as Hlen by (rewrite length_replicate; bool_lia).
    apply Hstore.
    + rewrite length_buf_set by lia. rewrite length_replicate. lia.
    + unfold buf_set. rewrite take_0. cbn [app]. rewrite take_app_le by lia. done.
Qed.

Lemma writeBytes_wrote max w acc bs : wrepr max w acc -> wrote max acc bs (writeBytes w bs).
Proof. apply write_store. Qed.

Lemma writeByte_wrote max w acc b : wrepr max w acc -> 0 <= b < 256 -> wrote max acc [b] (writeByte w b).
Proof.
  intros Hw Hb. unfold writeByte, u8. change (2 ^ 8) with 256. rewrite Z.mod_small by done. by apply (write_store max w acc [b]).
Qed.

Lemma store_bytes_16 v : 0 <= v < 2 ^ 16 -> [u8 (Z.shiftr (u32 v) 8); u8 v] = be_bytes 2 v.
Proof.
  intros Hv. unfold u8, u32. rewrite Z.shiftr_div_pow2, (Z.mod_small v) by lia. cbn. by rewrite Z.div_1_r.
Qed.

Lemma store_bytes_32 v :
  0 <= v < 2 ^ 32 ->
  [u8 (Z.shiftr (u32 v) 24); u8 (Z.shiftr (u32 v) 16); u8 (Z.shiftr (u32 v) 8); u8 v] = be_bytes 4 v.
Proof.
  intros Hv. unfold u8, u32. rewrite !Z.shiftr_div_pow2, (Z.mod_small v) by lia. cbn. by rewrite Z.div_1_r.
Qed.

Lemma writeUint16_wrote max w acc v :
  wrepr max w acc -> 0 <= v < 2 ^ 16 -> wrote max acc (be_bytes 2 v) (writeUint16 w v).
Proof. intros Hw Hv. unfold writeUint16. rewrite store_bytes_16 by done. by apply (write_store max w acc (be_bytes 2 v)). Qed.

Lemma writeUint32_wrote max w acc v :
  wrepr max w acc -> 0 <= v < 2 ^ 32 -> wrote max acc (be_bytes 4 v) (writeUint32 w v).
Proof. intros Hw Hv. unfold writeUint32. rewrite store_bytes_32 by done. by apply (write_store max w acc (be_bytes 4 v)). Qed.

Lemma be_bytes_split n m z : 0 <= z -> be_bytes (n + m) z = be_bytes n (z / 2 ^ (8 * Z.of_nat m)) ++ be_bytes m z.
Proof.
  intros Hz. induction n as [|n IH]; [done|]. cbn [Nat.add be_bytes app]. rewrite IH. f_equal. f_equal.
  rewrite Z.div_div by lia. f_equal. rewrite <- Z.pow_add_r by lia. f_equal. lia.
Qed.

Lemma be_bytes_mod n z : be_bytes n (z mod 2 ^ (8 * Z.of_nat n)) = be_bytes n z.
Proof.
  set (p := 2 ^ (8 * Z.of_nat n)).
  transitivity (be_bytes n (z / p * p + z mod p)); [by unfold p; rewrite be_bytes_add_high|].
  f_equal. pose proof (Z.div_mod z p ltac:(unfold p; lia)). lia.
Qed.

Lemma writeUint64_wrote max w acc v :
  wrepr max w acc -> 0 <= v < 2 ^ 64 -> wrote max acc (be_bytes 8 v) (writeUint64 w v).
Proof.
  intros Hw Hv. unfold writeUint64, UINT32_BASE. rewrite (be_bytes_split 4 4) by lia.
  change (8 * Z.of_nat 4) with 32. change 0x100000000 with (2 ^ 32).
  replace (v - v / 2 ^ 32 * 2 ^ 32) with (v mod 2 ^ 32) by (rewrite Z.mod_eq by lia; lia).
  rewrite <- (be_bytes_mod 4 v). change (8 * Z.of_nat 4) with 32.
  apply wrote_bind; [apply writeUint32_wrote; [done|]|intros w' Hw'; apply writeUint32_wrote; [done|]].
  - split; [apply Z.div_pos; lia|]. apply Z.div_lt_upper_bound; lia.
  - apply Z.mod_pos_bound. lia.
Qed.

Lemma lor_prefix m i : 0 <= i < 32 -> Z.lor (Z.shiftl m 5) i = m * 32 + i.
Proof.
  intros Hi. change 32 with (2 ^ 5) in *. rewrite <- Z.shiftl_mul_pow2 by lia. symmetry. apply Z.add_nocarry_lor.
  apply Z.bits_inj'. intros n Hn. rewrite Z.land_spec, Z.bits_0. destruct (decide (n < 5)).
  - by rewrite Z.shiftl_spec_low by lia.
  - rewrite <- (Z.mod_small i (2 ^ 5)) by lia. rewrite Z.mod_pow2_bits_high by lia. by rewrite andb_false_r.
Qed.

Lemma writeArgument_wrote max w acc m n :
  wrepr max w acc -> 0 <= m < 8 -> 0 <= n < 2 ^ 64 -> wrote max acc (arg_bytes m n) (writeArgument w m n).
Proof.
  intros Hw Hm Hn. unfold writeArgument, arg_bytes.
  rewrite (lor_prefix m 24), (lor_prefix m 25), (lor_prefix m 26), (lor_prefix m 27) by lia.
  destruct (n <? 24) eqn:E1; [rewrite lor_prefix by bool_lia; apply writeByte_wrote; [done|bool_lia]|].
  assert (forall i b k, 0 <= i < 32 ->
    (forall w', wrepr max w' (acc ++ [m * 32 + i]) -> wrote max (acc ++ [m * 32 + i]) b (k w')) ->
    wrote max acc ((m * 32 + i) :: b) (w0 ← writeByte w (m * 32 + i); k w0)) as Hhead.
  { intros i b k Hi Hk. apply (wrote_bind max acc [m * 32 + i] b); [apply writeByte_wrote; [done|lia]|done]. }
  destruct (n <=? 0xff) eqn:E2.
  { apply Hhead; [lia|]. intros w' Hw'. replace (be_bytes 1 n) with [n]; [apply writeByte_wrote; [done|bool_lia]|].
    cbn. rewrite Z.div_1_r, Z.mod_small by bool_lia. done. }
  destruct (n <=? 0xffff) eqn:E3.
  { apply Hhead; [lia|]. intros w' Hw'. apply writeUint16_wrote; [done|bool_lia]. }
  destruct (n <=? MAX_UINT32) eqn:E4; unfold MAX_UINT32 in *.
  { apply Hhead; [lia|]. intros w' Hw'. apply writeUint32_wrote; [done|bool_lia]. }
  apply Hhead; [lia|]. intros w' Hw'. by apply writeUint64_wrote.
Qed.

Lemma writeFloat64_wrote max w acc bits :
  wrepr max w acc -> wrote max acc (0xfb :: be_bytes 8 bits) (writeFloat64 w bits).
Proof. intros Hw. apply (write_store max w acc (0xfb :: be_bytes 8 bits) Hw). Qed.

(** * The encoder writes the canonical bytes *)

(** Limits within what [resolveOptions] lets through. *)
Definition options_ok (o : ResolvedCborOptions) : Prop :=
  0 <= maxByteLength o <= MAX_UINT32 /\ 0 <= maxContainerLength o <= MAX_UINT32 /\ 0 <= maxDepth o <= MAX_CONFIGURED_DEPTH.

Lemma resolveLimit_Ok name v max z : resolveLimit name v max = Ok z -> 0 <= z <= max.
Proof.
  unfold resolveLimit. intros H. res_inv.
  match goal with H : (_ || _) = false |- _ => apply orb_false_iff in H as [[_ ?]%orb_false_iff ?] end. bool_lia.
Qed.

Lemma resolveOptions_ok c o : resolveOptions c = Ok o -> options_ok o.
Proof.
  unfold resolveOptions. intros H. res_inv.
  repeat match goal with H : resolveLimit _ _ _ = Ok _ |- _ => apply resolveLimit_Ok in H end. done.
Qed.

Section Encoder.
Variable o : ResolvedCborOptions.
Hypothesis Ho : options_ok o.
Variable h : heap.
#[local] Abbreviation max := (maxByteLength o).

Lemma utf8_check s : str_wf s -> bool_decide (utf8_decode (utf8_encode s) = Some s) = is_well_formed s.
Proof.
  intros Hs. rewrite utf8_decode_encode by done. apply Bool.eq_true_iff_eq.
  rewrite bool_decide_eq_true, <- to_well_formed_id by done. split; [by intros [= ?]|by intros ->].
Qed.

Lemma u32_arg n : 0 <= n <= MAX_UINT32 -> 0 <= n < 2 ^ 64.
Proof. unfold MAX_UINT32. lia. Qed.

Lemma encodeText_wrote w acc s :
  wrepr max w acc -> str_wf s -> text_fits o s = true -> wrote max acc (text_bytes s) (encodeText o w s).
Proof.
  intros Hw Hs [Hl Hf]%andb_true_iff. unfold encodeText. rewrite utf8_check by done. rewrite Hf.
  assert ((maxByteLength o <? len (utf8_encode s)) = false) as -> by bool_lia. cbn [throw_if mbind result_bind negb].
  apply wrote_bind; [|intros w' Hw'; by apply writeBytes_wrote].
  apply writeArgument_wrote; [done|lia|]. apply u32_arg. pose proof (len_nonneg (utf8_encode s)).
  destruct Ho as (? & _). bool_lia.
Qed.

Lemma encodeText_inv w w' s : str_wf s -> encodeText o w s = Ok w' -> text_fits o s = true.
Proof.
  intros Hs. unfold encodeText. rewrite utf8_check by done. intros H. res_inv. apply andb_true_iff.
  split; [bool_lia|]. by destruct (is_well_formed s).
Qed.

Lemma encodeNumber_wrote w acc n :
  wrepr max w acc -> tree_fits o (TNum n) = true -> wrote max acc (num_bytes n) (encodeNumber w n).
Proof.
  intros Hw [Hf Hs]%andb_true_iff. unfold encodeNumber. rewrite Hf. cbn [negb throw_if mbind result_bind].
  destruct n as [z|bits]; [|by apply writeFloat64_wrote]. cbn [isInteger negb orb] in Hs. rewrite Hs.
  cbn [negb throw_if mbind result_bind]. cbn in Hs. unfold MAX_SAFE_INTEGER in Hs. cbn [num_bytes].
  destruct (0 <=? z) eqn:E; apply writeArgument_wrote; try done; bool_lia.
Qed.

Lemma encodeNumber_inv w w' n : encodeNumber w n = Ok w' -> tree_fits o (TNum n) = true.
Proof.
  unfold encodeNumber. intros H. cbn [tree_fits]. destruct (isFinite n); [|done].
  destruct n as [z|bits]; cbn [isInteger].
  - by destruct (isSafeInteger (NInt z)).
  - unfold isSafeInteger. by destruct (bits =? f64_minus_zero).
Qed.

(** A loop whose rounds each append the bytes of an element. *)
Lemma foldM_wrote {A B} (f : writer -> A -> result cbor_err writer) (R : A -> B -> Prop) (g : B -> bytes) l k :
  Forall2 R l k ->
  (forall w acc a b, a ∈ l -> b ∈ k -> R a b -> wrepr max w acc -> wrote max acc (g b) (f w a)) ->
  forall w acc, wrepr max w acc -> wrote max acc (concat (g <$> k)) (foldM f w l).
Proof.
  induction 1 as [|a b l k Hab _ IH]; intros Hstep w acc Hw; cbn [foldM fmap list_fmap concat].
  - unfold wrote. rewrite app_nil_r. assert ((max <? len acc + len (@nil Z)) = false) as ->; [|eauto].
    destruct Hw as (_ & _ & _ & _ & Hle). apply Z.ltb_ge. change (len (@nil Z)) with 0. lia.
  - apply wrote_bind; [apply (Hstep w acc a b); [by left|by left|done|done]|].
    intros w1 Hw1. apply IH; [|done]. intros; eapply Hstep; eauto; by right.
Qed.

(** Where a value stands for a tree within the limits, its bytes are written,
    as far as there is room for them. *)
Lemma encodeValue_wrote t : forall levels anc w acc v,
  tree_wf t -> heap_repr h v t -> tree_fits o t = true -> (tree_levels t <= levels)%nat ->
  ancestors_ok (heap_repr h) anc t -> wrepr max w acc ->
  wrote max acc (cbor_bytes t) (encodeValue o h levels anc w v).
Proof.
  induction t as [|b|n|s|bs|l IH|e IH] using tree_ind; intros [|levels] anc w acc v Hwf Hv Hfit Hlev Hanc Hw;
    try (cbn in Hlev; lia);
    inversion Hv as [| | | |? ? El|p slots ? ? ? El Hs|p props symbols ? El Hsym Hs]; subst; cbn [encodeValue cbor_bytes].
  - by apply writeByte_wrote.
  - apply writeByte_wrote; [done|]. destruct b; lia.
  - by apply encodeNumber_wrote.
  - inversion Hwf; subst. by apply encodeText_wrote.
  - rewrite El. cbn in Hfit. assert ((maxByteLength o <? len bs) = false) as -> by lia.
    cbn [throw_if mbind result_bind]. apply wrote_bind; [|intros; by apply writeBytes_wrote].
    apply writeArgument_wrote; [done|lia|]. apply u32_arg. pose proof (len_nonneg bs). destruct Ho as (? & _). lia.
  - rewrite El. assert (p ∉ anc) as Hp by (eapply ancestors_ok_notin; eauto using heap_repr_fun).
    rewrite bool_decide_eq_false_2 by done. cbn [throw_if mbind result_bind].
    assert (len slots = len l) as Elen by (unfold len; by erewrite Forall2_length by done). rewrite Elen.
    cbn in Hfit. apply andb_true_iff in Hfit as [Hlen Hfit]. apply Z.leb_le in Hlen.
    assert ((maxContainerLength o <? len l) = false) as -> by lia. cbn [throw_if mbind result_bind].
    apply wrote_bind.
    { apply writeArgument_wrote; [done|lia|]. apply u32_arg. pose proof (len_nonneg l). destruct Ho as (_ & ? & _). lia. }
    intros w' Hw'. eapply foldM_wrote; [exact Hs| |done]. intros w1 acc1 a b _ Hb (p1 & -> & Hr) Hw1.
    rewrite bool_decide_eq_false_2 by by eapply heap_repr_not_undef. cbn [throw_if mbind result_bind].
    rewrite Forall_forall in IH. inversion Hwf as [| | | | |? Hwl|]; subst. rewrite Forall_forall in Hwl.
    apply tree_levels_arr in Hlev. rewrite Forall_forall in Hlev.
    apply IH; auto. { apply (proj1 (forallb_forall _ _) Hfit). by apply list_elem_of_In. }
    eapply ancestors_ok_child; [done..|]. by apply tree_levels_elem.
  - rewrite El. assert (p ∉ anc) as Hp by (eapply ancestors_ok_notin; eauto using heap_repr_fun).
    rewrite bool_decide_eq_false_2 by done. cbn [throw_if mbind result_bind].
    assert (existsb id symbols = false) as ->.
    { clear -Hsym. induction symbols as [|[] ss IHs]; cbn in *; [done|done|by apply IHs]. }
    cbn [throw_if mbind result_bind].
    assert (len (defined_props props) = len e) as -> by (unfold len; by erewrite Forall2_length by done).
    cbn in Hfit. apply andb_true_iff in Hfit as [Hlen Hfit]. apply Z.leb_le in Hlen.
    assert ((maxContainerLength o <? len e) = false) as -> by lia. cbn [throw_if mbind result_bind].
    apply wrote_bind.
    { apply writeArgument_wrote; [done|lia|]. apply u32_arg. pose proof (len_nonneg e). destruct Ho as (_ & ? & _). lia. }
    intros w' Hw'. inversion Hwf as [| | | | | |? _ Hwk Hwv]; subst. rewrite Forall_forall in Hwk, Hwv, IH.
    apply tree_levels_obj in Hlev. rewrite Forall_forall in Hlev.
    eapply foldM_wrote; [exact Hs| |done]. intros w1 acc1 a b _ Hb [Hk Hr] Hw1.
    pose proof (proj1 (forallb_forall _ _) Hfit b (proj1 (list_elem_of_In _ _) Hb)) as Hfb.
    apply andb_true_iff in Hfb as [Hfk Hfv]. rewrite Hk.
    apply wrote_bind; [by apply encodeText_wrote; [|apply Hwk|]|]. intros w2 Hw2. apply IH; auto.
    eapply ancestors_ok_child; [done..|]. by apply tree_levels_value.
Qed.

Lemma foldM_Ok_elem {A} (f : writer -> A -> result cbor_err writer) l w w' :
  foldM f w l = Ok w' -> Forall (fun a => exists w1 w2, f w1 a = Ok w2) l.
Proof.
  revert w. induction l as [|a l IH]; cbn; intros w H; [constructor|]. res_inv. constructor; eauto.
Qed.

(** What is encoded stands for a tree, within the limits. *)
Lemma encodeValue_inv t : forall levels anc w w' v,
  tree_wf t -> heap_repr h v t -> encodeValue o h levels anc w v = Ok w' ->
  tree_fits o t = true /\ (tree_levels t <= levels)%nat.
Proof.
  induction t as [|b|n|s|bs|l IH|e IH] using tree_ind; intros [|levels] anc w w' v Hwf Hv; try done;
    inversion Hv as [| | | |? ? El|p slots ? ? ? El Hs|p props symbols ? El Hsym Hs]; subst; cbn [encodeValue];
    intros H; try (split; [|cbn; lia]); try done.
  - by eapply encodeNumber_inv.
  - inversion Hwf; subst. by eapply encodeText_inv.
  - rewrite El in H. res_inv. cbn. bool_lia.
  - rewrite El in H. inversion Hwf as [| | | | |? Hwl|]; subst. res_inv.
    match goal with H : foldM _ _ _ = Ok _ |- _ => apply foldM_Ok_elem in H as Hall end.
    assert (Forall (fun t => tree_fits o t = true /\ (tree_levels t <= levels)%nat) l) as Hl.
    { clear -IH Hwl Hs Hall. induction Hs as [|a t slots l (p1 & -> & Hr) _ IHs]; constructor;
        apply Forall_cons in IH as [Ht IH], Hwl as [Hwt Hwl], Hall as [(w1 & w2 & Ha) Hall]; [|by apply IHs].
      res_inv. by eapply Ht. }
    rewrite tree_levels_arr. split; [|eapply Forall_impl; [exact Hl|by intros ? []]].
    cbn. apply andb_true_iff. split.
    + assert (len slots = len l) as <- by (unfold len; by erewrite Forall2_length by done). bool_lia.
    + apply forallb_forall. intros t Ht%list_elem_of_In. rewrite Forall_forall in Hl. by apply Hl.
  - rewrite El in H. inversion Hwf as [| | | | | |? _ Hwk Hwv]; subst. res_inv.
    match goal with H : foldM _ _ _ = Ok _ |- _ => apply foldM_Ok_elem in H as Hall end.
    assert (Forall (fun kv => (text_fits o (fst kv) && tree_fits o (snd kv)) = true /\ (tree_levels (snd kv) <= levels)%nat) e) as Hl.
    { clear -IH Hwk Hwv Hs Hall. induction Hs as [|a t slots l [Hk Hr] _ IHs]; constructor;
        apply Forall_cons in IH as [Ht IH], Hwk as [Hwk1 Hwk], Hwv as [Hwt Hwv], Hall as [(w1 & w2 & Ha) Hall]; [|by apply IHs].
      cbv beta in Ha. apply bind_Ok in Ha as (w3 & H1 & H2). rewrite Hk in H1.
      destruct (Ht _ _ _ _ _ Hwt Hr H2) as [Hf Hlv]. split; [|done].
      apply andb_true_iff. split; [by eapply encodeText_inv|done]. }
    rewrite tree_levels_obj. split; [|eapply Forall_impl; [exact Hl|by intros ? []]].
    cbn. apply andb_true_iff. split.
    + assert (len (defined_props props) = len e) as <- by (unfold len; by erewrite Forall2_length by done). bool_lia.
    + apply forallb_forall. intros t Ht%list_elem_of_In. rewrite Forall_forall in Hl. by apply Hl.
Qed.

(** Whatever is encoded stands for a tree. *)
Lemma encodeValue_repr levels : forall anc w w' v,
  encodeValue o h levels anc w v = Ok w' -> exists t, heap_repr h v t.
Proof.
  induction levels as [|levels IH]; intros anc w w' v; [done|]. cbn [encodeValue].
  destruct v as [| |b|n|s| |l]; intros H; try done; try (eexists; by constructor).
  destruct (h !! l) as [[slots named symbols|props symbols|bs|]|] eqn:El; try done.
  - res_inv. match goal with H : foldM _ _ _ = Ok _ |- _ => apply foldM_Ok_elem in H as Hall end.
    assert (exists ts, Forall2 (fun slot t => exists p, slot = Some p /\ heap_repr h (pvalue p) t) slots ts) as [ts Hts].
    { apply Forall_exists_Forall2. eapply Forall_impl; [exact Hall|]. intros [p|] (w1 & w2 & Hp); [|done].
      res_inv. match goal with H : encodeValue _ _ _ _ _ _ = Ok _ |- _ => apply IH in H as [t Ht] end. eauto. }
    eexists. by eapply repr_arr.
  - res_inv. match goal with H : foldM _ _ _ = Ok _ |- _ => apply foldM_Ok_elem in H as Hall end.
    assert (exists e, Forall2 (fun kv (kt : jsstr * tree) => fst kv = fst kt /\ heap_repr h (snd kv) (snd kt)) (defined_props props) e) as [e He].
    { apply Forall_exists_Forall2. eapply Forall_impl; [exact Hall|]. intros [k v] (w1 & w2 & Hp).
      cbv beta in Hp. apply bind_Ok in Hp as (w3 & _ & Hp). apply IH in Hp as [t Ht]. by exists (k, t). }
    eexists. eapply repr_obj; [done| |done].
    match goal with H : existsb _ _ = false |- _ => clear -H; induction symbols as [|[] ss IHs]; cbn in *; [done|done|by apply IHs] end.
  - eexists. by constructor.
Qed.
End Encoder.

Lemma encodeCbor_Ok h v c bs :
  encodeCbor h v c = Ok bs <->
  exists o w, resolveOptions c = Ok o /\
    encodeValue o h (depth_levels o) ∅ (new_writer (maxByteLength o)) v = Ok w /\ bs = finish w.
Proof. unfold encodeCbor. rewrite bind_Ok. setoid_rewrite bind_Ok. naive_solver. Qed.

Lemma finish_repr max w acc : wrepr max w acc -> finish w = acc.
Proof. intros (_ & Ho & _ & Ht & _). unfold finish. by rewrite Ho. Qed.

Lemma no_ancestors h t : ancestors_ok (heap_repr h) ∅ t.
Proof. by intros a ?%elem_of_empty. Qed.

(** Encoding succeeds exactly on the values that stand for a tree within the
    limits whose bytes fit, and gives the bytes of that tree. *)
Lemma encodeCbor_spec h v t c o bs :
  resolveOptions c = Ok o -> heap_repr h v t -> tree_wf t ->
  encodeCbor h v c = Ok bs <->
  bs = cbor_bytes t /\ tree_fits o t = true /\ (tree_levels t <= depth_levels o)%nat /\ len bs <= maxByteLength o.
Proof.
  intros Hc Hv Hwf. pose proof (resolveOptions_ok _ _ Hc) as Ho. rewrite encodeCbor_Ok. split.
  - intros (o' & w & Ho' & Hw & ->). assert (o' = o) as -> by congruence.
    destruct (encodeValue_inv o h t _ _ _ _ _ Hwf Hv Hw) as [Hf Hl].
    pose proof (encodeValue_wrote o Ho h t _ ∅ _ [] v Hwf Hv Hf Hl (no_ancestors h t)
      (new_writer_repr _ (proj1 (proj1 Ho)))) as H. rewrite Hw in H. apply wrote_Ok in H as [Hlen Hr].
    apply finish_repr in Hr as Hfin. cbn [app] in Hfin. rewrite Hfin. split_and!; [done..|].
    change (len (@nil Z)) with 0 in Hlen. lia.
  - intros (-> & Hf & Hl & Hlen).
    pose proof (encodeValue_wrote o Ho h t _ ∅ _ [] v Hwf Hv Hf Hl (no_ancestors h t)
      (new_writer_repr _ (proj1 (proj1 Ho)))) as H. apply wrote_ok in H as (w & Hw & Hr); [|change (len (@nil Z)) with 0; lia].
    exists o, w. split_and!; [done..|]. by apply finish_repr in Hr.
Qed.

(** * The decoder reads the canonical bytes *)

Lemma head_major m i : 0 <= i < 32 -> Z.shiftr (m * 32 + i) 5 = m.
Proof.
  intros Hi. rewrite Z.shiftr_div_pow2 by lia. change (2 ^ 5) with 32. rewrite Z.div_add_l by lia.
  rewrite Z.div_small by lia. lia.
Qed.

Lemma head_info m i : 0 <= i < 32 -> Z.land (m * 32 + i) 0x1f = i.
Proof.
  intros Hi. change 0x1f with (Z.ones 5). rewrite Z.land_ones by lia. change (2 ^ 5) with 32.
  rewrite Z.add_comm, Z.mod_add by lia. by apply Z.mod_small.
Qed.

Lemma readBytes_app bs r n : n = len bs -> readBytes n (bs ++ r) = Ok (bs, r).
Proof.
  intros ->. unfold readBytes. rewrite len_app. pose proof (len_nonneg r).
  assert ((len bs + len r <? len bs) = false) as -> by lia. cbn [throw_if mbind result_bind].
  unfold len. rewrite Nat2Z.id. by rewrite take_app_length, drop_app_length.
Qed.

Lemma readUint32_be n r : 0 <= n < 2 ^ 32 -> readUint32 (be_bytes 4 n ++ r) = Ok (n, r).
Proof.
  intros Hn. unfold readUint32. rewrite readBytes_app by (unfold len; by rewrite length_be_bytes).
  pose proof (be_value_be_bytes_small 4 n Hn) as Hv. pose proof (length_be_bytes 4 n) as Hl.
  destruct (be_bytes 4 n) as [|b0 [|b1 [|b2 [|b3 [|]]]]]; try done. cbn [mbind result_bind].
  cbn in Hv. do 2 f_equal. lia.
Qed.

(** The argument of an item, after its initial byte. *)
Definition arg_info (n : Z) : Z :=
  if n <? 24 then n else if n <=? 0xff then 24 else if n <=? 0xffff then 25 else if n <=? MAX_UINT32 then 26 else 27.

Definition arg_rest (n : Z) : bytes :=
  if n <? 24 then [] else if n <=? 0xff then be_bytes 1 n else if n <=? 0xffff then be_bytes 2 n
  else if n <=? MAX_UINT32 then be_bytes 4 n else be_bytes 8 n.

Lemma arg_bytes_split m n : arg_bytes m n = (m * 32 + arg_info n) :: arg_rest n.
Proof. unfold arg_bytes, arg_info, arg_rest. by repeat split_if. Qed.

Lemma arg_info_bound n : 0 <= n -> 0 <= arg_info n < 31.
Proof. intros Hn. unfold arg_info. repeat split_if; bool_lia. Qed.

Lemma readArgument_rest n r : 0 <= n < 2 ^ 53 -> readArgument (arg_info n) (arg_rest n ++ r) = Ok (n, r).
Proof.
  intros Hn. unfold arg_info, arg_rest. destruct (n <? 24) eqn:E0; [unfold readArgument; by rewrite E0|].
  destruct (n <=? 0xff) eqn:E1.
  { cbn. do 2 f_equal. rewrite Z.div_1_r. apply Z.mod_small. bool_lia. }
  destruct (n <=? 0xffff) eqn:E2.
  { unfold readArgument. cbn [Z.ltb Z.eqb Z.compare Pos.compare Pos.compare_cont Pos.eqb].
    rewrite readBytes_app by done. cbn -[Z.div Z.modulo]. do 2 f_equal.
    pose proof (be_value_be_bytes_small 2 n ltac:(bool_lia)) as Hv. cbn -[Z.div Z.modulo] in Hv. lia. }
  destruct (n <=? MAX_UINT32) eqn:E3; unfold MAX_UINT32 in *.
  { apply readUint32_be. bool_lia. }
  rewrite (be_bytes_split 4 4) by lia. rewrite <- app_assoc. change (8 * Z.of_nat 4) with 32.
  assert (0 <= n / 2 ^ 32 <= 0x1fffff) as Hh.
  { split; [apply Z.div_pos; lia|]. enough (n / 2 ^ 32 < 2 ^ 21) by lia. apply Z.div_lt_upper_bound; lia. }
  unfold readArgument. cbn [Z.ltb Z.eqb Z.compare Pos.compare Pos.compare_cont Pos.eqb].
  rewrite readUint32_be by lia. cbn [mbind result_bind].
  rewrite <- (be_bytes_mod 4 n). change (8 * Z.of_nat 4) with 32.
  rewrite readUint32_be by (apply Z.mod_pos_bound; lia). cbn [mbind result_bind].
  assert ((0x1fffff <? n / 2 ^ 32) = false) as -> by lia. cbn [throw_if mbind result_bind]. unfold UINT32_BASE.
  do 2 f_equal. pose proof (Z.div_mod n (2 ^ 32) ltac:(lia)). lia.
Qed.

Lemma readLength_rest n limit r :
  0 <= n < 2 ^ 53 -> n <= limit -> readLength (arg_info n) limit (arg_rest n ++ r) = Ok (n, r).
Proof.
  intros Hn Hl. unfold readLength. pose proof (arg_info_bound n (proj1 Hn)).
  assert ((arg_info n =? 31) = false) as -> by lia. cbn [throw_if mbind result_bind].
  rewrite readArgument_rest by done. cbn [mbind result_bind].
  assert ((limit <? n) = false) as -> by lia. done.
Qed.

Section Decoder.
Variable o : ResolvedCborOptions.
Hypothesis Ho : options_ok o.

Lemma len_bound {A} (l : list A) limit : len l <= limit -> limit <= MAX_UINT32 -> 0 <= len l < 2 ^ 53.
Proof. pose proof (len_nonneg l). unfold MAX_UINT32. lia. Qed.

(** The initial byte of a canonical item, split. *)
Ltac read_head n :=
  cbn [readItem]; rewrite arg_bytes_split; cbn [app readByte mbind result_bind];
  pose proof (arg_info_bound n ltac:(assumption || lia));
  rewrite head_major, head_info by lia;
  cbn [Z.eqb Pos.eqb].

Lemma readItem_text levels s r :
  str_wf s -> text_fits o s = true -> readItem o (S levels) (text_bytes s ++ r) = Ok (TStr s, r).
Proof.
  intros Hs [Hl Hf]%andb_true_iff. apply Z.leb_le in Hl. unfold text_bytes. rewrite <- app_assoc.
  pose proof (len_bound _ _ Hl (proj2 (proj1 Ho))) as Hb. pose proof (proj1 Hb).
  read_head (len (utf8_encode s)). rewrite readLength_rest by done. cbn [mbind result_bind].
  rewrite readBytes_app by done. cbn [mbind result_bind]. rewrite utf8_decode_encode by done.
  assert (to_well_formed s = s) as -> by by apply to_well_formed_id. done.
Qed.

Lemma readItem_num levels n r :
  num_wf n -> tree_fits o (TNum n) = true -> readItem o (S levels) (num_bytes n ++ r) = Ok (TNum n, r).
Proof.
  intros Hn [Hf Hs]%andb_true_iff. destruct n as [z|bits]; unfold num_bytes.
  - cbn in Hs. unfold MAX_SAFE_INTEGER in Hs. apply Z.leb_le in Hs. destruct (0 <=? z) eqn:E.
    + apply Z.leb_le in E. read_head z. rewrite readArgument_rest by lia. done.
    + apply Z.leb_gt in E. assert (0 <= -1 - z) by lia. read_head (-1 - z).
      rewrite readArgument_rest by lia. cbn [mbind result_bind].
      replace (-1 - (-1 - z)) with z by lia. cbn [isSafeInteger]. unfold MAX_SAFE_INTEGER.
      assert ((Z.abs z <=? 2 ^ 53 - 1) = true) as -> by lia. done.
  - destruct Hn as [Hb Hid]. change (0xfb :: be_bytes 8 bits) with ([0xfb] ++ be_bytes 8 bits). rewrite <- app_assoc.
    cbn [app readItem readByte mbind result_bind]. change (Z.shiftr 0xfb 5) with 7. change (Z.land 0xfb 0x1f) with 27.
    cbn [Z.eqb Pos.eqb]. unfold readSimple. cbn [Z.eqb Pos.eqb].
    rewrite readBytes_app by (unfold len; by rewrite length_be_bytes). cbn [mbind result_bind].
    rewrite be_value_be_bytes_small by done. rewrite Hid, Hf. cbn [negb throw_if mbind result_bind].
    destruct (isInteger (NFlt bits)) eqn:Ei; [|done]. cbn [negb orb] in Hs. by rewrite Hs.
Qed.

Lemma read_items_app rd l r :
  Forall (fun t => forall r, rd (cbor_bytes t ++ r) = Ok (t, r)) l ->
  read_items rd (length l) (concat (cbor_bytes <$> l) ++ r) = Ok (l, r).
Proof.
  induction 1 as [|t l Ht _ IH]; [done|]. cbn [fmap list_fmap concat length read_items].
  rewrite <- app_assoc, Ht. cbn [mbind result_bind]. by rewrite IH.
Qed.

Lemma read_entries_app rd e keys done_ r :
  (forall k, k ∈ keys <-> k ∈ obj_keys done_) -> obj_sorted (done_ ++ e) ->
  Forall (fun kv => (forall r, rd (text_bytes (fst kv) ++ r) = Ok (TStr (fst kv), r)) /\
                    (forall r, rd (cbor_bytes (snd kv) ++ r) = Ok (snd kv, r))) e ->
  read_entries rd (length e) keys done_ (concat ((fun kv => text_bytes (fst kv) ++ cbor_bytes (snd kv)) <$> e) ++ r) =
    Ok (done_ ++ e, r).
Proof.
  intros Hkeys Hs He. revert keys done_ Hkeys Hs. induction He as [|[k v] e [Hk Hv] _ IH]; intros keys done_ Hkeys Hs.
  { cbn. by rewrite app_nil_r. }
  cbn [fmap list_fmap concat length read_entries fst snd] in *. rewrite <- !app_assoc, Hk. cbn [mbind result_bind].
  assert (Forall (fun k' => key_before k' k) (obj_keys done_)) as Hbefore.
  { clear -Hs. induction done_ as [|[k1 v1] l IH]; [constructor|]. cbn in Hs.
    apply obj_sorted_cons in Hs as [Hs Hb]. constructor; [|by apply IH].
    rewrite Forall_forall in Hb. apply Hb. unfold obj_keys. rewrite fmap_app. set_solver. }
  rewrite bool_decide_eq_false_2.
  2:{ rewrite Hkeys. intros Hin. rewrite Forall_forall in Hbefore. by apply (key_before_ne k k); [apply Hbefore|]. }
  cbn [throw_if mbind result_bind]. rewrite Hv. cbn [mbind result_bind]. rewrite obj_set_last by done.
  rewrite IH; [by rewrite <- app_assoc| |by rewrite <- app_assoc].
  intros k'. unfold obj_keys in *. rewrite fmap_app, elem_of_union, elem_of_app, Hkeys. set_solver.
Qed.

Lemma readItem_bytes t : forall levels r,
  tree_wf t -> tree_fits o t = true -> (tree_levels t <= levels)%nat ->
  readItem o levels (cbor_bytes t ++ r) = Ok (t, r).
Proof.
  induction t as [|b|n|s|bs|l IH|e IH] using tree_ind; intros [|levels] r Hwf Hfit Hlev; try (cbn in Hlev; lia);
    cbn [cbor_bytes]; inversion Hwf as [| | | | |? Hwl|? Hes Hwk Hwv]; subst.
  - done.
  - by destruct b.
  - by apply readItem_num.
  - by apply readItem_text.
  - cbn in Hfit. apply Z.leb_le in Hfit. rewrite <- app_assoc.
    pose proof (len_bound _ _ Hfit (proj2 (proj1 Ho))) as Hb. pose proof (proj1 Hb).
    read_head (len bs). rewrite readLength_rest by done. cbn [mbind result_bind]. by rewrite readBytes_app.
  - cbn in Hfit. apply andb_true_iff in Hfit as [Hlen Hfit]. apply Z.leb_le in Hlen. rewrite <- app_assoc.
    pose proof (len_bound _ _ Hlen (proj2 (proj1 (proj2 Ho)))) as Hb. pose proof (proj1 Hb).
    read_head (len l). rewrite readLength_rest by done. cbn [mbind result_bind].
    unfold len. rewrite Nat2Z.id, read_items_app; [done|].
    apply tree_levels_arr in Hlev. rewrite Forall_forall in IH, Hwl, Hlev |- *. intros t Ht r'.
    apply IH; auto. apply (proj1 (forallb_forall _ _) Hfit). by apply list_elem_of_In.
  - cbn in Hfit. apply andb_true_iff in Hfit as [Hlen Hfit]. apply Z.leb_le in Hlen. rewrite <- app_assoc.
    pose proof (len_bound _ _ Hlen (proj2 (proj1 (proj2 Ho)))) as Hb. pose proof (proj1 Hb).
    read_head (len e). rewrite readLength_rest by done. cbn [mbind result_bind].
    unfold len. rewrite Nat2Z.id, read_entries_app; [done|set_solver|done|].
    apply tree_levels_obj in Hlev. rewrite Forall_forall in IH, Hwk, Hwv, Hlev |- *. intros kv Hkv.
    pose proof (proj1 (forallb_forall _ _) Hfit kv (proj1 (list_elem_of_In _ _) Hkv)) as [Hfk Hfv]%andb_true_iff.
    split; intros r'; [|by apply IH; auto].
    specialize (Hlev kv Hkv). pose proof (tree_levels_pos (snd kv)). destruct levels as [|levels]; [lia|].
    apply readItem_text; auto.
Qed.
End Decoder.

(** Bytes within the limits decode to the tree they were made from. *)
Lemma decodeCbor_bytes c o t :
  resolveOptions c = Ok o -> tree_wf t -> tree_fits o t = true -> (tree_levels t <= depth_levels o)%nat ->
  len (cbor_bytes t) <= maxByteLength o -> decodeCbor (cbor_bytes t) c = Ok t.
Proof.
  intros Hc Hwf Hf Hl Hlen. unfold decodeCbor. rewrite Hc. cbn [mbind result_bind].
  assert ((maxByteLength o <? len (cbor_bytes t)) = false) as -> by lia. cbn [throw_if mbind result_bind].
  pose proof (readItem_bytes o (resolveOptions_ok _ _ Hc) t _ [] Hwf Hf Hl) as H. rewrite app_nil_r in H.
  by rewrite H.
Qed.

(** * What the decoder accepts *)

(** A read that consumes [bs], at least as many bytes as the canonical form has. *)
Definition consumed (canonical r r' : bytes) : Prop := exists bs, r = bs ++ r' /\ len canonical <= len bs.

Lemma consumed_app a b r r' r'' : consumed a r r' -> consumed b r' r'' -> consumed (a ++ b) r r''.
Proof.
  intros (x & -> & Hx) (y & -> & Hy). exists (x ++ y). rewrite <- app_assoc, !len_app. split; [done|lia].
Qed.

Lemma consumed_wf a r r' : bytes_wf r -> consumed a r r' -> bytes_wf r'.
Proof. intros Hr (bs & -> & _). by apply Forall_app in Hr as [_ ?]. Qed.

Lemma readBytes_Ok n r bs r' : 0 <= n -> readBytes n r = Ok (bs, r') -> r = bs ++ r' /\ len bs = n.
Proof.
  intros Hn H. unfold readBytes in H. res_inv. bool_lia.
  - split; [symmetry; apply take_drop|]. unfold len in *. rewrite length_take. lia.
Qed.

Lemma be_value_4 b0 b1 b2 b3 : be_value [b0; b1; b2; b3] = b0 * 0x1000000 + b1 * 0x10000 + b2 * 0x100 + b3.
Proof. unfold be_value. cbn [foldl]. lia. Qed.

Lemma readUint32_Ok r n r' :
  bytes_wf r -> readUint32 r = Ok (n, r') -> 0 <= n < 2 ^ 32 /\ exists bs, r = bs ++ r' /\ len bs = 4.
Proof.
  intros Hr H. unfold readUint32 in H. apply bind_Ok in H as ([bs r1] & Hb & H).
  apply readBytes_Ok in Hb as [-> Hl]; [|lia]. apply Forall_app in Hr as [Hb _].
  destruct bs as [|b0 [|b1 [|b2 [|b3 [|]]]]]; try done. injection H as <- <-.
  pose proof (be_value_bound [b0; b1; b2; b3] Hb) as Hv. rewrite be_value_4 in Hv.
  split; [exact Hv|]. by exists [b0; b1; b2; b3].
Qed.

Lemma len_arg_rest n : 0 <= n -> len (arg_rest n) =
  if n <? 24 then 0 else if n <=? 0xff then 1 else if n <=? 0xffff then 2 else if n <=? MAX_UINT32 then 4 else 8.
Proof. intros Hn. unfold arg_rest, len. repeat split_if; by rewrite ?length_be_bytes. Qed.

Lemma readArgument_Ok i r n r' :
  bytes_wf r -> 0 <= i -> readArgument i r = Ok (n, r') -> 0 <= n < 2 ^ 53 /\ consumed (arg_rest n) r r'.
Proof.
  intros Hr Hi H. unfold readArgument in H.
  assert (forall n bs, 0 <= n < 2 ^ 53 -> r = bs ++ r' -> n < 2 ^ (8 * len bs) \/ n < 24 -> len bs = 0 \/ len bs = 1 \/ len bs = 2 \/ len bs = 4 \/ len bs = 8 ->
    0 <= n < 2 ^ 53 /\ consumed (arg_rest n) r r') as Hmk.
  { intros n' bs Hn' -> Hlt Hlen. split; [done|]. exists bs. split; [done|]. rewrite len_arg_rest by lia. unfold MAX_UINT32.
    destruct Hlen as [E|[E|[E|[E|E]]]]; rewrite E in *; repeat split_if; bool_lia. }
  destruct (i <? 24) eqn:E0. { injection H as <- <-. apply (Hmk i []); [bool_lia|done|right; bool_lia|auto]. }
  destruct (i =? 24). { destruct r as [|b r1]; [done|]. injection H as <- <-. apply Forall_cons in Hr as [Hb _].
    unfold byte_ok in Hb. apply (Hmk b [b]); [lia|done|left; change (2 ^ (8 * len [b])) with 256; lia|auto]. }
  destruct (i =? 25).
  { apply bind_Ok in H as ([bs r1] & Hb & H). apply readBytes_Ok in Hb as [-> Hl]; [|lia]. apply Forall_app in Hr as [Hb _].
    destruct bs as [|b0 [|b1 [|]]]; try done. injection H as <- <-.
    apply Forall_cons in Hb as [Hb0 Hb]. apply Forall_cons in Hb as [Hb1 _]. unfold byte_ok in *.
    apply (Hmk _ [b0; b1]); [lia|done|left; change (2 ^ (8 * len [b0; b1])) with 65536; lia|auto]. }
  destruct (i =? 26).
  { apply readUint32_Ok in H as (Hn & bs & -> & Hl); [|done]. apply (Hmk n bs); [lia|done|rewrite Hl; left; lia|auto]. }
  destruct (i =? 27); [|by destruct (i =? 31)].
  apply bind_Ok in H as ([high r1] & H1 & H). apply readUint32_Ok in H1 as (Hh & b1 & -> & Hl1); [|done].
  apply bind_Ok in H as ([low r2] & H2 & H). apply Forall_app in Hr as [_ Hr1].
  apply readUint32_Ok in H2 as (Hlo & b2 & -> & Hl2); [|done]. res_inv. unfold UINT32_BASE in *.
  match goal with H : (_ <? _) = false |- _ => apply Z.ltb_ge in H end.
  apply (Hmk _ (b1 ++ b2)); [lia|by rewrite app_assoc|left; rewrite len_app, Hl1, Hl2; lia|rewrite len_app; lia].
Qed.

Lemma readLength_Ok i limit r n r' :
  bytes_wf r -> 0 <= i -> readLength i limit r = Ok (n, r') -> 0 <= n <= limit /\ consumed (arg_rest n) r r'.
Proof.
  intros Hr Hi H. unfold readLength in H. apply bind_Ok in H as (u & _ & H). apply bind_Ok in H as ([n1 r1] & Ha & H).
  apply readArgument_Ok in Ha as [Hn Hc]; [|done..]. res_inv. split; [bool_lia|done].
Qed.

Lemma num_of_f64_wf b : 0 <= b < 2 ^ 64 -> num_wf (num_of_f64 b).
Proof.
  intros Hb. unfold num_of_f64. destruct (b =? f64_minus_zero) eqn:E; [|destruct (f64_integer b) eqn:Ei; [done|]];
    (split; [done|]); unfold num_of_f64; by rewrite E, ?Ei.
Qed.

Lemma Permutation_concat_len {A} (f : A -> bytes) l l' : l ≡ₚ l' -> len (concat (f <$> l)) = len (concat (f <$> l')).
Proof. induction 1; cbn; rewrite ?len_app; lia. Qed.

Lemma obj_insert_index_perm {V} n (o : list (jsstr * V)) k v : obj_insert_index n o k v ≡ₚ (k, v) :: o.
Proof.
  induction o as [|[k1 v1] o IH]; cbn; [done|]. destruct (array_index k1); [destruct (_ <? _)|]; [|done..].
  rewrite IH. by apply Permutation_swap.
Qed.

Lemma obj_set_perm {V} (o : list (jsstr * V)) k v : obj_get o k = None -> obj_set o k v ≡ₚ (k, v) :: o.
Proof.
  intros Hk. unfold obj_set, obj_has. rewrite Hk. destruct (array_index k); [apply obj_insert_index_perm|].
  by rewrite Permutation_app_comm.
Qed.

Section DecoderSound.
Variable o : ResolvedCborOptions.
Hypothesis Ho : options_ok o.

(** A tree the decoder may return with [levels] levels left. *)
Definition tree_good (levels : nat) (t : tree) : Prop :=
  tree_wf t /\ tree_fits o t = true /\ (tree_levels t <= levels)%nat.

Definition reads_good (levels : nat) (rd : reads tree) : Prop :=
  forall r t r', bytes_wf r -> rd r = Ok (t, r') -> tree_good levels t /\ consumed (cbor_bytes t) r r'.

Lemma read_items_good levels rd n : reads_good levels rd -> forall r ts r', bytes_wf r -> read_items rd n r = Ok (ts, r') ->
  Forall (tree_good levels) ts /\ length ts = n /\ consumed (concat (cbor_bytes <$> ts)) r r'.
Proof.
  intros Hrd. induction n as [|n IH]; intros r ts r' Hr H; cbn in H.
  { res_inv. split_and!; [constructor|done|]. by exists []. }
  apply bind_Ok in H as ([t r1] & Ht & H). apply Hrd in Ht as [Hg Hc]; [|done].
  apply bind_Ok in H as ([ts1 r2] & Hts & H). injection H as <- <-.
  apply IH in Hts as (Hgs & Hl & Hcs); [|by eapply consumed_wf].
  split_and!; [by constructor|cbn; lia|]. by eapply consumed_app.
Qed.

Definition entry_bytes (kv : jsstr * tree) : bytes := text_bytes (fst kv) ++ cbor_bytes (snd kv).

Lemma read_entries_good levels rd n : reads_good levels rd -> forall keys done_ r e r',
  bytes_wf r -> (forall k, k ∈ keys <-> k ∈ obj_keys done_) -> obj_sorted done_ ->
  read_entries rd n keys done_ r = Ok (e, r') ->
  exists new, e ≡ₚ done_ ++ new /\ obj_sorted e /\ length new = n /\
    Forall (fun kv => tree_good levels (TStr (fst kv)) /\ tree_good levels (snd kv)) new /\
    consumed (concat (entry_bytes <$> new)) r r'.
Proof.
  intros Hrd. induction n as [|n IH]; intros keys done_ r e r' Hr Hk Hs H; cbn in H.
  { res_inv. exists []. split_and!; [by rewrite app_nil_r|done|done|constructor|]. by exists []. }
  apply bind_Ok in H as ([kt r1] & Hkt & H). apply Hrd in Hkt as [Hgk Hck]; [|done].
  assert (bytes_wf r1) as Hr1 by by eapply consumed_wf.
  destruct kt as [| | |key| | |]; try done. apply bind_Ok in H as (u & Hdup & H). apply throw_if_Ok in Hdup.
  apply bool_decide_eq_false in Hdup. apply bind_Ok in H as ([v r2] & Hv & H). apply Hrd in Hv as [Hgv Hcv]; [|done].
  assert (obj_get done_ key = None) as Hnone by by apply obj_get_None; rewrite <- Hk.
  apply IH in H as (new & Hp & Hse & Hl & Hg & Hc).
  - exists ((key, v) :: new). split_and!; [|done|cbn; lia|by constructor|].
    + rewrite Hp, obj_set_perm by done. cbn. by rewrite Permutation_middle.
    + cbn. eapply consumed_app; [|done]. unfold entry_bytes. cbn. by eapply consumed_app.
  - by eapply consumed_wf.
  - intros k. rewrite <- obj_has_elem. unfold obj_has. rewrite obj_get_set, elem_of_union, elem_of_singleton, Hk.
    case_decide as E; [subst; naive_solver|]. rewrite <- obj_has_elem. unfold obj_has. naive_solver.
  - by apply obj_sorted_set.
Qed.

Lemma consumed_cons h a b r r' : consumed a r r' -> consumed ((h :: a)) (b :: r) r'.
Proof. intros (bs & -> & Hl). exists (b :: bs). split; [done|]. unfold len in *. cbn. lia. Qed.

(** An item whose argument and content were read after its initial byte. *)
Lemma consumed_item m n c b r r1 r2 :
  consumed (arg_rest n) r r1 -> consumed c r1 r2 -> consumed (arg_bytes m n ++ c) (b :: r) r2.
Proof. intros H1 H2. rewrite arg_bytes_split. cbn [app]. apply consumed_cons. by eapply consumed_app. Qed.

Lemma consumed_nil r : consumed [] r r.
Proof. by exists []. Qed.

Lemma entries_good levels r new e n :
  Forall (fun kv => tree_good levels (TStr (fst kv)) /\ tree_good levels (snd kv)) new ->
  e ≡ₚ new -> obj_sorted e -> length new = n -> Z.of_nat n <= maxContainerLength o -> r = concat (entry_bytes <$> new) ->
  tree_good (S levels) (TObj e) /\ len (concat (entry_bytes <$> e)) = len r.
Proof.
  intros Hg Hp Hs Hl Hmax ->. split; [|by apply Permutation_concat_len].
  rewrite <- Hp in Hg. rewrite Forall_forall in Hg. apply Permutation_length in Hp as Hlen.
  split_and!.
  - constructor; [done|..]; apply Forall_forall; intros kv Hkv; destruct (Hg kv Hkv) as [(Hk & _) (Hv & _)]; [|done].
    by inversion Hk.
  - cbn. apply andb_true_iff. split; [unfold len; lia|]. apply forallb_forall. intros kv Hkv%list_elem_of_In.
    destruct (Hg kv Hkv) as [(_ & Hk & _) (_ & Hv & _)]. cbn in Hk. by rewrite Hk, Hv.
  - apply tree_levels_obj, Forall_forall. intros kv Hkv. by destruct (Hg kv Hkv) as [_ (_ & _ & ?)].
Qed.

Lemma scalar_good levels t : tree_wf t -> tree_fits o t = true -> tree_levels t = 1%nat -> tree_good (S levels) t.
Proof. intros H1 H2 H3. split_and!; [done|done|lia]. Qed.

Lemma readSimple_good levels i b r t r' :
  bytes_wf r -> readSimple i r = Ok (t, r') -> tree_good (S levels) t /\ consumed (cbor_bytes t) (b :: r) r'.
Proof.
  intros Hr H. unfold readSimple in H.
  assert (forall c, consumed [c] (b :: r) r) as Hone by (intros c; by exists [b]).
  destruct (i =? 20). { injection H as <- <-. split; [by apply scalar_good; [constructor|..]|apply Hone]. }
  destruct (i =? 21). { injection H as <- <-. split; [by apply scalar_good; [constructor|..]|apply Hone]. }
  destruct (i =? 22). { injection H as <- <-. split; [by apply scalar_good; [constructor|..]|apply Hone]. }
  destruct (i =? 27); [|by destruct (i =? 31)].
  apply bind_Ok in H as ([bs r1] & Hb & H). apply readBytes_Ok in Hb as [-> Hl]; [|lia].
  apply Forall_app in Hr as [Hb _]. cbv zeta in H.
  apply bind_Ok in H as (u & Hf & H). apply throw_if_Ok in Hf. apply bind_Ok in H as (u' & Hs & H).
  apply throw_if_Ok in Hs. injection H as <- <-. apply negb_false_iff in Hf.
  set (v := num_of_f64 (be_value bs)) in *. pose proof (be_value_bound bs Hb) as Hv.
  replace (2 ^ (8 * Z.of_nat (length bs))) with (2 ^ 64) in Hv by (f_equal; unfold len in Hl; lia).
  split.
  - apply scalar_good; [constructor; by apply num_of_f64_wf| |done]. cbn [tree_fits]. rewrite Hf.
    destruct (isInteger v); cbn in *; [by apply negb_false_iff|done].
  - exists (b :: bs). split; [done|].
    assert (forall m n, 0 <= n -> len (arg_bytes m n) <= 9) as Harg.
    { intros m n Hn. rewrite arg_bytes_split. pose proof (len_arg_rest n Hn) as E. unfold len in *. cbn [length].
      revert E. repeat split_if; lia. }
    assert (len (b :: bs) = 9) as -> by (unfold len in *; cbn; lia).
    cbn [cbor_bytes]. destruct v as [z|bits]; unfold num_bytes; [|unfold len; cbn [length]; rewrite length_be_bytes; lia].
    destruct (0 <=? z) eqn:E; apply Harg; bool_lia.
Qed.

Lemma readItem_good levels : reads_good levels (readItem o levels).
Proof.
  induction levels as [|levels IH]; intros r t r' Hr H; [done|]. cbn [readItem] in H.
  apply bind_Ok in H as ([b r1] & Hb & H). destruct r as [|b0 r0]; [done|]. injection Hb as <- <-.
  apply Forall_cons in Hr as [Hb0 Hr]. cbv zeta in H. unfold byte_ok in Hb0.
  set (i := Z.land b0 0x1f) in *.
  assert (0 <= i) as Hi by (apply Z.land_nonneg; lia). clearbody i.
  destruct (Z.shiftr b0 5 =? 0).
  { apply bind_Ok in H as ([n r2] & Ha & H). injection H as <- <-. apply readArgument_Ok in Ha as [Hn Hc]; [|done..].
    split.
    - apply scalar_good; [by repeat constructor| |done]. cbn. unfold MAX_SAFE_INTEGER. lia.
    - cbn [cbor_bytes num_bytes]. assert ((0 <=? n) = true) as -> by lia. rewrite <- (app_nil_r (arg_bytes 0 n)).
      eapply consumed_item; [done|apply consumed_nil]. }
  destruct (Z.shiftr b0 5 =? 1).
  { apply bind_Ok in H as ([n r2] & Ha & H). cbv zeta in H. apply bind_Ok in H as (u & Hs & H). apply throw_if_Ok, negb_false_iff in Hs.
    injection H as <- <-. apply readArgument_Ok in Ha as [Hn Hc]; [|done..]. split.
    - apply scalar_good; [by repeat constructor|by cbn in *|done].
    - unfold cbor_bytes, num_bytes. assert ((0 <=? -1 - n) = false) as -> by lia.
      replace (-1 - (-1 - n)) with n by lia. rewrite <- (app_nil_r (arg_bytes 1 n)).
      eapply consumed_item; [done|apply consumed_nil]. }
  destruct (Z.shiftr b0 5 =? 2).
  { apply bind_Ok in H as ([n r2] & Ha & H). apply readLength_Ok in Ha as [Hn Hc]; [|done..].
    apply bind_Ok in H as ([bs r3] & Hb & H). injection H as <- <-. pose proof (consumed_wf _ _ _ Hr Hc) as Hr2.
    apply readBytes_Ok in Hb as [-> Hl]; [|lia]. apply Forall_app in Hr2 as [Hbs _]. split.
    - apply scalar_good; [by constructor| |done]. cbn. lia.
    - cbn [cbor_bytes]. rewrite Hl. eapply consumed_item; [done|]. by exists bs. }
  destruct (Z.shiftr b0 5 =? 3).
  { apply bind_Ok in H as ([n r2] & Ha & H). apply readLength_Ok in Ha as [Hn Hc]; [|done..].
    apply bind_Ok in H as ([bs r3] & Hb & H). apply readBytes_Ok in Hb as [-> Hl]; [|lia].
    apply bind_Ok in H as (s & Hs & H). injection H as <- <-. apply ok_or_Ok, utf8_encode_decode in Hs as (Hswf & Hswell & Henc).
    split.
    - apply scalar_good; [by constructor| |done]. cbn. unfold text_fits. rewrite Henc, Hswell. lia.
    - cbn [cbor_bytes]. unfold text_bytes. rewrite Henc, Hl. eapply consumed_item; [done|]. by exists bs. }
  destruct (Z.shiftr b0 5 =? 4).
  { apply bind_Ok in H as ([n r2] & Ha & H). apply readLength_Ok in Ha as [Hn Hc]; [|done..].
    apply bind_Ok in H as ([ts r3] & Hts & H). injection H as <- <-.
    apply (read_items_good levels) in Hts as (Hg & Hl & Hcs); [|done|by eapply consumed_wf].
    assert (len ts = n) as Elen by (unfold len; lia). rewrite Forall_forall in Hg. split.
    - split_and!; [constructor; apply Forall_forall; intros; by apply Hg| |].
      + cbn. apply andb_true_iff. split; [lia|]. apply forallb_forall. intros x Hx%list_elem_of_In. by apply Hg.
      + apply tree_levels_arr, Forall_forall. intros; by apply Hg.
    - cbn [cbor_bytes]. rewrite Elen. by eapply consumed_item. }
  destruct (Z.shiftr b0 5 =? 5).
  { apply bind_Ok in H as ([n r2] & Ha & H). apply readLength_Ok in Ha as [Hn Hc]; [|done..].
    apply bind_Ok in H as ([e r3] & He & H). injection H as <- <-.
    apply (read_entries_good levels) in He as (new & Hp & Hse & Hl & Hg & Hcs); [|done|by eapply consumed_wf|set_solver|by constructor].
    destruct (entries_good levels _ new e _ Hg Hp Hse Hl ltac:(lia) eq_refl) as [Hgood Hlen]. split; [done|].
    assert (len e = n) as Elen by (unfold len; rewrite (Permutation_length Hp); cbn; lia).
    cbn [cbor_bytes]. rewrite Elen. eapply consumed_item; [done|]. destruct Hcs as (bs & -> & Hbs).
    exists bs. split; [done|]. change (fun kv => text_bytes (fst kv) ++ cbor_bytes (snd kv)) with entry_bytes. lia. }
  destruct (Z.shiftr b0 5 =? 6); [done|]. destruct (Z.shiftr b0 5 =? 7); [|done].
  by eapply readSimple_good.
Qed.
End DecoderSound.

(** What [decodeCbor] returns is within the limits, and no shorter than its
    canonical bytes. *)
Lemma decodeCbor_good c o bs t :
  resolveOptions c = Ok o -> bytes_wf bs -> decodeCbor bs c = Ok t ->
  tree_wf t /\ tree_fits o t = true /\ (tree_levels t <= depth_levels o)%nat /\
  len (cbor_bytes t) <= len bs <= maxByteLength o.
Proof.
  intros Hc Hb H. unfold decodeCbor in H. rewrite Hc in H. cbn [mbind result_bind] in H.
  apply bind_Ok in H as (u & Hl & H). apply throw_if_Ok in Hl. apply bind_Ok in H as ([v r] & Hv & H).
  apply bind_Ok in H as (u' & Hr & H). apply throw_if_Ok in Hr. injection H as <-.
  destruct (readItem_good o (resolveOptions_ok _ _ Hc) (depth_levels o) bs v r Hb Hv) as [(Hwf & Hf & Hlev) (x & -> & Hx)].
  split_and!; [done..| |bool_lia]. rewrite len_app. pose proof (len_nonneg r). lia.
Qed.

Lemma arg_bytes_wf m n : 0 <= m < 8 -> 0 <= n -> bytes_wf (arg_bytes m n).
Proof.
  intros Hm Hn. rewrite arg_bytes_split. pose proof (arg_info_bound n Hn). constructor; [unfold byte_ok; lia|].
  unfold arg_rest. repeat split_if; try apply be_bytes_wf. apply Forall_nil_2.
Qed.

Lemma text_bytes_wf s : str_wf s -> bytes_wf (text_bytes s).
Proof.
  intros Hs. apply Forall_app. split; [apply arg_bytes_wf; [lia|apply len_nonneg]|by apply utf8_encode_bytes_wf].
Qed.

Lemma cbor_bytes_wf t : tree_wf t -> bytes_wf (cbor_bytes t).
Proof.
  assert (forall l : list bytes, Forall bytes_wf l -> bytes_wf (concat l)) as Hc.
  { induction 1; cbn; [constructor|by apply Forall_app]. }
  induction t as [|b|n|s|bs|l IH|e IH] using tree_ind; intros Hwf; inversion Hwf as [| | | | |? Hl|? _ Hk Hv]; subst; cbn [cbor_bytes].
  - repeat constructor; lia.
  - destruct b; repeat constructor; lia.
  - destruct n as [z|bits]; unfold num_bytes.
    + destruct (0 <=? z) eqn:E; apply arg_bytes_wf; bool_lia.
    + constructor; [unfold byte_ok; lia|apply be_bytes_wf].
  - by apply text_bytes_wf.
  - apply Forall_app. split; [apply arg_bytes_wf; [lia|apply len_nonneg]|done].
  - apply Forall_app. split; [apply arg_bytes_wf; [lia|apply len_nonneg]|]. apply Hc, Forall_fmap.
    rewrite Forall_forall in *. intros x Hx. by apply IH, Hl.
  - apply Forall_app. split; [apply arg_bytes_wf; [lia|apply len_nonneg]|]. apply Hc, Forall_fmap.
    rewrite Forall_forall in *. intros x Hx. apply Forall_app. split; [by apply text_bytes_wf, Hk|by apply IH, Hv].
Qed.
