(* ===== verification/Framing.v ===== *)
(** [packages/protocol/src/framing.ts]: length-prefixed frames, and the
    incremental decoder that splits arbitrary chunks into them.

    A method of [FrameDecoder] is a function from the state to the new state and
    a result: a throw leaves the mutations made before it.  The part of the
    chunk from [chunkOffset] on is the list [rest]. *)
From S2P Require Import Prelude JsBase.

Inductive frame_err : Type :=
| FrameError (msg : string)
| FrameRangeError (msg : string).

Definition FRAME_HEADER_LENGTH : nat := 4.
Definition FRAME_MAX_UINT32 : Z := 0xffffffff.
Definition PAYLOAD_BLOCK_SIZE : Z := 64 * 1024.
Definition DEFAULT_MAX_FRAME_LENGTH : Z := 16 * 1024 * 1024.

(** [options?.maxFrameLength ?? DEFAULT_MAX_FRAME_LENGTH]; [-0] counts as 0. *)
Definition resolveMaxFrameLength (options : option jsnum) : result frame_err Z :=
  let value := default (NInt DEFAULT_MAX_FRAME_LENGTH) options in
  let z := match value with NInt z => z | NFlt _ => 0 end in
  throw_if (negb (isSafeInteger value) || (z <? 0) || (FRAME_MAX_UINT32 <? z)) (FrameRangeError "maxFrameLength");;
  Ok z.

Definition encodeFrame (payload : bytes) : result frame_err bytes :=
  throw_if (FRAME_MAX_UINT32 <? len payload) (FrameRangeError "Frame payload exceeds the unsigned 32-bit length limit");;
  let length_ := len payload in
  let frame := replicate (FRAME_HEADER_LENGTH + length payload) 0 in
  let frame := <[0%nat := u8 (Z.shiftr (u32 length_) 24)]> frame in
  let frame := <[1%nat := u8 (Z.shiftr (u32 length_) 16)]> frame in
  let frame := <[2%nat := u8 (Z.shiftr (u32 length_) 8)]> frame in
  let frame := <[3%nat := u8 length_]> frame in
  Ok (buf_set frame FRAME_HEADER_LENGTH payload).

(** * The decoder *)

Inductive DecoderState : Type := Open | Ended | Failed.

#[export] Instance DecoderState_eq_dec : EqDecision DecoderState.
Proof. solve_decision. Defined.

(** [currentPayloadBlock] is one of the objects in [payloadBlocks]: its index. *)
Record frame_decoder : Type := FrameDecoder {
  header : bytes;
  headerLength : nat;
  maxFrameLength : Z;
  payloadBlocks : list bytes;
  currentPayloadBlock : option nat;
  currentPayloadBlockLength : nat;
  expectedPayloadLength : option Z;
  payloadLength : Z;
  state : DecoderState;
}.

Definition new_frame_decoder (options : option jsnum) : result frame_err frame_decoder :=
  max ← resolveMaxFrameLength options;
  Ok (FrameDecoder (replicate FRAME_HEADER_LENGTH 0) 0 max [] None 0 None 0 Open).

(** [fail]: reset and throw. *)
Definition fail {A} (st : frame_decoder) (msg : string) : frame_decoder * result frame_err A :=
  (FrameDecoder (header st) 0 (maxFrameLength st) [] None 0 None 0 Failed, Err (FrameError msg)).

(** The block to write into: the current one, or a fresh one when there is none
    or it is full. *)
Definition payload_block (st : frame_decoder) (expected : Z) : list bytes * nat * nat :=
  let fresh :=
    let block := replicate (Z.to_nat (Z.min PAYLOAD_BLOCK_SIZE (expected - payloadLength st))) 0 in
    (payloadBlocks st ++ [block], length (payloadBlocks st), 0%nat) in
  match currentPayloadBlock st with
  | None => fresh
  | Some i =>
      if (currentPayloadBlockLength st =? length (default [] (payloadBlocks st !! i)))%nat then fresh
      else (payloadBlocks st, i, currentPayloadBlockLength st)
  end.

(** One round of the inner loop. *)
Definition fill_block (st : frame_decoder) (expected : Z) (rest : bytes) : frame_decoder * bytes :=
  let '(blocks, i, filled) := payload_block st expected in
  let block := default [] (blocks !! i) in
  let payloadBytes := Nat.min (length block - filled) (length rest) in
  (FrameDecoder (header st) (headerLength st) (maxFrameLength st)
     (<[i := buf_set block filled (take payloadBytes rest)]> blocks) (Some i) (filled + payloadBytes)
     (expectedPayloadLength st) (payloadLength st + Z.of_nat payloadBytes) (state st),
   drop payloadBytes rest).

(** [while (chunkOffset < chunk.byteLength && payloadLength < expected)]: a
    round takes at least one byte, so [length rest] rounds are enough. *)
Fixpoint fill_blocks (fuel : nat) (st : frame_decoder) (expected : Z) (rest : bytes) : frame_decoder * bytes :=
  match fuel, rest with
  | S fuel, _ :: _ =>
      if payloadLength st <? expected then
        let '(st, rest) := fill_block st expected rest in
        fill_blocks fuel st expected rest
      else (st, rest)
  | _, _ => (st, rest)
  end.

(** The payload of a complete frame. *)
Definition join_blocks (expected : Z) (blocks : list bytes) : bytes :=
  match blocks with
  | [block] => block
  | _ =>
      fst (foldl (fun st block => (buf_set (fst st) (snd st) block, (snd st + length block)%nat))
             (replicate (Z.to_nat expected) 0, 0%nat) blocks)
  end.

(** [if (payloadLength === expected)]: emit the frame. *)
Definition finish_payload (st : frame_decoder) (expected : Z) (frames : list bytes) : frame_decoder * list bytes :=
  if payloadLength st =? expected then
    (FrameDecoder (header st) (headerLength st) (maxFrameLength st) [] None 0 None 0 (state st),
     frames ++ [join_blocks expected (payloadBlocks st)])
  else (st, frames).

Definition read_payload (st : frame_decoder) (expected : Z) (frames : list bytes) (rest : bytes)
  : frame_decoder * list bytes * bytes :=
  let '(st, rest) := fill_blocks (length rest) st expected rest in
  let '(st, frames) := finish_payload st expected frames in
  (st, frames, rest).

(** Header bytes from the chunk. *)
Definition read_header (st : frame_decoder) (rest : bytes) : frame_decoder * bytes :=
  let headerBytes := Nat.min (FRAME_HEADER_LENGTH - headerLength st) (length rest) in
  (FrameDecoder (buf_set (header st) (headerLength st) (take headerBytes rest)) (headerLength st + headerBytes)
     (maxFrameLength st) (payloadBlocks st) (currentPayloadBlock st) (currentPayloadBlockLength st)
     (expectedPayloadLength st) (payloadLength st) (state st),
   drop headerBytes rest).

Definition header_value (header : bytes) : Z :=
  match header with
  | [b0; b1; b2; b3] => b0 * 0x1000000 + b1 * 0x10000 + b2 * 0x100 + b3
  | _ => 0
  end.

(** The state after [headerLength = 0] and, for a frame with a payload, with the
    expectation set. *)
Definition clear_header (st : frame_decoder) : frame_decoder :=
  FrameDecoder (header st) 0 (maxFrameLength st) (payloadBlocks st) (currentPayloadBlock st)
    (currentPayloadBlockLength st) (expectedPayloadLength st) (payloadLength st) (state st).

Definition expect_payload (st : frame_decoder) (n : Z) : frame_decoder :=
  FrameDecoder (header st) (headerLength st) (maxFrameLength st) [] None 0 (Some n) 0 (state st).

(** The outer loop of [push]; a round takes at least one byte. *)
Fixpoint push_loop (fuel : nat) (st : frame_decoder) (frames : list bytes) (rest : bytes)
  : frame_decoder * result frame_err (list bytes) :=
  match fuel, rest with
  | S fuel, _ :: _ =>
      match expectedPayloadLength st with
      | None =>
          let '(st, rest) := read_header st rest in
          if (headerLength st <? FRAME_HEADER_LENGTH)%nat then push_loop fuel st frames rest
          else
            let frameLength := header_value (header st) in
            let st := clear_header st in
            if maxFrameLength st <? frameLength then fail st "Frame length exceeds configured limit"
            else if frameLength =? 0 then push_loop fuel st (frames ++ [[]]) rest
            else
              let '(st, frames, rest) := read_payload (expect_payload st frameLength) frameLength frames rest in
              push_loop fuel st frames rest
      | Some expected =>
          let '(st, frames, rest) := read_payload st expected frames rest in
          push_loop fuel st frames rest
      end
  | _, _ => (st, Ok frames)
  end.

Definition push (st : frame_decoder) (chunk : bytes) : frame_decoder * result frame_err (list bytes) :=
  match state st with
  | Ended => (st, Err (FrameError "Frame decoder has ended"))
  | Failed => (st, Err (FrameError "Frame decoder has failed"))
  | Open => push_loop (length chunk) st [] chunk
  end.

Definition end_ (st : frame_decoder) : frame_decoder * result frame_err unit :=
  match state st with
  | Ended => (st, Err (FrameError "Frame decoder has ended"))
  | Failed => (st, Err (FrameError "Frame decoder has failed"))
  | Open =>
      if negb (headerLength st =? 0)%nat || bool_decide (is_Some (expectedPayloadLength st)) then
        fail st "Truncated frame at end of stream"
      else
        (FrameDecoder (header st) (headerLength st) (maxFrameLength st) (payloadBlocks st) (currentPayloadBlock st)
           (currentPayloadBlockLength st) (expectedPayloadLength st) (payloadLength st) Ended, Ok tt)
  end.

(** Chunks pushed one after the other, up to the first that is rejected. *)
Fixpoint push_all (st : frame_decoder) (chunks : list bytes) : frame_decoder * result frame_err (list bytes) :=
  match chunks with
  | [] => (st, Ok [])
  | chunk :: chunks =>
      let '(st, r) := push st chunk in
      match r with
      | Ok frames =>
          let '(st, r) := push_all st chunks in
          (st, rest ← r; Ok (frames ++ rest))
      | Err e => (st, Err e)
      end
  end.

(** * Payload blocks

    [full] are the filled blocks, [blk] is the current one, filled up to
    [filled]. *)

Definition block_repr (blocks : list bytes) (i filled : nat) (n : Z) (content : bytes) : Prop :=
  exists full blk, blocks = full ++ [blk] /\ i = length full /\ (filled <= length blk)%nat /\
    content = concat full ++ take filled blk /\ len (concat full) + len blk <= n.

Definition payload_repr (st : frame_decoder) (n : Z) (content : bytes) : Prop :=
  payloadLength st = len content /\ len content <= n /\
  match currentPayloadBlock st with
  | None => payloadBlocks st = [] /\ content = []
  | Some i => block_repr (payloadBlocks st) i (currentPayloadBlockLength st) n content
  end.

(** Everything but the payload fields. *)
Definition same_frame (st st' : frame_decoder) : Prop :=
  header st' = header st /\ headerLength st' = headerLength st /\ maxFrameLength st' = maxFrameLength st /\
  expectedPayloadLength st' = expectedPayloadLength st /\ state st' = state st.

Lemma payload_block_repr st n content :
  payload_repr st n content -> len content < n ->
  exists blocks i filled, payload_block st n = (blocks, i, filled) /\ block_repr blocks i filled n content /\
    (filled < length (default [] (blocks !! i)))%nat.
Proof.
  intros (Hl & Hn & Hcur) Hlt. unfold payload_block.
  set (block := replicate (Z.to_nat (Z.min PAYLOAD_BLOCK_SIZE (n - payloadLength st))) 0).
  assert (0 < len block <= n - len content) as Hblock.
  { unfold block, len. rewrite length_replicate, Hl. unfold PAYLOAD_BLOCK_SIZE, len in *. lia. }
  assert (forall blocks, concat blocks = content ->
    exists bs i filled, (blocks ++ [block], length blocks, 0%nat) = (bs, i, filled) /\
      block_repr bs i filled n content /\ (filled < length (default [] (bs !! i)))%nat) as Hfresh.
  { intros blocks Hc. exists (blocks ++ [block]), (length blocks), 0%nat. split; [done|]. split.
    - exists blocks, block. rewrite take_0, app_nil_r, Hc. split_and!; [done|done|lia|done|lia].
    - rewrite list_lookup_middle by done. cbn. unfold len in Hblock. lia. }
  destruct (currentPayloadBlock st) as [i|].
  - destruct Hcur as (full & blk & Hb & -> & Hf & -> & Hsum). rewrite Hb, list_lookup_middle by done. change (default [] (Some blk)) with blk. rewrite <- Hb.
    destruct (currentPayloadBlockLength st =? length blk)%nat eqn:E.
    + apply Nat.eqb_eq in E. apply Hfresh. rewrite Hb, concat_app. cbn. rewrite app_nil_r, E.
      by rewrite take_ge.
    + apply Nat.eqb_neq in E. do 3 eexists. split; [done|]. split; [by exists full, blk|].
      rewrite Hb, list_lookup_middle by done. cbn. lia.
  - destruct Hcur as [-> ->]. by apply (Hfresh []).
Qed.

Lemma fill_block_repr st n content rest :
  payload_repr st n content -> len content < n -> rest <> [] ->
  exists k st', fill_block st n rest = (st', drop k rest) /\ payload_repr st' n (content ++ take k rest) /\
    same_frame st st' /\ (0 < k <= length rest)%nat /\ len content + Z.of_nat k <= n.
Proof.
  intros Hp Hlt Hrest. destruct (payload_block_repr _ _ _ Hp Hlt) as (blocks & i & filled & E & Hb & Hfill).
  unfold fill_block. rewrite E. destruct Hp as (Hl & Hn & _).
  destruct Hb as (full & blk & -> & -> & Hf & -> & Hsum). rewrite list_lookup_middle in * by done. change (default [] (Some blk)) with blk in *.
  set (k := Nat.min (length blk - filled) (length rest)).
  assert (0 < k <= length rest)%nat as Hk by (destruct rest; [done|]; cbn in *; lia).
  rewrite len_app in *. assert (len (take filled blk) = Z.of_nat filled) as Hft by (unfold len; rewrite length_take; lia).
  exists k. eexists. split; [done|]. unfold payload_repr, same_frame. cbn [payloadLength payloadBlocks currentPayloadBlock currentPayloadBlockLength].
  assert (length (take k rest) = k) as Htk by (rewrite length_take; lia).
  split; [|split; [by split_and!|split; [done|unfold len in *; lia]]].
  split; [rewrite Hl; unfold len; rewrite !length_app, Htk; lia|].
  split; [unfold len in *; rewrite !length_app, Htk; lia|].
  exists full, (buf_set blk filled (take k rest)). rewrite insert_app_r_alt, Nat.sub_diag by lia. cbn [list_insert insert].
  rewrite length_buf_set by lia.
  split_and!; [done|done|lia| |unfold len in *; rewrite length_buf_set by lia; lia].
  rewrite <- app_assoc. f_equal. rewrite <- Htk at 2. by rewrite take_buf_set.
Qed.

Lemma fill_blocks_repr fuel : forall st n content rest,
  payload_repr st n content -> (length rest <= fuel)%nat ->
  exists k st', fill_blocks fuel st n rest = (st', drop k rest) /\ payload_repr st' n (content ++ take k rest) /\
    same_frame st st' /\ k = Nat.min (length rest) (Z.to_nat (n - len content)).
Proof.
  assert (forall st n content rest, payload_repr st n content -> rest = [] \/ n <= len content ->
    exists k st', (st, rest) = (st', drop k rest) /\ payload_repr st' n (content ++ take k rest) /\
    same_frame st st' /\ k = Nat.min (length rest) (Z.to_nat (n - len content))) as Hstop.
  { intros st n content rest Hp Hor. exists 0%nat, st. rewrite drop_0, take_0, app_nil_r.
    split_and!; [done|done|done|]. destruct Hor as [->|Hle]; [done|lia]. }
  induction fuel as [|fuel IH]; intros st n content rest Hp Hf; cbn [fill_blocks].
  { apply Hstop; [done|left]. by destruct rest; [|cbn in Hf; lia]. }
  destruct rest as [|b rest0] eqn:Er; [apply Hstop; auto|]. rewrite <- Er in *.
  destruct (payloadLength st <? n) eqn:E.
  2:{ apply Hstop; [done|right]. destruct Hp as (<- & _). bool_lia. }
  assert (len content < n) as Hlt by (destruct Hp as (<- & _); bool_lia).
  destruct (fill_block_repr st n content rest Hp Hlt ltac:(by subst)) as (k & st1 & -> & Hp1 & Hs1 & Hk & Hkn).
  destruct (IH st1 n (content ++ take k rest) (drop k rest) Hp1) as (k2 & st2 & -> & Hp2 & Hs2 & Hk2).
  { rewrite length_drop. lia. }
  exists (k + k2)%nat, st2. rewrite <- app_assoc, take_take_drop, drop_drop in *.
  split_and!; [done|done| |].
  - destruct Hs1 as (? & ? & ? & ? & ?), Hs2 as (? & ? & ? & ? & ?). unfold same_frame. split_and!; congruence.
  - unfold len in *. rewrite length_app, length_take, length_drop in *. lia.
Qed.

Lemma join_blocks_concat n blocks : len (concat blocks) = n -> join_blocks n blocks = concat blocks.
Proof.
  intros Hn. assert (forall bs buf off, (off + length (concat bs) <= length buf)%nat ->
    let st := foldl (fun st block => (buf_set (fst st) (snd st) block, (snd st + length block)%nat)) (buf, off) bs in
    snd st = (off + length (concat bs))%nat /\ take (snd st) (fst st) = take off buf ++ concat bs /\
    length (fst st) = length buf) as Hfold.
  { induction bs as [|b bs IH]; intros buf off Hlen; cbn [foldl concat fst snd] in *.
    { rewrite app_nil_r. cbn. split_and!; [lia|done|done]. }
    rewrite length_app in Hlen. destruct (IH (buf_set buf off b) (off + length b)%nat) as (H1 & H2 & H3).
    { rewrite length_buf_set; lia. }
    rewrite length_app. split_and!; [lia| |].
    - rewrite H2, take_buf_set by lia. by rewrite app_assoc.
    - rewrite H3. apply length_buf_set. lia. }
  assert (forall bs, len (concat bs) = n -> fst (foldl (fun st block => (buf_set (fst st) (snd st) block, (snd st + length block)%nat))
    (replicate (Z.to_nat n) 0, 0%nat) bs) = concat bs) as H.
  { intros bs Hbs. unfold len in Hbs. destruct (Hfold bs (replicate (Z.to_nat n) 0) 0%nat) as (H1 & H2 & H3).
    { rewrite length_replicate. lia. }
    rewrite length_replicate in H3. rewrite take_0 in H2. cbn [app] in H2. rewrite <- H2.
    symmetry. apply take_ge. lia. }
  unfold join_blocks. destruct blocks as [|b [|b2 blocks]]; [by apply H|cbn; by rewrite app_nil_r|by apply H].
Qed.

Lemma payload_repr_full st n content :
  payload_repr st n content -> 0 < n -> len content = n -> join_blocks n (payloadBlocks st) = content.
Proof.
  intros (Hl & Hn & Hcur) Hpos Hfull. destruct (currentPayloadBlock st) as [i|]; [|destruct Hcur as [_ ->]; change (len (@nil Z)) with 0 in Hfull; lia].
  destruct Hcur as (full & blk & -> & -> & Hf & -> & Hsum). rewrite len_app in Hfull.
  assert (take (currentPayloadBlockLength st) blk = blk) as Ht.
  { apply take_ge. unfold len in *. rewrite length_take in Hfull. lia. }
  rewrite Ht in *. replace (concat full ++ blk) with (concat (full ++ [blk])) by (rewrite concat_app; cbn; by rewrite app_nil_r).
  apply join_blocks_concat. rewrite concat_app, len_app. cbn. rewrite app_nil_r. lia.
Qed.

(** * Framed streams *)

Definition frame_bytes (p : bytes) : bytes := be_bytes FRAME_HEADER_LENGTH (len p) ++ p.

Definition frame_ok (max : Z) (p : bytes) : Prop := len p <= max.

(** What is left of a stream when no frame is complete. *)
Definition incomplete (max : Z) (bs : bytes) : Prop :=
  (length bs < FRAME_HEADER_LENGTH)%nat \/
  exists n content, bs = be_bytes FRAME_HEADER_LENGTH n ++ content /\ 0 < n <= max /\ len content < n.

(** [splits max bs frames rem]: [bs] is [frames], framed, and the incomplete
    [rem]; [overlong max bs]: a header in [bs] announces more than [max]. *)
Inductive splits (max : Z) : bytes -> list bytes -> bytes -> Prop :=
| splits_nil rem : incomplete max rem -> splits max rem [] rem
| splits_cons bs p r frames rem :
    bs = frame_bytes p ++ r -> frame_ok max p -> splits max r frames rem -> splits max bs (p :: frames) rem.

Inductive overlong (max : Z) : bytes -> Prop :=
| overlong_here bs n r : bs = be_bytes FRAME_HEADER_LENGTH n ++ r -> max < n < 2 ^ 32 -> overlong max bs
| overlong_next bs p r : bs = frame_bytes p ++ r -> frame_ok max p -> overlong max r -> overlong max bs.

Definition max_ok (max : Z) : Prop := 0 <= max <= FRAME_MAX_UINT32.

Lemma be4_inj n m r1 r2 :
  0 <= n < 2 ^ 32 -> 0 <= m < 2 ^ 32 ->
  be_bytes FRAME_HEADER_LENGTH n ++ r1 = be_bytes FRAME_HEADER_LENGTH m ++ r2 -> n = m /\ r1 = r2.
Proof.
  intros Hn Hm E. apply app_inj_1 in E as [E ->]; [|by rewrite !length_be_bytes]. split; [|done].
  rewrite <- (be_value_be_bytes_small FRAME_HEADER_LENGTH n Hn), <- (be_value_be_bytes_small FRAME_HEADER_LENGTH m Hm). by rewrite E.
Qed.

Lemma frame_ok_u32 max p : max_ok max -> frame_ok max p -> 0 <= len p < 2 ^ 32.
Proof. unfold max_ok, frame_ok, FRAME_MAX_UINT32. pose proof (len_nonneg p). lia. Qed.

Lemma incomplete_not_frame max p r : max_ok max -> frame_ok max p -> ~ incomplete max (frame_bytes p ++ r).
Proof.
  intros Hm Hp [H|(n & c & E & Hn & Hc)]; unfold frame_bytes in *; rewrite <- app_assoc in *.
  - rewrite length_app, length_be_bytes in H. lia.
  - apply be4_inj in E as [<- <-]; [|by eapply frame_ok_u32|unfold max_ok, FRAME_MAX_UINT32 in *; lia].
    rewrite len_app in Hc. pose proof (len_nonneg r). lia.
Qed.

Lemma frame_bytes_inj max p1 p2 r1 r2 :
  max_ok max -> frame_ok max p1 -> frame_ok max p2 ->
  frame_bytes p1 ++ r1 = frame_bytes p2 ++ r2 -> p1 = p2 /\ r1 = r2.
Proof.
  intros Hm H1 H2 E. unfold frame_bytes in E. rewrite <- !app_assoc in E.
  apply be4_inj in E as [El E]; [|by eapply frame_ok_u32..].
  apply app_inj_1 in E; [done|unfold len in El; lia].
Qed.

Lemma overlong_not_frame max n p r1 r2 :
  max_ok max -> frame_ok max p -> max < n < 2 ^ 32 -> be_bytes FRAME_HEADER_LENGTH n ++ r1 <> frame_bytes p ++ r2.
Proof.
  intros Hm Hp Hn E. unfold frame_bytes in E. rewrite <- app_assoc in E. unfold frame_ok in Hp.
  apply be4_inj in E as [-> _]; [lia|unfold max_ok in Hm; lia|by eapply frame_ok_u32].
Qed.

Lemma splits_fun max bs f1 r1 f2 r2 :
  max_ok max -> splits max bs f1 r1 -> splits max bs f2 r2 -> f1 = f2 /\ r1 = r2.
Proof.
  intros Hm H1. revert f2 r2. induction H1 as [rem Hi|bs p r frames rem E Hp _ IH]; intros f2 r2 H2;
    inversion H2 as [? Hi2|? p2 r' frames2 ? E2 Hp2 Hs]; subst; try by eapply incomplete_not_frame in Hi.
  - done.
  - by eapply incomplete_not_frame in Hi2.
  - eapply frame_bytes_inj in E2 as [-> ->]; [|done..]. by destruct (IH _ _ Hs) as [-> ->].
Qed.

Lemma splits_not_overlong max bs f r : max_ok max -> splits max bs f r -> ~ overlong max bs.
Proof.
  intros Hm H. induction H as [rem Hi|bs p r frames rem E Hp _ IH]; intros Ho;
    inversion Ho as [? n r' E' Hn|? p' r' E' Hp' Ho']; subst.
  - destruct Hi as [H|(n' & c & E & Hn' & _)]; [rewrite length_app, length_be_bytes in H; lia|].
    unfold max_ok, FRAME_MAX_UINT32 in Hm. apply be4_inj in E as [-> _]; lia.
  - by eapply incomplete_not_frame in Hi.
  - symmetry in E'. by eapply overlong_not_frame in E'.
  - eapply frame_bytes_inj in E' as [-> ->]; [|done..]. by apply IH.
Qed.

Lemma splits_app max a f1 r1 b f2 r2 :
  splits max a f1 r1 -> splits max (r1 ++ b) f2 r2 -> splits max (a ++ b) (f1 ++ f2) r2.
Proof.
  intros H. induction H as [|bs p r f rem -> Hp _ IH]; cbn; [done|]. intros H.
  rewrite <- app_assoc. econstructor; [done|done|by apply IH].
Qed.

Lemma overlong_app_l max a f1 r1 b : splits max a f1 r1 -> overlong max (r1 ++ b) -> overlong max (a ++ b).
Proof.
  intros H. induction H as [|bs p r f rem -> Hp _ IH]; cbn; [done|]. intros H.
  rewrite <- app_assoc. econstructor 2; [done|done|by apply IH].
Qed.

Lemma overlong_app max a b : overlong max a -> overlong max (a ++ b).
Proof.
  induction 1 as [bs n r -> Hn|bs p r -> Hp _ IH]; rewrite <- app_assoc; [by econstructor|by econstructor 2].
Qed.

(** * The decoder computes the split *)

(** The decoder [st] has read [p] since the last complete frame. *)
Definition frame_repr (max : Z) (st : frame_decoder) (p : bytes) : Prop :=
  state st = Open /\ maxFrameLength st = max /\ length (header st) = FRAME_HEADER_LENGTH /\ bytes_wf p /\
  match expectedPayloadLength st with
  | None => (headerLength st < FRAME_HEADER_LENGTH)%nat /\ p = take (headerLength st) (header st)
  | Some n =>
      headerLength st = 0%nat /\ 0 < n <= max /\
      exists content, p = be_bytes FRAME_HEADER_LENGTH n ++ content /\ payload_repr st n content /\ len content < n
  end.

Lemma frame_repr_incomplete max st p : frame_repr max st p -> incomplete max p.
Proof.
  intros (_ & _ & Hh & _ & H). destruct (expectedPayloadLength st) as [n|].
  - destruct H as (_ & Hn & content & -> & _ & Hc). right. eauto.
  - destruct H as [Hl ->]. left. rewrite length_take. lia.
Qed.

Lemma header_value_be header : length header = FRAME_HEADER_LENGTH -> header_value header = be_value header.
Proof.
  intros H. destruct header as [|b0 [|b1 [|b2 [|b3 [|]]]]]; try done. unfold be_value. cbn [foldl header_value]. lia.
Qed.

Lemma read_payload_repr max st n content frames rest :
  state st = Open -> maxFrameLength st = max -> length (header st) = FRAME_HEADER_LENGTH -> headerLength st = 0%nat ->
  expectedPayloadLength st = Some n -> 0 < n <= max ->
  payload_repr st n content -> len content < n -> bytes_wf content -> bytes_wf rest ->
  exists st' frames' rest', read_payload st n frames rest = (st', frames', rest') /\
    ((frames' = frames /\ rest' = [] /\ len (content ++ rest) < n /\
      frame_repr max st' (be_bytes FRAME_HEADER_LENGTH n ++ content ++ rest)) \/
     (exists payload, frames' = frames ++ [payload] /\ content ++ rest = payload ++ rest' /\ len payload = n /\
      frame_repr max st' [] /\ (rest = [] \/ (length rest' < length rest)%nat))).
Proof.
  intros Hst Hmax Hh Hhl He Hn Hp Hc Hcw Hrw.
  destruct (fill_blocks_repr (length rest) st n content rest Hp (le_n _)) as (k & st1 & E & Hp1 & (H1 & H2 & H3 & H4 & H5) & Hk).
  unfold read_payload. rewrite E. unfold finish_payload. assert (Hp1' := Hp1). destruct Hp1' as (Hl1 & Hn1 & _).
  rewrite Hl1. destruct (len (content ++ take k rest) =? n) eqn:En.
  - apply Z.eqb_eq in En. do 3 eexists. split; [done|]. right. exists (content ++ take k rest).
    rewrite <- (payload_repr_full st1 n _ Hp1) at 1; [|lia|done]. split; [done|].
    rewrite <- app_assoc, take_drop. split; [done|]. split; [done|]. split.
    + unfold frame_repr. cbn. rewrite H1, H3, H5. cbn in *. rewrite H2, Hhl. cbn.
      split_and!; try done; [apply Forall_nil_2|unfold FRAME_HEADER_LENGTH; lia].
    + destruct rest as [|b rest]; [by left|]. right. rewrite length_drop. rewrite len_app in En.
      unfold len in *. rewrite length_take in En. cbn [length] in *. lia.
  - apply Z.eqb_neq in En. assert (k = length rest) as ->.
    { rewrite len_app in *. unfold len in *. rewrite length_take in *. lia. }
    rewrite take_ge in * by lia. rewrite drop_ge by lia.
    do 3 eexists. split; [done|]. left. split_and!; [done|done|lia|].
    unfold frame_repr. rewrite H1, H2, H3, H4, H5, He. split_and!; try done.
    + apply Forall_app. split; [apply be_bytes_wf|by apply Forall_app].
    + lia.
    + lia.
    + exists (content ++ rest). split_and!; [done|done|lia].
Qed.

(** What a call that returns or throws has computed, the bytes [bs] being those
    since the last complete frame. *)
Definition pushed (max : Z) (bs : bytes) (r : frame_decoder * result frame_err (list bytes)) (frames : list bytes) : Prop :=
  (exists st' fs p', r = (st', Ok (frames ++ fs)) /\ splits max bs fs p' /\ frame_repr max st' p') \/
  (exists st' e, r = (st', Err e) /\ state st' = Failed /\ overlong max bs).

Lemma pushed_frame max p bs r frames :
  frame_ok max p -> pushed max bs r (frames ++ [p]) -> pushed max (frame_bytes p ++ bs) r frames.
Proof.
  intros Hp [(st & fs & p' & -> & Hs & Hr)|(st & e & -> & Hst & Ho)].
  - left. exists st, (p :: fs), p'. rewrite <- app_assoc. split_and!; [done| |done]. by econstructor.
  - right. exists st, e. split_and!; [done|done|]. by econstructor 2.
Qed.

Lemma bytes_wf_app a b : bytes_wf (a ++ b) <-> bytes_wf a /\ bytes_wf b.
Proof. apply Forall_app. Qed.

Lemma pushed_nil max st p frames : frame_repr max st p -> pushed max (p ++ []) (st, Ok frames) frames.
Proof.
  intros H. left. exists st, [], p. rewrite !app_nil_r. split_and!; [done| |done].
  constructor. by eapply frame_repr_incomplete.
Qed.

Section PushLoop.
Variable max : Z.
Hypothesis Hmax : max_ok max.
Variable fuel : nat.
Hypothesis IH : forall st p frames rest,
  frame_repr max st p -> bytes_wf rest -> (length rest <= fuel)%nat -> pushed max (p ++ rest) (push_loop fuel st frames rest) frames.

Lemma push_payload st n content frames rest :
  state st = Open -> maxFrameLength st = max -> length (header st) = FRAME_HEADER_LENGTH -> headerLength st = 0%nat ->
  expectedPayloadLength st = Some n -> 0 < n <= max ->
  payload_repr st n content -> len content < n -> bytes_wf content -> bytes_wf rest ->
  (length rest <= fuel)%nat \/ (rest <> [] /\ length rest <= S fuel)%nat ->
  pushed max (be_bytes FRAME_HEADER_LENGTH n ++ content ++ rest)
    (let '(st, frames, rest) := read_payload st n frames rest in push_loop fuel st frames rest) frames.
Proof.
  intros Hst Hm Hh Hhl He Hn Hp Hc Hcw Hrw Hf.
  destruct (read_payload_repr max st n content frames rest) as (st' & frames' & rest' & -> & Hcases); try done.
  destruct Hcases as [(-> & -> & Hlt & Hr)|(payload & -> & E & Hl & Hr & Hrest)].
  - rewrite <- (app_nil_r (be_bytes _ n ++ content ++ rest)). apply IH; [done|apply Forall_nil_2|cbn; lia].
  - rewrite E. assert (bytes_wf (payload ++ rest')) as [_ Hw]%bytes_wf_app by (rewrite <- E; by apply bytes_wf_app).
    rewrite app_assoc. assert (be_bytes FRAME_HEADER_LENGTH n ++ payload = frame_bytes payload) as ->.
    { unfold frame_bytes. by rewrite Hl. }
    apply pushed_frame; [unfold frame_ok; lia|]. apply (IH _ []); [done|done|].
    destruct Hrest as [->|]; [|lia]. destruct Hf as [|[]]; [|done]. cbn in *.
    destruct rest'; [cbn; lia|]. apply (f_equal length) in E. rewrite !length_app in E. cbn in E.
    unfold len in *. lia.
Qed.

(** A complete header. *)
Lemma push_header st p rest st1 rest1 :
  frame_repr max st p -> expectedPayloadLength st = None -> rest <> [] -> bytes_wf rest -> (length rest <= S fuel)%nat ->
  read_header st rest = (st1, rest1) ->
  (headerLength st1 < FRAME_HEADER_LENGTH)%nat /\ rest1 = [] /\ frame_repr max st1 (p ++ rest) \/
  headerLength st1 = FRAME_HEADER_LENGTH /\ (length rest1 <= fuel)%nat /\ bytes_wf (header st1) /\ bytes_wf rest1 /\
  length (header st1) = FRAME_HEADER_LENGTH /\ p ++ rest = header st1 ++ rest1 /\ maxFrameLength st1 = max /\
  state st1 = Open /\ expectedPayloadLength st1 = None.
Proof.
  intros (Hst & Hm & Hh & Hw & H) He Hne Hrw Hf E. rewrite He in H. destruct H as [Hl ->].
  unfold read_header in E. injection E as <- <-. cbn [headerLength header].
  set (k := Nat.min (FRAME_HEADER_LENGTH - headerLength st) (length rest)).
  assert (0 < k <= length rest)%nat as Hk by (unfold k; destruct rest; [done|cbn [length]; lia]).
  assert (length (take k rest) = k) as Htk by (rewrite length_take; lia).
  assert (take (headerLength st + k) (buf_set (header st) (headerLength st) (take k rest)) =
    take (headerLength st) (header st) ++ take k rest) as Hset.
  { rewrite <- Htk at 1. apply take_buf_set. lia. }
  assert (length (buf_set (header st) (headerLength st) (take k rest)) = FRAME_HEADER_LENGTH) as Hlen.
  { rewrite length_buf_set; lia. }
  destruct (decide (headerLength st + k < FRAME_HEADER_LENGTH)%nat) as [Hlt|Hge].
  - left. assert (k = length rest) as Ek by lia. split; [done|]. rewrite Ek, drop_all. split; [done|].
    rewrite Ek, (take_ge rest) in * by lia. unfold frame_repr. cbn. rewrite He, Hset. split_and!; try done.
    by apply bytes_wf_app.
  - right. assert (headerLength st + k = FRAME_HEADER_LENGTH)%nat as Ek by lia.
    assert (buf_set (header st) (headerLength st) (take k rest) = take (headerLength st) (header st) ++ take k rest) as Hfull.
    { rewrite <- Hset. symmetry. apply take_ge. lia. }
    rewrite Hfull in *. split_and!; try done.
    + rewrite length_drop. lia.
    + apply bytes_wf_app. split; [done|by apply Forall_take].
    + by apply Forall_drop.
    + by rewrite <- app_assoc, take_drop.
Qed.
End PushLoop.

Lemma push_loop_spec max fuel : max_ok max -> forall st p frames rest,
  frame_repr max st p -> bytes_wf rest -> (length rest <= fuel)%nat ->
  pushed max (p ++ rest) (push_loop fuel st frames rest) frames.
Proof.
  intros Hmax. induction fuel as [|fuel IH]; intros st p frames rest Hr Hw Hf.
  { destruct rest; [|cbn in Hf; lia]. by apply pushed_nil. }
  destruct rest as [|b rest0] eqn:Er; [by apply pushed_nil|]. rewrite <- Er in *. assert (rest <> []) as Hne by by subst.
  assert (push_loop (S fuel) st frames rest =
    match expectedPayloadLength st with
    | None =>
        let '(st, rest) := read_header st rest in
        if (headerLength st <? FRAME_HEADER_LENGTH)%nat then push_loop fuel st frames rest
        else
          let frameLength := header_value (header st) in
          let st := clear_header st in
          if maxFrameLength st <? frameLength then fail st "Frame length exceeds configured limit"
          else if frameLength =? 0 then push_loop fuel st (frames ++ [[]]) rest
          else
            let '(st, frames, rest) := read_payload (expect_payload st frameLength) frameLength frames rest in
            push_loop fuel st frames rest
    | Some expected =>
        let '(st, frames, rest) := read_payload st expected frames rest in
        push_loop fuel st frames rest
    end) as -> by by rewrite Er.
  destruct (expectedPayloadLength st) as [n|] eqn:He.
  - assert (Hr' := Hr). destruct Hr' as (Hst & Hm & Hh & Hpw & H). rewrite He in H.
    destruct H as (Hhl & Hn & content & -> & Hp & Hc). rewrite <- app_assoc. apply bytes_wf_app in Hpw as [_ Hcw].
    apply push_payload; auto.
  - destruct (read_header st rest) as [st1 rest1] eqn:Eh.
    destruct (push_header max fuel _ _ _ _ _ Hr He Hne Hw Hf Eh)
      as [(Hl & -> & Hr1)|(Hl & Hf1 & Hhw & Hw1 & Hh & Hb & Hm & Hst & He1)].
    + assert ((headerLength st1 <? FRAME_HEADER_LENGTH)%nat = true) as -> by by apply Nat.ltb_lt.
      rewrite <- (app_nil_r (p ++ rest)). apply IH; [done|apply Forall_nil_2|cbn; lia].
    + assert ((headerLength st1 <? FRAME_HEADER_LENGTH)%nat = false) as -> by (apply Nat.ltb_ge; lia). cbv zeta.
      rewrite header_value_be by done. pose proof (be_value_bound _ Hhw) as Hv. rewrite Hh in Hv.
      pose proof (be_bytes_be_value _ Hhw) as Hbe. rewrite Hh in Hbe.
      change (2 ^ (8 * Z.of_nat FRAME_HEADER_LENGTH)) with (2 ^ 32) in Hv.
      set (n := be_value (header st1)) in *. rewrite Hb, <- Hbe. clearbody n.
      cbn [clear_header maxFrameLength]. rewrite Hm. destruct (max <? n) eqn:En.
      * right. unfold fail. do 2 eexists. split; [done|]. split; [done|]. econstructor; [done|]. bool_lia.
      * destruct (n =? 0) eqn:E0.
        -- apply Z.eqb_eq in E0. rewrite E0. change (be_bytes FRAME_HEADER_LENGTH 0) with (frame_bytes []).
           apply pushed_frame; [unfold frame_ok, max_ok in *; change (len (@nil Z)) with 0; lia|]. apply (IH _ []); [|done|done].
           unfold frame_repr. cbn. rewrite He1. split_and!; try done; [apply Forall_nil_2|unfold FRAME_HEADER_LENGTH; lia].
        -- assert (0 < n <= max) as Hn by bool_lia.
           assert (len (@nil Z) < n) as Hn0 by (change (len (@nil Z)) with 0; lia).
           apply (push_payload max fuel IH _ n []); try done; [|apply Forall_nil_2|by left].
           unfold payload_repr. cbn [payloadLength currentPayloadBlock payloadBlocks expect_payload].
           split_and!; try done. lia.
Qed.

(** * Whole streams *)

Lemma push_spec max st p chunk :
  max_ok max -> frame_repr max st p -> bytes_wf chunk -> pushed max (p ++ chunk) (push st chunk) [].
Proof.
  intros Hm Hr Hw. unfold push. pose proof (push_loop_spec max (length chunk) Hm st p [] chunk Hr Hw (le_n _)) as H.
  destruct Hr as (-> & _). exact H.
Qed.

Lemma resolveMaxFrameLength_ok o max : resolveMaxFrameLength o = Ok max -> max_ok max.
Proof.
  unfold resolveMaxFrameLength. intros H. res_inv.
  match goal with H : (_ || _) = false |- _ => apply orb_false_iff in H as [[_ ?]%orb_false_iff ?] end.
  unfold max_ok. bool_lia.
Qed.

Lemma new_frame_decoder_repr o st :
  new_frame_decoder o = Ok st -> exists max, resolveMaxFrameLength o = Ok max /\ max_ok max /\ frame_repr max st [].
Proof.
  unfold new_frame_decoder. intros H. apply bind_Ok in H as (max & Hm & H). injection H as <-. exists max.
  split; [done|]. split; [by eapply resolveMaxFrameLength_ok|].
  unfold frame_repr. cbn. split_and!; try done; [apply Forall_nil_2|unfold FRAME_HEADER_LENGTH; lia].
Qed.

(** Chunks pushed one after the other: the frames are those of the
    concatenation, or the concatenation announces an overlong frame. *)
Lemma push_all_spec max chunks : max_ok max -> forall st p,
  frame_repr max st p -> Forall bytes_wf chunks -> pushed max (p ++ concat chunks) (push_all st chunks) [].
Proof.
  intros Hm. induction chunks as [|c chunks IH]; intros st p Hr Hw; cbn [push_all concat].
  { by apply pushed_nil. }
  apply Forall_cons in Hw as [Hc Hw].
  destruct (push_spec max st p c Hm Hr Hc) as [(st1 & fs & p1 & E & Hs & Hr1)|(st1 & e & E & Hst & Ho)]; rewrite E.
  - cbn [app]. destruct (IH st1 p1 Hr1 Hw) as [(st2 & fs2 & p2 & E2 & Hs2 & Hr2)|(st2 & e & E2 & Hst & Ho)]; rewrite E2; cbn.
    + left. exists st2, (fs ++ fs2), p2. split_and!; [done| |done]. rewrite app_assoc. by eapply splits_app.
    + right. exists st2, e. split_and!; [done|done|]. rewrite app_assoc. by eapply overlong_app_l.
  - right. exists st1, e. split_and!; [done|done|]. rewrite app_assoc. by apply overlong_app.
Qed.

Lemma encodeFrame_bytes p : len p <= FRAME_MAX_UINT32 -> encodeFrame p = Ok (frame_bytes p).
Proof.
  intros Hp. unfold encodeFrame. assert ((FRAME_MAX_UINT32 <? len p) = false) as -> by lia.
  cbn [throw_if mbind result_bind]. f_equal. unfold FRAME_HEADER_LENGTH. rewrite replicate_add. cbn [replicate app list_insert insert].
  unfold buf_set, frame_bytes, FRAME_HEADER_LENGTH. cbn [take app].
  rewrite (drop_ge _ (4 + length p)) by (cbn [length]; rewrite length_replicate; lia). rewrite app_nil_r.
  pose proof (len_nonneg p). unfold FRAME_MAX_UINT32 in Hp. unfold u8, u32. rewrite !Z.shiftr_div_pow2, (Z.mod_small (len p)) by lia.
  unfold be_bytes. cbn [app]. by rewrite Z.div_1_r.
Qed.

Lemma encodeFrame_Ok p f : encodeFrame p = Ok f -> f = frame_bytes p /\ len p <= FRAME_MAX_UINT32.
Proof.
  intros H. assert (len p <= FRAME_MAX_UINT32) as Hp.
  { unfold encodeFrame in H. res_inv. bool_lia. }
  rewrite encodeFrame_bytes in H by done. by injection H as <-.
Qed.

Lemma splits_frames max ps : Forall (frame_ok max) ps -> splits max (concat (frame_bytes <$> ps)) ps [].
Proof.
  induction 1 as [|p ps Hp _ IH]; cbn.
  - constructor. left. cbn. unfold FRAME_HEADER_LENGTH. lia.
  - by econstructor.
Qed.

(** [end] succeeds exactly at a frame boundary. *)
Lemma end_Ok max st p st' u : frame_repr max st p -> end_ st = (st', Ok u) <-> p = [] /\ end_ st = (st', Ok tt).
Proof.
  intros (Hst & _ & Hh & _ & H). unfold end_. rewrite Hst. destruct (expectedPayloadLength st) as [n|].
  - destruct H as (Hhl & Hn & c & -> & _). rewrite orb_true_r. split; [done|]. intros [E _].
    apply (f_equal length) in E. rewrite length_app, length_be_bytes in E. done.
  - destruct H as [Hl ->]. cbn [is_Some]. rewrite bool_decide_eq_false_2 by by intros []. rewrite orb_false_r.
    destruct (headerLength st =? 0)%nat eqn:E; cbn [negb].
    + apply Nat.eqb_eq in E. rewrite E, take_0. destruct u. naive_solver.
    + apply Nat.eqb_neq in E. split; [done|]. intros [E' _]. apply (f_equal length) in E'. rewrite length_take in E'. cbn in E'. lia.
Qed.

Lemma end_boundary max st : frame_repr max st [] -> exists st', end_ st = (st', Ok tt).
Proof.
  intros (Hst & _ & Hh & _ & H). unfold end_. rewrite Hst. destruct (expectedPayloadLength st) as [n|].
  - destruct H as (_ & _ & c & E & _). apply (f_equal length) in E. rewrite length_app, length_be_bytes in E. done.
  - destruct H as [Hl E]. rewrite bool_decide_eq_false_2 by by intros [].
    apply (f_equal length) in E. rewrite length_take in E. cbn in E.
    assert (headerLength st = 0)%nat as -> by lia. cbn. eauto.
Qed.
