(* ===== verification/Protocol.v ===== *)
(** [packages/protocol/src/codec.ts]: validated, framed protocol messages.

    The schema check ([Check] of typebox) is third-party code: [Check] on
    a value of the store and [CheckTree] on decoded data are parameters. *)
From S2P Require Import Prelude JsBase Json JsHeap Cbor CborSpec Framing.

Definition PROTOCOL_VERSION : Z := 8.

(** An error of this module: its message. *)
Inductive protocol_err : Type := ProtocolValidationError (msg : jsstr).

(** [boundedErrorMessage]: the message of the error, [None] where the value
    thrown is not an [Error]. *)
Definition boundedErrorMessage (error : option jsstr) : jsstr :=
  match error with
  | None => js "Unknown codec error"
  | Some message => if (length message <=? 500)%nat then message else take 497 message ++ js "..."
  end.

Definition cbor_message (e : cbor_err) : jsstr := match e with CborError m | RangeError m => js m end.
Definition frame_message (e : frame_err) : jsstr := match e with FrameError m | FrameRangeError m => js m end.

Definition isSupportedProtocolVersion (version : jsnum) : bool :=
  isInteger version && num_strict_eq version (NInt PROTOCOL_VERSION).

(** [isJsonValue] on decoded data, which is a tree of fresh objects. *)
Fixpoint is_json_tree (levels : nat) (t : tree) : bool :=
  match levels with
  | O => false
  | S levels =>
      match t with
      | TNull | TBool _ | TStr _ => true
      | TNum n => isFinite n
      | TBytes _ => false
      | TArr l => forallb (is_json_tree levels) l
      | TObj o => forallb (fun kv => is_json_tree levels (snd kv)) o
      end
  end.

Section Codec.
(** The kind of messages, and the schema check on a value and on a tree. *)
Variable kind : string.
Variable Check : heap -> val -> bool.
Variable CheckTree : tree -> bool.

Definition invalid_message : protocol_err :=
  ProtocolValidationError (js ("Invalid " ++ kind ++ " protocol message")).

(** [parseClientMessage], [parseServerMessage]. *)
Definition parseMessage (h : heap) (value : val) : result protocol_err val :=
  throw_if (negb (Check h value) || negb (isJsonValue h value)) invalid_message;;
  Ok value.

Definition parseTree (value : tree) : result protocol_err tree :=
  throw_if (negb (CheckTree value) || negb (is_json_tree json_max_levels value)) invalid_message;;
  Ok value.

Definition cbor_options (maxFrameLength : option jsnum) : CborOptions :=
  CborOptions_ (Some (default (NInt DEFAULT_MAX_FRAME_LENGTH) maxFrameLength)) None None.

Definition encodeProtocolMessage (h : heap) (value : val) (options : option jsnum) : result protocol_err bytes :=
  validated ← parseMessage h value;
  let wrap (m : jsstr) :=
    ProtocolValidationError (js ("Unable to encode " ++ kind ++ " protocol message: ") ++ boundedErrorMessage (Some m)) in
  payload ← map_err (fun e => wrap (cbor_message e)) (encodeCbor h validated (cbor_options options));
  map_err (fun e => wrap (frame_message e)) (encodeFrame payload).

(** [ValidatedMessageDecoder]. *)
Record message_decoder : Type := MessageDecoder {
  failed : bool;
  frames : frame_decoder;
  m_maxFrameLength : option jsnum;
}.

Definition new_message_decoder (options : option jsnum) : result frame_err message_decoder :=
  frames ← new_frame_decoder options;
  Ok (MessageDecoder false frames options).

Definition decoder_failed : protocol_err := ProtocolValidationError (js (kind ++ " message decoder has failed")).
Definition invalid_frame (m : jsstr) : protocol_err :=
  ProtocolValidationError (js ("Invalid " ++ kind ++ " protocol frame: ") ++ boundedErrorMessage (Some m)).
Definition invalid_framing (m : jsstr) : protocol_err :=
  ProtocolValidationError (js ("Invalid " ++ kind ++ " protocol framing: ") ++ boundedErrorMessage (Some m)).

(** [this.parse(decodeCbor(frame, ...))], with the errors of [decodeCbor] wrapped. *)
Definition decodeMessage (options : option jsnum) (frame : bytes) : result protocol_err tree :=
  value ← map_err (fun e => invalid_frame (cbor_message e)) (decodeCbor frame (cbor_options options));
  parseTree value.

Definition push_messages (st : message_decoder) (chunk : bytes) : message_decoder * result protocol_err (list tree) :=
  if failed st then (st, Err decoder_failed)
  else
    let '(fd, r) := push (frames st) chunk in
    match r with
    | Err e => (MessageDecoder true fd (m_maxFrameLength st), Err (invalid_frame (frame_message e)))
    | Ok fs =>
        match mapM (decodeMessage (m_maxFrameLength st)) fs with
        | Ok messages => (MessageDecoder false fd (m_maxFrameLength st), Ok messages)
        | Err e => (MessageDecoder true fd (m_maxFrameLength st), Err e)
        end
    end.

Definition end_messages (st : message_decoder) : message_decoder * result protocol_err unit :=
  if failed st then (st, Err decoder_failed)
  else
    let '(fd, r) := end_ (frames st) in
    match r with
    | Ok _ => (MessageDecoder false fd (m_maxFrameLength st), Ok tt)
    | Err e => (MessageDecoder true fd (m_maxFrameLength st), Err (invalid_framing (frame_message e)))
    end.

(** Chunks pushed one after the other, up to the first that is rejected. *)
Fixpoint push_all_messages (st : message_decoder) (chunks : list bytes) : message_decoder * result protocol_err (list tree) :=
  match chunks with
  | [] => (st, Ok [])
  | chunk :: chunks =>
      let '(st, r) := push_messages st chunk in
      match r with
      | Ok messages =>
          let '(st, r) := push_all_messages st chunks in
          (st, rest ← r; Ok (messages ++ rest))
      | Err e => (st, Err e)
      end
  end.
End Codec.

(** * Messages round trip *)

Lemma boundedErrorMessage_length e : (length (boundedErrorMessage e) <= 500)%nat.
Proof.
  destruct e as [m|]; [|vm_compute; lia]. unfold boundedErrorMessage. destruct (length m <=? 500)%nat eqn:E.
  - by apply Nat.leb_le.
  - rewrite length_app, length_take. change (length (js "...")) with 3%nat. lia.
Qed.

Lemma is_json_tree_of_json levels j :
  json_wf j -> is_json_tree levels (tree_of_json j) = true <-> (json_levels j <= levels)%nat.
Proof.
  intros Hj. revert levels. induction j as [|b|n|s|l IH|o IH] using json_ind; intros [|levels];
    try (split; [done|unfold json_levels; cbn; lia]); try (split; [unfold json_levels; cbn; lia|done]);
    inversion Hj as [| |? ? Hf| |? Hl|? _ _ Ho]; subst.
  - split; [unfold json_levels; cbn; lia|by intros _].
  - rewrite json_levels_arr. cbn. rewrite forallb_forall, Forall_forall. setoid_rewrite <- list_elem_of_In.
    rewrite Forall_forall in IH, Hl. split.
    + intros H x Hx. apply (IH x Hx (Hl x Hx)), H. by apply list_elem_of_fmap_2.
    + intros H t (x & -> & Hx)%list_elem_of_fmap. apply (IH x Hx (Hl x Hx)). by apply H.
  - rewrite json_levels_obj. cbn. rewrite forallb_forall, Forall_forall. setoid_rewrite <- list_elem_of_In.
    rewrite Forall_forall in IH, Ho. split.
    + intros H x Hx. apply (IH x Hx (Ho x Hx)). apply (H (fst x, tree_of_json (snd x))).
      by apply (list_elem_of_fmap_2 (fun kv => (fst kv, tree_of_json (snd kv)))).
    + intros H t (x & -> & Hx)%list_elem_of_fmap. apply (IH x Hx (Ho x Hx)). by apply H.
Qed.

Lemma obj_sorted_fmap {A B} (f : A -> B) (o : list (jsstr * A)) :
  obj_sorted o -> obj_sorted ((fun kv => (fst kv, f (snd kv))) <$> o).
Proof.
  unfold obj_sorted. assert (obj_keys ((fun kv => (fst kv, f (snd kv))) <$> o) = obj_keys o) as ->; [|done].
  unfold obj_keys. rewrite <- list_fmap_compose. by apply list_fmap_ext.
Qed.

Lemma tree_of_json_wf j : json_wf j -> tree_wf (tree_of_json j).
Proof.
  induction j as [|b|n|s|l IH|o IH] using json_ind; inversion 1 as [| | | |? Hl|? Hs Hk Ho]; subst; cbn; auto with s2r.
  - constructor. apply Forall_fmap. rewrite Forall_forall in *. intros x Hx. by apply IH, Hl.
  - constructor; [by apply obj_sorted_fmap|..]; apply Forall_fmap; [done|].
    rewrite Forall_forall in *. intros x Hx. by apply IH, Ho.
Qed.

(** The byte limit of the payload is the frame limit. *)
Lemma cbor_options_max options max o :
  resolveMaxFrameLength options = Ok max -> resolveOptions (cbor_options options) = Ok o -> maxByteLength o = max.
Proof.
  intros Hmax Ho. unfold resolveOptions in Ho. apply bind_Ok in Ho as (b & Hb & Ho).
  apply bind_Ok in Ho as (c & _ & Ho). apply bind_Ok in Ho as (d & _ & Ho). apply Ok_inj in Ho as <-.
  cbn [maxByteLength]. unfold resolveLimit in Hb. unfold resolveMaxFrameLength in Hmax.
  apply bind_Ok in Hb as (u1 & _ & Hb). apply bind_Ok in Hmax as (u2 & _ & Hmax).
  apply Ok_inj in Hb, Hmax. by rewrite <- Hb, <- Hmax.
Qed.

Section RoundTrip.
Variable kind : string.
Variable Check : heap -> val -> bool.
Variable CheckTree : tree -> bool.

(** The schema check looks at the JSON data only. *)
Hypothesis Check_data : forall h v j, json_repr h v j -> Check h v = CheckTree (tree_of_json j).

(** An encoded message is the frame of the bytes of its data, which is what
    every decoder with the same limit reads from them. *)
Lemma encodeProtocolMessage_decode h v j options max f :
  resolveMaxFrameLength options = Ok max ->
  json_repr h v j -> json_wf j -> encodeProtocolMessage kind Check h v options = Ok f ->
  exists p, f = frame_bytes p /\ frame_ok max p /\ bytes_wf p /\
    decodeMessage kind CheckTree options p = Ok (tree_of_json j).
Proof.
  intros Hmax Hv Hj H. unfold encodeProtocolMessage in H. apply bind_Ok in H as (v' & Hp & H).
  unfold parseMessage in Hp. apply bind_Ok in Hp as (u & Hcheck & Hp). apply Ok_inj in Hp as <-.
  apply throw_if_Ok, orb_false_iff in Hcheck as [Hcheck Hjson]. apply negb_false_iff in Hcheck, Hjson.
  apply bind_Ok in H as (p & Ec & H). apply map_err_Ok in Ec, H. apply encodeFrame_Ok in H as [-> Hlen].
  assert (exists o, resolveOptions (cbor_options options) = Ok o) as [o Ho].
  { unfold encodeCbor in Ec. apply bind_Ok in Ec as (o & Ho & _). eauto. }
  pose proof (tree_of_json_wf j Hj) as Hwf.
  apply (encodeCbor_spec h v (tree_of_json j) _ o) in Ec as (-> & Hfit & Hlev & Hmaxlen);
    [|done|by apply json_repr_heap_repr|done].
  pose proof (cbor_options_max _ _ _ Hmax Ho) as Emax.
  exists (cbor_bytes (tree_of_json j)). split; [done|]. split; [unfold frame_ok; lia|]. split.
  { by eapply cbor_bytes_wf. }
  unfold decodeMessage. apply bind_Ok. exists (tree_of_json j). split.
  - apply map_err_Ok. by eapply decodeCbor_bytes.
  - unfold parseTree. apply bind_Ok. exists tt. split; [|done]. apply throw_if_Ok, orb_false_iff.
    rewrite !negb_false_iff. split; [by rewrite <- (Check_data h v j Hv)|].
    apply is_json_tree_of_json; [done|].
    apply isJsonValue_json in Hjson as (j' & Hj' & Hl).
    by rewrite <- (json_repr_fun _ _ _ _ Hv Hj') in Hl.
Qed.

Definition message_frames (options : option jsnum) (max : Z) (fs : list bytes) (ts : list tree) : Prop :=
  Forall2 (fun f t => exists p, f = frame_bytes p /\ frame_ok max p /\ bytes_wf p /\
    decodeMessage kind CheckTree options p = Ok t) fs ts.

Lemma push_all_messages_frames chunks : forall st fd st' ps ts,
  failed st = false -> frames st = fd -> push_all fd chunks = (st', Ok ps) ->
  Forall2 (fun p t => decodeMessage kind CheckTree (m_maxFrameLength st) p = Ok t) ps ts ->
  push_all_messages kind CheckTree st chunks = (MessageDecoder false st' (m_maxFrameLength st), Ok ts).
Proof.
  induction chunks as [|c chunks IH]; intros st fd st' ps ts Hf Hfd Hp Hts; cbn in *.
  { injection Hp as <- <-. inversion Hts; subst. by destruct st; cbn in *; subst. }
  destruct (push fd c) as [fd1 [fs|e]] eqn:E1; [|done].
  destruct (push_all fd1 chunks) as [fd2 [rest|e]] eqn:E2; [|done]. injection Hp as <- <-.
  apply Forall2_app_inv_l in Hts as (ts1 & ts2 & Ht1 & Ht2 & ->).
  assert (mapM (decodeMessage kind CheckTree (m_maxFrameLength st)) fs = Ok ts1) as Hm.
  { clear -Ht1. induction Ht1 as [|p t ps ts Hp _ IHp]; cbn; [done|]. rewrite Hp. cbn. by rewrite IHp. }
  assert (push_messages kind CheckTree st c = (MessageDecoder false fd1 (m_maxFrameLength st), Ok ts1)) as ->.
  { unfold push_messages. rewrite Hf, Hfd, E1. by rewrite Hm. }
  rewrite (IH (MessageDecoder false fd1 (m_maxFrameLength st)) fd1 fd2 rest ts2); done.
Qed.

(** Frames of messages, concatenated and cut into any chunks, are read back. *)
Lemma push_messages_stream options max st fs ts chunks :
  new_message_decoder options = Ok st -> resolveMaxFrameLength options = Ok max ->
  message_frames options max fs ts -> concat chunks = concat fs ->
  exists st' st'', push_all_messages kind CheckTree st chunks = (st', Ok ts) /\
    end_messages kind st' = (st'', Ok tt).
Proof.
  intros Hst Hmax Hfs Hc. unfold new_message_decoder in Hst. apply bind_Ok in Hst as (fd & Hfd & Hst). injection Hst as <-.
  destruct (new_frame_decoder_repr _ _ Hfd) as (max' & Hmax' & Hok & Hr). assert (max' = max) as -> by congruence.
  assert (exists ps, fs = frame_bytes <$> ps /\ Forall (frame_ok max) ps /\ Forall bytes_wf ps /\
    Forall2 (fun p t => decodeMessage kind CheckTree options p = Ok t) ps ts) as (ps & -> & Hpok & Hpwf & Hdec).
  { clear -Hfs. induction Hfs as [|f t fs ts (p & -> & H1 & H2 & H3) _ (ps & -> & H4 & H5 & H6)].
    - exists []. by repeat constructor.
    - exists (p :: ps). split_and!; [done|by constructor..]. }
  assert (Forall bytes_wf chunks) as Hcw.
  { apply Forall_concat. rewrite Hc. apply Forall_concat. rewrite Forall_fmap. eapply Forall_impl; [exact Hpwf|].
    intros p Hp. apply bytes_wf_app. split; [apply be_bytes_wf|done]. }
  pose proof (splits_frames max ps Hpok) as Hs. rewrite <- Hc in Hs.
  destruct (push_all_spec max chunks Hok fd [] Hr Hcw) as [(fd' & fs' & p' & E & Hs' & Hr')|(fd' & e & _ & _ & Ho)];
    cbn [app] in *; [|by eapply splits_not_overlong in Hs].
  destruct (splits_fun _ _ _ _ _ _ Hok Hs Hs') as [<- <-].
  exists (MessageDecoder false fd' options). destruct (end_boundary _ _ Hr') as [fd'' He].
  eexists. split; [by eapply (push_all_messages_frames chunks (MessageDecoder false fd options))|].
  unfold end_messages. cbn [failed frames]. by rewrite He.
Qed.
End RoundTrip.
