(* ===== verification/DurableTypes.v ===== *)
(** [packages/durable/src/types.ts]: the records of durable storage.

    Identifiers, sequences and versions are integers; the code keeps them below
    [Number.MAX_SAFE_INTEGER] ([mintId]).  Model messages are JSON data.  A
    field that may be absent is an [option]. *)
From S2P Require Import Prelude JsBase Json DeltaOps.

Abbreviation Id := Z (only parsing).
Abbreviation Seq := Z (only parsing).

Definition ROOT_CONVERSATION_ID : Id := 1.

(** * Transcripts *)

Record ConversationParent : Type := Parent { parent_conversationId : Id; parent_at : Id }.
Record ConversationOwner : Type := Owner { owner_conversationId : Id; owner_taskId : Id }.

Record ConversationRecord : Type := Conversation {
  conv_id : Id;
  conv_parent : option ConversationParent;
  conv_owner : option ConversationOwner;
}.

Inductive ContextEdit : Type :=
| EditOmit (target : Id)
| EditReplace (target : Id) (messages : list json).

Record EntryRecord : Type := Entry {
  entry_id : Id;
  entry_conversationId : Id;
  entry_kind : jsstr;
  entry_model : option (list json);
  entry_data : option json;
  entry_head : option Id;
  entry_edits : option (list ContextEdit);
  entry_byTaskId : option Id;
}.

(** * Submissions *)

Inductive SubmissionState : Type :=
| InputQueued
| InputPlaced (entry : Id)
| InputDone (entry answer : Id)
| InputUnanswered (entry : option Id) (reason : jsstr) (detail : option json)
| WriteQueued
| WriteDone (entry : Id)
| WriteUnanswered (reason : jsstr) (detail : option json).

Record SubmissionRecord : Type := Submission {
  sub_id : Id;
  sub_conversationId : Id;
  sub_requestId : option jsstr;
  sub_state : SubmissionState;
}.

(** * Tasks *)

Record TaskOutcomeError : Type := OutcomeError { error_message : jsstr; error_detail : option json }.

Inductive TaskOutcome : Type :=
| OutcomeCompleted (res : json)
| OutcomeFailed (error : TaskOutcomeError) (res : option json)
| OutcomeAborted (reason : option jsstr) (res : option json)
| OutcomeOrphaned (reason : jsstr)
| OutcomeFaulted (error : TaskOutcomeError).

(** Memos are kept while the task is live only. *)
Inductive TaskState : Type :=
| TaskPending (checkpoint : json) (memos : option (list (jsstr * json)))
| TaskRunning (checkpoint : json) (memos : option (list (jsstr * json)))
| TaskTerminal (outcome : TaskOutcome).

Inductive TaskStatus : Type := Pending | Running | Terminal.

#[export] Instance TaskStatus_eq_dec : EqDecision TaskStatus.
Proof. solve_decision. Defined.

Definition task_status (s : TaskState) : TaskStatus :=
  match s with TaskPending _ _ => Pending | TaskRunning _ _ => Running | TaskTerminal _ => Terminal end.

Record TaskRecord : Type := Task {
  task_id : Id;
  task_conversationId : Id;
  task_kind : jsstr;
  task_version : Z;
  task_input : json;
  task_after : list Id;
  task_background : bool;
  task_abortRequested : bool;
  task_state : TaskState;
}.

(** * Documents *)

Inductive DocumentScope : Type :=
| ScopeSession
| ScopeConversation (conversationId : Id)
| ScopeTask (taskId : Id).

#[export] Instance DocumentScope_eq_dec : EqDecision DocumentScope.
Proof. solve_decision. Defined.

Inductive ForkPolicy : Type := ForkAsOf | ForkCurrent | ForkInitial.

(** Conversation documents say how much history they keep. *)
Inductive DocumentHistory : Type := HistoryLatest (fork : ForkPolicy) | HistoryRewindable (fork : ForkPolicy).

(** [history] is present on conversation documents only. *)
Record DocumentCreate : Type := DocCreate {
  create_id : Id;
  create_kind : jsstr;
  create_key : option jsstr;
  create_scope : DocumentScope;
  create_history : option DocumentHistory;
}.

Record DocumentRecord : Type := DocRecord {
  doc_id : Id;
  doc_kind : jsstr;
  doc_key : option jsstr;
  doc_createdAt : Seq;
  doc_retiredAt : option Seq;
  doc_scope : DocumentScope;
  doc_history : option DocumentHistory;
}.

Record DocumentAddress : Type := DocAddress {
  addr_kind : jsstr;
  addr_scope : DocumentScope;
  addr_key : option jsstr;
}.

Inductive DocumentPoint : Type := At (seq : Seq) | Current.

Inductive DocumentContent : Type :=
| ContentBase (version : Z) (value : json)
| ContentDelta (version : Z) (ops : list Op).

Definition content_version (c : DocumentContent) : Z :=
  match c with ContentBase v _ | ContentDelta v _ => v end.

Definition is_base (c : DocumentContent) : bool :=
  match c with ContentBase _ _ => true | ContentDelta _ _ => false end.

Record StoredDocument : Type := StoredDoc {
  stored_record : DocumentRecord;
  stored_version : Z;
  stored_value : json;
}.

(** * Queries, pages and writes *)

Record Page (T : Type) : Type := Page_ { items : list T; next : option Id }.
Arguments Page_ {T} items next.
Arguments items {T} _.
Arguments next {T} _.

Record EntryQuery : Type := EntryQuery_ {
  eq_conversationId : Id;
  eq_minEntryId : option Id;
  eq_maxEntryId : option Id;
}.

Record TaskQuery : Type := TaskQuery_ {
  tq_conversationId : option Id;
  tq_kind : option jsstr;
  tq_status : option TaskStatus;
  tq_abortRequested : option bool;
  tq_background : option bool;
}.

Record DocumentQuery : Type := DocumentQuery_ {
  dq_scope : DocumentScope;
  dq_at : DocumentPoint;
  dq_kind : option jsstr;
}.

Inductive StorageWrite : Type :=
| WriteConversation (value : ConversationRecord)
| WriteEntry (value : EntryRecord)
| WriteTask (value : TaskRecord)
| WriteSubmission (value : SubmissionRecord)
| WriteDocumentCreate (record : DocumentCreate) (content : DocumentContent)
| WriteDocumentChange (id : Id) (content : DocumentContent)
| WriteDocumentRetire (id : Id).
