(* ===== verification/SortedIds.v ===== *)
(** The ordered id lists of [packages/durable/src/storage/memory.ts]: binary
    search, insertion and removal. *)
From Stdlib Require Import Sorted.
From S2P Require Import Prelude.

(** The loop of [lowerBound] and [upperBound]; [below] is the test of the middle
    element.  The interval shrinks every round, so [length ids] rounds are
    enough. *)
Fixpoint bound_loop (below : Z -> bool) (fuel : nat) (ids : list Z) (low high : nat) : nat :=
  match fuel with
  | O => low
  | S fuel =>
      if (low <? high)%nat then
        let middle := ((low + high) / 2)%nat in
        if below (default 0 (ids !! middle)) then bound_loop below fuel ids (middle + 1) high
        else bound_loop below fuel ids low middle
      else low
  end.

Definition lowerBound (ids : list Z) (target : Z) : nat :=
  bound_loop (fun id => id <? target) (length ids) ids 0 (length ids).

(** The target may be [Infinity], which is [None]. *)
Definition upperBoundInf (ids : list Z) (target : option Z) : nat :=
  bound_loop (fun id => match target with Some t => id <=? t | None => true end) (length ids) ids 0 (length ids).

Definition upperBound (ids : list Z) (target : Z) : nat := upperBoundInf ids (Some target).

Definition insertSorted (ids : list Z) (id : Z) : list Z :=
  match last ids with
  | None => ids ++ [id]
  | Some l =>
      if l <? id then ids ++ [id]
      else let i := lowerBound ids id in take i ids ++ [id] ++ drop i ids
  end.

Definition removeSorted (ids : list Z) (id : Z) : list Z :=
  let index := lowerBound ids id in
  if decide (ids !! index = Some id) then take index ids ++ drop (index + 1) ids else ids.

(** * Strictly increasing lists *)

Abbreviation increasing := (StronglySorted Z.lt).

Lemma increasing_lookup ids i j a b :
  increasing ids -> ids !! i = Some a -> ids !! j = Some b -> (i < j)%nat -> a < b.
Proof.
  intros H. revert i j. induction H as [|x l _ IH Hx]; intros i j Ha Hb Hij; [done|].
  destruct j as [|j]; [lia|]. destruct i as [|i]; cbn in *.
  - injection Ha as <-. rewrite Forall_forall in Hx. apply Hx. by eapply list_elem_of_lookup_2.
  - eapply IH; eauto; lia.
Qed.

Lemma increasing_NoDup ids : increasing ids -> NoDup ids.
Proof.
  induction 1 as [|x l _ IH Hx]; constructor; [|done]. intros Hin. rewrite Forall_forall in Hx.
  specialize (Hx x Hin). lia.
Qed.

Lemma increasing_app a b :
  increasing (a ++ b) <-> increasing a /\ increasing b /\ forall x y, x ∈ a -> y ∈ b -> x < y.
Proof.
  induction a as [|x a IH]; cbn.
  - split; [intros H; split_and!; [constructor|done|by intros ? ? ?%elem_of_nil]|tauto].
  - split.
    + intros [H Hx]%StronglySorted_inv. apply IH in H as (H1 & H2 & H3). apply Forall_app in Hx as [Hxa Hxb].
      split_and!; [by constructor|done|]. intros y z [->|Hy]%elem_of_cons Hz; [|by apply H3].
      rewrite Forall_forall in Hxb. by apply Hxb.
    + intros ([H1 Hx]%StronglySorted_inv & H2 & H3). constructor.
      * apply IH. split_and!; [done|done|]. intros y z Hy Hz. apply H3; [by right|done].
      * apply Forall_app. split; [done|]. apply Forall_forall. intros y Hy. apply H3; [by left|done].
Qed.

(** Two increasing lists with the same elements are the same list. *)
Lemma increasing_ext l1 l2 : increasing l1 -> increasing l2 -> (forall x, x ∈ l1 <-> x ∈ l2) -> l1 = l2.
Proof.
  intros H1. revert l2. induction H1 as [|x l1 Hl1 IH Hx]; intros l2 H2 Heq.
  - destruct l2 as [|y l2]; [done|]. exfalso. apply (not_elem_of_nil y). apply Heq. by left.
  - destruct H2 as [|y l2 Hl2 Hy]. { exfalso. apply (not_elem_of_nil x). apply Heq. by left. }
    rewrite Forall_forall in Hx, Hy.
    assert (x = y) as ->.
    { assert (x ∈ y :: l2) as [->|Hxin]%elem_of_cons by (apply Heq; by left); [done|].
      assert (y ∈ x :: l1) as [->|Hyin]%elem_of_cons by (apply Heq; by left); [done|].
      specialize (Hx y Hyin). specialize (Hy x Hxin). lia. }
    f_equal. apply IH; [done|]. intros z. specialize (Heq z). rewrite !elem_of_cons in Heq.
    split; intros Hz.
    + destruct (proj1 Heq (or_intror Hz)) as [->|]; [|done]. specialize (Hx y Hz). lia.
    + destruct (proj2 Heq (or_intror Hz)) as [->|]; [|done]. specialize (Hy y Hz). lia.
Qed.

(** * Binary search *)

Section Bound.
Variable below : Z -> bool.
Variable ids : list Z.

(** [n] separates the elements that are below from those that are not. *)
Definition separates (n : nat) : Prop :=
  (n <= length ids)%nat /\ (forall i a, ids !! i = Some a -> (i < n)%nat <-> below a = true).

Lemma bound_loop_separates fuel low high :
  increasing ids -> (forall a b, a < b -> below b = true -> below a = true) ->
  (low <= high <= length ids)%nat -> (high - low <= fuel)%nat ->
  (forall i a, ids !! i = Some a -> (i < low)%nat -> below a = true) ->
  (forall i a, ids !! i = Some a -> (high <= i)%nat -> below a = false) ->
  separates (bound_loop below fuel ids low high).
Proof.
  intros Hs Hmono. revert low high. induction fuel as [|fuel IH]; intros low high Hlh Hf Hl Hh; cbn [bound_loop].
  - assert (low = high) as <- by lia. split; [lia|]. intros i a Hi. split; [by apply (Hl i)|].
    intros Hb. destruct (decide (i < low)%nat); [done|]. rewrite (Hh i) in Hb; [done|done|lia].
  - destruct (low <? high)%nat eqn:E; [apply Nat.ltb_lt in E|apply Nat.ltb_ge in E].
    2:{ assert (low = high) as <- by lia. split; [lia|]. intros i a Hi. split; [by apply (Hl i)|].
        intros Hb. destruct (decide (i < low)%nat); [done|]. rewrite (Hh i) in Hb; [done|done|lia]. }
    assert (low <= (low + high) / 2 < high)%nat as Hm.
    { split; [apply Nat.div_le_lower_bound; lia|apply Nat.Div0.div_lt_upper_bound; lia]. }
    set (middle := ((low + high) / 2)%nat) in *. clearbody middle.
    destruct (lookup_lt_is_Some_2 ids middle ltac:(lia)) as [m Hmid]. rewrite Hmid. cbn [default from_option id].
    destruct (below m) eqn:Eb.
    + apply IH; [lia|lia| |done]. intros i a Hi Hlt. destruct (decide (i = middle)) as [->|]; [congruence|].
      apply (Hmono a m); [|done]. eapply increasing_lookup; eauto; lia.
    + apply IH; [lia|lia|done|]. intros i a Hi Hge. destruct (decide (i = middle)) as [->|]; [congruence|].
      destruct (below a) eqn:Ea; [|done]. rewrite <- Eb. symmetry. apply (Hmono m a); [|done].
      eapply increasing_lookup; eauto; lia.
Qed.

Lemma separates_elems n a : separates n -> (a ∈ take n ids <-> a ∈ ids /\ below a = true).
Proof.
  intros [Hn Hs]. rewrite !list_elem_of_lookup. split.
  - intros [i Hi]. apply lookup_take_Some in Hi as [Hi Hlt]. split; [eauto|]. by apply (Hs i).
  - intros [[i Hi] Hb]. exists i. apply lookup_take_Some. split; [done|]. by apply (Hs i a).
Qed.

Lemma separates_elems_drop n a : increasing ids -> separates n -> (a ∈ drop n ids <-> a ∈ ids /\ below a = false).
Proof.
  intros Hinc Hn. pose proof (separates_elems n a Hn) as Ht. rewrite <- (take_drop n ids) in Hinc.
  apply increasing_app in Hinc as (_ & _ & Hlt). rewrite <- (take_drop n ids) at 2. rewrite elem_of_app. split.
  - intros Hd. split; [by right|]. destruct (below a) eqn:E; [|done]. exfalso.
    assert (a ∈ take n ids) as Hin. { apply Ht. split; [|done]. rewrite <- (take_drop n ids). set_solver. }
    specialize (Hlt a a Hin Hd). lia.
  - intros [[Hin|Hin] Hb]; [|done]. apply Ht in Hin as [_ Hb']. congruence.
Qed.
End Bound.

Lemma lowerBound_separates ids t : increasing ids -> separates (fun id => id <? t) ids (lowerBound ids t).
Proof.
  intros Hs. apply bound_loop_separates; [done| |lia|lia|lia|].
  - intros a b Hab Hb. bool_lia.
  - intros i a Hi Hge. apply lookup_lt_Some in Hi. lia.
Qed.

Lemma upperBoundInf_separates ids t :
  increasing ids -> separates (fun id => match t with Some t => id <=? t | None => true end) ids (upperBoundInf ids t).
Proof.
  intros Hs. apply bound_loop_separates; [done| |lia|lia|lia|].
  - intros a b Hab Hb. destruct t; [|done]. bool_lia.
  - intros i a Hi Hge. apply lookup_lt_Some in Hi. lia.
Qed.

Lemma upperBound_separates ids t : increasing ids -> separates (fun id => id <=? t) ids (upperBound ids t).
Proof. apply (upperBoundInf_separates ids (Some t)). Qed.

(** * Insertion and removal *)

Lemma insertSorted_spec ids id :
  increasing ids -> id ∉ ids -> increasing (insertSorted ids id) /\ forall x, x ∈ insertSorted ids id <-> x = id \/ x ∈ ids.
Proof.
  intros Hs Hni. unfold insertSorted.
  assert ((forall x, x ∈ ids -> x < id) ->
    increasing (ids ++ [id]) /\ forall x, x ∈ ids ++ [id] <-> x = id \/ x ∈ ids) as Hpush.
  { intros Hlt. split; [|intros x; rewrite elem_of_app; set_solver]. apply increasing_app.
    split_and!; [done|by repeat constructor|]. intros x y Hx ->%list_elem_of_singleton. by apply Hlt. }
  destruct (last ids) as [l|] eqn:El; [|apply last_None in El as ->; apply Hpush; by intros x ?%elem_of_nil].
  destruct (l <? id) eqn:E.
  - apply Hpush. intros x Hx. apply last_Some in El as [l' ->]. apply increasing_app in Hs as (_ & _ & Hs).
    apply Z.ltb_lt in E. apply elem_of_app in Hx as [Hx| ->%list_elem_of_singleton]; [|done].
    specialize (Hs x l Hx ltac:(by left)). lia.
  - pose proof (lowerBound_separates ids id Hs) as Hsep. set (n := lowerBound ids id) in *. clearbody n.
    split; [|intros x; rewrite <- (take_drop n ids) at 3; rewrite !elem_of_app; set_solver].
    assert (Hs' := Hs). rewrite <- (take_drop n ids) in Hs'. apply increasing_app in Hs' as (H1 & H2 & H3).
    assert (forall y, y ∈ drop n ids -> id < y) as Hd.
    { intros y Hy. apply (separates_elems_drop _ _ _ _ Hs Hsep) in Hy as [Hy Hb]. apply Z.ltb_ge in Hb.
      assert (y <> id) by by intros ->. lia. }
    assert (forall y, y ∈ take n ids -> y < id) as Ht.
    { intros y Hy. apply (separates_elems _ _ _ _ Hsep) in Hy as [_ Hb]. by apply Z.ltb_lt. }
    apply increasing_app. split_and!; [done| |].
    + cbn. constructor; [done|]. by apply Forall_forall.
    + intros x y Hx [->|Hy]%elem_of_cons; [by apply Ht|by apply H3].
Qed.

Lemma removeSorted_spec ids id :
  increasing ids -> increasing (removeSorted ids id) /\ forall x, x ∈ removeSorted ids id <-> x <> id /\ x ∈ ids.
Proof.
  intros Hs. unfold removeSorted. pose proof (lowerBound_separates ids id Hs) as Hsep.
  set (n := lowerBound ids id) in *. clearbody n. case_decide as Hn.
  - pose proof (drop_S ids id n Hn) as Hd. assert (Hs' := Hs). rewrite <- (take_drop n ids), Hd in Hs'.
    apply increasing_app in Hs' as (H1 & [H2 Hgt]%StronglySorted_inv & H3). rewrite Nat.add_1_r. split.
    + apply increasing_app. split_and!; [done|done|]. intros x y Hx Hy. apply H3; [done|by right].
    + intros x. rewrite <- (take_drop n ids) at 3. rewrite Hd, !elem_of_app, elem_of_cons.
      rewrite Forall_forall in Hgt. split.
      * intros [Hx|Hx]; (split; [|tauto]); intros ->; [specialize (H3 id id Hx ltac:(by left)); lia|specialize (Hgt id Hx); lia].
      * tauto.
  - split; [done|]. intros x. split; [|tauto]. intros Hx. split; [|done]. intros ->. apply Hn.
    apply list_elem_of_lookup in Hx as [i Hi]. destruct Hsep as [Hle Hsep].
    assert (~ (i < n)%nat) as Hge by (rewrite (Hsep i id Hi); lia).
    destruct (decide (i = n)) as [->|Hne]; [done|]. exfalso.
    destruct (lookup_lt_is_Some_2 ids n) as [a Ha]; [apply lookup_lt_Some in Hi; lia|].
    assert (a < id) as Hlt by (eapply increasing_lookup; eauto; lia).
    enough (n < n)%nat by lia. apply (Hsep n a Ha). lia.
Qed.
