(* ===== verification/MemoryStorage.v ===== *)
(** [packages/durable/src/storage/memory.ts]: the in-memory reference
    implementation of [Storage].

    Records are values, so the clones that detach them from the caller are the
    identity.  A method that changes the store is a step of [SM MemoryStorage];
    one that reads it is a function of it.  [x!] on an absent [x] is a
    [TypeError] ([NullDeref]) where the code goes on to use it. *)
From S2P Require Import Prelude JsBase JsonText Json DeltaOps DurableTypes SortedIds.

Inductive storage_err : Type :=
| StorageError (msg : string)
| NullDeref
| DeltaError (e : delta_err).

(** [x!], used. *)
Definition deref {A} (o : option A) : result storage_err A := ok_or NullDeref o.

(** * Keys *)

(** The texts [JSON.stringify] gives to the elements. *)
Definition scope_items (scope : DocumentScope) : list jsstr :=
  match scope with
  | ScopeSession => [stringify_str (js "session")]
  | ScopeConversation c => [stringify_str (js "conversation"); js_of_Z c]
  | ScopeTask t => [stringify_str (js "task"); js_of_Z t]
  end.

Definition scopeKey (scope : DocumentScope) : jsstr := stringify_items (scope_items scope).

Definition key_items (key : option jsstr) : list jsstr :=
  match key with
  | None => [stringify_str (js "singleton")]
  | Some k => [stringify_str (js "family"); stringify_str k]
  end.

Definition addressKey (address : DocumentAddress) : jsstr :=
  stringify_items [stringify_str (addr_kind address); stringify_str (scopeKey (addr_scope address));
                   stringify_items (key_items (addr_key address))].

Definition record_address (r : DocumentRecord) : DocumentAddress := DocAddress (doc_kind r) (doc_scope r) (doc_key r).
Definition create_address (r : DocumentCreate) : DocumentAddress :=
  DocAddress (create_kind r) (create_scope r) (create_key r).
Definition recordAddressKey (r : DocumentRecord) : jsstr := addressKey (record_address r).
Definition createAddressKey (r : DocumentCreate) : jsstr := addressKey (create_address r).

(** * State *)

Record DocumentRevision : Type := Revision { rev_content : DocumentContent; rev_seq : Seq }.

Record StoredDocumentState : Type := StoredState { sd_record : DocumentRecord; sd_revisions : list DocumentRevision }.

Record DocumentAction : Type := Action {
  act_create : option DocumentCreate;
  act_content : option DocumentContent;
  act_retire : bool;
}.

Record DocumentAddressIndex : Type := AddressIndex { ai_ids : list Id; ai_currentId : option Id }.

Inductive TableName : Type := TConversation | TEntry | TTask | TSubmission | TDocument.

#[export] Instance TableName_eq_dec : EqDecision TableName.
Proof. solve_decision. Defined.

Record State : Type := State_ {
  conversations : gmap Id ConversationRecord;
  conversationIds : list Id;
  entries : gmap Id EntryRecord;
  entryIds : gmap Id (list Id);
  headEntryIds : gmap Id (list Id);
  entryCommitSeqs : gmap Id Seq;
  tasks : gmap Id TaskRecord;
  taskIds : list Id;
  taskIdsByStatus : TaskStatus -> list Id;
  submissions : gmap Id SubmissionRecord;
  submissionIdsByRequest : gmap Id (gmap jsstr Id);
  documents : gmap Id StoredDocumentState;
  documentAddresses : gmap jsstr DocumentAddressIndex;
  documentIdsByScope : gmap jsstr (list Id);
}.

Record MemoryStorage : Type := Storage_ {
  state : State;
  nextId : Z;
  nextSeq : Z;
  closed : bool;
}.

Definition new_MemoryStorage : MemoryStorage :=
  Storage_ (State_ ∅ [] ∅ ∅ ∅ ∅ ∅ [] (fun _ => []) ∅ ∅ ∅ ∅ ∅) 2 1 false.

(** Assignments to the fields. *)
Definition on_conversations f (s : State) : State :=
  State_ (f (conversations s)) (conversationIds s) (entries s) (entryIds s) (headEntryIds s) (entryCommitSeqs s) (tasks s) (taskIds s) (taskIdsByStatus s) (submissions s) (submissionIdsByRequest s) (documents s) (documentAddresses s) (documentIdsByScope s).
Definition on_conversationIds f (s : State) : State :=
  State_ (conversations s) (f (conversationIds s)) (entries s) (entryIds s) (headEntryIds s) (entryCommitSeqs s) (tasks s) (taskIds s) (taskIdsByStatus s) (submissions s) (submissionIdsByRequest s) (documents s) (documentAddresses s) (documentIdsByScope s).
Definition on_entries f (s : State) : State :=
  State_ (conversations s) (conversationIds s) (f (entries s)) (entryIds s) (headEntryIds s) (entryCommitSeqs s) (tasks s) (taskIds s) (taskIdsByStatus s) (submissions s) (submissionIdsByRequest s) (documents s) (documentAddresses s) (documentIdsByScope s).
Definition on_entryIds f (s : State) : State :=
  State_ (conversations s) (conversationIds s) (entries s) (f (entryIds s)) (headEntryIds s) (entryCommitSeqs s) (tasks s) (taskIds s) (taskIdsByStatus s) (submissions s) (submissionIdsByRequest s) (documents s) (documentAddresses s) (documentIdsByScope s).
Definition on_headEntryIds f (s : State) : State :=
  State_ (conversations s) (conversationIds s) (entries s) (entryIds s) (f (headEntryIds s)) (entryCommitSeqs s) (tasks s) (taskIds s) (taskIdsByStatus s) (submissions s) (submissionIdsByRequest s) (documents s) (documentAddresses s) (documentIdsByScope s).
Definition on_entryCommitSeqs f (s : State) : State :=
  State_ (conversations s) (conversationIds s) (entries s) (entryIds s) (headEntryIds s) (f (entryCommitSeqs s)) (tasks s) (taskIds s) (taskIdsByStatus s) (submissions s) (submissionIdsByRequest s) (documents s) (documentAddresses s) (documentIdsByScope s).
Definition on_tasks f (s : State) : State :=
  State_ (conversations s) (conversationIds s) (entries s) (entryIds s) (headEntryIds s) (entryCommitSeqs s) (f (tasks s)) (taskIds s) (taskIdsByStatus s) (submissions s) (submissionIdsByRequest s) (documents s) (documentAddresses s) (documentIdsByScope s).
Definition on_taskIds f (s : State) : State :=
  State_ (conversations s) (conversationIds s) (entries s) (entryIds s) (headEntryIds s) (entryCommitSeqs s) (tasks s) (f (taskIds s)) (taskIdsByStatus s) (submissions s) (submissionIdsByRequest s) (documents s) (documentAddresses s) (documentIdsByScope s).
Definition on_taskIdsByStatus (st : TaskStatus) f (s : State) : State :=
  State_ (conversations s) (conversationIds s) (entries s) (entryIds s) (headEntryIds s) (entryCommitSeqs s) (tasks s) (taskIds s)
    (fun st' => if decide (st = st') then f (taskIdsByStatus s st') else taskIdsByStatus s st') (submissions s) (submissionIdsByRequest s) (documents s) (documentAddresses s) (documentIdsByScope s).
Definition on_submissions f (s : State) : State :=
  State_ (conversations s) (conversationIds s) (entries s) (entryIds s) (headEntryIds s) (entryCommitSeqs s) (tasks s) (taskIds s) (taskIdsByStatus s) (f (submissions s)) (submissionIdsByRequest s) (documents s) (documentAddresses s) (documentIdsByScope s).
Definition on_submissionIdsByRequest f (s : State) : State :=
  State_ (conversations s) (conversationIds s) (entries s) (entryIds s) (headEntryIds s) (entryCommitSeqs s) (tasks s) (taskIds s) (taskIdsByStatus s) (submissions s) (f (submissionIdsByRequest s)) (documents s) (documentAddresses s) (documentIdsByScope s).
Definition on_documents f (s : State) : State :=
  State_ (conversations s) (conversationIds s) (entries s) (entryIds s) (headEntryIds s) (entryCommitSeqs s) (tasks s) (taskIds s) (taskIdsByStatus s) (submissions s) (submissionIdsByRequest s) (f (documents s)) (documentAddresses s) (documentIdsByScope s).
Definition on_documentAddresses f (s : State) : State :=
  State_ (conversations s) (conversationIds s) (entries s) (entryIds s) (headEntryIds s) (entryCommitSeqs s) (tasks s) (taskIds s) (taskIdsByStatus s) (submissions s) (submissionIdsByRequest s) (documents s) (f (documentAddresses s)) (documentIdsByScope s).
Definition on_documentIdsByScope f (s : State) : State :=
  State_ (conversations s) (conversationIds s) (entries s) (entryIds s) (headEntryIds s) (entryCommitSeqs s) (tasks s) (taskIds s) (taskIdsByStatus s) (submissions s) (submissionIdsByRequest s) (documents s) (documentAddresses s) (f (documentIdsByScope s)).

Definition on_state (f : State -> State) (m : MemoryStorage) : MemoryStorage :=
  Storage_ (f (state m)) (nextId m) (nextSeq m) (closed m).

(** [this.nextId = Math.max(this.nextId, id + 1)]. *)
Definition bump_id (id : Id) (m : MemoryStorage) : MemoryStorage :=
  Storage_ (state m) (Z.max (nextId m) (id + 1)) (nextSeq m) (closed m).

Definition bump_seq (m : MemoryStorage) : MemoryStorage :=
  Storage_ (state m) (nextId m) (nextSeq m + 1) (closed m).

(** The list under a key, created empty, with an id inserted. *)
Definition insert_under {K} `{Countable K} (k : K) (id : Id) (m : gmap K (list Id)) : gmap K (list Id) :=
  <[k := insertSorted (default [] (m !! k)) id]> m.

Definition isAliveAt (record : DocumentRecord) (at_ : DocumentPoint) : bool :=
  match at_ with
  | Current => match doc_retiredAt record with None => true | Some _ => false end
  | At at_ =>
      (doc_createdAt record <=? at_) &&
      match doc_retiredAt record with None => true | Some r => at_ <? r end
  end.

Definition isCurrentOnly (record : DocumentRecord) : bool :=
  match doc_scope record, doc_history record with
  | ScopeConversation _, Some (HistoryLatest _) => true
  | ScopeConversation _, _ => false
  | _, _ => true
  end.

Definition tableContaining (s : State) (id : Id) : option TableName :=
  if decide (is_Some (conversations s !! id)) then Some TConversation
  else if decide (is_Some (entries s !! id)) then Some TEntry
  else if decide (is_Some (tasks s !! id)) then Some TTask
  else if decide (is_Some (submissions s !! id)) then Some TSubmission
  else if decide (is_Some (documents s !! id)) then Some TDocument
  else None.

(** * Checks before a commit *)

(** The table and id a write claims. *)
Definition write_claim (write : StorageWrite) : option (TableName * Id) :=
  match write with
  | WriteConversation v => Some (TConversation, conv_id v)
  | WriteEntry v => Some (TEntry, entry_id v)
  | WriteTask v => Some (TTask, task_id v)
  | WriteSubmission v => Some (TSubmission, sub_id v)
  | WriteDocumentCreate r _ => Some (TDocument, create_id r)
  | WriteDocumentChange _ _ | WriteDocumentRetire _ => None
  end.

Definition table_immutable (t : TableName) : bool :=
  match t with TConversation | TEntry | TDocument => true | TTask | TSubmission => false end.

Definition other_table (o : option TableName) (t : TableName) : bool :=
  match o with Some t' => negb (bool_decide (t' = t)) | None => false end.

Definition checkGlobalId (s : State) (claimed : gmap Id TableName) (write : StorageWrite)
  : result storage_err (gmap Id TableName) :=
  match write_claim write with
  | None => Ok claimed
  | Some (table, id) =>
      let existing := tableContaining s id in
      let earlier := claimed !! id in
      (if table_immutable table then
         throw_if (bool_decide (is_Some existing)) (StorageError "ID already belongs to another record");;
         throw_if (bool_decide (is_Some earlier)) (StorageError "ID is written more than once")
       else
         throw_if (other_table existing table) (StorageError "ID already belongs to another record");;
         throw_if (other_table earlier table) (StorageError "ID is written as two record types"));;
      Ok (<[id := table]> claimed)
  end.

Definition checkGlobalIds (s : State) (writes : list StorageWrite) : result storage_err (gmap Id TableName) :=
  foldM (checkGlobalId s) ∅ writes.

Abbreviation Actions := (list (Id * DocumentAction)).

Definition prepareDocumentAction (actions : Actions) (write : StorageWrite) : result storage_err Actions :=
  let action id := default (Action None None false) (amap_get actions id) in
  match write with
  | WriteDocumentCreate r content =>
      let a := action (create_id r) in
      throw_if (bool_decide (is_Some (act_create a)) || bool_decide (is_Some (act_content a)))
        (StorageError "Document has more than one content command");;
      Ok (amap_set actions (create_id r) (Action (Some r) (Some content) (act_retire a)))
  | WriteDocumentChange id content =>
      let a := action id in
      throw_if (bool_decide (is_Some (act_content a))) (StorageError "Document has more than one content command");;
      Ok (amap_set actions id (Action (act_create a) (Some content) (act_retire a)))
  | WriteDocumentRetire id =>
      let a := action id in
      throw_if (act_retire a) (StorageError "Document is retired more than once");;
      Ok (amap_set actions id (Action (act_create a) (act_content a) true))
  | _ => Ok actions
  end.

Definition prepareDocumentActions (writes : list StorageWrite) : result storage_err Actions :=
  foldM prepareDocumentAction [] writes.

(** [action.content?.kind === "delta"]: the version must be that of the last revision. *)
Definition check_delta (previous : option DocumentRevision) (content : option DocumentContent) : result storage_err unit :=
  match content with
  | Some (ContentDelta version _) =>
      p ← ok_or (StorageError "Document delta has no base") previous;
      throw_if (negb (content_version (rev_content p) =? version)) (StorageError "Document version transition requires a base")
  | _ => Ok tt
  end.

Definition checkDocumentAction (s : State) (liveCounts : gmap jsstr Z) (ida : Id * DocumentAction)
  : result storage_err (gmap jsstr Z) :=
  let '(id, action) := ida in
  let existing := documents s !! id in
  let creates := bool_decide (is_Some (act_create action)) in
  throw_if (negb creates && negb (bool_decide (is_Some existing))) (StorageError "Unknown document");;
  throw_if (creates && bool_decide (is_Some existing)) (StorageError "Document already exists");;
  throw_if (match existing with Some d => bool_decide (is_Some (doc_retiredAt (sd_record d))) | None => false end)
    (StorageError "Document is retired");;
  throw_if (creates && negb (match act_content action with Some c => is_base c | None => false end))
    (StorageError "Document creation requires a base");;
  check_delta (existing ≫= fun d => last (sd_revisions d)) (act_content action);;
  key ← match act_create action with
        | Some r => Ok (createAddressKey r)
        | None => d ← deref existing; Ok (recordAddressKey (sd_record d))
        end;
  let currentId := documentAddresses s !! key ≫= ai_currentId in
  let live := match liveCounts !! key with
              | Some l => l
              | None => match currentId with None => 0 | Some _ => 1 end
              end in
  let live := if act_retire action && bool_decide (currentId = Some id) then live - 1 else live in
  let live := if creates && negb (act_retire action) then live + 1 else live in
  Ok (<[key := live]> liveCounts).

Definition checkDocumentActions (s : State) (actions : Actions) : result storage_err unit :=
  liveCounts ← foldM (checkDocumentAction s) ∅ actions;
  throw_if (bool_decide (map_Exists (fun _ live => 1 < live) liveCounts))
    (StorageError "Document address already has a current incarnation").

(** * Commit *)

Abbreviation step := (SM MemoryStorage storage_err unit).

Definition assertOpen (m : MemoryStorage) : result storage_err unit :=
  throw_if (closed m) (StorageError "MemoryStorage is closed").

Definition write_conversation (value : ConversationRecord) : step :=
  modify (on_state (on_conversations (insert (conv_id value) value)));;
  modify (on_state (on_conversationIds (fun ids => insertSorted ids (conv_id value))));;
  modify (bump_id (conv_id value)).

Definition write_entry (seq : Seq) (value : EntryRecord) : step :=
  let id := entry_id value in
  modify (on_state (on_entries (insert id value)));;
  modify (on_state (on_entryCommitSeqs (insert id seq)));;
  modify (on_state (on_entryIds (insert_under (entry_conversationId value) id)));;
  (match entry_head value with
   | Some _ => modify (on_state (on_headEntryIds (insert_under (entry_conversationId value) id)))
   | None => mret tt
   end);;
  modify (bump_id id).

Definition write_task (value : TaskRecord) : step :=
  let id := task_id value in
  let status := task_status (task_state value) in
  previous ← gets (fun m => tasks (state m) !! id);
  (match previous with
   | None =>
       modify (on_state (on_taskIds (fun ids => insertSorted ids id)));;
       modify (on_state (on_taskIdsByStatus status (fun ids => insertSorted ids id)))
   | Some p =>
       let old := task_status (task_state p) in
       if decide (old = status) then mret tt
       else
         modify (on_state (on_taskIdsByStatus old (fun ids => removeSorted ids id)));;
         modify (on_state (on_taskIdsByStatus status (fun ids => insertSorted ids id)))
   end);;
  modify (on_state (on_tasks (insert id value)));;
  modify (bump_id id).

(** The request index without the entry of a submission about to be replaced. *)
Definition forget_request (previous : option SubmissionRecord) (id : Id) (index : gmap Id (gmap jsstr Id))
  : gmap Id (gmap jsstr Id) :=
  match previous with
  | Some p =>
      match sub_requestId p, index !! sub_conversationId p with
      | Some r, Some requests =>
          if decide (requests !! r = Some id) then
            let requests := delete r requests in
            if decide (requests = ∅) then delete (sub_conversationId p) index
            else <[sub_conversationId p := requests]> index
          else index
      | _, _ => index
      end
  | None => index
  end.

Definition record_request (value : SubmissionRecord) (index : gmap Id (gmap jsstr Id)) : gmap Id (gmap jsstr Id) :=
  match sub_requestId value with
  | Some r => <[sub_conversationId value := <[r := sub_id value]> (default ∅ (index !! sub_conversationId value))]> index
  | None => index
  end.

Definition write_submission (value : SubmissionRecord) : step :=
  let id := sub_id value in
  previous ← gets (fun m => submissions (state m) !! id);
  modify (on_state (on_submissionIdsByRequest (forget_request previous id)));;
  modify (on_state (on_submissions (insert id value)));;
  modify (on_state (on_submissionIdsByRequest (record_request value)));;
  modify (bump_id id).

Definition apply_write (seq : Seq) (write : StorageWrite) : step :=
  match write with
  | WriteConversation v => write_conversation v
  | WriteEntry v => write_entry seq v
  | WriteTask v => write_task v
  | WriteSubmission v => write_submission v
  | WriteDocumentCreate _ _ | WriteDocumentChange _ _ | WriteDocumentRetire _ => mret tt
  end.

(** [{ ...action.create, createdAt: seq, ...(retire ? { retiredAt: seq } : {}) }]. *)
Definition record_of_create (c : DocumentCreate) (seq : Seq) (retire : bool) : DocumentRecord :=
  DocRecord (create_id c) (create_kind c) (create_key c) seq (if retire then Some seq else None)
    (create_scope c) (create_history c).

Definition retire_record (r : DocumentRecord) (seq : Seq) : DocumentRecord :=
  DocRecord (doc_id r) (doc_kind r) (doc_key r) (doc_createdAt r) (Some seq) (doc_scope r) (doc_history r).

Definition create_document (id : Id) (create : DocumentCreate) (content : option DocumentContent) (retire : bool) (seq : Seq) : step :=
  content ← reads_state (fun _ => deref content);
  let record := record_of_create create seq retire in
  modify (on_state (on_documents (insert id (StoredState record [Revision content seq]))));;
  modify (on_state (on_documentAddresses (fun m =>
    let a := default (AddressIndex [] None) (m !! recordAddressKey record) in
    <[recordAddressKey record := AddressIndex (insertSorted (ai_ids a) id) (ai_currentId a)]> m)));;
  modify (on_state (on_documentIdsByScope (insert_under (scopeKey (doc_scope record)) id)));;
  modify (bump_id id).

(** [stored!]: the entry of [id], which later assignments change in place. *)
Definition stored_of (id : Id) : SM MemoryStorage storage_err StoredDocumentState :=
  reads_state (fun m => deref (documents (state m) !! id)).

Definition set_stored (id : Id) (d : StoredDocumentState) : step :=
  modify (on_state (on_documents (insert id d))).

Definition change_document (id : Id) (content : DocumentContent) (seq : Seq) : step :=
  stored ← stored_of id;
  let revision := Revision content seq in
  if is_base content && isCurrentOnly (sd_record stored) then set_stored id (StoredState (sd_record stored) [revision])
  else set_stored id (StoredState (sd_record stored) (sd_revisions stored ++ [revision])).

Definition update_address (id : Id) (creates retire : bool) : step :=
  stored ← stored_of id;
  let key := recordAddressKey (sd_record stored) in
  address ← reads_state (fun m => deref (documentAddresses (state m) !! key));
  let address := if retire && bool_decide (ai_currentId address = Some id) then AddressIndex (ai_ids address) None else address in
  let address := if creates && negb retire then AddressIndex (ai_ids address) (Some id) else address in
  modify (on_state (on_documentAddresses (insert key address))).

Definition applyDocumentAction (seq : Seq) (ida : Id * DocumentAction) : step :=
  let '(id, action) := ida in
  let creates := bool_decide (is_Some (act_create action)) in
  (match act_create action with
   | Some create => create_document id create (act_content action) (act_retire action) seq
   | None =>
       match act_content action with
       | Some content => change_document id content seq
       | None => mret tt
       end
   end);;
  (if act_retire action && negb creates then
     stored ← stored_of id;
     set_stored id (StoredState (retire_record (sd_record stored) seq) (sd_revisions stored))
   else mret tt);;
  (if act_retire action then
     stored ← stored_of id;
     if isCurrentOnly (sd_record stored) then set_stored id (StoredState (sd_record stored) []) else mret tt
   else mret tt);;
  (if creates || act_retire action then update_address id creates (act_retire action) else mret tt).

Definition commit (writes : list StorageWrite) : SM MemoryStorage storage_err Seq :=
  reads_state assertOpen;;
  seq ← gets nextSeq;
  reads_state (fun m => checkGlobalIds (state m) writes);;
  actions ← reads_state (fun _ => prepareDocumentActions writes);
  reads_state (fun m => checkDocumentActions (state m) actions);;
  for_each (apply_write seq) writes;;
  for_each (applyDocumentAction seq) actions;;
  modify bump_seq;;
  mret seq.

Definition MAX_SAFE_ID : Z := MAX_SAFE_INTEGER.

Definition mintId : SM MemoryStorage storage_err Id :=
  reads_state assertOpen;;
  id ← gets nextId;
  reads_state (fun _ => throw_if (negb (isSafeInteger (NInt id))) (StorageError "ID space is exhausted"));;
  modify (fun m => Storage_ (state m) (nextId m + 1) (nextSeq m) (closed m));;
  mret id.

Definition close : step := modify (fun m => Storage_ (state m) (nextId m) (nextSeq m) true).

(** * Pages *)

Section Pages.
Context {T : Type} (id_of : T -> Id).

(** A cursor carries the id of the last item of its page. *)
Definition page (values : list T) (limit : nat) : result storage_err (Page T) :=
  let items := take limit values in
  if (length values <=? limit)%nat then Ok (Page_ items None)
  else l ← deref (last items); Ok (Page_ items (Some (id_of l))).

(** [after === undefined ? 0 : upperBound(ids, after)]. *)
Definition start_after (ids : list Id) (cursor : option Id) : nat :=
  match cursor with None => 0%nat | Some after => upperBound ids after end.

(** The loops that collect the values of [ids] that match, up to [limit + 1]. *)
Fixpoint collect (get : Id -> result storage_err T) (matches : T -> bool) (room : nat) (ids : list Id)
  : result storage_err (list T) :=
  match room, ids with
  | S room', id :: ids =>
      value ← get id;
      if matches value then rest ← collect get matches room' ids; Ok (value :: rest)
      else collect get matches room ids
  | _, _ => Ok []
  end.
End Pages.

(** * Reads *)

Section Reads.
Variable m : MemoryStorage.
Let s := state m.

Definition conversation (id : Id) : result storage_err (option ConversationRecord) :=
  assertOpen m;; Ok (conversations s !! id).

Definition scanConversations (cursor : option Id) (limit : nat) : result storage_err (Page ConversationRecord) :=
  assertOpen m;;
  let start := start_after (conversationIds s) cursor in
  values ← mapM (fun id => deref (conversations s !! id)) (take (limit + 1) (drop start (conversationIds s)));
  page conv_id values limit.

Definition entry (id : Id) : result storage_err (option (EntryRecord * Seq)) :=
  assertOpen m;;
  match entries s !! id with
  | None => Ok None
  | Some e => seq ← deref (entryCommitSeqs s !! id); Ok (Some (e, seq))
  end.

(** [Math.min(upper, at)] where [upper] may be [Infinity]. *)
Definition min_upper (upper : option Id) (at_ : Id) : Id := match upper with None => at_ | Some u => Z.min u at_ end.

(** The walk up the ancestors; [fuel] bounds the number of conversations
    visited, [None] is running out of it. *)
Fixpoint head_marker_loop (fuel : nat) (currentId : Id) (upper : option Id)
  : option (result storage_err (option (EntryRecord * Id))) :=
  match fuel with
  | O => None
  | S fuel =>
      let ids := default [] (headEntryIds s !! currentId) in
      let index := upperBoundInf ids upper in
      if (0 <? index)%nat then
        Some (id ← deref (ids !! (index - 1)%nat);
              e ← deref (entries s !! id);
              h ← deref (entry_head e);
              Ok (Some (e, h)))
      else
        match conversations s !! currentId with
        | None => Some (Err NullDeref)
        | Some c =>
            match conv_parent c with
            | None => Some (Ok None)
            | Some p => head_marker_loop fuel (parent_conversationId p) (Some (min_upper upper (parent_at p)))
            end
        end
  end.

Definition findLatestHeadMarker (fuel : nat) (conversationId : Id) (atOrBeforeEntryId : option Id)
  : option (result storage_err (option (EntryRecord * Id))) :=
  match assertOpen m with
  | Err e => Some (Err e)
  | Ok _ =>
      if decide (is_Some (conversations s !! conversationId)) then head_marker_loop fuel conversationId atOrBeforeEntryId
      else Some (Err (StorageError "Unknown conversation"))
  end.

Definition above_min (minEntryId : option Id) (id : Id) : bool :=
  match minEntryId with None => true | Some lo => negb (id <? lo) end.

(** The entries of one conversation, newest first, down to [minEntryId]. *)
Fixpoint entries_down (minEntryId : option Id) (newest_first : list Id) : list Id :=
  match newest_first with
  | [] => []
  | id :: ids => if above_min minEntryId id then id :: entries_down minEntryId ids else []
  end.

(** What the generator yields, as far as the consumer asks: [room] values. *)
Fixpoint visible_loop (fuel room : nat) (minEntryId : option Id) (currentId : Id) (upper : option Id)
  : option (result storage_err (list EntryRecord)) :=
  match fuel with
  | O => None
  | S fuel =>
      let ids := default [] (entryIds s !! currentId) in
      let own := take room (entries_down minEntryId (rev (take (upperBoundInf ids upper) ids))) in
      match mapM (fun id => deref (entries s !! id)) own with
      | Err e => Some (Err e)
      | Ok values =>
          let room := (room - length values)%nat in
          if (room =? 0)%nat then Some (Ok values)
          else
            match conversations s !! currentId with
            | None => Some (Err NullDeref)
            | Some c =>
                match conv_parent c with
                | None => Some (Ok values)
                | Some p =>
                    let upper := min_upper upper (parent_at p) in
                    if negb (above_min minEntryId upper) then Some (Ok values)
                    else
                      r ← visible_loop fuel room minEntryId (parent_conversationId p) (Some upper);
                      Some (rest ← r; Ok (values ++ rest))
                end
            end
      end
  end.

Definition scanEntries (fuel : nat) (query : EntryQuery) (cursor : option Id) (limit : nat)
  : option (result storage_err (Page EntryRecord)) :=
  match assertOpen m with
  | Err e => Some (Err e)
  | Ok _ =>
      let maxEntryId := match cursor with
                        | None => eq_maxEntryId query
                        | Some after => Some (min_upper (eq_maxEntryId query) (after - 1))
                        end in
      if decide (is_Some (conversations s !! eq_conversationId query)) then
        r ← visible_loop fuel (limit + 1) (eq_minEntryId query) (eq_conversationId query) maxEntryId;
        Some (visible ← r; page entry_id visible limit)
      else Some (Err (StorageError "Unknown conversation"))
  end.

Definition task (id : Id) : result storage_err (option TaskRecord) := assertOpen m;; Ok (tasks s !! id).

Definition opt_matches {A} `{EqDecision A} (filter : option A) (a : A) : bool :=
  match filter with None => true | Some f => bool_decide (a = f) end.

Definition task_matches (query : TaskQuery) (t : TaskRecord) : bool :=
  opt_matches (tq_conversationId query) (task_conversationId t) &&
  opt_matches (tq_kind query) (task_kind t) &&
  opt_matches (tq_abortRequested query) (task_abortRequested t) &&
  opt_matches (tq_background query) (task_background t).

Definition scanTasks (query : TaskQuery) (cursor : option Id) (limit : nat) : result storage_err (Page TaskRecord) :=
  assertOpen m;;
  let ids := match tq_status query with None => taskIds s | Some st => taskIdsByStatus s st end in
  values ← collect (fun id => deref (tasks s !! id)) (task_matches query) (limit + 1) (drop (start_after ids cursor) ids);
  page task_id values limit.

Definition submission (id : Id) : result storage_err (option SubmissionRecord) :=
  assertOpen m;; Ok (submissions s !! id).

Definition submissionByRequest (conversationId : Id) (requestId : jsstr) : result storage_err (option SubmissionRecord) :=
  assertOpen m;;
  match submissionIdsByRequest s !! conversationId ≫= (fun r => r !! requestId) with
  | None => Ok None
  | Some id => Ok (submissions s !! id)
  end.

(** The first record of [ids] alive at [at_]. *)
Fixpoint find_alive (at_ : Seq) (ids : list Id) : result storage_err (option DocumentRecord) :=
  match ids with
  | [] => Ok None
  | id :: ids =>
      d ← deref (documents s !! id);
      if isAliveAt (sd_record d) (At at_) then Ok (Some (sd_record d)) else find_alive at_ ids
  end.

Definition findDocument (address : DocumentAddress) (at_ : DocumentPoint) : result storage_err (option DocumentRecord) :=
  assertOpen m;;
  let index := documentAddresses s !! addressKey address in
  match at_ with
  | Current =>
      match index ≫= ai_currentId with
      | None => Ok None
      | Some id => d ← deref (documents s !! id); Ok (Some (sd_record d))
      end
  | At at_ => find_alive at_ (match index with Some i => ai_ids i | None => [] end)
  end.

(** [baseIndex]: from the last base on. *)
Fixpoint from_last_base (revisions : list DocumentRevision) : list DocumentRevision :=
  match revisions with
  | [] => []
  | r :: rest =>
      match from_last_base rest with
      | [] => if is_base (rev_content r) then r :: rest else []
      | found => found
      end
  end.

(** The deltas after the base. *)
Fixpoint replay (version : Z) (value : json) (revisions : list DocumentRevision) : result storage_err json :=
  match revisions with
  | [] => Ok value
  | r :: revisions =>
      match rev_content r with
      | ContentDelta v ops =>
          throw_if (negb (v =? version)) (StorageError "Document crosses a stored version boundary without a base");;
          v' ← map_err DeltaError (applyImmutable (Some value) ops);
          value ← deref v';
          replay version value revisions
      | ContentBase _ _ => Err (StorageError "Document crosses a stored version boundary without a base")
      end
  end.

Definition materialize (revisions : list DocumentRevision) : result storage_err (Z * json) :=
  match from_last_base revisions with
  | r :: rest =>
      match rev_content r with
      | ContentBase version value => v ← replay version value rest; Ok (version, v)
      | ContentDelta _ _ => Err (StorageError "Document is missing a required base")
      end
  | [] => Err (StorageError "Document is missing a required base")
  end.

Definition revisions_at (revisions : list DocumentRevision) (at_ : DocumentPoint) : list DocumentRevision :=
  match at_ with
  | Current => revisions
  | At at_ => List.filter (fun r => rev_seq r <=? at_) revisions
  end.

Definition document (id : Id) (at_ : DocumentPoint) : result storage_err (option StoredDocument) :=
  assertOpen m;;
  match documents s !! id with
  | None => Ok None
  | Some stored =>
      throw_if (match at_ with Current => false | At _ => isCurrentOnly (sd_record stored) end)
        (StorageError "Document does not retain historical content");;
      if isAliveAt (sd_record stored) at_ then
        '(version, value) ← materialize (revisions_at (sd_revisions stored) at_);
        Ok (Some (StoredDoc (sd_record stored) version value))
      else Ok None
  end.

Definition scanDocuments (query : DocumentQuery) (cursor : option Id) (limit : nat) : result storage_err (Page DocumentRecord) :=
  assertOpen m;;
  let ids := default [] (documentIdsByScope s !! scopeKey (dq_scope query)) in
  values ← collect (fun id => d ← deref (documents s !! id); Ok (sd_record d))
             (fun r => opt_matches (dq_kind query) (doc_kind r) && isAliveAt r (dq_at query))
             (limit + 1) (drop (start_after ids cursor) ids);
  page doc_id values limit.
End Reads.
