(* ===== verification/MemoryStorageInv.v ===== *)
(** The invariant of [MemoryStorage] and that every commit keeps it. *)
From S2P Require Import Prelude JsBase JsonText Json DeltaOps DurableTypes SortedIds MemoryStorage.

(** * Keys identify scopes and addresses *)

Definition address_wf (a : DocumentAddress) : Prop :=
  str_wf (addr_kind a) /\ match addr_key a with Some k => str_wf k | None => True end.

Lemma seg_text_str s : str_wf s -> seg_text (stringify_str s).
Proof. intros H. left. by exists s. Qed.

Lemma stringify_items_cons_inj t1 t2 l1 l2 :
  str_wf t1 -> str_wf t2 -> stringify_items (stringify_str t1 :: l1) = stringify_items (stringify_str t2 :: l2) ->
  t1 = t2 /\ stringify_rest l1 = stringify_rest l2.
Proof.
  intros H1 H2 E. unfold stringify_items in E. apply (inj (cons _)) in E.
  by apply stringify_str_inj_app in E.
Qed.

Lemma stringify_rest_one_inj a b : stringify_rest [a] = stringify_rest [b] -> a = b.
Proof. cbn [stringify_rest]. intros E. apply (inj (cons _)) in E. by apply app_inj_tail in E as [-> _]. Qed.

Lemma scopeKey_inj s1 s2 : scopeKey s1 = scopeKey s2 -> s1 = s2.
Proof.
  assert (forall s, str_wf (js s)) as Hj by apply js_str_wf.
  unfold scopeKey. destruct s1 as [|c1|t1], s2 as [|c2|t2]; cbn [scope_items]; intros E; try done;
    apply stringify_items_cons_inj in E as [E E']; try apply Hj; try (by apply (inj js) in E); try done;
    apply stringify_rest_one_inj, (inj js_of_Z) in E'; by subst.
Qed.

Lemma stringify_str_str_wf s : str_wf s -> str_wf (stringify_str s).
Proof.
  intros Hs. assert (forall u, unit_ok u -> str_wf (quote_unit u)) as Hq.
  { intros u Hu. unfold quote_unit, unicode_escape, unit_ok in *.
    assert (forall d, 0 <= d < 16 -> unit_ok (hex_digit d)) as Hh by (intros d Hd; unfold hex_digit, unit_ok; split_if; bool_lia).
    pose proof (Z.mod_pos_bound (u / 256) 16 ltac:(lia)). pose proof (Z.mod_pos_bound (u / 16) 16 ltac:(lia)).
    pose proof (Z.mod_pos_bound u 16 ltac:(lia)).
    assert (0 <= u / 4096 < 16) by (split; [apply Z.div_pos; lia|apply Z.div_lt_upper_bound; lia]).
    repeat split_if; repeat apply Forall_cons_2; try apply Forall_nil_2; try (by apply Hh); unfold unit_ok; lia. }
  constructor; [unfold unit_ok; lia|]. apply Forall_app. split; [|repeat constructor; unfold unit_ok; lia].
  assert (forall n s, (length s <= n)%nat -> str_wf s -> str_wf (quote_body s)) as H; [|by apply (H (length s))].
  clear s Hs. intros n. induction n as [|n IH]; intros [|u s] Hn Hs; cbn in Hn; try lia; try constructor.
  apply Forall_cons in Hs as [Hu Hs]. cbn [quote_body]. destruct s as [|l s]; [by apply Hq|]. split_if.
  - apply Forall_cons in Hs as [Hl Hs]. constructor; [done|]. constructor; [done|]. apply IH; [cbn in Hn; lia|done].
  - apply Forall_app. split; [by apply Hq|]. apply IH; [cbn in *; lia|done].
Qed.

Lemma scopeKey_str_wf s : str_wf (scopeKey s).
Proof.
  unfold scopeKey, stringify_items.
  assert (forall s, str_wf (js s)) as Hj by apply js_str_wf.
  constructor; [unfold unit_ok; lia|]. destruct s as [|c|t]; cbn [scope_items stringify_rest];
    (apply Forall_app; split; [by apply stringify_str_str_wf|]).
  - repeat constructor; unfold unit_ok; lia.
  - constructor; [unfold unit_ok; lia|]. apply Forall_app. split; [apply js_of_Z_str_wf|repeat constructor; unfold unit_ok; lia].
  - constructor; [unfold unit_ok; lia|]. apply Forall_app. split; [apply js_of_Z_str_wf|repeat constructor; unfold unit_ok; lia].
Qed.

Lemma key_items_seg_text k : match k with Some k => str_wf k | None => True end -> Forall seg_text (key_items k).
Proof.
  intros Hk. destruct k as [k|]; cbn [key_items]; repeat (apply Forall_cons_2); try apply Forall_nil_2;
    apply seg_text_str; by try apply js_str_wf.
Qed.

Lemma addressKey_inj a1 a2 : address_wf a1 -> address_wf a2 -> addressKey a1 = addressKey a2 -> a1 = a2.
Proof.
  intros [Hk1 Hf1] [Hk2 Hf2] E. unfold addressKey in E.
  apply stringify_items_cons_inj in E as [Ek E]; [|done..]. cbn [stringify_rest] in E. apply (inj (cons _)) in E.
  apply stringify_str_inj_app in E as [Es E]; [|apply scopeKey_str_wf..]. apply scopeKey_inj in Es.
  apply (inj (cons _)) in E. apply app_inj_tail in E as [E _].
  assert (addr_key a1 = addr_key a2) as Ekey.
  { apply stringify_items_inj in E.
    - destruct (addr_key a1) as [k1|], (addr_key a2) as [k2|]; try done.
      assert (forall a b c : jsstr, [c; a] = [c; b] -> a = b) as Hinj by (intros; congruence).
      f_equal. apply Hinj in E. by apply stringify_str_inj in E.
    - by apply key_items_seg_text.
    - by apply key_items_seg_text. }
  destruct a1, a2; cbn in *; congruence.
Qed.

(** * Indexes *)

(** The list enumerates, in increasing order, the ids with [P]. *)
Definition index_ok (P : Id -> Prop) (l : list Id) : Prop := increasing l /\ forall id, id ∈ l <-> P id.

Lemma index_ok_ext P Q l : (forall id, P id <-> Q id) -> index_ok P l -> index_ok Q l.
Proof. intros H [Hs Hl]. split; [done|]. intros id. by rewrite Hl. Qed.

Lemma index_ok_insert P Q l id :
  index_ok P l -> ~ P id -> (forall x, Q x <-> x = id \/ P x) -> index_ok Q (insertSorted l id).
Proof.
  intros [Hs Hl] Hid HQ. destruct (insertSorted_spec l id Hs) as [H1 H2]; [by rewrite Hl|].
  split; [done|]. intros x. by rewrite H2, Hl, HQ.
Qed.

Lemma index_ok_remove P Q l id :
  index_ok P l -> (forall x, Q x <-> x <> id /\ P x) -> index_ok Q (removeSorted l id).
Proof.
  intros [Hs Hl] HQ. destruct (removeSorted_spec l id Hs) as [H1 H2].
  split; [done|]. intros x. by rewrite H2, Hl, HQ.
Qed.

Lemma index_ok_nil P : (forall id, ~ P id) -> index_ok P [].
Proof. intros H. split; [constructor|]. intros id. split; [by intros ?%elem_of_nil|by intros ?%H]. Qed.

(** The lists under the keys of a map: those of the ids with a record of which
    [f] is that key. *)
Definition index_by {K R} `{Countable K} (records : gmap Id R) (f : R -> option K) (m : gmap K (list Id)) : Prop :=
  forall k, index_ok (fun id => exists r, records !! id = Some r /\ f r = Some k) (default [] (m !! k)).

Lemma keyed_insert {K R} (records : gmap Id R) (f : R -> option K) id r x k :
  (exists r', <[id := r]> records !! x = Some r' /\ f r' = Some k) <->
  (x = id /\ f r = Some k) \/ (x <> id /\ exists r', records !! x = Some r' /\ f r' = Some k).
Proof.
  destruct (decide (x = id)) as [->|Hx]; [rewrite lookup_insert_eq|rewrite lookup_insert_ne by done].
  - split; [intros (r' & [= <-] & H); by left|]. intros [[_ H]|[? _]]; [by exists r|done].
  - split; [by right|]. intros [[? _]|[_ H]]; done.
Qed.

Lemma index_by_insert {K R} `{Countable K} (records : gmap Id R) (f : R -> option K) m id r k :
  index_by records f m -> records !! id = None -> f r = Some k ->
  index_by (<[id := r]> records) f (insert_under k id m).
Proof.
  intros Hm Hid Hf k'. unfold insert_under. destruct (decide (k = k')) as [<-|Hne].
  - rewrite lookup_insert_eq. cbn. eapply index_ok_insert; [apply Hm|intros (r' & Hr & _); congruence|].
    intros x. rewrite keyed_insert. split; [tauto|]. intros [->|(r' & Hr' & Hk)]; [by left|].
    destruct (decide (x = id)) as [->|]; [congruence|]. right. eauto.
  - rewrite lookup_insert_ne by done. eapply index_ok_ext; [|apply Hm].
    intros x. rewrite keyed_insert. split; [|intros [[_ ?]|[_ ?]]; [congruence|done]].
    intros (r' & Hr' & Hk). right. split; [congruence|eauto].
Qed.

(** A record without a key changes no list. *)
Lemma index_by_insert_none {K R} `{Countable K} (records : gmap Id R) (f : R -> option K) m id r :
  index_by records f m -> records !! id = None -> f r = None -> index_by (<[id := r]> records) f m.
Proof.
  intros Hm Hid Hf k. eapply index_ok_ext; [|apply Hm].
  intros x. rewrite keyed_insert. split; [|intros [[_ ?]|[_ ?]]; [congruence|done]].
  intros (r' & Hr' & Hk). right. split; [congruence|eauto].
Qed.

(** Replacing a record by one with the same key changes no list. *)
Lemma index_by_replace {K R} `{Countable K} (records : gmap Id R) (f : R -> option K) m id r r' :
  index_by records f m -> records !! id = Some r -> f r' = f r -> index_by (<[id := r']> records) f m.
Proof.
  intros Hm Hid Hf k. eapply index_ok_ext; [|apply Hm].
  intros x. rewrite keyed_insert. split; [|intros [[-> ?]|[_ ?]]; [exists r; by rewrite <- Hf|done]].
  intros (r1 & Hr1 & Hk). destruct (decide (x = id)) as [->|]; [left; split; [done|congruence]|right; eauto].
Qed.

(** * The invariant

    [bound] is above every sequence the state records: [nextSeq] between
    commits, one more while a commit is applied. *)

(** The table that holds a record of an id. *)
Definition owner (s : State) (id : Id) (t : TableName) : Prop :=
  match t with
  | TConversation => is_Some (conversations s !! id)
  | TEntry => is_Some (entries s !! id)
  | TTask => is_Some (tasks s !! id)
  | TSubmission => is_Some (submissions s !! id)
  | TDocument => is_Some (documents s !! id)
  end.

Definition disjoint_tables (s : State) : Prop := forall id t1 t2, owner s id t1 -> owner s id t2 -> t1 = t2.

Definition keyed {R} (id_of : R -> Id) (records : gmap Id R) : Prop :=
  forall id r, records !! id = Some r -> id_of r = id.

Definition conversations_ok (s : State) : Prop :=
  keyed conv_id (conversations s) /\ index_ok (fun id => is_Some (conversations s !! id)) (conversationIds s).

Definition head_key (e : EntryRecord) : option Id :=
  match entry_head e with Some _ => Some (entry_conversationId e) | None => None end.

Definition entries_ok (s : State) (bound : Seq) : Prop :=
  keyed entry_id (entries s) /\
  index_by (entries s) (fun e => Some (entry_conversationId e)) (entryIds s) /\
  index_by (entries s) head_key (headEntryIds s) /\
  (forall id, is_Some (entries s !! id) <-> is_Some (entryCommitSeqs s !! id)) /\
  (forall id q, entryCommitSeqs s !! id = Some q -> q < bound).

Definition status_of (t : TaskRecord) : TaskStatus := task_status (task_state t).

Definition tasks_ok (s : State) : Prop :=
  keyed task_id (tasks s) /\
  index_ok (fun id => is_Some (tasks s !! id)) (taskIds s) /\
  (forall st, index_ok (fun id => exists t, tasks s !! id = Some t /\ status_of t = st) (taskIdsByStatus s st)).

(** The id the index has for a request. *)
Definition request_id (index : gmap Id (gmap jsstr Id)) (c : Id) (r : jsstr) : option Id :=
  index !! c ≫= fun requests => requests !! r.

Definition submissions_ok (s : State) : Prop :=
  keyed sub_id (submissions s) /\
  (forall c r id, request_id (submissionIdsByRequest s) c r = Some id ->
    exists v, submissions s !! id = Some v /\ sub_conversationId v = c /\ sub_requestId v = Some r).

(** Every delta follows a revision of its version, and the first revision is a
    base. *)
Fixpoint links (previous : DocumentRevision) (revisions : list DocumentRevision) : Prop :=
  match revisions with
  | [] => True
  | r :: rest =>
      (is_base (rev_content r) = true \/ content_version (rev_content r) = content_version (rev_content previous)) /\
      links r rest
  end.

Definition chain_ok (revisions : list DocumentRevision) : Prop :=
  match revisions with [] => False | r :: rest => is_base (rev_content r) = true /\ links r rest end.

Definition stored_ok (bound : Seq) (d : StoredDocumentState) : Prop :=
  doc_createdAt (sd_record d) < bound /\
  (forall q, doc_retiredAt (sd_record d) = Some q -> doc_createdAt (sd_record d) <= q < bound) /\
  increasing (rev_seq <$> sd_revisions d) /\
  Forall (fun r => doc_createdAt (sd_record d) <= rev_seq r < bound) (sd_revisions d) /\
  (chain_ok (sd_revisions d) \/
   sd_revisions d = [] /\ isCurrentOnly (sd_record d) = true /\ is_Some (doc_retiredAt (sd_record d))).

Definition doc_addr (d : StoredDocumentState) : jsstr := recordAddressKey (sd_record d).

Definition current_id (s : State) (k : jsstr) : option Id := documentAddresses s !! k ≫= ai_currentId.

(** A document of the address that is not retired. *)
Definition live_doc (s : State) (k : jsstr) (id : Id) : Prop :=
  exists d, documents s !! id = Some d /\ doc_addr d = k /\ doc_retiredAt (sd_record d) = None.

Definition documents_ok (s : State) (bound : Seq) : Prop :=
  keyed (fun d => doc_id (sd_record d)) (documents s) /\
  index_by (documents s) (fun d => Some (scopeKey (doc_scope (sd_record d)))) (documentIdsByScope s) /\
  index_by (documents s) (fun d => Some (doc_addr d)) (ai_ids <$> documentAddresses s) /\
  (forall k id, current_id s k = Some id -> live_doc s k id) /\
  (forall id d, documents s !! id = Some d -> stored_ok bound d).

Record state_ok (s : State) (bound : Seq) : Prop := StateOk {
  so_disjoint : disjoint_tables s;
  so_conversations : conversations_ok s;
  so_entries : entries_ok s bound;
  so_tasks : tasks_ok s;
  so_submissions : submissions_ok s;
  so_documents : documents_ok s bound;
}.

Definition ids_below (m : MemoryStorage) : Prop := forall id t, owner (state m) id t -> id < nextId m.

(** Between commits, the current document of an address is the one that is not
    retired. *)
Record storage_inv (m : MemoryStorage) : Prop := StorageInv {
  si_state : state_ok (state m) (nextSeq m);
  si_current : forall k id, current_id (state m) k = Some id <-> live_doc (state m) k id;
  si_ids : ids_below m;
}.

Lemma stored_ok_mono b1 b2 d : b1 <= b2 -> stored_ok b1 d -> stored_ok b2 d.
Proof.
  intros Hb (H1 & H2 & H3 & H4 & H5). split_and!; [lia| |done| |done].
  - intros q Hq. specialize (H2 q Hq). lia.
  - eapply Forall_impl; [exact H4|]. cbn. intros r Hr. lia.
Qed.

Lemma state_ok_mono s b1 b2 : b1 <= b2 -> state_ok s b1 -> state_ok s b2.
Proof.
  intros Hb [H1 H2 (E1 & E2 & E3 & E4 & E5) H4 H5 (D1 & D2 & D3 & D4 & D5)]. split; try done.
  - split_and!; try done. intros id q Hq. specialize (E5 id q Hq). lia.
  - split_and!; try done. intros id d Hd. eapply stored_ok_mono; [done|]. by eapply D5.
Qed.

Lemma tableContaining_None s id : tableContaining s id = None <-> forall t, ~ owner s id t.
Proof.
  unfold tableContaining. split.
  - intros H t Ht. destruct t; cbn in Ht; repeat case_decide; try discriminate H; contradiction.
  - intros H. repeat case_decide; try done; exfalso.
    + by apply (H TConversation).
    + by apply (H TEntry).
    + by apply (H TTask).
    + by apply (H TSubmission).
    + by apply (H TDocument).
Qed.

Lemma tableContaining_owner s id t : disjoint_tables s -> tableContaining s id = Some t <-> owner s id t.
Proof.
  intros Hd. unfold tableContaining. split.
  - repeat case_decide; intros [= <-]; done.
  - intros Ht. repeat case_decide; try (f_equal; apply (Hd id); done).
    exfalso. destruct t; cbn in Ht; contradiction.
Qed.

Lemma keyed_empty {R} (id_of : R -> Id) : keyed id_of ∅.
Proof. intros id r. by rewrite lookup_empty. Qed.

Lemma index_ok_empty {R} : index_ok (fun id => is_Some ((∅ : gmap Id R) !! id)) [].
Proof. apply index_ok_nil. intros id. rewrite lookup_empty. by intros [? ?]. Qed.

Lemma index_by_empty {K R} `{Countable K} (f : R -> option K) : index_by ∅ f ∅.
Proof. intros k. rewrite lookup_empty. apply index_ok_nil. intros id (r & Hr & _). by rewrite lookup_empty in Hr. Qed.

Lemma owner_new id t : ~ owner (state new_MemoryStorage) id t.
Proof. intros H. destruct t; cbn in H; rewrite lookup_empty in H; by destruct H. Qed.

Lemma new_MemoryStorage_inv : storage_inv new_MemoryStorage.
Proof.
  split.
  - split.
    + by intros id t1 t2 H%owner_new.
    + split; [apply keyed_empty|apply index_ok_empty].
    + split_and!; [apply keyed_empty|apply index_by_empty..| |]; cbn.
      * intros id. by rewrite !lookup_empty.
      * intros id q. by rewrite lookup_empty.
    + split_and!; [apply keyed_empty|apply index_ok_empty|].
      intros st. apply index_ok_nil. cbn. intros id (r & Hr & _). by rewrite lookup_empty in Hr.
    + split; [apply keyed_empty|]. intros c r id. unfold request_id. cbn. by rewrite lookup_empty.
    + split_and!; [apply keyed_empty|apply index_by_empty| | |]; cbn.
      * rewrite fmap_empty. apply index_by_empty.
      * intros k id. unfold current_id. cbn. by rewrite lookup_empty.
      * intros id d. by rewrite lookup_empty.
  - intros k id. split; [unfold current_id; cbn; by rewrite lookup_empty|]. intros (d & Hd & _).
    cbn in Hd. by rewrite lookup_empty in Hd.
  - by intros id t H%owner_new.
Qed.
