(* ===== verification/MemoryStorageTables.v ===== *)
(** The first loop of [MemoryStorage.commit]: the writes of conversations,
    entries, tasks and submissions keep the invariant, and never throw once
    the ids were checked. *)
From S2P Require Import Prelude JsBase JsonText Json DeltaOps DurableTypes SortedIds MemoryStorage MemoryStorageInv.

Lemma is_Some_insert {R} (m : gmap Id R) i r j : is_Some (<[i := r]> m !! j) <-> is_Some (m !! j) \/ j = i.
Proof. rewrite lookup_insert_is_Some. destruct (decide (i = j)); naive_solver. Qed.

(** What [checkGlobalIds] establishes of the ids claimed so far. *)
Definition owners_from (s0 : State) (claimed : gmap Id TableName) (s : State) : Prop :=
  forall id t, owner s id t <-> owner s0 id t \/ (claimed !! id = Some t /\ t <> TDocument).

(** The tables while the writes of a commit are applied; the documents wait. *)
Record tables_loop (s0 : State) (seq : Seq) (claimed : gmap Id TableName) (m : MemoryStorage) : Prop := TablesLoop {
  tl_state : state_ok (state m) (seq + 1);
  tl_ids : ids_below m;
  tl_owners : owners_from s0 claimed (state m);
  tl_documents : documents (state m) = documents s0;
  tl_addresses : documentAddresses (state m) = documentAddresses s0;
  tl_scopes : documentIdsByScope (state m) = documentIdsByScope s0;
  tl_seq : nextSeq m = seq;
  tl_closed : closed m = false;
}.

(** What a write may assume of the table [t] and id it claims. *)
Definition claim_ok (s0 : State) (claimed : gmap Id TableName) (t : TableName) (id : Id) : Prop :=
  (table_immutable t = true -> claimed !! id = None /\ forall t', ~ owner s0 id t') /\
  (forall t', claimed !! id = Some t' \/ owner s0 id t' -> t' = t).

Lemma checkGlobalId_Ok s0 claimed w claimed' t id :
  disjoint_tables s0 -> write_claim w = Some (t, id) -> checkGlobalId s0 claimed w = Ok claimed' ->
  claimed' = <[id := t]> claimed /\ claim_ok s0 claimed t id.
Proof.
  intros Hd Hw. unfold checkGlobalId. rewrite Hw. destruct (table_immutable t) eqn:Ht; intros H; res_inv.
  - repeat match goal with H : bool_decide _ = false |- _ => apply bool_decide_eq_false in H; rewrite <- eq_None_not_Some in H end.
    split; [done|]. rewrite tableContaining_None in *. split; [done|]. intros t' [Ht'|Ht']; [congruence|]. exfalso. by eapply H.
  - split; [done|]. split; [congruence|]. intros t' [Ht'|Ht'].
    + rewrite Ht' in *. cbn in *. by destruct (bool_decide_reflect (t' = t)).
    + apply tableContaining_owner in Ht'; [|done]. rewrite Ht' in *. cbn in *. by destruct (bool_decide_reflect (t' = t)).
Qed.

Lemma claim_ok_owner s0 claimed t id s t' : claim_ok s0 claimed t id -> owners_from s0 claimed s -> owner s id t' -> t' = t.
Proof. intros [_ H] Ho [?|[? _]]%Ho; by apply H; auto. Qed.

Lemma claim_ok_fresh s0 claimed t id s t' :
  claim_ok s0 claimed t id -> table_immutable t = true -> owners_from s0 claimed s -> ~ owner s id t'.
Proof. intros [H _] Ht Ho [Hs|[Hc _]]%Ho; destruct (H Ht) as [H1 H2]; [by apply (H2 t')|congruence]. Qed.

Lemma owners_from_insert s0 claimed t id s s' :
  claim_ok s0 claimed t id -> t <> TDocument -> owners_from s0 claimed s ->
  (forall x t', owner s' x t' <-> owner s x t' \/ x = id /\ t' = t) -> owners_from s0 (<[id := t]> claimed) s'.
Proof.
  intros [_ Hc] Ht Ho Hs x t'. rewrite Hs, (Ho x t'). destruct (decide (x = id)) as [->|Hx].
  - rewrite lookup_insert_eq. split.
    + intros [[H|[H1 H2]]|[_ ->]]; [by left| |by right]. right. rewrite (Hc t') by auto. done.
    + intros [H|[[= ->] H]]; [by left; left|]. right. done.
  - rewrite lookup_insert_ne by done. naive_solver.
Qed.

Lemma documents_ok_ext s s' bound :
  documents s' = documents s -> documentAddresses s' = documentAddresses s -> documentIdsByScope s' = documentIdsByScope s ->
  documents_ok s bound -> documents_ok s' bound.
Proof.
  intros E1 E2 E3 H. unfold documents_ok, current_id, live_doc in *. by rewrite E1, E2, E3.
Qed.

Lemma tables_loop_write s0 seq claimed m t id s' :
  tables_loop s0 seq claimed m -> claim_ok s0 claimed t id -> t <> TDocument ->
  (forall x t', owner s' x t' <-> owner (state m) x t' \/ x = id /\ t' = t) ->
  documents s' = documents (state m) -> documentAddresses s' = documentAddresses (state m) ->
  documentIdsByScope s' = documentIdsByScope (state m) ->
  conversations_ok s' -> entries_ok s' (seq + 1) -> tasks_ok s' -> submissions_ok s' ->
  tables_loop s0 seq (<[id := t]> claimed) (Storage_ s' (Z.max (nextId m) (id + 1)) (nextSeq m) (closed m)).
Proof.
  intros [Hs Hids Ho E1 E2 E3 Eq Ec] Hc Ht Hown F1 F2 F3 H1 H2 H3 H4. split; cbn; try congruence.
  - split; try done.
    + intros x t1 t2 [H5|[Hx1 Ht1]]%Hown [H6|[Hx2 Ht2]]%Hown; subst; [by apply (so_disjoint _ _ Hs x)| | |done].
      * by eapply claim_ok_owner.
      * symmetry. by eapply claim_ok_owner.
    + eapply documents_ok_ext; [..|apply (so_documents _ _ Hs)]; done.
  - intros x t' [H|[Hx1 Ht1]]%Hown; subst; cbn; [|lia]. specialize (Hids x t' H). lia.
  - by eapply owners_from_insert.
Qed.

Lemma keyed_insert_id {R} (id_of : R -> Id) (m : gmap Id R) r : keyed id_of m -> keyed id_of (<[id_of r := r]> m).
Proof. intros H id r'. destruct (decide (id = id_of r)) as [->|]; [rewrite lookup_insert_eq|rewrite lookup_insert_ne by done]; [congruence|apply H]. Qed.

(** The owners after a record is set in one table. *)
Ltac solve_owner :=
  let x := fresh "x" in let t := fresh "t" in
  intros x t; destruct t; cbn; rewrite ?is_Some_insert; (split; [|naive_solver]); (intros [?|?]; auto) || (intros ?; by left).

(** * The request index *)

Lemma request_id_insert index c requests c' r :
  request_id (<[c := requests]> index) c' r = if decide (c = c') then requests !! r else request_id index c' r.
Proof. unfold request_id. rewrite lookup_insert. by case_decide. Qed.

Lemma request_id_delete index c c' r :
  request_id (delete c index) c' r = if decide (c = c') then None else request_id index c' r.
Proof. unfold request_id. rewrite lookup_delete. by case_decide. Qed.

Lemma request_id_forget previous id index c r id' :
  request_id (forget_request previous id index) c r = Some id' ->
  request_id index c r = Some id' /\
  forall p, previous = Some p -> sub_conversationId p = c -> sub_requestId p = Some r -> id' <> id.
Proof.
  destruct previous as [p|]; cbn [forget_request]; [|done].
  destruct (sub_requestId p) as [r0|] eqn:Er; [|intros H; split; [done|]; intros p' [= <-]; congruence].
  destruct (index !! sub_conversationId p) as [requests|] eqn:Ei.
  2:{ intros H. split; [done|]. intros p' [= <-] <-. unfold request_id in H. by rewrite Ei in H. }
  assert (forall r, request_id index (sub_conversationId p) r = requests !! r) as Hr by (intros ?; unfold request_id; by rewrite Ei).
  case_decide as Eid.
  - assert (request_id (if decide (delete r0 requests = ∅) then delete (sub_conversationId p) index
                        else <[sub_conversationId p := delete r0 requests]> index) c r =
            if decide (sub_conversationId p = c) then delete r0 requests !! r else request_id index c r) as ->.
    { case_decide as E0; [|apply request_id_insert]. rewrite request_id_delete, E0. case_decide; [by rewrite lookup_empty|done]. }
    case_decide as Ec; [subst c|intros H; split; [done|by intros p' [= <-]]].
    rewrite lookup_delete_Some, Hr. intros [Hne H]. split; [done|]. intros p' [= <-] _. congruence.
  - intros H. split; [done|]. intros p' [= <-] <- Hp ->. rewrite Hr in H. congruence.
Qed.

Lemma request_id_record v index c r :
  request_id (record_request v index) c r =
  if decide (sub_conversationId v = c /\ sub_requestId v = Some r) then Some (sub_id v) else request_id index c r.
Proof.
  unfold record_request. destruct (sub_requestId v) as [r0|] eqn:Er; [|by rewrite decide_False by naive_solver].
  rewrite request_id_insert. destruct (decide (sub_conversationId v = c)) as [<-|Hc]; [|by rewrite decide_False by naive_solver].
  rewrite lookup_insert. case_decide as E; [rewrite decide_True by naive_solver; done|].
  rewrite decide_False by naive_solver. unfold request_id. by destruct (index !! sub_conversationId v); cbn; rewrite ?lookup_empty.
Qed.

Section Writes.
Variables (s0 : State) (seq : Seq) (claimed : gmap Id TableName) (m : MemoryStorage).
Hypothesis Hloop : tables_loop s0 seq claimed m.

Lemma write_conversation_ok v :
  claim_ok s0 claimed TConversation (conv_id v) ->
  exists m', write_conversation v m = (m', Ok tt) /\ tables_loop s0 seq (<[conv_id v := TConversation]> claimed) m'.
Proof.
  intros Hc. eexists. split; [reflexivity|].
  pose proof (fun t' => claim_ok_fresh _ _ _ _ _ t' Hc eq_refl (tl_owners _ _ _ _ Hloop)) as Hfresh.
  destruct (tl_state _ _ _ _ Hloop) as [_ [C1 C2] H2 H3 H4 _].
  apply (tables_loop_write s0 seq claimed m); try done.
  - solve_owner.
  - split; [by apply keyed_insert_id|]. cbn. eapply index_ok_insert; [exact C2|by apply (Hfresh TConversation)|].
    intros x. rewrite is_Some_insert. tauto.
Qed.

Lemma write_entry_ok v :
  claim_ok s0 claimed TEntry (entry_id v) ->
  exists m', write_entry seq v m = (m', Ok tt) /\ tables_loop s0 seq (<[entry_id v := TEntry]> claimed) m'.
Proof.
  intros Hc.
  pose proof (fun t' => claim_ok_fresh _ _ _ _ _ t' Hc eq_refl (tl_owners _ _ _ _ Hloop)) as Hfresh.
  destruct (tl_state _ _ _ _ Hloop) as [_ H1 (E1 & E2 & E3 & E4 & E5) H3 H4 _].
  assert (entries (state m) !! entry_id v = None) as Hnone by (apply eq_None_not_Some, (Hfresh TEntry)).
  assert (forall s', entries s' = <[entry_id v := v]> (entries (state m)) ->
    entryIds s' = insert_under (entry_conversationId v) (entry_id v) (entryIds (state m)) ->
    index_by (entries s') head_key (headEntryIds s') ->
    entryCommitSeqs s' = <[entry_id v := seq]> (entryCommitSeqs (state m)) -> entries_ok s' (seq + 1)) as Hok.
  { intros s' F1 F2 F3 F4. unfold entries_ok. rewrite F4, F1, F2 in *. split_and!; [by apply keyed_insert_id| |done| |].
    - by apply index_by_insert.
    - intros x. rewrite !is_Some_insert, E4. done.
    - intros x q. destruct (decide (x = entry_id v)) as [->|]; [rewrite lookup_insert_eq|rewrite lookup_insert_ne by done].
      + intros [= <-]. lia.
      + apply E5. }
  unfold write_entry. destruct (entry_head v) as [h|] eqn:Eh.
  - eexists. split; [reflexivity|]. apply (tables_loop_write s0 seq claimed m); try done; [solve_owner|].
    apply Hok; try done. cbn. apply index_by_insert; [done..|]. unfold head_key. by rewrite Eh.
  - eexists. split; [reflexivity|]. apply (tables_loop_write s0 seq claimed m); try done; [solve_owner|].
    apply Hok; try done. cbn. apply index_by_insert_none; [done..|]. unfold head_key. by rewrite Eh.
Qed.

Lemma taskIdsByStatus_ok (ts : gmap Id TaskRecord) (by_status by_status' : TaskStatus -> list Id) v :
  (forall st, index_ok (fun id => exists t, ts !! id = Some t /\ status_of t = st) (by_status st)) ->
  (forall st, by_status' st =
    match ts !! task_id v with
    | None => if decide (status_of v = st) then insertSorted (by_status st) (task_id v) else by_status st
    | Some p =>
        if decide (status_of p = status_of v) then by_status st
        else if decide (status_of v = st) then insertSorted (by_status st) (task_id v)
        else if decide (status_of p = st) then removeSorted (by_status st) (task_id v) else by_status st
    end) ->
  forall st, index_ok (fun id => exists t, <[task_id v := v]> ts !! id = Some t /\ status_of t = st) (by_status' st).
Proof.
  intros H Hb st. rewrite Hb. specialize (H st).
  assert (forall x, (exists t, <[task_id v := v]> ts !! x = Some t /\ status_of t = st) <->
    (x = task_id v /\ status_of v = st) \/ (x <> task_id v /\ exists t, ts !! x = Some t /\ status_of t = st)) as Hx.
  { intros x. destruct (decide (x = task_id v)) as [->|Hx]; [rewrite lookup_insert_eq|rewrite lookup_insert_ne by done]; [|tauto].
    split; [intros (t & [= <-] & E); by left|]. intros [[_ E]|[? _]]; [eauto|done]. }
  assert (forall x t, ts !! x = Some t -> x = task_id v -> ts !! task_id v = Some t) as Hat by (intros; by subst).
  destruct (ts !! task_id v) as [p|] eqn:Ep; repeat case_decide.
  - eapply index_ok_ext; [|exact H]. intros x. rewrite Hx. split.
    + intros (t & E1 & E2). destruct (decide (x = task_id v)); [left|right; eauto]. split; [done|]. subst. congruence.
    + intros [[-> E2]|[_ ?]]; [exists p; by split; [|congruence]|done].
  - eapply index_ok_insert; [exact H| |].
    + intros (t & E1 & E2). congruence.
    + intros x. rewrite Hx. split; [tauto|]. intros [->|(t & E1 & E2)]; [by left|]. right. split; [|eauto].
      intros ->. congruence.
  - eapply index_ok_remove; [exact H|]. intros x. rewrite Hx. tauto.
  - eapply index_ok_ext; [|exact H]. intros x. rewrite Hx. split; [|tauto].
    intros (t & E1 & E2). right. split; [|eauto]. intros ->. congruence.
  - eapply index_ok_insert; [exact H| |].
    + intros (t & E1 & E2). congruence.
    + intros x. rewrite Hx. split; [tauto|]. intros [->|(t & E1 & E2)]; [by left|]. right. split; [|eauto].
      intros ->. congruence.
  - eapply index_ok_ext; [|exact H]. intros x. rewrite Hx. split; [|tauto].
    intros (t & E1 & E2). right. split; [|eauto]. intros ->. congruence.
Qed.

Lemma write_task_ok v :
  claim_ok s0 claimed TTask (task_id v) ->
  exists m', write_task v m = (m', Ok tt) /\ tables_loop s0 seq (<[task_id v := TTask]> claimed) m'.
Proof.
  intros Hc. destruct (tl_state _ _ _ _ Hloop) as [_ H1 H2 (T1 & T2 & T3) H4 _].
  set (ts := tasks (state m)) in *.
  assert (forall s', tasks s' = <[task_id v := v]> ts ->
    taskIds s' = (match ts !! task_id v with None => insertSorted (taskIds (state m)) (task_id v) | Some _ => taskIds (state m) end) ->
    (forall st, index_ok (fun id => exists t, <[task_id v := v]> ts !! id = Some t /\ status_of t = st) (taskIdsByStatus s' st)) ->
    tasks_ok s') as Hok.
  { intros s' F1 F2 F3. unfold tasks_ok. rewrite F1, F2. split_and!; [by apply keyed_insert_id| |done].
    destruct (ts !! task_id v) as [p|] eqn:Ep.
    - eapply index_ok_ext; [|exact T2]. intros x. rewrite is_Some_insert. split; [by left|].
      intros [?| ->]; [done|by rewrite Ep].
    - eapply index_ok_insert; [exact T2|by cbn beta; rewrite Ep; intros [? ?]|]. intros x. rewrite is_Some_insert. tauto. }
  pose proof (taskIdsByStatus_ok ts (taskIdsByStatus (state m))) as Hst.
  unfold write_task, gets, mbind, sm_bind. cbn -[decide]. fold ts.
  destruct (ts !! task_id v) as [p|] eqn:Ep; [case_decide as Es|].
  - eexists. split; [reflexivity|]. apply (tables_loop_write s0 seq claimed m); try done; [solve_owner|].
    apply Hok; [done..|]. apply (Hst _ v T3). intros st. cbn -[decide]. rewrite Ep. unfold status_of. by rewrite decide_True.
  - eexists. split; [reflexivity|]. apply (tables_loop_write s0 seq claimed m); try done; [solve_owner|].
    apply Hok; [done..|]. apply (Hst _ v T3). intros st. cbn -[decide]. rewrite Ep. unfold status_of.
    repeat case_decide; congruence.
  - eexists. split; [reflexivity|]. apply (tables_loop_write s0 seq claimed m); try done; [solve_owner|].
    apply Hok; [done..|]. apply (Hst _ v T3). intros st. cbn -[decide]. by rewrite Ep.
Qed.

Lemma write_submission_ok v :
  claim_ok s0 claimed TSubmission (sub_id v) ->
  exists m', write_submission v m = (m', Ok tt) /\ tables_loop s0 seq (<[sub_id v := TSubmission]> claimed) m'.
Proof.
  intros Hc. destruct (tl_state _ _ _ _ Hloop) as [_ H1 H2 H3 [S1 S2] _].
  eexists. split; [reflexivity|]. apply (tables_loop_write s0 seq claimed m); try done; [solve_owner|].
  split; [by apply keyed_insert_id|]. cbn. intros c r id. rewrite request_id_record. case_decide as E.
  - intros [= <-]. exists v. rewrite lookup_insert_eq. naive_solver.
  - intros [H Hne]%request_id_forget. destruct (S2 _ _ _ H) as (w & Hw & Hwc & Hwr).
    exists w. rewrite lookup_insert_ne; [done|]. intros <-. by apply (Hne w).
Qed.
End Writes.

Lemma apply_write_ok s0 seq claimed m w claimed' :
  disjoint_tables s0 -> tables_loop s0 seq claimed m -> checkGlobalId s0 claimed w = Ok claimed' ->
  exists m', apply_write seq w m = (m', Ok tt) /\ tables_loop s0 seq claimed' m'.
Proof.
  intros Hd Hloop Hw. destruct (write_claim w) as [[t id]|] eqn:Ew.
  2:{ unfold checkGlobalId in Hw. rewrite Ew in Hw. injection Hw as <-. exists m. by destruct w. }
  destruct (checkGlobalId_Ok _ _ _ _ _ _ Hd Ew Hw) as [-> Hc]. destruct w; cbn in Ew; try discriminate Ew; injection Ew as <- <-; cbn [apply_write].
  - by apply write_conversation_ok.
  - by apply write_entry_ok.
  - by apply write_task_ok.
  - by apply write_submission_ok.
  - exists m. split; [done|]. destruct Hloop as [L1 L2 Ho L4 L5 L6 L7 L8]. split; try done.
    intros x t. rewrite (Ho x t). destruct (decide (x = create_id record)) as [->|Hx].
    + rewrite lookup_insert_eq. destruct Hc as [Hf _]. destruct (Hf eq_refl) as [-> _]. naive_solver.
    + by rewrite lookup_insert_ne.
Qed.

(** After the checks the loop over the writes cannot throw. *)
Lemma apply_writes_ok s0 seq ws claimed m claimed' :
  disjoint_tables s0 -> tables_loop s0 seq claimed m -> foldM (checkGlobalId s0) claimed ws = Ok claimed' ->
  exists m', for_each (apply_write seq) ws m = (m', Ok tt) /\ tables_loop s0 seq claimed' m'.
Proof.
  intros Hd. revert claimed m. induction ws as [|w ws IH]; intros claimed m Hloop; cbn [foldM for_each].
  - intros [= <-]. by exists m.
  - intros (c1 & Hw & Hws)%bind_Ok. destruct (apply_write_ok _ _ _ _ _ _ Hd Hloop Hw) as (m1 & E1 & L1).
    destruct (IH c1 m1 L1 Hws) as (m2 & E2 & L2). exists m2. split; [|done]. apply sm_bind_Ok. eauto.
Qed.

Lemma tables_loop_start m : storage_inv m -> closed m = false -> tables_loop (state m) (nextSeq m) ∅ m.
Proof.
  intros [H1 H2 H3] Hc. split; try done; [eapply state_ok_mono; [|done]; lia|].
  intros id t. rewrite lookup_empty. naive_solver.
Qed.
