(* ===== verification/MemoryStorageDocuments.v ===== *)
(** The second loop of [MemoryStorage.commit]: the document actions keep the
    invariant, never throw once they were checked, and leave one live document
    per address. *)
From S2P Require Import Prelude JsBase JsonText Json DeltaOps DurableTypes SortedIds MemoryStorage MemoryStorageInv.

(** * What an action does to a document *)

Definition changed (seq : Seq) (d : StoredDocumentState) (content : option DocumentContent) : StoredDocumentState :=
  match content with
  | None => d
  | Some c =>
      if is_base c && isCurrentOnly (sd_record d) then StoredState (sd_record d) [Revision c seq]
      else StoredState (sd_record d) (sd_revisions d ++ [Revision c seq])
  end.

Definition retired (seq : Seq) (d : StoredDocumentState) : StoredDocumentState :=
  StoredState (retire_record (sd_record d) seq) (if isCurrentOnly (sd_record d) then [] else sd_revisions d).

Definition changed_then_retired (seq : Seq) (a : DocumentAction) (d : StoredDocumentState) : StoredDocumentState :=
  let d := changed seq d (act_content a) in if act_retire a then retired seq d else d.

Definition created (seq : Seq) (r : DocumentCreate) (c : DocumentContent) (retire : bool) : StoredDocumentState :=
  let record := record_of_create r seq retire in
  StoredState record (if retire && isCurrentOnly record then [] else [Revision c seq]).

(** The address entry after [update_address]. *)
Definition updated (id : Id) (creates retire : bool) (a : DocumentAddressIndex) : DocumentAddressIndex :=
  AddressIndex (ai_ids a)
    (if creates && negb retire then Some id
     else if retire && bool_decide (ai_currentId a = Some id) then None else ai_currentId a).

Definition address_at (s : State) (k : jsstr) : DocumentAddressIndex := default (AddressIndex [] None) (documentAddresses s !! k).

Lemma bind_run {A B} (f : SM MemoryStorage storage_err A) (g : A -> SM MemoryStorage storage_err B) m m1 a :
  f m = (m1, Ok a) -> (f ≫= g) m = g a m1.
Proof. intros H. unfold mbind, sm_bind. by rewrite H. Qed.

Lemma stored_of_run id m d : documents (state m) !! id = Some d -> stored_of id m = (m, Ok d).
Proof. intros H. unfold stored_of, reads_state, deref. by rewrite H. Qed.

Lemma update_address_run id creates retire m d a :
  documents (state m) !! id = Some d -> documentAddresses (state m) !! doc_addr d = Some a ->
  update_address id creates retire m =
  (on_state (on_documentAddresses (insert (doc_addr d) (updated id creates retire a))) m, Ok tt).
Proof.
  intros Hd Ha. unfold update_address. rewrite (bind_run _ _ _ m d) by by apply stored_of_run.
  rewrite (bind_run _ _ _ m a) by (unfold reads_state, deref; unfold doc_addr in Ha; by rewrite Ha).
  unfold modify, updated. do 3 f_equal. destruct a as [ids cur]; cbn.
  destruct retire, creates; cbn; try done; by case_bool_decide.
Qed.

(** The state after [f] was stored for the documents and addresses. *)
Definition with_documents (s : State) ds addrs scopes : State :=
  State_ (conversations s) (conversationIds s) (entries s) (entryIds s) (headEntryIds s) (entryCommitSeqs s) (tasks s)
    (taskIds s) (taskIdsByStatus s) (submissions s) (submissionIdsByRequest s) ds addrs scopes.

Lemma change_document_run id c seq m d :
  documents (state m) !! id = Some d ->
  change_document id c seq m = (on_state (on_documents (insert id (changed seq d (Some c)))) m, Ok tt).
Proof.
  intros H. unfold change_document. rewrite (bind_run _ _ _ m d) by by apply stored_of_run. cbn. by case_match.
Qed.

Lemma apply_existing_run seq id a m d addr :
  documents (state m) !! id = Some d -> documentAddresses (state m) !! doc_addr d = Some addr -> act_create a = None ->
  let s := state m in
  applyDocumentAction seq (id, a) m =
  (Storage_ (with_documents s (<[id := changed_then_retired seq a d]> (documents s))
      (if act_retire a then <[doc_addr d := updated id false true addr]> (documentAddresses s) else documentAddresses s)
      (documentIdsByScope s)) (nextId m) (nextSeq m) (closed m), Ok tt).
Proof.
  intros Hd Ha Hc s. subst s. unfold applyDocumentAction. rewrite Hc, bool_decide_false by (by intros [? ?]).
  set (d1 := changed seq d (act_content a)).
  set (m1 := Storage_ (with_documents (state m) (<[id := d1]> (documents (state m))) (documentAddresses (state m))
    (documentIdsByScope (state m))) (nextId m) (nextSeq m) (closed m)).
  rewrite (bind_run _ _ _ m1 tt).
  2:{ destruct (act_content a) as [c|] eqn:Ec; [by rewrite (change_document_run _ _ _ _ d)|].
      subst m1 d1. cbn. rewrite insert_id by done. by destruct m as [[]]. }
  assert (doc_addr d1 = doc_addr d) as Haddr by (subst d1; destruct (act_content a); cbn; by repeat case_match).
  assert (documents (state m1) !! id = Some d1) as H1 by apply lookup_insert_eq.
  unfold changed_then_retired. fold d1. destruct (act_retire a) eqn:Er; cbn [andb orb negb]; [|reflexivity].
  set (d2 := StoredState (retire_record (sd_record d1) seq) (sd_revisions d1)).
  set (m2 := on_state (on_documents (insert id d2)) m1).
  rewrite (bind_run _ _ _ m2 tt) by (rewrite (bind_run _ _ _ m1 d1) by (by apply stored_of_run); reflexivity).
  assert (documents (state m2) !! id = Some d2) as H2 by apply lookup_insert_eq.
  set (m3 := on_state (on_documents (insert id (retired seq d1))) m).
  assert (isCurrentOnly (sd_record d2) = isCurrentOnly (sd_record d1)) as Hco by done.
  rewrite (bind_run _ _ _ m3 tt).
  2:{ rewrite (bind_run _ _ _ m2 d2) by by apply stored_of_run. rewrite Hco. subst m2 m3 m1. unfold retired.
      destruct (isCurrentOnly (sd_record d1)); unfold set_stored, modify, mret, sm_ret, on_state, on_documents; cbn; by rewrite ?insert_insert_eq. }
  rewrite (update_address_run _ _ _ _ (retired seq d1) addr); [| |].
  - unfold on_state, on_documentAddresses. cbn. replace (doc_addr (retired seq d1)) with (doc_addr d) by by rewrite <- Haddr. done.
  - apply lookup_insert_eq.
  - replace (doc_addr (retired seq d1)) with (doc_addr d) by by rewrite <- Haddr. done.
Qed.

Lemma apply_create_run seq id a m r c :
  act_create a = Some r -> act_content a = Some c ->
  let s := state m in let k := createAddressKey r in
  let indexed := AddressIndex (insertSorted (ai_ids (address_at s k)) id) (ai_currentId (address_at s k)) in
  applyDocumentAction seq (id, a) m =
  (Storage_ (with_documents s (<[id := created seq r c (act_retire a)]> (documents s))
      (<[k := updated id true (act_retire a) indexed]> (documentAddresses s))
      (insert_under (scopeKey (create_scope r)) id (documentIdsByScope s)))
    (Z.max (nextId m) (id + 1)) (nextSeq m) (closed m), Ok tt).
Proof.
  intros Hr Hc s k indexed. unfold applyDocumentAction. rewrite Hr, Hc, bool_decide_true by eauto.
  set (rec := record_of_create r seq (act_retire a)).
  set (d0 := StoredState rec [Revision c seq]).
  set (m1 := Storage_ (with_documents s (<[id := d0]> (documents s)) (<[k := indexed]> (documentAddresses s))
    (insert_under (scopeKey (create_scope r)) id (documentIdsByScope s))) (Z.max (nextId m) (id + 1)) (nextSeq m) (closed m)).
  rewrite (bind_run _ _ _ m1 tt) by reflexivity.
  rewrite (bind_run _ _ _ m1 tt) by by rewrite andb_false_r.
  assert (documents (state m1) !! id = Some d0) as H1 by apply lookup_insert_eq.
  set (d := created seq r c (act_retire a)).
  set (m2 := Storage_ (with_documents s (<[id := d]> (documents s)) (<[k := indexed]> (documentAddresses s))
    (insert_under (scopeKey (create_scope r)) id (documentIdsByScope s))) (Z.max (nextId m) (id + 1)) (nextSeq m) (closed m)).
  rewrite (bind_run _ _ _ m2 tt).
  2:{ subst d m2. unfold created. fold rec. destruct (act_retire a); cbn [andb]; [|done].
      rewrite (bind_run _ _ _ m1 d0) by by apply stored_of_run. cbn [sd_record d0].
      destruct (isCurrentOnly rec); [|done]. subst m1. cbn. unfold set_stored, modify, on_state, on_documents; cbn. by rewrite insert_insert_eq. }
  cbn [orb]. rewrite (update_address_run _ _ _ _ d indexed).
  - subst m2 d. unfold on_state, on_documentAddresses, with_documents. cbn.
    replace (doc_addr (created seq r c (act_retire a))) with k by done. by rewrite insert_insert_eq.
  - apply lookup_insert_eq.
  - apply lookup_insert_eq.
Qed.

(** * The loop over the actions *)

(** What the checks establish of an action before it is applied. *)
Definition pending_ok (s : State) (seq : Seq) (ida : Id * DocumentAction) : Prop :=
  let '(id, a) := ida in
  match act_create a with
  | Some r => create_id r = id /\ (forall t, ~ owner s id t) /\ exists c, act_content a = Some c /\ is_base c = true
  | None =>
      exists d, documents s !! id = Some d /\ doc_retiredAt (sd_record d) = None /\ stored_ok seq d /\
        match act_content a with
        | Some c => is_base c = true \/ exists p, last (sd_revisions d) = Some p /\ content_version (rev_content p) = content_version c
        | None => True
        end
  end.

(** The address an action makes a document current at. *)
Definition creator_key (ida : Id * DocumentAction) : option jsstr :=
  match act_create ida.2 with
  | Some r => if act_retire ida.2 then None else Some (createAddressKey r)
  | None => None
  end.

Definition retires (actions : Actions) (id : Id) : Prop := exists a, (id, a) ∈ actions /\ act_retire a = true.

Record actions_ok (s : State) (seq : Seq) (rem : Actions) : Prop := ActionsOk {
  ao_pending : Forall (pending_ok s seq) rem;
  ao_nodup : NoDup rem.*1;
  ao_live : forall k id, live_doc s k id -> current_id s k = Some id \/ retires rem id;
  ao_creators : NoDup (omap creator_key rem);
  ao_replaced : forall k y, k ∈ omap creator_key rem -> current_id s k = Some y -> retires rem y;
}.

Record documents_loop (seq : Seq) (m : MemoryStorage) (rem : Actions) : Prop := DocumentsLoop {
  dl_state : state_ok (state m) (seq + 1);
  dl_ids : ids_below m;
  dl_actions : actions_ok (state m) seq rem;
}.

(** ** One stored document *)

Lemma links_app p rs r :
  links p rs ->
  (is_base (rev_content r) = true \/ exists q, last (p :: rs) = Some q /\ content_version (rev_content q) = content_version (rev_content r)) ->
  links p (rs ++ [r]).
Proof.
  revert p. induction rs as [|r1 rs IH]; intros p; cbn [links app].
  - intros _ [H|(q & [= <-] & H)]; auto.
  - intros [H1 H2] Hr. split; [done|]. by apply IH.
Qed.

Lemma chain_ok_snoc rs r :
  chain_ok rs ->
  (is_base (rev_content r) = true \/ exists q, last rs = Some q /\ content_version (rev_content q) = content_version (rev_content r)) ->
  chain_ok (rs ++ [r]).
Proof. destruct rs as [|r0 rs]; [done|]. intros [H1 H2] Hr. split; [done|]. by apply links_app. Qed.

Lemma stored_ok_live bound d : stored_ok bound d -> doc_retiredAt (sd_record d) = None -> chain_ok (sd_revisions d).
Proof. intros (_ & _ & _ & _ & [H|(_ & _ & [q Hq])]) E; [done|congruence]. Qed.

Lemma changed_ok seq d content :
  stored_ok seq d -> doc_retiredAt (sd_record d) = None ->
  match content with
  | Some c => is_base c = true \/ exists p, last (sd_revisions d) = Some p /\ content_version (rev_content p) = content_version c
  | None => True
  end ->
  stored_ok (seq + 1) (changed seq d content) /\ sd_record (changed seq d content) = sd_record d.
Proof.
  intros Hd Hr Hc. destruct content as [c|]; [|split; [eapply stored_ok_mono; [|done]; lia|done]].
  pose proof (stored_ok_live _ _ Hd Hr) as Hch. destruct Hd as (H1 & H2 & H3 & H4 & _).
  unfold changed, stored_ok. destruct (is_base c && isCurrentOnly (sd_record d)) eqn:E; cbn [sd_record sd_revisions]; split; try done.
  - apply andb_true_iff in E as [Eb _]. split_and!; [lia|congruence|by repeat constructor| |by left].
    repeat constructor; cbn; lia.
  - split_and!; [lia|congruence| | |left; by apply chain_ok_snoc].
    + rewrite fmap_app. apply increasing_app. split_and!; [done|by repeat constructor|].
      intros x y Hx ->%list_elem_of_singleton. apply list_elem_of_fmap in Hx as (r & -> & Hx).
      rewrite Forall_forall in H4. specialize (H4 r Hx). cbn. lia.
    + apply Forall_app. split; [|repeat constructor; cbn; lia]. eapply Forall_impl; [exact H4|]. cbn. lia.
Qed.

Lemma retired_ok seq d : stored_ok (seq + 1) d -> doc_retiredAt (sd_record d) = None -> stored_ok (seq + 1) (retired seq d).
Proof.
  intros Hd Hr. pose proof (stored_ok_live _ _ Hd Hr) as Hch. destruct Hd as (H1 & H2 & H3 & H4 & _).
  unfold retired, stored_ok. cbn [sd_record sd_revisions retire_record doc_createdAt doc_retiredAt].
  assert (forall q, Some seq = Some q -> doc_createdAt (sd_record d) <= q < seq + 1) by (intros q [= <-]; lia).
  destruct (isCurrentOnly (sd_record d)) eqn:E; split_and!; try done; [constructor|right|by left].
  split_and!; [done|done|by eexists].
Qed.

Lemma changed_then_retired_ok seq d a :
  stored_ok seq d -> doc_retiredAt (sd_record d) = None ->
  match act_content a with
  | Some c => is_base c = true \/ exists p, last (sd_revisions d) = Some p /\ content_version (rev_content p) = content_version c
  | None => True
  end ->
  stored_ok (seq + 1) (changed_then_retired seq a d) /\
  sd_record (changed_then_retired seq a d) = (if act_retire a then retire_record (sd_record d) seq else sd_record d).
Proof.
  intros Hd Hr Hc. destruct (changed_ok _ _ _ Hd Hr Hc) as [H1 H2]. unfold changed_then_retired. cbn.
  destruct (act_retire a); [|done]. split; [apply retired_ok; [done|by rewrite H2]|]. unfold retired. cbn. by rewrite H2.
Qed.

Lemma created_ok seq r c retire : is_base c = true -> stored_ok (seq + 1) (created seq r c retire).
Proof.
  intros Hc. unfold created, stored_ok. cbn. set (record := record_of_create r seq retire).
  assert (Forall (fun rev => seq <= rev_seq rev < seq + 1) [Revision c seq]) as Hseq by (repeat constructor; cbn; lia).
  assert (chain_ok [Revision c seq]) as Hch by done.
  assert (increasing (rev_seq <$> [Revision c seq])) as Hinc by by repeat constructor.
  destruct (retire && isCurrentOnly record) eqn:E.
  - apply andb_true_iff in E as [-> E]. split_and!; [lia|intros q [= <-]; lia|constructor|constructor|right].
    split_and!; [done|done|by eexists].
  - split_and!; [lia| |done|done|by left]. destruct retire; [intros q [= <-]; lia|done].
Qed.

(** ** One action *)

Lemma current_id_at s k : current_id s k = ai_currentId (address_at s k).
Proof. unfold current_id, address_at. by destruct (documentAddresses s !! k). Qed.

Lemma documents_ok_insert s bound id d :
  documents_ok s bound -> documents s !! id = Some d ->
  exists a, documentAddresses s !! doc_addr d = Some a /\ id ∈ ai_ids a.
Proof.
  intros (_ & _ & Ha & _) Hd. destruct (Ha (doc_addr d)) as [_ Hin].
  assert (id ∈ default [] ((ai_ids <$> documentAddresses s) !! doc_addr d)) as H by (apply Hin; eauto).
  rewrite lookup_fmap in H. destruct (documentAddresses s !! doc_addr d) as [a|]; cbn in H; [eauto|by apply elem_of_nil in H].
Qed.

Lemma state_ok_with_documents s bound ds addrs scopes :
  state_ok s bound ->
  (forall x, is_Some (ds !! x) -> is_Some (documents s !! x) \/ forall t, ~ owner s x t) ->
  documents_ok (with_documents s ds addrs scopes) bound -> state_ok (with_documents s ds addrs scopes) bound.
Proof.
  intros [H1 H2 H3 H4 H5 H6] Hds Hd. split; try done.
  assert (forall x t, owner (with_documents s ds addrs scopes) x t ->
    owner s x t \/ t = TDocument /\ forall t, ~ owner s x t) as Ho.
  { intros x t H. destruct t; cbn in H; try (by left). destruct (Hds _ H) as [?|?]; [by left|by right]. }
  intros x t1 t2 [E1|[-> E1]]%Ho [E2|[-> E2]]%Ho; try done; [by apply (H1 x)|exfalso; by eapply E2|exfalso; by eapply E1].
Qed.

(** Actions on other documents do not see a change of [id]. *)
Lemma pending_ok_frame s s' seq id rem :
  id ∉ rem.*1 -> (forall x, x <> id -> documents s' !! x = documents s !! x) ->
  (forall x t, x <> id -> owner s' x t -> owner s x t) ->
  Forall (pending_ok s seq) rem -> Forall (pending_ok s' seq) rem.
Proof.
  intros Hid Hd Ho H. rewrite Forall_forall in *. intros [x a] Hx. specialize (H _ Hx). unfold pending_ok in *.
  assert (x <> id) as Hne by (intros ->; apply Hid; apply list_elem_of_fmap; by exists (id, a)).
  rewrite (Hd _ Hne). destruct (act_create a); [|done]. destruct H as (H1 & H2 & H3). split_and!; [done| |done].
  intros t Ht. eapply H2. by apply Ho.
Qed.

Lemma retires_cons id a rem x : retires ((id, a) :: rem) x -> (x = id /\ act_retire a = true) \/ retires rem x.
Proof. intros (a' & [[= -> ->]|H]%elem_of_cons & Hr); [by left|right; by exists a']. Qed.

Lemma retires_elem rem x : retires rem x -> x ∈ rem.*1.
Proof. intros (a & H & _). apply list_elem_of_fmap. by exists (x, a). Qed.

Lemma live_doc_insert s ds' addrs scopes id d' k x :
  ds' = <[id := d']> (documents s) ->
  live_doc (with_documents s ds' addrs scopes) k x <->
  (x = id /\ doc_addr d' = k /\ doc_retiredAt (sd_record d') = None) \/ (x <> id /\ live_doc s k x).
Proof.
  intros ->. unfold live_doc. cbn. destruct (decide (x = id)) as [->|Hx];
    [rewrite lookup_insert_eq|rewrite lookup_insert_ne by done]; naive_solver.
Qed.

(** The document an action leaves. *)
Definition action_result (seq : Seq) (s : State) (ida : Id * DocumentAction) : option StoredDocumentState :=
  match act_create ida.2, act_content ida.2 with
  | Some r, Some c => Some (created seq r c (act_retire ida.2))
  | Some _, None => None
  | None, _ => changed_then_retired seq ida.2 <$> documents s !! ida.1
  end.

(** An action changes its document and the document indexes. *)
Definition action_effect (seq : Seq) (ida : Id * DocumentAction) (m m' : MemoryStorage) : Prop :=
  nextSeq m' = nextSeq m /\ closed m' = closed m /\
  exists d addrs scopes, action_result seq (state m) ida = Some d /\
    state m' = with_documents (state m) (<[ida.1 := d]> (documents (state m))) addrs scopes.

Section Step.
Variables (seq : Seq) (m : MemoryStorage) (id : Id) (a : DocumentAction) (rem : Actions).
Hypothesis Hloop : documents_loop seq m ((id, a) :: rem).

Let s := state m.

Local Lemma step_nodup : (id ∉ rem.*1) /\ NoDup (rem.*1).
Proof. apply NoDup_cons. apply (ao_nodup _ _ _ (dl_actions _ _ _ Hloop)). Qed.

Local Lemma step_pending : pending_ok s seq (id, a) /\ Forall (pending_ok s seq) rem.
Proof. apply Forall_cons. apply (ao_pending _ _ _ (dl_actions _ _ _ Hloop)). Qed.

Lemma step_existing : act_create a = None ->
  exists m', applyDocumentAction seq (id, a) m = (m', Ok tt) /\ action_effect seq (id, a) m m' /\ documents_loop seq m' rem.
Proof.
  intros Hc. pose proof step_pending as [Hp Hrem]. pose proof step_nodup as [Hid Hnd].
  destruct Hloop as [Hs Hids [_ _ Hlive Hcr Hrep]]. fold s in Hs, Hlive, Hrep.
  cbn in Hp. rewrite Hc in Hp. destruct Hp as (d & Hd & Hr & Hok & Hcont).
  destruct (so_documents _ _ Hs) as (D1 & D2 & D3 & D4 & D5).
  destruct (documents_ok_insert _ _ _ _ (so_documents _ _ Hs) Hd) as (addr & Ha & Hin).
  destruct (changed_then_retired_ok _ _ _ Hok Hr Hcont) as [Hok' Hrec]. set (d' := changed_then_retired seq a d) in *.
  eexists. split; [by apply (apply_existing_run _ _ _ _ d addr)|]. fold s d'.
  split. { split_and!; [done..|]. exists d'. do 2 eexists. split; [|done]. unfold action_result. cbn. rewrite Hc. change (changed_then_retired seq a <$> documents s !! id = Some d'). by rewrite Hd. }
  set (addrs := if act_retire a then <[doc_addr d := updated id false true addr]> (documentAddresses s) else documentAddresses s).
  set (s' := with_documents s (<[id := d']> (documents s)) addrs (documentIdsByScope s)).
  assert (doc_addr d' = doc_addr d) as Haddr by (unfold doc_addr; rewrite Hrec; by destruct (act_retire a)).
  assert (doc_retiredAt (sd_record d') = if act_retire a then Some seq else None) as Hret by (rewrite Hrec; by destruct (act_retire a)).
  assert (forall k x, live_doc s' k x <-> (x = id /\ doc_addr d = k /\ act_retire a = false) \/ (x <> id /\ live_doc s k x)) as Hl.
  { intros k x. unfold s'. rewrite (live_doc_insert _ _ _ _ id d'), Haddr, Hret by done. destruct (act_retire a); naive_solver. }
  assert (live_doc s (doc_addr d) id) as Hlid by (exists d; done).
  assert (forall k y, current_id s' k = Some y <-> current_id s k = Some y /\ (act_retire a = true -> y <> id)) as Hcur.
  { intros k y. unfold current_id, s', addrs. cbn. destruct (act_retire a) eqn:Er; [|naive_solver].
    destruct (decide (doc_addr d = k)) as [<-|Hk]; [rewrite lookup_insert_eq, Ha|rewrite lookup_insert_ne by done].
    - cbn. case_bool_decide; naive_solver.
    - split; [|tauto]. intros H. split; [done|]. intros _ ->. destruct (D4 k id H) as (d1 & E1 & E2 & _). congruence. }
  assert (forall x, is_Some (<[id := d']> (documents s) !! x) <-> is_Some (documents s !! x)) as Hdom.
  { intros x. destruct (decide (x = id)) as [->|Hx]; [rewrite lookup_insert_eq, Hd|by rewrite lookup_insert_ne].
    split; intros _; by eexists. }
  split.
  - cbn. apply state_ok_with_documents; [done|intros x Hx; left; by apply Hdom|]. split_and!.
    + intros x r. cbn. destruct (decide (x = id)) as [->|Hx]; [rewrite lookup_insert_eq|rewrite lookup_insert_ne by done; apply D1].
      intros [= <-]. rewrite Hrec. destruct (act_retire a); apply (D1 _ _ Hd).
    + cbn. apply (index_by_replace _ _ _ _ d); [done|done|]. rewrite Hrec. by destruct (act_retire a).
    + cbn. replace (ai_ids <$> addrs) with (ai_ids <$> documentAddresses s).
      2:{ unfold addrs. destruct (act_retire a); [|done]. rewrite fmap_insert. symmetry. apply insert_id. by rewrite lookup_fmap, Ha. }
      apply (index_by_replace _ _ _ _ d); [done|done|]. by rewrite Haddr.
    + intros k x Hx. apply Hl. apply Hcur in Hx as [Hx Hne]. specialize (D4 k x Hx).
      destruct (decide (x = id)) as [->|Hxid]; [left|by right]. split_and!; [done| |].
      * destruct D4 as (d1 & E1 & E2 & _). congruence.
      * destruct (act_retire a); [by destruct (Hne eq_refl)|done].
    + cbn. intros x d1. destruct (decide (x = id)) as [->|Hx]; [rewrite lookup_insert_eq|rewrite lookup_insert_ne by done; apply D5].
      by intros [= <-].
  - intros x t H. apply (Hids x t). destruct t; cbn in H; try done. cbn. by apply Hdom.
  - split; [|done| | |].
    + apply (pending_ok_frame s _ _ id); [done| | |done].
      * intros x Hx. cbn. by rewrite lookup_insert_ne.
      * intros x t Hx H. destruct t; cbn in H; try done. cbn. by apply Hdom.
    + cbn [state]. fold s'. intros k x [(-> & <- & Hf)|[Hx Hx']]%Hl.
      * left. apply Hcur. split; [|congruence]. destruct (Hlive _ _ Hlid) as [?|H]; [done|].
        exfalso. apply retires_cons in H as [[_ ?]|?%retires_elem]; [congruence|done].
      * destruct (Hlive k x Hx') as [?|[[? _]|?]%retires_cons]; [left; by apply Hcur|done|by right].
    + cbn in Hcr. unfold creator_key in Hcr at 1. cbn in Hcr. by rewrite Hc in Hcr.
    + cbn [state]. fold s'. intros k y Hk [Hy Hne]%Hcur.
      destruct (retires_cons id a rem y) as [[-> Hr']|?]; [|by destruct (Hne Hr')|done].
      apply (Hrep k y); [|done]. cbn. unfold creator_key at 1. cbn. by rewrite Hc.
Qed.

Lemma step_create r : act_create a = Some r ->
  exists m', applyDocumentAction seq (id, a) m = (m', Ok tt) /\ action_effect seq (id, a) m m' /\ documents_loop seq m' rem.
Proof.
  intros Hc. pose proof step_pending as [Hp Hrem]. pose proof step_nodup as [Hid Hnd].
  destruct Hloop as [Hs Hids [_ _ Hlive Hcr Hrep]]. fold s in Hs, Hlive, Hrep.
  cbn in Hp. rewrite Hc in Hp. destruct Hp as (Hrid & Hfresh & c & Hcont & Hbase).
  destruct (so_documents _ _ Hs) as (D1 & D2 & D3 & D4 & D5).
  assert (documents s !! id = None) as Hnone by (apply eq_None_not_Some, (Hfresh TDocument)).
  eexists. split; [by apply (apply_create_run _ _ _ _ r c)|]. fold s.
  split. { split_and!; [done..|]. do 3 eexists. split; [|done]. unfold action_result. cbn. by rewrite Hc, Hcont. }
  set (d' := created seq r c (act_retire a)). set (k0 := createAddressKey r).
  set (addrs := <[k0 := _]> (documentAddresses s)).
  set (s' := with_documents s (<[id := d']> (documents s)) addrs (insert_under (scopeKey (create_scope r)) id (documentIdsByScope s))).
  assert (forall k, ~ live_doc s k id) as Hnl by (intros k (d1 & E1 & _); congruence).
  assert (forall k x, live_doc s' k x <-> (x = id /\ k0 = k /\ act_retire a = false) \/ (x <> id /\ live_doc s k x)) as Hl.
  { intros k x. unfold s'. rewrite (live_doc_insert _ _ _ _ id d') by done. subst d'. cbn. change (doc_addr _) with k0.
    destruct (act_retire a); naive_solver. }
  assert (forall k, current_id s' k = if decide (k0 = k /\ act_retire a = false) then Some id else current_id s k) as Hcur.
  { intros k. unfold current_id at 1, s', addrs. cbn. destruct (decide (k0 = k)) as [<-|Hk].
    - rewrite lookup_insert_eq. cbn. rewrite <- current_id_at. destruct (act_retire a); cbn.
      + rewrite decide_False by naive_solver. rewrite bool_decide_false; [done|]. intros H. by apply (Hnl k0), D4.
      + by rewrite decide_True.
    - rewrite lookup_insert_ne by done. by rewrite decide_False by naive_solver. }
  assert (forall k, k0 = k -> act_retire a = false -> k ∉ omap creator_key rem) as Hk0.
  { intros k <- Hf. cbn in Hcr. unfold creator_key in Hcr at 1. cbn in Hcr. rewrite Hc, Hf in Hcr. by apply NoDup_cons in Hcr as [? _]. }
  assert (forall k, k ∈ omap creator_key rem -> k ∈ omap creator_key ((id, a) :: rem)) as Hsub.
  { intros k Hk. cbn. destruct (creator_key (id, a)); [by right|done]. }
  split.
  - cbn. apply state_ok_with_documents; [done| |].
    { intros x [d1 Hx]. destruct (decide (x = id)) as [->|Hne]; [right; exact Hfresh|left]. rewrite lookup_insert_ne in Hx by done. by exists d1. }
    split_and!.
    + intros x d1. cbn. destruct (decide (x = id)) as [->|Hx]; [rewrite lookup_insert_eq|rewrite lookup_insert_ne by done; apply D1].
      intros [= <-]. exact Hrid.
    + cbn. by apply index_by_insert.
    + cbn. unfold addrs. rewrite fmap_insert.
      replace (<[k0 := _]> (ai_ids <$> documentAddresses s)) with (insert_under k0 id (ai_ids <$> documentAddresses s)).
      { by apply index_by_insert. }
      unfold insert_under. cbn. rewrite lookup_fmap. unfold address_at. by destruct (documentAddresses s !! k0).
    + intros k x. fold s'. rewrite Hcur, Hl. destruct (decide (k0 = k /\ act_retire a = false)) as [E|E].
      * intros Hx. apply (inj Some) in Hx. left. by destruct E.
      * intros H. right. specialize (D4 k x H). split; [|done]. intros ->. by eapply Hnl.
    + cbn. intros x d1. destruct (decide (x = id)) as [->|Hx]; [rewrite lookup_insert_eq|rewrite lookup_insert_ne by done; apply D5].
      intros [= <-]. by apply created_ok.
  - intros x t H. cbn [state nextId] in *. destruct (decide (x = id)) as [->|Hx]; [lia|].
    enough (x < nextId m) by lia. apply (Hids x t). destruct t; cbn in H; try done. cbn. by rewrite lookup_insert_ne in H.
  - cbn [state]. fold s'. split; [|done| | |].
    + apply (pending_ok_frame s _ _ id); [done| | |done].
      * intros x Hx. cbn. by rewrite lookup_insert_ne.
      * intros x t Hx H. destruct t; cbn in H; try done. cbn. by rewrite lookup_insert_ne in H.
    + intros k x. rewrite Hl, Hcur. intros [(-> & <- & Hf)|[Hx Hx']]; [left; by rewrite decide_True|].
      destruct (Hlive k x Hx') as [Hcx|[[? _]|?]%retires_cons]; [|done|by right].
      destruct (decide (k0 = k /\ act_retire a = false)) as [E|E]; [|by left]. right. destruct E as [<- Hf].
      destruct (retires_cons id a rem x) as [[? _]|?]; [|done|done].
      apply (Hrep k0); [|done]. cbn. unfold creator_key at 1. cbn. rewrite Hc, Hf. by left.
    + cbn in Hcr. destruct (creator_key (id, a)); [by apply NoDup_cons in Hcr as [_ ?]|done].
    + intros k y Hk. rewrite Hcur. destruct (decide (k0 = k /\ act_retire a = false)) as [E|E]; [exfalso; destruct E as [E1 E2]; by apply (Hk0 k)|].
      intros Hy. destruct (retires_cons id a rem y) as [[-> _]|?]; [|by destruct (Hnl k); apply D4|done].
      apply (Hrep k y); [by apply Hsub|done].
Qed.
End Step.

(** ** All of them *)

Lemma apply_action_ok seq m id a rem :
  documents_loop seq m ((id, a) :: rem) ->
  exists m', applyDocumentAction seq (id, a) m = (m', Ok tt) /\ action_effect seq (id, a) m m' /\ documents_loop seq m' rem.
Proof. intros H. destruct (act_create a) as [r|] eqn:E; [by apply (step_create _ _ _ _ _ H r)|by apply step_existing]. Qed.

(** The tables other than the documents, the counters and the flag. *)
Definition same_tables (m m' : MemoryStorage) : Prop :=
  nextSeq m' = nextSeq m /\ closed m' = closed m /\
  exists ds addrs scopes, state m' = with_documents (state m) ds addrs scopes.

(** After the checks the loop over the actions cannot throw; every document
    has the result of its action. *)
Lemma apply_actions_ok seq m rem :
  documents_loop seq m rem ->
  exists m', for_each (applyDocumentAction seq) rem m = (m', Ok tt) /\ same_tables m m' /\ documents_loop seq m' [] /\
    forall x, documents (state m') !! x =
      match amap_get rem x with Some a => action_result seq (state m) (x, a) | None => documents (state m) !! x end.
Proof.
  revert m. induction rem as [|[id a] rem IH]; intros m Hloop.
  - exists m. split_and!; [done| |done|done]. split_and!; [done..|]. destruct m as [[] ? ? ?]. by do 3 eexists.
  - pose proof (ao_nodup _ _ _ (dl_actions _ _ _ Hloop)) as Hnd. apply NoDup_cons in Hnd as [Hid _].
    destruct (apply_action_ok _ _ _ _ _ Hloop) as (m1 & E1 & (Q1 & C1 & d & addrs & scopes & Hd & Hs1) & L1).
    destruct (IH m1 L1) as (m2 & E2 & (Q2 & C2 & ds2 & a2 & sc2 & Hs2) & L2 & Hx2).
    exists m2. split_and!; [cbn; rewrite (bind_run _ _ _ _ _ E1); done| |done|].
    + split_and!; [congruence|congruence|]. exists ds2, a2, sc2. by rewrite Hs2, Hs1.
    + intros x. rewrite Hx2, Hs1. cbn [amap_get documents with_documents fst]. destruct (decide (id = x)) as [<-|Hx].
      * assert (amap_get rem id = None) as -> by (by apply amap_get_None). by rewrite lookup_insert_eq, Hd.
      * unfold action_result. cbn. by rewrite lookup_insert_ne.
Qed.

(** When no action is left, the live document of an address is its current one. *)
Lemma documents_loop_done seq m : documents_loop seq m [] -> forall k id, current_id (state m) k = Some id <-> live_doc (state m) k id.
Proof.
  intros [Hs _ [_ _ Hl _ _]] k id. split; [apply (so_documents _ _ Hs)|].
  intros H. destruct (Hl k id H) as [?|(a & ?%elem_of_nil & _)]; done.
Qed.
