(* ===== verification/MemoryStorageCommit.v ===== *)
(** [MemoryStorage.commit] as a whole: the invariant, atomicity, and what a
    commit writes. *)
From S2P Require Import Prelude JsBase JsonText Json DeltaOps DurableTypes SortedIds MemoryStorage MemoryStorageInv MemoryStorageTables MemoryStorageDocuments.

(** * The ids a commit claims *)

Lemma checkGlobalId_None s0 claimed w claimed' :
  write_claim w = None -> checkGlobalId s0 claimed w = Ok claimed' -> claimed' = claimed.
Proof. intros Hw. unfold checkGlobalId. rewrite Hw. by intros [= <-]. Qed.

Lemma checkGlobalIds_keep s0 ws claimed claimed' id t :
  disjoint_tables s0 -> foldM (checkGlobalId s0) claimed ws = Ok claimed' -> claimed !! id = Some t -> claimed' !! id = Some t.
Proof.
  intros Hd. revert claimed. induction ws as [|w ws IH]; intros claimed; cbn; [by intros [= <-]|].
  intros (c1 & Hw & Hws)%bind_Ok Ht. apply (IH c1 Hws). destruct (write_claim w) as [[t' id']|] eqn:Ew.
  - destruct (checkGlobalId_Ok _ _ _ _ _ _ Hd Ew Hw) as [-> [_ Hc]].
    destruct (decide (id' = id)) as [->|]; [|by rewrite lookup_insert_ne]. rewrite lookup_insert_eq. f_equal. symmetry. apply Hc. by left.
  - by rewrite (checkGlobalId_None _ _ _ _ Ew Hw).
Qed.

Lemma checkGlobalIds_claimed s0 ws claimed claimed' w t id :
  disjoint_tables s0 -> foldM (checkGlobalId s0) claimed ws = Ok claimed' -> w ∈ ws -> write_claim w = Some (t, id) ->
  claimed' !! id = Some t.
Proof.
  intros Hd. revert claimed. induction ws as [|w0 ws IH]; intros claimed; cbn; [by intros _ ?%elem_of_nil|].
  intros (c1 & Hw & Hws)%bind_Ok [<-|Hin]%elem_of_cons Ew; [|by apply (IH c1)].
  destruct (checkGlobalId_Ok _ _ _ _ _ _ Hd Ew Hw) as [-> _].
  eapply checkGlobalIds_keep; [done|exact Hws|apply lookup_insert_eq].
Qed.

(** An immutable record is written under an id nothing has. *)
Lemma checkGlobalIds_fresh s0 ws claimed' id t :
  disjoint_tables s0 -> foldM (checkGlobalId s0) ∅ ws = Ok claimed' -> claimed' !! id = Some t -> table_immutable t = true ->
  forall t', ~ owner s0 id t'.
Proof.
  intros Hd Hf. revert id t.
  enough (forall id t, claimed' !! id = Some t -> table_immutable t = true -> forall t', ~ owner s0 id t') by done.
  eapply (foldM_invariant (fun claimed : gmap Id TableName => forall id t, claimed !! id = Some t -> table_immutable t = true ->
    forall t', ~ owner s0 id t')); [|by intros id t; rewrite lookup_empty|exact Hf].
  intros claimed w c1 _ Hc Hw id t. destruct (write_claim w) as [[t' id']|] eqn:Ew.
  - destruct (checkGlobalId_Ok _ _ _ _ _ _ Hd Ew Hw) as [-> [Hfr _]].
    destruct (decide (id' = id)) as [->|]; [|rewrite lookup_insert_ne by done; apply Hc].
    rewrite lookup_insert_eq. intros [= <-] Ht. by apply Hfr.
  - rewrite (checkGlobalId_None _ _ _ _ Ew Hw). apply Hc.
Qed.

(** * The document actions of a commit *)

Definition creations_from (ws : list StorageWrite) (actions : Actions) : Prop :=
  forall id a r, amap_get actions id = Some a -> act_create a = Some r ->
    create_id r = id /\ exists c, WriteDocumentCreate r c ∈ ws /\ act_content a = Some c.

Lemma prepareDocumentAction_ok ws actions w actions' :
  w ∈ ws -> NoDup actions.*1 -> creations_from ws actions -> prepareDocumentAction actions w = Ok actions' ->
  NoDup actions'.*1 /\ creations_from ws actions'.
Proof.
  intros Hw Hnd Hcr H. unfold creations_from in *. destruct w; cbn in H; try (by apply Ok_inj in H as <-); res_inv;
    (split; [by apply amap_set_NoDup|]); intros y a r; rewrite amap_get_set; case_decide as Ex; try apply Hcr; intros [= <-]; cbn.
  - intros [= <-]. eauto.
  - destruct (amap_get actions id) as [a0|] eqn:Ea; cbn; [|done]. intros Hr. subst y.
    destruct (Hcr _ _ _ Ea Hr) as (_ & c & _ & Hc). cbn in H. rewrite Hc in H. by rewrite bool_decide_true in H by eauto.
  - destruct (amap_get actions id) as [a0|] eqn:Ea; cbn; [|done]. intros Hr. subst y. eauto.
Qed.

Lemma prepareDocumentActions_ok ws actions :
  prepareDocumentActions ws = Ok actions -> NoDup actions.*1 /\ creations_from ws actions.
Proof.
  intros H. eapply (foldM_invariant (fun acts => NoDup acts.*1 /\ creations_from ws acts)); [| |exact H].
  - intros acts w acts' Hw [H1 H2] Hp. by eapply prepareDocumentAction_ok.
  - split; [constructor|]. intros id a r. done.
Qed.

(** ** The live counts *)

Section Counts.
Variable s : State.

Definition action_key (ida : Id * DocumentAction) : jsstr :=
  match act_create ida.2 with
  | Some r => createAddressKey r
  | None => match documents s !! ida.1 with Some d => doc_addr d | None => [] end
  end.

Definition live0 (k : jsstr) : Z := match current_id s k with None => 0 | Some _ => 1 end.

Definition creates_at (k : jsstr) (ida : Id * DocumentAction) : bool := bool_decide (creator_key ida = Some k).
Definition retires_at (k : jsstr) (ida : Id * DocumentAction) : bool :=
  act_retire ida.2 && bool_decide (action_key ida = k /\ current_id s k = Some ida.1).

Definition Zcount (f : Id * DocumentAction -> bool) (l : Actions) : Z := foldr (fun x n => (if f x then 1 else 0) + n) 0 l.

Definition existing_pending (ida : Id * DocumentAction) : Prop :=
  match act_create ida.2 with
  | Some r => documents s !! ida.1 = None /\ exists c, act_content ida.2 = Some c /\ is_base c = true
  | None =>
      exists d, documents s !! ida.1 = Some d /\ doc_retiredAt (sd_record d) = None /\
        match act_content ida.2 with
        | Some c => is_base c = true \/ exists p, last (sd_revisions d) = Some p /\ content_version (rev_content p) = content_version c
        | None => True
        end
  end.

Lemma check_delta_Ok previous content :
  check_delta previous content = Ok tt ->
  match content with
  | Some c => is_base c = true \/ exists p, previous = Some p /\ content_version (rev_content p) = content_version c
  | None => True
  end.
Proof.
  destruct content as [[v value|v ops]|]; cbn; [by left| |done]. intros H. right. res_inv. exists x. split; [done|]. bool_lia.
Qed.

Lemma live_update k creates retire id live :
  (let live := if retire && bool_decide (current_id s k = Some id) then live - 1 else live in
   if creates && negb retire then live + 1 else live) =
  live + (if bool_decide ((if creates then if retire then None else Some k else None) = Some k) then 1 else 0)
       - (if retire && bool_decide (k = k /\ current_id s k = Some id) then 1 else 0).
Proof.
  rewrite (bool_decide_ext (k = k /\ _) (current_id s k = Some id)) by tauto.
  destruct (bool_decide (current_id s k = Some id)), creates, retire; cbn [andb negb];
    rewrite ?(bool_decide_true (Some k = Some k)), ?(bool_decide_false (None = Some k)) by done; lia.
Qed.

Lemma checkDocumentAction_Ok lc ida lc' :
  checkDocumentAction s lc ida = Ok lc' ->
  existing_pending ida /\
  let k := action_key ida in
  lc' = <[k := default (live0 k) (lc !! k) + (if creates_at k ida then 1 else 0) - (if retires_at k ida then 1 else 0)]> lc.
Proof.
  destruct ida as [id a]. unfold checkDocumentAction, existing_pending, action_key, retires_at, creates_at, creator_key, action_key.
  cbn [fst snd]. intros H. apply bind_Ok in H as (u1 & H1 & H). apply bind_Ok in H as (u2 & H2 & H). apply bind_Ok in H as (u3 & H3 & H).
  apply bind_Ok in H as (u4 & H4 & H). apply bind_Ok in H as ([] & H5 & H). apply bind_Ok in H as (k & H6 & H). apply Ok_inj in H.
  apply throw_if_Ok in H1, H2, H3, H4. apply check_delta_Ok in H5.
  assert (forall k, match lc !! k with Some l => l | None => match documentAddresses s !! k ≫= ai_currentId with None => 0 | Some _ => 1 end end
    = default (live0 k) (lc !! k)) as Hd by (intros k'; by destruct (lc !! k')).
  rewrite Hd in H. clear Hd. destruct (act_create a) as [r|].
  - rewrite (bool_decide_true (is_Some (Some r))) in * by eauto. apply Ok_inj in H6 as <-. cbn [andb negb] in *.
    apply bool_decide_eq_false in H2. rewrite <- eq_None_not_Some in H2. split.
    + split; [done|]. destruct (act_content a) as [c|]; [|done]. exists c. apply negb_false_iff in H4. done.
    + rewrite <- H. f_equal. change (documentAddresses s !! createAddressKey r ≫= ai_currentId) with (current_id s (createAddressKey r)).
      apply (live_update (createAddressKey r) true (act_retire a)).
  - rewrite (bool_decide_false (is_Some None)) in * by (by intros [? ?]). cbn [andb negb] in *.
    destruct (documents s !! id) as [d|] eqn:Ed; [|done]. apply Ok_inj in H6 as <-. cbn in H5, H3.
    apply bool_decide_eq_false in H3. rewrite <- eq_None_not_Some in H3. split; [by exists d|].
    rewrite <- H. f_equal. unfold doc_addr. change (documentAddresses s !! recordAddressKey (sd_record d) ≫= ai_currentId) with (current_id s (recordAddressKey (sd_record d))).
    apply (live_update (recordAddressKey (sd_record d)) false (act_retire a)).
Qed.

Lemma checkDocumentActions_counts l lc lc' :
  foldM (checkDocumentAction s) lc l = Ok lc' ->
  Forall existing_pending l /\
  forall k, default (live0 k) (lc' !! k) = default (live0 k) (lc !! k) + Zcount (creates_at k) l - Zcount (retires_at k) l.
Proof.
  revert lc. induction l as [|x l IH]; intros lc; cbn [foldM Zcount foldr].
  - intros [= <-]. split; [constructor|]. intros k. lia.
  - intros (lc1 & [Hx ->]%checkDocumentAction_Ok & [Hl Hk]%IH)%bind_Ok. split; [by constructor|]. intros k. rewrite Hk. clear Hk.
    fold (Zcount (creates_at k) l) (Zcount (retires_at k) l).
    destruct (decide (action_key x = k)) as [<-|Hne]; [rewrite lookup_insert_eq; cbn; lia|rewrite lookup_insert_ne by done].
    assert (creates_at k x = false) as ->.
    { apply bool_decide_eq_false. unfold creator_key, action_key in *. destruct (act_create x.2); [|done].
      destruct (act_retire x.2); congruence. }
    assert (retires_at k x = false) as ->; [|lia]. unfold retires_at. rewrite bool_decide_false by naive_solver. apply andb_false_r.
Qed.

Lemma Zcount_nonneg f l : 0 <= Zcount f l.
Proof. induction l as [|x l IH]; cbn; [lia|]. fold (Zcount f l). destruct (f x); lia. Qed.

Lemma Zcount_pos f l : 1 <= Zcount f l <-> exists x, x ∈ l /\ f x = true.
Proof.
  induction l as [|x l IH]; cbn; [split; [lia|intros (x & ?%elem_of_nil & _); done]|]. fold (Zcount f l).
  pose proof (Zcount_nonneg f l). destruct (f x) eqn:E.
  - split; [intros _; exists x; split; [by left|done]|lia].
  - rewrite IH. split; [intros (y & Hy & Hf); exists y; split; [by right|done]|].
    intros (y & [->|Hy]%elem_of_cons & Hf); [congruence|eauto].
Qed.

Lemma Zcount_le_1 f l id : NoDup l.*1 -> (forall x, f x = true -> x.1 = id) -> Zcount f l <= 1.
Proof.
  intros Hnd Hf. induction l as [|x l IH]; cbn; [lia|]. fold (Zcount f l). apply NoDup_cons in Hnd as [Hx Hnd].
  specialize (IH Hnd). destruct (f x) eqn:E; [|lia]. enough (~ 1 <= Zcount f l) by lia.
  rewrite Zcount_pos. intros (y & Hy & Ey). apply Hx. rewrite (Hf x E), <- (Hf y Ey). by apply list_elem_of_fmap_2.
Qed.

Lemma retirers_le k l : NoDup l.*1 -> Zcount (retires_at k) l <= live0 k.
Proof.
  intros Hnd. unfold live0. destruct (current_id s k) as [y|] eqn:E.
  - apply (Zcount_le_1 _ _ y); [done|]. unfold retires_at. intros x [_ H]%andb_true_iff.
    apply bool_decide_eq_true in H as [_ H]. congruence.
  - enough (~ 1 <= Zcount (retires_at k) l) by lia. rewrite Zcount_pos. unfold retires_at.
    intros (x & _ & [_ H]%andb_true_iff). apply bool_decide_eq_true in H as [_ H]. congruence.
Qed.

Lemma creators_pos k l : k ∈ omap creator_key l -> 1 <= Zcount (creates_at k) l.
Proof.
  rewrite list_elem_of_omap. intros (x & Hx & E). apply Zcount_pos. exists x. split; [done|]. by apply bool_decide_eq_true.
Qed.

Lemma creators_NoDup l : (forall k, Zcount (creates_at k) l <= 1) -> NoDup (omap creator_key l).
Proof.
  induction l as [|x l IH]; intros H; cbn; [constructor|].
  assert (forall k, Zcount (creates_at k) l <= 1) as Hl.
  { intros k. specialize (H k). cbn in H. fold (Zcount (creates_at k) l) in H. destruct (creates_at k x); lia. }
  destruct (creator_key x) as [k|] eqn:E; [|by apply IH]. constructor; [|by apply IH].
  intros Hk%creators_pos. specialize (H k). cbn in H. fold (Zcount (creates_at k) l) in H.
  replace (creates_at k x) with true in H by (symmetry; by apply bool_decide_eq_true). lia.
Qed.

Lemma checkDocumentActions_ok l :
  NoDup l.*1 -> checkDocumentActions s l = Ok tt ->
  Forall existing_pending l /\ NoDup (omap creator_key l) /\
  forall k y, k ∈ omap creator_key l -> current_id s k = Some y -> retires l y.
Proof.
  intros Hnd. unfold checkDocumentActions. intros (lc & [Hp Hk]%checkDocumentActions_counts & H)%bind_Ok.
  apply throw_if_Ok, bool_decide_eq_false in H. split; [done|].
  assert (forall k, live0 k + Zcount (creates_at k) l - Zcount (retires_at k) l <= 1) as Hle.
  { intros k. specialize (Hk k). rewrite lookup_empty in Hk. cbn in Hk. rewrite <- Hk. destruct (lc !! k) as [n|] eqn:E; cbn.
    - apply Z.nlt_ge. intros Hn. apply H. by exists k, n.
    - unfold live0. destruct (current_id s k); lia. }
  split.
  - apply creators_NoDup. intros k. pose proof (retirers_le k l Hnd). specialize (Hle k). lia.
  - intros k y Hk1%creators_pos Hy. specialize (Hle k). unfold live0 in Hle. rewrite Hy in Hle.
    assert (1 <= Zcount (retires_at k) l) as (x & Hx & Hr)%Zcount_pos by lia. unfold retires_at in Hr.
    apply andb_true_iff in Hr as [Hr Hd]. apply bool_decide_eq_true in Hd as [_ Hd].
    destruct x as [x a]. exists a. cbn in *. split; [congruence|done].
Qed.
End Counts.

(** * The commit *)

(** A commit that passes its checks applies completely. *)
Lemma commit_run ws m claimed actions :
  storage_inv m -> closed m = false ->
  checkGlobalIds (state m) ws = Ok claimed -> prepareDocumentActions ws = Ok actions ->
  checkDocumentActions (state m) actions = Ok tt ->
  exists m1 m2, commit ws m = (bump_seq m2, Ok (nextSeq m)) /\
    for_each (apply_write (nextSeq m)) ws m = (m1, Ok tt) /\ tables_loop (state m) (nextSeq m) claimed m1 /\
    same_tables m1 m2 /\ documents_loop (nextSeq m) m2 [] /\
    forall x, documents (state m2) !! x =
      match amap_get actions x with
      | Some a => action_result (nextSeq m) (state m) (x, a)
      | None => documents (state m) !! x
      end.
Proof.
  intros Hinv Hopen Hids Hprep Hcheck. assert (disjoint_tables (state m)) as Hd by apply (si_state _ Hinv).
  destruct (apply_writes_ok _ _ _ _ _ _ Hd (tables_loop_start m Hinv Hopen) Hids) as (m1 & E1 & L1).
  destruct (prepareDocumentActions_ok _ _ Hprep) as [Hnd Hcr].
  destruct (checkDocumentActions_ok _ _ Hnd Hcheck) as (Hp & Hc1 & Hc2).
  assert (documents_loop (nextSeq m) m1 actions) as L2.
  { destruct L1 as [S1 I1 O1 D1 A1 _ _ _]. split; [done|done|]. split; [|done| |done|].
    - rewrite Forall_forall in *. intros [id a] Hin. specialize (Hp _ Hin). unfold existing_pending, pending_ok in *. cbn in Hp.
      destruct (act_create a) as [r|] eqn:Er.
      + assert (amap_get actions id = Some a) as Ha by by apply amap_get_elem.
        destruct (Hcr _ _ _ Ha Er) as (Hrid & c & Hw & _). split_and!; [done| |by destruct Hp].
        assert (claimed !! id = Some TDocument) as Hcl.
        { rewrite <- Hrid. by apply (checkGlobalIds_claimed (state m) ws ∅ claimed (WriteDocumentCreate r c)). }
        intros t Ht%O1. destruct Ht as [Ht|[Ht1 Ht2]]; [|congruence].
        by apply (checkGlobalIds_fresh _ _ _ _ _ Hd Hids Hcl eq_refl t).
      + destruct Hp as (d & H1 & H2 & H3). exists d. rewrite D1. split_and!; [done|done| |done].
        by eapply (so_documents _ _ (si_state _ Hinv)).
    - intros k id (d & H1 & H2). left. unfold current_id. rewrite A1. apply (si_current _ Hinv). exists d. by rewrite <- D1.
    - intros k y Hk. unfold current_id. rewrite A1. by apply Hc2. }
  destruct (apply_actions_ok _ _ _ L2) as (m2 & E2 & T2 & L3 & X2). exists m1, m2. split_and!; try done.
  - unfold commit. rewrite (bind_run _ _ _ m tt) by (unfold reads_state, assertOpen; by rewrite Hopen).
    rewrite (bind_run _ _ _ m (nextSeq m)) by done. rewrite (bind_run _ _ _ m claimed) by (unfold reads_state; by rewrite Hids).
    rewrite (bind_run _ _ _ m actions) by (unfold reads_state; by rewrite Hprep).
    rewrite (bind_run _ _ _ m tt) by (unfold reads_state; by rewrite Hcheck).
    rewrite (bind_run _ _ _ m1 tt) by done. rewrite (bind_run _ _ _ m2 tt) by done. done.
  - intros x. rewrite X2, (tl_documents _ _ _ _ L1). unfold action_result. by rewrite (tl_documents _ _ _ _ L1).
Qed.

(** A commit that fails one of its checks changes nothing. *)
Lemma commit_rejected ws m e :
  (assertOpen m = Err e \/ closed m = false /\
   (checkGlobalIds (state m) ws;; actions ← prepareDocumentActions ws; checkDocumentActions (state m) actions) = Err e) ->
  commit ws m = (m, Err e).
Proof.
  unfold commit. intros [H|[Hc H]].
  - unfold mbind, sm_bind, reads_state. by rewrite H.
  - rewrite (bind_run _ _ _ m tt) by (unfold reads_state, assertOpen; by rewrite Hc).
    rewrite (bind_run _ _ _ m (nextSeq m)) by done. apply bind_Err in H as [H|(claimed & Hids & H)].
    { unfold mbind, sm_bind, reads_state. by rewrite H. }
    rewrite (bind_run _ _ _ m claimed) by (unfold reads_state; by rewrite Hids). apply bind_Err in H as [H|(actions & Hprep & H)].
    { unfold mbind, sm_bind, reads_state. by rewrite H. }
    rewrite (bind_run _ _ _ m actions) by (unfold reads_state; by rewrite Hprep).
    unfold mbind, sm_bind, reads_state. by rewrite H.
Qed.

(** Every commit either is rejected unchanged or applies completely. *)
Lemma commit_cases ws m :
  storage_inv m ->
  (exists e, commit ws m = (m, Err e)) \/
  exists claimed actions, closed m = false /\ checkGlobalIds (state m) ws = Ok claimed /\
    prepareDocumentActions ws = Ok actions /\ checkDocumentActions (state m) actions = Ok tt.
Proof.
  intros Hinv. destruct (closed m) eqn:Ec.
  { left. exists (StorageError "MemoryStorage is closed"). apply commit_rejected. left. unfold assertOpen. by rewrite Ec. }
  destruct (checkGlobalIds (state m) ws) as [claimed|e] eqn:E1.
  2:{ left. exists e. apply commit_rejected. right. by rewrite E1. }
  destruct (prepareDocumentActions ws) as [actions|e] eqn:E2.
  2:{ left. exists e. apply commit_rejected. right. by rewrite E1, E2. }
  destruct (checkDocumentActions (state m) actions) as [[]|e] eqn:E3.
  2:{ left. exists e. apply commit_rejected. right. rewrite E1, E2. cbn. by rewrite E3. }
  right. by exists claimed, actions.
Qed.

Lemma documents_loop_inv seq m : documents_loop seq m [] -> nextSeq m = seq -> storage_inv (bump_seq m).
Proof.
  intros H Hq. split; [cbn; rewrite Hq; apply (dl_state _ _ _ H)|exact (documents_loop_done seq m H)|apply (dl_ids _ _ _ H)].
Qed.

Lemma commit_inv ws m m' r : storage_inv m -> commit ws m = (m', r) -> storage_inv m'.
Proof.
  intros Hinv Hm. destruct (commit_cases ws m Hinv) as [[e He]|(claimed & actions & H1 & H2 & H3 & H4)]; [congruence|].
  destruct (commit_run _ _ _ _ Hinv H1 H2 H3 H4) as (m1 & m2 & E & E1 & L1 & (Q2 & _) & L2 & _).
  rewrite E in Hm. injection Hm as <- _. eapply documents_loop_inv; [exact L2|]. rewrite Q2. apply (tl_seq _ _ _ _ L1).
Qed.

(** The ids under which a list of writes creates immutable records. *)
Definition immutable_claim (w : StorageWrite) : option Id :=
  match write_claim w with Some (t, id) => if table_immutable t then Some id else None | None => None end.

Lemma checkGlobalIds_NoDup s0 ws claimed claimed' :
  disjoint_tables s0 -> foldM (checkGlobalId s0) claimed ws = Ok claimed' -> NoDup (omap immutable_claim ws).
Proof.
  intros Hd. revert claimed. induction ws as [|w ws IH]; intros claimed; [constructor|].
  cbn [foldM omap list_omap]. intros (c1 & Hw & Hws)%bind_Ok. specialize (IH c1 Hws). unfold immutable_claim at 1.
  destruct (write_claim w) as [[t x]|] eqn:Ew; [|done]. destruct (table_immutable t) eqn:Et; [|done]. constructor; [|done].
  rewrite list_elem_of_omap. intros (w' & Hw' & E'). unfold immutable_claim in E'.
  destruct (write_claim w') as [[t' x']|] eqn:Ew'; [|done]. destruct (table_immutable t') eqn:Et'; [|done]. injection E' as ->.
  destruct (checkGlobalId_Ok _ _ _ _ _ _ Hd Ew Hw) as [-> _].
  apply list_elem_of_split in Hw' as (l1 & l2 & ->). rewrite foldM_app in Hws. apply bind_Ok in Hws as (c2 & Hl1 & Hl2).
  cbn [foldM] in Hl2. apply bind_Ok in Hl2 as (c3 & Hw3 & _).
  destruct (checkGlobalId_Ok _ _ _ _ _ _ Hd Ew' Hw3) as [_ [Hc _]]. destruct (Hc Et') as [Hnone _].
  by rewrite (checkGlobalIds_keep _ _ _ _ x t Hd Hl1 (lookup_insert_eq _ _ _)) in Hnone.
Qed.

(** A successful commit creates immutable records under fresh ids only. *)
Lemma commit_fresh ws m m' q w id :
  storage_inv m -> commit ws m = (m', Ok q) -> w ∈ ws -> immutable_claim w = Some id -> forall t, ~ owner (state m) id t.
Proof.
  intros Hinv Hm Hw Hc. destruct (commit_cases ws m Hinv) as [[e He]|(claimed & actions & _ & H2 & _)]; [congruence|].
  unfold immutable_claim in Hc. destruct (write_claim w) as [[t x]|] eqn:Ew; [|done]. destruct (table_immutable t) eqn:Et; [|done].
  injection Hc as ->. assert (disjoint_tables (state m)) as Hd by apply (si_state _ Hinv).
  eapply checkGlobalIds_fresh; [done|exact H2| |exact Et]. by eapply checkGlobalIds_claimed.
Qed.

Lemma commit_claims_NoDup ws m m' q : storage_inv m -> commit ws m = (m', Ok q) -> NoDup (omap immutable_claim ws).
Proof.
  intros Hinv Hm. destruct (commit_cases ws m Hinv) as [[e He]|(claimed & actions & _ & H2 & _)]; [congruence|].
  by eapply checkGlobalIds_NoDup; [apply (si_state _ Hinv)|].
Qed.
