(* ===== verification/Truncate.v ===== *)
(** [packages/agent/src/harness/utils/truncate.ts]: truncation of tool outputs
    to a number of lines and a number of UTF-8 bytes.

    Limits are integers.  Reading a line that is not there and passing it on is
    a [TypeError]. *)
From S2P Require Import Prelude JsBase.

Inductive truncate_err : Type := TypeError.

Definition DEFAULT_MAX_LINES : Z := 2000.
Definition DEFAULT_MAX_BYTES : Z := 50 * 1024.
Definition GREP_MAX_LINE_LENGTH : Z := 500.

Inductive Limit : Type := Lines | Bytes.

Record TruncationResult : Type := Truncation {
  content : jsstr;
  truncated : bool;
  truncatedBy : option Limit;
  totalLines : Z;
  totalBytes : Z;
  outputLines : Z;
  outputBytes : Z;
  lastLinePartial : bool;
  firstLineExceedsLimit : bool;
  res_maxLines : Z;
  res_maxBytes : Z;
}.

Record TruncationOptions : Type := TruncationOptions_ { opt_maxLines : option Z; opt_maxBytes : option Z }.

Definition splitLinesForCounting (s : jsstr) : list jsstr :=
  match s with
  | [] => []
  | _ => if bool_decide (last s = Some newline) then removelast (split_lines s) else split_lines s
  end.

(** The loop over the code units from the first one that is not ASCII. *)
Fixpoint count_bytes (s : jsstr) : Z :=
  match s with
  | [] => 0
  | code :: s' =>
      if code <=? 0x7F then 1 + count_bytes s'
      else if code <=? 0x7FF then 2 + count_bytes s'
      else if is_high code then
        match s' with
        | next :: s'' => if is_low next then 4 + count_bytes s'' else 3 + count_bytes s'
        | [] => 3 + count_bytes s'
        end
      else 3 + count_bytes s'
  end.

(** [content.search(/[^\x00-\x7f]/)], [None] for [-1]. *)
Fixpoint first_non_ascii (s : jsstr) : option nat :=
  match s with
  | [] => None
  | code :: s => if (0 <=? code) && (code <=? 0x7F) then S <$> first_non_ascii s else Some 0%nat
  end.

Fixpoint replaceUnpairedSurrogates (s : jsstr) : jsstr :=
  match s with
  | [] => []
  | code :: s' =>
      if is_high code then
        match s' with
        | next :: s'' =>
            if is_low next then code :: next :: replaceUnpairedSurrogates s''
            else 0xFFFD :: replaceUnpairedSurrogates s'
        | [] => 0xFFFD :: replaceUnpairedSurrogates s'
        end
      else if is_low code then 0xFFFD :: replaceUnpairedSurrogates s'
      else code :: replaceUnpairedSurrogates s'
  end.

(** [x.toFixed(1)] of [x = bytes / unit]: the nearest tenth, the larger on a
    tie. *)
Definition to_fixed_1 (bytes unit : Z) : jsstr :=
  let n := (20 * bytes + unit) / (2 * unit) in
  js_of_Z (n / 10) ++ js "." ++ js_of_Z (n mod 10).

Definition formatSize (bytes : Z) : jsstr :=
  if bytes <? 1024 then js_of_Z bytes ++ js "B"
  else if bytes <? 1024 * 1024 then to_fixed_1 bytes 1024 ++ js "KB"
  else to_fixed_1 bytes (1024 * 1024) ++ js "MB".

(** The loop of [truncateStringToBytesFromEnd]: [i] is the index, the result
    is [start] and [needsReplacement]. *)
Fixpoint from_end_loop (str : jsstr) (maxBytes : Z) (i : nat) (bytes : Z) (start : nat) (needs : bool) : nat * bool :=
  match i with
  | O => (start, needs)
  | S characterStart =>
      let code := default 0 (str !! characterStart) in
      let single (size : Z) (unpaired : bool) (rest : Z -> nat -> bool -> nat * bool) :=
        if maxBytes <? bytes + size then (start, needs) else rest (bytes + size) characterStart (needs || unpaired) in
      let next := from_end_loop str maxBytes characterStart in
      if is_low code then
        match characterStart with
        | O => single 3 true next
        | S before =>
            if is_high (default 0 (str !! before)) then
              if maxBytes <? bytes + 4 then (start, needs)
              else from_end_loop str maxBytes before (bytes + 4) before needs
            else single 3 true next
        end
      else if is_high code then single 3 true next
      else single (if code <=? 0x7F then 1 else if code <=? 0x7FF then 2 else 3) false next
  end.

Definition truncateStringToBytesFromEnd (str : jsstr) (maxBytes : Z) : jsstr :=
  if maxBytes <=? 0 then []
  else
    let '(start, needsReplacement) := from_end_loop str maxBytes (length str) 0 (length str) false in
    let output := drop start str in
    if needsReplacement then replaceUnpairedSurrogates output else output.

(** [line.slice(0, n)]: a negative end counts from the end. *)
Definition slice_to (line : jsstr) (n : Z) : jsstr :=
  take (Z.to_nat (if n <? 0 then len line + n else n)) line.

Definition truncateLine (line : jsstr) (maxChars : Z) : jsstr * bool :=
  if len line <=? maxChars then (line, false)
  else (slice_to line maxChars ++ js "... [truncated]", true).

Section Truncation.
(** [globalThis.Buffer], where there is one: its [byteLength(_, "utf8")]. *)
Variable runtimeBuffer : option (jsstr -> Z).

Definition utf8ByteLength (s : jsstr) : Z :=
  match runtimeBuffer with
  | Some byteLength => byteLength s
  | None =>
      match first_non_ascii s with
      | None => len s
      | Some i => Z.of_nat i + count_bytes (drop i s)
      end
  end.

(** The complete lines that fit, in front. *)
Fixpoint head_loop (maxLines maxBytes : Z) (lines : list jsstr) (out : list jsstr) (bytes : Z) : list jsstr * Z * Limit :=
  match lines with
  | [] => (out, bytes, Lines)
  | line :: lines =>
      if len out <? maxLines then
        let lineBytes := utf8ByteLength line + (if 0 <? len out then 1 else 0) in
        if maxBytes <? bytes + lineBytes then (out, bytes, Bytes)
        else head_loop maxLines maxBytes lines (out ++ [line]) (bytes + lineBytes)
      else (out, bytes, Lines)
  end.

(** "If we exited due to line limit". *)
Definition final_limit (maxLines maxBytes : Z) (out : list jsstr) (bytes : Z) (by_ : Limit) : Limit :=
  if (maxLines <=? len out) && (bytes <=? maxBytes) then Lines else by_.

Definition truncateHead (s : jsstr) (options : TruncationOptions) : result truncate_err TruncationResult :=
  let maxLines := default DEFAULT_MAX_LINES (opt_maxLines options) in
  let maxBytes := default DEFAULT_MAX_BYTES (opt_maxBytes options) in
  let total := utf8ByteLength s in
  let lines := splitLinesForCounting s in
  if (len lines <=? maxLines) && (total <=? maxBytes) then
    Ok (Truncation s false None (len lines) total (len lines) total false false maxLines maxBytes)
  else
    first ← ok_or TypeError (head lines);
    if maxBytes <? utf8ByteLength first then
      Ok (Truncation [] true (Some Bytes) (len lines) total 0 0 false true maxLines maxBytes)
    else
      let '(out, bytes, by_) := head_loop maxLines maxBytes lines [] 0 in
      Ok (Truncation (join_lines out) true (Some (final_limit maxLines maxBytes out bytes by_)) (len lines) total (len out)
            (utf8ByteLength (join_lines out)) false false maxLines maxBytes).

(** The lines from the last one on; the flag is [lastLinePartial]. *)
Fixpoint tail_loop (maxLines maxBytes : Z) (last_first : list jsstr) (out : list jsstr) (bytes : Z)
  : list jsstr * Z * Limit * bool :=
  match last_first with
  | [] => (out, bytes, Lines, false)
  | line :: lines =>
      if len out <? maxLines then
        let lineBytes := utf8ByteLength line + (if 0 <? len out then 1 else 0) in
        if maxBytes <? bytes + lineBytes then
          match out with
          | [] =>
              let partial := truncateStringToBytesFromEnd line maxBytes in
              ([partial], utf8ByteLength partial, Bytes, true)
          | _ => (out, bytes, Bytes, false)
          end
        else tail_loop maxLines maxBytes lines (line :: out) (bytes + lineBytes)
      else (out, bytes, Lines, false)
  end.

Definition truncateTail (s : jsstr) (options : TruncationOptions) : TruncationResult :=
  let maxLines := default DEFAULT_MAX_LINES (opt_maxLines options) in
  let maxBytes := default DEFAULT_MAX_BYTES (opt_maxBytes options) in
  let total := utf8ByteLength s in
  let lines := splitLinesForCounting s in
  if (len lines <=? maxLines) && (total <=? maxBytes) then
    Truncation s false None (len lines) total (len lines) total false false maxLines maxBytes
  else
    let '(out, bytes, by_, partial) := tail_loop maxLines maxBytes (rev lines) [] 0 in
    Truncation (join_lines out) true (Some (final_limit maxLines maxBytes out bytes by_)) (len lines) total (len out)
      (utf8ByteLength (join_lines out)) partial false maxLines maxBytes.
End Truncation.

(** * Lemmas *)

(** A string by its characters: a surrogate pair, an unpaired high surrogate, or
    another unit. *)
Lemma char_ind (P : jsstr -> Prop) :
  P [] ->
  (forall u l s, is_high u = true -> is_low l = true -> P s -> P (u :: l :: s)) ->
  (forall u s, is_high u = true -> (forall l s', s = l :: s' -> is_low l = false) -> P s -> P (u :: s)) ->
  (forall u s, is_high u = false -> P s -> P (u :: s)) ->
  forall s, P s.
Proof.
  intros H0 H1 H2 H3 s. remember (length s) as n eqn:Hn. assert (length s <= n)%nat as Hle by lia. clear Hn.
  revert s Hle. induction n as [|n IH]; intros [|u s] Hle; cbn in Hle; try lia; try done.
  destruct (is_high u) eqn:Hu; [|apply H3; [done|apply IH; lia]].
  destruct s as [|l s]; [apply H2; [done|done|done]|].
  destruct (is_low l) eqn:Hl; [apply H1; [done|done|apply IH; cbn in Hle; lia]|].
  apply H2; [done|by intros ? ? [= <- <-]|apply IH; lia].
Qed.

(** The UTF-8 size of a unit that is no half of a pair. *)
Definition unit_size (u : Z) : Z := if u <=? 0x7F then 1 else if u <=? 0x7FF then 2 else 3.

Lemma high_not_low u : is_high u = true -> is_low u = false /\ 0x7FF < u.
Proof. unfold is_high, is_low. intros [H1%Z.leb_le H2%Z.leb_le]%andb_true_iff. split; [range_lia|lia]. Qed.

Lemma low_big u : is_low u = true -> is_high u = false /\ 0x7FF < u.
Proof. unfold is_high, is_low. intros [H1%Z.leb_le H2%Z.leb_le]%andb_true_iff. split; [range_lia|lia]. Qed.

Lemma unit_size_big u : 0x7FF < u -> unit_size u = 3.
Proof. intros H. unfold unit_size. range_lia. Qed.

Lemma count_bytes_pair u l s : is_high u = true -> is_low l = true -> count_bytes (u :: l :: s) = 4 + count_bytes s.
Proof.
  intros Hu Hl. destruct (high_not_low u Hu) as [_ Hb]. cbn [count_bytes]. rewrite Hu, Hl.
  destruct (Z.leb_spec u 0x7F); [lia|]. destruct (Z.leb_spec u 0x7FF); [lia|done].
Qed.

Lemma count_bytes_single u s :
  (is_high u = true -> forall l s', s = l :: s' -> is_low l = false) -> count_bytes (u :: s) = unit_size u + count_bytes s.
Proof.
  intros H. cbn [count_bytes]. unfold unit_size. destruct (u <=? 0x7F); [done|]. destruct (u <=? 0x7FF); [done|].
  destruct (is_high u) eqn:Hu; [|done]. destruct s as [|l s]; [done|]. by rewrite (H eq_refl l s).
Qed.

Lemma count_bytes_nonneg s : 0 <= count_bytes s.
Proof.
  induction s as [|u l s Hu Hl IH|u s Hu Hs IH|u s Hu IH] using char_ind; [done|rewrite count_bytes_pair by done; lia|..];
    (rewrite count_bytes_single by (done || congruence); unfold unit_size; repeat split_if; lia).
Qed.

Lemma utf8_of_code_point_size c : c < 0x10000 -> len (utf8_of_code_point c) = unit_size c.
Proof. intros Hc. unfold len. rewrite utf8_of_code_point_length. unfold unit_size. repeat split_if; bool_lia. Qed.

(** The loop counts the bytes of the encoding. *)
Lemma count_bytes_encode s : str_wf s -> count_bytes s = len (utf8_encode s).
Proof.
  unfold utf8_encode. induction s as [|u l s Hu Hl IH|u s Hu Hs IH|u s Hu IH] using char_ind; intros Hwf; [done|..].
  - apply Forall_cons in Hwf as [_ [_ Hwf]%Forall_cons]. rewrite count_bytes_pair, code_points_cons, Hu, Hl by done.
    cbn [fmap list_fmap concat]. rewrite len_app, <- IH by done. f_equal. unfold len. rewrite utf8_of_code_point_length.
    unfold is_high, is_low, combine_surrogates in *. bool_lia. range_lia.
  - apply Forall_cons in Hwf as [_ Hwf]. rewrite count_bytes_single, code_points_cons, Hu by done.
    destruct (high_not_low u Hu) as [_ Hb]. rewrite unit_size_big, IH by done.
    destruct s as [|l s]; [done|]. rewrite (Hs l s) by done. cbn [fmap list_fmap concat]. by rewrite len_app.
  - apply Forall_cons in Hwf as [Hwu Hwf]. rewrite count_bytes_single, code_points_cons, Hu by congruence.
    destruct (is_low u) eqn:Hl; cbn [fmap list_fmap concat]; rewrite len_app, IH by done; f_equal.
    + destruct (low_big u Hl) as [_ Hb]. by rewrite unit_size_big.
    + rewrite utf8_of_code_point_size; [done|]. unfold unit_ok in Hwu. lia.
Qed.

Lemma first_non_ascii_spec s :
  match first_non_ascii s with
  | None => count_bytes s = len s
  | Some i => Z.of_nat i + count_bytes (drop i s) = count_bytes s
  end.
Proof.
  induction s as [|u s IH]; [done|]. cbn [first_non_ascii]. destruct ((0 <=? u) && (u <=? 0x7F)) eqn:E; [|done].
  assert (count_bytes (u :: s) = 1 + count_bytes s) as Hu.
  { apply andb_true_iff in E as [_ E]. cbn [count_bytes]. by rewrite E. }
  destruct (first_non_ascii s) as [i|]; cbn [fmap option_fmap option_map].
  - cbn [drop]. rewrite Hu. lia.
  - rewrite Hu, IH. unfold len. cbn. lia.
Qed.

Lemma replaceUnpairedSurrogates_to_well_formed s : str_wf s -> replaceUnpairedSurrogates s = to_well_formed s.
Proof.
  unfold to_well_formed. induction s as [|u l s Hu Hl IH|u s Hu Hs IH|u s Hu IH] using char_ind; intros Hwf; [done|..];
    cbn [replaceUnpairedSurrogates]; rewrite code_points_cons, Hu.
  - rewrite Hl. apply Forall_cons in Hwf as [_ [_ Hwf]%Forall_cons]. cbn [fmap list_fmap concat].
    rewrite utf16_combine by done. cbn [app]. by rewrite <- IH.
  - apply Forall_cons in Hwf as [_ Hwf]. destruct s as [|l s]; [done|]. rewrite (Hs l s) by done.
    cbn [fmap list_fmap concat]. by rewrite <- IH.
  - apply Forall_cons in Hwf as [Hwu Hwf]. destruct (is_low u) eqn:Hl; cbn [fmap list_fmap concat]; rewrite <- IH by done; [done|].
    unfold unit_ok, utf16_of_code_point in *. destruct (Z.ltb_spec u 0x10000); [done|lia].
Qed.

(** Replacing surrogates keeps the size: both take three bytes. *)
Lemma count_bytes_replace s : count_bytes (replaceUnpairedSurrogates s) = count_bytes s.
Proof.
  induction s as [|u l s Hu Hl IH|u s Hu Hs IH|u s Hu IH] using char_ind; [done|..]; cbn [replaceUnpairedSurrogates]; rewrite ?Hu, ?Hl.
  - by rewrite !count_bytes_pair, IH by done.
  - rewrite (count_bytes_single u) by done. destruct (high_not_low u Hu) as [_ Hb]. rewrite (unit_size_big u) by done.
    replace (match s with [] => _ | _ => _ end) with (0xFFFD :: replaceUnpairedSurrogates s).
    2:{ destruct s as [|l s]; [done|]. by rewrite (Hs l s). }
    by rewrite count_bytes_single, IH by done.
  - rewrite (count_bytes_single u) by congruence. destruct (is_low u) eqn:Hl.
    + destruct (low_big u Hl) as [_ Hb]. rewrite (unit_size_big u) by done. by rewrite count_bytes_single, IH by done.
    + by rewrite count_bytes_single, IH by congruence.
Qed.

Lemma count_bytes_newline a b : count_bytes (a ++ newline :: b) = count_bytes a + 1 + count_bytes b.
Proof.
  assert (forall b, count_bytes (newline :: b) = 1 + count_bytes b) as Hn by done.
  induction a as [|u l s Hu Hl IH|u s Hu Hs IH|u s Hu IH] using char_ind; cbn [app].
  - rewrite Hn. cbn. lia.
  - rewrite !count_bytes_pair, IH by done. lia.
  - rewrite !count_bytes_single, IH; [lia|done|]. intros _ l s' E. destruct s as [|l0 s]; [by injection E as <- _|].
    injection E as <- _. by apply (Hs l0 s).
  - rewrite !count_bytes_single, IH; [lia|congruence|congruence].
Qed.

(** ** Lines *)

(** The lines of a text are its lines without the newline that ends it. *)
Lemma splitLinesForCounting_join s :
  join_lines (splitLinesForCounting s) = s \/ join_lines (splitLinesForCounting s) ++ [newline] = s.
Proof.
  destruct s as [|u s0]; [by left|]. set (s := u :: s0).
  assert (splitLinesForCounting s = if bool_decide (last s = Some newline) then removelast (split_lines s) else split_lines s) as -> by done.
  case_bool_decide as E; [right|left; apply join_split_lines]. apply last_Some in E as [s1 E].
  assert (exists ls, split_lines s = ls ++ [[]]) as [ls Hls].
  { rewrite E. clear. induction s1 as [|x s1 [ls IH]]; [by exists [[]]|]. cbn [app split_lines].
    destruct (x =? newline); [exists ([] :: ls); by rewrite IH|].
    rewrite IH. destruct ls as [|l ls]; cbn; [|by exists ((x :: l) :: ls)].
    exfalso. clear -IH. destruct s1 as [|y s1]; cbn in IH; [done|].
    destruct (y =? newline); [destruct (split_lines_cons (s1 ++ [newline])) as (? & ? & E); congruence|].
    destruct (split_lines_cons (s1 ++ [newline])) as (? & ? & E). rewrite E in IH. done. }
  rewrite Hls, removelast_last. rewrite <- (join_split_lines s), Hls, join_lines_snoc.
  destruct ls; [|done]. exfalso. clear -Hls E. destruct s1 as [|y s1]; rewrite E in Hls; cbn in Hls; [done|].
  destruct (split_lines_cons (s1 ++ [newline])) as (? & ? & E'). rewrite E' in Hls. by destruct (y =? newline).
Qed.

Lemma split_lines_wf s : str_wf s -> Forall str_wf (split_lines s).
Proof.
  induction s as [|u s IH]; intros Hs; [repeat constructor|]. apply Forall_cons in Hs as [Hu Hs]. cbn [split_lines].
  specialize (IH Hs). destruct (u =? newline); [by constructor; [constructor|]|].
  destruct (split_lines s) as [|l ls]; [by apply Forall_singleton, Forall_singleton|]. apply Forall_cons in IH as [Hl Hls].
  constructor; [by constructor|done].
Qed.

Lemma splitLinesForCounting_wf s : str_wf s -> Forall str_wf (splitLinesForCounting s).
Proof.
  intros Hs%split_lines_wf. destruct s as [|u s]; [constructor|]. unfold splitLinesForCounting. case_bool_decide; [|done].
  destruct (split_lines (u :: s)) as [|l ls] eqn:E using rev_ind; [constructor|]. rewrite removelast_last.
  by apply Forall_app in Hs as [? _].
Qed.

Lemma join_lines_wf lines : Forall str_wf lines -> str_wf (join_lines lines).
Proof.
  induction 1 as [|l ls Hl _ IH]; [constructor|]. rewrite join_lines_cons. destruct ls; [done|].
  apply Forall_app. split; [done|]. constructor; [|done]. unfold unit_ok, newline. lia.
Qed.

(** The bytes of joined lines, one at a time. *)
Lemma count_bytes_join_snoc lines l :
  count_bytes (join_lines (lines ++ [l])) =
  count_bytes (join_lines lines) + (count_bytes l + (if 0 <? len lines then 1 else 0)).
Proof.
  rewrite join_lines_snoc. destruct lines as [|x ls]; [change (0 <? len (@nil jsstr)) with false; cbn [join_lines count_bytes]; lia|]. rewrite count_bytes_newline.
  replace (0 <? len (x :: ls)) with true by (symmetry; apply Z.ltb_lt; unfold len; cbn; lia). lia.
Qed.

Lemma count_bytes_join_cons l lines :
  count_bytes (join_lines (l :: lines)) =
  count_bytes (join_lines lines) + (count_bytes l + (if 0 <? len lines then 1 else 0)).
Proof.
  rewrite join_lines_cons. destruct lines as [|x ls]; [change (0 <? len (@nil jsstr)) with false; cbn [join_lines count_bytes]; lia|]. rewrite count_bytes_newline.
  replace (0 <? len (x :: ls)) with true by (symmetry; apply Z.ltb_lt; unfold len; cbn; lia). lia.
Qed.

Lemma count_bytes_join_app a b : count_bytes (join_lines a) <= count_bytes (join_lines (a ++ b)).
Proof.
  induction b as [|l b IH] using rev_ind; [by rewrite app_nil_r|]. rewrite app_assoc, count_bytes_join_snoc.
  pose proof (count_bytes_nonneg l). destruct (0 <? _); lia.
Qed.

Lemma count_bytes_join_app_r a b : count_bytes (join_lines b) <= count_bytes (join_lines (a ++ b)).
Proof.
  induction a as [|l a IH]; [done|]. cbn [app]. rewrite count_bytes_join_cons.
  pose proof (count_bytes_nonneg l). destruct (0 <? _); lia.
Qed.

(** ** The end of a line *)

(** No surrogate pair straddles the index. *)
Definition boundary (str : jsstr) (i : nat) : Prop :=
  forall h l, str !! (i - 1)%nat = Some h -> (0 < i)%nat -> str !! i = Some l -> is_high h = true -> is_low l = false.

Lemma count_bytes_drop_S u s : count_bytes s <= count_bytes (u :: s).
Proof.
  destruct s as [|l s]; [pose proof (count_bytes_nonneg [u]); cbn in *; lia|].
  destruct (is_high u) eqn:Hu; [destruct (is_low l) eqn:Hl|].
  - rewrite count_bytes_pair by done. destruct (low_big l Hl) as [Hh Hb]. rewrite count_bytes_single by congruence.
    rewrite (unit_size_big l) by done. lia.
  - rewrite (count_bytes_single u) by by intros _ ? ? [= <- <-]. unfold unit_size. repeat split_if; lia.
  - rewrite (count_bytes_single u) by congruence. unfold unit_size. repeat split_if; lia.
Qed.

Lemma count_bytes_drop s k k' : (k <= k')%nat -> count_bytes (drop k' s) <= count_bytes (drop k s).
Proof.
  intros Hk. replace k' with (k + (k' - k))%nat by lia. rewrite <- drop_drop. set (t := drop k s). clearbody t.
  generalize (k' - k)%nat as n. induction t as [|u t IH] in |- *; intros n; [by rewrite drop_nil|].
  destruct n as [|n]; [done|]. cbn [drop]. transitivity (count_bytes t); [apply IH|apply count_bytes_drop_S].
Qed.

Lemma drop_lookup_cons (str : jsstr) i : (i < length str)%nat -> drop i str = default 0 (str !! i) :: drop (S i) str.
Proof. intros H. destruct (lookup_lt_is_Some_2 str i H) as [u Hu]. by rewrite Hu, (drop_S str u). Qed.

Lemma replace_single u s :
  is_high u = false -> is_low u = false -> replaceUnpairedSurrogates s = s -> replaceUnpairedSurrogates (u :: s) = u :: s.
Proof. intros H1 H2 H3. cbn. by rewrite H1, H2, H3. Qed.

Lemma replace_pair u l s :
  is_high u = true -> is_low l = true -> replaceUnpairedSurrogates s = s -> replaceUnpairedSurrogates (u :: l :: s) = u :: l :: s.
Proof. intros H1 H2 H3. cbn. by rewrite H1, H2, H3. Qed.

(** What the loop keeps of its index: the size of the rest, and whether it
    needs replacement. *)
Record tail_at (str : jsstr) (maxBytes : Z) (i : nat) (bytes : Z) (needs : bool) : Prop := TailAt {
  ta_le : (i <= length str)%nat;
  ta_bytes : bytes = count_bytes (drop i str);
  ta_fits : bytes <= maxBytes;
  ta_boundary : boundary str i;
  ta_needs : needs = false -> replaceUnpairedSurrogates (drop i str) = drop i str;
}.

(** The longest tail at a boundary that fits. *)
Definition longest_tail (str : jsstr) (maxBytes : Z) (start : nat) : Prop :=
  (start <= length str)%nat /\ boundary str start /\ count_bytes (drop start str) <= maxBytes /\
  forall k, (k < start)%nat -> boundary str k -> maxBytes < count_bytes (drop k str).

Section FromEnd.
Variables (str : jsstr) (maxBytes : Z).

(** One unit that is no half of a pair. *)
Lemma tail_at_single j bytes needs unpaired code :
  tail_at str maxBytes (S j) bytes needs -> code = default 0 (str !! j) ->
  (is_low code = true -> forall h, (0 < j)%nat -> str !! (j - 1)%nat = Some h -> is_high h = false) ->
  (unpaired = false -> is_high code = false /\ is_low code = false) ->
  let bytes' := bytes + unit_size code in
  count_bytes (drop j str) = bytes' /\ (bytes' <= maxBytes -> tail_at str maxBytes j bytes' (needs || unpaired)).
Proof.
  intros [Hle Hb Hf Hbd Hn] -> Hlow Hun. rewrite (drop_lookup_cons str j) by lia.
  destruct (lookup_lt_is_Some_2 str j ltac:(lia)) as [u Hu]. rewrite Hu in *. cbn [default from_option id] in *.
  assert (count_bytes (u :: drop (S j) str) = bytes + unit_size u) as E.
  { rewrite count_bytes_single; [lia|]. intros Hh l s' El. apply (Hbd u l); [cbn; by rewrite Nat.sub_0_r|lia| |done].
    rewrite <- (Nat.add_0_r (S j)), <- lookup_drop, El. done. }
  split; [done|]. intros Hfit. split; [lia| |done| |].
  - by rewrite (drop_lookup_cons str j), Hu by lia.
  - intros h l Hh Hj Hl. rewrite Hu in Hl. injection Hl as <-. intros Hhh. destruct (is_low u) eqn:E'; [|done].
    by rewrite (Hlow eq_refl h Hj Hh) in Hhh.
  - rewrite orb_false_iff. intros [Hn1 Hu1]. destruct (Hun Hu1). rewrite (drop_lookup_cons str j), Hu by lia. cbn.
    apply replace_single; auto.
Qed.

Lemma longest_tail_stop i j bytes needs :
  tail_at str maxBytes i bytes needs -> (forall k, (k < i)%nat -> boundary str k -> (k <= j)%nat) ->
  maxBytes < count_bytes (drop j str) -> longest_tail str maxBytes i.
Proof.
  intros [Hle Hb Hf Hbd Hn] Hk Hj. split_and!; [done|done|lia|]. intros k Hki Hbk. specialize (Hk k Hki Hbk).
  pose proof (count_bytes_drop str k j Hk). lia.
Qed.

Definition from_end_ok (r : nat * bool) : Prop :=
  longest_tail str maxBytes r.1 /\ (r.2 = false -> replaceUnpairedSurrogates (drop r.1 str) = drop r.1 str).

Lemma from_end_loop_ok i bytes needs :
  tail_at str maxBytes i bytes needs -> from_end_ok (from_end_loop str maxBytes i bytes i needs).
Proof.
  remember i as n eqn:Hn. assert (i <= n)%nat as Hle by lia. rewrite Hn. clear Hn. revert i bytes needs Hle.
  induction n as [|n IH]; intros [|j] bytes needs Hle Ht; try lia.
  1,2: split; cbn [from_end_loop fst snd]; [destruct Ht as [? -> ? ? ?]; split_and!; [done|done|done|lia]|apply (ta_needs _ _ _ _ _ Ht)].
  set (code := default 0 (str !! j)).
  assert (forall unpaired size, size = unit_size code ->
    (is_low code = true -> forall h, (0 < j)%nat -> str !! (j - 1)%nat = Some h -> is_high h = false) ->
    (unpaired = false -> is_high code = false /\ is_low code = false) ->
    from_end_ok (if maxBytes <? bytes + size then (S j, needs)
                 else from_end_loop str maxBytes j (bytes + size) j (needs || unpaired))) as Hsingle.
  { intros unpaired size -> Hlow Hun. destruct (tail_at_single j bytes needs unpaired code Ht eq_refl Hlow Hun) as [E Hok].
    destruct (Z.ltb_spec maxBytes (bytes + unit_size code)).
    - split; [|apply (ta_needs _ _ _ _ _ Ht)]. apply (longest_tail_stop _ j _ _ Ht); [intros; lia|cbn in *; lia].
    - apply IH; [lia|]. by apply Hok. }
  cbn [from_end_loop]. fold code. destruct (is_low code) eqn:Hl; [|destruct (is_high code) eqn:Hh].
  - destruct (low_big code Hl) as [Hhc Hb]. destruct j as [|k].
    { apply Hsingle; [by rewrite unit_size_big|lia|done]. }
    destruct (is_high (default 0 (str !! k))) eqn:Hk.
    2:{ apply Hsingle; [by rewrite unit_size_big| |done]. intros _ h _ Hh. cbn in Hh. rewrite Nat.sub_0_r in Hh. by rewrite Hh in Hk. }
    pose proof (ta_le _ _ _ _ _ Ht) as Hlen. pose proof (ta_bytes _ _ _ _ _ Ht) as Hbytes.
    assert (drop k str = default 0 (str !! k) :: code :: drop (S (S k)) str) as Ed.
    { by rewrite (drop_lookup_cons str k), (drop_lookup_cons str (S k)) by lia. }
    assert (count_bytes (drop k str) = bytes + 4) as Ec by (rewrite Ed, count_bytes_pair by done; lia).
    destruct (Z.ltb_spec maxBytes (bytes + 4)).
    + split; [|apply (ta_needs _ _ _ _ _ Ht)]. apply (longest_tail_stop _ k _ _ Ht); [|lia].
      intros x Hx Hbx. destruct (decide (x = S k)) as [->|]; [|lia]. exfalso.
      destruct (lookup_lt_is_Some_2 str k ltac:(lia)) as [h Eh]. destruct (lookup_lt_is_Some_2 str (S k) ltac:(lia)) as [l El].
      unfold code in Hl. rewrite El in Hl. rewrite Eh in Hk. cbn in Hl, Hk.
      enough (is_low l = false) by congruence. apply (Hbx h l); [cbn; by rewrite Nat.sub_0_r|lia|done|done].
    + apply IH; [lia|]. split; [lia|lia|lia| |].
      * intros h l Eh Hk0 El Hhh. rewrite El in Hk. cbn in Hk. by destruct (high_not_low l Hk).
      * intros Hnf. rewrite Ed. apply replace_pair; [done|done|]. by apply (ta_needs _ _ _ _ _ Ht).
  - destruct (high_not_low code Hh) as [_ Hb]. apply Hsingle; [by rewrite unit_size_big|congruence|done].
  - by apply (Hsingle false).
Qed.
End FromEnd.

(** The tail kept of a line that does not fit. *)
Lemma truncateStringToBytesFromEnd_tail str maxBytes :
  0 <= maxBytes ->
  exists start, longest_tail str maxBytes start /\
    truncateStringToBytesFromEnd str maxBytes = replaceUnpairedSurrogates (drop start str).
Proof.
  intros H0. unfold truncateStringToBytesFromEnd.
  assert (boundary str (length str)) as Hbl.
  { intros h l _ _ Hl. apply lookup_lt_Some in Hl. lia. }
  destruct (Z.leb_spec maxBytes 0) as [Hm|Hm].
  - exists (length str). rewrite drop_all. split; [|done]. split_and!; [done|done|rewrite drop_all; cbn; lia|].
    intros k Hk _. pose proof (count_bytes_drop str k (length str - 1) ltac:(lia)) as Hle.
    rewrite (drop_lookup_cons str (length str - 1)), (drop_ge str (S _)) in Hle by lia.
    rewrite count_bytes_single in Hle by done. unfold unit_size in Hle. revert Hle. cbn [count_bytes]. repeat split_if; lia.
  - pose proof (from_end_loop_ok str maxBytes (length str) 0 false) as Hok.
    destruct (from_end_loop str maxBytes (length str) 0 (length str) false) as [start needs]. destruct Hok as [H1 H2].
    { split; [done|by rewrite drop_all|lia|done|by rewrite drop_all]. }
    cbn in H1, H2. exists start. split; [done|]. destruct needs; [done|]. symmetry. by apply H2.
Qed.

(** ** The two truncations *)

(** What [globalThis.Buffer] is relied on for: [byteLength] is the size of the
    UTF-8 encoding. *)
Definition buffer_ok (runtimeBuffer : option (jsstr -> Z)) : Prop :=
  match runtimeBuffer with Some byteLength => forall s, str_wf s -> byteLength s = len (utf8_encode s) | None => True end.

(** A run of lines is within the limits. *)
Definition fits (maxLines maxBytes : Z) (lines : list jsstr) : Prop :=
  len lines <= maxLines /\ len (utf8_encode (join_lines lines)) <= maxBytes.

Section Limits.
Variable runtimeBuffer : option (jsstr -> Z).
Hypothesis Hbuffer : buffer_ok runtimeBuffer.
Variables (maxLines maxBytes : Z).

Lemma utf8ByteLength_count s : str_wf s -> utf8ByteLength runtimeBuffer s = count_bytes s.
Proof.
  intros Hs. unfold utf8ByteLength. unfold buffer_ok in Hbuffer. destruct runtimeBuffer as [f|].
  - rewrite Hbuffer, count_bytes_encode; done.
  - pose proof (first_non_ascii_spec s) as H. by destruct (first_non_ascii s).
Qed.

Lemma fits_count lines :
  Forall str_wf lines -> fits maxLines maxBytes lines <-> len lines <= maxLines /\ count_bytes (join_lines lines) <= maxBytes.
Proof. intros H. unfold fits. by rewrite count_bytes_encode by by apply join_lines_wf. Qed.

Lemma len_pos {A} (x : A) l : 0 < len (x :: l).
Proof. unfold len. cbn. lia. Qed.

Lemma len_snoc {A} (l : list A) x : len (l ++ [x]) = len l + 1.
Proof. rewrite len_app. done. Qed.

(** The loop adds lines until one would not fit. *)
Lemma head_loop_ok lines out bytes out' bytes' by_ :
  Forall str_wf (out ++ lines) -> bytes = count_bytes (join_lines out) -> len out <= maxLines -> bytes <= maxBytes ->
  head_loop runtimeBuffer maxLines maxBytes lines out bytes = (out', bytes', by_) ->
  exists n, (n <= length lines)%nat /\ out' = out ++ take n lines /\ fits maxLines maxBytes out' /\
    (forall l rest, drop n lines = l :: rest -> ~ fits maxLines maxBytes (out' ++ [l])).
Proof.
  revert out bytes. induction lines as [|line lines IH]; intros out bytes Hwf Hb Hl Hm; cbn [head_loop].
  - intros [= <- <- <-]. exists 0%nat. rewrite take_nil, !app_nil_r in *. split_and!; [done|done|rewrite fits_count; [lia|done]|done].
  - assert (Forall str_wf (out ++ [line])) as Hwf1.
    { replace (out ++ line :: lines) with ((out ++ [line]) ++ lines) in Hwf by by rewrite <- app_assoc. by apply Forall_app in Hwf as [? _]. }
    assert (Forall str_wf out /\ str_wf line) as [Hwo Hwl].
    { apply Forall_app in Hwf1 as [Hwo1 Hw1]. split; [done|]. by apply Forall_cons in Hw1 as [? _]. }
    assert (forall l rest, drop 0 (line :: lines) = l :: rest -> l = line) as Hd by by intros ? ? [= -> ->].
    destruct (Z.ltb_spec (len out) maxLines) as [Hlt|Hge].
    2:{ intros [= <- <- <-]. exists 0%nat. cbn [take]. rewrite app_nil_r.
        split_and!; [lia|done|rewrite fits_count; [lia|done]|]. intros l rest ->%Hd. unfold fits. rewrite len_snoc. lia. }
    rewrite utf8ByteLength_count by done. rewrite Hb, <- count_bytes_join_snoc.
    destruct (Z.ltb_spec maxBytes (count_bytes (join_lines (out ++ [line])))) as [Hgt|Hle].
    + intros [= <- <- <-]. exists 0%nat. cbn [take]. rewrite app_nil_r.
      split_and!; [lia|done|rewrite fits_count; [lia|done]|]. intros l rest ->%Hd. rewrite fits_count by done. lia.
    + intros H. apply IH in H as (n & Hn & E & Hf & Hr); [|by rewrite <- app_assoc|done|rewrite len_snoc; lia|done].
      exists (S n). cbn [take drop length]. split_and!; [lia|by rewrite E, <- app_assoc|done|done].
Qed.

Lemma tail_loop_ok last_first out bytes out' bytes' by_ partial :
  Forall str_wf out -> Forall str_wf last_first -> bytes = count_bytes (join_lines out) -> len out <= maxLines -> bytes <= maxBytes ->
  tail_loop runtimeBuffer maxLines maxBytes last_first out bytes = (out', bytes', by_, partial) ->
  if partial then
    out = [] /\ exists line rest, last_first = line :: rest /\ 0 < maxLines /\ maxBytes < count_bytes line /\
      out' = [truncateStringToBytesFromEnd line maxBytes]
  else
    exists n, (n <= length last_first)%nat /\ out' = rev (take n last_first) ++ out /\ fits maxLines maxBytes out' /\
      (forall l rest, drop n last_first = l :: rest -> ~ fits maxLines maxBytes (l :: out')) /\
      (out' = [] -> last_first = [] \/ maxLines <= 0).
Proof.
  revert out bytes. induction last_first as [|line lines IH]; intros out bytes Hwo Hwf Hb Hl Hm; cbn [tail_loop].
  - intros [= <- <- <- <-]. exists 0%nat. split_and!; [done|done|rewrite fits_count; [lia|done]|done|by left].
  - apply Forall_cons in Hwf as [Hwl Hwf].
    assert (Forall str_wf (line :: out)) as Hwlo by by constructor.
    assert (forall l rest, drop 0 (line :: lines) = l :: rest -> l = line) as Hd by by intros ? ? [= -> ->].
    assert (len (line :: out) = len out + 1) as Hlen by (unfold len; cbn [length]; lia).
    destruct (Z.ltb_spec (len out) maxLines) as [Hlt|Hge].
    2:{ intros [= <- <- <- <-]. exists 0%nat. split_and!; [lia|done|rewrite fits_count; [lia|done]| |intros ->; right; done].
        intros l rest ->%Hd. unfold fits. lia. }
    rewrite utf8ByteLength_count by done. rewrite Hb, <- count_bytes_join_cons.
    destruct (Z.ltb_spec maxBytes (count_bytes (join_lines (line :: out)))) as [Hgt|Hle].
    + destruct out as [|o out].
      * intros [= <- <- <- <-]. split; [done|]. exists line, lines. rewrite join_lines_cons in Hgt. split_and!; [done|done|done|done].
      * intros [= <- <- <- <-]. exists 0%nat. split_and!; [lia|done|rewrite fits_count; [lia|done]| |done].
        intros l rest ->%Hd. rewrite fits_count by done. lia.
    + intros H. apply IH in H; [|done|done|done|lia|done]. destruct partial; [by destruct H|].
      destruct H as (n & Hn & E & Hf & Hr & He). exists (S n). cbn [take drop length rev].
      split_and!; [lia|by rewrite E, <- app_assoc|done|done|]. intros ->. destruct (rev (take n lines)); discriminate E.
Qed.
End Limits.

Lemma fits_prefix maxLines maxBytes a b : Forall str_wf (a ++ b) -> fits maxLines maxBytes (a ++ b) -> fits maxLines maxBytes a.
Proof.
  intros Hwf. assert (Forall str_wf a) as Ha by by apply Forall_app in Hwf as [? _]. rewrite !fits_count by done.
  rewrite len_app. pose proof (len_nonneg b). pose proof (count_bytes_join_app a b). lia.
Qed.

Lemma fits_suffix maxLines maxBytes a b : Forall str_wf (a ++ b) -> fits maxLines maxBytes (a ++ b) -> fits maxLines maxBytes b.
Proof.
  intros Hwf. assert (Forall str_wf b) as Hb by by apply Forall_app in Hwf as [_ ?]. rewrite !fits_count by done.
  rewrite len_app. pose proof (len_nonneg a). pose proof (count_bytes_join_app_r a b). lia.
Qed.

(** The longest run of first (last) lines that fits. *)
Definition longest_head (maxLines maxBytes : Z) (lines : list jsstr) (n : nat) : Prop :=
  (n <= length lines)%nat /\ fits maxLines maxBytes (take n lines) /\
  forall k, (n < k <= length lines)%nat -> ~ fits maxLines maxBytes (take k lines).

Definition longest_last (maxLines maxBytes : Z) (lines : list jsstr) (n : nat) : Prop :=
  (n <= length lines)%nat /\ fits maxLines maxBytes (drop n lines) /\
  forall k, (k < n)%nat -> ~ fits maxLines maxBytes (drop k lines).

Lemma longest_head_intro maxLines maxBytes lines n :
  Forall str_wf lines -> (n <= length lines)%nat -> fits maxLines maxBytes (take n lines) ->
  (forall l rest, drop n lines = l :: rest -> ~ fits maxLines maxBytes (take n lines ++ [l])) -> longest_head maxLines maxBytes lines n.
Proof.
  intros Hwf Hn Hf Hno. split_and!; [done|done|]. intros k Hk Hfk.
  destruct (drop n lines) as [|l rest] eqn:E; [apply (f_equal length) in E; rewrite length_drop in E; cbn in E; lia|].
  apply (Hno l rest); [done|]. replace k with (n + S (k - S n))%nat in Hfk by lia.
  assert (take (n + S (k - S n)) lines = (take n lines ++ [l]) ++ take (k - S n) rest) as Ek.
  { rewrite <- (take_drop n lines) at 1. rewrite E. rewrite take_app_ge by (rewrite length_take; lia).
    rewrite <- app_assoc. f_equal. rewrite length_take. replace (n + S (k - S n) - n `min` length lines)%nat with (S (k - S n)) by lia. done. }
  rewrite Ek in Hfk. eapply fits_prefix; [|exact Hfk]. rewrite <- Ek. by apply Forall_take.
Qed.

Lemma longest_last_intro maxLines maxBytes lines n :
  Forall str_wf lines -> (n <= length lines)%nat -> fits maxLines maxBytes (drop n lines) ->
  (forall l, lines !! (n - 1)%nat = Some l -> (0 < n)%nat -> ~ fits maxLines maxBytes (l :: drop n lines)) ->
  longest_last maxLines maxBytes lines n.
Proof.
  intros Hwf Hn Hf Hno. split_and!; [done|done|]. intros k Hk Hfk.
  destruct (lookup_lt_is_Some_2 lines (n - 1) ltac:(lia)) as [l Hl]. apply (Hno l Hl ltac:(lia)).
  assert (drop k lines = take (n - 1 - k) (drop k lines) ++ l :: drop n lines) as Ek.
  { rewrite <- (take_drop (n - 1 - k) (drop k lines)) at 1. f_equal. rewrite drop_drop.
    replace (k + (n - 1 - k))%nat with (n - 1)%nat by lia. rewrite (drop_S lines l) by done. f_equal. f_equal. lia. }
  rewrite Ek in Hfk. eapply fits_suffix; [|exact Hfk]. rewrite <- Ek. by apply Forall_drop.
Qed.

Definition max_lines (o : TruncationOptions) : Z := default DEFAULT_MAX_LINES (opt_maxLines o).
Definition max_bytes (o : TruncationOptions) : Z := default DEFAULT_MAX_BYTES (opt_maxBytes o).

Lemma splitLinesForCounting_nil s : splitLinesForCounting s = [] -> s = [].
Proof.
  intros E. destruct (splitLinesForCounting_join s) as [H|H]; rewrite E in H; [done|]. cbn in H. subst s. done.
Qed.

Section Specs.
Variable runtimeBuffer : option (jsstr -> Z).
Hypothesis Hbuffer : buffer_ok runtimeBuffer.
Variables (s : jsstr) (options : TruncationOptions).
Hypothesis Hs : str_wf s.
Hypothesis Hlines : 0 <= max_lines options.
Hypothesis Hbytes : 0 <= max_bytes options.

Let lines := splitLinesForCounting s.
Let size (t : jsstr) := len (utf8_encode t).

Local Lemma size_count t : str_wf t -> utf8ByteLength runtimeBuffer t = size t.
Proof. intros Ht. rewrite utf8ByteLength_count by done. by apply count_bytes_encode. Qed.

Local Lemma size_join ls : Forall str_wf ls -> utf8ByteLength runtimeBuffer (join_lines ls) = size (join_lines ls).
Proof. intros H. by apply size_count, join_lines_wf. Qed.

Lemma truncateHead_result :
  exists r, truncateHead runtimeBuffer s options = Ok r /\ totalLines r = len lines /\ totalBytes r = size s /\
    if (len lines <=? max_lines options) && (size s <=? max_bytes options) then truncated r = false /\ content r = s
    else
      truncated r = true /\
      exists n, longest_head (max_lines options) (max_bytes options) lines n /\
        content r = join_lines (take n lines) /\ outputLines r = Z.of_nat n /\ outputBytes r = size (content r).
Proof.
  pose proof (splitLinesForCounting_wf s Hs) as Hwf. fold lines in Hwf.
  unfold truncateHead. fold (max_lines options) (max_bytes options). fold lines. rewrite size_count by done.
  destruct ((len lines <=? max_lines options) && (size s <=? max_bytes options)) eqn:E; [by eexists|].
  destruct lines as [|first rest] eqn:El.
  { exfalso. apply splitLinesForCounting_nil in El. rewrite El in E. apply andb_false_iff in E as [E|E]; apply Z.leb_gt in E; revert E; unfold size, len; cbn [length]; change (length (utf8_encode [])) with 0%nat; lia. }
  pose proof (Forall_cons_1 _ _ _ Hwf) as [Hf _]. cbn [head ok_or mbind result_bind]. rewrite size_count by done.
  destruct (Z.ltb_spec (max_bytes options) (size first)) as [Hgt|Hle].
  - eexists. split; [done|]. split_and!; [done..|]. exists 0%nat. split_and!; try done.
    apply longest_head_intro; [done|lia| |].
    { split; [exact Hlines|exact Hbytes]. }
    intros l r' [= <- <-]. unfold fits. cbn [take app join_lines join_rest].
    rewrite app_nil_r. fold (size first). lia.
  - destruct (head_loop runtimeBuffer (max_lines options) (max_bytes options) (first :: rest) [] 0) as [[out bytes] by_] eqn:Eloop.
    eapply head_loop_ok in Eloop as (n & Hn & Eout & Hfits & Hno); [|done..]. cbn [app] in Eout. subst out.
    assert (Forall str_wf (take n (first :: rest))) as Hwt by by apply Forall_take.
    eexists. split; [done|]. cbn. split_and!; [done..|]. exists n. split_and!.
    + by apply longest_head_intro.
    + done.
    + unfold len. rewrite length_take. lia.
    + by apply size_join.
Qed.

Lemma truncateTail_result :
  let r := truncateTail runtimeBuffer s options in
  totalLines r = len lines /\ totalBytes r = size s /\
  if (len lines <=? max_lines options) && (size s <=? max_bytes options) then truncated r = false /\ content r = s
  else
    truncated r = true /\ outputBytes r = size (content r) /\
    if lastLinePartial r then
      exists line start, last lines = Some line /\ max_bytes options < size line /\
        longest_tail line (max_bytes options) start /\ content r = to_well_formed (drop start line) /\
        outputLines r = 1 /\ outputBytes r <= max_bytes options
    else
      exists n, longest_last (max_lines options) (max_bytes options) lines n /\
        content r = join_lines (drop n lines) /\ outputLines r = len lines - Z.of_nat n.
Proof.
  pose proof (splitLinesForCounting_wf s Hs) as Hwf. fold lines in Hwf.
  intros r. subst r. unfold truncateTail. fold (max_lines options) (max_bytes options). fold lines. rewrite size_count by done.
  destruct ((len lines <=? max_lines options) && (size s <=? max_bytes options)) eqn:E; [done|].
  destruct (tail_loop runtimeBuffer (max_lines options) (max_bytes options) (rev lines) [] 0) as [[[out bytes] by_] partial] eqn:Eloop.
  eapply tail_loop_ok in Eloop; [|done|constructor|by apply Forall_rev|done..].
  cbn [totalLines totalBytes truncated outputBytes content lastLinePartial outputLines]. do 3 (split; [done|]). destruct partial.
  - destruct Eloop as (_ & line & rest & Erev & Hml & Hgt & ->).
    assert (lines = rev rest ++ [line]) as El by (rewrite <- (rev_involutive lines), Erev; done).
    assert (str_wf line) as Hl by (rewrite El in Hwf; apply Forall_app in Hwf as [_ Hw]; by apply Forall_cons in Hw as [? _]).
    destruct (truncateStringToBytesFromEnd_tail line (max_bytes options) Hbytes) as (start & Hlong & Et).
    assert (str_wf (drop start line)) as Hd by by apply Forall_drop.
    assert (join_lines [truncateStringToBytesFromEnd line (max_bytes options)] = to_well_formed (drop start line)) as ->.
    { cbn [join_lines join_rest]. rewrite app_nil_r, Et. by apply replaceUnpairedSurrogates_to_well_formed. }
    assert (str_wf (to_well_formed (drop start line))) as Hwt.
    { rewrite <- replaceUnpairedSurrogates_to_well_formed by done. clear -Hd. revert Hd. generalize (drop start line) as t.
      assert (unit_ok 0xFFFD) by (unfold unit_ok; lia).
      induction t as [|u l t Hu Hl IH|u t Hu Ht IH|u t Hu IH] using char_ind; intros Hw; [constructor|..]; cbn [replaceUnpairedSurrogates]; rewrite ?Hu, ?Hl.
      - apply Forall_cons in Hw as [? [? ?]%Forall_cons]. repeat (constructor; [done|]). by apply IH.
      - apply Forall_cons in Hw as [? ?]. destruct t as [|l t]; [by constructor|]. rewrite (Ht l t) by done. constructor; [done|by apply IH].
      - apply Forall_cons in Hw as [? ?]. destruct (is_low u); (constructor; [done|by apply IH]). }
    rewrite size_count by done. split; [done|]. exists line, start. split_and!; try done.
    + by rewrite El, last_snoc.
    + unfold size. by rewrite <- count_bytes_encode.
    + unfold size. rewrite <- count_bytes_encode by done. rewrite <- replaceUnpairedSurrogates_to_well_formed, count_bytes_replace by done.
      by destruct Hlong as (_ & _ & ? & _).
  - destruct Eloop as (n & Hn & Eout & Hfits & Hno & _). rewrite app_nil_r in Eout.
    assert (out = drop (length lines - n) lines) as ->.
    { rewrite Eout. rewrite length_rev in Hn. rewrite <- (rev_involutive (drop _ _)). f_equal.
      rewrite <- (take_drop (length lines - n) lines) at 1. rewrite rev_app_distr. apply take_app_length'.
      rewrite length_rev, length_drop. lia. }
    split; [apply size_join; by apply Forall_drop|]. rewrite length_rev in Hn. exists (length lines - n)%nat. split_and!.
    + apply longest_last_intro; [done|lia|done|]. intros l Hl H0. apply (Hno l (drop (S n) (rev lines))).
      apply drop_S. rewrite <- Hl. rewrite rev_alt. change (rev_append lines []) with (reverse lines). rewrite reverse_lookup by lia. f_equal. lia.
    + done.
    + unfold len. rewrite length_drop. lia.
Qed.
End Specs.
