(* ===== verification/ServiceState.v ===== *)
(** [packages/chord/src/services/state-codec.ts]: the operation codecs of the
    replicated states of one service subscription, and the snapshot and update
    types of [packages/chord/src/types.ts] and [services/wire.ts] they translate.

    A codec mutates itself: the registry is state, and what was changed before
    a throw stays changed.  Generations and sequences are counters. *)
From S2P Require Import Prelude JsBase Json JsonText DeltaOps DeltaApply DeltaCodec.

Inductive svc_err : Type :=
| SvcError (msg : jsstr)
| SvcDelta (e : delta_err).

(** * Snapshots and updates

    [O] is the type of the operations: [Op] batches, or their wire form. *)

Record ServiceInstanceAddress : Type := Address { key : jsstr; generation : N }.

#[export] Instance ServiceInstanceAddress_eq_dec : EqDecision ServiceInstanceAddress.
Proof. solve_decision. Defined.

Inductive ServiceMode : Type := Singleton | Keyed.

Section Types.
Variable O : Type.

Inductive ServiceMemberSnapshot : Type :=
| MethodMember (name : jsstr)
| StateMember (name : jsstr) (sequence : N) (ops : O).

Record ServiceInstanceSnapshot : Type := InstanceSnapshot {
  instance : option ServiceInstanceAddress;
  members : list ServiceMemberSnapshot;
}.

Record ServiceSubscriptionSnapshot : Type := SubscriptionSnapshot {
  serviceId : jsstr;
  mode : ServiceMode;
  instances : list ServiceInstanceSnapshot;
}.

Inductive ServiceProviderUpdate : Type :=
| StateUpdate (inst : option ServiceInstanceAddress) (member : jsstr) (sequence : N) (ops : O)
| Unavailable
| Replaced (snapshot : ServiceInstanceSnapshot)
| Spawned (inst : ServiceInstanceSnapshot)
| Closed (inst : ServiceInstanceAddress).
End Types.

Arguments MethodMember {O} name.
Arguments StateMember {O} name sequence ops.
Arguments InstanceSnapshot {O} instance members.
Arguments instance {O} _.
Arguments members {O} _.
Arguments SubscriptionSnapshot {O} serviceId mode instances.
Arguments serviceId {O} _.
Arguments mode {O} _.
Arguments instances {O} _.
Arguments StateUpdate {O} inst member sequence ops.
Arguments Unavailable {O}.
Arguments Replaced {O} snapshot.
Arguments Spawned {O} inst.
Arguments Closed {O} inst.

(** * The registry *)

(** [JSON.stringify] of the key, the generation and the member. *)
Definition state_key_items (inst : option ServiceInstanceAddress) (member : jsstr) : list jsstr :=
  [match inst with Some a => stringify_str (key a) | None => js "null" end;
   match inst with Some a => stringify_N (generation a) | None => js "null" end;
   stringify_str member].

Definition stateKey (inst : option ServiceInstanceAddress) (member : jsstr) : jsstr :=
  stringify_items (state_key_items inst member).

Definition describeState (inst : option ServiceInstanceAddress) (member : jsstr) : jsstr :=
  match inst with
  | None => member
  | Some a => key a ++ js "@" ++ stringify_N (generation a) ++ js "." ++ member
  end.

Definition sameAddress (left : option ServiceInstanceAddress) (right : ServiceInstanceAddress) : bool :=
  match left with
  | Some l => bool_decide (key l = key right) && (generation l =? generation right)%N
  | None => false
  end.

Section Registry.
Context {C : Type}.

Abbreviation registry := (gmap jsstr (option ServiceInstanceAddress * C)).

Variable create : C.

Definition reset : SM registry svc_err unit := modify (fun _ => ∅).

(** [add] and [get] return a codec by reference: the key it is kept under. *)
Definition add (inst : option ServiceInstanceAddress) (member : jsstr) : SM registry svc_err jsstr :=
  let k := stateKey inst member in
  reads_state (fun r => throw_if (bool_decide (is_Some (r !! k))) (SvcError (js "Duplicate service state " ++ describeState inst member)));;
  modify (insert k (inst, create));;
  mret k.

Definition get (inst : option ServiceInstanceAddress) (member : jsstr) : SM registry svc_err jsstr :=
  let k := stateKey inst member in
  reads_state (fun r => throw_if (bool_decide (r !! k = None)) (SvcError (js "Unknown service state " ++ describeState inst member)));;
  mret k.

Definition removeInstance (inst : ServiceInstanceAddress) : SM registry svc_err unit :=
  modify (filter (fun e : jsstr * (option ServiceInstanceAddress * C) => sameAddress e.2.1 inst = false)).

(** A call on the codec a key refers to; it may throw, changed. *)
Definition with_codec {A} (k : jsstr) (call : C -> C * result delta_err A) : SM registry svc_err A :=
  fun r =>
    match r !! k with
    | None => (r, Err (SvcError []))
    | Some (inst, c) => let '(c, a) := call c in (<[k := (inst, c)]> r, map_err SvcDelta a)
    end.
End Registry.

(** The elements of an array, translated in order. *)
Fixpoint map_each {S E A B} (f : A -> SM S E B) (l : list A) : SM S E (list B) :=
  match l with
  | [] => mret []
  | a :: l => b ← f a; bs ← map_each f l; mret (b :: bs)
  end.

(** * The two codecs *)

Section Codec.
Context {C I O : Type}.
(** [encode] or [decode] of a codec, and [encoder()] or [decoder()]. *)
Variable create : C.
Variable code : C -> I -> C * result delta_err O.

Abbreviation step := (SM (gmap jsstr (option ServiceInstanceAddress * C)) svc_err).

(** [encodeInstance], [decodeInstance]. *)
Definition code_member (inst : option ServiceInstanceAddress) (member : ServiceMemberSnapshot I) : step (ServiceMemberSnapshot O) :=
  match member with
  | StateMember name sequence ops =>
      k ← add create inst name;
      ops ← with_codec k (fun c => code c ops);
      mret (StateMember name sequence ops)
  | MethodMember name => mret (MethodMember name)
  end.

Definition code_instance (snapshot : ServiceInstanceSnapshot I) : step (ServiceInstanceSnapshot O) :=
  ms ← map_each (code_member (instance snapshot)) (members snapshot);
  mret (InstanceSnapshot (instance snapshot) ms).

(** [encodeSnapshot], [decodeSnapshot]. *)
Definition code_snapshot (snapshot : ServiceSubscriptionSnapshot I) : step (ServiceSubscriptionSnapshot O) :=
  reset;;
  snapshots ← map_each code_instance (instances snapshot);
  mret (SubscriptionSnapshot (serviceId snapshot) (mode snapshot) snapshots).

(** [encodeUpdate], [decodeUpdate]. *)
Definition code_update (update : ServiceProviderUpdate I) : step (ServiceProviderUpdate O) :=
  match update with
  | StateUpdate inst member sequence ops =>
      k ← get inst member;
      ops ← with_codec k (fun c => code c ops);
      mret (StateUpdate inst member sequence ops)
  | Replaced snapshot => reset;; s ← code_instance snapshot; mret (Replaced s)
  | Spawned snapshot => s ← code_instance snapshot; mret (Spawned s)
  | Unavailable => reset;; mret Unavailable
  | Closed inst => removeInstance inst;; mret (Closed inst)
  end.
End Codec.

Definition encode_ops (st : enc_state) (ops : list Op) : enc_state * result delta_err (list json) :=
  let '(st, wire) := encode st ops in (st, Ok (wire_to_json <$> wire)).

Definition encodeInstance := code_instance encoder encode_ops.
Definition encodeSnapshot := code_snapshot encoder encode_ops.
Definition encodeUpdate := code_update encoder encode_ops.
Definition decodeInstance := code_instance decoder decode.
Definition decodeSnapshot := code_snapshot decoder decode.
Definition decodeUpdate := code_update decoder decode.

(** * Keys *)

Definition address_wf (inst : option ServiceInstanceAddress) : Prop :=
  match inst with Some a => str_wf (key a) | None => True end.

Definition key_text (t : jsstr) : Prop := seg_text t \/ t = js "null".

Lemma key_text_delimited : delimited key_text.
Proof.
  assert (forall t r1 r2, seg_text t -> t ++ r1 = js "null" ++ r2 -> False) as Hmix.
  { intros t r1 r2 [(s & _ & ->)|(n & ->)] E; [by apply (f_equal (hd 0)) in E|].
    destruct (stringify_N_digits n) as [Hd Hn]. destruct (stringify_N n) as [|d t]; [done|].
    apply (f_equal (hd 0)) in E. change (d = 110) in E. subst d. apply Forall_cons in Hd as [Hd _]. unfold digit in Hd. lia. }
  intros t1 t2 c1 c2 r1 r2 [H1|H1] [H2|H2] Hc1 Hc2 E.
  - by apply (seg_text_delimited t1 t2 c1 c2 r1 r2).
  - subst t2. by apply Hmix in E.
  - subst t1. symmetry in E. by apply Hmix in E.
  - subst. split; [done|]. by apply app_inv_head in E.
Qed.

Lemma stateKey_inj inst1 m1 inst2 m2 :
  address_wf inst1 -> address_wf inst2 -> str_wf m1 -> str_wf m2 -> stateKey inst1 m1 = stateKey inst2 m2 ->
  inst1 = inst2 /\ m1 = m2.
Proof.
  intros Ha1 Ha2 Hm1 Hm2 E.
  assert (forall inst m, address_wf inst -> str_wf m -> Forall key_text (state_key_items inst m)) as Hk.
  { intros inst m Ha Hm. assert (key_text (stringify_str m)) by (left; left; eauto).
    destruct inst as [a|]; repeat apply Forall_cons_2; try apply Forall_nil_2; try done;
      [left; left; eauto|left; right; eauto|by right|by right]. }
  assert (state_key_items inst1 m1 = state_key_items inst2 m2) as E2.
  { apply (stringify_rest_inj key_text); [apply key_text_delimited|by apply Hk|by apply Hk|].
    unfold stateKey, stringify_items in E. apply (inj (cons _)) in E. cbn [state_key_items stringify_rest] in *. by rewrite E. }
  assert (forall a b c d e f : jsstr, [a; b; c] = [d; e; f] -> a = d /\ b = e /\ c = f) as Hinj by (intros; split_and!; congruence).
  apply Hinj in E2 as (Ek & Eg & Em). split; [|by apply stringify_str_inj in Em].
  destruct inst1 as [a1|], inst2 as [a2|]; [|by apply (f_equal (hd 0)) in Ek..|done].
  apply stringify_str_inj in Ek; [|done..]. apply (inj js_of_Z), (inj Z.of_N) in Eg. destruct a1, a2; cbn in *; congruence.
Qed.

(** * Encoder and decoder in step *)

Abbreviation enc_registry := (gmap jsstr (option ServiceInstanceAddress * enc_state)).
Abbreviation dec_registry := (gmap jsstr (option ServiceInstanceAddress * gmap N path)).

Definition entry_sync (e : option (option ServiceInstanceAddress * enc_state)) (d : option (option ServiceInstanceAddress * gmap N path)) : Prop :=
  match e, d with
  | None, None => True
  | Some (inst, st), Some (inst', ps) => inst = inst' /\ ids_sync st ps
  | _, _ => False
  end.

(** The registries hold the same states, each with codecs that agree. *)
Definition registry_sync (er : enc_registry) (dr : dec_registry) : Prop := forall k, entry_sync (er !! k) (dr !! k).

Lemma registry_sync_empty : registry_sync ∅ ∅.
Proof. intros k. by rewrite !lookup_empty. Qed.

Lemma registry_sync_insert er dr k inst st ps :
  registry_sync er dr -> ids_sync st ps -> registry_sync (<[k := (inst, st)]> er) (<[k := (inst, ps)]> dr).
Proof.
  intros H Hs k'. destruct (decide (k = k')) as [<-|]; [by rewrite !lookup_insert_eq|by rewrite !lookup_insert_ne].
Qed.

Lemma registry_sync_filter er dr (keep : option ServiceInstanceAddress -> bool) :
  registry_sync er dr ->
  registry_sync (filter (fun e : jsstr * (option ServiceInstanceAddress * enc_state) => keep e.2.1 = false) er)
                (filter (fun e : jsstr * (option ServiceInstanceAddress * gmap N path) => keep e.2.1 = false) dr).
Proof.
  intros H k. specialize (H k). rewrite !map_lookup_filter.
  destruct (er !! k) as [[i st]|], (dr !! k) as [[i' ps]|]; cbn in *; try done.
  destruct H as [<- H]. repeat case_guard; cbn in *; try congruence; done.
Qed.

Lemma registry_sync_some er dr k inst st :
  registry_sync er dr -> er !! k = Some (inst, st) -> exists ps, dr !! k = Some (inst, ps) /\ ids_sync st ps.
Proof.
  intros H E. specialize (H k). rewrite E in H. destruct (dr !! k) as [[i ps]|]; [|done]. destruct H as [<- H]. eauto.
Qed.

Lemma registry_sync_none er dr k : registry_sync er dr -> er !! k = None -> dr !! k = None.
Proof. intros H E. specialize (H k). rewrite E in H. by destruct (dr !! k). Qed.

(** Translations that keep two states in step keep them so over an array. *)
Lemma map_each_sim {S1 S2 E A B} (f : A -> SM S1 E B) (g : B -> SM S2 E A) (R : S1 -> S2 -> Prop) (P : A -> Prop) l s1 s1' bs s2 :
  (forall a s1 s1' b s2, P a -> R s1 s2 -> f a s1 = (s1', Ok b) -> exists s2', g b s2 = (s2', Ok a) /\ R s1' s2') ->
  Forall P l -> R s1 s2 -> map_each f l s1 = (s1', Ok bs) ->
  exists s2', map_each g bs s2 = (s2', Ok l) /\ R s1' s2'.
Proof.
  intros Hstep Hl. revert s1 s1' bs s2. induction Hl as [|a l Ha _ IH]; intros s1 s1' bs s2 HR; cbn [map_each].
  - intros [= <- <-]. by exists s2.
  - intros (s3 & b & H1 & (s4 & bs' & H2 & [= <- <-])%sm_bind_Ok)%sm_bind_Ok.
    destruct (Hstep _ _ _ _ _ Ha HR H1) as (s5 & G1 & R1). destruct (IH _ _ _ _ R1 H2) as (s6 & G2 & R2).
    exists s6. split; [|done]. apply sm_bind_Ok. exists s5, a. split; [done|]. apply sm_bind_Ok. by exists s6, l.
Qed.

Lemma with_codec_sim k ops er er' ws dr :
  Forall op_wf ops -> registry_sync er dr -> with_codec k (fun c => encode_ops c ops) er = (er', Ok ws) ->
  exists dr', with_codec k (fun c => decode c ws) dr = (dr', Ok ops) /\ registry_sync er' dr'.
Proof.
  intros Hops HR. unfold with_codec, encode_ops. destruct (er !! k) as [[inst st]|] eqn:Ek; [|done].
  destruct (encode st ops) as [st' wire] eqn:Ee. cbn. intros [= <- <-].
  destruct (registry_sync_some _ _ _ _ _ HR Ek) as (ps & -> & Hs).
  destruct (encode_decode_sync _ _ _ _ _ Hs Hops Ee) as (ps' & Hd & Hs'). rewrite Hd. cbn.
  eexists. split; [done|]. by apply registry_sync_insert.
Qed.

Lemma add_sim inst member er er' k dr :
  registry_sync er dr -> add encoder inst member er = (er', Ok k) ->
  exists dr', add decoder inst member dr = (dr', Ok k) /\ registry_sync er' dr'.
Proof.
  intros HR. unfold add. intros (s1 & u & [= <- Hn] & (s2 & u2 & [= <- <-] & [= <- <-])%sm_bind_Ok)%sm_bind_Ok.
  apply throw_if_Ok, bool_decide_eq_false in Hn. rewrite <- eq_None_not_Some in Hn.
  eexists. split; [|by apply registry_sync_insert, encoder_sync].
  apply sm_bind_Ok. exists dr, tt. split; [|done]. unfold reads_state. f_equal. apply throw_if_Ok, bool_decide_eq_false.
  rewrite <- eq_None_not_Some. by eapply registry_sync_none.
Qed.

Lemma get_sim inst member er er' k dr :
  registry_sync er dr -> get inst member er = (er', Ok k) ->
  exists dr', get inst member dr = (dr', Ok k) /\ registry_sync er' dr'.
Proof.
  intros HR. unfold get. intros (s1 & u & [= <- Hn] & [= <- <-])%sm_bind_Ok.
  apply throw_if_Ok, bool_decide_eq_false in Hn. exists dr. split; [|done].
  apply sm_bind_Ok. exists dr, tt. split; [|done]. unfold reads_state. f_equal. apply throw_if_Ok, bool_decide_eq_false.
  intros Hd. apply Hn. specialize (HR (stateKey inst member)). rewrite Hd in HR. by destruct (er !! _) as [[]|].
Qed.

(** The operations of a member, of an instance and of an update are well formed. *)
Definition member_wf (m : ServiceMemberSnapshot (list Op)) : Prop :=
  match m with MethodMember _ => True | StateMember _ _ ops => Forall op_wf ops end.
Definition instance_wf (s : ServiceInstanceSnapshot (list Op)) : Prop := Forall member_wf (members s).
Definition snapshot_wf (s : ServiceSubscriptionSnapshot (list Op)) : Prop := Forall instance_wf (instances s).
Definition update_wf (u : ServiceProviderUpdate (list Op)) : Prop :=
  match u with
  | StateUpdate _ _ _ ops => Forall op_wf ops
  | Replaced s | Spawned s => instance_wf s
  | Unavailable | Closed _ => True
  end.

Lemma member_sim inst m er er' w dr :
  member_wf m -> registry_sync er dr -> code_member encoder encode_ops inst m er = (er', Ok w) ->
  exists dr', code_member decoder decode inst w dr = (dr', Ok m) /\ registry_sync er' dr'.
Proof.
  intros Hm HR. destruct m as [name|name sequence ops]; cbn [code_member].
  - intros [= <- <-]. by exists dr.
  - intros (e1 & k & H1 & (e2 & ws & H2 & [= <- <-])%sm_bind_Ok)%sm_bind_Ok.
    destruct (add_sim _ _ _ _ _ _ HR H1) as (d1 & G1 & R1). destruct (with_codec_sim _ _ _ _ _ _ Hm R1 H2) as (d2 & G2 & R2).
    exists d2. split; [|done]. cbn [code_member]. apply sm_bind_Ok. exists d1, k. split; [done|]. apply sm_bind_Ok. by exists d2, ops.
Qed.

Lemma instance_sim s er er' w dr :
  instance_wf s -> registry_sync er dr -> encodeInstance s er = (er', Ok w) ->
  exists dr', decodeInstance w dr = (dr', Ok s) /\ registry_sync er' dr'.
Proof.
  intros Hs HR. destruct s as [inst ms]. unfold encodeInstance, code_instance. cbn [instance members].
  intros (e1 & ws & H1 & [= <- <-])%sm_bind_Ok.
  destruct (map_each_sim _ (code_member decoder decode inst) registry_sync member_wf _ _ _ _ _
    (fun m e e' w d => member_sim inst m e e' w d) Hs HR H1) as (d1 & G1 & R1).
  exists d1. split; [|done]. apply sm_bind_Ok. by exists d1, ms.
Qed.

Lemma snapshot_sim s er er' w dr :
  snapshot_wf s -> encodeSnapshot s er = (er', Ok w) ->
  exists dr', decodeSnapshot w dr = (dr', Ok s) /\ registry_sync er' dr'.
Proof.
  intros Hs. destruct s as [sid md is_]. unfold encodeSnapshot, code_snapshot. cbn [serviceId mode instances].
  intros (e0 & u & [= <- <-] & (e1 & ws & H1 & [= <- <-])%sm_bind_Ok)%sm_bind_Ok.
  destruct (map_each_sim _ decodeInstance registry_sync instance_wf _ _ _ _ _ instance_sim Hs registry_sync_empty H1) as (d1 & G1 & R1).
  exists d1. split; [|done]. apply sm_bind_Ok. exists ∅, tt. split; [done|]. apply sm_bind_Ok. by exists d1, is_.
Qed.

Lemma update_sim u er er' w dr :
  update_wf u -> registry_sync er dr -> encodeUpdate u er = (er', Ok w) ->
  exists dr', decodeUpdate w dr = (dr', Ok u) /\ registry_sync er' dr'.
Proof.
  intros Hu HR. unfold encodeUpdate. destruct u as [inst member sequence ops| |s|s|inst]; cbn [code_update update_wf] in *.
  - intros (e1 & k & H1 & (e2 & ws & H2 & [= <- <-])%sm_bind_Ok)%sm_bind_Ok.
    destruct (get_sim _ _ _ _ _ _ HR H1) as (d1 & G1 & R1). destruct (with_codec_sim _ _ _ _ _ _ Hu R1 H2) as (d2 & G2 & R2).
    exists d2. split; [|done]. unfold decodeUpdate. cbn [code_update]. apply sm_bind_Ok. exists d1, k. split; [done|]. apply sm_bind_Ok. by exists d2, ops.
  - intros (e1 & k & [= <- <-] & [= <- <-])%sm_bind_Ok. exists ∅. split; [done|apply registry_sync_empty].
  - intros (e0 & k & [= <- <-] & (e1 & ws & H1 & [= <- <-])%sm_bind_Ok)%sm_bind_Ok.
    destruct (instance_sim _ _ _ _ ∅ Hu registry_sync_empty H1) as (d1 & G1 & R1).
    exists d1. split; [|done]. unfold decodeUpdate. cbn [code_update]. apply sm_bind_Ok. exists ∅, tt. split; [done|]. apply sm_bind_Ok. by exists d1, s.
  - intros (e1 & ws & H1 & [= <- <-])%sm_bind_Ok. destruct (instance_sim _ _ _ _ _ Hu HR H1) as (d1 & G1 & R1).
    exists d1. split; [|done]. unfold decodeUpdate. cbn [code_update]. apply sm_bind_Ok. by exists d1, s.
  - intros (e1 & k & [= <- <-] & [= <- <-])%sm_bind_Ok. eexists. split; [done|].
    by apply (registry_sync_filter _ _ (fun i => sameAddress i inst)).
Qed.
