(* ===== verification/MemoryStorageSpec.v ===== *)
(** What [MemoryStorage] promises, without its indexes: five tables of records,
    to which a commit writes, and the documents its actions leave, whose past no
    commit changes. *)
From S2P Require Import Prelude JsBase Json JsonText DeltaOps DurableTypes SortedIds MemoryStorage MemoryStorageInv MemoryStorageTables MemoryStorageDocuments MemoryStorageCommit.

(** * The tables *)

Record Tables : Type := Tables_ {
  t_conversations : gmap Id ConversationRecord;
  t_entries : gmap Id (EntryRecord * Seq);
  t_tasks : gmap Id TaskRecord;
  t_submissions : gmap Id SubmissionRecord;
}.

(** One write: the record, under its id; entries with the sequence. *)
Definition put (seq : Seq) (t : Tables) (w : StorageWrite) : Tables :=
  match w with
  | WriteConversation v => Tables_ (<[conv_id v := v]> (t_conversations t)) (t_entries t) (t_tasks t) (t_submissions t)
  | WriteEntry v => Tables_ (t_conversations t) (<[entry_id v := (v, seq)]> (t_entries t)) (t_tasks t) (t_submissions t)
  | WriteTask v => Tables_ (t_conversations t) (t_entries t) (<[task_id v := v]> (t_tasks t)) (t_submissions t)
  | WriteSubmission v => Tables_ (t_conversations t) (t_entries t) (t_tasks t) (<[sub_id v := v]> (t_submissions t))
  | WriteDocumentCreate _ _ | WriteDocumentChange _ _ | WriteDocumentRetire _ => t
  end.

(** The tables a state implements. *)
Record implements (s : State) (t : Tables) : Prop := Implements {
  im_conversations : conversations s = t_conversations t;
  im_entries : forall id, t_entries t !! id = (e ← entries s !! id; q ← entryCommitSeqs s !! id; Some (e, q));
  im_tasks : tasks s = t_tasks t;
  im_submissions : submissions s = t_submissions t;
}.

Lemma apply_write_put seq w m m' t :
  apply_write seq w m = (m', Ok tt) -> implements (state m) t -> implements (state m') (put seq t w).
Proof.
  intros H [H1 H2 H3 H4]. destruct w as [v|v|v|v|r c|id c|id]; cbn in H.
  - injection H as <-. split; cbn; try done; congruence.
  - unfold write_entry, mbind, sm_bind in H. destruct (entry_head v); injection H as <-; split; cbn; try done;
      intros x; (destruct (decide (x = entry_id v)) as [->|]; [by rewrite !lookup_insert_eq|by rewrite !lookup_insert_ne]).
  - unfold write_task, gets, mbind, sm_bind in H. cbn -[decide] in H.
    destruct (tasks (state m) !! task_id v) as [p|];
      [destruct (decide (task_status (task_state p) = task_status (task_state v)))|]; injection H as <-; split; cbn; try done; congruence.
  - injection H as <-. split; cbn; try done; congruence.
  - by injection H as <-.
  - by injection H as <-.
  - by injection H as <-.
Qed.

Lemma apply_writes_put seq ws m m' t :
  for_each (apply_write seq) ws m = (m', Ok tt) -> implements (state m) t -> implements (state m') (foldl (put seq) t ws).
Proof.
  revert m t. induction ws as [|w ws IH]; intros m t; cbn [for_each foldl]; [by intros [= <-]|].
  intros (m1 & [] & H1 & H2)%sm_bind_Ok Ht. eapply IH; [exact H2|]. by eapply apply_write_put.
Qed.

(** A successful commit: its sequence is the counter it found, the tables take
    the writes in order, every document has the result of its action. *)
Lemma commit_result ws m m' q t :
  storage_inv m -> implements (state m) t -> commit ws m = (m', Ok q) ->
  q = nextSeq m /\ nextSeq m' = q + 1 /\ (closed m = false /\ closed m' = false) /\ implements (state m') (foldl (put q) t ws) /\
  exists actions, prepareDocumentActions ws = Ok actions /\
    forall x, documents (state m') !! x =
      match amap_get actions x with
      | Some a => action_result q (state m) (x, a)
      | None => documents (state m) !! x
      end.
Proof.
  intros Hinv Ht Hm. destruct (commit_cases ws m Hinv) as [[e He]|(claimed & actions & H1 & H2 & H3 & H4)]; [congruence|].
  destruct (commit_run _ _ _ _ Hinv H1 H2 H3 H4) as (m1 & m2 & E & E1 & L1 & (Q2 & C2 & ds & a2 & sc & Hs2) & L2 & X2).
  rewrite E in Hm. injection Hm as <- <-. split; [done|]. cbn.
  rewrite Q2, (tl_seq _ _ _ _ L1). split; [done|]. split; [split; [done|by rewrite C2, (tl_closed _ _ _ _ L1)]|]. split; [|eauto].
  destruct (apply_writes_put _ _ _ _ _ E1 Ht) as [I1 I2 I3 I4]. rewrite Hs2. by split.
Qed.

(** The tables of a state. *)
Definition tables_of (s : State) : Tables :=
  Tables_ (conversations s) (map_zip (entries s) (entryCommitSeqs s)) (tasks s) (submissions s).

Lemma tables_of_implements s : implements s (tables_of s).
Proof.
  split; try done. intros id. cbn. rewrite map_lookup_zip_with. by destruct (entries s !! id), (entryCommitSeqs s !! id).
Qed.

Lemma implements_tables_of s t : implements s t -> t = tables_of s.
Proof.
  intros [H1 H2 H3 H4]. destruct t as [c e ts ss]; cbn in *. unfold tables_of. f_equal; try done.
  apply map_eq. intros id. by rewrite H2, map_lookup_zip_with; destruct (entries s !! id), (entryCommitSeqs s !! id).
Qed.

(** * Writes to the tables *)

Lemma put_conversation_ne q ws ts id :
  (forall v, WriteConversation v ∈ ws -> conv_id v <> id) ->
  t_conversations (foldl (put q) ts ws) !! id = t_conversations ts !! id.
Proof.
  revert ts. induction ws as [|w ws IH]; intros ts H; [done|]. cbn [foldl]. rewrite IH by (intros; apply H; by right).
  destruct w as [v|v|v|v|r c|x c|x]; cbn; try done. rewrite lookup_insert_ne; [done|]. apply H. by left.
Qed.

Lemma put_entry_ne q ws ts id :
  (forall v, WriteEntry v ∈ ws -> entry_id v <> id) -> t_entries (foldl (put q) ts ws) !! id = t_entries ts !! id.
Proof.
  revert ts. induction ws as [|w ws IH]; intros ts H; [done|]. cbn [foldl]. rewrite IH by (intros; apply H; by right).
  destruct w as [v|v|v|v|r c|x c|x]; cbn; try done. rewrite lookup_insert_ne; [done|]. apply H. by left.
Qed.

Lemma put_entry_eq q ws ts e :
  WriteEntry e ∈ ws -> NoDup (omap immutable_claim ws) -> t_entries (foldl (put q) ts ws) !! entry_id e = Some (e, q).
Proof.
  intros (l1 & l2 & ->)%list_elem_of_split. rewrite omap_app. intros (_ & _ & Hnd)%NoDup_app.
  apply NoDup_cons in Hnd as [Hni _]. rewrite foldl_app. cbn [foldl]. rewrite put_entry_ne; [apply lookup_insert_eq|].
  intros v Hv E. apply Hni, list_elem_of_omap. exists (WriteEntry v). split; [done|]. cbn. by rewrite E.
Qed.

(** Conversations and entries stay as they are. *)
Lemma commit_keeps_conversation ws m m' q id v :
  storage_inv m -> commit ws m = (m', Ok q) -> conversations (state m) !! id = Some v -> conversations (state m') !! id = Some v.
Proof.
  intros Hinv Hm Hv. destruct (commit_result _ _ _ _ _ Hinv (tables_of_implements _) Hm) as (_ & _ & _ & [T _ _ _] & _).
  rewrite T, put_conversation_ne; [done|]. intros v' Hw E.
  apply (commit_fresh ws m m' q (WriteConversation v') (conv_id v') Hinv Hm Hw eq_refl TConversation). cbn. rewrite E. by eexists.
Qed.

Lemma commit_entry_lookup ws m m' q id :
  storage_inv m -> commit ws m = (m', Ok q) ->
  (e ← entries (state m') !! id; q' ← entryCommitSeqs (state m') !! id; Some (e, q')) =
  t_entries (foldl (put q) (tables_of (state m)) ws) !! id.
Proof. intros Hinv Hm. destruct (commit_result _ _ _ _ _ Hinv (tables_of_implements _) Hm) as (_ & _ & _ & [_ T _ _] & _). by rewrite T. Qed.

Lemma commit_keeps_entry ws m m' q id e :
  storage_inv m -> commit ws m = (m', Ok q) -> entries (state m) !! id = Some e ->
  entries (state m') !! id = Some e /\ entryCommitSeqs (state m') !! id = entryCommitSeqs (state m) !! id.
Proof.
  intros Hinv Hm He. pose proof (commit_entry_lookup ws m m' q id Hinv Hm) as H. rewrite put_entry_ne in H.
  - destruct (so_entries _ _ (si_state _ Hinv)) as (_ & _ & _ & Hseq & _). destruct (proj1 (Hseq id)) as [q0 Hq0]; [by eexists|].
    cbn in H. rewrite map_lookup_zip_with, He, Hq0 in H. cbn in H. rewrite Hq0.
    destruct (entries (state m') !! id), (entryCommitSeqs (state m') !! id); cbn in H; try done. by injection H as -> ->.
  - intros v Hw E. apply (commit_fresh ws m m' q (WriteEntry v) (entry_id v) Hinv Hm Hw eq_refl TEntry). cbn. rewrite E. by eexists.
Qed.

Lemma commit_adds_entry ws m m' q e :
  storage_inv m -> commit ws m = (m', Ok q) -> WriteEntry e ∈ ws ->
  entries (state m') !! entry_id e = Some e /\ entryCommitSeqs (state m') !! entry_id e = Some q.
Proof.
  intros Hinv Hm He. pose proof (commit_entry_lookup ws m m' q (entry_id e) Hinv Hm) as H.
  rewrite (put_entry_eq q ws _ e He (commit_claims_NoDup _ _ _ _ Hinv Hm)) in H.
  destruct (entries (state m') !! entry_id e), (entryCommitSeqs (state m') !! entry_id e); cbn in H; try done. by injection H as -> ->.
Qed.

(** * Requests *)

Lemma for_each_snoc {A} (f : A -> step) l a m m' :
  for_each f (l ++ [a]) m = (m', Ok tt) -> exists m0, f a m0 = (m', Ok tt).
Proof.
  revert m. induction l as [|b l IH]; intros m; cbn [app for_each].
  - intros (m0 & u & H1 & H2)%sm_bind_Ok. injection H2 as <-. destruct u. eauto.
  - intros (m0 & u & H1 & H2)%sm_bind_Ok. by eapply IH.
Qed.

(** A submission written last is the one its request finds. *)
Lemma commit_records_request ws v r m m' q :
  storage_inv m -> commit (ws ++ [WriteSubmission v]) m = (m', Ok q) -> sub_requestId v = Some r ->
  submissions (state m') !! sub_id v = Some v /\
  request_id (submissionIdsByRequest (state m')) (sub_conversationId v) r = Some (sub_id v).
Proof.
  intros Hinv Hm Hr. destruct (commit_cases (ws ++ [WriteSubmission v]) m Hinv) as [[e He]|(claimed & actions & H1 & H2 & H3 & H4)]; [congruence|].
  destruct (commit_run _ _ _ _ Hinv H1 H2 H3 H4) as (m1 & m2 & E & E1 & _ & (_ & _ & ds & a2 & sc & Hs2) & _).
  rewrite E in Hm. injection Hm as <- <-. cbn. rewrite Hs2. cbn. apply for_each_snoc in E1 as [m0 E1].
  cbn [apply_write] in E1. unfold write_submission in E1.
  unfold gets, modify, mbind, sm_bind in E1. injection E1 as <-. cbn. rewrite lookup_insert_eq. split; [done|].
  unfold request_id, record_request. rewrite Hr, lookup_insert_eq. cbn. by rewrite lookup_insert_eq.
Qed.

(** * The action of a document *)

(** What the writes of a commit say about a document. *)
Definition content_for (id : Id) (w : StorageWrite) : option DocumentContent :=
  match w with
  | WriteDocumentCreate r c => if decide (create_id r = id) then Some c else None
  | WriteDocumentChange id' c => if decide (id' = id) then Some c else None
  | _ => None
  end.

Lemma prepareDocumentAction_content actions w actions' id c :
  prepareDocumentAction actions w = Ok actions' ->
  (amap_get actions id ≫= act_content = Some c \/ content_for id w = Some c) ->
  amap_get actions' id ≫= act_content = Some c.
Proof.
  intros H Hc. destruct w as [v|v|v|v|r c'|id' c'|id']; cbn in H; try (apply Ok_inj in H as <-; by destruct Hc); res_inv;
    rewrite amap_get_set; cbn in Hc; case_decide as E; subst; cbn.
  - destruct Hc as [Hc|Hc]; [|done]. exfalso. destruct (amap_get actions (create_id r)) as [a|]; cbn in *; [|done].
    rewrite Hc in *. by rewrite (bool_decide_true (is_Some (Some c))), orb_true_r in * by eauto.
  - by destruct Hc.
  - destruct Hc as [Hc|Hc]; [|done]. exfalso. destruct (amap_get actions id) as [a|]; cbn in *; [|done].
    rewrite Hc in *. by rewrite bool_decide_true in * by eauto.
  - by destruct Hc.
  - destruct Hc as [Hc|Hc]; [|done]. by destruct (amap_get actions id) as [a|].
  - by destruct Hc.
Qed.

Lemma prepareDocumentActions_content ws actions w id c :
  prepareDocumentActions ws = Ok actions -> w ∈ ws -> content_for id w = Some c ->
  exists a, amap_get actions id = Some a /\ act_content a = Some c.
Proof.
  intros H Hw Hc. enough (amap_get actions id ≫= act_content = Some c) as E.
  { destruct (amap_get actions id) as [a|]; [eauto|done]. }
  unfold prepareDocumentActions in H. revert H. generalize (@nil (Id * DocumentAction)) as acts.
  induction ws as [|w' ws IH]; intros acts; [by apply elem_of_nil in Hw|].
  cbn [foldM]. intros (acts1 & H1 & H2)%bind_Ok. apply elem_of_cons in Hw as [<-|Hw]; [|by eapply IH].
  assert (amap_get acts1 id ≫= act_content = Some c) as E by (eapply prepareDocumentAction_content; [exact H1|by right]).
  clear IH H1. revert acts1 H2 E. induction ws as [|w1 ws IH]; intros acts1; cbn [foldM]; [by intros [= <-]|].
  intros (acts2 & H1 & H2)%bind_Ok E. eapply IH; [exact H2|]. eapply prepareDocumentAction_content; [exact H1|by left].
Qed.

Lemma prepareDocumentActions_retire ws actions id a :
  prepareDocumentActions ws = Ok actions -> amap_get actions id = Some a -> act_retire a = true -> WriteDocumentRetire id ∈ ws.
Proof.
  intros H. revert a.
  enough (forall a, amap_get actions id = Some a -> act_retire a = true -> WriteDocumentRetire id ∈ ws) by done.
  apply (foldM_invariant (fun acts : Actions => forall a, amap_get acts id = Some a -> act_retire a = true -> WriteDocumentRetire id ∈ ws)
    prepareDocumentAction ws [] actions); [|done|exact H].
  intros acts w acts' Hw IH Hp a. destruct w as [v|v|v|v|r c'|id' c'|id']; cbn in Hp; try (apply Ok_inj in Hp as <-; by apply IH); res_inv;
    rewrite amap_get_set; case_decide as E; subst; try apply IH; intros [= <-]; cbn.
  - destruct (amap_get acts (create_id r)) as [a0|]; cbn; [by apply IH|done].
  - destruct (amap_get acts id) as [a0|]; cbn; [by apply IH|done].
  - done.
Qed.

(** After a successful commit a document that was there has been changed, then
    retired, as the writes say. *)
Lemma commit_existing_document ws m m' q id d :
  storage_inv m -> commit ws m = (m', Ok q) -> documents (state m) !! id = Some d ->
  exists a, documents (state m') !! id = Some (changed_then_retired q a d) /\
    (forall w c, w ∈ ws -> content_for id w = Some c -> act_content a = Some c) /\
    (act_retire a = true -> WriteDocumentRetire id ∈ ws) /\
    (act_content a <> None \/ act_retire a = true -> doc_retiredAt (sd_record d) = None) /\
    match act_content a with
    | Some c => is_base c = true \/ exists p, last (sd_revisions d) = Some p /\ content_version (rev_content p) = content_version c
    | None => True
    end.
Proof.
  intros Hinv Hm Hd. destruct (commit_cases ws m Hinv) as [[e He]|(claimed & actions & H1 & H2 & H3 & H4)]; [congruence|].
  destruct (commit_result _ _ _ _ _ Hinv (tables_of_implements _) Hm) as (-> & _ & _ & _ & actions' & H3' & Hx).
  assert (actions' = actions) as -> by congruence. specialize (Hx id).
  destruct (prepareDocumentActions_ok _ _ H3) as [Hnd _]. destruct (checkDocumentActions_ok _ _ Hnd H4) as (Hp & _ & _).
  destruct (amap_get actions id) as [a|] eqn:Ea.
  - apply (amap_get_elem _ _ _ Hnd) in Ea as Hin. rewrite Forall_forall in Hp. specialize (Hp _ Hin). unfold existing_pending in Hp. cbn in Hp.
    destruct (act_create a) as [r|] eqn:Er; [destruct Hp as [Hp _]; congruence|]. destruct Hp as (d0 & Hd0 & Hr & Hc0).
    assert (d0 = d) as -> by congruence. exists a. split_and!.
    + rewrite Hx. unfold action_result. cbn. by rewrite Er, Hd.
    + intros w c Hw Hc. destruct (prepareDocumentActions_content _ _ _ _ _ H3 Hw Hc) as (a' & Ha' & Hc'). congruence.
    + by eapply prepareDocumentActions_retire.
    + done.
    + done.
  - exists (Action None None false). split_and!; [by rewrite Hx| |done|by intros [?|?]|done].
    intros w c Hw Hc. destruct (prepareDocumentActions_content _ _ _ _ _ H3 Hw Hc) as (a' & Ha' & Hc'). congruence.
Qed.

(** * Values *)

Lemma from_last_base_snoc rs r :
  from_last_base (rs ++ [r]) = if is_base (rev_content r) then [r] else match from_last_base rs with [] => [] | l => l ++ [r] end.
Proof.
  induction rs as [|r0 rs IH]; cbn [app from_last_base]; [done|]. rewrite IH. destruct (is_base (rev_content r)) eqn:E; [done|].
  destruct (from_last_base rs); [|done]. by destruct (is_base (rev_content r0)).
Qed.

Lemma replay_snoc version value rs v ops q :
  replay version value (rs ++ [Revision (ContentDelta v ops) q]) =
  (x ← replay version value rs;
   throw_if (negb (v =? version)) (StorageError "Document crosses a stored version boundary without a base");;
   v' ← map_err DeltaError (applyImmutable (Some x) ops); deref v').
Proof.
  revert value. induction rs as [|r rs IH]; intros value; cbn [app replay].
  - unfold mbind, result_bind. cbn. destruct (throw_if _ _); [|done]. by destruct (map_err _ _) as [[x|]|].
  - destruct (rev_content r) as [|v0 ops0]; [done|]. unfold mbind, result_bind in *. destruct (throw_if (negb (v0 =? version)) _); [|done].
    destruct (map_err _ (applyImmutable (Some value) ops0)) as [[x|]|]; [apply IH|done|done].
Qed.

Lemma on_container_Some p f x o : on_container p f (Some x) = Ok o -> is_Some o.
Proof. cbn. destruct (modify_at _ _ _ _); cbn; [intros [= <-]; eauto|done]. Qed.

Lemma applyOps_Some x ops o : applyOps (Some x) ops = Ok o -> is_Some o.
Proof.
  revert x. unfold applyOps. induction ops as [|op ops IH]; intros x; cbn [foldM]; [intros [= <-]; eauto|].
  intros (o1 & (op' & _ & H1)%bind_Ok & H2)%bind_Ok. enough (is_Some o1) as [y ->] by by eapply IH.
  destruct op'; cbn [applyOp] in H1; try (by eapply on_container_Some); injection H1 as <-; eauto.
Qed.

(** A value stays a value. *)
Lemma applyImmutable_Some x ops o : applyImmutable (Some x) ops = Ok o -> is_Some o.
Proof.
  revert x. unfold applyImmutable. induction ops as [|op ops IH]; intros x; cbn [foldM]; [intros [= <-]; eauto|].
  intros (o1 & H1 & H2)%bind_Ok. enough (is_Some o1) as [y ->] by by eapply IH.
  destruct op; cbn [applyImmutable_step] in H1; apply bind_Ok in H1 as (c & _ & H1); try (by eapply applyOps_Some);
    injection H1 as <-; eauto.
Qed.

Lemma materialize_base rs v value q : materialize (rs ++ [Revision (ContentBase v value) q]) = Ok (v, value).
Proof. unfold materialize. by rewrite from_last_base_snoc. Qed.

Lemma materialize_delta rs version value ops q value' :
  materialize rs = Ok (version, value) -> applyImmutable (Some value) ops = Ok (Some value') ->
  materialize (rs ++ [Revision (ContentDelta version ops) q]) = Ok (version, value').
Proof.
  unfold materialize. rewrite from_last_base_snoc. cbn [rev_content is_base].
  destruct (from_last_base rs) as [|r rest]; [done|]. cbn [app]. destruct (rev_content r) as [v0 value0|]; [|done].
  intros (x & Hx & [= -> ->])%bind_Ok Ha. rewrite replay_snoc, Hx. cbn. rewrite Z.eqb_refl. cbn. by rewrite Ha.
Qed.

Lemma links_snoc p rs r :
  links p (rs ++ [r]) ->
  links p rs /\
  (is_base (rev_content r) = true \/ exists q, last (p :: rs) = Some q /\ content_version (rev_content r) = content_version (rev_content q)).
Proof.
  revert p. induction rs as [|r0 rs IH]; intros p; cbn [links app].
  - intros [[H|H] _]; split; eauto.
  - intros [H (H1 & H2)%IH]. done.
Qed.

(** What a chain replays to has the version of its last revision. *)
Lemma materialize_version rs p v x :
  materialize rs = Ok (v, x) -> last rs = Some p -> content_version (rev_content p) = v.
Proof.
  destruct rs as [|p' rs _] using rev_ind; [done|]. rewrite last_snoc. intros H [= ->]. unfold materialize in H.
  rewrite from_last_base_snoc in H. destruct p as [c q]. destruct c as [v0 x0|v0 ops]; cbn [rev_content is_base] in H.
  - cbn in *. congruence.
  - destruct (from_last_base rs) as [|r rest]; [done|]. cbn [app] in H. destruct (rev_content r); [|done].
    rewrite replay_snoc in H. res_inv. cbn. bool_lia.
Qed.

(** From its last base on, a chain is deltas of one version. *)
Lemma chain_tail rs :
  chain_ok rs -> exists r rest, from_last_base rs = r :: rest /\ is_base (rev_content r) = true /\
    Forall (fun d => is_base (rev_content d) = false /\ content_version (rev_content d) = content_version (rev_content r)) rest /\
    exists p, last rs = Some p /\ content_version (rev_content p) = content_version (rev_content r).
Proof.
  induction rs as [|p rs IH] using rev_ind; [done|]. intros H. rewrite from_last_base_snoc.
  destruct (is_base (rev_content p)) eqn:Eb.
  { exists p, []. split_and!; [done|done|constructor|]. exists p. by rewrite last_snoc. }
  destruct rs as [|r0 rs]; [destruct H as [H _]; congruence|]. destruct H as [Hb Hl]. 
  apply links_snoc in Hl as [Hl [?|(p' & Hp' & Hv)]]; [congruence|].
  destruct IH as (r & rest & E & Hr & Hrest & p0 & Hp0 & Hv0); [done|]. rewrite E. assert (p0 = p') as -> by congruence.
  exists r, (rest ++ [p]). split_and!; [done|done| |].
  - apply Forall_app. split; [done|]. constructor; [|constructor]. split; [done|congruence].
  - exists p. rewrite last_snoc. split; [done|congruence].
Qed.

Lemma replay_errors v x rs e :
  Forall (fun d => is_base (rev_content d) = false /\ content_version (rev_content d) = v) rs ->
  replay v x rs = Err e -> exists de, e = DeltaError de.
Proof.
  intros H. revert x. induction H as [|r rs [Hb Hv] _ IH]; intros x; [done|]. cbn [replay].
  destruct (rev_content r) as [|v0 ops]; [done|]. cbn in Hv. subst v0. rewrite Z.eqb_refl. cbn [negb throw_if mbind result_bind].
  destruct (applyImmutable (Some x) ops) as [o|de] eqn:E; cbn [map_err]; [|intros [= <-]; eauto].
  destruct (applyImmutable_Some _ _ _ E) as [y ->]. apply IH.
Qed.

(** A chain replays unless a delta does not apply. *)
Lemma chain_materialize rs e : chain_ok rs -> materialize rs = Err e -> exists de, e = DeltaError de.
Proof.
  intros (r & rest & E & Hb & Hrest & _)%chain_tail. unfold materialize. rewrite E.
  destruct (rev_content r) as [v x|]; [|done]. destruct (replay v x rest) as [y|e'] eqn:Er; [done|]. intros [= <-].
  by eapply replay_errors.
Qed.

Lemma changed_materialize d c q version value :
  materialize (sd_revisions d) = Ok (version, value) ->
  match c with
  | ContentBase v x => materialize (sd_revisions (changed q d (Some c))) = Ok (v, x)
  | ContentDelta v ops =>
      v = version -> forall x, applyImmutable (Some value) ops = Ok (Some x) ->
      materialize (sd_revisions (changed q d (Some c))) = Ok (version, x)
  end.
Proof.
  intros Hm. destruct c as [v x|v ops]; cbn [changed is_base andb].
  - destruct (isCurrentOnly (sd_record d)); cbn [sd_revisions]; [done|apply materialize_base].
  - intros -> x Hx. cbn [sd_revisions]. by eapply materialize_delta.
Qed.

(** A change without a retirement is what the document reads as from then on. *)
Lemma commit_changes_document ws m m' q id c r version value :
  storage_inv m -> commit ws m = (m', Ok q) -> document m id Current = Ok (Some (StoredDoc r version value)) ->
  WriteDocumentChange id c ∈ ws -> WriteDocumentRetire id ∉ ws ->
  match c with
  | ContentBase v x => document m' id Current = Ok (Some (StoredDoc r v x))
  | ContentDelta v ops =>
      v = version /\ forall x, applyImmutable (Some value) ops = Ok (Some x) ->
        document m' id Current = Ok (Some (StoredDoc r version x))
  end.
Proof.
  intros Hinv Hm Hdoc Hw Hret. destruct (commit_result _ _ _ _ _ Hinv (tables_of_implements _) Hm) as (_ & _ & [_ Ho] & _).
  unfold document in Hdoc. destruct (documents (state m) !! id) as [d|] eqn:Hd; [|by res_inv].
  destruct (commit_existing_document _ _ _ _ _ _ Hinv Hm Hd) as (a & Hd' & Hc & Hr & _ & Hdelta).
  assert (act_content a = Some c) as Ea by (eapply Hc; [exact Hw|]; cbn; by rewrite decide_True).
  rewrite Ea in Hdelta.
  assert (act_retire a = false) as Er by (destruct (act_retire a); [by destruct Hret; apply Hr|done]).
  cbn [throw_if] in Hdoc. apply bind_Ok in Hdoc as (_ & _ & Hdoc). cbn [mbind result_bind] in Hdoc.
  destruct (isAliveAt (sd_record d) Current) eqn:Hal; [|by res_inv]. apply bind_Ok in Hdoc as ([v0 x0] & Hmat & Hdoc).
  assert (sd_record d = r /\ v0 = version /\ x0 = value) as (Hrec & -> & ->) by by injection Hdoc.
  set (d1 := changed q d (Some c)). assert (sd_record d1 = sd_record d) as Hrec1 by (unfold d1, changed; by destruct (_ && _)).
  assert (forall v x, materialize (sd_revisions d1) = Ok (v, x) -> document m' id Current = Ok (Some (StoredDoc r v x))) as Hread.
  { intros v x Hx. unfold document, assertOpen. rewrite Ho, Hd'. unfold changed_then_retired. rewrite Ea, Er. fold d1.
    rewrite Hrec1, Hal. cbn [throw_if mbind result_bind revisions_at]. rewrite Hx. cbn. by rewrite Hrec. }
  pose proof (changed_materialize d c q version value Hmat) as Hch. destruct c as [v x|v ops]; [by apply Hread|].
  destruct Hdelta as [?|(p & Hp & Hv)]; [done|]. cbn in Hv. rewrite (materialize_version _ _ _ _ Hmat Hp) in Hv.
  split; [done|]. intros x Hx. by apply Hread, Hch.
Qed.

(** * The past *)

Lemma filter_before_snoc p rs r :
  p < rev_seq r -> List.filter (fun r => rev_seq r <=? p) (rs ++ [r]) = List.filter (fun r => rev_seq r <=? p) rs.
Proof.
  intros H. rewrite List.filter_app. cbn. replace (rev_seq r <=? p) with false by (symmetry; apply Z.leb_gt; lia). apply app_nil_r.
Qed.

(** The version and value a read gives, or its error. *)
Definition reading (r : result storage_err (option StoredDocument)) : result storage_err (option (Z * json)) :=
  match r with Ok d => Ok (option_map (fun d => (stored_version d, stored_value d)) d) | Err e => Err e end.

(** Reads as of an earlier sequence do not see a later change or retirement. *)
Lemma document_past m m' id d a p q :
  closed m' = closed m -> documents (state m) !! id = Some d -> documents (state m') !! id = Some (changed_then_retired q a d) ->
  p < q -> (act_content a <> None \/ act_retire a = true -> doc_retiredAt (sd_record d) = None) ->
  reading (document m' id (At p)) = reading (document m id (At p)).
Proof.
  intros Hc Hd Hd' Hp Hr. unfold document, assertOpen. rewrite Hc, Hd, Hd'. destruct (closed m); [done|]. cbn [throw_if mbind result_bind].
  set (d1 := changed q d (act_content a)).
  assert (sd_record d1 = sd_record d) as Hrec by (unfold d1, changed; destruct (act_content a); [by destruct (_ && _)|done]).
  assert (isCurrentOnly (sd_record d) = false -> revisions_at (sd_revisions d1) (At p) = revisions_at (sd_revisions d) (At p)) as Hrev.
  { intros E. unfold d1, changed. destruct (act_content a) as [c|]; [|done]. rewrite E, andb_false_r. by apply filter_before_snoc. }
  unfold changed_then_retired. fold d1. destruct (act_retire a) eqn:Er; [|rewrite Hrec; destruct (isCurrentOnly _); [done|by rewrite Hrev]].
  unfold retired. cbn [sd_record sd_revisions]. rewrite Hrec.
  change (isCurrentOnly (retire_record (sd_record d) q)) with (isCurrentOnly (sd_record d)).
  destruct (isCurrentOnly (sd_record d)); [done|]. rewrite Hrev by done.
  assert (isAliveAt (retire_record (sd_record d) q) (At p) = isAliveAt (sd_record d) (At p)) as ->.
  { unfold isAliveAt, retire_record. cbn. rewrite Hr by by right. by replace (p <? q) with true by (symmetry; by apply Z.ltb_lt). }
  destruct (isAliveAt (sd_record d) (At p)); [|done]. cbn. by destruct (materialize _) as [[v x]|].
Qed.
