(* ===== verification/MemoryStorageScans.v ===== *)
(** The paged scans of [MemoryStorage]: reading page after page yields every
    record of the query once, in the order of the ids.  The entries a conversation
    sees are its own and, up to where it forked, its ancestors':
    [findLatestHeadMarker] and [scanEntries] walk up the forest. *)
From Stdlib Require Import Sorted.
From S2P Require Import Prelude JsBase Json JsonText DeltaOps DurableTypes SortedIds MemoryStorage MemoryStorageInv.

(** A reader that follows the cursors; [None] is running out of fuel. *)
Fixpoint read_pages {T} (scan : option Id -> option (result storage_err (Page T))) (fuel : nat) (cursor : option Id)
  : option (result storage_err (list T)) :=
  match fuel with
  | O => None
  | S fuel =>
      match scan cursor with
      | None => None
      | Some (Err e) => Some (Err e)
      | Some (Ok p) =>
          match next p with
          | None => Some (Ok (items p))
          | Some after => r ← read_pages scan fuel (Some after); Some (rest ← r; Ok (items p ++ rest))
          end
      end
  end.

(** * Filters *)

Lemma filter_none {A} (f : A -> bool) l : (forall x, x ∈ l -> f x = false) -> List.filter f l = [].
Proof. induction l as [|x l IH]; intros H; cbn; [done|]. rewrite (H x), IH; [done| |by left]. intros; apply H; by right. Qed.

Lemma filter_all {A} (f : A -> bool) l : (forall x, x ∈ l -> f x = true) -> List.filter f l = l.
Proof. induction l as [|x l IH]; intros H; cbn; [done|]. rewrite (H x), IH; [done| |by left]. intros; apply H; by right. Qed.

Lemma filter_comm {A} (f g : A -> bool) l : List.filter f (List.filter g l) = List.filter g (List.filter f l).
Proof. induction l as [|x l IH]; cbn; [done|]. destruct (f x) eqn:Ef, (g x) eqn:Eg; cbn; rewrite ?Ef, ?Eg, IH; done. Qed.

Lemma filter_elem {A} (f : A -> bool) l x : x ∈ List.filter f l <-> x ∈ l /\ f x = true.
Proof. by rewrite !list_elem_of_In, filter_In. Qed.

Lemma filter_increasing {A} (key : A -> Z) (f : A -> bool) l : increasing (key <$> l) -> increasing (key <$> List.filter f l).
Proof.
  induction l as [|x l IH]; cbn; [done|]. intros [Hl Hx]%StronglySorted_inv. destruct (f x); [|by apply IH].
  cbn. constructor; [by apply IH|]. rewrite Forall_forall in *. intros y Hy. apply Hx.
  apply list_elem_of_fmap in Hy as (z & -> & Hz). apply list_elem_of_fmap_2. by apply filter_elem in Hz as [Hz _].
Qed.

(** * Scans of an index with a filter *)

Lemma read_pages_more {T} (scan : option Id -> option (result storage_err (Page T))) n n' cursor r :
  (n <= n')%nat -> read_pages scan n cursor = Some r -> read_pages scan n' cursor = Some r.
Proof.
  revert n' cursor r. induction n as [|n IH]; intros [|n'] cursor r Hn; cbn [read_pages]; try done; [lia|].
  destruct (scan cursor) as [[p|e]|]; [|done|done]. destruct (next p) as [after|]; [|done].
  destruct (read_pages scan n (Some after)) as [r0|] eqn:E; [|done]. rewrite (IH n' (Some after) r0 ltac:(lia) E). done.
Qed.

Section Paging.
Context {T : Type} (id_of : T -> Id) (ids : list Id) (get : Id -> result storage_err T) (matches : T -> bool) (val : Id -> T).
Hypothesis Hinc : increasing ids.
Hypothesis Hget : forall id, id ∈ ids -> get id = Ok (val id) /\ id_of (val id) = id.

Lemma collect_take room l :
  (forall id, id ∈ l -> get id = Ok (val id)) -> collect get matches room l = Ok (take room (List.filter matches (val <$> l))).
Proof.
  revert room. induction l as [|id l IH]; intros room Hl; destruct room as [|room]; try done.
  cbn [collect]. rewrite (Hl id) by by left. cbn [mbind result_bind fmap list_fmap List.filter].
  rewrite !IH by (intros; apply Hl; by right). by destruct (matches (val id)).
Qed.

(** What a cursor leaves to read. *)
Definition after_cursor (cursor : option Id) (v : T) : bool :=
  match cursor with None => true | Some a => a <? id_of v end.

Definition selected (cursor : option Id) : list T := List.filter (after_cursor cursor) (List.filter matches (val <$> ids)).

Lemma drop_upperBound a : drop (upperBound ids a) ids = List.filter (fun id => a <? id) ids.
Proof.
  apply increasing_ext.
  - generalize (upperBound ids a) as n. intros n. assert (H := Hinc). rewrite <- (take_drop n ids) in H.
    by apply increasing_app in H as (_ & ? & _).
  - rewrite <- (list_fmap_id (List.filter _ _)). apply (filter_increasing id). by rewrite list_fmap_id.
  - intros x. rewrite (separates_elems_drop _ _ _ _ Hinc (upperBound_separates ids a Hinc)), filter_elem.
    by rewrite Z.leb_gt, Z.ltb_lt.
Qed.

Lemma selected_start cursor : selected cursor = List.filter matches (val <$> drop (start_after ids cursor) ids).
Proof.
  unfold selected. rewrite filter_comm. f_equal. destruct cursor as [a|]; cbn [start_after].
  - rewrite drop_upperBound. clear Hinc. assert (forall l, (forall id, id ∈ l -> id ∈ ids) ->
      List.filter (after_cursor (Some a)) (val <$> l) = val <$> List.filter (fun id => a <? id) l) as H; [|by apply H].
    intros l. induction l as [|x l IH]; intros Hl; cbn; [done|]. destruct (Hget x) as [_ ->]; [apply Hl; by left|].
    rewrite IH by (intros; apply Hl; by right). by destruct (a <? x).
  - rewrite drop_0. clear. induction (val <$> ids) as [|x l IH]; cbn; [done|by rewrite IH].
Qed.

Lemma selected_increasing cursor : increasing (id_of <$> selected cursor).
Proof.
  assert (increasing (id_of <$> (val <$> ids))) as H.
  { replace (id_of <$> (val <$> ids)) with ids; [done|]. rewrite <- list_fmap_compose. symmetry.
    rewrite <- (list_fmap_id ids) at 2. apply list_fmap_ext. intros i x Hx. apply Hget. by eapply list_elem_of_lookup_2. }
  by apply filter_increasing, filter_increasing.
Qed.

Variable limit : nat.
Hypothesis Hlimit : (1 <= limit)%nat.

Definition scan_page (cursor : option Id) : result storage_err (Page T) :=
  values ← collect get matches (limit + 1) (drop (start_after ids cursor) ids);
  page id_of values limit.

Lemma scan_page_result cursor :
  (length (selected cursor) <= limit)%nat /\ scan_page cursor = Ok (Page_ (selected cursor) None) \/
  exists a v, selected cursor = a ++ v :: drop limit (selected cursor) /\ drop limit (selected cursor) <> [] /\ length (a ++ [v]) = limit /\
    scan_page cursor = Ok (Page_ (a ++ [v]) (Some (id_of v))).
Proof.
  unfold scan_page. rewrite collect_take, <- selected_start.
  2:{ intros id Hid. apply Hget. rewrite <- (take_drop (start_after ids cursor) ids). set_solver. }
  set (l := selected cursor). cbn [mbind result_bind]. unfold page. rewrite take_take, length_take.
  replace (limit `min` (limit + 1))%nat with limit by lia.
  destruct (Nat.leb_spec ((limit + 1) `min` length l) limit) as [Hle|Hgt].
  - left. split; [lia|]. by rewrite take_ge by lia.
  - right. destruct (take limit l) as [|v a _] eqn:E using rev_ind; [apply (f_equal length) in E; rewrite length_take in E; cbn in E; lia|].
    exists a, v. split_and!.
    + rewrite <- (take_drop limit l) at 1. by rewrite E, <- app_assoc.
    + intros H. apply (f_equal length) in H. rewrite length_drop in H. cbn in H. lia.
    + rewrite <- E, length_take. lia.
    + by rewrite last_snoc.
Qed.

(** The page after the one that ends in [v] starts after it. *)
Lemma selected_next cursor a v rest : selected cursor = a ++ v :: rest -> selected (Some (id_of v)) = rest.
Proof.
  intros E. pose proof (selected_increasing cursor) as Hs. rewrite E, fmap_app in Hs. cbn [fmap list_fmap] in Hs.
  apply increasing_app in Hs as (_ & [_ Hr]%StronglySorted_inv & Ha).
  assert (selected (Some (id_of v)) = List.filter (after_cursor (Some (id_of v))) (selected cursor)) as ->.
  { unfold selected. set (all := List.filter matches (val <$> ids)).
    assert (forall x, after_cursor (Some (id_of v)) x = true -> after_cursor cursor x = true) as Himp.
    { assert (after_cursor cursor v = true) as Hv.
      { assert (v ∈ selected cursor) as Hin by (rewrite E; set_solver). by apply filter_elem in Hin as [_ ?]. }
      intros x. destruct cursor as [c|]; [|done]. cbn in *. rewrite !Z.ltb_lt in *. lia. }
    clear -Himp. induction all as [|x l IH]; cbn; [done|].
    destruct (id_of v <? id_of x) eqn:E1; destruct (after_cursor cursor x) eqn:E2; cbn; rewrite ?E1, IH; try done.
    by rewrite (Himp x E1) in E2. }
  rewrite E, List.filter_app. cbn [List.filter after_cursor]. rewrite Z.ltb_irrefl.
  rewrite (filter_none _ a), (filter_all _ rest); [done| |].
  - intros x Hx. apply Z.ltb_lt. rewrite Forall_forall in Hr. apply Hr. by apply list_elem_of_fmap_2.
  - intros x Hx. apply Z.ltb_ge. enough (id_of x < id_of v) by lia. apply Ha; [by apply list_elem_of_fmap_2|by left].
Qed.

Lemma read_pages_selected fuel cursor :
  (length (selected cursor) < fuel)%nat -> read_pages (fun c => Some (scan_page c)) fuel cursor = Some (Ok (selected cursor)).
Proof.
  revert cursor. induction fuel as [|fuel IH]; intros cursor Hf; [lia|]. cbn [read_pages].
  destruct (scan_page_result cursor) as [[_ ->]|(a & v & E & _ & Hlen & ->)]; [done|]. cbn [items next].
  pose proof (selected_next cursor _ _ _ E) as En. rewrite IH.
  - cbn. rewrite En. rewrite E at 2. by rewrite <- app_assoc.
  - rewrite En. apply (f_equal length) in E. rewrite !length_app in *. cbn in *. lia.
Qed.
End Paging.

(** * The scans of the storage *)

(** The records with [P], each once, by increasing id. *)
Definition enumerates {T} (id_of : T -> Id) (P : T -> Prop) (l : list T) : Prop :=
  increasing (id_of <$> l) /\ forall v, v ∈ l <-> P v.

Lemma read_pages_enumerates {T} (id_of : T -> Id) (records : gmap Id T) ids (Q : T -> Prop) get matches limit fuel
  (scan : option Id -> result storage_err (Page T)) :
  keyed id_of records -> index_ok (fun id => exists r, records !! id = Some r /\ Q r) ids ->
  (forall id r, records !! id = Some r -> get id = Ok r) ->
  (forall cursor, scan cursor = scan_page id_of ids get matches limit cursor) ->
  (1 <= limit)%nat -> (length ids < fuel)%nat ->
  exists l, read_pages (fun c => Some (scan c)) fuel None = Some (Ok l) /\
    enumerates id_of (fun v => records !! id_of v = Some v /\ Q v /\ matches v = true) l.
Proof.
  intros Hk [Hinc Hids] Hget Hscan Hlimit Hfuel.
  destruct (decide (ids = [])) as [->|Hne].
  { exists []. destruct fuel as [|fuel]; [lia|]. cbn [read_pages]. rewrite Hscan.
    replace (scan_page id_of [] get matches limit None) with (@Ok storage_err _ (Page_ [] None : Page T)).
    2:{ unfold scan_page. cbn [start_after drop]. by destruct limit. }
    split; [done|]. split; [constructor|]. intros v. split; [by intros ?%elem_of_nil|]. intros (H1 & H2 & _).
    exfalso. apply (not_elem_of_nil (id_of v)), Hids. eauto. }
  destruct ids as [|id0 ids0]; [done|]. set (ids := id0 :: ids0) in *.
  destruct (proj1 (Hids id0) ltac:(by left)) as (r0 & _).
  set (val := fun id => default r0 (records !! id)).
  assert (forall id, id ∈ ids -> get id = Ok (val id) /\ id_of (val id) = id /\ records !! id = Some (val id) /\ Q (val id)) as Hval.
  { intros id (r & Hr & HQ)%Hids. unfold val. rewrite Hr. cbn. split_and!; [by apply Hget|by apply Hk|done|done]. }
  exists (selected id_of ids matches val None). split.
  - rewrite <- (read_pages_selected id_of ids get matches val Hinc) with (limit := limit) (fuel := fuel); [|naive_solver|done|].
    + clear -Hscan. generalize (@None Id) as c. induction fuel as [|fuel IH]; intros c; cbn; [done|]. rewrite Hscan.
      destruct (scan_page _ _ _ _ _ c) as [p|]; [|done]. destruct (next p); [|done]. by rewrite IH.
    + unfold selected. rewrite (filter_all (after_cursor _ _)) by done. clear -Hfuel. revert Hfuel. generalize ids as l. intros l Hl.
      enough (length (List.filter matches (val <$> l)) <= length l)%nat by lia. rewrite filter_length_le, length_fmap. done.
  - unfold selected. rewrite (filter_all (after_cursor _ _)) by done. split.
    + apply filter_increasing. replace (id_of <$> (val <$> ids)) with ids; [done|]. rewrite <- list_fmap_compose. symmetry.
      rewrite <- (list_fmap_id ids) at 2. apply list_fmap_ext. intros i x Hx. apply Hval. by eapply list_elem_of_lookup_2.
    + intros v. rewrite filter_elem, list_elem_of_fmap. split.
      * intros [(id & -> & Hid) Hm]. destruct (Hval id Hid) as (_ & -> & ? & ?). done.
      * intros (Hr & HQ & Hm). split; [|done]. exists (id_of v). assert (id_of v ∈ ids) as Hid by (apply Hids; eauto).
        split; [|done]. unfold val. by rewrite Hr.
Qed.

Section Scans.
Variable m : MemoryStorage.
Hypothesis Hinv : storage_inv m.
Hypothesis Hopen : closed m = false.
Variables (limit fuel : nat).
Hypothesis Hlimit : (1 <= limit)%nat.

Local Lemma assertOpen_Ok : assertOpen m = Ok tt.
Proof. unfold assertOpen. by rewrite Hopen. Qed.

Lemma scanConversations_pages :
  (length (conversationIds (state m)) < fuel)%nat ->
  exists l, read_pages (fun cursor => Some (scanConversations m cursor limit)) fuel None = Some (Ok l) /\
    enumerates conv_id (fun v => conversations (state m) !! conv_id v = Some v) l.
Proof.
  intros Hfuel. destruct (so_conversations _ _ (si_state _ Hinv)) as [Hk Hi].
  destruct (read_pages_enumerates conv_id (conversations (state m)) (conversationIds (state m)) (fun _ => True)
    (fun id => deref (conversations (state m) !! id)) (fun _ => true) limit fuel
    (fun cursor => scanConversations m cursor limit)) as (l & Hl & H1 & H2); [done| | | |done|done|].
  - eapply index_ok_ext; [|exact Hi]. intros id. split; [intros [r ?]; eauto|intros (r & ? & _); eauto].
  - intros id r ->. done.
  - intros cursor. unfold scanConversations, scan_page. rewrite assertOpen_Ok. cbn [mbind result_bind]. f_equal.
    generalize (drop (start_after (conversationIds (state m)) cursor) (conversationIds (state m))) as ids.
    generalize (limit + 1)%nat as room. intros room. induction room as [|room IH]; intros [|id ids]; cbn; try done.
    destruct (deref _); cbn; [|done]. by rewrite <- IH.
  - exists l. split; [done|]. split; [done|]. intros v. rewrite H2. tauto.
Qed.

Lemma scanTasks_pages query :
  (length (match tq_status query with None => taskIds (state m) | Some st => taskIdsByStatus (state m) st end) < fuel)%nat ->
  exists l, read_pages (fun cursor => Some (scanTasks m query cursor limit)) fuel None = Some (Ok l) /\
    enumerates task_id (fun t => tasks (state m) !! task_id t = Some t /\
      task_matches query t = true /\ opt_matches (tq_status query) (status_of t) = true) l.
Proof.
  intros Hfuel. destruct (so_tasks _ _ (si_state _ Hinv)) as (Hk & Hi & Hst).
  destruct (read_pages_enumerates task_id (tasks (state m))
    (match tq_status query with None => taskIds (state m) | Some st => taskIdsByStatus (state m) st end)
    (fun t => opt_matches (tq_status query) (status_of t) = true)
    (fun id => deref (tasks (state m) !! id)) (task_matches query) limit fuel
    (fun cursor => scanTasks m query cursor limit)) as (l & Hl & H1 & H2); [done| | | |done|done|].
  - destruct (tq_status query) as [st|]; cbn.
    + eapply index_ok_ext; [|exact (Hst st)]. intros id. split; intros (r & ? & H); exists r; (split; [done|]);
        [by apply bool_decide_eq_true|by apply bool_decide_eq_true in H].
    + eapply index_ok_ext; [|exact Hi]. intros id. split; [intros [r ?]; eauto|intros (r & ? & _); eauto].
  - intros id r ->. done.
  - intros cursor. unfold scanTasks, scan_page. by rewrite assertOpen_Ok.
  - exists l. split; [done|]. split; [done|]. intros v. rewrite H2. tauto.
Qed.

Lemma scanDocuments_pages query :
  (length (default [] (documentIdsByScope (state m) !! scopeKey (dq_scope query))) < fuel)%nat ->
  exists l, read_pages (fun cursor => Some (scanDocuments m query cursor limit)) fuel None = Some (Ok l) /\
    enumerates doc_id (fun r => sd_record <$> documents (state m) !! doc_id r = Some r /\
      doc_scope r = dq_scope query /\ opt_matches (dq_kind query) (doc_kind r) = true /\ isAliveAt r (dq_at query) = true) l.
Proof.
  intros Hfuel. destruct (so_documents _ _ (si_state _ Hinv)) as (Hk & Hi & _).
  destruct (read_pages_enumerates doc_id (sd_record <$> documents (state m))
    (default [] (documentIdsByScope (state m) !! scopeKey (dq_scope query)))
    (fun r => doc_scope r = dq_scope query)
    (fun id => d ← deref (documents (state m) !! id); Ok (sd_record d))
    (fun r => opt_matches (dq_kind query) (doc_kind r) && isAliveAt r (dq_at query)) limit fuel
    (fun cursor => scanDocuments m query cursor limit)) as (l & Hl & H1 & H2); [| | | |done|done|].
  - intros id r Hr. rewrite lookup_fmap in Hr. apply fmap_Some in Hr as (d & Hd & ->). by apply (Hk id d).
  - eapply index_ok_ext; [|exact (Hi (scopeKey (dq_scope query)))]. intros id. setoid_rewrite lookup_fmap. split.
    + intros (d & Hd & Hs). exists (sd_record d). rewrite Hd. split; [done|]. apply (inj Some) in Hs. by apply scopeKey_inj.
    + intros (r & (d & Hd & ->)%fmap_Some & Hs). exists d. by rewrite Hs.
  - intros id r Hr. rewrite lookup_fmap in Hr. apply fmap_Some in Hr as (d & -> & ->). done.
  - intros cursor. unfold scanDocuments, scan_page. by rewrite assertOpen_Ok.
  - exists l. split; [done|]. split; [done|]. intros v. rewrite H2, lookup_fmap, andb_true_iff. tauto.
Qed.
End Scans.

(** * Visibility *)

Definition below_upper (upper : option Id) (id : Id) : Prop := match upper with None => True | Some u => id <= u end.

Inductive visible (s : State) : Id -> option Id -> EntryRecord -> Prop :=
| VisibleOwn c upper id e :
    entries s !! id = Some e -> entry_conversationId e = c -> below_upper upper id -> visible s c upper e
| VisibleParent c upper v p e :
    conversations s !! c = Some v -> conv_parent v = Some p ->
    visible s (parent_conversationId p) (Some (min_upper upper (parent_at p))) e -> visible s c upper e.

(** What the writers keep: a conversation forks off an older one, at an entry
    older than its own entries. *)
Definition forest_ok (s : State) : Prop :=
  forall c v p, conversations s !! c = Some v -> conv_parent v = Some p ->
    parent_conversationId p < c /\ is_Some (conversations s !! parent_conversationId p) /\
    forall id e, entries s !! id = Some e -> entry_conversationId e = c -> parent_at p < id.

(** The same as a test of the tables. *)
Definition forest_check (s : State) : bool :=
  forallb (fun cv : Id * ConversationRecord =>
    match conv_parent (snd cv) with
    | None => true
    | Some p =>
        (parent_conversationId p <? fst cv) && bool_decide (is_Some (conversations s !! parent_conversationId p)) &&
        forallb (fun ie : Id * EntryRecord => negb (entry_conversationId (snd ie) =? fst cv) || (parent_at p <? fst ie))
          (map_to_list (entries s))
    end) (map_to_list (conversations s)).

Lemma forest_check_ok s : forest_check s = true -> forest_ok s.
Proof.
  unfold forest_check. rewrite forallb_forall. intros H c v p Hc Hp.
  specialize (H (c, v)). cbn in H. rewrite Hp in H. rewrite <- list_elem_of_In, elem_of_map_to_list in H. specialize (H Hc).
  rewrite !andb_true_iff, bool_decide_eq_true, forallb_forall in H. destruct H as [[H1 H2] H3].
  split_and!; [bool_lia|done|]. intros id e He Hec. specialize (H3 (id, e)). cbn in H3.
  rewrite <- list_elem_of_In, elem_of_map_to_list in H3. specialize (H3 He). subst c. rewrite Z.eqb_refl in H3. cbn in H3. bool_lia.
Qed.

Abbreviation decreasing := (StronglySorted Z.gt).

Lemma decreasing_app a b :
  decreasing (a ++ b) <-> decreasing a /\ decreasing b /\ forall x y, x ∈ a -> y ∈ b -> y < x.
Proof.
  induction a as [|x a IH]; cbn.
  - split; [intros H; split_and!; [constructor|done|by intros ? ? ?%elem_of_nil]|tauto].
  - split.
    + intros [H Hx]%StronglySorted_inv. apply IH in H as (H1 & H2 & H3). apply Forall_app in Hx as [Hxa Hxb].
      split_and!; [by constructor|done|]. intros y z [->|Hy]%elem_of_cons Hz; [|by apply H3].
      rewrite Forall_forall in Hxb. specialize (Hxb z Hz). lia.
    + intros ([H1 Hx]%StronglySorted_inv & H2 & H3). constructor.
      * apply IH. split_and!; [done|done|]. intros y z Hy Hz. apply H3; [by right|done].
      * apply Forall_app. split; [done|]. apply Forall_forall. intros y Hy. specialize (H3 x y ltac:(by left) Hy). lia.
Qed.

Lemma decreasing_rev l : increasing l -> decreasing (rev l).
Proof.
  induction 1 as [|x l _ IH Hx]; cbn [rev]; [constructor|]. apply decreasing_app. split_and!; [done|by repeat constructor|].
  intros y z Hy ->%list_elem_of_singleton. rewrite Forall_forall in Hx. apply Hx. by apply list_elem_of_In, in_rev, list_elem_of_In.
Qed.

Lemma min_upper_le upper a : min_upper upper a <= a.
Proof. destruct upper; cbn; lia. Qed.

Lemma below_min_upper upper a id : below_upper (Some (min_upper upper a)) id <-> below_upper upper id /\ id <= a.
Proof. destruct upper; cbn; lia. Qed.

Section Visible.
Variable m : MemoryStorage.
Hypothesis Hinv : storage_inv m.
Let s := state m.
Hypothesis Hforest : forest_ok s.

Lemma visible_below c upper e : visible s c upper e -> below_upper upper (entry_id e).
Proof.
  destruct (so_entries _ _ (si_state _ Hinv)) as (Hk & _).
  induction 1 as [c upper id e He _ Hb|c upper v p e _ _ _ IH]; [by rewrite (Hk id e He)|]. by apply below_min_upper in IH as [? _].
Qed.

(** ** One conversation *)

Definition own_ids (c : Id) : list Id := default [] (entryIds s !! c).

Lemma own_ids_ok c : index_ok (fun id => exists e, entries s !! id = Some e /\ entry_conversationId e = c) (own_ids c).
Proof.
  destruct (so_entries _ _ (si_state _ Hinv)) as (_ & Hi & _). eapply index_ok_ext; [|exact (Hi c)].
  intros id. split; intros (e & H1 & H2); exists e; (split; [done|]); cbn in *; congruence.
Qed.

Lemma take_upper ids upper :
  increasing ids -> forall id, id ∈ take (upperBoundInf ids upper) ids <-> id ∈ ids /\ below_upper upper id.
Proof.
  intros Hinc id. rewrite (separates_elems _ _ _ id (upperBoundInf_separates ids upper Hinc)).
  destruct upper as [u|]; cbn [below_upper]; [rewrite Z.leb_le|]; tauto.
Qed.

Lemma entries_down_spec lo l :
  decreasing l -> decreasing (entries_down lo l) /\ forall id, id ∈ entries_down lo l <-> id ∈ l /\ above_min lo id = true.
Proof.
  induction 1 as [|x l Hl [IH1 IH2] Hx]; cbn [entries_down].
  { split; [constructor|]. intros id. rewrite elem_of_nil. tauto. }
  rewrite Forall_forall in Hx. destruct (above_min lo x) eqn:E.
  - split.
    + constructor; [done|]. apply Forall_forall. intros y Hy. apply Hx. by apply IH2.
    + intros id. rewrite !elem_of_cons, IH2. split; [intros [->|[? ?]]; auto|intros [[->|?] ?]; auto].
  - split; [constructor|]. intros id. rewrite elem_of_nil, elem_of_cons. split; [done|]. intros [Hin Ha].
    destruct lo as [lo|]; [|done]. cbn in *. apply negb_true_iff, Z.ltb_ge in Ha. apply negb_false_iff, Z.ltb_lt in E.
    destruct Hin as [->|Hin]; [lia|]. specialize (Hx id Hin). lia.
Qed.

(** The own entries of [c], newest first, within the bounds. *)
Definition own_down (c : Id) (upper lo : option Id) : list Id :=
  entries_down lo (rev (take (upperBoundInf (own_ids c) upper) (own_ids c))).

Lemma own_down_spec c upper lo :
  decreasing (own_down c upper lo) /\
  forall id, id ∈ own_down c upper lo <->
    (exists e, entries s !! id = Some e /\ entry_conversationId e = c) /\ below_upper upper id /\ above_min lo id = true.
Proof.
  destruct (own_ids_ok c) as [Hinc Hin]. unfold own_down.
  destruct (entries_down_spec lo (rev (take (upperBoundInf (own_ids c) upper) (own_ids c)))) as [H1 H2].
  { apply decreasing_rev. generalize (upperBoundInf (own_ids c) upper) as n. intros n. rewrite <- (take_drop n (own_ids c)) in Hinc.
    by apply increasing_app in Hinc as (? & _). }
  split; [done|]. intros id. rewrite H2, list_elem_of_In, <- in_rev, <- list_elem_of_In, (take_upper _ _ Hinc), Hin. tauto.
Qed.

Lemma lookup_entries l :
  (forall id, id ∈ l -> is_Some (entries s !! id)) ->
  exists es, mapM (fun id => deref (entries s !! id)) l = Ok es /\ entry_id <$> es = l /\ Forall (fun e => entries s !! entry_id e = Some e) es.
Proof.
  destruct (so_entries _ _ (si_state _ Hinv)) as (Hk & _).
  induction l as [|id l IH]; intros Hl; [by exists []|]. destruct (Hl id ltac:(by left)) as [e He].
  destruct IH as (es & E1 & E2 & E3); [intros; apply Hl; by right|]. exists (e :: es). cbn. rewrite He. cbn. rewrite E1. cbn.
  pose proof (Hk id e He) as <-. split_and!; [done|by rewrite E2|by constructor].
Qed.

Lemma mapM_take {A B} (f : A -> result storage_err B) l l' n : mapM f l = Ok l' -> mapM f (take n l) = Ok (take n l').
Proof.
  revert l' n. induction l as [|a l IH]; intros l' n; cbn.
  - intros [= <-]. by rewrite !take_nil.
  - intros (b & Hb & (bs & Hbs & [= <-])%bind_Ok)%bind_Ok. destruct n as [|n]; [done|]. cbn. rewrite Hb. cbn. by rewrite (IH bs n Hbs).
Qed.

(** ** The walk *)

(** The position of a conversation bounds the ancestors above it. *)
Lemma parent_index i c v p :
  conversationIds s !! i = Some c -> conversations s !! c = Some v -> conv_parent v = Some p ->
  exists j, (j < i)%nat /\ conversationIds s !! j = Some (parent_conversationId p).
Proof.
  intros Hi Hv Hp. destruct (Hforest _ _ _ Hv Hp) as (Hlt & Hex & _).
  destruct (so_conversations _ _ (si_state _ Hinv)) as [_ [Hinc Hin]].
  apply Hin, list_elem_of_lookup in Hex as [j Hj]. fold s in Hj. exists j. split; [|done].
  destruct (decide (j < i)%nat); [done|]. exfalso. destruct (decide (j = i)) as [->|]; [assert (parent_conversationId p = c) by congruence; lia|].
  assert (c < parent_conversationId p); [|lia]. by eapply (increasing_lookup _ i j); [exact Hinc|done|done|lia].
Qed.

(** What the walk from [c] sees, newest first. *)
Definition sees (c : Id) (upper lo : option Id) (l : list EntryRecord) : Prop :=
  decreasing (entry_id <$> l) /\ forall e, e ∈ l <-> visible s c upper e /\ above_min lo (entry_id e) = true.

Lemma visible_inv c upper e :
  visible s c upper e <->
  (entries s !! entry_id e = Some e /\ entry_conversationId e = c /\ below_upper upper (entry_id e)) \/
  exists v p, conversations s !! c = Some v /\ conv_parent v = Some p /\
    visible s (parent_conversationId p) (Some (min_upper upper (parent_at p))) e.
Proof.
  destruct (so_entries _ _ (si_state _ Hinv)) as (Hk & _). split.
  - destruct 1 as [c upper id e He Hc Hb|c upper v p e Hv Hp He].
    + left. pose proof (Hk id e He) as <-. done.
    + right. eauto.
  - intros [(H1 & H2 & H3)|(v & p & H1 & H2 & H3)]; [by eapply VisibleOwn|by eapply VisibleParent].
Qed.

Lemma visible_loop_sees i c upper lo :
  conversationIds s !! i = Some c ->
  exists l, sees c upper lo l /\
    forall fuel room, (i < fuel)%nat -> (1 <= room)%nat -> visible_loop m fuel room lo c upper = Some (Ok (take room l)).
Proof.
  revert c upper. induction (lt_wf i) as [i _ IH]. intros c upper Hi.
  destruct (own_down_spec c upper lo) as [Hdec Hin].
  destruct (lookup_entries (own_down c upper lo)) as (own & Hown & Hids & Hall).
  { intros id ((e & He & _) & _)%Hin. by exists e. }
  assert (forall e, e ∈ own <-> entries s !! entry_id e = Some e /\ entry_conversationId e = c /\
    below_upper upper (entry_id e) /\ above_min lo (entry_id e) = true) as Hoin.
  { intros e. rewrite Forall_forall in Hall. split.
    - intros He. pose proof (Hall e He) as Hs. assert (entry_id e ∈ own_down c upper lo) as Hid.
      { rewrite <- Hids. by apply list_elem_of_fmap_2. }
      apply Hin in Hid as ((e' & He' & Hc) & Hb & Ha). rewrite Hs in He'. injection He' as <-. done.
    - intros (He & Hc & Hb & Ha). assert (entry_id e ∈ own_down c upper lo) as Hid by (apply Hin; eauto).
      rewrite <- Hids in Hid. apply list_elem_of_fmap in Hid as (e' & E & He'). pose proof (Hall e' He') as Hs.
      rewrite <- E, He in Hs. injection Hs as ->. done. }
  destruct (so_conversations _ _ (si_state _ Hinv)) as [_ [_ Hcin]].
  destruct (proj1 (Hcin c)) as [v Hv]; [by eapply list_elem_of_lookup_2|]. fold s in Hv.
  assert (forall rest, (forall e, e ∈ rest <-> (exists p, conv_parent v = Some p /\
      visible s (parent_conversationId p) (Some (min_upper upper (parent_at p))) e) /\ above_min lo (entry_id e) = true) ->
    decreasing (entry_id <$> rest) -> sees c upper lo (own ++ rest)) as Hsees.
  { intros rest Hrest Hdr. split.
    - rewrite fmap_app. apply decreasing_app. split_and!; [by rewrite Hids|done|].
      intros x y Hx Hy. rewrite Hids in Hx. apply Hin in Hx as ((e & He & Hc) & _).
      apply list_elem_of_fmap in Hy as (e' & -> & ((p & Hp & Hvis) & _)%Hrest).
      apply visible_below, below_min_upper in Hvis as [_ Hle]. destruct (Hforest _ _ _ Hv Hp) as (_ & _ & Hat). specialize (Hat _ _ He Hc). lia.
    - intros e. rewrite elem_of_app, Hoin, Hrest, visible_inv. split.
      + intros [?|[(p & ? & ?) ?]]; [naive_solver|]. split; [|done]. right. eauto.
      + intros [[?|(v' & p & Hv' & ? & ?)] ?]; [naive_solver|]. right. split; [|done]. rewrite Hv in Hv'. injection Hv' as <-. eauto. }
  assert (forall l, (forall fuel room, (i < fuel)%nat -> (length own < room)%nat ->
      visible_loop m fuel room lo c upper = Some (Ok (take room (own ++ l)))) ->
    forall fuel room, (i < fuel)%nat -> (1 <= room)%nat -> visible_loop m fuel room lo c upper = Some (Ok (take room (own ++ l)))) as Hshort.
  { intros l Hl fuel room Hf Hr. destruct (decide (length own < room)%nat) as [|Hge]; [by apply Hl|].
    destruct fuel as [|fuel]; [lia|]. cbn [visible_loop]. fold (own_ids c) (own_down c upper lo).
    rewrite (mapM_take _ _ _ _ Hown). replace (room - length (take room own))%nat with 0%nat by (rewrite length_take; lia).
    cbn [Nat.eqb]. by rewrite take_app_le by lia. }
  assert (forall fuel room, (i < S fuel)%nat -> (length own < room)%nat -> visible_loop m (S fuel) room lo c upper =
    match conv_parent v with
    | None => Some (Ok own)
    | Some p =>
        if negb (above_min lo (min_upper upper (parent_at p))) then Some (Ok own)
        else r ← visible_loop m fuel (room - length own) lo (parent_conversationId p) (Some (min_upper upper (parent_at p)));
             Some (rest ← r; Ok (own ++ rest))
    end) as Hstep.
  { intros fuel room Hf Hr. cbn [visible_loop]. fold (own_ids c) (own_down c upper lo).
    rewrite (mapM_take _ _ _ _ Hown), take_ge by lia.
    destruct (Nat.eqb_spec (room - length own) 0); [lia|]. fold s. by rewrite Hv. }
  destruct (conv_parent v) as [p|] eqn:Hp; [destruct (negb (above_min lo (min_upper upper (parent_at p)))) eqn:Hcut|].
  - exists (own ++ []). split.
    + apply Hsees; [|constructor]. intros e. rewrite elem_of_nil. split; [done|]. intros [(p' & [= <-] & Hvis) Ha].
      apply visible_below in Hvis. destruct lo as [lo|]; [|done]. cbn in *.
      apply negb_true_iff, negb_false_iff, Z.ltb_lt in Hcut. apply negb_true_iff, Z.ltb_ge in Ha. lia.
    + apply Hshort. intros [|fuel] room Hf Hr; [lia|]. by rewrite Hstep, app_nil_r, take_ge by lia.
  - destruct (parent_index i c v p Hi Hv Hp) as (j & Hj & Hjp).
    destruct (IH j Hj _ (Some (min_upper upper (parent_at p))) Hjp) as (rest & [Hdr Hrest] & Hloop). exists (own ++ rest). split.
    + apply Hsees; [|done]. intros e. rewrite Hrest. naive_solver.
    + apply Hshort. intros [|fuel] room Hf Hr; [lia|]. rewrite Hstep, Hloop by lia. cbn. by rewrite take_app_ge by lia.
  - exists (own ++ []). split.
    + apply Hsees; [|constructor]. intros e. rewrite elem_of_nil. naive_solver.
    + apply Hshort. intros [|fuel] room Hf Hr; [lia|]. by rewrite Hstep, app_nil_r, take_ge by lia.
Qed.
End Visible.

(** * Head markers *)

Section HeadMarker.
Variable m : MemoryStorage.
Hypothesis Hinv : storage_inv m.
Let s := state m.
Hypothesis Hforest : forest_ok s.

(** The newest entry in sight that moves a head. *)
Definition latest_head (c : Id) (upper : option Id) (r : option (EntryRecord * Id)) : Prop :=
  match r with
  | Some (e, h) =>
      visible s c upper e /\ entry_head e = Some h /\
      forall e', visible s c upper e' -> is_Some (entry_head e') -> entry_id e' <= entry_id e
  | None => forall e', visible s c upper e' -> entry_head e' = None
  end.

Definition head_ids (c : Id) : list Id := default [] (headEntryIds s !! c).

Lemma head_ids_ok c :
  index_ok (fun id => exists e, entries s !! id = Some e /\ entry_conversationId e = c /\ is_Some (entry_head e)) (head_ids c).
Proof.
  destruct (so_entries _ _ (si_state _ Hinv)) as (_ & _ & Hi & _). eapply index_ok_ext; [|exact (Hi c)].
  intros id. unfold head_key. split; intros (e & H1 & H2); exists e.
  - destruct (entry_head e); [|done]. split_and!; [done|congruence|eauto].
  - destruct H2 as [H2 [h Hh]]. by rewrite Hh, H2.
Qed.

Lemma last_head c upper :
  let index := upperBoundInf (head_ids c) upper in
  if (0 <? index)%nat then
    exists e h, head_ids c !! (index - 1)%nat = Some (entry_id e) /\ entries s !! entry_id e = Some e /\
      entry_conversationId e = c /\ entry_head e = Some h /\ below_upper upper (entry_id e) /\
      forall id, id ∈ head_ids c -> below_upper upper id -> id <= entry_id e
  else forall id, id ∈ head_ids c -> ~ below_upper upper id.
Proof.
  destruct (head_ids_ok c) as [Hinc Hin]. pose proof (upperBoundInf_separates _ upper Hinc) as [Hle Hsep].
  pose proof (take_upper _ upper Hinc) as Htake. set (index := upperBoundInf (head_ids c) upper) in *. intros i. subst i.
  destruct (so_entries _ _ (si_state _ Hinv)) as (Hk & _).
  destruct (Nat.ltb_spec 0 index) as [Hpos|Hz].
  - destruct (lookup_lt_is_Some_2 (head_ids c) (index - 1)) as [id Hid]; [lia|].
    destruct (proj1 (Hin id)) as (e & He & Hc & [h Hh]); [by eapply list_elem_of_lookup_2|].
    pose proof (Hk id e He) as <-. exists e, h. split_and!; try done.
    + apply Htake. apply list_elem_of_lookup. exists (index - 1)%nat. by rewrite lookup_take_lt by lia.
    + intros id Hid' Hb. assert (id ∈ take index (head_ids c)) as Ht by by apply Htake.
      apply list_elem_of_lookup in Ht as [j Hj]. apply lookup_take_Some in Hj as [Hj Hlt].
      destruct (decide (j = index - 1)%nat) as [->|]; [rewrite Hid in Hj; injection Hj; lia|].
      enough (id < entry_id e) by lia. eapply (increasing_lookup _ j (index - 1)); [exact Hinc|done|done|lia].
  - intros id Hid Hb. assert (id ∈ take index (head_ids c)) as Ht by by apply Htake.
    replace index with 0%nat in Ht by lia. by apply elem_of_nil in Ht.
Qed.

Lemma head_marker_loop_latest i c upper :
  conversationIds s !! i = Some c ->
  exists r, latest_head c upper r /\ forall fuel, (i < fuel)%nat -> head_marker_loop m fuel c upper = Some (Ok r).
Proof.
  revert c upper. induction (lt_wf i) as [i _ IH]. intros c upper Hi.
  pose proof (last_head c upper) as Hlast. cbv zeta in Hlast.
  assert (forall e', entries s !! entry_id e' = Some e' -> entry_conversationId e' = c -> is_Some (entry_head e') -> entry_id e' ∈ head_ids c) as Hhin.
  { intros e' H1 H2 H3. apply head_ids_ok. eauto. }
  destruct (so_conversations _ _ (si_state _ Hinv)) as [_ [_ Hcin]].
  destruct (proj1 (Hcin c)) as [v Hv]; [by eapply list_elem_of_lookup_2|]. fold s in Hv.
  destruct (0 <? upperBoundInf (head_ids c) upper)%nat eqn:Epos.
  - destruct Hlast as (e & h & Hid & He & Hc & Hh & Hb & Hmax). exists (Some (e, h)). split.
    + split_and!; [by eapply VisibleOwn|done|]. intros e' He' Hh'.
      apply (visible_inv m Hinv) in He' as [(H1 & H2 & H3)|(v' & p & Hv' & Hp & Hvis)]; [by apply Hmax; [apply Hhin|]|].
      apply (visible_below m Hinv), below_min_upper in Hvis as [_ Hle]. destruct (Hforest _ _ _ Hv' Hp) as (_ & _ & Hat).
      specialize (Hat _ _ He Hc). lia.
    + intros [|fuel] Hf; [lia|]. cbn [head_marker_loop]. fold s (head_ids c). rewrite Epos, Hid. cbn. fold s. rewrite He. cbn. by rewrite Hh.
  - assert (forall e', visible s c upper e' -> is_Some (entry_head e') ->
      exists p, conv_parent v = Some p /\ visible s (parent_conversationId p) (Some (min_upper upper (parent_at p))) e') as Hup.
    { intros e' He' Hh'. apply (visible_inv m Hinv) in He' as [(H1 & H2 & H3)|(v' & p & Hv' & Hp & Hvis)].
      - exfalso. by apply (Hlast (entry_id e')); [apply Hhin|].
      - fold s in Hv'. assert (v' = v) as -> by congruence. eauto. }
    assert (forall fuel, (i < S fuel)%nat -> head_marker_loop m (S fuel) c upper =
      match conv_parent v with
      | None => Some (Ok None)
      | Some p => head_marker_loop m fuel (parent_conversationId p) (Some (min_upper upper (parent_at p)))
      end) as Hstep.
    { intros fuel Hf. cbn [head_marker_loop]. fold s (head_ids c). by rewrite Epos, Hv. }
    destruct (conv_parent v) as [p|] eqn:Hp.
    + destruct (parent_index m Hinv Hforest i c v p Hi Hv Hp) as (j & Hj & Hjp).
      destruct (IH j Hj _ (Some (min_upper upper (parent_at p))) Hjp) as (r & Hr & Hloop). exists r. split.
      * destruct r as [[e h]|]; cbn in *.
        -- destruct Hr as (H1 & H2 & H3). split_and!; [by eapply VisibleParent|done|].
           intros e' He' Hh'. destruct (Hup e' He' Hh') as (p' & [= <-] & Hvis). by apply H3.
        -- intros e' He'. destruct (entry_head e') as [h|] eqn:Eh; [|done].
           destruct (Hup e' He' ltac:(by rewrite Eh)) as (p' & [= <-] & Hvis). rewrite <- Eh. by apply Hr.
      * intros [|fuel] Hf; [lia|]. rewrite Hstep by done. apply Hloop. lia.
    + exists None. split.
      * intros e' He'. destruct (entry_head e') as [h|] eqn:Eh; [|done].
        by destruct (Hup e' He' ltac:(by rewrite Eh)) as (p' & ? & _).
      * intros [|fuel] Hf; [lia|]. by rewrite Hstep.
Qed.
End HeadMarker.

(** * Pages of entries *)

(** Lists with the same elements, by decreasing distinct keys, are the same. *)
Lemma decreasing_ext {T} (key : T -> Z) l1 l2 :
  decreasing (key <$> l1) -> decreasing (key <$> l2) -> (forall x, x ∈ l1 <-> x ∈ l2) -> l1 = l2.
Proof.
  revert l2. induction l1 as [|x l1 IH]; intros l2 H1 H2 Heq.
  - destruct l2 as [|y l2]; [done|]. exfalso. apply (not_elem_of_nil y). apply Heq. by left.
  - destruct l2 as [|y l2]. { exfalso. apply (not_elem_of_nil x). apply Heq. by left. }
    apply StronglySorted_inv in H1 as [H1 Hx], H2 as [H2 Hy]. rewrite Forall_forall in Hx, Hy.
    assert (forall z, z ∈ l1 -> key z < key x) as Hx' by (intros z Hz; specialize (Hx (key z) (list_elem_of_fmap_2 _ _ _ Hz)); lia).
    assert (forall z, z ∈ l2 -> key z < key y) as Hy' by (intros z Hz; specialize (Hy (key z) (list_elem_of_fmap_2 _ _ _ Hz)); lia).
    assert (x = y) as ->.
    { assert (x ∈ y :: l2) as [->|Hxin]%elem_of_cons by (apply Heq; by left); [done|].
      assert (y ∈ x :: l1) as [->|Hyin]%elem_of_cons by (apply Heq; by left); [done|].
      specialize (Hx' y Hyin). specialize (Hy' x Hxin). lia. }
    f_equal. apply IH; [done|done|]. intros z. specialize (Heq z). rewrite !elem_of_cons in Heq. split; intros Hz.
    + destruct (proj1 Heq (or_intror Hz)) as [->|]; [|done]. specialize (Hx' y Hz). lia.
    + destruct (proj2 Heq (or_intror Hz)) as [->|]; [|done]. specialize (Hy' y Hz). lia.
Qed.

Section EntryPages.
Variable m : MemoryStorage.
Hypothesis Hinv : storage_inv m.
Hypothesis Hopen : closed m = false.
Let s := state m.
Hypothesis Hforest : forest_ok s.

Lemma min_upper_comm upper a b : min_upper (Some (min_upper upper a)) b = min_upper (Some (min_upper upper b)) a.
Proof. destruct upper; cbn; lia. Qed.

Lemma visible_min_upper c upper u e : visible s c (Some (min_upper upper u)) e <-> visible s c upper e /\ entry_id e <= u.
Proof.
  split.
  - intros H. split; [|by apply (visible_below m Hinv), below_min_upper in H as [_ ?]].
    remember (Some (min_upper upper u)) as up eqn:E. revert upper E.
    induction H as [c up id e He Hc Hb|c up v p e Hv Hp _ IH]; intros upper ->.
    + eapply VisibleOwn; [done|done|]. by apply below_min_upper in Hb as [? _].
    + eapply VisibleParent; [done|done|]. apply IH. by rewrite min_upper_comm.
  - intros [H Hu]. revert Hu. induction H as [c upper id e He Hc Hb|c upper v p e Hv Hp Hvis IH]; intros Hu.
    + destruct (so_entries _ _ (si_state _ Hinv)) as (Hk & _). rewrite (Hk id e He) in Hu.
      eapply VisibleOwn; [done|done|]. by apply below_min_upper.
    + eapply VisibleParent; [done|done|]. rewrite min_upper_comm. by apply IH.
Qed.

Variables (query : EntryQuery) (limit fuel : nat).
Let c := eq_conversationId query.
Let lo := eq_minEntryId query.
Hypothesis Hknown : is_Some (conversations s !! c).
Hypothesis Hlimit : (1 <= limit)%nat.
Hypothesis Hfuel : (length (conversationIds s) <= fuel)%nat.

Definition cursor_upper (cursor : option Id) : option Id :=
  match cursor with
  | None => eq_maxEntryId query
  | Some after => Some (min_upper (eq_maxEntryId query) (after - 1))
  end.

Lemma scanEntries_page cursor :
  exists l, sees m c (cursor_upper cursor) lo l /\ scanEntries m fuel query cursor limit = Some (page entry_id (take (limit + 1) l) limit).
Proof.
  destruct (so_conversations _ _ (si_state _ Hinv)) as [_ [_ Hin]].
  assert (c ∈ conversationIds s) as [i Hi]%list_elem_of_lookup by by apply Hin.
  destruct (visible_loop_sees m Hinv Hforest i c (cursor_upper cursor) lo Hi) as (l & Hl & Hloop).
  exists l. split; [done|]. unfold scanEntries, assertOpen. rewrite Hopen. cbn [throw_if]. fold (cursor_upper cursor). fold c lo s.
  rewrite decide_True by done. rewrite Hloop; [done| |lia]. apply lookup_lt_Some in Hi. lia.
Qed.

(** The page after [v] goes on below it. *)
Lemma sees_next cursor a v rest l' :
  sees m c (cursor_upper cursor) lo (a ++ v :: rest) -> sees m c (cursor_upper (Some (entry_id v))) lo l' -> l' = rest.
Proof.
  intros [Hd Hin] [Hd' Hin']. apply (decreasing_ext entry_id); [done| |].
  - rewrite fmap_app in Hd. cbn in Hd. apply decreasing_app in Hd as (_ & [? _]%StronglySorted_inv & _). done.
  - assert (forall x, x ∈ rest -> entry_id x < entry_id v) as Hlt.
    { rewrite fmap_app in Hd. cbn in Hd. apply decreasing_app in Hd as (_ & [_ Hx]%StronglySorted_inv & _).
      rewrite Forall_forall in Hx. intros x Hx'. specialize (Hx _ (list_elem_of_fmap_2 _ _ _ Hx')). lia. }
    assert (forall x, x ∈ a -> entry_id v < entry_id x) as Hgt.
    { rewrite fmap_app in Hd. apply decreasing_app in Hd as (_ & _ & Hx). intros x Hx'. apply Hx; [by apply list_elem_of_fmap_2|by left]. }
    assert (visible s c (cursor_upper cursor) v) as Hv by (apply Hin; set_solver).
    assert (forall x, visible s c (cursor_upper (Some (entry_id v))) x <-> visible s c (cursor_upper cursor) x /\ entry_id x <= entry_id v - 1) as Hvis.
    { intros x. cbn [cursor_upper]. rewrite visible_min_upper. destruct cursor as [b|]; cbn [cursor_upper] in *; [|done].
      apply visible_min_upper in Hv as [_ Hv]. rewrite visible_min_upper. intuition lia. }
    intros x. rewrite Hin'. fold s. rewrite Hvis. assert (x ∈ rest <-> x ∈ a ++ v :: rest /\ entry_id x <= entry_id v - 1) as ->.
    { rewrite elem_of_app, elem_of_cons. split.
      - intros Hx. specialize (Hlt x Hx). split; [tauto|lia].
      - intros [[Hx|[->|Hx]] Hle]; [specialize (Hgt x Hx); lia|lia|done]. }
    rewrite Hin. fold s. tauto.
Qed.

Lemma read_entry_pages pages cursor l :
  sees m c (cursor_upper cursor) lo l -> (length l < pages)%nat ->
  read_pages (fun cursor => scanEntries m fuel query cursor limit) pages cursor = Some (Ok l).
Proof.
  revert cursor l. induction pages as [|pages IH]; intros cursor l Hl Hp; [lia|]. cbn [read_pages].
  destruct (scanEntries_page cursor) as (l0 & Hl0 & ->).
  assert (l0 = l) as ->.
  { destruct Hl as [H1 H2], Hl0 as [H3 H4]. apply (decreasing_ext entry_id); [done|done|]. intros x. by rewrite H2, H4. }
  unfold page. rewrite take_take, length_take. replace (limit `min` (limit + 1))%nat with limit by lia.
  destruct (Nat.leb_spec ((limit + 1) `min` length l) limit) as [Hle|Hgt]; cbn [items next].
  - by rewrite take_ge by lia.
  - destruct (take limit l) as [|v a _] eqn:E using rev_ind; [apply (f_equal length) in E; rewrite length_take in E; cbn in E; lia|].
    rewrite last_snoc. cbn [deref ok_or mbind result_bind items next].
    assert (l = a ++ v :: drop limit l) as El by (rewrite <- (take_drop limit l) at 1; by rewrite E, <- app_assoc).
    destruct (scanEntries_page (Some (entry_id v))) as (l' & Hl' & _).
    rewrite El in Hl. pose proof (sees_next _ _ _ _ _ Hl Hl') as ->. rewrite (IH (Some (entry_id v)) (drop limit l) Hl').
    + cbn. rewrite El at 2. by rewrite <- app_assoc.
    + rewrite length_drop. lia.
Qed.
End EntryPages.
