(* ===== verification/DeltaTheorems.v ===== *)
(** What the delta protocol of [packages/chord/src/delta/index.ts] guarantees:
    differencing, validation, application, the two wire codecs. *)
From S2P Require Import Prelude JsBase Json JsonText DeltaOps DeltaApply DeltaDiff DeltaCodec.

(** * Sample values *)

(** [{"a":[1,2,3],"t":"hello"}] and [{"a":[1,3],"t":"lo world"}]. *)
Definition sample_before : json :=
  JObj [(js "a", JArr [num_to_json 1; num_to_json 2; num_to_json 3]); (js "t", JStr (js "hello"))].
Definition sample_after : json :=
  JObj [(js "a", JArr [num_to_json 1; num_to_json 3]); (js "t", JStr (js "lo world"))].

Lemma sample_keys_sorted {V} (x y : V) : obj_sorted [(js "a", x); (js "t", y)].
Proof. unfold obj_sorted. cbn [obj_keys fmap list_fmap fst]. repeat constructor. vm_compute. congruence. Qed.

Lemma sample_before_wf : json_wf sample_before.
Proof. apply wf_obj; [apply sample_keys_sorted|wf_json..]. Qed.

Lemma sample_after_wf : json_wf sample_after.
Proof. apply wf_obj; [apply sample_keys_sorted|wf_json..]. Qed.

Lemma same_none p before after : same_ok (fun _ => false) p before after.
Proof. by intros q b a _ _ H. Qed.

(** The operations the differ emits between the samples. *)
Definition sample_ops : list Op := diffValue 1024 (fun _ => false) sample_before sample_after [].

(** Four operations: a splice of the array, and a cut and an append of the text. *)
Example sample_ops_value :
  sample_ops = [OpP [SStr (js "a")] 1 1 []; OpT [SStr (js "t")] 3; OpA [SStr (js "t")] (js " world")].
Proof. vm_compute. reflexivity. Qed.

(** * Differencing *)

(** C1: applying what [diffValue] emits between two JSON values to the first
    one succeeds and gives a value equal to the second, whatever the bound on
    overlap scans, and whatever paths the caller knows to be unchanged. *)
Theorem diff_then_apply scan same before after :
  json_wf before -> json_wf after -> same_ok same [] before after ->
  exists v, apply (Some before) (op_to_json <$> diffValue scan same before after []) = Ok (Some v) /\ json_eqv v after.
Proof.
  intros Hb Ha Hs. destruct (diffValue_turns scan same after before [] before) as (v & Hv & He); [done..|].
  exists v. split; [|done]. unfold apply. rewrite applyOps_typed; [by rewrite Hv|].
  eapply Forall_impl; [|apply op_wf_ok]. by apply diffValue_op_wf.
Qed.

Lemma diff_then_apply_witness :
  json_wf sample_before /\ json_wf sample_after /\
  exists v, apply (Some sample_before) (op_to_json <$> sample_ops) = Ok (Some v) /\ json_eqv v sample_after.
Proof.
  split; [exact sample_before_wf|]. split; [exact sample_after_wf|].
  exact (diff_then_apply 1024 (fun _ => false) _ _ sample_before_wf sample_after_wf (same_none _ _ _)).
Defined.

(** C40: every operation the differ emits is one the validator accepts: it has
    safe paths, well-formed values and, as JSON, is read back as it was. *)
Theorem diff_emits_valid_ops scan same before after p :
  path_wf p -> json_wf before -> json_wf after ->
  Forall (fun op => assertValidOp (op_to_json op) = Ok op /\ json_wf (op_to_json op)) (diffValue scan same before after p).
Proof.
  intros Hp Hb Ha. eapply Forall_impl; [by apply diffValue_op_wf|]. intros op Hop. split.
  - by apply assertValidOp_to_json, op_wf_ok.
  - by apply op_to_json_wf.
Qed.

Lemma diff_emits_valid_ops_witness :
  Forall (fun op => assertValidOp (op_to_json op) = Ok op /\ json_wf (op_to_json op)) sample_ops.
Proof. apply diff_emits_valid_ops; [by split; [|constructor]|exact sample_before_wf|exact sample_after_wf]. Defined.

(** [overlap] returns a length by which a suffix of the old text is a prefix
    of the new one; scanning all of the old text with enough candidates, it is
    the longest. *)
Theorem overlap_spec a b scan probe candidates :
  overlaps a b (overlap a b scan probe candidates) /\
  ((N.of_nat (length a) <= scan)%N -> (length a < candidates)%nat -> (0 < probe)%nat ->
   forall m, overlaps a b m -> (m <= overlap a b scan probe candidates)%nat).
Proof.
  split; [apply overlap_overlaps|]. intros Hs Hc Hp m. by apply overlap_longest.
Qed.

(** "hello" and "lo world" overlap by "lo". *)
Lemma overlap_spec_witness :
  (2 <= overlap (js "hello") (js "lo world") 1024 64 8)%nat /\ overlap (js "hello") (js "lo world") 1024 64 8 = 2%nat.
Proof.
  split; [|vm_compute; reflexivity].
  destruct (overlap_spec (js "hello") (js "lo world") 1024 64 8) as [_ H].
  apply H; [vm_compute; congruence|cbn; lia|lia|]. split; [cbn; lia|]. split; [cbn; lia|reflexivity].
Defined.

(** [jsonEqual] decides equality of JSON values: the same members whatever
    their order, and [-0] is [0]. *)
Theorem jsonEqual_decides a b : json_wf a -> json_wf b -> jsonEqual a b = true <-> json_eqv a b.
Proof. apply jsonEqual_eqv. Qed.

Lemma jsonEqual_decides_witness : jsonEqual sample_before sample_before = true /\ ~ json_eqv sample_before sample_after.
Proof.
  split; [apply jsonEqual_decides; [exact sample_before_wf..|apply json_eqv_refl]|].
  intros H. apply (jsonEqual_decides _ _ sample_before_wf sample_after_wf) in H. vm_compute in H. discriminate.
Defined.

(** * Validation and application *)

(** [assertValidOp] accepts exactly the wire form of the operations with
    safe, where required non-empty, paths and bijective permutations, and reads
    them back; whatever else it accepts denotes such an operation. *)
Theorem assertValidOp_spec :
  (forall op, assertValidOp (op_to_json op) = Ok op <-> op_ok op) /\ (forall j op, assertValidOp j = Ok op -> op_ok op).
Proof.
  split; [|apply assertValidOp_sound]. intros op. split; [apply assertValidOp_sound|apply assertValidOp_to_json].
Qed.

(** Untrusted operations cannot break the data: applying any JSON values as
    operations either throws or leaves well-formed JSON. *)
Theorem apply_keeps_json root ops root' :
  opt_json_wf root -> Forall json_wf ops -> apply root ops = Ok root' -> opt_json_wf root'.
Proof. apply applyOps_wf. Qed.

Lemma apply_keeps_json_witness :
  exists v, apply (Some sample_before) (op_to_json <$> sample_ops) = Ok (Some v) /\ json_wf v.
Proof.
  assert (Forall json_wf (op_to_json <$> sample_ops)) as Hops.
  { apply Forall_fmap. eapply Forall_impl; [apply (diffValue_op_wf 1024 (fun _ => false) sample_after sample_before [])|intros op; apply op_to_json_wf];
      [by split; [|constructor]|exact sample_before_wf|exact sample_after_wf]. }
  assert (exists v, apply (Some sample_before) (op_to_json <$> sample_ops) = Ok (Some v)) as [v Hv] by (eexists; vm_compute; reflexivity).
  exists v. split; [exact Hv|]. exact (apply_keeps_json (Some sample_before) _ (Some v) sample_before_wf Hops Hv).
Defined.

(** An operation changes nothing outside its footprint: a path that leaves
    the path of the operation at some key leads to the same value before and
    after. *)
Theorem applyOp_changes_only_footprint r op r' q :
  applyOp (Some r) op = Ok (Some r') -> diverge (op_footprint op) q -> get_at r' q = get_at r q.
Proof. apply applyOp_frame. Qed.

Lemma applyOp_changes_only_footprint_witness :
  exists r', applyOp (Some sample_before) (OpP [SStr (js "a")] 1 1 []) = Ok (Some r') /\
    get_at r' [SStr (js "t")] = Some (JStr (js "hello")).
Proof.
  eexists. split; [vm_compute; reflexivity|].
  rewrite (applyOp_changes_only_footprint sample_before (OpP [SStr (js "a")] 1 1 []) _ [SStr (js "t")]);
    [vm_compute; reflexivity|vm_compute; reflexivity|]. apply diverge_here. vm_compute. congruence.
Defined.

(** [applyImmutable], which copies the containers along each path, succeeds
    exactly when [apply] does and with the same value. *)
Theorem applyImmutable_is_apply root ops root' :
  opt_json_wf root -> Forall op_wf ops -> applyImmutable root ops = Ok root' <-> apply root (op_to_json <$> ops) = Ok root'.
Proof. apply applyImmutable_applyOps. Qed.

Lemma applyImmutable_is_apply_witness :
  exists v, applyImmutable (Some sample_before) sample_ops = Ok (Some v) /\
    apply (Some sample_before) (op_to_json <$> sample_ops) = Ok (Some v).
Proof.
  eexists. split; [vm_compute; reflexivity|]. apply applyImmutable_is_apply; [exact sample_before_wf| |vm_compute; reflexivity].
  apply diffValue_op_wf; [by split; [|constructor]|exact sample_before_wf|exact sample_after_wf].
Defined.

(** * The wire codec *)

(** C3: a decoder reads from the batches of one encoder the operations that were
    encoded, batch by batch, however paths are abbreviated. *)
Theorem codec_stream_roundtrip batches :
  Forall (Forall op_wf) batches ->
  decode_stream decoder (map (map wire_to_json) (snd (encode_stream encoder batches))) = Ok batches.
Proof.
  intros Hb. destruct (encode_stream encoder batches) as [st wires] eqn:E. cbn [snd].
  eapply encode_decode_stream; [apply encoder_sync|exact Hb|exact E].
Qed.

(** The sample operations, sent twice: the second batch refers to learnt paths. *)
Lemma codec_stream_roundtrip_witness :
  decode_stream decoder (map (map wire_to_json) (snd (encode_stream encoder [sample_ops; sample_ops]))) = Ok [sample_ops; sample_ops].
Proof.
  assert (Forall op_wf sample_ops).
  { apply diffValue_op_wf; [by split; [|constructor]|exact sample_before_wf|exact sample_after_wf]. }
  apply codec_stream_roundtrip. by repeat constructor.
Defined.

(** A base batch brings any encoder and any decoder into step: it is decoded
    exactly, and so is everything encoded after it. *)
Theorem codec_base_recovers ops batches st ps :
  isBase ops = true -> Forall op_wf ops -> Forall (Forall op_wf) batches ->
  decode_stream ps (map (map wire_to_json) (snd (encode_stream st (ops :: batches)))) = Ok (ops :: batches).
Proof.
  intros Hb Hops Hbs. cbn [encode_stream]. destruct (encode st ops) as [st1 ws] eqn:E1.
  destruct (encode_stream st1 batches) as [st2 wss] eqn:E2. cbn [snd map decode_stream].
  destruct (encode_decode_base ops st ps st1 ws Hb Hops E1) as (ps' & Hd & Hs).
  change (map wire_to_json ws) with (wire_to_json <$> ws). rewrite Hd. cbn [mbind result_bind].
  by erewrite encode_decode_stream by done.
Qed.

(** An encoder that has sent batches before, and a decoder that saw none of them. *)
Lemma codec_base_recovers_witness :
  let st := fst (encode_stream encoder [sample_ops]) in
  decode_stream decoder (map (map wire_to_json) (snd (encode_stream st [[OpR sample_before]; sample_ops]))) =
    Ok [[OpR sample_before]; sample_ops].
Proof.
  assert (Forall op_wf sample_ops).
  { apply diffValue_op_wf; [by split; [|constructor]|exact sample_before_wf|exact sample_after_wf]. }
  assert (op_wf (OpR sample_before)) by (split; [by split|]; split; [constructor|exact sample_before_wf]).
  cbv zeta. apply codec_base_recovers; [reflexivity|by repeat constructor|by repeat constructor].
Defined.

(** A decoder fed untrusted JSON only ever yields valid operations, and
    learns only safe paths, whether or not it throws. *)
Theorem decoder_is_safe ps wire ps' r :
  paths_safe ps -> decode ps wire = (ps', r) -> paths_safe ps' /\ forall ops, r = Ok ops -> Forall op_ok ops.
Proof.
  intros Hs Hd. eapply (decode_loop_safe wire (DecState ps None [])) in Hd as [H1 H2]; [|by split_and!].
  split; [done|]. exact H2.
Qed.

Lemma decoder_is_safe_witness :
  exists ops, snd (decode decoder (wire_to_json <$> snd (encode encoder sample_ops))) = Ok ops /\ Forall op_ok ops.
Proof.
  destruct (decode decoder (wire_to_json <$> snd (encode encoder sample_ops))) as [ps' r] eqn:E.
  assert (r = Ok sample_ops) as Hr by (apply (f_equal snd) in E; cbn [snd] in E; rewrite <- E; vm_compute; reflexivity).
  exists sample_ops. split; [exact Hr|].
  destruct (decoder_is_safe decoder _ ps' r (map_Forall_empty _) E) as [_ H]. exact (H sample_ops Hr).
Defined.
