(* ===== verification/WireTheorems.v ===== *)
(** What the wire guarantees: JSON checking of heap values, CBOR, framing and the
    protocol message codec of [packages/chord/src/json.ts] and
    [packages/protocol/src]. *)
From S2P Require Import Prelude JsBase Json JsHeap Cbor CborSpec Framing Protocol.

(** * Sample values *)

(** The heap of [{"a":1,"b":["hi",null]}], with the object at 1. *)
Definition sample_heap : heap :=
  <[1%positive := OPlain [(js "a", data (VNum (NInt 1))); (js "b", data (VRef 2))] []]>
  (<[2%positive := OArray [Some (data (VStr (js "hi"))); Some (data VNull)] 0 0]> ∅).

Definition sample_json : json := JObj [(js "a", JNum (NInt 1)); (js "b", JArr [JStr (js "hi"); JNull])].

Definition sample_tree : tree := tree_of_json sample_json.

Lemma sample_json_repr : json_repr sample_heap (VRef 1) sample_json.
Proof.
  eapply jrepr_obj; [vm_compute; reflexivity|]. apply Forall2_cons. split.
  { split; [reflexivity|]. eexists. split; [reflexivity|]. by apply jrepr_num. }
  apply Forall2_cons. split; [|apply Forall2_nil_2]. split; [reflexivity|]. eexists. split; [reflexivity|].
  eapply jrepr_arr; [vm_compute; reflexivity|].
  apply Forall2_cons. split; [eexists; split; [reflexivity|apply jrepr_str]|].
  apply Forall2_cons. split; [eexists; split; [reflexivity|apply jrepr_null]|apply Forall2_nil_2].
Qed.

Lemma sample_json_wf : json_wf sample_json.
Proof.
  apply wf_obj.
  - unfold obj_sorted. cbn [obj_keys fmap list_fmap fst]. repeat constructor. vm_compute. congruence.
  - repeat (apply Forall_cons_2; [apply js_str_wf|]). apply Forall_nil_2.
  - apply Forall_cons_2; [by apply wf_num|]. apply Forall_cons_2; [|apply Forall_nil_2]. apply wf_arr.
    apply Forall_cons_2; [apply wf_str, js_str_wf|]. apply Forall_cons_2; [apply wf_null|apply Forall_nil_2].
Qed.

Lemma sample_heap_repr : heap_repr sample_heap (VRef 1) sample_tree.
Proof. apply json_repr_heap_repr, sample_json_repr. Qed.

Lemma sample_tree_wf : tree_wf sample_tree.
Proof. apply tree_of_json_wf, sample_json_wf. Qed.

Definition no_options : CborOptions := CborOptions_ None None None.

Definition sample_cbor : bytes := cbor_bytes sample_tree.

Example sample_cbor_value : sample_cbor = [0xa2; 0x61; 0x61; 0x01; 0x61; 0x62; 0x82; 0x62; 0x68; 0x69; 0xf6].
Proof. vm_compute. reflexivity. Qed.

Lemma sample_encode : encodeCbor sample_heap (VRef 1) no_options = Ok sample_cbor.
Proof. vm_compute. reflexivity. Qed.

(** * JSON values of the heap *)

(** [isJsonValue] accepts exactly the heap values that represent a JSON
    value (finite numbers, dense arrays, plain objects of enumerable data
    properties, no symbols, hence no cycle) of at most 513 levels. *)
Theorem isJsonValue_spec h v :
  isJsonValue h v = true <-> exists j, json_repr h v j /\ (json_levels j <= json_max_levels)%nat.
Proof. apply isJsonValue_json. Qed.

(** * CBOR *)

(** With valid options [encodeCbor] succeeds exactly on the values that
    represent a tree within the limits (safe numbers, well-formed text, container
    and byte lengths, depth), and gives its canonical encoding; every other
    value, cyclic ones included, is rejected. *)
Theorem encodeCbor_accepts h v c o bs :
  resolveOptions c = Ok o -> (forall t, heap_repr h v t -> tree_wf t) ->
  encodeCbor h v c = Ok bs <->
  exists t, heap_repr h v t /\ bs = cbor_bytes t /\ tree_fits o t = true /\
    (tree_levels t <= depth_levels o)%nat /\ len bs <= maxByteLength o.
Proof.
  intros Ho Hwf. split.
  - intros H. assert (exists t, heap_repr h v t) as [t Ht].
    { apply encodeCbor_Ok in H as (o' & w & _ & Hw & _). by eapply encodeValue_repr. }
    exists t. split; [done|]. by apply (encodeCbor_spec h v t c o bs Ho Ht (Hwf t Ht)).
  - intros (t & Ht & H). by apply (encodeCbor_spec h v t c o bs Ho Ht (Hwf t Ht)).
Qed.

Lemma encodeCbor_accepts_witness :
  exists o t, resolveOptions no_options = Ok o /\ heap_repr sample_heap (VRef 1) t /\ sample_cbor = cbor_bytes t /\ tree_fits o t = true.
Proof.
  destruct (resolveOptions no_options) as [o|e] eqn:Eo; [|vm_compute in Eo; discriminate].
  assert (forall t, heap_repr sample_heap (VRef 1) t -> tree_wf t) as Hwf.
  { intros t Ht. rewrite (heap_repr_fun _ _ _ _ Ht sample_heap_repr). exact sample_tree_wf. }
  destruct (proj1 (encodeCbor_accepts sample_heap (VRef 1) no_options o sample_cbor Eo Hwf) sample_encode) as (t & H1 & H2 & H3 & _).
  exists o, t. split; [reflexivity|]. split; [exact H1|]. split; [exact H2|exact H3].
Defined.

(** C4: what [encodeCbor] writes [decodeCbor] reads back, under the same
    options. *)
Theorem cbor_roundtrip h v t c bs :
  heap_repr h v t -> tree_wf t -> encodeCbor h v c = Ok bs -> decodeCbor bs c = Ok t.
Proof.
  intros Ht Hwf H. pose proof H as H'. apply encodeCbor_Ok in H' as (o & w & Ho & Hw).
  destruct (proj1 (encodeCbor_spec h v t c o bs Ho Ht Hwf) H) as (-> & Hf & Hl & Hb). by apply (decodeCbor_bytes c o).
Qed.

Lemma cbor_roundtrip_witness : decodeCbor sample_cbor no_options = Ok sample_tree.
Proof. exact (cbor_roundtrip sample_heap (VRef 1) _ _ _ sample_heap_repr sample_tree_wf sample_encode). Defined.

(** Whatever bytes [decodeCbor] accepts, the value is well formed and within
    the limits, and its canonical encoding is no longer than the bytes read. *)
Theorem decodeCbor_within_limits c o bs t :
  resolveOptions c = Ok o -> bytes_wf bs -> decodeCbor bs c = Ok t ->
  tree_wf t /\ tree_fits o t = true /\ (tree_levels t <= depth_levels o)%nat /\
  len (cbor_bytes t) <= len bs <= maxByteLength o.
Proof. apply decodeCbor_good. Qed.

(** The integer 1 in nine bytes. *)
Lemma decodeCbor_within_limits_witness :
  let bs := [0x1b; 0; 0; 0; 0; 0; 0; 0; 1] in
  decodeCbor bs no_options = Ok (TNum (NInt 1)) /\ len (cbor_bytes (TNum (NInt 1))) <= len bs.
Proof.
  destruct (resolveOptions no_options) as [o|e] eqn:Eo; [|vm_compute in Eo; discriminate].
  assert (decodeCbor [0x1b; 0; 0; 0; 0; 0; 0; 0; 1] no_options = Ok (TNum (NInt 1))) as Hd by (vm_compute; reflexivity).
  split; [exact Hd|].
  assert (bytes_wf [0x1b; 0; 0; 0; 0; 0; 0; 0; 1]) as Hwf by (repeat constructor; unfold byte_ok; lia).
  apply (decodeCbor_within_limits no_options o _ _ Eo Hwf Hd).
Defined.

(** * Frames *)

(** A new decoder fed any chunks yields the frames of the bytes, however they
    are cut: exactly the frames they begin with when none announces more than
    the limit, and then the end is accepted iff no frame is left incomplete;
    otherwise it throws and stays failed.  The two cases exclude each other, and
    the frames are determined by the bytes. *)
Theorem frames_of_chunks options st chunks :
  new_frame_decoder options = Ok st -> Forall bytes_wf chunks ->
  exists max, resolveMaxFrameLength options = Ok max /\
    match push_all st chunks with
    | (st', Ok frames) =>
        exists rest, splits max (concat chunks) frames rest /\ ~ overlong max (concat chunks) /\
          (forall frames' rest', splits max (concat chunks) frames' rest' -> frames' = frames /\ rest' = rest) /\
          (snd (end_ st') = Ok tt <-> rest = [])
    | (st', Err _) => overlong max (concat chunks) /\ state st' = Failed
    end.
Proof.
  intros Hst Hc. destruct (new_frame_decoder_repr _ _ Hst) as (max & Hmax & Hok & Hr). exists max. split; [done|].
  destruct (push_all_spec max chunks Hok st [] Hr Hc) as [(st' & fs & p & E & Hs & Hr')|(st' & e & E & Hf & Ho)]; rewrite E; cbn [app] in *.
  - exists p. split_and!; [done|by eapply splits_not_overlong| |].
    + intros frames' rest' Hs'. destruct (splits_fun _ _ _ _ _ _ Hok Hs' Hs) as [-> ->]. done.
    + split.
      * destruct (end_ st') as [st'' r] eqn:Ee. cbn. intros ->. by apply (end_Ok _ _ _ _ _ Hr') in Ee as [-> _].
      * intros ->. destruct (end_boundary _ _ Hr') as [st'' ->]. done.
  - done.
Qed.

Definition default_frame_decoder : frame_decoder := FrameDecoder (replicate 4 0) 0 DEFAULT_MAX_FRAME_LENGTH [] None 0 None 0 Open.

(** A frame of two bytes cut within its header and within its payload. *)
Lemma frames_of_chunks_witness :
  new_frame_decoder None = Ok default_frame_decoder /\
  snd (push_all default_frame_decoder [[0; 0]; [0; 2; 7]; [9]]) = Ok [[7; 9]] /\
  exists max rest, splits max [0; 0; 0; 2; 7; 9] [[7; 9]] rest.
Proof.
  assert (new_frame_decoder None = Ok default_frame_decoder) as Hnew by (vm_compute; reflexivity).
  assert (Forall bytes_wf [[0; 0]; [0; 2; 7]; [9]]) as Hwf by (repeat constructor; unfold byte_ok; lia).
  assert (snd (push_all default_frame_decoder [[0; 0]; [0; 2; 7]; [9]]) = Ok [[7; 9]]) as Hp by (vm_compute; reflexivity).
  split; [exact Hnew|]. split; [exact Hp|].
  destruct (frames_of_chunks None default_frame_decoder _ Hnew Hwf) as (max & _ & H).
  destruct (push_all default_frame_decoder [[0; 0]; [0; 2; 7]; [9]]) as [st' r]. cbn [snd] in Hp. subst r.
  destruct H as (rest & Hs & _). exists max, rest. exact Hs.
Defined.

(** C8: the encoded frames of payloads within the limit, concatenated and cut
    into any chunks, are decoded to the payloads, and the stream ends cleanly. *)
Theorem frame_stream_roundtrip options st max payloads frames chunks :
  new_frame_decoder options = Ok st -> resolveMaxFrameLength options = Ok max ->
  Forall bytes_wf payloads -> Forall (frame_ok max) payloads ->
  mapM encodeFrame payloads = Ok frames -> concat chunks = concat frames ->
  exists st' st'', push_all st chunks = (st', Ok payloads) /\ end_ st' = (st'', Ok tt).
Proof.
  intros Hst Hmax Hwf Hpok Henc Hc. destruct (new_frame_decoder_repr _ _ Hst) as (max' & Hmax' & Hok & Hr).
  assert (max' = max) as -> by congruence.
  assert (frames = frame_bytes <$> payloads) as ->.
  { clear -Henc. revert frames Henc. induction payloads as [|p ps IH]; intros frames; cbn; [by intros [= <-]|].
    intros (f & [-> _]%encodeFrame_Ok & (fs & Hfs & [= <-])%bind_Ok)%bind_Ok. by rewrite (IH _ Hfs). }
  assert (Forall bytes_wf chunks) as Hcw.
  { apply Forall_concat. rewrite Hc. apply Forall_concat, Forall_fmap. eapply Forall_impl; [exact Hwf|].
    intros p Hp. apply bytes_wf_app. split; [apply be_bytes_wf|done]. }
  pose proof (splits_frames max payloads Hpok) as Hs. rewrite <- Hc in Hs.
  destruct (push_all_spec max chunks Hok st [] Hr Hcw) as [(st' & fs' & p' & E & Hs' & Hr')|(st' & e & _ & _ & Ho)];
    cbn [app] in *; [|by eapply splits_not_overlong in Hs].
  destruct (splits_fun _ _ _ _ _ _ Hok Hs Hs') as [<- <-]. destruct (end_boundary _ _ Hr') as [st'' He]. by exists st', st''.
Qed.

Lemma frame_stream_roundtrip_witness :
  exists st' st'', push_all default_frame_decoder [[0; 0; 0; 2; 7]; [9; 0]; [0; 0; 0]] = (st', Ok [[7; 9]; []]) /\ end_ st' = (st'', Ok tt).
Proof.
  apply (frame_stream_roundtrip None default_frame_decoder DEFAULT_MAX_FRAME_LENGTH [[7; 9]; []] [[0; 0; 0; 2; 7; 9]; [0; 0; 0; 0]]).
  - vm_compute. reflexivity.
  - vm_compute. reflexivity.
  - repeat constructor; unfold byte_ok; lia.
  - repeat constructor; vm_compute; congruence.
  - vm_compute. reflexivity.
  - reflexivity.
Defined.

(** * Protocol messages *)

Section Messages.
Variable kind : string.
(** The schema check of the message type, on a heap value and on a decoded one. *)
Variable Check : heap -> val -> bool.
Variable CheckTree : tree -> bool.

(** The messages a peer encodes, with the JSON they stand for. *)
Definition encoded (options : option jsnum) (msgs : list (heap * val * json)) (frames : list bytes) : Prop :=
  Forall2 (fun m f => json_repr m.1.1 m.1.2 m.2 /\ json_wf m.2 /\ encodeProtocolMessage kind Check m.1.1 m.1.2 options = Ok f) msgs frames.
End Messages.

(** Messages one peer encodes reach the other as they were, in order and
    whatever chunks the transport cuts, when both check values by the same
    schema. *)
Theorem protocol_stream_roundtrip kind Check CheckTree options st msgs fs chunks :
  (forall h v j, json_repr h v j -> Check h v = CheckTree (tree_of_json j)) ->
  new_message_decoder options = Ok st -> encoded kind Check options msgs fs -> concat chunks = concat fs ->
  exists st' st'', push_all_messages kind CheckTree st chunks = (st', Ok ((fun m => tree_of_json m.2) <$> msgs)) /\
    end_messages kind st' = (st'', Ok tt).
Proof.
  intros Hcheck Hst Hmsgs Hc. assert (exists max, resolveMaxFrameLength options = Ok max) as [max Hmax].
  { unfold new_message_decoder in Hst. apply bind_Ok in Hst as (fd & Hfd & _).
    destruct (new_frame_decoder_repr _ _ Hfd) as (max & Hmax & _). by exists max. }
  apply (push_messages_stream kind CheckTree options max st fs); [done|done| |done].
  unfold message_frames. clear -Hcheck Hmax Hmsgs. induction Hmsgs as [|[[h v] j] f msgs fs (H1 & H2 & H3) _ IH]; [constructor|].
  cbn [fmap list_fmap]. constructor; [|exact IH].
  by apply (encodeProtocolMessage_decode kind Check CheckTree Hcheck h v j options max f).
Qed.

(** A schema that accepts everything, one message, a chunk per byte. *)
Lemma protocol_stream_roundtrip_witness :
  exists f st st' st'',
    encodeProtocolMessage "client" (fun _ _ => true) sample_heap (VRef 1) None = Ok f /\
    new_message_decoder None = Ok st /\
    push_all_messages "client" (fun _ => true) st (map (fun b => [b]) f) = (st', Ok [sample_tree]) /\
    end_messages "client" st' = (st'', Ok tt).
Proof.
  assert (encodeProtocolMessage "client" (fun _ _ => true) sample_heap (VRef 1) None = Ok (0 :: 0 :: 0 :: 11 :: sample_cbor)) as He
    by (vm_compute; reflexivity).
  assert (new_message_decoder None = Ok (MessageDecoder false default_frame_decoder None)) as Hn by (vm_compute; reflexivity).
  destruct (protocol_stream_roundtrip "client" (fun _ _ => true) (fun _ => true) None (MessageDecoder false default_frame_decoder None) [(sample_heap, VRef 1, sample_json)]
    [0 :: 0 :: 0 :: 11 :: sample_cbor] (map (fun b => [b]) (0 :: 0 :: 0 :: 11 :: sample_cbor))) as (st' & st'' & H1 & H2).
  - intros. reflexivity.
  - exact Hn.
  - apply Forall2_cons. split; [|apply Forall2_nil_2]. split; [exact sample_json_repr|]. split; [exact sample_json_wf|exact He].
  - vm_compute. reflexivity.
  - eexists _, _, st', st''. split; [exact He|]. split; [exact Hn|]. split; [exact H1|exact H2].
Defined.

(** Error messages that are reported on the wire have at most 500 code
    units, whatever the codec threw; shorter ones are reported unchanged. *)
Theorem boundedErrorMessage_bound e :
  (length (boundedErrorMessage e) <= 500)%nat /\
  forall m, e = Some m -> (length m <= 500)%nat -> boundedErrorMessage e = m.
Proof.
  split; [apply boundedErrorMessage_length|]. intros m -> Hm. unfold boundedErrorMessage.
  by rewrite (proj2 (Nat.leb_le _ _) Hm).
Qed.

Lemma boundedErrorMessage_bound_witness : boundedErrorMessage (Some (js "Truncated CBOR payload")) = js "Truncated CBOR payload".
Proof.
  destruct (boundedErrorMessage_bound (Some (js "Truncated CBOR payload"))) as [_ H].
  apply (H (js "Truncated CBOR payload")); [reflexivity|]. apply Nat.leb_le. reflexivity.
Defined.
