(* ===== verification/JsFloat.v ===== *)
(** JavaScript numbers as IEEE 754 doubles, through the Standard Library's
    specification of binary floats: their addition, their text ([String(n)]) and
    the number of a decimal text. *)
From Stdlib Require Import SpecFloat.
From S2P Require Import Prelude JsBase.

(** The float of a bit pattern, and the bits of a float. *)
Definition sf_of_f64 (b : Z) : spec_float :=
  let s := f64_sign b in
  if f64_exponent b =? 2047 then if f64_mantissa b =? 0 then S754_infinity s else S754_nan
  else if f64_exponent b =? 0 then
    match f64_mantissa b with Zpos m => S754_finite s m (-1074) | _ => S754_zero s end
  else
    match f64_mantissa b + 2 ^ 52 with Zpos m => S754_finite s m (f64_exponent b - 1075) | _ => S754_nan end.

Definition f64_of_sf (f : spec_float) : Z :=
  let sign (s : bool) := if s then 2 ^ 63 else 0 in
  match f with
  | S754_zero s => sign s
  | S754_infinity s => sign s + 2047 * 2 ^ 52
  | S754_nan => 2047 * 2 ^ 52 + 2 ^ 51
  | S754_finite s m e =>
      if Zpos m <? 2 ^ 52 then sign s + Zpos m else sign s + (e + 1075) * 2 ^ 52 + (Zpos m - 2 ^ 52)
  end.

Definition sf_of_num (n : jsnum) : spec_float :=
  match n with NInt z => binary_normalize 53 1024 z 0 false | NFlt b => sf_of_f64 b end.

Definition num_of_sf (f : spec_float) : jsnum := num_of_f64 (f64_of_sf f).

(** [a + b] *)
Definition js_add (a b : jsnum) : jsnum := num_of_sf (SFadd 53 1024 (sf_of_num a) (sf_of_num b)).

(** [a - b], [a * b] and [a < b]; integers are compared as they are. *)
Definition js_sub (a b : jsnum) : jsnum := num_of_sf (SFsub 53 1024 (sf_of_num a) (sf_of_num b)).
Definition js_mul (a b : jsnum) : jsnum := num_of_sf (SFmul 53 1024 (sf_of_num a) (sf_of_num b)).

Definition js_lt (a b : jsnum) : bool :=
  match a, b with
  | NInt x, NInt y => x <? y
  | _, _ => match SFcompare (sf_of_num a) (sf_of_num b) with Some Lt => true | _ => false end
  end.

Definition js_le (a b : jsnum) : bool :=
  match a, b with
  | NInt x, NInt y => x <=? y
  | _, _ => match SFcompare (sf_of_num a) (sf_of_num b) with Some Lt | Some Eq => true | _ => false end
  end.

(** [Math.floor]; a number that is not an [NInt] is a fraction or has no floor of
    its own. *)
Definition js_floor (n : jsnum) : jsnum :=
  match n with
  | NInt _ => n
  | NFlt _ =>
      match sf_of_num n with
      | S754_finite s m e => NInt ((if s then Zneg m else Zpos m) * 2 ^ Z.max 0 e / 2 ^ Z.max 0 (- e))
      | _ => n
      end
  end.

(** [Boolean(n)] *)
Definition js_truthy (n : jsnum) : bool := negb (bool_decide (n = NInt 0) || bool_decide (n = NFlt f64_minus_zero) || isNaN n).

Definition js_infinity : jsnum := NFlt 0x7FF0000000000000.

(** [Math.min], of numbers of which at most one is a zero. *)
Definition js_min (a b : jsnum) : jsnum := if isNaN a then a else if js_lt a b then a else b.

(** [0.8], and what is left of numbers with it; [0.5]. *)
Example js_mul_samples :
  js_floor (js_mul (NFlt 0x3FE999999999999A) (NInt 16384)) = NInt 13107 /\ js_mul (NFlt 0x3FE999999999999A) (NInt 5) = NInt 4 /\
  js_floor (js_mul (NFlt 0x3FE0000000000000) (NInt (-7))) = NInt (-4) /\ js_sub (NInt 128000) (NInt 16384) = NInt 111616 /\
  js_lt (NFlt 0x3FE0000000000000) (NInt 1) = true /\ js_lt (NInt 7) js_infinity = true /\ js_min (NInt 9) js_infinity = NInt 9.
Proof. vm_compute. auto 8. Qed.

(** [0.1 + 0.2], sums of integers up to and past the safe ones, opposite
    fractions, infinities. *)
Example js_add_tenths : js_add (NFlt 0x3FB999999999999A) (NFlt 0x3FC999999999999A) = NFlt 0x3FD3333333333334.
Proof. vm_compute. reflexivity. Qed.

Example js_add_integers :
  js_add (NInt 40) (NInt 2) = NInt 42 /\ js_add (NInt (2 ^ 53 - 1)) (NInt 1) = NInt (2 ^ 53) /\
  js_add (NInt (2 ^ 53)) (NInt 1) = NInt (2 ^ 53) /\ js_add (NInt (-7)) (NInt 7) = NInt 0.
Proof. vm_compute. auto. Qed.

Example js_add_special :
  js_add (NFlt 0x3FE0000000000000) (NFlt 0xBFE0000000000000) = NInt 0 /\
  js_add (NFlt 0x3FE0000000000000) (NFlt 0x3FE0000000000000) = NInt 1 /\
  js_add (NFlt 0x7FF0000000000000) (NInt 1) = NFlt 0x7FF0000000000000 /\
  isNaN (js_add (NFlt 0x7FF0000000000000) (NFlt 0xFFF0000000000000)) = true.
Proof. vm_compute. auto. Qed.

(** * The text of a number *)

Definition pow2 (e : Z) : Z := 2 ^ Z.max 0 e.

(** The rounding interval of the finite double [m * 2 ^ e], and the double, as
    numerators over [iv_scale]; the bounds belong to it when [m] is even. *)
Record Interval : Type := Interval_ { iv_low : Z; iv_value : Z; iv_high : Z; iv_scale : Z; iv_closed : bool }.

Definition interval_of (m e : Z) : Interval :=
  let up := pow2 e in
  let low := if (m =? 2 ^ 52) && (-1074 <? e) then 4 * m - 1 else 4 * m - 2 in
  Interval_ (low * up) (4 * m * up) ((4 * m + 2) * up) (4 * pow2 (- e)) (Z.even m).

(** [s * 10 ^ x] rounds to the double. *)
Definition in_interval (iv : Interval) (s x : Z) : bool :=
  let v := s * 10 ^ Z.max 0 x * iv_scale iv in
  let ten := 10 ^ Z.max 0 (- x) in
  if iv_closed iv then (iv_low iv * ten <=? v) && (v <=? iv_high iv * ten) else (iv_low iv * ten <? v) && (v <? iv_high iv * ten).

(** [10 ^ n <= value] *)
Definition reaches (iv : Interval) (n : Z) : bool :=
  10 ^ Z.max 0 n * iv_scale iv <=? iv_value iv * 10 ^ Z.max 0 (- n).

(** The least [n] with [value < 10 ^ n], looking down from an estimate. *)
Fixpoint magnitude (iv : Interval) (fuel : nat) (n : Z) : Z :=
  match fuel with
  | O => n
  | S fuel => if reaches iv (n - 1) then n else magnitude iv fuel (n - 1)
  end.

Definition magnitude_estimate (iv : Interval) : Z :=
  (Z.log2 (iv_value iv) - Z.log2 (iv_scale iv) + 2) * 30103 / 100000 + 2.

(** [Number::toString] picks [n], [k] and [s] with [10 ^ (k - 1) <= s < 10 ^ k]
    such that [s * 10 ^ (n - k)] is the number and [k] is as small as possible;
    of two such [s], the closer one. *)
Fixpoint shortest_digits (iv : Interval) (fuel : nat) (k n : Z) : Z * Z * Z :=
  let ten := iv_scale iv * 10 ^ Z.max 0 (n - k) in
  let value := iv_value iv * 10 ^ Z.max 0 (k - n) in
  let floor := value / ten in
  let nearest := if 2 * (value - floor * ten) <? ten then floor else floor + 1 in
  let other := if 2 * (value - floor * ten) <? ten then floor + 1 else floor in
  let found s := if s =? 10 ^ k then (1, 1, n + 1) else (s, k, n) in
  match fuel with
  | O => found nearest
  | S fuel =>
      if in_interval iv nearest (n - k) then found nearest
      else if in_interval iv other (n - k) then found other
      else shortest_digits iv fuel (k + 1) n
  end.

Definition zeros (n : Z) : jsstr := replicate (Z.to_nat n) 0x30.

(** [Number::toString] of a positive number with [k] digits [s]. *)
Definition decimal_text (s k n : Z) : jsstr :=
  let digits := js_of_Z s in
  let exponent := (if n - 1 <? 0 then [0x2D] else [0x2B]) ++ js_of_Z (Z.abs (n - 1)) in
  if (k <=? n) && (n <=? 21) then digits ++ zeros (n - k)
  else if (0 <? n) && (n <=? 21) then take (Z.to_nat n) digits ++ 0x2E :: drop (Z.to_nat n) digits
  else if (-6 <? n) && (n <=? 0) then [0x30; 0x2E] ++ zeros (- n) ++ digits
  else if k =? 1 then digits ++ 0x65 :: exponent
  else take 1 digits ++ 0x2E :: drop 1 digits ++ 0x65 :: exponent.

Definition float_text (m e : Z) : jsstr :=
  let iv := interval_of m e in
  let '(s, k, n) := shortest_digits iv 17 1 (magnitude iv 6 (magnitude_estimate iv)) in
  decimal_text s k n.

(** [String(n)]; an integer up to [2 ^ 53] has its own digits. *)
Definition number_text (n : jsnum) : jsstr :=
  match n with
  | NInt z => if Z.abs z <=? 2 ^ 53 then js_of_Z z
              else match sf_of_num n with
                   | S754_finite s m e => (if s then [0x2D] else []) ++ float_text (Zpos m) e
                   | _ => js "Infinity"
                   end
  | NFlt _ =>
      match sf_of_num n with
      | S754_zero _ => js "0"
      | S754_infinity s => if s then js "-Infinity" else js "Infinity"
      | S754_nan => js "NaN"
      | S754_finite s m e => (if s then [0x2D] else []) ++ float_text (Zpos m) e
      end
  end.

(** * The number of a decimal *)

(** The double nearest to [s * 10 ^ e], negated with [sign]. *)
Definition number_of_decimal (sign : bool) (s e : Z) : jsnum :=
  if s =? 0 then if sign then NFlt f64_minus_zero else NInt 0
  else if (0 <=? e) && (s * 10 ^ e <=? 2 ^ 53) then NInt (if sign then - (s * 10 ^ e) else s * 10 ^ e)
  else if 0 <=? e then num_of_sf (binary_normalize 53 1024 (if sign then - (s * 10 ^ e) else s * 10 ^ e) 0 sign)
  else num_of_sf (SFdiv 53 1024 (S754_finite sign (Z.to_pos s) 0) (S754_finite false (Z.to_pos (10 ^ (- e))) 0)).

(** [0.1], [0.000001], [1e-7], [5e-324], [1.5], [1e21], [2 ** 53], [1e23],
    [-120] and [1/3]. *)
Definition number_samples : list jsnum :=
  [NFlt 0x3FB999999999999A; NFlt 0x3EB0C6F7A0B5ED8D; NFlt 0x3E7AD7F29ABCAF48; NFlt 1; NFlt 0x3FF8000000000000;
   NInt (10 ^ 21); NInt (2 ^ 53); NInt 99999999999999991611392; NInt (-120); NFlt 0x3FD5555555555555].

Example number_text_samples :
  number_text <$> number_samples =
  [js "0.1"; js "0.000001"; js "1e-7"; js "5e-324"; js "1.5"; js "1e+21"; js "9007199254740992"; js "1e+23"; js "-120";
   js "0.3333333333333333"].
Proof. vm_compute. reflexivity. Qed.

Example number_of_decimal_samples :
  [number_of_decimal false 1 (-1); number_of_decimal false 1 (-6); number_of_decimal false 1 (-7); number_of_decimal false 5 (-324);
   number_of_decimal false 15 (-1); number_of_decimal false 1 21; number_of_decimal false 9007199254740992 0;
   number_of_decimal false 1 23; number_of_decimal true 120 0; number_of_decimal false 3333333333333333 (-16)] = number_samples.
Proof. vm_compute. reflexivity. Qed.
