(* ===== verification/JsonParse.v ===== *)
(** [JSON.stringify] and [JSON.parse] on JSON values, as ECMAScript defines
    them, and the way back: what is written is read as it was - strings, numbers
    that print as they are, and every value made of them.  The text has no line
    break. *)
From Stdlib Require Import Sorted.
From S2P Require Import Prelude JsBase Json JsonText JsFloat.

(** * [JSON.stringify(v)] *)

(** Texts between commas, up to a closing bracket. *)
Fixpoint rest_text (close : Z) (items : list jsstr) : jsstr :=
  match items with
  | [] => [close]
  | t :: items => 0x2C :: t ++ rest_text close items
  end.

Definition items_text (open close : Z) (items : list jsstr) : jsstr :=
  open :: match items with
          | [] => [close]
          | t :: items => t ++ rest_text close items
          end.

Definition member_text (key text : jsstr) : jsstr := stringify_str key ++ 0x3A :: text.

Fixpoint stringify (v : json) : jsstr :=
  match v with
  | JNull => js "null"
  | JBool b => if b then js "true" else js "false"
  | JNum n => if isFinite n then number_text n else js "null"
  | JStr s => stringify_str s
  | JArr l => items_text 0x5B 0x5D (stringify <$> l)
  | JObj o => items_text 0x7B 0x7D ((fun kv => member_text (fst kv) (stringify (snd kv))) <$> o)
  end.

(** * [JSON.parse(text)] *)

Definition is_ws (c : Z) : bool := (c =? 0x20) || (c =? 9) || (c =? 10) || (c =? 13).

Fixpoint skip_ws (l : jsstr) : jsstr :=
  match l with
  | c :: r => if is_ws c then skip_ws r else l
  | [] => []
  end.

(** The rest of a string literal, past its opening quote. *)
Fixpoint string_body (fuel : nat) (l : jsstr) : option (jsstr * jsstr) :=
  match l with
  | [] => None
  | c :: r =>
      if c =? 0x22 then Some ([], r)
      else
        match fuel with
        | O => None
        | S fuel => '(u, r) ← string_unit l; '(s, r) ← string_body fuel r; Some (u :: s, r)
        end
  end.

Definition is_digit (c : Z) : bool := (0x30 <=? c) && (c <=? 0x39).

Fixpoint span_digits (l : jsstr) : jsstr * jsstr :=
  match l with
  | c :: r => if is_digit c then let '(d, r) := span_digits r in (c :: d, r) else ([], l)
  | [] => ([], [])
  end.

Definition digits_value (d : jsstr) : Z := foldl (fun n c => 10 * n + (c - 0x30)) 0 d.

Definition parse_fraction (l : jsstr) : option (jsstr * jsstr) :=
  match l with
  | c :: r =>
      if c =? 0x2E then match span_digits r with ([], _) => None | dr => Some dr end else Some ([], l)
  | [] => Some ([], l)
  end.

Definition parse_exponent (l : jsstr) : option (Z * jsstr) :=
  match l with
  | c :: r =>
      if (c =? 0x65) || (c =? 0x45) then
        let '(negative, r) :=
          match r with
          | s :: r' => if s =? 0x2D then (true, r') else if s =? 0x2B then (false, r') else (false, r)
          | [] => (false, r)
          end in
        match span_digits r with
        | ([], _) => None
        | (d, r) => Some (if negative : bool then - digits_value d else digits_value d, r)
        end
      else Some (0, l)
  | [] => Some (0, l)
  end.

(** No leading zero before another digit. *)
Definition integer_ok (d : jsstr) : bool :=
  match d with
  | [] => false
  | c :: d => negb (c =? 0x30) || bool_decide (d = [])
  end.

Definition parse_number (l : jsstr) : option (jsnum * jsstr) :=
  let '(sign, l) := match l with c :: r => if c =? 0x2D then (true, r) else (false, l) | [] => (false, l) end in
  let '(int, l) := span_digits l in
  if negb (integer_ok int) then None
  else
    '(frac, l) ← parse_fraction l;
    '(exp, l) ← parse_exponent l;
    Some (number_of_decimal sign (digits_value (int ++ frac)) (exp - len frac), l).

Definition literal (text : string) (v : json) (l : jsstr) : option (json * jsstr) :=
  if starts_with l (js text) then Some (v, drop (length (js text)) l) else None.

(** [parse_items] reads the elements of an array up to its bracket,
    [parse_members] adds the members of an object, up to its brace, to [o]. *)
Fixpoint parse_value (fuel : nat) (l : jsstr) : option (json * jsstr) :=
  match fuel with
  | O => None
  | S fuel =>
      let l := skip_ws l in
      match l with
      | [] => None
      | c :: r =>
          if c =? 0x22 then '(s, r) ← string_body (length r) r; Some (JStr s, r)
          else if c =? 0x5B then
            match skip_ws r with
            | [] => None
            | c' :: r' => if c' =? 0x5D then Some (JArr [], r') else '(items, r) ← parse_items fuel r; Some (JArr items, r)
            end
          else if c =? 0x7B then
            match skip_ws r with
            | [] => None
            | c' :: r' => if c' =? 0x7D then Some (JObj [], r') else '(o, r) ← parse_members fuel [] r; Some (JObj o, r)
            end
          else if c =? 0x74 then literal "true" (JBool true) l
          else if c =? 0x66 then literal "false" (JBool false) l
          else if c =? 0x6E then literal "null" JNull l
          else '(n, r) ← parse_number l; Some (JNum n, r)
      end
  end
with parse_items (fuel : nat) (l : jsstr) : option (list json * jsstr) :=
  match fuel with
  | O => None
  | S fuel =>
      '(v, r) ← parse_value fuel l;
      match skip_ws r with
      | [] => None
      | c :: r =>
          if c =? 0x2C then '(items, r) ← parse_items fuel r; Some (v :: items, r)
          else if c =? 0x5D then Some ([v], r)
          else None
      end
  end
with parse_members (fuel : nat) (o : list (jsstr * json)) (l : jsstr) : option (list (jsstr * json) * jsstr) :=
  match fuel with
  | O => None
  | S fuel =>
      match skip_ws l with
      | [] => None
      | c :: r =>
          if negb (c =? 0x22) then None
          else
            '(k, r) ← string_body (length r) r;
            match skip_ws r with
            | [] => None
            | c :: r =>
                if negb (c =? 0x3A) then None
                else
                  '(v, r) ← parse_value fuel r;
                  let o := obj_set o k v in
                  match skip_ws r with
                  | [] => None
                  | c :: r =>
                      if c =? 0x2C then parse_members fuel o r
                      else if c =? 0x7D then Some (o, r)
                      else None
                  end
            end
      end
  end.

Definition parse (text : jsstr) : option json :=
  '(v, r) ← parse_value (S (2 * length text)) text;
  if bool_decide (skip_ws r = []) then Some v else None.

(** A JSON text written with single quotes. *)
Definition js_json (s : string) : jsstr := (fun c => if c =? 0x27 then 0x22 else c) <$> js s.

(** In the texts below [~] stands for the double quote. *)
Definition js_quoted (s : string) : jsstr := (fun c => if c =? 0x7E then 0x22 else c) <$> js s.

Example parse_samples :
  parse (js_json " { 'a'  : [1, -2.50, 1e3,true ] , 'b': null, 'a': {} } ") =
    Some (JObj [(js "a", JObj []); (js "b", JNull)]) /\
  parse (js "[1, 2.5e0, 100e-2]") = Some (JArr [JNum (NInt 1); JNum (NFlt 0x4004000000000000); JNum (NInt 1)]) /\
  parse (js_json "'\u00e9\n'") = Some (JStr [0xE9; 10]) /\
  parse (js "[01]") = None /\ parse (js "[1,]") = None /\ parse (js "tru") = None.
Proof. vm_compute. repeat split. Qed.

(** * Strings *)

Lemma string_body_quoted s t k :
  quoted s t -> forall fuel, (length s <= fuel)%nat -> string_body fuel (t ++ 0x22 :: k) = Some (s, k).
Proof.
  intros H. induction H as [|u w s t Hw _ IH]; intros fuel Hf; [by destruct fuel|].
  destruct fuel as [|fuel]; cbn in Hf; [lia|]. rewrite <- app_assoc. specialize (Hw (t ++ 0x22 :: k)) as Hu.
  destruct w as [|c w].
  { pose proof (Hw []) as E. discriminate E. }
  cbn [app] in Hu |- *. cbn [string_body]. destruct (Z.eqb_spec c 0x22) as [->|Hc]; [discriminate Hu|].
  rewrite Hu. cbn. by rewrite IH by lia.
Qed.

Lemma word_cons u w : word u w -> exists c w', w = c :: w'.
Proof. intros H. destruct w as [|c w]; [by specialize (H [])|by eauto]. Qed.

Lemma quoted_length s t : quoted s t -> (length s <= length t)%nat.
Proof.
  induction 1 as [|u w s t Hw _ IH]; [done|]. apply word_cons in Hw as (c & w' & ->). cbn. rewrite length_app. lia.
Qed.

Lemma string_body_stringify s k :
  str_wf s -> let r := quote_body s ++ 0x22 :: k in string_body (length r) r = Some (s, k).
Proof.
  intros Hs. pose proof (quoted_quote_body s Hs) as Hq. apply string_body_quoted; [done|].
  pose proof (quoted_length _ _ Hq). rewrite length_app. lia.
Qed.

(** * Numbers *)

(** Where the text of a number may end. *)
Definition number_char (c : Z) : bool := is_digit c || (c =? 0x2E) || (c =? 0x65) || (c =? 0x45).

Definition stops (k : jsstr) : Prop := match k with [] => True | c :: _ => number_char c = false end.

Lemma stops_head c k : stops (c :: k) -> is_digit c = false /\ (c =? 0x2E) = false /\ (c =? 0x65) || (c =? 0x45) = false.
Proof. cbn. unfold number_char. intros H. repeat apply orb_false_iff in H as [H ?]. by rewrite H0, H1, H2. Qed.

Lemma span_digits_app l k d r : stops k -> span_digits l = (d, r) -> span_digits (l ++ k) = (d, r ++ k).
Proof.
  intros Hk. revert d r. induction l as [|c l IH]; cbn; intros d r H.
  - injection H as <- <-. destruct k as [|c k]; [done|]. apply stops_head in Hk as (H & _). cbn. by rewrite H.
  - destruct (is_digit c); [|by injection H as <- <-]. destruct (span_digits l) as [d' r'].
    rewrite (IH _ _ eq_refl). by injection H as <- <-.
Qed.

Lemma parse_fraction_app l k d r : stops k -> parse_fraction l = Some (d, r) -> parse_fraction (l ++ k) = Some (d, r ++ k).
Proof.
  intros Hk. destruct l as [|c l]; cbn.
  - intros [= <- <-]. destruct k as [|c k]; [done|]. apply stops_head in Hk as (_ & H & _). cbn. by rewrite H.
  - destruct (c =? 0x2E); [|by intros [= <- <-]]. destruct (span_digits l) as [d' r'] eqn:E.
    rewrite (span_digits_app _ _ _ _ Hk E). by destruct d'; intros [= <- <-].
Qed.

Lemma parse_exponent_app l k e r : stops k -> parse_exponent l = Some (e, r) -> parse_exponent (l ++ k) = Some (e, r ++ k).
Proof.
  intros Hk. destruct l as [|c l]; cbn [app parse_exponent].
  - intros [= <- <-]. destruct k as [|c k]; [done|]. apply stops_head in Hk as (_ & _ & H). cbn. by rewrite H.
  - destruct ((c =? 0x65) || (c =? 0x45)); [|by intros [= <- <-]].
    destruct l as [|s l]; cbn [app]; [done|].
    destruct (s =? 0x2D); [|destruct (s =? 0x2B)];
      (destruct (span_digits _) as [d' r'] eqn:E;
       apply (span_digits_app _ _ _ _ Hk) in E; cbn [app] in E; rewrite E; by destruct d'; intros [= <- <-]).
Qed.

Lemma parse_number_app l k n r : stops k -> parse_number l = Some (n, r) -> parse_number (l ++ k) = Some (n, r ++ k).
Proof.
  intros Hk. unfold parse_number. destruct l as [|c l]; [done|].
  assert (forall sign l n r,
    (let '(int, l) := span_digits l in
     if negb (integer_ok int) then None
     else '(frac, l) ← parse_fraction l; '(exp, l) ← parse_exponent l;
          Some (number_of_decimal sign (digits_value (int ++ frac)) (exp - len frac), l)) = Some (n, r) ->
    (let '(int, l) := span_digits (l ++ k) in
     if negb (integer_ok int) then None
     else '(frac, l) ← parse_fraction l; '(exp, l) ← parse_exponent l;
          Some (number_of_decimal sign (digits_value (int ++ frac)) (exp - len frac), l)) = Some (n, r ++ k)) as Hrest.
  { clear c l n r. intros sign l n r. destruct (span_digits l) as [int l1] eqn:E1. rewrite (span_digits_app _ _ _ _ Hk E1).
    destruct (negb (integer_ok int)); [done|]. destruct (parse_fraction l1) as [[frac l2]|] eqn:E2; [|done].
    rewrite (parse_fraction_app _ _ _ _ Hk E2). cbn. destruct (parse_exponent l2) as [[e l3]|] eqn:E3; [|done].
    rewrite (parse_exponent_app _ _ _ _ Hk E3). cbn. by intros [= <- <-]. }
  cbn [app]. destruct (c =? 0x2D); [apply Hrest|]. intros H. by apply (Hrest false (c :: l)).
Qed.

(** A number whose text is read back as the number itself. *)
Definition num_prints (n : jsnum) : bool :=
  isFinite n && bool_decide (parse_number (number_text n) = Some (n, [])).

Lemma num_prints_read n k : num_prints n = true -> stops k -> parse_number (number_text n ++ k) = Some (n, k).
Proof.
  unfold num_prints. intros [_ H%bool_decide_eq_true]%andb_true_iff Hk. by apply (parse_number_app _ _ _ _ Hk) in H.
Qed.

Lemma parse_number_head l n r : parse_number l = Some (n, r) -> exists c l', l = c :: l' /\ (c = 0x2D \/ is_digit c = true).
Proof.
  unfold parse_number. destruct l as [|c l]; [done|]. intros H. exists c, l. split; [done|].
  destruct (Z.eqb_spec c 0x2D) as [->|Hc]; [by left|right]. cbn in H. by destruct (is_digit c).
Qed.

(** ** Integers up to [2 ^ 53] *)

Lemma digits_value_app d1 d2 : digits_value (d1 ++ d2) = digits_value d1 * 10 ^ len d2 + digits_value d2.
Proof.
  unfold digits_value. rewrite foldl_app. generalize (foldl (fun n c => 10 * n + (c - 0x30)) 0 d1). intros a.
  assert (forall d a, foldl (fun n c => 10 * n + (c - 0x30)) a d = a * 10 ^ len d + foldl (fun n c => 10 * n + (c - 0x30)) 0 d) as H; [|by rewrite H].
  clear a d1 d2. induction d as [|c d IH]; intros a; cbn [foldl].
  - unfold len. cbn. lia.
  - rewrite IH, (IH (10 * 0 + (c - 0x30))). unfold len. cbn [length]. rewrite Nat2Z.inj_succ, Z.pow_succ_r by lia. ring.
Qed.

Lemma pretty_N_char_value d : (d < 10)%N -> Z.of_nat (Ascii.nat_of_ascii (pretty_N_char d)) = 0x30 + Z.of_N d.
Proof.
  intros H. destruct d as [|p]; [done|]. do 4 (destruct p as [p|p|]; try done); lia.
Qed.

Lemma pretty_N_go_value x s :
  digits_value (js (pretty_N_go x s)) = Z.of_N x * 10 ^ len (js s) + digits_value (js s).
Proof.
  revert s. induction (N.lt_wf_0 x) as [x _ IH]. intros s. destruct (decide (0 < x)%N) as [Hx|Hx].
  - rewrite pretty_N_go_step by done. rewrite IH by by apply N.div_lt. rewrite js_cons.
    rewrite pretty_N_char_value by by apply N.mod_lt.
    change (?c :: js s) with ([c] ++ js s). rewrite digits_value_app, len_app. cbn [digits_value foldl].
    change (len [_]) with 1. rewrite Z.pow_add_r by (unfold len; lia). change (10 ^ 1) with 10.
    pose proof (N.div_mod x 10 ltac:(lia)) as E. apply (f_equal Z.of_N) in E. unfold digits_value at 1. cbn [foldl].
    set (q := (x / 10)%N) in *. set (m := (x mod 10)%N) in *. rewrite N2Z.inj_add, N2Z.inj_mul in E.
    rewrite E. change (Z.of_N 10) with 10. unfold digits_value. ring.
  - assert (x = 0%N) as -> by lia. done.
Qed.

Lemma pretty_N_go_head x s : (0 < x)%N -> exists c t, js (pretty_N_go x s) = c :: t /\ c <> 0x30.
Proof.
  revert s. induction (N.lt_wf_0 x) as [x _ IH]. intros s Hx. rewrite pretty_N_go_step by done.
  destruct (decide (x < 10)%N) as [H|H].
  - rewrite N.div_small by done. exists (Z.of_nat (Ascii.nat_of_ascii (pretty_N_char (x mod 10)))), (js s). split; [done|].
    rewrite N.mod_small, pretty_N_char_value by done. lia.
  - apply IH; [by apply N.div_lt|]. pose proof (N.Div0.div_le_mono 10 x 10 ltac:(lia)). assert (10 / 10 = 1)%N by done. lia.
Qed.

Lemma stringify_N_integer n : digits_value (stringify_N n) = Z.of_N n /\ integer_ok (stringify_N n) = true.
Proof.
  assert (stringify_N n = js (pretty n)) as -> by (unfold stringify_N, js_of_Z; by destruct n).
  destruct n as [|p]; [done|]. change (pretty (N.pos p)) with (pretty_N_go (N.pos p) "").
  rewrite pretty_N_go_value. split; [unfold len, digits_value; cbn; lia|].
  destruct (pretty_N_go_head (N.pos p) "") as (c & t & -> & Hc); [done|]. cbn. by rewrite (proj2 (Z.eqb_neq _ _) Hc).
Qed.

Lemma span_digits_all d : Forall digit d -> span_digits d = (d, []).
Proof.
  induction 1 as [|c d Hc _ IH]; [done|]. cbn. rewrite IH. unfold is_digit, digit in *.
  by rewrite (proj2 (andb_true_iff _ _)) by (rewrite !Z.leb_le; lia).
Qed.

Lemma js_of_Z_neg p : js_of_Z (Z.neg p) = 0x2D :: stringify_N (N.pos p).
Proof. done. Qed.

Lemma parse_number_N n : Z.of_N n <= 2 ^ 53 ->
  parse_number (stringify_N n) = Some (NInt (Z.of_N n), []) /\
  (n <> 0%N -> parse_number (0x2D :: stringify_N n) = Some (NInt (- Z.of_N n), [])).
Proof.
  intros Hn. destruct (stringify_N_digits n) as [Hd _]. destruct (stringify_N_integer n) as [Hv Hi].
  destruct (stringify_N n) as [|c t] eqn:Et; [done|]. unfold parse_number.
  apply Forall_cons in Hd as [Hc Ht]. unfold digit in Hc. rewrite (proj2 (Z.eqb_neq c 0x2D)) by lia.
  change (0x2D =? 0x2D) with true. cbn beta iota. rewrite span_digits_all by (by constructor). rewrite Hi. cbn [negb parse_fraction].
  change (Some ([] : jsstr, [] : jsstr) ≫= ?f) with (f ([], [])). cbn beta iota. cbn [parse_exponent].
  change (Some (0, [] : jsstr) ≫= ?f) with (f (0, [])). cbn beta iota. rewrite app_nil_r, Hv. change (0 - len []) with 0.
  unfold number_of_decimal. change (0 <=? 0) with true. change (10 ^ 0) with 1. rewrite Z.mul_1_r, (proj2 (Z.leb_le (Z.of_N n) _)) by done.
  destruct n; [done|]. done.
Qed.

Lemma num_prints_integer z : Z.abs z <= 2 ^ 53 -> num_prints (NInt z) = true.
Proof.
  intros Hz. unfold num_prints. cbn [isFinite andb]. apply bool_decide_eq_true. cbn [number_text].
  rewrite (proj2 (Z.leb_le _ _) Hz). destruct z as [|p|p].
  - by apply (parse_number_N 0).
  - by apply (parse_number_N (N.pos p)).
  - rewrite js_of_Z_neg. by apply (parse_number_N (N.pos p)).
Qed.

(** * Values *)

(** Every number in the value prints. *)
Fixpoint json_prints (v : json) : bool :=
  match v with
  | JNum n => num_prints n
  | JArr l => forallb json_prints l
  | JObj o => forallb (fun kv => json_prints (snd kv)) o
  | _ => true
  end.

Lemma starts_with_app (p k : jsstr) : starts_with (p ++ k) p = true /\ drop (length p) (p ++ k) = k.
Proof. split; [|apply drop_app_length]. unfold starts_with. apply bool_decide_eq_true. apply take_app_length. Qed.

Lemma literal_app text v k : literal text v (js text ++ k) = Some (v, k).
Proof. unfold literal. destruct (starts_with_app (js text) k) as [-> ->]. done. Qed.

(** The code units a value starts with. *)
Definition value_head (c : Z) : Prop := is_ws c = false /\ c <> 0x5D /\ c <> 0x7D.

Lemma digit_head c : c = 0x2D \/ is_digit c = true ->
  is_ws c = false /\ Forall (fun x => c <> x) [0x22; 0x5B; 0x5D; 0x7B; 0x7D; 0x74; 0x66; 0x6E].
Proof.
  unfold is_ws, is_digit. intros H. assert (0x2D <= c <= 0x39) by (destruct H as [->|H]; bool_lia).
  split; [|repeat (constructor; [lia|]); constructor]. rewrite !(proj2 (Z.eqb_neq _ _)) by lia. done.
Qed.

Lemma stringify_head v : json_prints v = true -> exists c t, stringify v = c :: t /\ value_head c.
Proof.
  destruct v as [|[]|n|s|l|o]; cbn; intros H; try (eexists _, _; split; [done|done]).
  unfold num_prints in H. apply andb_true_iff in H as [-> H%bool_decide_eq_true].
  apply parse_number_head in H as (c & t & -> & Hc). exists c, t. split; [done|].
  apply digit_head in Hc as [Hw Hc]. split; [done|]. rewrite !Forall_cons in Hc. naive_solver.
Qed.

(** The value is read where it is written, given [fuel] for its text. *)
Definition reads_back (v : json) : Prop :=
  forall fuel k, (2 * length (stringify v) <= fuel)%nat -> stops k -> parse_value fuel (stringify v ++ k) = Some (v, k).

Lemma stops_punct c k : c = 0x2C \/ c = 0x5D \/ c = 0x7D -> stops (c :: k).
Proof. by intros [-> |[-> | ->]]. Qed.

Lemma stops_rest close l k : close = 0x5D \/ close = 0x7D -> stops (rest_text close l ++ k).
Proof. intros H. destruct l; cbn [rest_text app]; apply stops_punct; tauto. Qed.

Lemma skip_ws_head c t : is_ws c = false -> skip_ws (c :: t) = c :: t.
Proof. intros H. cbn. by rewrite H. Qed.

Lemma parse_items_text l : Forall reads_back l -> forall v fuel k, reads_back v ->
  (2 * length (stringify v ++ rest_text 0x5D (stringify <$> l)) <= fuel)%nat ->
  parse_items (S fuel) (stringify v ++ rest_text 0x5D (stringify <$> l) ++ k) = Some (v :: l, k).
Proof.
  induction 1 as [|v' l Hv' _ IH]; intros v fuel k Hv Hf; cbn [parse_items]; cbn in Hf; rewrite length_app in Hf.
  - rewrite Hv by (try apply stops_rest; lia). done.
  - rewrite Hv by (try apply stops_rest; lia). cbn. cbn [length] in Hf.
    destruct fuel as [|fuel]; [lia|]. rewrite <- app_assoc, IH; [done|done|]. lia.
Qed.

Definition member (kv : jsstr * json) : jsstr := member_text (fst kv) (stringify (snd kv)).

Lemma parse_members_text l : Forall (fun kv => reads_back (snd kv)) l -> Forall (fun kv => str_wf (fst kv)) l -> forall k v o fuel r,
  str_wf k -> reads_back v ->
  (2 * length (member (k, v) ++ rest_text 0x7D (member <$> l)) <= fuel)%nat ->
  parse_members (S fuel) o (member (k, v) ++ rest_text 0x7D (member <$> l) ++ r) =
    Some (foldl (fun o kv => obj_set o (fst kv) (snd kv)) o ((k, v) :: l), r).
Proof.
  induction 1 as [|[k' v'] l Hv' _ IH]; intros Hl k v o fuel r Hk Hv Hf; cbn [parse_members].
  all: unfold member at 1; unfold member in Hf at 1; unfold member_text, stringify_str in Hf |- *; cbn [fst snd app] in Hf |- *.
  all: rewrite skip_ws_head by done; cbn [Z.eqb Pos.eqb negb]; rewrite <- !app_assoc; cbn [app].
  all: rewrite string_body_stringify by done; cbn [mbind option_bind]; rewrite skip_ws_head by done; cbn [Z.eqb Pos.eqb negb].
  all: rewrite Hv by (try apply stops_rest; cbn in Hf; rewrite !length_app in Hf; cbn in Hf; rewrite ?length_app in Hf; lia).
  - done.
  - apply Forall_cons in Hl as [Hk' Hl]. cbn in Hf. destruct fuel as [|fuel]; [lia|].
    cbn [mbind option_bind fmap list_fmap rest_text app]. rewrite skip_ws_head by done. cbn [Z.eqb Pos.eqb].
    rewrite <- app_assoc. rewrite IH; [done|done|done|done|]. cbn in Hf.
    repeat (rewrite ?length_app in Hf; cbn [length] in Hf). cbn. repeat (rewrite ?length_app; cbn [length]). lia.
Qed.

Lemma reads_arr l : Forall reads_back l -> Forall (fun v => json_prints v = true) l -> reads_back (JArr l).
Proof.
  intros Hl Hp fuel k Hf _. destruct fuel as [|fuel]; [cbn in Hf; lia|]. destruct Hl as [|v l Hv Hl]; [done|].
  apply Forall_cons in Hp as [Hp _]. apply stringify_head in Hp as (c & t & E & Hw & H1 & H2).
  cbn [stringify fmap list_fmap] in Hf |- *. unfold items_text in Hf |- *. cbn [parse_value app]. rewrite skip_ws_head by done. cbn [Z.eqb Pos.eqb].
  rewrite <- app_assoc. destruct fuel as [|fuel]; [cbn in Hf; lia|].
  rewrite parse_items_text by (try done; cbn [length] in Hf; lia).
  rewrite E. cbn [app]. rewrite skip_ws_head by done. by rewrite (proj2 (Z.eqb_neq _ _) H1).
Qed.

Lemma reads_obj o :
  obj_sorted o -> Forall (fun kv => str_wf (fst kv)) o -> Forall (fun kv => reads_back (snd kv)) o -> reads_back (JObj o).
Proof.
  intros Hs Hk Ho fuel r Hf _. destruct fuel as [|fuel]; [cbn in Hf; lia|]. destruct Ho as [|[k v] o Hv Ho]; [done|].
  apply Forall_cons in Hk as [Hk1 Hk]. change (stringify (JObj ((k, v) :: o))) with (items_text 0x7B 0x7D (member <$> ((k, v) :: o))) in Hf |- *.
  cbn [fmap list_fmap] in Hf |- *. unfold items_text in Hf |- *. cbn [parse_value app]. rewrite skip_ws_head by done. cbn [Z.eqb Pos.eqb].
  rewrite <- app_assoc. destruct fuel as [|fuel]; [cbn in Hf; lia|].
  rewrite parse_members_text by (try done; cbn [length] in Hf; lia). pose proof (obj_of_entries_id _ Hs) as E. unfold obj_of_entries in E. by rewrite E.
Qed.

Lemma forallb_Forall {A} (f : A -> bool) l : forallb f l = true <-> Forall (fun x => f x = true) l.
Proof. rewrite forallb_forall, Forall_forall. by setoid_rewrite list_elem_of_In. Qed.

Lemma stringify_reads_back v : json_wf v -> json_prints v = true -> reads_back v.
Proof.
  induction v as [|b|n|s|l IH|o IH] using json_ind; intros Hw Hp.
  - intros [|fuel] k Hf _; [cbn in Hf; lia|]. done.
  - intros [|fuel] k Hf _; [destruct b; cbn in Hf; lia|]. by destruct b.
  - intros [|fuel] k Hf Hk; [destruct (stringify_head _ Hp) as (c & t & E & _); rewrite E in Hf; cbn in Hf; lia|].
    cbn in Hp |- *. pose proof (num_prints_read _ _ Hp Hk) as Hr. unfold num_prints in Hp. apply andb_true_iff in Hp as [-> _].
    destruct (parse_number_head _ _ _ Hr) as (c & t & E & Hc). rewrite E in Hr |- *. apply digit_head in Hc as [Hws Hc].
    rewrite skip_ws_head by done. rewrite !Forall_cons in Hc. rewrite !(proj2 (Z.eqb_neq c _)) by naive_solver. by rewrite Hr.
  - intros [|fuel] k Hf _; [cbn in Hf; lia|]. inversion Hw; subst. cbn [stringify parse_value]. unfold stringify_str. cbn [app].
    rewrite skip_ws_head by done. cbn [Z.eqb Pos.eqb]. rewrite <- app_assoc. cbn [app].
    by rewrite string_body_stringify.
  - inversion Hw as [| | | |? Hl|]; subst. cbn in Hp. apply forallb_Forall in Hp. apply reads_arr; [|done].
    rewrite Forall_forall in IH, Hl, Hp |- *. intros v Hv. by apply IH; [|apply Hl|apply Hp].
  - inversion Hw as [| | | | |? Hs Hk Ho]; subst. cbn in Hp. apply forallb_Forall in Hp. apply reads_obj; [done..|].
    rewrite Forall_forall in IH, Ho, Hp |- *. intros kv Hkv. by apply IH; [|apply Ho|apply (Hp kv)].
Qed.

Lemma parse_stringify v : json_wf v -> json_prints v = true -> parse (stringify v) = Some v.
Proof.
  intros Hw Hp. unfold parse. pose proof (stringify_reads_back v Hw Hp (S (2 * length (stringify v))) []) as H.
  rewrite app_nil_r in H. by rewrite H by (done || lia).
Qed.

(** * No line break in the text *)

Definition printable (t : jsstr) : Prop := Forall (fun c => 0x20 <= c) t.

Lemma printable_no_newline t : printable t -> 10 ∉ t.
Proof. intros H Hin. unfold printable in H. rewrite Forall_forall in H. specialize (H _ Hin). cbn in H. lia. Qed.

Lemma quote_unit_printable u : unit_ok u -> printable (quote_unit u).
Proof.
  intros Hu. unfold unit_ok in Hu. unfold quote_unit. repeat (split_if; [repeat constructor; done|]).
  split_if; [|repeat constructor; bool_lia].
  assert (forall d, 0 <= d -> 0x20 <= hex_digit d) as Hd by (intros d H; unfold hex_digit; split_if; bool_lia).
  unfold unicode_escape. repeat constructor; try (apply Hd); try lia; try (apply Z.mod_pos_bound; lia). apply Z.div_pos; lia.
Qed.

Lemma quote_body_printable s : str_wf s -> printable (quote_body s).
Proof.
  assert (forall n s, (length s <= n)%nat -> str_wf s -> printable (quote_body s)) as H; [|by apply (H (length s))].
  clear s. intros n. induction n as [|n IH]; intros [|u s] Hn Hs; cbn in Hn; try lia; try constructor.
  apply Forall_cons in Hs as [Hu Hs]. cbn [quote_body]. destruct s as [|l s]; [by apply quote_unit_printable|].
  split_if.
  - apply andb_true_iff in Heqb as [Hh Hl]. unfold is_high, is_low in *. apply Forall_cons in Hs as [_ Hs].
    constructor; [bool_lia|]. constructor; [bool_lia|]. apply IH; [cbn in Hn; lia|done].
  - apply Forall_app. split; [by apply quote_unit_printable|]. apply IH; [cbn in *; lia|done].
Qed.

Lemma stringify_str_printable s : str_wf s -> printable (stringify_str s).
Proof.
  intros Hs. constructor; [done|]. apply Forall_app. split; [by apply quote_body_printable|by repeat constructor].
Qed.

(** Numbers have no quotes either. *)
Definition plain (t : jsstr) : Prop := Forall (fun c => 0x23 <= c) t.

Lemma plain_printable t : plain t -> printable t.
Proof. intros H. eapply Forall_impl; [exact H|]. cbn. lia. Qed.

Lemma js_of_Z_plain z : plain (js_of_Z z).
Proof.
  assert (forall n, plain (stringify_N n)) as H.
  { intros n. eapply Forall_impl; [apply stringify_N_digits|]. unfold digit. lia. }
  destruct z as [|p|p]; [apply (H 0%N)|apply (H (N.pos p))|]. rewrite js_of_Z_neg. constructor; [done|apply H].
Qed.

Lemma decimal_text_plain s k n : plain (decimal_text s k n).
Proof.
  assert (forall a b, plain a -> plain b -> plain (a ++ b)) as Happ by (intros; by apply Forall_app).
  assert (forall n, plain (zeros n)) as Hz by (intros m; by apply Forall_replicate).
  pose proof js_of_Z_plain as Hj. unfold decimal_text. repeat split_if; repeat first
    [apply Hj|apply Hz|apply Happ|apply Forall_take|apply Forall_drop|constructor; [done|]|constructor].
Qed.

Lemma number_text_plain n : plain (number_text n).
Proof.
  assert (forall m e, plain (float_text m e)) as Hf.
  { intros m e. unfold float_text. destruct (shortest_digits _ _ _ _) as [[s k] x]. apply decimal_text_plain. }
  destruct n as [z|f]; cbn; [split_if; [apply js_of_Z_plain|]|]; destruct (_ : SpecFloat.spec_float); try (destruct s);
    try (by apply Forall_app; split; [repeat constructor; done|apply Hf]); by repeat constructor.
Qed.

Lemma number_text_printable n : printable (number_text n).
Proof. apply plain_printable, number_text_plain. Qed.

Lemma items_text_printable open close l : 0x20 <= open -> 0x20 <= close -> Forall printable l -> printable (items_text open close l).
Proof.
  intros Ho Hc Hl. constructor; [done|]. destruct Hl as [|t l Ht Hl]; [by repeat constructor|]. apply Forall_app. split; [done|].
  induction Hl as [|t' l Ht' _ IH]; cbn; [by repeat constructor|]. constructor; [done|]. by apply Forall_app.
Qed.

Lemma stringify_printable v : json_wf v -> printable (stringify v).
Proof.
  induction v as [|b|n|s|l IH|o IH] using json_ind; intros Hw; inversion Hw as [| | | |? Hl|? _ Hk Ho]; subst; cbn [stringify].
  - by repeat constructor.
  - destruct b; by repeat constructor.
  - split_if; [apply number_text_printable|by repeat constructor].
  - by apply stringify_str_printable.
  - apply items_text_printable; [done..|]. apply Forall_fmap. rewrite Forall_forall in IH, Hl |- *. intros v Hv. by apply IH; [|apply Hl].
  - apply items_text_printable; [done..|]. apply Forall_fmap. rewrite Forall_forall in IH, Hk, Ho |- *. intros kv Hkv. unfold member_text.
    apply Forall_app. split; [by apply stringify_str_printable, Hk|]. constructor; [done|]. by apply IH; [|apply Ho].
Qed.
