(* ===== verification/SessionTypes.v ===== *)
(** The data of a harness session: [packages/agent/src/harness/session/types.ts],
    [values.ts] and [commit.ts], and the usage totals of [utils/usage.ts].

    Messages, tool details and stored values are JSON the storage never looks
    into; a string the storage compares is a [jsstr]. *)
From S2P Require Import Prelude JsBase JsFloat Json.

(** Sequences are counted by the storage; timestamps come from the clock. *)
Abbreviation Seq := Z.
Abbreviation AgentMessage := json.

(** * Usage *)

Record Cost : Type := Cost_ {
  c_input : jsnum;
  c_output : jsnum;
  c_cacheRead : jsnum;
  c_cacheWrite : jsnum;
  c_total : jsnum;
}.

Record Usage : Type := Usage_ {
  u_input : jsnum;
  u_output : jsnum;
  u_cacheRead : jsnum;
  u_cacheWrite : jsnum;
  u_cacheWrite1h : option jsnum;
  u_reasoning : option jsnum;
  u_totalTokens : jsnum;
  u_cost : Cost;
}.

Definition emptyUsage : Usage :=
  let zero := NInt 0 in Usage_ zero zero zero zero None None zero (Cost_ zero zero zero zero zero).

(** A field present on neither side stays absent. *)
Definition add_optional (a b : option jsnum) : option jsnum :=
  match a, b with
  | None, None => None
  | _, _ => Some (js_add (default (NInt 0) a) (default (NInt 0) b))
  end.

Definition addUsage (left right : Usage) : Usage :=
  Usage_ (js_add (u_input left) (u_input right)) (js_add (u_output left) (u_output right))
    (js_add (u_cacheRead left) (u_cacheRead right)) (js_add (u_cacheWrite left) (u_cacheWrite right))
    (add_optional (u_cacheWrite1h left) (u_cacheWrite1h right)) (add_optional (u_reasoning left) (u_reasoning right))
    (js_add (u_totalTokens left) (u_totalTokens right))
    (let l := u_cost left in let r := u_cost right in
     Cost_ (js_add (c_input l) (c_input r)) (js_add (c_output l) (c_output r))
       (js_add (c_cacheRead l) (c_cacheRead r)) (js_add (c_cacheWrite l) (c_cacheWrite r)) (js_add (c_total l) (c_total r))).

(** * Entries *)

Inductive EntryType : Type := TypeMessage | TypeCompaction | TypeBranchSummary | TypeCustom.

#[export] Instance EntryType_eq_dec : EqDecision EntryType.
Proof. solve_decision. Defined.

(** What the variants of [Entry] add to [EntryBase]; [terminate] is present or
    not. *)
Inductive EntryBody : Type :=
| MessageEntry (message : AgentMessage) (terminate : bool)
| CompactionEntry (summary : jsstr) (retainedTail : list AgentMessage) (tokensBefore : jsnum) (details : option json)
    (usage : option Usage) (fromHook : bool)
| BranchSummaryEntry (fromId : option jsstr) (summary : jsstr) (details : option json) (usage : option Usage) (fromHook : bool)
| CustomEntry (data : option json).

(** [NewEntry]: an entry before the storage gives it a sequence and a time. *)
Record NewEntry : Type := NewEntry_ {
  ne_id : jsstr;
  ne_parentId : option jsstr;
  ne_customType : option jsstr;
  ne_body : EntryBody;
}.

Record Entry : Type := Entry_ { e_new : NewEntry; e_seq : Seq; e_timestamp : jsnum }.

Definition e_id (e : Entry) : jsstr := ne_id (e_new e).
Definition e_parentId (e : Entry) : option jsstr := ne_parentId (e_new e).
Definition e_customType (e : Entry) : option jsstr := ne_customType (e_new e).

(** [entry.type] *)
Definition e_type (e : Entry) : EntryType :=
  match ne_body (e_new e) with
  | MessageEntry _ _ => TypeMessage
  | CompactionEntry _ _ _ _ _ _ => TypeCompaction
  | BranchSummaryEntry _ _ _ _ _ => TypeBranchSummary
  | CustomEntry _ => TypeCustom
  end.

Record EntryStructure : Type := Structure {
  st_id : jsstr;
  st_parentId : option jsstr;
  st_seq : Seq;
  st_timestamp : jsnum;
  st_type : EntryType;
  st_customType : option jsstr;
}.

(** * Usage rows, values and lists *)

(** [Omit<UsageRow, "seq">] and [UsageRow]. *)
Record UsageDraft : Type := UsageDraft_ {
  ud_id : jsstr;
  ud_usage : Usage;
  ud_entryId : option jsstr;
  ud_adjustment : bool;
  ud_details : option json;
}.

Record UsageRow : Type := UsageRow_ { ur_draft : UsageDraft; ur_seq : Seq }.

Definition ur_id (r : UsageRow) : jsstr := ud_id (ur_draft r).
Definition ur_usage (r : UsageRow) : Usage := ud_usage (ur_draft r).

Inductive StoredKind : Type := KindValue | KindList.

#[export] Instance StoredKind_eq_dec : EqDecision StoredKind.
Proof. solve_decision. Defined.

(** [Value] and [ValueList]: where something is stored. *)
Record Address : Type := Address_ { a_kind : StoredKind; a_namespace : jsstr; a_key : jsstr }.

Record StoredValue : Type := StoredValue_ { sv_address : Address; sv_value : json; sv_seq : Seq }.

Record ListElement : Type := ListElement_ { le_seq : Seq; le_value : json }.

Inductive session_err : Type :=
| SessionError (msg : string)
| SessionTypeError (msg : string).

Definition validateAddress (namespace key : jsstr) : result session_err unit :=
  throw_if (bool_decide (namespace = [])) (SessionTypeError "Value namespace must not be empty");;
  throw_if (bool_decide (0 ∈ namespace)) (SessionTypeError "Value namespace must not contain NUL");;
  throw_if (bool_decide (0 ∈ key)) (SessionTypeError "Value key must not contain NUL").

(** [value(namespace, key)] and [list(namespace, key)]. *)
Definition address (kind : StoredKind) (namespace key : jsstr) : result session_err Address :=
  validateAddress namespace key;; Ok (Address_ kind namespace key).

Record ListReadOptions : Type := ListReadOptions_ { lr_cursor : option Seq; lr_descending : bool; lr_limit : option jsnum }.

Record ResolvedListReadOptions : Type := ResolvedListReadOptions_ { rl_cursor : option Seq; rl_descending : bool; rl_limit : nat }.

Definition resolveListReadOptions (options : ListReadOptions) : result session_err ResolvedListReadOptions :=
  let requestedLimit := default (NInt 1000) (lr_limit options) in
  throw_if (negb (isSafeInteger requestedLimit && match requestedLimit with NInt z => 0 <? z | NFlt _ => false end))
    (SessionTypeError "List read limit must be a positive safe integer");;
  Ok (ResolvedListReadOptions_ (lr_cursor options) (lr_descending options)
        (Z.to_nat (Z.min (match requestedLimit with NInt z => z | NFlt _ => 0 end) 10000))).

(** * Writes *)

(** [ValueSetWrite], [ListAppendWrite] and their deletions by [kind]; a write
    before and after it has a sequence. *)
Inductive Write : Type :=
| EntryWrite (entry : NewEntry)
| UsageWrite (row : UsageDraft)
| PutWrite (kind : StoredKind) (namespace key : jsstr) (value : json)
| DeleteWrite (kind : StoredKind) (namespace key : jsstr).

(** [CommittedValueSetWrite] and [CommittedListAppendWrite]. *)
Record CommittedPut : Type := Put_ {
  p_kind : StoredKind;
  p_seq : Seq;
  p_namespace : jsstr;
  p_key : jsstr;
  p_value : json;
}.

Inductive CommittedWrite : Type :=
| CommittedEntry (entry : Entry)
| CommittedUsage (row : UsageRow)
| CommittedPutWrite (put : CommittedPut)
| CommittedDelete (kind : StoredKind) (seq : Seq) (namespace key : jsstr).

Definition write_seq (w : CommittedWrite) : Seq :=
  match w with
  | CommittedEntry e => e_seq e
  | CommittedUsage r => ur_seq r
  | CommittedPutWrite p => p_seq p
  | CommittedDelete _ seq _ _ => seq
  end.

Definition insertEntry (entry : NewEntry) : Write := EntryWrite entry.
Definition insertUsage (row : UsageDraft) : Write := UsageWrite row.
Definition setValue (a : Address) (next : json) : Write := PutWrite KindValue (a_namespace a) (a_key a) next.
Definition deleteValue (a : Address) : Write := DeleteWrite KindValue (a_namespace a) (a_key a).
Definition appendList (a : Address) (element : json) : Write := PutWrite KindList (a_namespace a) (a_key a) element.
Definition deleteList (a : Address) : Write := DeleteWrite KindList (a_namespace a) (a_key a).

Definition materializeCommittedEntry (entry : NewEntry) (seq : Seq) (timestamp : jsnum) : Entry := Entry_ entry seq timestamp.

Definition commitWrite (write : Write) (seq : Seq) (timestamp : jsnum) : CommittedWrite :=
  match write with
  | EntryWrite entry => CommittedEntry (Entry_ entry seq timestamp)
  | UsageWrite row => CommittedUsage (UsageRow_ row seq)
  | PutWrite kind namespace key value => CommittedPutWrite (Put_ kind seq namespace key value)
  | DeleteWrite kind namespace key => CommittedDelete kind seq namespace key
  end.

Record PreparedCommit : Type := Prepared { pc_writes : list CommittedWrite; pc_firstSeq : Seq; pc_seqs : list Seq; pc_timestamp : jsnum }.

Definition prepareStorageCommit (writes : list Write) (firstSeq : Seq) (timestamp : jsnum) : PreparedCommit :=
  let committed := imap (fun index write => commitWrite write (firstSeq + Z.of_nat index) timestamp) writes in
  Prepared committed firstSeq (write_seq <$> committed) timestamp.

(** * Validation *)

Section Validate.
Variables hasEntryOrUsageId hasEntryId : jsstr -> bool.

(** [previousSeq], [transactionIds] and [transactionEntryIds]. *)
Abbreviation seen := (Seq * gset jsstr * gset jsstr)%type.

Definition check_id (transactionIds : gset jsstr) (id : jsstr) : result session_err unit :=
  throw_if (hasEntryOrUsageId id || bool_decide (id ∈ transactionIds)) (SessionError "Duplicate entry or usage id").

Definition validate_write (st : seen) (write : CommittedWrite) : result session_err seen :=
  let '(previousSeq, transactionIds, transactionEntryIds) := st in
  throw_if (write_seq write <=? previousSeq) (SessionError "Non-monotonic storage sequence");;
  match write with
  | CommittedEntry e =>
      check_id transactionIds (e_id e);;
      throw_if (match e_parentId e with
                | Some p => negb (hasEntryId p) && negb (bool_decide (p ∈ transactionEntryIds))
                | None => false
                end) (SessionError "Missing parent entry");;
      Ok (write_seq write, {[e_id e]} ∪ transactionIds, {[e_id e]} ∪ transactionEntryIds)
  | CommittedUsage r =>
      check_id transactionIds (ur_id r);;
      Ok (write_seq write, {[ur_id r]} ∪ transactionIds, transactionEntryIds)
  | _ => Ok (write_seq write, transactionIds, transactionEntryIds)
  end.

Definition validateCommittedWrites (writes : list CommittedWrite) (firstSeq : Seq) : result session_err unit :=
  _st ← foldM validate_write (firstSeq - 1, ∅, ∅) writes; Ok tt.
End Validate.
