(* ===== verification/SessionState.v ===== *)
(** [InMemoryStorageState] of [packages/agent/src/harness/session/in-memory-storage-state.ts],
    the fork policy of [fork-policy.ts] and the storage of [memory.ts] around it.

    A [Map] read in insertion order is an ordered association list; [entries],
    which is only looked up, is a [gmap].  Methods that change the state are
    steps of [SM StorageState]. *)
From stdpp Require Import sorting.
From S2P Require Import Prelude JsBase JsFloat Json SessionTypes.

(** * The state *)

Record SessionStats : Type := Stats_ { messageCount : Z; stats_usage : Usage }.

Record StoredList : Type := StoredList_ { sl_address : Address; sl_elements : list ListElement }.

Record StorageState : Type := State_ {
  entries : gmap jsstr Entry;
  entriesBySeq : list Entry;
  scalarValues : list (jsstr * StoredValue);
  listValues : list (jsstr * StoredList);
  usage : list (jsstr * UsageRow);
  stats : SessionStats;
  nextSeq : Seq;
}.

Definition new_StorageState : StorageState := State_ ∅ [] [] [] [] (Stats_ 0 emptyUsage) 1.

Definition on_entries f (s : StorageState) : StorageState :=
  State_ (f (entries s)) (entriesBySeq s) (scalarValues s) (listValues s) (usage s) (stats s) (nextSeq s).
Definition on_entriesBySeq f (s : StorageState) : StorageState :=
  State_ (entries s) (f (entriesBySeq s)) (scalarValues s) (listValues s) (usage s) (stats s) (nextSeq s).
Definition on_scalarValues f (s : StorageState) : StorageState :=
  State_ (entries s) (entriesBySeq s) (f (scalarValues s)) (listValues s) (usage s) (stats s) (nextSeq s).
Definition on_listValues f (s : StorageState) : StorageState :=
  State_ (entries s) (entriesBySeq s) (scalarValues s) (f (listValues s)) (usage s) (stats s) (nextSeq s).
Definition on_usage f (s : StorageState) : StorageState :=
  State_ (entries s) (entriesBySeq s) (scalarValues s) (listValues s) (f (usage s)) (stats s) (nextSeq s).
Definition on_stats f (s : StorageState) : StorageState :=
  State_ (entries s) (entriesBySeq s) (scalarValues s) (listValues s) (usage s) (f (stats s)) (nextSeq s).
Definition on_nextSeq f (s : StorageState) : StorageState :=
  State_ (entries s) (entriesBySeq s) (scalarValues s) (listValues s) (usage s) (stats s) (f (nextSeq s)).

Abbreviation step := (SM StorageState session_err unit).

(** [`${namespace}\u0000${key}`] *)
Definition physicalKey (namespace key : jsstr) : jsstr := namespace ++ 0 :: key.
Arguments physicalKey : simpl never.

(** * Commits *)

Definition validateCommitted (s : StorageState) (writes : list CommittedWrite) : result session_err unit :=
  validateCommittedWrites
    (fun id => bool_decide (is_Some (entries s !! id)) || bool_decide (is_Some (amap_get (usage s) id)))
    (fun id => bool_decide (is_Some (entries s !! id)))
    writes (nextSeq s).

Definition prepareCommit (s : StorageState) (writes : list Write) (timestamp : jsnum) : result session_err PreparedCommit :=
  let prepared := prepareStorageCommit writes (nextSeq s) timestamp in
  validateCommitted s (pc_writes prepared);;
  Ok prepared.

Definition put_element (key : jsstr) (a : Address) (element : ListElement) (lists : list (jsstr * StoredList)) : list (jsstr * StoredList) :=
  match amap_get lists key with
  | None => amap_set lists key (StoredList_ a [element])
  | Some stored => amap_set lists key (StoredList_ (sl_address stored) (sl_elements stored ++ [element]))
  end.

(** [value(...)] and [list(...)] may throw, before anything is set; an existing
    list is not looked up again. *)
Definition applyValueSetOrListAppend (write : CommittedPut) : step :=
  let key := physicalKey (p_namespace write) (p_key write) in
  match p_kind write with
  | KindValue =>
      a ← reads_state (fun _ => address KindValue (p_namespace write) (p_key write));
      modify (on_scalarValues (fun m => amap_set m key (StoredValue_ a (p_value write) (p_seq write))))
  | KindList =>
      a ← reads_state (fun s =>
        match amap_get (listValues s) key with
        | None => address KindList (p_namespace write) (p_key write)
        | Some stored => Ok (sl_address stored)
        end);
      modify (on_listValues (put_element key a (ListElement_ (p_seq write) (p_value write))))
  end.

Definition count_message (e : Entry) (st : SessionStats) : SessionStats :=
  if decide (e_type e = TypeMessage) then Stats_ (messageCount st + 1) (stats_usage st) else st.

Definition count_usage (r : UsageRow) (st : SessionStats) : SessionStats :=
  Stats_ (messageCount st) (addUsage (stats_usage st) (ur_usage r)).

Definition apply_committed (write : CommittedWrite) : step :=
  (match write with
   | CommittedEntry e =>
       modify (on_entries (insert (e_id e) e));;
       modify (on_entriesBySeq (fun l => l ++ [e]));;
       modify (on_stats (count_message e))
   | CommittedUsage r =>
       modify (on_usage (fun m => amap_set m (ur_id r) r));;
       modify (on_stats (count_usage r))
   | CommittedPutWrite put => applyValueSetOrListAppend put
   | CommittedDelete KindValue _ namespace key =>
       modify (on_scalarValues (fun m => amap_delete m (physicalKey namespace key)))
   | CommittedDelete KindList _ namespace key =>
       modify (on_listValues (fun m => amap_delete m (physicalKey namespace key)))
   end);;
  modify (on_nextSeq (fun _ => write_seq write + 1)).

Definition applyValidated (writes : list CommittedWrite) : SM StorageState session_err SessionStats :=
  for_each apply_committed writes;;
  gets stats.

Record CommitResult : Type := CommitResult_ { cr_firstSeq : Seq; cr_seqs : list Seq; cr_timestamp : jsnum; cr_stats : SessionStats }.

(** The turn of a commit in [MemoryStorage.commit]. *)
Definition commit (writes : list Write) (now : jsnum) : SM StorageState session_err CommitResult :=
  prepared ← reads_state (fun s => prepareCommit s writes now);
  stats ← applyValidated (pc_writes prepared);
  mret (CommitResult_ (pc_firstSeq prepared) (pc_seqs prepared) (pc_timestamp prepared) stats).

Definition advanceNextSeq (seq : jsnum) : step :=
  reads_state (fun _ => throw_if (negb (isSafeInteger seq && match seq with NInt z => 1 <=? z | NFlt _ => false end))
    (SessionError "Invalid storage sequence high-water mark"));;
  modify (on_nextSeq (fun n => Z.max n (match seq with NInt z => z | NFlt _ => 0 end))).

(** * Reads *)

(** [Array.from(s, (c) => c.codePointAt(0))]: unpaired surrogates stay. *)
Fixpoint iterated_code_points (s : jsstr) : list Z :=
  match s with
  | [] => []
  | u :: s' =>
      match s' with
      | l :: s'' => if is_high u && is_low l then combine_surrogates u l :: iterated_code_points s'' else u :: iterated_code_points s'
      | [] => [u]
      end
  end.

Fixpoint compare_points (a b : list Z) : Z :=
  match a, b with
  | x :: a', y :: b' => if x - y =? 0 then compare_points a' b' else x - y
  | _, _ => len a - len b
  end.

Definition compareKeys (a b : jsstr) : Z := compare_points (iterated_code_points a) (iterated_code_points b).

Definition key_le (x y : StoredValue) : Prop := compareKeys (a_key (sv_address x)) (a_key (sv_address y)) <= 0.

#[export] Instance key_le_dec : RelDecision key_le.
Proof. intros x y. unfold key_le. apply _. Defined.

Section Reads.
Variable s : StorageState.

Definition getEntries (ids : list jsstr) : list (jsstr * Entry) :=
  foldl (fun found id => match entries s !! id with Some e => amap_set found id e | None => found end) [] ids.

Definition getValue (a : Address) : option StoredValue := amap_get (scalarValues s) (physicalKey (a_namespace a) (a_key a)).

Definition scanValues (prefix : Address) : list StoredValue :=
  merge_sort key_le
    (List.filter (fun stored => bool_decide (a_namespace (sv_address stored) = a_namespace prefix) &&
                                starts_with (a_key (sv_address stored)) (a_key prefix))
       (snd <$> scalarValues s)).

Definition past_cursor (descending : bool) (cursor : option Seq) (seq : Seq) : bool :=
  match cursor with
  | None => true
  | Some c => if descending then seq <? c else c <? seq
  end.

Definition readList (a : Address) (options : ListReadOptions) : result session_err (list ListElement) :=
  resolved ← resolveListReadOptions options;
  let elements := match amap_get (listValues s) (physicalKey (a_namespace a) (a_key a)) with Some l => sl_elements l | None => [] end in
  let filtered := List.filter (fun e => past_cursor (rl_descending resolved) (rl_cursor resolved) (le_seq e)) elements in
  let ordered := if rl_descending resolved then rev filtered else filtered in
  Ok (take (rl_limit resolved) ordered).

Record BranchScan : Type := BranchScan_ {
  bs_start : jsstr;
  bs_stopAtType : option EntryType;
  bs_stopAtId : option jsstr;
  bs_type : option EntryType;
  bs_customType : option jsstr;
  bs_oldestFirst : bool;
  bs_limit : option Z;
  bs_cursor : option Seq;
}.

(** The entry and its ancestors; [None] is running out of [fuel]. *)
Fixpoint branch_path (fuel : nat) (e : Entry) : option (result session_err (list Entry)) :=
  match fuel with
  | O => None
  | S fuel =>
      match e_parentId e with
      | None => Some (Ok [e])
      | Some p =>
          match entries s !! p with
          | None => Some (Err (SessionError "Corrupt branch: missing parent"))
          | Some parent => r ← branch_path fuel parent; Some (rest ← r; Ok (e :: rest))
          end
      end
  end.

(** Up to the first candidate that stops the scan, inclusive. *)
Fixpoint stop_at (stops : Entry -> bool) (path : list Entry) : list Entry :=
  match path with
  | [] => []
  | e :: path => if stops e then [e] else e :: stop_at stops path
  end.

Definition matches {A} `{EqDecision A} (filter : option A) (a : A) : bool :=
  match filter with None => true | Some f => bool_decide (a = f) end.

Definition matches_custom (filter : option jsstr) (e : Entry) : bool :=
  match filter with None => true | Some _ => bool_decide (e_customType e = filter) end.

Definition stops_at (query : BranchScan) (e : Entry) : bool :=
  bool_decide (Some (e_id e) = bs_stopAtId query) || bool_decide (Some (e_type e) = bs_stopAtType query).

Definition limited {A} (limit : option Z) (l : list A) : list A :=
  match limit with None => l | Some n => take (Z.to_nat (Z.max 0 n)) l end.

Definition scanBranch (fuel : nat) (query : BranchScan) : option (result session_err (list Entry)) :=
  match entries s !! bs_start query with
  | None => Some (Err (SessionError "Unknown branch start"))
  | Some start =>
      r ← branch_path fuel start;
      Some (path ← r;
            let path := if bs_oldestFirst query then rev path else path in
            let stopped := stop_at (stops_at query) path in
            let filtered :=
              List.filter (fun e => past_cursor (negb (bs_oldestFirst query)) (bs_cursor query) (e_seq e))
                (List.filter (fun e => matches_custom (bs_customType query) e)
                   (List.filter (fun e => matches (bs_type query) (e_type e)) stopped)) in
            Ok (limited (bs_limit query) filtered))
  end.

Definition structure_of (e : Entry) : EntryStructure :=
  Structure (e_id e) (e_parentId e) (e_seq e) (e_timestamp e) (e_type e) (e_customType e).

Definition scanBranchStructure (fuel : nat) (query : BranchScan) : option (result session_err (list EntryStructure)) :=
  option_map (fun r => match r with Ok l => Ok (map structure_of l) | Err e => Err e end) (scanBranch fuel query).

Record EntryScan : Type := EntryScan_ {
  es_type : option EntryType;
  es_customType : option jsstr;
  es_fromSeq : option Seq;
  es_toSeq : option Seq;
  es_descending : bool;
  es_limit : option Z;
}.

Definition in_seqs (fromSeq toSeq : option Seq) (seq : Seq) : bool :=
  match fromSeq with None => true | Some f => f <=? seq end && match toSeq with None => true | Some t => seq <=? t end.

Definition scan_matches (query : EntryScan) (e : Entry) : bool :=
  matches (es_type query) (e_type e) && matches_custom (es_customType query) e && in_seqs (es_fromSeq query) (es_toSeq query) (e_seq e).

(** The loop from either end, while there is room; [None] is no limit. *)
Fixpoint scan_loop (query : EntryScan) (room : option nat) (l : list Entry) : list Entry :=
  match room, l with
  | Some O, _ | _, [] => []
  | _, e :: l => if scan_matches query e then e :: scan_loop query (pred <$> room) l else scan_loop query room l
  end.

Definition scanEntries (query : EntryScan) : list Entry :=
  let limit := (fun n => Z.to_nat (Z.max 0 n)) <$> es_limit query in
  scan_loop query limit (if es_descending query then rev (entriesBySeq s) else entriesBySeq s).

Record UsageScan : Type := UsageScan_ { us_fromSeq : option Seq; us_toSeq : option Seq; us_descending : bool; us_limit : option Z }.

Definition seq_le (descending : bool) (x y : UsageRow) : Prop :=
  if descending then ur_seq y <= ur_seq x else ur_seq x <= ur_seq y.

#[export] Instance seq_le_dec descending : RelDecision (seq_le descending).
Proof. intros x y. unfold seq_le. destruct descending; apply _. Defined.

Definition scanUsage (query : UsageScan) : list UsageRow :=
  limited (us_limit query)
    (merge_sort (seq_le (us_descending query))
       (List.filter (fun r => in_seqs (us_fromSeq query) (us_toSeq query) (ur_seq r)) (snd <$> usage s))).
End Reads.
