(* ===== verification/SessionFork.v ===== *)
(** Forks of a session: [fork-policy.ts] and [InMemoryStorageState.createFork] of
    [packages/agent/src/harness/session]. *)
From S2P Require Import Prelude JsBase JsFloat Json SessionTypes SessionState.

(** * Addresses of the harness ([values.ts]) *)

Definition branchTip (branch : jsstr) : result session_err Address := address KindValue (js "shuvpi.branch.tip") branch.
Definition laneConfig (lane : jsstr) : result session_err Address := address KindValue (js "shuvpi.lane.config") lane.
Definition laneState (lane : jsstr) : result session_err Address := address KindValue (js "shuvpi.lane.state") lane.

(** * The policy *)

Inductive ForkOptions : Type :=
| ForkBranch (branch : jsstr) (entryId : option jsstr) (before : bool)
| ForkTree.

(** The plan; [MemoryForkPlan] adds the ids copied. *)
Inductive ForkPlan : Type :=
| PlanTree
| PlanBranch (branch : jsstr) (destinationTip : option jsstr) (entryIds : gset jsstr).

(** The loop of [selectBranchFork] from the tip to the root; the ids selected are
    threaded where the code calls [selectEntry]. *)
Fixpoint select_loop (getParent : jsstr -> option (option jsstr)) (requested : option jsstr) (before : bool) (fuel : nat)
  (entryId : option jsstr) (found : bool) (destinationTip : option jsstr) (selected : gset jsstr)
  : option (result session_err (bool * option jsstr * gset jsstr)) :=
  match entryId with
  | None => Some (Ok (found, destinationTip, selected))
  | Some id =>
      match fuel with
      | O => None
      | S fuel =>
          match getParent id with
          | None => Some (Err (SessionError "Corrupt source branch: missing parent"))
          | Some parentId =>
              if decide (Some id = requested) then
                select_loop getParent requested before fuel parentId true (if before then parentId else Some id)
                  (if before then selected else {[id]} ∪ selected)
              else select_loop getParent requested before fuel parentId found destinationTip
                     (if found then {[id]} ∪ selected else selected)
          end
      end
  end.

(** [source.tip] is typed [string | null | undefined]. *)
Definition selectBranchFork (getParent : jsstr -> option (option jsstr)) (fuel : nat) (branch : jsstr) (entryId : option jsstr)
  (before : bool) (tip : option (option jsstr)) : option (result session_err ForkPlan) :=
  match tip with
  | None => Some (Err (SessionError "Unknown source branch"))
  | Some tip =>
      let requested := match entryId with Some id => Some id | None => tip end in
      r ← select_loop getParent requested before fuel tip (bool_decide (requested = None)) None ∅;
      Some ('(found, destinationTip, selected) ← r;
            throw_if (negb found) (SessionError "Fork entry is not on source branch");;
            Ok (PlanBranch branch destinationTip selected))
  end.

Definition ns_is (namespace : jsstr) (name : string) : bool := bool_decide (namespace = js name).

Definition with_value (w : CommittedPut) (value : json) : CommittedPut :=
  Put_ (p_kind w) (p_seq w) (p_namespace w) (p_key w) value.

(** [string | null] as a stored value. *)
Definition tip_to_json (tip : option jsstr) : json := match tip with Some id => JStr id | None => JNull end.

Definition idle_lane_state : json :=
  JObj [(js "currentOperationId", JNull); (js "lastOperationId", JNull); (js "inbox", JArr [])].

Definition is_tree (plan : ForkPlan) : bool := match plan with PlanTree => true | PlanBranch _ _ _ => false end.

Definition on_branch (plan : ForkPlan) (key : jsstr) : bool :=
  match plan with PlanTree => true | PlanBranch branch _ _ => bool_decide (key = branch) end.

Definition projectForkCurrentStateWrite (write : CommittedPut) (plan : ForkPlan) (isEntryCopied : jsstr -> bool)
  : result session_err (option CommittedPut) :=
  let ns := p_namespace write in
  if ns_is ns "shuvpi.session.name" then Ok (Some write)
  else if ns_is ns "shuvpi.entry.label" then Ok (if isEntryCopied (p_key write) then Some write else None)
  else if ns_is ns "shuvpi.branch.tip" then
    Ok (match plan with
        | PlanTree => Some write
        | PlanBranch branch tip _ => if decide (p_key write = branch) then Some (with_value write (tip_to_json tip)) else None
        end)
  else if ns_is ns "shuvpi.lane.config" then Ok (if on_branch plan (p_key write) then Some write else None)
  else if ns_is ns "shuvpi.lane.state" then Ok (if on_branch plan (p_key write) then Some (with_value write idle_lane_state) else None)
  else if ns_is ns "shuvpi.result" then Ok None
  else if starts_with ns (js "shuvpi.op.") || starts_with ns (js "shuvpi.pending.") then Ok None
  else if ns_is ns "shuvpi" || starts_with ns (js "shuvpi.") then Err (SessionError "Unknown reserved fork namespace")
  else Ok (if is_tree plan then Some write else None).

(** * The fork *)

Section Fork.
Variable s : StorageState.

(** The stored tip as [string | null]; anything else is no entry id. *)
Definition tip_of_json (v : json) : result session_err (option jsstr) :=
  match v with
  | JStr id => Ok (Some id)
  | JNull => Ok None
  | _ => Err (SessionError "Corrupt source branch: missing parent")
  end.

Definition isEntryCopied (plan : ForkPlan) (id : jsstr) : bool :=
  match plan with PlanTree => true | PlanBranch _ _ entryIds => bool_decide (id ∈ entryIds) end.

Definition lane_configured (branch : jsstr) : result session_err unit :=
  config ← laneConfig branch;
  state ← laneState branch;
  throw_if (negb (bool_decide (is_Some (getValue s config))) || negb (bool_decide (is_Some (getValue s state))))
    (SessionError "Source branch is not a configured AgentLane").

Definition selectForkPlan (fuel : nat) (options : ForkOptions) : option (result session_err ForkPlan) :=
  match options with
  | ForkTree => Some (Ok PlanTree)
  | ForkBranch branch entryId before =>
      match (a ← branchTip branch;
             match getValue s a with
             | None => Ok None
             | Some stored => Some <$> tip_of_json (sv_value stored)
             end) with
      | Err e => Some (Err e)
      | Ok tip =>
          r ← selectBranchFork (fun id => e_parentId <$> entries s !! id) fuel branch entryId before tip;
          Some (plan ← r; lane_configured branch;; Ok plan)
      end
  end.

Definition copy_entry (plan : ForkPlan) (e : Entry) : step :=
  if isEntryCopied plan (e_id e) then
    modify (on_entries (insert (e_id e) e));;
    modify (on_entriesBySeq (fun l => l ++ [e]))
  else mret tt.

Definition message_count (l : list Entry) : Z := len (List.filter (fun e => bool_decide (e_type e = TypeMessage)) l).

Definition copy_put (plan : ForkPlan) (w : CommittedPut) : step :=
  projected ← reads_state (fun _ => projectForkCurrentStateWrite w plan (isEntryCopied plan));
  match projected with Some w => applyValueSetOrListAppend w | None => mret tt end.

Definition put_of_value (v : StoredValue) : CommittedPut :=
  Put_ KindValue (sv_seq v) (a_namespace (sv_address v)) (a_key (sv_address v)) (sv_value v).

Definition puts_of_list (l : StoredList) : list CommittedPut :=
  (fun e => Put_ KindList (le_seq e) (a_namespace (sl_address l)) (a_key (sl_address l)) (le_value e)) <$> sl_elements l.

(** The destination, built from an empty state. *)
Definition build_fork (plan : ForkPlan) : step :=
  for_each (copy_entry plan) (entriesBySeq s);;
  modify (on_stats (fun st =>
    Stats_ (message_count (List.filter (fun e => isEntryCopied plan (e_id e)) (entriesBySeq s))) (stats_usage st)));;
  for_each (copy_put plan) (put_of_value <$> (scalarValues s).*2);;
  for_each (copy_put plan) (concat (puts_of_list <$> (listValues s).*2));;
  modify (on_nextSeq (fun _ => nextSeq s)).

Definition createFork (fuel : nat) (options : ForkOptions) : option (result session_err StorageState) :=
  r ← selectForkPlan fuel options;
  Some (plan ← r;
        let '(destination, done) := build_fork plan new_StorageState in
        done;;
        Ok destination).
End Fork.
