(* ===== verification/SessionInv.v ===== *)
(** The invariant of [InMemoryStorageState], that a validated commit keeps it,
    and that it cannot fail half-way when its addresses are valid; values and
    lists under their physical keys, plain tables a state represents, and the
    pass that validates against the pass that applies. *)
From Stdlib Require Import Sorted.
From S2P Require Import Prelude JsBase Json SortedIds JsFloat SessionTypes SessionState SessionFork.

(** * The invariant *)

Definition valid_address (kind : StoredKind) (a : Address) : Prop :=
  a_kind a = kind /\ validateAddress (a_namespace a) (a_key a) = Ok tt.

Definition address_key (a : Address) : jsstr := physicalKey (a_namespace a) (a_key a).

Definition total_usage (rows : list UsageRow) : Usage := foldl (fun u r => addUsage u (ur_usage r)) emptyUsage rows.

(** The entries in sequence order, each under its id and after its parent. *)
Record entries_ok (bound : Seq) (s : StorageState) : Prop := EntriesOk {
  en_ids : forall id e, entries s !! id = Some e <-> e ∈ entriesBySeq s /\ e_id e = id;
  en_seqs : increasing (e_seq <$> entriesBySeq s);
  en_bound : forall e, e ∈ entriesBySeq s -> e_seq e < bound;
  en_parents : forall e p, e ∈ entriesBySeq s -> e_parentId e = Some p ->
    exists e', entries s !! p = Some e' /\ e_seq e' < e_seq e;
}.

Record usage_ok (bound : Seq) (rows : list (jsstr * UsageRow)) : Prop := UsageOk {
  us_keys : NoDup rows.*1;
  us_ids : Forall (fun kr : jsstr * UsageRow => fst kr = ur_id (snd kr)) rows;
  us_seqs : increasing (ur_seq <$> rows.*2);
  us_bound : forall r, r ∈ rows.*2 -> ur_seq r < bound;
}.

Definition value_ok (bound : Seq) (kv : jsstr * StoredValue) : Prop :=
  fst kv = address_key (sv_address (snd kv)) /\ valid_address KindValue (sv_address (snd kv)) /\ sv_seq (snd kv) < bound.

Definition list_ok (bound : Seq) (kl : jsstr * StoredList) : Prop :=
  fst kl = address_key (sl_address (snd kl)) /\ valid_address KindList (sl_address (snd kl)) /\
  sl_elements (snd kl) <> [] /\ increasing (le_seq <$> sl_elements (snd kl)) /\
  Forall (fun e => le_seq e < bound) (sl_elements (snd kl)).

Definition values_ok (bound : Seq) (m : list (jsstr * StoredValue)) : Prop := NoDup m.*1 /\ Forall (value_ok bound) m.
Definition lists_ok (bound : Seq) (m : list (jsstr * StoredList)) : Prop := NoDup m.*1 /\ Forall (list_ok bound) m.

(** All sequences of the state are below [bound]. *)
Record session_below (bound : Seq) (s : StorageState) : Prop := SessionBelow {
  sn_entries : entries_ok bound s;
  sn_usage : usage_ok bound (usage s);
  sn_disjoint : forall id, is_Some (entries s !! id) -> amap_get (usage s) id = None;
  sn_stats : stats s = Stats_ (message_count (entriesBySeq s)) (total_usage (usage s).*2);
  sn_values : values_ok bound (scalarValues s);
  sn_lists : lists_ok bound (listValues s);
}.

Definition session_inv (s : StorageState) : Prop := session_below (nextSeq s) s.

Lemma new_StorageState_inv : session_inv new_StorageState.
Proof.
  split; cbn.
  - split; cbn; [intros id e; rewrite lookup_empty; set_solver|constructor|set_solver|set_solver].
  - split; cbn; [constructor|constructor|constructor|set_solver].
  - done.
  - done.
  - split; cbn; constructor.
  - split; cbn; constructor.
Qed.

(** * Sequences *)

(** Sequences only grow: a larger bound keeps what holds below a smaller one. *)
Lemma value_ok_mono b1 b2 kv : b1 <= b2 -> value_ok b1 kv -> value_ok b2 kv.
Proof. intros Hb (H1 & H2 & H3). split_and!; [done|done|lia]. Qed.

Lemma list_ok_mono b1 b2 kl : b1 <= b2 -> list_ok b1 kl -> list_ok b2 kl.
Proof.
  intros Hb (H1 & H2 & H3 & H4 & H5). split_and!; [done..|]. eapply Forall_impl; [exact H5|]. cbn. lia.
Qed.

Lemma session_below_mono b1 b2 s : b1 <= b2 -> session_below b1 s -> session_below b2 s.
Proof.
  intros Hb [[E1 E2 E3 E4] [U1 U2 U3 U4] D St [V1 V2] [L1 L2]]. split; try done.
  - split; try done. intros e He. specialize (E3 e He). lia.
  - split; try done. intros r Hr. specialize (U4 r Hr). lia.
  - split; [done|]. eapply Forall_impl; [exact V2|]. intros kv. by apply value_ok_mono.
  - split; [done|]. eapply Forall_impl; [exact L2|]. intros kv. by apply list_ok_mono.
Qed.

Lemma session_below_nextSeq b f s : session_below b (on_nextSeq f s) <-> session_below b s.
Proof. split; intros [[? ? ? ?] ? ? ? ? ?]; split; done. Qed.

Lemma increasing_snoc {A} (f : A -> Z) l x : increasing (f <$> l) -> (forall y, y ∈ l -> f y < f x) -> increasing (f <$> l ++ [x]).
Proof.
  intros Hl Hx. rewrite fmap_app. apply increasing_app. split_and!; [done|repeat constructor|].
  intros a b (y & -> & Hy)%list_elem_of_fmap ->%list_elem_of_singleton. by apply Hx.
Qed.

(** * Entries and usage *)

Lemma message_count_snoc l e : message_count (l ++ [e]) = message_count l + (if decide (e_type e = TypeMessage) then 1 else 0).
Proof.
  unfold message_count. rewrite List.filter_app, len_app. cbn [List.filter].
  destruct (decide (e_type e = TypeMessage)) as [H|H]; [by rewrite (bool_decide_true _ H)|by rewrite (bool_decide_false _ H)].
Qed.

Definition put_entry (e : Entry) (s : StorageState) : StorageState :=
  on_stats (count_message e) (on_entriesBySeq (fun l => l ++ [e]) (on_entries (insert (e_id e) e) s)).

Lemma put_entry_below bound s e :
  session_below bound s -> (forall e', e' ∈ entriesBySeq s -> e_seq e' < e_seq e) -> e_seq e < bound ->
  entries s !! e_id e = None -> amap_get (usage s) (e_id e) = None ->
  (forall p, e_parentId e = Some p -> is_Some (entries s !! p)) -> session_below bound (put_entry e s).
Proof.
  intros Hinv Hlt Hseq Hnew Hnu Hp. destruct Hinv as [[E1 E2 E3 E4] [U1 U2 U3 U4] D St [V1 V2] [L1 L2]].
  split; cbn; try done.
  - split; cbn.
    + intros id e'. rewrite elem_of_app, list_elem_of_singleton. destruct (decide (e_id e = id)) as [<-|Hne].
      * rewrite lookup_insert_eq. split; [intros [= <-]; auto|]. intros [[Hin| ->] Hid]; [|done].
        exfalso. assert (entries s !! e_id e = Some e') by by apply E1. congruence.
      * rewrite lookup_insert_ne by done. rewrite E1. split; [tauto|]. intros [[?| ->] ?]; done.
    + by apply increasing_snoc.
    + intros e' [He'| ->%list_elem_of_singleton]%elem_of_app; [by apply E3|done].
    + intros e' p [He'| ->%list_elem_of_singleton]%elem_of_app Hpar.
      * destruct (E4 e' p He' Hpar) as (e1 & H1 & H2). exists e1. rewrite lookup_insert_ne; [done|]. intros E. congruence.
      * destruct (Hp p Hpar) as [e1 H1]. exists e1. rewrite lookup_insert_ne; [|intros E; congruence]. split; [done|].
        apply E1 in H1 as [H1 _]. by apply Hlt.
  - intros id. destruct (decide (e_id e = id)) as [<-|Hne]; [done|]. rewrite lookup_insert_ne by done. apply D.
  - rewrite message_count_snoc. unfold count_message. rewrite St. destruct (decide _); cbn; f_equal; lia.
Qed.

Lemma total_usage_snoc rows r : total_usage (rows ++ [r]) = addUsage (total_usage rows) (ur_usage r).
Proof. unfold total_usage. by rewrite foldl_app. Qed.

Definition put_usage (r : UsageRow) (s : StorageState) : StorageState :=
  on_stats (count_usage r) (on_usage (fun m => amap_set m (ur_id r) r) s).

Lemma put_usage_below bound s r :
  session_below bound s -> (forall r', r' ∈ (usage s).*2 -> ur_seq r' < ur_seq r) -> ur_seq r < bound ->
  entries s !! ur_id r = None -> amap_get (usage s) (ur_id r) = None -> session_below bound (put_usage r s).
Proof.
  intros Hinv Hlt Hseq Hne Hnew. destruct Hinv as [[E1 E2 E3 E4] [U1 U2 U3 U4] D St [V1 V2] [L1 L2]].
  split; cbn; try done.
  - rewrite amap_set_new by done. split.
    + rewrite fmap_app. cbn. apply NoDup_app. split_and!; [done| |apply NoDup_singleton].
      intros x Hx ->%list_elem_of_singleton. by apply amap_get_None in Hnew.
    + apply Forall_app. split; [done|]. by apply Forall_singleton.
    + rewrite fmap_app. cbn. by apply increasing_snoc.
    + rewrite fmap_app. cbn. intros r' [Hr| ->%list_elem_of_singleton]%elem_of_app; [by apply U4|done].
  - intros id Hid. rewrite amap_get_set. case_decide as E; [subst id; rewrite Hne in Hid; by destruct Hid|by apply D].
  - rewrite amap_set_new by done. rewrite fmap_app. cbn. rewrite total_usage_snoc. unfold count_usage. by rewrite St.
Qed.

(** * Physical keys *)

Definition names_ok (namespace key : jsstr) : Prop := validateAddress namespace key = Ok tt.

Lemma names_ok_spec ns key : names_ok ns key <-> ns <> [] /\ (0 ∉ ns) /\ (0 ∉ key).
Proof.
  unfold names_ok, validateAddress. split.
  - intros H. res_inv. repeat match goal with H : bool_decide _ = false |- _ => apply bool_decide_eq_false in H end. done.
  - intros (H1 & H2 & H3). by rewrite !bool_decide_false.
Qed.

Lemma address_ok kind ns key : names_ok ns key -> address kind ns key = Ok (Address_ kind ns key).
Proof. unfold names_ok, address. by intros ->. Qed.

Lemma valid_address_names kind a : valid_address kind a <-> a_kind a = kind /\ names_ok (a_namespace a) (a_key a).
Proof. done. Qed.

Lemma split_at_zero (n1 k1 n2 k2 : jsstr) : 0 ∉ n1 -> 0 ∉ n2 -> n1 ++ 0 :: k1 = n2 ++ 0 :: k2 -> n1 = n2 /\ k1 = k2.
Proof.
  revert n2. induction n1 as [|x n1 IH]; intros [|y n2] H1 H2 [= E]; [done|set_solver|set_solver|].
  destruct (IH n2) as [-> ->]; set_solver.
Qed.

Lemma physicalKey_inj n1 k1 n2 k2 :
  names_ok n1 k1 -> names_ok n2 k2 -> physicalKey n1 k1 = physicalKey n2 k2 -> n1 = n2 /\ k1 = k2.
Proof. intros (_ & H1 & _)%names_ok_spec (_ & H2 & _)%names_ok_spec. by apply split_at_zero. Qed.

(** * Values and lists *)

Lemma values_ok_set b m ns key v seq :
  values_ok b m -> names_ok ns key -> seq < b ->
  values_ok b (amap_set m (physicalKey ns key) (StoredValue_ (Address_ KindValue ns key) v seq)).
Proof.
  intros [H1 H2] Hn Hs. split; [by apply amap_set_NoDup|]. rewrite Forall_forall in H2 |- *.
  intros kv [->|H]%amap_set_elem; [|by apply H2]. done.
Qed.

Lemma values_ok_delete b m k : values_ok b m -> values_ok b (amap_delete m k).
Proof.
  intros [H1 H2]. split; [by apply amap_delete_NoDup|]. rewrite Forall_forall in H2 |- *.
  intros kv [H _]%amap_delete_elem. by apply H2.
Qed.

Lemma lists_ok_delete b m k : lists_ok b m -> lists_ok b (amap_delete m k).
Proof.
  intros [H1 H2]. split; [by apply amap_delete_NoDup|]. rewrite Forall_forall in H2 |- *.
  intros kv [H _]%amap_delete_elem. by apply H2.
Qed.

Lemma lists_ok_get b m k l : lists_ok b m -> amap_get m k = Some l -> list_ok b (k, l).
Proof. intros [H1 H2] Hl%amap_get_elem; [|done]. rewrite Forall_forall in H2. by apply H2. Qed.

Lemma values_ok_get b m k v : values_ok b m -> amap_get m k = Some v -> value_ok b (k, v).
Proof. intros [H1 H2] Hl%amap_get_elem; [|done]. rewrite Forall_forall in H2. by apply H2. Qed.

Lemma lists_ok_put b m ns key el :
  lists_ok b m -> names_ok ns key -> le_seq el < b ->
  (forall l x, amap_get m (physicalKey ns key) = Some l -> x ∈ sl_elements l -> le_seq x < le_seq el) ->
  lists_ok b (put_element (physicalKey ns key) (Address_ KindList ns key) el m).
Proof.
  intros Hm Hn Hs Hlt. unfold put_element. destruct (amap_get m _) as [l|] eqn:El.
  - destruct (lists_ok_get _ _ _ _ Hm El) as (A1 & A2 & A3 & A4 & A5). destruct Hm as [H1 H2].
    split; [by apply amap_set_NoDup|]. rewrite Forall_forall in H2 |- *.
    intros kv [->|H]%amap_set_elem; [|by apply H2]. cbn in *. split_and!; cbn; [done|done| | |].
    + by destruct (sl_elements l).
    + apply increasing_snoc; [done|]. intros y Hy. by eapply Hlt.
    + apply Forall_app. split; [done|]. by apply Forall_singleton.
  - destruct Hm as [H1 H2]. split; [by apply amap_set_NoDup|]. rewrite Forall_forall in H2 |- *.
    intros kv [->|H]%amap_set_elem; [|by apply H2]. split_and!; cbn; [done|done|done| |by apply Forall_singleton].
    repeat constructor.
Qed.

(** The elements stored under a key. *)
Definition elements_at (m : list (jsstr * StoredList)) (k : jsstr) : list ListElement :=
  match amap_get m k with Some l => sl_elements l | None => [] end.

Lemma elements_at_put m k a el k' :
  elements_at (put_element k a el m) k' = if decide (k = k') then elements_at m k ++ [el] else elements_at m k'.
Proof.
  unfold elements_at, put_element. destruct (amap_get m k) as [l|] eqn:El; rewrite amap_get_set; by case_decide.
Qed.

Lemma elements_at_delete m k k' : elements_at (amap_delete m k) k' = if decide (k = k') then [] else elements_at m k'.
Proof. unfold elements_at. rewrite amap_get_delete. by case_decide. Qed.

(** * One put *)

Definition put_done (p : CommittedPut) (s : StorageState) : StorageState :=
  let key := physicalKey (p_namespace p) (p_key p) in
  let a := Address_ (p_kind p) (p_namespace p) (p_key p) in
  match p_kind p with
  | KindValue => on_scalarValues (fun m => amap_set m key (StoredValue_ a (p_value p) (p_seq p))) s
  | KindList => on_listValues (put_element key a (ListElement_ (p_seq p) (p_value p))) s
  end.

Definition put_names_ok (p : CommittedPut) : Prop := names_ok (p_namespace p) (p_key p).

(** A put after every element of its list. *)
Definition put_after (p : CommittedPut) (s : StorageState) : Prop :=
  p_kind p = KindList ->
  forall x, x ∈ elements_at (listValues s) (physicalKey (p_namespace p) (p_key p)) -> le_seq x < p_seq p.

Lemma put_existing_address b m ns key l el :
  lists_ok b m -> names_ok ns key -> amap_get m (physicalKey ns key) = Some l ->
  put_element (physicalKey ns key) (sl_address l) el m = put_element (physicalKey ns key) (Address_ KindList ns key) el m.
Proof. intros Hm Hn Hl. unfold put_element. by rewrite Hl. Qed.

Lemma apply_put_ok b p s :
  lists_ok b (listValues s) -> put_names_ok p -> applyValueSetOrListAppend p s = (put_done p s, Ok tt).
Proof.
  destruct p as [kind seq ns key v]. unfold put_names_ok, applyValueSetOrListAppend, put_done. cbn. intros Hm Hn.
  unfold mbind, sm_bind, reads_state, modify. destruct kind; [by rewrite address_ok|].
  destruct (amap_get (listValues s) (physicalKey ns key)) as [l|] eqn:El; [|by rewrite address_ok].
  unfold on_listValues. by rewrite (put_existing_address _ _ _ _ _ _ Hm Hn El).
Qed.

Lemma put_done_below b p s :
  session_below b s -> put_names_ok p -> p_seq p < b -> put_after p s -> session_below b (put_done p s).
Proof.
  destruct p as [kind seq ns key v]. unfold put_names_ok, put_done, put_after. cbn. intros Hs Hn Hseq Ha.
  destruct Hs as [[E1 E2 E3 E4] U D St V L]. destruct kind; split; cbn; try done.
  - by apply values_ok_set.
  - apply lists_ok_put; [done..|]. cbn. intros l x Hl Hx. apply Ha; [done|]. unfold elements_at. by rewrite Hl.
Qed.

(** * Plain tables

    What a session stores, without keys: entries and usage in order, the last
    value put at an address, the elements appended to a list since its last
    deletion. *)

Record tables : Type := Tables {
  t_entries : list Entry;
  t_usage : list UsageRow;
  t_values : gmap (jsstr * jsstr) (json * Seq);
  t_lists : gmap (jsstr * jsstr) (list ListElement);
}.

Definition table_write (t : tables) (w : CommittedWrite) : tables :=
  let '(Tables es us vs ls) := t in
  match w with
  | CommittedEntry e => Tables (es ++ [e]) us vs ls
  | CommittedUsage r => Tables es (us ++ [r]) vs ls
  | CommittedPutWrite (Put_ KindValue seq ns key v) => Tables es us (<[(ns, key) := (v, seq)]> vs) ls
  | CommittedPutWrite (Put_ KindList seq ns key v) =>
      Tables es us vs (<[(ns, key) := default [] (ls !! (ns, key)) ++ [ListElement_ seq v]]> ls)
  | CommittedDelete KindValue _ ns key => Tables es us (delete (ns, key) vs) ls
  | CommittedDelete KindList _ ns key => Tables es us vs (delete (ns, key) ls)
  end.

Definition value_at (s : StorageState) (ns key : jsstr) : option (json * Seq) :=
  (fun v => (sv_value v, sv_seq v)) <$> getValue s (Address_ KindValue ns key).

Record represents (s : StorageState) (t : tables) : Prop := Represents {
  rp_entries : entriesBySeq s = t_entries t;
  rp_usage : (usage s).*2 = t_usage t;
  rp_values : forall ns key, names_ok ns key -> value_at s ns key = t_values t !! (ns, key);
  rp_lists : forall ns key, names_ok ns key ->
    elements_at (listValues s) (physicalKey ns key) = default [] (t_lists t !! (ns, key));
}.

Lemma represents_new : represents new_StorageState (Tables [] [] ∅ ∅).
Proof. split; cbn; try done; intros; by rewrite lookup_empty. Qed.

Lemma key_cases {A} n1 k1 n2 k2 (x y : A) :
  names_ok n1 k1 -> names_ok n2 k2 ->
  (if decide (physicalKey n1 k1 = physicalKey n2 k2) then x else y) = (if decide ((n1, k1) = (n2, k2)) then x else y).
Proof.
  intros H1 H2. destruct (decide ((n1, k1) = (n2, k2))) as [[= -> ->]|Hne]; [by rewrite decide_True|].
  apply decide_False. intros E. by destruct (physicalKey_inj _ _ _ _ H1 H2 E) as [-> ->].
Qed.

Lemma lookup_insert_if {V} (m : gmap (jsstr * jsstr) V) i j v :
  <[i := v]> m !! j = if decide (i = j) then Some v else m !! j.
Proof. case_decide as E; [subst; apply lookup_insert_eq|by apply lookup_insert_ne]. Qed.

Lemma lookup_delete_if {V} (m : gmap (jsstr * jsstr) V) i j :
  delete i m !! j = if decide (i = j) then None else m !! j.
Proof. case_decide as E; [subst; apply lookup_delete_eq|by apply lookup_delete_ne]. Qed.

(** * One write *)

Definition write_names_ok (w : CommittedWrite) : Prop :=
  match w with
  | CommittedPutWrite p => put_names_ok p
  | CommittedDelete _ _ ns key => names_ok ns key
  | _ => True
  end.

Definition unused (s : StorageState) (id : jsstr) : Prop := entries s !! id = None /\ amap_get (usage s) id = None.

(** What validation has established of a write before it is applied. *)
Definition write_ready (s : StorageState) (w : CommittedWrite) : Prop :=
  nextSeq s <= write_seq w /\ write_names_ok w /\
  match w with
  | CommittedEntry e => unused s (e_id e) /\ forall p, e_parentId e = Some p -> is_Some (entries s !! p)
  | CommittedUsage r => unused s (ur_id r)
  | _ => True
  end.

(** The state after one write that does not throw. *)
Definition write_done (w : CommittedWrite) (s : StorageState) : StorageState :=
  on_nextSeq (fun _ => write_seq w + 1)
    match w with
    | CommittedEntry e => put_entry e s
    | CommittedUsage r => put_usage r s
    | CommittedPutWrite p => put_done p s
    | CommittedDelete KindValue _ ns key => on_scalarValues (fun m => amap_delete m (physicalKey ns key)) s
    | CommittedDelete KindList _ ns key => on_listValues (fun m => amap_delete m (physicalKey ns key)) s
    end.

Lemma apply_committed_done s w : session_inv s -> write_names_ok w -> apply_committed w s = (write_done w s, Ok tt).
Proof.
  intros Hs Hw. unfold apply_committed, write_done. destruct w as [e|r|p|[] seq ns key]; try done.
  unfold mbind at 1, sm_bind at 1. by erewrite apply_put_ok; [|apply (sn_lists _ _ Hs)|].
Qed.

Lemma write_done_inv s w : session_inv s -> write_ready s w -> session_inv (write_done w s).
Proof.
  intros Hs (Hseq & Hn & Hw). unfold session_inv, write_done. cbn [nextSeq on_nextSeq]. apply session_below_nextSeq.
  assert (Hb : session_below (write_seq w + 1) s) by (eapply session_below_mono; [|exact Hs]; lia).
  destruct w as [e|r|p|kind seq ns key]; cbn in *.
  - destruct Hw as [[H1 H2] Hp]. apply put_entry_below; [done| |lia|done|done|done].
    intros e' He'. pose proof (en_bound _ _ (sn_entries _ _ Hs) _ He'). lia.
  - destruct Hw as [H1 H2]. apply put_usage_below; [done| |lia|done|done].
    intros r' Hr'. pose proof (us_bound _ _ (sn_usage _ _ Hs) _ Hr'). lia.
  - apply put_done_below; [done|done|lia|]. intros _ x. unfold elements_at.
    destruct (amap_get _ _) as [l|] eqn:El; [|by intros ?%elem_of_nil].
    destruct (lists_ok_get _ _ _ _ (sn_lists _ _ Hs) El) as (_ & _ & _ & _ & Hlt). cbn in Hlt.
    rewrite Forall_forall in Hlt. intros Hx. specialize (Hlt x Hx). cbn in Hlt. lia.
  - destruct Hb as [[E1 E2 E3 E4] U D St V L].
    destruct kind; (split; cbn; [split; done|done|done|done| |]); auto using values_ok_delete, lists_ok_delete.
Qed.

Lemma write_done_represents s t w :
  session_inv s -> write_ready s w -> represents s t -> represents (write_done w s) (table_write t w).
Proof.
  intros Hs (_ & Hn & Hw) [R1 R2 R3 R4]. destruct t as [es us vs ls]. unfold write_done.
  destruct w as [e|r|[[] seq n k v]|[] seq n k]; cbn in *; (split; cbn; try done).
  - by rewrite R1.
  - destruct Hw as [_ Hu]. by rewrite amap_set_new, fmap_app, R2.
  - intros ns key Hk. rewrite lookup_insert_if, <- (R3 ns key Hk). unfold value_at, getValue. cbn.
    rewrite amap_get_set, key_cases by done. by case_decide.
  - intros ns key Hk. rewrite lookup_insert_if, elements_at_put, key_cases by done.
    case_decide as E; [by rewrite (R4 n k Hn)|by apply R4].
  - intros ns key Hk. rewrite lookup_delete_if, <- (R3 ns key Hk). unfold value_at, getValue. cbn.
    rewrite amap_get_delete, key_cases by done. by case_decide.
  - intros ns key Hk. rewrite lookup_delete_if, elements_at_delete, key_cases by done.
    case_decide as E; [done|by apply R4].
Qed.

(** * Validation against application *)

Definition has_entry (s : StorageState) (id : jsstr) : bool := bool_decide (is_Some (entries s !! id)).
Definition has_entry_or_usage (s : StorageState) (id : jsstr) : bool :=
  has_entry s id || bool_decide (is_Some (amap_get (usage s) id)).

(** What validation has collected agrees with the state the writes so far lead
    to from [s0]. *)
Record in_step (s0 : StorageState) (st : Seq * gset jsstr * gset jsstr) (s : StorageState) : Prop := InStep {
  is_seq : nextSeq s = fst (fst st) + 1;
  is_entry : forall id, has_entry s id = has_entry s0 id || bool_decide (id ∈ snd st);
  is_used : forall id, has_entry_or_usage s id = has_entry_or_usage s0 id || bool_decide (id ∈ snd (fst st));
}.

Lemma has_entry_put (s : StorageState) e id :
  bool_decide (is_Some (<[e_id e := e]> (entries s) !! id)) = bool_decide (id = e_id e) || has_entry s id.
Proof.
  unfold has_entry. destruct (decide (id = e_id e)) as [->|Hne].
  - by rewrite lookup_insert_eq, (bool_decide_true (is_Some (Some e))), (bool_decide_true (e_id e = e_id e)) by eauto.
  - by rewrite lookup_insert_ne, (bool_decide_false (id = _)) by congruence.
Qed.

Lemma has_usage_put (s : StorageState) r id :
  bool_decide (is_Some (amap_get (amap_set (usage s) (ur_id r) r) id)) =
  bool_decide (id = ur_id r) || bool_decide (is_Some (amap_get (usage s) id)).
Proof.
  rewrite amap_get_set. case_decide as E.
  - by rewrite (bool_decide_true (is_Some (Some r))), (bool_decide_true (id = ur_id r)) by eauto.
  - by rewrite (bool_decide_false (id = _)) by congruence.
Qed.

Lemma elem_singleton_union (id x : jsstr) (X : gset jsstr) : bool_decide (id ∈ {[x]} ∪ X) = bool_decide (id = x) || bool_decide (id ∈ X).
Proof. apply eq_true_iff_eq. rewrite orb_true_iff, !bool_decide_eq_true. set_solver. Qed.

Lemma unused_false s id : has_entry_or_usage s id = false -> unused s id.
Proof.
  unfold has_entry_or_usage, has_entry. intros [H1 H2]%orb_false_iff. apply bool_decide_eq_false in H1, H2.
  by rewrite <- !eq_None_not_Some in *.
Qed.

Lemma in_step_ready s0 st s w st' :
  in_step s0 st s -> write_names_ok w ->
  validate_write (has_entry_or_usage s0) (has_entry s0) st w = Ok st' -> write_ready s w.
Proof.
  destruct st as [[prev ids] eids]. intros [Hq He Hu] Hn Hv. cbn in Hq, He, Hu. unfold validate_write, check_id in Hv.
  res_inv. split_and!; [bool_lia|done|].
  destruct w as [e|r|p|kind seq ns key]; try done; res_inv.
  - split; [apply unused_false; by rewrite Hu|]. intros p Hp.
    match goal with H : context [e_parentId e] |- _ => rewrite Hp in H; apply andb_false_iff in H end.
    assert (Hh : has_entry s p = true).
    { rewrite He. match goal with H : _ \/ _ |- _ => destruct H as [->%negb_false_iff| ->%negb_false_iff]; [done|apply orb_true_r] end. }
    unfold has_entry in Hh. by apply bool_decide_eq_true in Hh.
  - apply unused_false. by rewrite Hu.
Qed.

Lemma in_step_write s0 st s w st' :
  in_step s0 st s -> validate_write (has_entry_or_usage s0) (has_entry s0) st w = Ok st' -> in_step s0 st' (write_done w s).
Proof.
  destruct st as [[prev ids] eids]. intros [Hq He Hu] Hv. cbn in Hq, He, Hu. unfold validate_write, check_id in Hv.
  res_inv. destruct w as [e|r|p|kind seq ns key]; res_inv; (split; [done| |]); intros id.
  - unfold has_entry, write_done. cbn. by rewrite has_entry_put, He, elem_singleton_union, orb_assoc, (orb_comm (bool_decide _)), !orb_assoc.
  - unfold has_entry_or_usage, has_entry at 1, write_done. cbn. rewrite has_entry_put, elem_singleton_union.
    fold (has_entry s0 id). specialize (Hu id). unfold has_entry_or_usage in Hu.
    destruct (bool_decide (id = e_id e)); cbn; [by rewrite !orb_true_r|exact Hu].
  - exact (He id).
  - unfold has_entry_or_usage, write_done. cbn. rewrite has_usage_put, elem_singleton_union. specialize (Hu id).
    unfold has_entry_or_usage in Hu. destruct (bool_decide (id = ur_id r)); cbn; [by rewrite !orb_true_r|exact Hu].
  - destruct p as [[] ? ? ? ?]; exact (He id).
  - destruct p as [[] ? ? ? ?]; exact (Hu id).
  - destruct kind; exact (He id).
  - destruct kind; exact (Hu id).
Qed.

Lemma in_step_refl s : in_step s (nextSeq s - 1, ∅, ∅) s.
Proof. split; cbn; [lia| |]; intros id; by rewrite (bool_decide_false (id ∈ _)), orb_false_r by set_solver. Qed.

(** Writes that pass validation are applied without a throw, and lead where the
    plain tables lead. *)
Lemma validated_writes_apply s0 ws : forall st s t st',
  in_step s0 st s -> session_inv s -> represents s t -> Forall write_names_ok ws ->
  foldM (validate_write (has_entry_or_usage s0) (has_entry s0)) st ws = Ok st' ->
  exists s', for_each apply_committed ws s = (s', Ok tt) /\ session_inv s' /\ represents s' (foldl table_write t ws) /\ in_step s0 st' s'.
Proof.
  induction ws as [|w ws IH]; intros st s t st' Hst Hs Ht Hn Hv; cbn in Hv.
  - res_inv. by exists s.
  - apply bind_Ok in Hv as (st1 & H1 & H2). apply Forall_cons in Hn as [Hw Hn].
    pose proof (in_step_ready _ _ _ _ _ Hst Hw H1) as Hr.
    destruct (IH st1 (write_done w s) (table_write t w) st') as (s' & E & Hs' & Ht' & Hst');
      [by eapply in_step_write|by apply write_done_inv|by apply write_done_represents|done|done|].
    exists s'. split_and!; [|done..]. cbn. unfold mbind, sm_bind. by rewrite apply_committed_done.
Qed.

(** * A commit *)

Definition names_of_write (w : Write) : Prop :=
  match w with
  | PutWrite _ ns key _ | DeleteWrite _ ns key => names_ok ns key
  | _ => True
  end.

Lemma prepared_names_ok writes : forall first now,
  Forall names_of_write writes -> Forall write_names_ok (pc_writes (prepareStorageCommit writes first now)).
Proof.
  intros first now H. cbn. apply Forall_forall. intros w (i & x & -> & Hx)%elem_of_lookup_imap_1.
  apply (Forall_lookup_1 _ _ _ _ H) in Hx. by destruct x.
Qed.

Lemma prepareCommit_Ok s writes now p :
  prepareCommit s writes now = Ok p ->
  p = prepareStorageCommit writes (nextSeq s) now /\
  exists st, foldM (validate_write (has_entry_or_usage s) (has_entry s)) (nextSeq s - 1, ∅, ∅) (pc_writes p) = Ok st.
Proof. unfold prepareCommit, validateCommitted, validateCommittedWrites. intros H. res_inv. split; [done|by eexists]. Qed.

Lemma validated_seq A B ws : forall st st',
  foldM (validate_write A B) st ws = Ok st' -> (forall i w, ws !! i = Some w -> write_seq w = fst (fst st) + 1 + Z.of_nat i) ->
  fst (fst st') = fst (fst st) + len ws.
Proof.
  induction ws as [|w ws IH]; intros st st' H Hseq; cbn in H.
  - res_inv. unfold len. cbn. lia.
  - apply bind_Ok in H as (st1 & H1 & H2).
    assert (E : fst (fst st1) = write_seq w).
    { destruct st as [[prev ids] eids]. unfold validate_write in H1. destruct w; res_inv; done. }
    pose proof (Hseq 0%nat w eq_refl) as E0. rewrite (IH st1 st' H2).
    + unfold len. cbn [length]. lia.
    + intros i x Hx. rewrite (Hseq (S i) x Hx). lia.
Qed.

Lemma commitWrite_seq w seq now : write_seq (commitWrite w seq now) = seq.
Proof. by destruct w. Qed.

(** The two outcomes of a commit whose addresses are valid. *)
Lemma commit_outcome s t writes now :
  session_inv s -> represents s t -> Forall names_of_write writes ->
  (exists e, commit writes now s = (s, Err e) /\ prepareCommit s writes now = Err e) \/
  (exists s' p, prepareCommit s writes now = Ok p /\
    commit writes now s = (s', Ok (CommitResult_ (pc_firstSeq p) (pc_seqs p) (pc_timestamp p) (stats s'))) /\
    session_inv s' /\ represents s' (foldl table_write t (pc_writes p)) /\ nextSeq s' = nextSeq s + len writes).
Proof.
  intros Hs Ht Hn. destruct (prepareCommit s writes now) as [p|e] eqn:Ep; [right|left].
  - destruct (prepareCommit_Ok _ _ _ _ Ep) as (Hp & st & Hv). assert (Hw : Forall write_names_ok (pc_writes p)).
    { rewrite Hp. by apply prepared_names_ok. }
    destruct (validated_writes_apply s _ _ s t _ (in_step_refl s) Hs Ht Hw Hv) as (s' & E & Hs' & Ht' & [Hq _ _]).
    exists s', p. split_and!; [done| |done|done|]; cycle 1.
    { rewrite Hq, (validated_seq _ _ _ _ _ Hv); rewrite Hp; cbn; [unfold len; rewrite length_imap; lia|].
      intros i w Hi. apply list_lookup_imap_Some in Hi as (x & _ & ->). rewrite commitWrite_seq. lia. }
    apply sm_bind_Ok. exists s, p. split; [unfold reads_state; by rewrite Ep|].
    apply sm_bind_Ok. exists s', (stats s'). split; [|done]. apply sm_bind_Ok. by exists s', tt.
  - exists e. split; [|done]. unfold commit, mbind, sm_bind, reads_state. by rewrite Ep.
Qed.

(** Every session represents the tables read off its maps. *)
Definition tables_of (s : StorageState) : tables :=
  Tables (entriesBySeq s) (usage s).*2
    (list_to_map ((fun v => ((a_namespace (sv_address v), a_key (sv_address v)), (sv_value v, sv_seq v))) <$> (scalarValues s).*2))
    (list_to_map ((fun l => ((a_namespace (sl_address l), a_key (sl_address l)), sl_elements l)) <$> (listValues s).*2)).

Lemma tables_of_represents s : session_inv s -> represents s (tables_of s).
Proof.
  intros [_ _ _ _ [_ V] [_ L]]. split; cbn; [done|done| |]; intros ns key Hn.
  - unfold value_at, getValue. cbn. induction V as [|[k v] m (Ek & [_ Hv] & _) _ IH]; cbn; [by rewrite lookup_empty|].
    cbn in Ek. unfold address_key in Ek. rewrite lookup_insert_if, Ek, key_cases by done. by case_decide.
  - unfold elements_at. induction L as [|[k l] m (Ek & [_ Hl] & _) _ IH]; cbn; [by rewrite lookup_empty|].
    cbn in Ek. unfold address_key in Ek. rewrite lookup_insert_if, Ek, key_cases by done. by case_decide.
Qed.
