(* ===== verification/SessionBranch.v ===== *)
(** Branches of a session: the ancestors of an entry, and what the scans of
    [InMemoryStorageState] return of them. *)
From Stdlib Require Import Sorted.
From stdpp Require Import sorting.
From S2P Require Import Prelude JsBase JsFloat Json SortedIds SessionTypes SessionState SessionFork SessionInv.

(** * Ancestors *)

(** The entries from [tip] to the root, in that order. *)
Inductive ancestry (s : StorageState) : option jsstr -> list Entry -> Prop :=
| ancestry_root : ancestry s None []
| ancestry_step id e path :
    entries s !! id = Some e -> ancestry s (e_parentId e) path -> ancestry s (Some id) (e :: path).

(** [e] is the entry [id] or one of its ancestors. *)
Inductive on_path (s : StorageState) : jsstr -> Entry -> Prop :=
| on_path_here id e : entries s !! id = Some e -> on_path s id e
| on_path_up id e p e' : entries s !! id = Some e -> e_parentId e = Some p -> on_path s p e' -> on_path s id e'.

Lemma ancestry_det s tip p1 p2 : ancestry s tip p1 -> ancestry s tip p2 -> p1 = p2.
Proof.
  intros H. revert p2. induction H as [|id e path He Ha IH]; intros p2 H2; inversion H2; simplify_eq; [done|].
  f_equal. by apply IH.
Qed.

Lemma ancestry_on_path s tip path : ancestry s tip path -> forall e, e ∈ path <-> exists id, tip = Some id /\ on_path s id e.
Proof.
  induction 1 as [|id e path He Ha IH]; intros e'.
  - split; [by intros ?%elem_of_nil|naive_solver].
  - rewrite elem_of_cons, IH. split.
    + intros [->|(p & Hp & H)]; exists id; (split; [done|]); [by constructor|by eapply on_path_up].
    + intros (? & [= <-] & H). inversion H; simplify_eq; [by left|right; eauto].
Qed.

Section Branch.
Context (s : StorageState) (bound : Seq) (Hs : entries_ok bound s).

Lemma entry_elem id e : entries s !! id = Some e -> e ∈ entriesBySeq s.
Proof using Hs. intros He. by apply (en_ids _ _ Hs) in He as [? _]. Qed.

Lemma entry_id id e : entries s !! id = Some e -> e_id e = id.
Proof using Hs. intros He. by apply (en_ids _ _ Hs) in He as [_ ?]. Qed.

Lemma elem_entry e : e ∈ entriesBySeq s -> entries s !! e_id e = Some e.
Proof using Hs. intros He. by apply (en_ids _ _ Hs). Qed.

Lemma entries_NoDup : NoDup (entriesBySeq s).
Proof using Hs. apply (NoDup_fmap_1 e_seq), increasing_NoDup, (en_seqs _ _ Hs). Qed.

Lemma on_path_elem id e : on_path s id e -> e ∈ entriesBySeq s.
Proof using Hs. induction 1; [by eapply entry_elem|done]. Qed.

Lemma on_path_seq id e0 e : entries s !! id = Some e0 -> on_path s id e -> e = e0 \/ e_seq e < e_seq e0.
Proof using Hs.
  intros H0 H. revert e0 H0. induction H as [id e He|id e p e' He Hp H IH]; intros x Hx; simplify_eq; [by left|right].
  destruct (en_parents _ _ Hs _ p (entry_elem _ _ He) Hp) as (e1 & H1 & Hlt). destruct (IH e1 H1) as [->|]; lia.
Qed.

Lemma seq_lower_bound (l : list Entry) : exists m, forall e, e ∈ l -> m <= e_seq e.
Proof using.
  induction l as [|x l [m Hm]]; [exists 0; by intros e ?%elem_of_nil|]. exists (Z.min m (e_seq x)).
  intros e [->|He]%elem_of_cons; [lia|]. specialize (Hm e He). lia.
Qed.

Lemma ancestry_exists e : e ∈ entriesBySeq s -> exists path, ancestry s (e_parentId e) path.
Proof using Hs.
  destruct (seq_lower_bound (entriesBySeq s)) as [m Hm].
  assert (H : forall n, m <= n -> forall e, e ∈ entriesBySeq s -> e_seq e = n -> exists path, ancestry s (e_parentId e) path).
  { intros n Hn. pattern n. apply (Zlt_lower_bound_ind _ m); [|done]. clear e n Hn. intros n IH Hn e He <-.
    destruct (e_parentId e) as [p|] eqn:Hp; [|exists []; constructor].
    destruct (en_parents _ _ Hs e p He Hp) as (e1 & H1 & Hlt). pose proof (entry_elem _ _ H1) as Hin.
    destruct (IH (e_seq e1)) with (e := e1) as [path Ha]; [split; [by apply Hm|done]|done|done|].
    exists (e1 :: path). by econstructor. }
  intros He. by apply (H (e_seq e) (Hm e He) e He).
Qed.

Lemma ancestry_decreasing tip path : ancestry s tip path -> StronglySorted (fun x y => e_seq y < e_seq x) path.
Proof using Hs.
  induction 1 as [|id e path He Ha IH]; constructor; [done|]. apply Forall_forall. intros x Hx.
  apply (ancestry_on_path _ _ _ Ha) in Hx as (p & Hp & Hx).
  destruct (on_path_seq id e x He) as [->|]; [by eapply on_path_up| |done].
  destruct (en_parents _ _ Hs e p (entry_elem _ _ He) Hp) as (e1 & H1 & Hlt). destruct (on_path_seq p e1 e H1 Hx) as [->|]; lia.
Qed.

Lemma ancestry_length tip path : ancestry s tip path -> (length path <= length (entriesBySeq s))%nat.
Proof using Hs.
  intros Ha. apply submseteq_length, NoDup_submseteq.
  - pose proof (ancestry_decreasing _ _ Ha) as Hd. clear Ha. induction Hd as [|x l Hl IH Hx]; constructor; [|done].
    intros Hin. rewrite Forall_forall in Hx. specialize (Hx x Hin). lia.
  - intros x (id & _ & Hx)%(ancestry_on_path _ _ _ Ha). by eapply on_path_elem.
Qed.

Lemma branch_path_ancestry path : forall fuel e,
  ancestry s (e_parentId e) path -> (length path < fuel)%nat -> branch_path s fuel e = Some (Ok (e :: path)).
Proof using.
  induction path as [|x path IH]; intros [|fuel] e Ha Hf; cbn in Hf; try lia; cbn [branch_path].
  - by inversion Ha.
  - inversion Ha as [|id ? ? Hx Hr]; subst. rewrite Hx, (IH fuel x Hr) by lia. done.
Qed.
End Branch.

(** * The scan of a branch *)

Definition scanned_before (oldestFirst : bool) (x y : Entry) : Prop :=
  if oldestFirst then e_seq x < e_seq y else e_seq y < e_seq x.

(** The filters of a scan, without its start, stop and limit. *)
Definition branch_selects (query : BranchScan) (e : Entry) : Prop :=
  (forall t, bs_type query = Some t -> e_type e = t) /\
  (forall c, bs_customType query = Some c -> e_customType e = Some c) /\
  (forall c, bs_cursor query = Some c -> if bs_oldestFirst query then c < e_seq e else e_seq e < c).

(** What a scan selects of the branch before its limit: the entries before the
    first stop, itself included, that pass the filters. *)
Definition branch_selected (s : StorageState) (query : BranchScan) (e : Entry) : Prop :=
  on_path s (bs_start query) e /\ branch_selects query e /\
  forall e', on_path s (bs_start query) e' -> scanned_before (bs_oldestFirst query) e' e -> stops_at query e' = false.

Section Sorted.
Context {A : Type} (R : A -> A -> Prop).

Lemma StronglySorted_filter (f : A -> bool) l : StronglySorted R l -> StronglySorted R (List.filter f l).
Proof.
  induction 1 as [|x l Hl IH Hx]; cbn; [constructor|]. destruct (f x); [|done]. constructor; [done|].
  rewrite Forall_forall in Hx |- *. intros y [Hy _]%list_elem_of_In%filter_In. by apply Hx, list_elem_of_In.
Qed.

Lemma StronglySorted_rev l : StronglySorted R l -> StronglySorted (flip R) (rev l).
Proof.
  induction 1 as [|x l Hl IH Hx]; cbn; [constructor|]. apply StronglySorted_app. split_and!; [|done|repeat constructor].
  intros a b Ha%list_elem_of_In ->%list_elem_of_singleton. apply in_rev in Ha. rewrite Forall_forall in Hx.
  by apply Hx, list_elem_of_In.
Qed.

(** A sorted list up to its first stop: what nothing before stops. *)
Lemma stop_at_elem (stops : Entry -> bool) (Q : Entry -> Entry -> Prop) (l : list Entry) :
  StronglySorted Q l -> (forall x y, Q x y -> ~ Q y x) ->
  forall e, e ∈ stop_at stops l <-> e ∈ l /\ forall e', e' ∈ l -> Q e' e -> stops e' = false.
Proof using.
  intros Hl HQ. induction Hl as [|x l Hl IH Hx]; intros e; cbn; [set_solver|]. rewrite Forall_forall in Hx.
  assert (Hxx : forall y, Q y x -> y ∈ x :: l -> False).
  { intros y Hy [->|Hin]%elem_of_cons; [by eapply HQ|]. by apply (HQ y x Hy), Hx. }
  destruct (stops x) eqn:Es.
  - rewrite list_elem_of_singleton. split.
    + intros ->. split; [by left|]. intros e' He' Hq. by destruct (Hxx e').
    + intros [[->|Hin]%elem_of_cons H]; [done|]. specialize (H x ltac:(by left) (Hx e Hin)). congruence.
  - rewrite elem_of_cons, IH. split.
    + intros [->|[Hin H]]; (split; [by constructor|]).
      * intros e' He' Hq. by destruct (Hxx e').
      * intros e' [->|He']%elem_of_cons Hq; [done|by apply H].
    + intros [[->|Hin]%elem_of_cons H]; [by left|right]. split; [done|]. intros e' He'. apply H. by right.
Qed.
End Sorted.

Lemma stop_at_sorted (stops : Entry -> bool) (Q : Entry -> Entry -> Prop) l : StronglySorted Q l -> StronglySorted Q (stop_at stops l).
Proof.
  induction 1 as [|x l Hl IH Hx]; cbn; [constructor|]. destruct (stops x); constructor; try done; [constructor|].
  rewrite Forall_forall in Hx |- *. intros y Hy. apply Hx. clear -Hy. induction l as [|z l IH]; cbn in *; [done|].
  destruct (stops z); [|set_solver]. apply list_elem_of_singleton in Hy as ->. by left.
Qed.

Lemma elem_of_filter_In {A} (f : A -> bool) l x : x ∈ List.filter f l <-> x ∈ l /\ f x = true.
Proof. by rewrite !list_elem_of_In, filter_In. Qed.

Lemma branch_selects_spec q e :
  branch_selects q e <->
  past_cursor (negb (bs_oldestFirst q)) (bs_cursor q) (e_seq e) = true /\ matches_custom (bs_customType q) e = true /\
  matches (bs_type q) (e_type e) = true.
Proof.
  unfold branch_selects, past_cursor, matches_custom, matches. destruct q as [st sty sid ty cu old lim cur]. cbn.
  destruct ty as [t|], cu as [c|], cur as [n|], old; cbn; rewrite ?bool_decide_eq_true, ?Z.ltb_lt; naive_solver.
Qed.

Lemma scanned_before_asym old x y : scanned_before old x y -> ~ scanned_before old y x.
Proof. unfold scanned_before. destruct old; lia. Qed.

(** The selected entries, in scan order. *)
Lemma scanBranch_selected s fuel q e0 :
  session_inv s -> entries s !! bs_start q = Some e0 -> (length (entriesBySeq s) <= fuel)%nat ->
  exists l, scanBranch s fuel q = Some (Ok (limited (bs_limit q) l)) /\
    StronglySorted (scanned_before (bs_oldestFirst q)) l /\ forall e, e ∈ l <-> branch_selected s q e.
Proof.
  intros Hs H0 Hf. pose proof (sn_entries _ _ Hs) as He.
  destruct (ancestry_exists _ _ He e0 (entry_elem _ _ He _ _ H0)) as [path Ha].
  assert (Hfull : ancestry s (Some (bs_start q)) (e0 :: path)) by by constructor.
  pose proof (ancestry_length _ _ He _ _ Hfull) as Hlen. pose proof (ancestry_decreasing _ _ He _ _ Hfull) as Hdec.
  set (ordered := if bs_oldestFirst q then rev (e0 :: path) else e0 :: path).
  assert (Hord : StronglySorted (scanned_before (bs_oldestFirst q)) ordered).
  { unfold ordered, scanned_before. destruct (bs_oldestFirst q); [|done]. by apply (StronglySorted_rev _ (e0 :: path)). }
  assert (Helem : forall e, e ∈ ordered <-> on_path s (bs_start q) e).
  { intros e. transitivity (e ∈ e0 :: path).
    - unfold ordered. destruct (bs_oldestFirst q); [|done]. by rewrite !list_elem_of_In, <- in_rev.
    - rewrite (ancestry_on_path _ _ _ Hfull). naive_solver. }
  unfold scanBranch. rewrite H0, (branch_path_ancestry s path) by (done || (cbn in Hlen; lia)). cbn [mbind option_bind result_bind].
  fold ordered. eexists. split_and!; [reflexivity| |].
  - by repeat apply StronglySorted_filter; apply stop_at_sorted.
  - intros e. rewrite !elem_of_filter_In, (stop_at_elem _ _ _ Hord (scanned_before_asym _)), Helem.
    unfold branch_selected. rewrite branch_selects_spec. setoid_rewrite Helem. tauto.
Qed.

(** * The scans of entries, usage and lists *)

Lemma scan_loop_filter q l : forall room,
  scan_loop q room l = match room with None => List.filter (scan_matches q) l | Some n => take n (List.filter (scan_matches q) l) end.
Proof.
  induction l as [|e l IH]; intros [[|n]|]; cbn; try done; destruct (scan_matches q e) eqn:E; rewrite ?IH; cbn; done.
Qed.

Definition entry_selected (s : StorageState) (query : EntryScan) (e : Entry) : Prop :=
  e ∈ entriesBySeq s /\ (forall t, es_type query = Some t -> e_type e = t) /\
  (forall c, es_customType query = Some c -> e_customType e = Some c) /\
  (forall n, es_fromSeq query = Some n -> n <= e_seq e) /\ (forall n, es_toSeq query = Some n -> e_seq e <= n).

Lemma scan_matches_spec q e s : e ∈ entriesBySeq s /\ scan_matches q e = true <-> entry_selected s q e.
Proof.
  unfold entry_selected, scan_matches, matches, matches_custom, in_seqs. destruct q as [ty cu f t desc lim]. cbn.
  rewrite !andb_true_iff. destruct ty, cu, f, t; rewrite ?bool_decide_eq_true, ?Z.leb_le; naive_solver.
Qed.

Lemma scanEntries_selected s q :
  session_inv s ->
  exists l, scanEntries s q = limited (es_limit q) l /\ StronglySorted (scanned_before (negb (es_descending q))) l /\
    forall e, e ∈ l <-> entry_selected s q e.
Proof.
  intros Hs. pose proof (en_seqs _ _ (sn_entries _ _ Hs)) as Hinc.
  assert (Hasc : StronglySorted (scanned_before true) (entriesBySeq s)).
  { revert Hinc. induction (entriesBySeq s) as [|x l IH]; [constructor|]. rewrite fmap_cons.
    intros [Hx Hl]%StronglySorted_cons. constructor; [by apply IH|]. exact (proj1 (Forall_fmap e_seq _ l) Hx). }
  exists (List.filter (scan_matches q) (if es_descending q then rev (entriesBySeq s) else entriesBySeq s)). split_and!.
  - unfold scanEntries. rewrite scan_loop_filter. by destruct (es_limit q).
  - apply StronglySorted_filter. destruct (es_descending q); [|done]. by apply (StronglySorted_rev _ (entriesBySeq s)).
  - intros e. rewrite elem_of_filter_In, <- scan_matches_spec. destruct (es_descending q); [|done].
    by rewrite !list_elem_of_In, <- in_rev.
Qed.
