(* ===== verification/SessionForkSpec.v ===== *)
(** Forks: what [createFork] copies, and that the copy is a session again. *)
From Stdlib Require Import Sorted.
From stdpp Require Import sorting.
From S2P Require Import Prelude JsBase JsFloat Json SortedIds SessionTypes SessionState SessionFork SessionInv SessionBranch.

(** * The policy on one put *)

Lemma project_same w plan copied w' :
  projectForkCurrentStateWrite w plan copied = Ok (Some w') -> w' = with_value w (p_value w').
Proof.
  destruct w as [kind seq ns key v]. unfold projectForkCurrentStateWrite. cbn [p_namespace p_key].
  intros H. repeat match goal with
  | H : (if ?b then _ else _) = _ |- _ => destruct b
  | H : match ?p with PlanTree => _ | PlanBranch _ _ _ => _ end = _ |- _ => destruct p
  | H : Ok (if ?b then _ else _) = _ |- _ => destruct b
  | H : Ok (match ?p with PlanTree => _ | PlanBranch _ _ _ => _ end) = _ |- _ => destruct p
  end; by simplify_eq.
Qed.

(** What the policy keeps of a put at an address. *)
Definition kept (plan : ForkPlan) (kind : StoredKind) (ns key : jsstr) (v : json) (seq : Seq) : option (json * Seq) :=
  match projectForkCurrentStateWrite (Put_ kind seq ns key v) plan (isEntryCopied plan) with
  | Ok (Some w) => Some (p_value w, p_seq w)
  | _ => None
  end.

Definition kept_value (plan : ForkPlan) (ns key : jsstr) (vs : json * Seq) : option (json * Seq) :=
  kept plan KindValue ns key (fst vs) (snd vs).

Definition kept_element (plan : ForkPlan) (ns key : jsstr) (e : ListElement) : option ListElement :=
  (fun vs => ListElement_ (snd vs) (fst vs)) <$> kept plan KindList ns key (le_value e) (le_seq e).

(** A copied put: nothing, or the put with the value the policy gives it. *)
Lemma copy_put_Ok b plan w d d' :
  lists_ok b (listValues d) -> put_names_ok w -> copy_put plan w d = (d', Ok tt) ->
  (kept plan (p_kind w) (p_namespace w) (p_key w) (p_value w) (p_seq w) = None /\ d' = d) \/
  (exists v, kept plan (p_kind w) (p_namespace w) (p_key w) (p_value w) (p_seq w) = Some (v, p_seq w) /\
    d' = put_done (with_value w v) d).
Proof.
  intros Hd Hn. unfold copy_put, kept. destruct w as [kind seq ns key v]. cbn [p_kind p_namespace p_key p_value p_seq].
  intros (d1 & p & [= <- Hp] & H)%sm_bind_Ok. rewrite Hp. destruct p as [w|]; [right|left; by inversion H].
  pose proof (project_same _ _ _ _ Hp) as Hw. exists (p_value w). rewrite Hw in H |- *. split; [done|].
  by rewrite (apply_put_ok b) in H by done; inversion H.
Qed.

(** * Copying values *)

(** Everything but the values, everything but the lists. *)
Definition same_but_values (d d' : StorageState) : Prop := d' = on_scalarValues (fun _ => scalarValues d') d.
Definition same_but_lists (d d' : StorageState) : Prop := d' = on_listValues (fun _ => listValues d') d.

Lemma copy_values b plan m : forall d d',
  session_below b d -> values_ok b m -> (forall k, is_Some (amap_get m k) -> amap_get (scalarValues d) k = None) ->
  for_each (copy_put plan) (put_of_value <$> m.*2) d = (d', Ok tt) ->
  session_below b d' /\ same_but_values d d' /\
  forall ns key, names_ok ns key ->
    value_at d' ns key =
    match amap_get m (physicalKey ns key) with
    | Some v => kept_value plan ns key (sv_value v, sv_seq v)
    | None => value_at d ns key
    end.
Proof.
  induction m as [|[k v] m IH]; intros d d' Hd Hm Hfresh H.
  - inversion H; subst. split_and!; [done|by destruct d'|done].
  - cbn [fmap list_fmap] in H. apply sm_bind_Ok in H as (d1 & [] & H1 & H2).
    destruct Hm as [Hnd Hall]. cbn in Hnd. apply NoDup_cons in Hnd as [Hk Hnd]. apply Forall_cons in Hall as [Hv Hall].
    destruct Hv as (Ek & [Hkind Hnames] & Hseq). cbn in Ek, Hkind, Hnames, Hseq.
    destruct v as [[kind ns0 key0] v seq]. cbn in *. subst kind.
    assert (Hd1 : session_below b d1 /\ same_but_values d d1 /\ forall k', amap_get (scalarValues d1) k' =
      if decide (k = k') then (fun vs => StoredValue_ (Address_ KindValue ns0 key0) (fst vs) (snd vs)) <$> kept_value plan ns0 key0 (v, seq)
      else amap_get (scalarValues d) k').
    { destruct (copy_put_Ok b _ (Put_ KindValue seq ns0 key0 v) _ _ (sn_lists _ _ Hd) Hnames H1) as [[E ->]|(v' & E & ->)]; cbn in E.
      - split_and!; [done|by destruct d|]. intros k'. case_decide as Hk'; [subst k'|done].
        unfold kept_value. cbn. rewrite E. apply Hfresh. rewrite decide_True by done. eauto.
      - split_and!; [by apply put_done_below|done|]. intros k'. unfold put_done, kept_value. cbn. rewrite E, amap_get_set.
        unfold address_key in Ek. cbn in Ek. by rewrite <- Ek. }
    destruct Hd1 as (Hd1 & Hs1 & Hg1).
    destruct (IH d1 d') as (Hd' & Hs' & Hg'); [done|done| |done|].
    { intros k' [w Hw]. rewrite Hg1. case_decide as E; [subst k'; exfalso; apply Hk, (list_elem_of_fmap_2' _ _ (k, w)); [by apply amap_get_elem|done]|].
      apply Hfresh. rewrite decide_False by done. eauto. }
    split_and!; [done|unfold same_but_values in *; rewrite Hs', Hs1; by destruct d|].
    intros ns key Hn. rewrite (Hg' ns key Hn). unfold address_key in Ek. cbn in Ek. rewrite Ek, key_cases by done.
    unfold value_at, getValue. cbn. rewrite Hg1, Ek, key_cases by done.
    case_decide as E; [|done]. injection E as -> ->. apply amap_get_None in Hk. rewrite <- Ek, Hk. cbn.
    by destruct (kept_value _ _ _ _) as [[]|].
Qed.

(** * Copying lists *)

Lemma for_each_app {S E A} (f : A -> SM S E unit) l1 l2 s s' :
  for_each f (l1 ++ l2) s = (s', Ok tt) <-> exists s1, for_each f l1 s = (s1, Ok tt) /\ for_each f l2 s1 = (s', Ok tt).
Proof.
  revert s. induction l1 as [|a l1 IH]; intros s; cbn.
  { split; [by exists s|]. by intros (s1 & [= <-] & H). }
  split.
  - intros (s1 & [] & H1 & (s2 & H2 & H3)%IH)%sm_bind_Ok. exists s2. split; [|done]. apply sm_bind_Ok. eauto.
  - intros (s2 & (s1 & [] & H1 & H2)%sm_bind_Ok & H3). apply sm_bind_Ok. exists s1, tt. split; [done|]. apply IH. eauto.
Qed.

Definition put_of_element (ns key : jsstr) (e : ListElement) : CommittedPut := Put_ KindList (le_seq e) ns key (le_value e).

Lemma same_but_lists_trans d1 d2 d3 : same_but_lists d1 d2 -> same_but_lists d2 d3 -> same_but_lists d1 d3.
Proof. unfold same_but_lists. intros -> H. rewrite H. by destruct d1. Qed.

Lemma copy_element b plan ns key e d d' :
  session_below b d -> names_ok ns key -> le_seq e < b ->
  (forall x, x ∈ elements_at (listValues d) (physicalKey ns key) -> le_seq x < le_seq e) ->
  copy_put plan (put_of_element ns key e) d = (d', Ok tt) ->
  session_below b d' /\ same_but_lists d d' /\ forall k', elements_at (listValues d') k' =
    elements_at (listValues d) k' ++
    (if decide (physicalKey ns key = k') then match kept_element plan ns key e with Some e' => [e'] | None => [] end else []).
Proof.
  intros Hd Hn Hb Hlt H1. destruct (copy_put_Ok b _ (put_of_element ns key e) _ _ (sn_lists _ _ Hd) Hn H1) as [[E ->]|(v' & E & ->)];
    cbn in E; unfold kept_element; rewrite E; cbn.
  - split_and!; [done|by destruct d|]. intros k'. by case_decide; rewrite app_nil_r.
  - split_and!; [apply (put_done_below b (Put_ KindList (le_seq e) ns key v') d); [done..|by intros _]|done|]. intros k'. rewrite elements_at_put.
    case_decide as Ek; [by subst|by rewrite app_nil_r].
Qed.

Lemma kept_element_seq plan ns key e e' : kept_element plan ns key e = Some e' -> le_seq e' = le_seq e.
Proof.
  unfold kept_element, kept. destruct (projectForkCurrentStateWrite _ _ _) as [[w|]|] eqn:E; cbn; [|done|done].
  apply project_same in E. intros [= <-]. by rewrite E.
Qed.

Lemma copy_elements b plan ns key els : forall d d',
  session_below b d -> names_ok ns key -> increasing (le_seq <$> els) -> Forall (fun e => le_seq e < b) els ->
  (forall x y, x ∈ elements_at (listValues d) (physicalKey ns key) -> y ∈ els -> le_seq x < le_seq y) ->
  for_each (copy_put plan) (put_of_element ns key <$> els) d = (d', Ok tt) ->
  session_below b d' /\ same_but_lists d d' /\ forall k', elements_at (listValues d') k' =
    elements_at (listValues d) k' ++ (if decide (physicalKey ns key = k') then omap (kept_element plan ns key) els else []).
Proof.
  induction els as [|e els IH]; intros d d' Hd Hn Hinc Hb Hlt H.
  - inversion H; subst. split_and!; [done|by destruct d'|]. intros k'. by case_decide; rewrite app_nil_r.
  - rewrite fmap_cons in Hinc. apply StronglySorted_cons in Hinc as [He Hinc]. apply Forall_cons in Hb as [Hb1 Hb].
    apply sm_bind_Ok in H as (d1 & [] & H1 & H2).
    destruct (copy_element b plan ns key e d d1) as (Hd1 & Hs1 & Hg1); [done|done|done| |done|].
    { intros x Hx. apply Hlt; [done|by left]. }
    destruct (IH d1 d') as (Hd' & Hs' & Hg'); [done|done|done|done| |done|].
    { intros x y. rewrite Hg1, decide_True, elem_of_app by done. intros [Hx|Hx] Hy; [apply Hlt; [done|by right]|].
      destruct (kept_element plan ns key e) as [e'|] eqn:Ek; [|by apply elem_of_nil in Hx].
      apply list_elem_of_singleton in Hx as ->. apply kept_element_seq in Ek. rewrite Ek.
      rewrite Forall_forall in He. apply He. by apply list_elem_of_fmap_2. }
    split_and!; [done|by eapply same_but_lists_trans|]. intros k'. rewrite Hg', Hg1, <- app_assoc. f_equal.
    case_decide; [|done]. cbn. by destruct (kept_element plan ns key e).
Qed.

Lemma copy_lists b plan m : forall d d',
  session_below b d -> lists_ok b m -> (forall k, is_Some (amap_get m k) -> elements_at (listValues d) k = []) ->
  for_each (copy_put plan) (concat (puts_of_list <$> m.*2)) d = (d', Ok tt) ->
  session_below b d' /\ same_but_lists d d' /\
  forall ns key, names_ok ns key -> elements_at (listValues d') (physicalKey ns key) =
    match amap_get m (physicalKey ns key) with
    | Some l => omap (kept_element plan ns key) (sl_elements l)
    | None => elements_at (listValues d) (physicalKey ns key)
    end.
Proof.
  induction m as [|[k l] m IH]; intros d d' Hd Hm Hfresh H.
  - inversion H; subst. split_and!; [done|by destruct d'|done].
  - destruct Hm as [Hnd Hall]. cbn in Hnd. apply NoDup_cons in Hnd as [Hk Hnd]. apply Forall_cons in Hall as [Hl Hall].
    destruct Hl as (Ek & [Hkind Hnames] & _ & Hinc & Hb). destruct l as [[kind ns0 key0] els]. cbn in Ek, Hkind, Hnames, Hinc, Hb. subst kind.
    unfold address_key in Ek. cbn in Ek.
    change (concat (puts_of_list <$> ((k, StoredList_ (Address_ KindList ns0 key0) els) :: m).*2))
      with ((put_of_element ns0 key0 <$> els) ++ concat (puts_of_list <$> m.*2)) in H.
    apply for_each_app in H as (d1 & H1 & H2).
    assert (Hk0 : elements_at (listValues d) k = []) by (apply Hfresh; cbn; rewrite decide_True by done; eauto).
    destruct (copy_elements b plan ns0 key0 els d d1) as (Hd1 & Hs1 & Hg1); [done|done|done|done| |done|].
    { intros x y. rewrite <- Ek, Hk0. by intros ?%elem_of_nil. }
    destruct (IH d1 d') as (Hd' & Hs' & Hg'); [done|done| |done|].
    { intros k' [w Hw]. rewrite Hg1. case_decide as E.
      - exfalso. apply Hk, (list_elem_of_fmap_2' _ _ (k, w)); [|done]. apply amap_get_elem; [done|]. congruence.
      - rewrite app_nil_r. apply Hfresh. cbn. case_decide; eauto. }
    split_and!; [done|by eapply same_but_lists_trans|]. intros ns key Hn. rewrite (Hg' ns key Hn), Hg1. cbn.
    rewrite Ek, !key_cases by done. case_decide as E; [|by rewrite app_nil_r].
    injection E as -> ->. apply amap_get_None in Hk. rewrite <- Ek, Hk, Hk0. done.
Qed.

(** * Copying entries *)

Definition copied (plan : ForkPlan) (e : Entry) : bool := isEntryCopied plan (e_id e).

Definition insert_entries (l : list Entry) (m : gmap jsstr Entry) : gmap jsstr Entry :=
  foldl (fun m e => <[e_id e := e]> m) m l.

Lemma for_each_cons {S E A} (f : A -> SM S E unit) a l s :
  for_each f (a :: l) s = match f a s with (s1, Ok _) => for_each f l s1 | (s1, Err e) => (s1, Err e) end.
Proof. done. Qed.

Lemma copy_entries plan l : forall d,
  for_each (copy_entry plan) l d =
  (on_entriesBySeq (fun l' => l' ++ List.filter (copied plan) l) (on_entries (insert_entries (List.filter (copied plan) l)) d), Ok tt).
Proof.
  induction l as [|e l IH]; intros d.
  { destruct d. unfold on_entriesBySeq, on_entries. cbn. by rewrite app_nil_r. }
  rewrite for_each_cons. cbn [List.filter]. unfold copy_entry at 1.
  change (isEntryCopied plan (e_id e)) with (copied plan e). destruct (copied plan e).
  - unfold mbind, sm_bind, modify. rewrite IH. unfold on_entriesBySeq, on_entries. cbn. by rewrite <- app_assoc.
  - unfold mret, sm_ret. apply IH.
Qed.

Lemma insert_entries_lookup l : forall m id e,
  NoDup (e_id <$> l) -> (forall x, x ∈ l -> m !! e_id x = None) ->
  insert_entries l m !! id = Some e <-> (e ∈ l /\ e_id e = id) \/ m !! id = Some e.
Proof.
  induction l as [|x l IH]; intros m id e Hnd Hm; cbn; [split; [by right|by intros [[?%elem_of_nil _]|]]|].
  cbn in Hnd. apply NoDup_cons in Hnd as [Hx Hnd]. fold (insert_entries l). unfold insert_entries in IH |- *. rewrite IH; [|done|].
  - rewrite elem_of_cons. destruct (decide (e_id x = id)) as [<-|Hne].
    + rewrite lookup_insert_eq, (Hm x ltac:(by left)). split.
      * intros [[He Hid]|[= <-]]; [by left; auto|by left; auto].
      * intros [[[->|He] Hid]|]; [by right|by left|done].
    + rewrite lookup_insert_ne by done. split; [naive_solver|]. intros [[[->|He] Hid]|]; naive_solver.
  - intros y Hy. rewrite lookup_insert_ne; [apply Hm; by right|]. intros E. apply Hx. rewrite E. by apply list_elem_of_fmap_2.
Qed.

(** A plan that copies an entry copies its parent. *)
Definition closed_plan (s : StorageState) (plan : ForkPlan) : Prop :=
  forall e p, e ∈ entriesBySeq s -> isEntryCopied plan (e_id e) = true -> e_parentId e = Some p -> isEntryCopied plan p = true.

Lemma increasing_filter_seqs {A} (f : A -> Z) (g : A -> bool) l : increasing (f <$> l) -> increasing (f <$> List.filter g l).
Proof.
  induction l as [|x l IH]; cbn; [done|]. intros [Hx Hl]%StronglySorted_cons. destruct (g x); [|by apply IH].
  cbn. apply StronglySorted_cons. split; [|by apply IH]. rewrite Forall_forall in Hx |- *.
  intros y (a & -> & [Ha _]%elem_of_filter_In)%list_elem_of_fmap. by apply Hx, list_elem_of_fmap_2.
Qed.

Lemma entry_ids_NoDup bound s : entries_ok bound s -> NoDup (e_id <$> entriesBySeq s).
Proof.
  intros H. apply NoDup_fmap_2_strong; [|by eapply entries_NoDup]. intros x y Hx Hy E.
  pose proof (elem_entry _ _ H x Hx) as H1. pose proof (elem_entry _ _ H y Hy) as H2. congruence.
Qed.

Lemma filter_ids_NoDup g l : NoDup (e_id <$> l) -> NoDup (e_id <$> List.filter g l).
Proof.
  induction l as [|x l IH]; cbn; [done|]. intros [Hx Hl]%NoDup_cons. destruct (g x); [|by apply IH]. cbn. apply NoDup_cons.
  split; [|by apply IH]. intros (y & E & [Hy _]%elem_of_filter_In)%list_elem_of_fmap. apply Hx. rewrite E. by apply list_elem_of_fmap_2.
Qed.

Lemma copied_entries_ok s plan d :
  entries_ok (nextSeq s) s -> closed_plan s plan ->
  entries d = insert_entries (List.filter (copied plan) (entriesBySeq s)) ∅ ->
  entriesBySeq d = List.filter (copied plan) (entriesBySeq s) -> entries_ok (nextSeq s) d.
Proof.
  intros Hs Hc Hd Hl. pose proof (entry_ids_NoDup _ _ Hs) as Hnd.
  assert (Hids : forall id e, entries d !! id = Some e <-> e ∈ entriesBySeq d /\ e_id e = id).
  { intros id e. rewrite Hd, Hl, insert_entries_lookup; [|by apply filter_ids_NoDup|intros; apply lookup_empty].
    rewrite lookup_empty. split; [by intros [?|]|by left]. }
  split; [done| | |].
  - rewrite Hl. apply increasing_filter_seqs, (en_seqs _ _ Hs).
  - rewrite Hl. intros e [He _]%elem_of_filter_In. by apply (en_bound _ _ Hs).
  - intros e p He Hp. rewrite Hl in He. apply elem_of_filter_In in He as [He Hce].
    destruct (en_parents _ _ Hs e p He Hp) as (e' & H1 & H2). exists e'. split; [|done]. apply Hids. rewrite Hl.
    pose proof (entry_id _ _ Hs _ _ H1) as Hid. split; [|done]. apply elem_of_filter_In.
    split; [by eapply entry_elem|]. unfold copied. rewrite Hid. by eapply Hc.
Qed.

(** * The whole copy *)

Record fork_of (s d : StorageState) (plan : ForkPlan) : Prop := ForkOf {
  fk_entries : entriesBySeq d = List.filter (copied plan) (entriesBySeq s);
  fk_values : forall ns key, names_ok ns key -> value_at d ns key = value_at s ns key ≫= kept_value plan ns key;
  fk_lists : forall ns key, names_ok ns key ->
    elements_at (listValues d) (physicalKey ns key) = omap (kept_element plan ns key) (elements_at (listValues s) (physicalKey ns key));
  fk_usage : usage d = [];
  fk_next : nextSeq d = nextSeq s;
}.

Lemma build_fork_spec s plan d :
  session_inv s -> closed_plan s plan -> build_fork s plan new_StorageState = (d, Ok tt) -> session_inv d /\ fork_of s d plan.
Proof.
  intros Hs Hc H. apply sm_bind_Ok in H as (d1 & [] & H1 & H). rewrite copy_entries in H1. injection H1 as <-.
  apply sm_bind_Ok in H as (d2 & [] & [= <-] & H). apply sm_bind_Ok in H as (d3 & [] & H3 & H).
  apply sm_bind_Ok in H as (d4 & [] & H4 & [= <-]).
  set (d2 := on_stats _ _) in H3.
  assert (Hd2 : session_below (nextSeq s) d2).
  { pose proof new_StorageState_inv as [_ U0 D0 _ V0 L0]. split; cbn; try done.
    - apply (copied_entries_ok s plan); [apply (sn_entries _ _ Hs)|done|done|done].
    - split; [constructor|constructor|constructor|by intros r ?%elem_of_nil].
    - split; constructor.
    - split; constructor. }
  destruct (copy_values _ plan _ d2 d3 Hd2 (sn_values _ _ Hs)) as (Hd3 & Hs3 & Hg3); [done|exact H3|].
  assert (Hl3 : listValues d3 = []) by by rewrite Hs3.
  destruct (copy_lists _ plan _ d3 d4 Hd3 (sn_lists _ _ Hs)) as (Hd4 & Hs4 & Hg4); [by rewrite Hl3|exact H4|].
  unfold same_but_values in Hs3. unfold same_but_lists in Hs4.
  split; [by apply session_below_nextSeq|]. split; cbn; [by rewrite Hs4, Hs3| | |by rewrite Hs4, Hs3|done].
  - intros ns key Hn. transitivity (value_at d3 ns key); [unfold value_at, getValue; by rewrite Hs4|].
    rewrite (Hg3 ns key Hn). unfold value_at, getValue. cbn. by destruct (amap_get _ _).
  - intros ns key Hn. rewrite (Hg4 ns key Hn), Hl3. unfold elements_at. by destruct (amap_get (listValues s) _).
Qed.

(** * The selection of a branch *)

Section Select.
Context (s : StorageState) (bound : Seq) (Hs : entries_ok bound s).

Abbreviation getParent := (fun id => e_parentId <$> entries s !! id).

(** Where the destination branch starts. *)
Definition fork_point (before : bool) (path : list Entry) (requested destinationTip : option jsstr) : Prop :=
  match requested with
  | None => destinationTip = None
  | Some r => exists e, e ∈ path /\ e_id e = r /\ destinationTip = if before then e_parentId e else Some r
  end.

Lemma select_loop_step requested before fuel id e found dt sel :
  entries s !! id = Some e ->
  select_loop getParent requested before (S fuel) (Some id) found dt sel =
  if decide (Some id = requested) then
    select_loop getParent requested before fuel (e_parentId e) true (if before then e_parentId e else Some id)
      (if before then sel else {[id]} ∪ sel)
  else select_loop getParent requested before fuel (e_parentId e) found dt (if found then {[id]} ∪ sel else sel).
Proof using. intros He. cbn [select_loop]. by rewrite He. Qed.

(** The rest of the walk, past the requested entry or without it. *)
Lemma select_loop_rest requested before found dt tip path : ancestry s tip path -> forall fuel sel,
  (length path <= fuel)%nat -> (forall e, e ∈ path -> Some (e_id e) <> requested) ->
  exists sel', select_loop getParent requested before fuel tip found dt sel = Some (Ok (found, dt, sel')) /\
    forall id, id ∈ sel' <-> id ∈ sel \/ found = true /\ id ∈ e_id <$> path.
Proof using Hs.
  induction 1 as [|i e path He Ha IH]; intros fuel sel Hf Hne.
  - exists sel. split; [by destruct fuel|]. intros id. cbn. set_solver.
  - destruct fuel as [|fuel]; cbn in Hf; [lia|]. pose proof (entry_id _ _ Hs _ _ He) as Hid.
    rewrite (select_loop_step _ _ _ _ e) by done. rewrite decide_False by (rewrite <- Hid; apply Hne; by left).
    destruct (IH fuel (if found then {[i]} ∪ sel else sel)) as (sel' & E & Hsel'); [lia|intros; apply Hne; by right|].
    exists sel'. split; [done|]. intros id. rewrite Hsel', fmap_cons, elem_of_cons, Hid. destruct found; set_solver.
Qed.

Lemma parent_before e tip path : ancestry s tip path -> e ∈ path -> exists dpath, ancestry s (e_parentId e) dpath.
Proof using.
  induction 1 as [|i x path Hx Ha IH]; [by intros ?%elem_of_nil|]. intros [->|He]%elem_of_cons; [by eexists|by apply IH].
Qed.

Lemma on_path_once id e path : entries s !! id = Some e -> ancestry s (e_parentId e) path -> forall x, x ∈ path -> e_id x <> id.
Proof using Hs.
  intros He Ha x Hx E. apply (ancestry_on_path _ _ _ Ha) in Hx as (p & Hp & Hx).
  pose proof (elem_entry _ _ Hs x (on_path_elem _ _ Hs _ _ Hx)) as H1. rewrite E, He in H1. injection H1 as <-.
  destruct (en_parents _ _ Hs e p (entry_elem _ _ Hs _ _ He) Hp) as (e1 & H1 & Hlt).
  destruct (on_path_seq _ _ Hs _ _ _ H1 Hx) as [->|]; lia.
Qed.

Lemma select_loop_found r before tip path : ancestry s tip path -> forall fuel sel,
  (length path <= fuel)%nat -> r ∈ e_id <$> path -> (forall id, id ∉ sel) ->
  exists dt dpath sel', select_loop getParent (Some r) before fuel tip false None sel = Some (Ok (true, dt, sel')) /\
    fork_point before path (Some r) dt /\ ancestry s dt dpath /\ forall id, id ∈ sel' <-> id ∈ e_id <$> dpath.
Proof using Hs.
  induction 1 as [|i e path He Ha IH]; intros fuel sel Hf Hr Hsel; [by apply elem_of_nil in Hr|].
  destruct fuel as [|fuel]; cbn in Hf; [lia|]. pose proof (entry_id _ _ Hs _ _ He) as Hid.
  rewrite (select_loop_step _ _ _ _ e) by done. destruct (decide (Some i = Some r)) as [[= <-]|Hne].
  - destruct (select_loop_rest (Some i) before true (if before then e_parentId e else Some i) _ _ Ha fuel
      (if before then sel else {[i]} ∪ sel)) as (sel' & E & Hsel'); [lia| |].
    { intros x Hx [= E]. by eapply on_path_once. }
    exists (if before then e_parentId e else Some i), (if before then path else e :: path), sel'. split_and!; [done| | |].
    + exists e. split_and!; [by left|done|done].
    + destruct before; [done|by constructor].
    + intros id. rewrite Hsel'. destruct before; [|rewrite fmap_cons, elem_of_cons, Hid]; set_solver.
  - rewrite fmap_cons, Hid in Hr. apply elem_of_cons in Hr as [->|Hr]; [done|].
    destruct (IH fuel sel) as (dt & dpath & sel' & E & (x & Hx & Hx2) & H1 & H2); [lia|done|done|].
    exists dt, dpath, sel'. split_and!; [done| |done|done]. exists x. split; [by right|done].
Qed.

(** A tip is no entry, or has a path to the root. *)
Lemma tip_cases tip : (exists path, ancestry s tip path) \/ exists id, tip = Some id /\ entries s !! id = None.
Proof using Hs.
  destruct tip as [id|]; [|left; exists []; constructor].
  destruct (entries s !! id) as [e|] eqn:He; [left|right; eauto].
  destruct (ancestry_exists _ _ Hs e (entry_elem _ _ Hs _ _ He)) as [path Ha]. exists (e :: path). by constructor.
Qed.

Definition requested_of (entryId tip : option jsstr) : option jsstr := match entryId with Some id => Some id | None => tip end.

(** A selected branch: its tip is on the path of the source's tip, and what is
    selected is its path. *)
Definition branch_plan (branch : jsstr) (entryId : option jsstr) (before : bool) (tip : option jsstr) (plan : ForkPlan) : Prop :=
  exists path dt dpath ids, plan = PlanBranch branch dt ids /\ ancestry s tip path /\
    fork_point before path (requested_of entryId tip) dt /\ ancestry s dt dpath /\ forall id, id ∈ ids <-> id ∈ e_id <$> dpath.

Lemma selectBranchFork_outcome fuel branch entryId before tip :
  (length (entriesBySeq s) < fuel)%nat ->
  exists r, selectBranchFork getParent fuel branch entryId before (Some tip) = Some r /\
    match r with
    | Ok plan => branch_plan branch entryId before tip plan
    | Err _ => (exists id, tip = Some id /\ entries s !! id = None) \/
               exists path, ancestry s tip path /\ forall dt, ~ fork_point before path (requested_of entryId tip) dt
    end.
Proof using Hs.
  intros Hf. cbn [selectBranchFork]. fold (requested_of entryId tip).
  destruct (tip_cases tip) as [[path Ha]|(id & -> & Hid)].
  2:{ destruct fuel as [|fuel]; [lia|]. cbn. rewrite Hid. eexists. split; [reflexivity|]. left. eauto. }
  pose proof (ancestry_length _ _ Hs _ _ Ha) as Hlen.
  destruct (requested_of entryId tip) as [r|] eqn:Er.
  - rewrite (bool_decide_false (Some r = None)) by done. destruct (decide (r ∈ e_id <$> path)) as [Hr|Hr].
    + destruct (select_loop_found r before _ _ Ha fuel ∅) as (dt & dpath & ids & E & H1 & H2 & H3); [lia|done|set_solver|].
      rewrite E. cbn. eexists. split; [reflexivity|]. exists path, dt, dpath, ids. split_and!; [done|done|by rewrite Er|done|done].
    + destruct (select_loop_rest (Some r) before false None _ _ Ha fuel ∅) as (ids & E & _); [lia| |].
      { intros e He [= E]. apply Hr. rewrite <- E. by apply list_elem_of_fmap_2. }
      rewrite E. cbn. eexists. split; [reflexivity|]. right. exists path. split; [done|].
      intros dt (e & He & Hid & _). apply Hr. rewrite <- Hid. by apply list_elem_of_fmap_2.
  - assert (tip = None) as -> by (by destruct entryId). inversion Ha; subst. rewrite bool_decide_true by done.
    destruct fuel; cbn; (eexists; split; [reflexivity|]); exists [], None, [], ∅; (split_and!; [done|constructor|by rewrite Er|constructor|set_solver]).
Qed.
End Select.

(** * [createFork] *)

Lemma ancestry_closed s tip path : ancestry s tip path -> forall e p, e ∈ path -> e_parentId e = Some p ->
  exists e', e' ∈ path /\ entries s !! p = Some e'.
Proof.
  induction 1 as [|i x path Hx Ha IH]; intros e p He Hp; [by apply elem_of_nil in He|].
  apply elem_of_cons in He as [->|He].
  - rewrite Hp in Ha. inversion Ha; subst. eexists. split; [right; by left|done].
  - destruct (IH e p He Hp) as (e' & H1 & H2). exists e'. split; [by right|done].
Qed.

Lemma branch_plan_closed s bound branch dt ids dpath :
  entries_ok bound s -> ancestry s dt dpath -> (forall id, id ∈ ids <-> id ∈ e_id <$> dpath) -> closed_plan s (PlanBranch branch dt ids).
Proof.
  intros Hs Ha Hids e p He Hc Hp. cbn in Hc |- *. apply bool_decide_eq_true in Hc. apply bool_decide_eq_true.
  apply Hids, list_elem_of_fmap in Hc as (x & E & Hx).
  assert (Hxe : x ∈ entriesBySeq s) by (apply (ancestry_on_path _ _ _ Ha) in Hx as (i & _ & Hx); by eapply on_path_elem).
  pose proof (elem_entry _ _ Hs x Hxe) as H1. rewrite <- E, (elem_entry _ _ Hs e He) in H1. injection H1 as <-.
  destruct (ancestry_closed _ _ _ Ha e p Hx Hp) as (e' & H1 & H2). apply Hids.
  rewrite <- (entry_id _ _ Hs _ _ H2). by apply list_elem_of_fmap_2.
Qed.

(** The tip stored for a branch, as the code reads it. *)
Definition stored_tip (s : StorageState) (branch : jsstr) (tip : option jsstr) : Prop :=
  names_ok (js "shuvpi.branch.tip") branch /\ exists seq, value_at s (js "shuvpi.branch.tip") branch = Some (tip_to_json tip, seq).

Lemma address_Ok_inv kind ns key a : address kind ns key = Ok a -> names_ok ns key /\ a = Address_ kind ns key.
Proof. unfold address. intros H. apply bind_Ok in H as ([] & H1 & H2). by simplify_eq. Qed.

Lemma tip_of_json_Ok v tip : tip_of_json v = Ok tip -> v = tip_to_json tip.
Proof. destruct v; cbn; intros [= <-]; done. Qed.

Lemma stored_tip_intro s branch a v tip :
  branchTip branch = Ok a -> getValue s a = Some v -> tip_of_json (sv_value v) = Ok tip -> stored_tip s branch tip.
Proof.
  intros (Hn & ->)%address_Ok_inv Hv Ht%tip_of_json_Ok. split; [done|]. exists (sv_seq v).
  unfold value_at, getValue in *. cbn in *. rewrite Hv. cbn. by rewrite Ht.
Qed.

(** Enough fuel always gives a result; a plan that is selected is one of the
    source's tip. *)
Lemma selectForkPlan_outcome s fuel branch entryId before :
  session_inv s -> (length (entriesBySeq s) < fuel)%nat ->
  exists r, selectForkPlan s fuel (ForkBranch branch entryId before) = Some r /\
    forall plan, r = Ok plan -> exists tip, stored_tip s branch tip /\ branch_plan s branch entryId before tip plan.
Proof.
  intros Hs Hf. unfold selectForkPlan. destruct (branchTip branch) as [a|e] eqn:Ea; cbn [mbind result_bind]; [|by eexists].
  destruct (getValue s a) as [v|] eqn:Ev; [|by eexists].
  destruct (tip_of_json (sv_value v)) as [tip|] eqn:Et; cbn [fmap result_fmap]; [|by eexists].
  destruct (selectBranchFork_outcome s _ (sn_entries _ _ Hs) fuel branch entryId before tip Hf) as (r & E & Hr).
  rewrite E. cbn. eexists. split; [reflexivity|]. intros plan H. apply bind_Ok in H as (plan' & -> & H).
  apply bind_Ok in H as (_ & _ & [= ->]). exists tip. split; [by eapply stored_tip_intro|done].
Qed.

Lemma createFork_Ok s fuel options d :
  createFork s fuel options = Some (Ok d) <->
  exists plan, selectForkPlan s fuel options = Some (Ok plan) /\ build_fork s plan new_StorageState = (d, Ok tt).
Proof.
  unfold createFork. split.
  - destruct (selectForkPlan s fuel options) as [[plan|]|]; cbn; try done. intros H. exists plan. split; [done|].
    destruct (build_fork s plan new_StorageState) as [d' [[]|]]; cbn in H; by simplify_eq.
  - intros (plan & -> & E). cbn. by rewrite E.
Qed.

Lemma createFork_total s fuel options :
  session_inv s -> (length (entriesBySeq s) < fuel)%nat -> exists r, createFork s fuel options = Some r.
Proof.
  intros Hs Hf. unfold createFork. destruct options as [branch entryId before|]; [|by eexists].
  destruct (selectForkPlan_outcome s fuel branch entryId before Hs Hf) as (r & -> & _). by eexists.
Qed.

(** The entries of a branch fork are the path of its tip. *)
Lemma fork_of_branch_entries s d branch dt ids dpath :
  session_inv s -> fork_of s d (PlanBranch branch dt ids) -> ancestry s dt dpath ->
  (forall id, id ∈ ids <-> id ∈ e_id <$> dpath) -> forall e, e ∈ entriesBySeq d <-> e ∈ dpath.
Proof.
  intros Hs Hf Ha Hids e. pose proof (sn_entries _ _ Hs) as He. rewrite (fk_entries _ _ _ Hf), elem_of_filter_In.
  unfold copied, isEntryCopied. rewrite bool_decide_eq_true, Hids.
  assert (Hp : forall x, x ∈ dpath -> x ∈ entriesBySeq s).
  { intros x (i & _ & Hx)%(ancestry_on_path _ _ _ Ha). by eapply on_path_elem. }
  split; [|intros H; split; [by apply Hp|by apply list_elem_of_fmap_2]].
  intros [Hin (x & E & Hx)%list_elem_of_fmap]. pose proof (elem_entry _ _ He e Hin) as H1.
  rewrite E, (elem_entry _ _ He x (Hp x Hx)) in H1. injection H1 as <-. done.
Qed.

(** The path is a path of the destination too. *)
Lemma fork_ancestry s d tip path :
  session_inv s -> session_inv d -> (forall e, e ∈ path -> e ∈ entriesBySeq d) -> ancestry s tip path -> ancestry d tip path.
Proof.
  intros Hs Hd Hin Ha. induction Ha as [|i e path He Ha IH]; constructor.
  - pose proof (entry_id _ _ (sn_entries _ _ Hs) _ _ He) as <-. apply (elem_entry _ _ (sn_entries _ _ Hd)), Hin. by left.
  - apply IH. intros x Hx. apply Hin. by right.
Qed.

Lemma fork_tip s d branch dt ids tip :
  fork_of s d (PlanBranch branch dt ids) -> stored_tip s branch tip -> stored_tip d branch dt.
Proof.
  intros Hf (Hn & seq & Hv). split; [done|]. exists seq. rewrite (fk_values _ _ _ Hf _ _ Hn), Hv. cbn.
  unfold kept_value, kept, projectForkCurrentStateWrite. cbn [p_namespace p_key].
  by rewrite decide_True.
Qed.

(** * The namespaces *)

(** Namespaces of applications, and those of work in flight. *)
Definition application (ns : jsstr) : Prop := ns <> js "shuvpi" /\ starts_with ns (js "shuvpi.") = false.
Definition in_flight (ns : jsstr) : Prop :=
  ns = js "shuvpi.result" \/ starts_with ns (js "shuvpi.op.") = true \/ starts_with ns (js "shuvpi.pending.") = true.

Lemma starts_with_prefix a p q : starts_with a (p ++ q) = true -> starts_with a p = true.
Proof.
  unfold starts_with. rewrite !bool_decide_eq_true. intros H.
  apply (f_equal (take (length p))) in H. rewrite take_take, take_app_length in H. etrans; [|exact H].
  f_equal. rewrite length_app. lia.
Qed.

(** [ns_no] decides against a reserved name by evaluating its prefix. *)
Ltac ns_no :=
  repeat match goal with
  | |- context [ns_is ?ns ?name] =>
      let E := fresh in destruct (ns_is ns name) eqn:E;
      [apply bool_decide_eq_true in E; subst ns; (done || (exfalso; vm_compute in *; intuition congruence))|]
  end.

Lemma application_policy w plan copied_ :
  application (p_namespace w) -> projectForkCurrentStateWrite w plan copied_ = Ok (if is_tree plan then Some w else None).
Proof.
  destruct w as [kind seq ns key v]. cbn [p_namespace]. intros [Hne Hp]. unfold projectForkCurrentStateWrite. cbn [p_namespace].
  assert (H1 : starts_with ns (js "shuvpi.op.") = false).
  { apply not_true_iff_false. intros H. apply (starts_with_prefix ns (js "shuvpi.") (js "op.")) in H. congruence. }
  assert (H2 : starts_with ns (js "shuvpi.pending.") = false).
  { apply not_true_iff_false. intros H. apply (starts_with_prefix ns (js "shuvpi.") (js "pending.")) in H. congruence. }
  rewrite H1, H2, Hp. ns_no. done.
Qed.

Lemma in_flight_policy w plan copied_ :
  in_flight (p_namespace w) -> projectForkCurrentStateWrite w plan copied_ = Ok None.
Proof.
  destruct w as [kind seq ns key v]. cbn [p_namespace]. unfold in_flight, projectForkCurrentStateWrite. cbn [p_namespace].
  intros H. ns_no. destruct H as [->|[->| ->]]; [done|done|]. by rewrite orb_true_r.
Qed.

Lemma application_kept plan kind ns key v seq : application ns -> kept plan kind ns key v seq = if is_tree plan then Some (v, seq) else None.
Proof. intros H. unfold kept. rewrite application_policy by done. by destruct (is_tree plan). Qed.

Lemma in_flight_kept plan kind ns key v seq : in_flight ns -> kept plan kind ns key v seq = None.
Proof. intros H. unfold kept. by rewrite in_flight_policy. Qed.

Lemma lane_state_kept plan key v seq w :
  kept_value plan (js "shuvpi.lane.state") key (v, seq) = Some w -> fst w = idle_lane_state.
Proof.
  unfold kept_value, kept, projectForkCurrentStateWrite. cbn [p_namespace p_key].
  change (ns_is (js "shuvpi.lane.state")) with (fun name => bool_decide (js "shuvpi.lane.state" = js name)). cbn beta.
  destruct (on_branch plan key); cbn; by intros [= <-].
Qed.

Lemma omap_nothing {A B} (f : A -> option B) (l : list A) : (forall x, f x = None) -> omap f l = [].
Proof. intros H. induction l as [|x l IH]; cbn; [done|]. by rewrite H. Qed.

Lemma omap_all {A} (f : A -> option A) (l : list A) : (forall x, f x = Some x) -> omap f l = l.
Proof. intros H. induction l as [|x l IH]; cbn; [done|]. rewrite H. by f_equal. Qed.

Definition whole_tree (options : ForkOptions) : bool := match options with ForkTree => true | ForkBranch _ _ _ => false end.

(** Every fork that succeeds, in one place. *)
Lemma createFork_result s fuel options d :
  session_inv s -> (length (entriesBySeq s) < fuel)%nat -> createFork s fuel options = Some (Ok d) ->
  exists plan, selectForkPlan s fuel options = Some (Ok plan) /\ is_tree plan = whole_tree options /\
    session_inv d /\ fork_of s d plan.
Proof.
  intros Hs Hf (plan & Hp & Hb)%createFork_Ok. exists plan. split; [done|].
  assert (Hc : closed_plan s plan /\ is_tree plan = whole_tree options) by
    (destruct options as [branch entryId before|]; [|injection Hp as <-; split; [by intros e p|done]];
     destruct (selectForkPlan_outcome s fuel branch entryId before Hs Hf) as (r & E & Hr); rewrite E in Hp; injection Hp as ->;
     destruct (Hr plan eq_refl) as (tip & _ & path & dt & dpath & ids & -> & _ & _ & Ha & Hids);
     split; [eapply branch_plan_closed; [apply (sn_entries _ _ Hs)|done|done]|done]).
  destruct Hc as [Hc Ht]. split; [done|]. by apply build_fork_spec.
Qed.
