(* ===== verification/JsonlCodec.v ===== *)
(** The lines of a session file: [packages/agent/src/harness/session/jsonl/types.ts],
    [codec.ts] and the transactions of [io.ts]; the records are read back as they
    are written.

    A record is an object whose optional members are present or not.  The code
    checks a few members and casts the rest; where a member it casts has not the
    type its interface names, the model stops with [JsonlUntyped], and says
    nothing of what the code goes on to do. *)
From Stdlib Require Import Sorted.
From S2P Require Import Prelude JsBase Json JsonText JsFloat JsonParse SessionTypes.

Inductive jsonl_err : Type :=
| JsonlError (msg : string)
| JsonlSession (e : session_err)
| JsonlUntyped.

Abbreviation jresult := (result jsonl_err).

(** * Members *)

(** An object literal, in creation order, less the members that are undefined. *)
Abbreviation members := (list (string * option json)).

Fixpoint present (l : members) : list (jsstr * json) :=
  match l with
  | [] => []
  | (name, Some v) :: l => (js name, v) :: present l
  | (_, None) :: l => present l
  end.

Definition object (l : members) : json := JObj (present l).

Definition member_of (name : string) (v : json) : option json :=
  match v with JObj o => obj_get o (js name) | _ => None end.

(** The types of members. *)
Definition as_string (v : json) : option jsstr := match v with JStr s => Some s | _ => None end.
Definition as_number (v : json) : option jsnum := match v with JNum n => Some n | _ => None end.
Definition as_boolean (v : json) : option bool := match v with JBool b => Some b | _ => None end.
Definition as_array (v : json) : option (list json) := match v with JArr l => Some l | _ => None end.
Definition as_true (v : json) : option bool := match v with JBool true => Some true | _ => None end.
Definition as_string_or_null (v : json) : option (option jsstr) :=
  match v with JStr s => Some (Some s) | JNull => Some None | _ => None end.

Definition required {A} (name : string) (read : json -> option A) (v : json) : option A := member_of name v ≫= read.

Definition optional {A} (name : string) (read : json -> option A) (v : json) : option (option A) :=
  match member_of name v with
  | None => Some None
  | Some m => Some <$> read m
  end.

Definition string_or_null (s : option jsstr) : json := match s with Some s => JStr s | None => JNull end.

(** * Usage *)

Definition cost_members (c : Cost) : members :=
  [("input"%string, Some (JNum (c_input c))); ("output"%string, Some (JNum (c_output c)));
   ("cacheRead"%string, Some (JNum (c_cacheRead c))); ("cacheWrite"%string, Some (JNum (c_cacheWrite c)));
   ("total"%string, Some (JNum (c_total c)))].

Definition usage_members (u : Usage) : members :=
  [("input"%string, Some (JNum (u_input u))); ("output"%string, Some (JNum (u_output u)));
   ("cacheRead"%string, Some (JNum (u_cacheRead u))); ("cacheWrite"%string, Some (JNum (u_cacheWrite u)));
   ("cacheWrite1h"%string, JNum <$> u_cacheWrite1h u); ("reasoning"%string, JNum <$> u_reasoning u);
   ("totalTokens"%string, Some (JNum (u_totalTokens u))); ("cost"%string, Some (object (cost_members (u_cost u))))].

Definition json_of_usage (u : Usage) : json := object (usage_members u).

Definition cost_of_json (v : json) : option Cost :=
  i ← required "input" as_number v; o ← required "output" as_number v; r ← required "cacheRead" as_number v;
  w ← required "cacheWrite" as_number v; t ← required "total" as_number v;
  Some (Cost_ i o r w t).

Definition usage_of_json (v : json) : option Usage :=
  i ← required "input" as_number v; o ← required "output" as_number v; r ← required "cacheRead" as_number v;
  w ← required "cacheWrite" as_number v; w1h ← optional "cacheWrite1h" as_number v;
  reasoning ← optional "reasoning" as_number v; t ← required "totalTokens" as_number v; c ← required "cost" cost_of_json v;
  Some (Usage_ i o r w w1h reasoning t c).

(** * Committed writes *)

Definition type_name (t : EntryType) : jsstr :=
  match t with
  | TypeMessage => js "message"
  | TypeCompaction => js "compaction"
  | TypeBranchSummary => js "branch_summary"
  | TypeCustom => js "custom"
  end.

Definition type_of_name (s : jsstr) : option EntryType :=
  List.find (fun t => bool_decide (type_name t = s)) [TypeMessage; TypeCompaction; TypeBranchSummary; TypeCustom].

Definition body_members (b : EntryBody) : members :=
  match b with
  | MessageEntry message terminate =>
      [("message"%string, Some message); ("terminate"%string, if terminate then Some (JBool true) else None)]
  | CompactionEntry summary retainedTail tokensBefore details usage fromHook =>
      [("summary"%string, Some (JStr summary)); ("retainedTail"%string, Some (JArr retainedTail));
       ("tokensBefore"%string, Some (JNum tokensBefore)); ("details"%string, details);
       ("usage"%string, json_of_usage <$> usage); ("fromHook"%string, Some (JBool fromHook))]
  | BranchSummaryEntry fromId summary details usage fromHook =>
      [("fromId"%string, Some (string_or_null fromId)); ("summary"%string, Some (JStr summary)); ("details"%string, details);
       ("usage"%string, json_of_usage <$> usage); ("fromHook"%string, Some (JBool fromHook))]
  | CustomEntry data => [("data"%string, data)]
  end.

(** [{ kind: "entry", ...write.entry, seq, timestamp }] *)
Definition entry_members (e : Entry) : members :=
  [("kind"%string, Some (JStr (js "entry"))); ("id"%string, Some (JStr (e_id e)));
   ("parentId"%string, Some (string_or_null (e_parentId e))); ("type"%string, Some (JStr (type_name (e_type e))));
   ("customType"%string, JStr <$> e_customType e)] ++
  body_members (ne_body (e_new e)) ++
  [("seq"%string, Some (JNum (NInt (e_seq e)))); ("timestamp"%string, Some (JNum (e_timestamp e)))].

(** [{ kind: "usage", ...write.row, seq }] *)
Definition row_members (r : UsageRow) : members :=
  [("kind"%string, Some (JStr (js "usage"))); ("id"%string, Some (JStr (ur_id r)));
   ("usage"%string, Some (json_of_usage (ur_usage r))); ("entryId"%string, JStr <$> ud_entryId (ur_draft r));
   ("adjustment"%string, Some (JBool (ud_adjustment (ur_draft r)))); ("details"%string, ud_details (ur_draft r));
   ("seq"%string, Some (JNum (NInt (ur_seq r))))].

Definition kind_name (kind : StoredKind) : jsstr := match kind with KindValue => js "value" | KindList => js "list" end.
Definition put_name (kind : StoredKind) : jsstr := match kind with KindValue => js "set" | KindList => js "append" end.

Definition write_members (w : CommittedWrite) : members :=
  match w with
  | CommittedEntry e => entry_members e
  | CommittedUsage r => row_members r
  | CommittedPutWrite p =>
      [("kind"%string, Some (JStr (kind_name (p_kind p)))); ("op"%string, Some (JStr (put_name (p_kind p))));
       ("seq"%string, Some (JNum (NInt (p_seq p)))); ("namespace"%string, Some (JStr (p_namespace p)));
       ("key"%string, Some (JStr (p_key p))); ("value"%string, Some (p_value p))]
  | CommittedDelete kind seq namespace key =>
      [("kind"%string, Some (JStr (kind_name kind))); ("op"%string, Some (JStr (js "delete")));
       ("seq"%string, Some (JNum (NInt seq))); ("namespace"%string, Some (JStr namespace)); ("key"%string, Some (JStr key))]
  end.

Definition json_of_write (w : CommittedWrite) : json := object (write_members w).

(** What the casts of [parseCommittedWrite] claim. *)
Definition body_of_json (type : EntryType) (v : json) : option EntryBody :=
  match type with
  | TypeMessage =>
      m ← required "message" Some v; t ← optional "terminate" as_true v;
      Some (MessageEntry m (default false t))
  | TypeCompaction =>
      s ← required "summary" as_string v; r ← required "retainedTail" as_array v; t ← required "tokensBefore" as_number v;
      d ← optional "details" Some v; u ← optional "usage" usage_of_json v; h ← required "fromHook" as_boolean v;
      Some (CompactionEntry s r t d u h)
  | TypeBranchSummary =>
      f ← required "fromId" as_string_or_null v; s ← required "summary" as_string v;
      d ← optional "details" Some v; u ← optional "usage" usage_of_json v; h ← required "fromHook" as_boolean v;
      Some (BranchSummaryEntry f s d u h)
  | TypeCustom => d ← optional "data" Some v; Some (CustomEntry d)
  end.

Definition entry_of_json (seq : Seq) (v : json) : option CommittedWrite :=
  id ← required "id" as_string v; p ← required "parentId" as_string_or_null v; name ← required "type" as_string v;
  type ← type_of_name name; c ← optional "customType" as_string v; b ← body_of_json type v;
  t ← required "timestamp" as_number v;
  Some (CommittedEntry (Entry_ (NewEntry_ id p c b) seq t)).

Definition row_of_json (seq : Seq) (v : json) : option CommittedWrite :=
  id ← required "id" as_string v; u ← required "usage" usage_of_json v; e ← optional "entryId" as_string v;
  a ← required "adjustment" as_boolean v; d ← optional "details" Some v;
  Some (CommittedUsage (UsageRow_ (UsageDraft_ id u e a d) seq)).

Definition put_of_json (kind : StoredKind) (seq : Seq) (v : json) : option CommittedWrite :=
  n ← required "namespace" as_string v; k ← required "key" as_string v; x ← required "value" Some v;
  Some (CommittedPutWrite (Put_ kind seq n k x)).

Definition delete_of_json (kind : StoredKind) (seq : Seq) (v : json) : option CommittedWrite :=
  n ← required "namespace" as_string v; k ← required "key" as_string v;
  Some (CommittedDelete kind seq n k).

Definition isRecord (v : json) : bool := match v with JObj _ => true | _ => false end.

(** [value === text] *)
Definition is_text (v : option json) (text : string) : bool := bool_decide (v = Some (JStr (js text))).

(** [Number.isSafeInteger(value) && value >= minimum] *)
Definition isSafeIntegerAtLeast (v : option json) (minimum : Z) : bool :=
  match v with
  | Some (JNum n) => isSafeInteger n && match n with NInt z => minimum <=? z | NFlt _ => minimum <=? 0 end
  | _ => false
  end.

Definition requireSafeInteger (v : option json) (field : string) (minimum : Z) : jresult unit :=
  throw_if (negb (isSafeIntegerAtLeast v minimum)) (JsonlError (String.append "Invalid JSONL " field)).

Definition cast (w : option CommittedWrite) : jresult CommittedWrite := ok_or JsonlUntyped w.

(** A sequence that passes its check. *)
Definition seq_of (v : json) : Seq := match member_of "seq" v with Some (JNum (NInt z)) => z | _ => 0 end.

Definition parseCommittedWrite (value : json) : jresult CommittedWrite :=
  throw_if (negb (isRecord value)) (JsonlError "Invalid JSONL transaction write");;
  requireSafeInteger (member_of "seq" value) "write seq" 1;;
  let kind := member_of "kind" value in
  let op := member_of "op" value in
  let seq := seq_of value in
  if is_text kind "entry" then
    requireSafeInteger (member_of "timestamp" value) "entry timestamp" 0;;
    cast (entry_of_json seq value)
  else if is_text kind "usage" then cast (row_of_json seq value)
  else if is_text kind "value" then
    if is_text op "set" then cast (put_of_json KindValue seq value)
    else if is_text op "delete" then cast (delete_of_json KindValue seq value)
    else Err (JsonlError "Invalid JSONL value operation")
  else if is_text kind "list" then
    if is_text op "append" then cast (put_of_json KindList seq value)
    else if is_text op "delete" then cast (delete_of_json KindList seq value)
    else Err (JsonlError "Invalid JSONL list operation")
  else Err (JsonlError "Invalid JSONL write kind").

(** * Transactions *)

Fixpoint map_result {A B} (f : A -> jresult B) (l : list A) : jresult (list B) :=
  match l with
  | [] => Ok []
  | a :: l => b ← f a; bs ← map_result f l; Ok (b :: bs)
  end.

Definition parseJsonlTransaction (line : jsstr) : jresult (list CommittedWrite) :=
  match parse line with
  | None => Err (JsonlError "Invalid JSONL transaction: not valid JSON")
  | Some (JArr values) => map_result parseCommittedWrite values
  | Some value => map_result parseCommittedWrite [value]
  end.

Definition serializeJsonlTransaction (writes : list CommittedWrite) : jsstr :=
  stringify match writes with [w] => json_of_write w | _ => JArr (json_of_write <$> writes) end.

(** * Headers *)

Definition JSONL_FORMAT_VERSION : Z := 4.
Definition JSONL_STORAGE_VERSION : Z := 1.

Record JsonlStorageHeader : Type := Header_ {
  h_id : jsstr;
  h_storageVersion : jsnum;
  h_createdAt : jsnum;
  h_cwd : jsstr;
  h_parentSessionId : option jsstr;
  h_legacyParentSessionPath : option jsstr;
  h_nextSeq : option jsnum;
}.

Record LegacyV3SessionHeader : Type := LegacyHeader_ {
  l_id : jsstr;
  l_timestamp : jsstr;
  l_cwd : jsstr;
  l_parentSession : option jsstr;
}.

Inductive JsonlParsedSessionHeader : Type :=
| HeaderV4 (header : JsonlStorageHeader)
| HeaderV3 (header : LegacyV3SessionHeader).

Definition header_members (h : JsonlStorageHeader) : members :=
  [("v"%string, Some (JNum (NInt JSONL_FORMAT_VERSION))); ("kind"%string, Some (JStr (js "header")));
   ("id"%string, Some (JStr (h_id h))); ("storageVersion"%string, Some (JNum (h_storageVersion h)));
   ("createdAt"%string, Some (JNum (h_createdAt h))); ("cwd"%string, Some (JStr (h_cwd h)));
   ("parentSessionId"%string, JStr <$> h_parentSessionId h);
   ("legacyParentSessionPath"%string, JStr <$> h_legacyParentSessionPath h); ("nextSeq"%string, JNum <$> h_nextSeq h)].

Definition json_of_header (h : JsonlStorageHeader) : json := object (header_members h).

Definition is_string (v : option json) : bool := match v with Some (JStr _) => true | _ => false end.
Definition absent_or (test : option json -> bool) (v : option json) : bool := match v with None => true | Some _ => test v end.

Definition isJsonlStorageHeader (value : json) : bool :=
  let m name := member_of name value in
  isRecord value && is_text (m "kind"%string) "header" && bool_decide (m "v"%string = Some (JNum (NInt JSONL_FORMAT_VERSION))) &&
  is_string (m "id"%string) && is_string (m "cwd"%string) && isSafeIntegerAtLeast (m "storageVersion"%string) 1 &&
  isSafeIntegerAtLeast (m "createdAt"%string) 0 && absent_or (fun v => isSafeIntegerAtLeast v 1) (m "nextSeq"%string) &&
  absent_or is_string (m "parentSessionId"%string) && absent_or is_string (m "legacyParentSessionPath"%string).

Definition header_of_json (v : json) : option JsonlStorageHeader :=
  id ← required "id" as_string v; s ← required "storageVersion" as_number v; c ← required "createdAt" as_number v;
  cwd ← required "cwd" as_string v; p ← optional "parentSessionId" as_string v;
  l ← optional "legacyParentSessionPath" as_string v; n ← optional "nextSeq" as_number v;
  Some (Header_ id s c cwd p l n).

Definition legacy_of_json (v : json) : option LegacyV3SessionHeader :=
  id ← required "id" as_string v; t ← required "timestamp" as_string v; c ← required "cwd" as_string v;
  p ← optional "parentSession" as_string v;
  Some (LegacyHeader_ id t c p).

Section Headers.
(** [Number.isFinite(Date.parse(s))], which the language leaves to the engine
    for most texts. *)
Variable is_date : jsstr -> bool.

Definition isLegacyV3SessionHeader (value : json) : bool :=
  let m name := member_of name value in
  isRecord value && is_text (m "type"%string) "session" && bool_decide (m "version"%string = Some (JNum (NInt 3))) &&
  is_string (m "id"%string) && is_string (m "cwd"%string) && is_string (m "timestamp"%string) &&
  match m "timestamp"%string with Some (JStr t) => is_date t | _ => false end &&
  absent_or is_string (m "parentSession"%string).

Definition parseJsonlSessionHeader (line : jsstr) : jresult JsonlParsedSessionHeader :=
  match parse line with
  | None => Err (JsonlError "Invalid JSONL session header: not valid JSON")
  | Some value =>
      if isJsonlStorageHeader value then HeaderV4 <$> ok_or JsonlUntyped (header_of_json value)
      else if isLegacyV3SessionHeader value then HeaderV3 <$> ok_or JsonlUntyped (legacy_of_json value)
      else Err (JsonlError "Unsupported JSONL session header")
  end.
End Headers.

(** * Members of an object literal *)

Lemma js_inj a b : js a = js b -> a = b.
Proof.
  revert b. induction a as [|x a IH]; intros [|y b]; try done. rewrite !js_cons. intros [= Hx Hs]. f_equal; [|by apply IH].
  rewrite <- (Ascii.ascii_nat_embedding x), <- (Ascii.ascii_nat_embedding y). f_equal. lia.
Qed.

Fixpoint member_in (l : members) (name : string) : option json :=
  match l with
  | [] => None
  | (n, v) :: l => if String.eqb n name then v else member_in l name
  end.

Lemma present_keys l k : k ∈ obj_keys (present l) -> exists n, n ∈ l.*1 /\ k = js n.
Proof.
  induction l as [|[n [v|]] l IH]; cbn; [by intros ?%elem_of_nil| |].
  - intros [->|H]%elem_of_cons; [exists n; split; [by left|done]|]. destruct (IH H) as (m & Hm & ->). exists m. split; [by right|done].
  - intros H. destruct (IH H) as (m & Hm & ->). exists m. split; [by right|done].
Qed.

Lemma member_of_object l name : NoDup l.*1 -> member_of name (object l) = member_in l name.
Proof.
  cbn. induction l as [|[n v] l IH]; [done|]. cbn. intros [Hn Hl]%NoDup_cons. destruct (String.eqb_spec n name) as [->|Hne].
  - assert (obj_get (present l) (js name) = None) as Hg.
    { apply obj_get_None. intros (m & Hm & <-%js_inj)%present_keys. done. }
    destruct v as [v|]; [cbn; by rewrite decide_True|done].
  - destruct v as [v|]; [|by apply IH]. cbn. rewrite decide_False; [by apply IH|]. by intros ?%js_inj.
Qed.

(** No name spells an array index, so an object lists them as written. *)
Definition plain (n : string) : bool := bool_decide (array_index (js n) = None).

Definition plain_names (l : list string) : Prop := NoDup l /\ Forall (fun n => plain n = true) l.

Lemma object_sorted l : plain_names l.*1 -> obj_sorted (present l).
Proof.
  intros [Hnd Hp]. induction l as [|[n v] l IH]; cbn in *; [constructor|].
  apply NoDup_cons in Hnd as [Hn Hnd]. apply Forall_cons in Hp as [Hn0 Hp]. destruct v as [v|]; [|by apply IH].
  apply obj_sorted_cons. split; [by apply IH|]. apply Forall_forall. intros k (m & Hm & ->)%present_keys.
  rewrite Forall_forall in Hp. specialize (Hp m Hm). unfold plain in Hn0, Hp. apply bool_decide_eq_true in Hn0, Hp.
  unfold key_before. rewrite Hn0, Hp. intros E%js_inj. by subst.
Qed.

(** * What can be written *)

(** A value that [JSON.stringify] keeps. *)
Definition writable (v : json) : Prop := json_wf v /\ json_prints v = true.

Definition writable_members (l : members) : Prop := Forall (fun m : string * option json => from_option writable True (snd m)) l.

Lemma writable_str s : str_wf s -> writable (JStr s).
Proof. intros H. split; [by constructor|done]. Qed.

Lemma writable_integer z : Z.abs z <= 2 ^ 53 -> writable (JNum (NInt z)).
Proof. intros H. split; [by repeat constructor|by apply num_prints_integer]. Qed.

Lemma writable_arr l : Forall writable l -> writable (JArr l).
Proof.
  intros H. split.
  - constructor. eapply Forall_impl; [exact H|]. by intros v [? _].
  - apply forallb_Forall. eapply Forall_impl; [exact H|]. by intros v [_ ?].
Qed.

Lemma writable_object l : plain_names l.*1 -> writable_members l -> writable (object l).
Proof.
  intros Hn Hl. assert (Forall (fun kv => str_wf (fst kv) /\ writable (snd kv)) (present l)) as H.
  { clear Hn. induction Hl as [|[n [v|]] l Hv _ IH]; cbn; [constructor| |done]. constructor; [split; [apply js_str_wf|done]|done]. }
  split.
  - constructor; [by apply object_sorted|..]; (eapply Forall_impl; [exact H|]); [by intros kv [? _]|by intros kv [_ [? _]]].
  - apply forallb_Forall. eapply Forall_impl; [exact H|]. by intros kv [_ [_ ?]].
Qed.

Lemma writable_parse v : writable v -> parse (stringify v) = Some v.
Proof. intros [? ?]. by apply parse_stringify. Qed.

Definition valid_seq (n : Seq) : Prop := 1 <= n <= MAX_SAFE_INTEGER.
Definition valid_time (t : jsnum) : Prop := exists z, t = NInt z /\ 0 <= z <= MAX_SAFE_INTEGER.

Definition write_time (w : CommittedWrite) : option jsnum :=
  match w with CommittedEntry e => Some (e_timestamp e) | _ => None end.

Record writable_write (w : CommittedWrite) : Prop := WritableWrite {
  ww_members : writable_members (write_members w);
  ww_seq : valid_seq (write_seq w);
  ww_time : from_option valid_time True (write_time w);
}.

(** * Reading a record back *)

Ltac plain_members := by split; [apply (bool_decide_unpack _); vm_compute|repeat constructor].

Lemma usage_names u : plain_names (usage_members u).*1.
Proof. plain_members. Qed.

Lemma cost_names c : plain_names (cost_members c).*1.
Proof. plain_members. Qed.

Lemma write_names w : plain_names (write_members w).*1.
Proof. destruct w as [[[id p c []] seq t]|[[id u e a d] seq]|[[] seq n k v]|[] seq n k]; plain_members. Qed.

Lemma header_names h : plain_names (header_members h).*1.
Proof. plain_members. Qed.

(** [read_members H] looks up the members of the object with the names [H]. *)
Ltac read_members H := unfold required, optional; rewrite !(member_of_object _ _ (proj1 H)).

Lemma cost_read c : cost_of_json (object (cost_members c)) = Some c.
Proof. unfold cost_of_json. read_members (cost_names c). by destruct c. Qed.

Lemma usage_read u : usage_of_json (json_of_usage u) = Some u.
Proof.
  unfold usage_of_json, json_of_usage. read_members (usage_names u). cbn -[cost_of_json object]. rewrite cost_read.
  destruct u as [? ? ? ? [] [] ? ?]; done.
Qed.

Lemma string_or_null_read s : as_string_or_null (string_or_null s) = Some s.
Proof. by destruct s. Qed.

Lemma type_read t : type_of_name (type_name t) = Some t.
Proof. by destruct t. Qed.

Lemma body_read e : body_of_json (e_type e) (object (entry_members e)) = Some (ne_body (e_new e)).
Proof.
  pose proof (write_names (CommittedEntry e)) as Hn. cbn [write_members] in Hn.
  destruct e as [[id p c b] seq t]. destruct b as [m x|s r n d u h|f s d u h|d]; cbn [body_of_json e_type ne_body e_new] in *;
    read_members Hn; cbn -[usage_of_json json_of_usage string_or_null]; rewrite ?string_or_null_read; try (destruct x);
    try (destruct d); try (destruct u; cbn -[usage_of_json json_of_usage]; rewrite ?usage_read); done.
Qed.

Lemma entry_read e : entry_of_json (e_seq e) (object (entry_members e)) = Some (CommittedEntry e).
Proof.
  unfold entry_of_json. pose proof (write_names (CommittedEntry e)) as Hn. cbn [write_members] in Hn. pose proof (body_read e) as Hb.
  set (v := object (entry_members e)) in *.
  assert (required "id" as_string v = Some (e_id e)) as -> by (unfold v; by read_members Hn).
  assert (required "parentId" as_string_or_null v = Some (e_parentId e)) as ->.
  { unfold v. read_members Hn. apply string_or_null_read. }
  assert (required "type" as_string v = Some (type_name (e_type e))) as -> by (unfold v; by read_members Hn).
  assert (optional "customType" as_string v = Some (e_customType e)) as ->.
  { unfold v. read_members Hn. cbn. by destruct (e_customType e). }
  assert (required "timestamp" as_number v = Some (e_timestamp e)) as ->.
  { unfold v. read_members Hn. by destruct e as [[id p c []] seq t]. }
  cbn -[type_of_name body_of_json]. rewrite type_read. cbn -[body_of_json]. rewrite Hb. by destruct e as [[id p c b] seq t].
Qed.

Lemma row_read r : row_of_json (ur_seq r) (object (row_members r)) = Some (CommittedUsage r).
Proof.
  unfold row_of_json. read_members (write_names (CommittedUsage r)). cbn -[usage_of_json json_of_usage]. rewrite usage_read.
  destruct r as [[id u [] a []] seq]; done.
Qed.

Lemma isSafeIntegerAtLeast_int z m : m <= z -> Z.abs z <= MAX_SAFE_INTEGER -> isSafeIntegerAtLeast (Some (JNum (NInt z))) m = true.
Proof. intros H1 H2. cbn. by rewrite !(proj2 (Z.leb_le _ _)). Qed.

Lemma member_seq w : member_of "seq" (json_of_write w) = Some (JNum (NInt (write_seq w))).
Proof.
  unfold json_of_write. rewrite member_of_object by apply write_names.
  by destruct w as [[[id p c []] seq t]|[[id u e a d] seq]|[[] seq n k v]|[] seq n k].
Qed.

(** A write is read back from its record. *)
Lemma parse_write w : writable_write w -> parseCommittedWrite (json_of_write w) = Ok w.
Proof.
  intros [_ [Hs1 Hs2] Ht]. unfold parseCommittedWrite. cbn [isRecord json_of_write object negb]. cbn [throw_if].
  unfold requireSafeInteger, seq_of. rewrite member_seq. rewrite isSafeIntegerAtLeast_int by (unfold MAX_SAFE_INTEGER in *; lia).
  unfold json_of_write. rewrite !(member_of_object _ _ (proj1 (write_names w))). destruct w as [e|r|p|kind seq n k]; cbn [write_members write_seq].
  - assert (member_in (entry_members e) "timestamp" = Some (JNum (e_timestamp e))) as -> by by destruct e as [[id p c []] seq t].
    destruct Ht as (t & Et & Ht). rewrite Et, isSafeIntegerAtLeast_int by (unfold MAX_SAFE_INTEGER in *; lia).
    cbn -[entry_of_json object]. by rewrite entry_read.
  - cbn -[row_of_json object]. by rewrite row_read.
  - destruct p as [[] seq n k v]; done.
  - destruct kind; done.
Qed.

(** * Lines *)

Lemma writable_write_json w : writable_write w -> writable (json_of_write w).
Proof. intros [H _ _]. by apply writable_object; [apply write_names|]. Qed.

(** The value a transaction is written as. *)
Definition json_of_transaction (writes : list CommittedWrite) : json :=
  match writes with [w] => json_of_write w | _ => JArr (json_of_write <$> writes) end.

Lemma json_of_transaction_writable ws : Forall writable_write ws -> writable (json_of_transaction ws).
Proof.
  intros H. assert (Forall writable (json_of_write <$> ws)) as Hj.
  { apply Forall_fmap. eapply Forall_impl; [exact H|]. apply writable_write_json. }
  destruct ws as [|w [|w' ws]]; [by apply writable_arr|by apply Forall_cons in Hj as [? _]|by apply writable_arr].
Qed.

Lemma map_result_writes ws : Forall writable_write ws -> map_result parseCommittedWrite (json_of_write <$> ws) = Ok ws.
Proof. induction 1 as [|w ws Hw _ IH]; [done|]. cbn -[parseCommittedWrite json_of_write]. rewrite parse_write by done. cbn. by rewrite IH. Qed.

Lemma parse_serialize ws : Forall writable_write ws -> parseJsonlTransaction (serializeJsonlTransaction ws) = Ok ws.
Proof.
  intros H. unfold parseJsonlTransaction, serializeJsonlTransaction. fold (json_of_transaction ws).
  rewrite writable_parse by by apply json_of_transaction_writable.
  destruct ws as [|w [|w' ws]]; [done| |by apply map_result_writes].
  apply Forall_cons in H as [H _]. unfold json_of_transaction. cbn -[parseCommittedWrite json_of_write].
  change (json_of_write w) with (JObj (present (write_members w))). cbn [map_result].
  change (JObj (present (write_members w))) with (json_of_write w). by rewrite parse_write.
Qed.

Lemma serialize_no_newline ws : Forall writable_write ws -> 10 ∉ serializeJsonlTransaction ws.
Proof.
  intros H. apply printable_no_newline. unfold serializeJsonlTransaction. fold (json_of_transaction ws).
  by apply stringify_printable, json_of_transaction_writable.
Qed.

(** Headers the code makes: the storage version is the code's own. *)
Record writable_header (h : JsonlStorageHeader) : Prop := WritableHeader {
  wh_id : str_wf (h_id h);
  wh_cwd : str_wf (h_cwd h);
  wh_version : h_storageVersion h = NInt JSONL_STORAGE_VERSION;
  wh_created : valid_time (h_createdAt h);
  wh_parent : from_option str_wf True (h_parentSessionId h);
  wh_legacy : from_option str_wf True (h_legacyParentSessionPath h);
  wh_next : from_option (fun n => exists z, n = NInt z /\ valid_seq z) True (h_nextSeq h);
}.

Lemma header_writable h : writable_header h -> writable (json_of_header h).
Proof.
  intros [H1 H2 H3 (c & H4 & Hc) H5 H6 H7]. apply writable_object; [apply header_names|].
  unfold MAX_SAFE_INTEGER in Hc. unfold writable_members, header_members. rewrite H3, H4.
  repeat apply Forall_cons_2; [..|apply Forall_nil_2]; cbn -[writable]; try (by apply writable_str);
    try (apply writable_integer; unfold JSONL_FORMAT_VERSION, JSONL_STORAGE_VERSION; lia).
  - apply writable_str, (js_str_wf "header").
  - destruct (h_parentSessionId h); [by apply writable_str|done].
  - destruct (h_legacyParentSessionPath h); [by apply writable_str|done].
  - destruct (h_nextSeq h) as [n|]; [|done]. destruct H7 as (z & -> & Hz). apply writable_integer.
    unfold valid_seq, MAX_SAFE_INTEGER in Hz. lia.
Qed.

Lemma is_text_same s : is_text (Some (JStr (js s))) s = true.
Proof. by apply bool_decide_eq_true. Qed.

Lemma parse_header is_date h :
  writable_header h -> parseJsonlSessionHeader is_date (stringify (json_of_header h)) = Ok (HeaderV4 h).
Proof.
  intros Hh. unfold parseJsonlSessionHeader. rewrite writable_parse by by apply header_writable.
  destruct Hh as [_ _ H3 (c & H4 & Hc) _ _ H7]. assert (isJsonlStorageHeader (json_of_header h) = true) as ->.
  { unfold isJsonlStorageHeader, json_of_header. rewrite !(member_of_object _ _ (proj1 (header_names h))).
    cbn -[isSafeIntegerAtLeast js is_text]. rewrite H3, H4, !isSafeIntegerAtLeast_int by (unfold JSONL_STORAGE_VERSION, MAX_SAFE_INTEGER in *; lia). cbn -[isSafeIntegerAtLeast js is_text].
    rewrite is_text_same.
    destruct (h_nextSeq h) as [n|]; [destruct H7 as (z & -> & [Hz1 Hz2])|].
    all: cbn -[isSafeIntegerAtLeast js]; rewrite ?isSafeIntegerAtLeast_int by (unfold MAX_SAFE_INTEGER in *; lia).
    all: by destruct (h_parentSessionId h), (h_legacyParentSessionPath h). }
  assert (header_of_json (json_of_header h) = Some h) as ->; [|done].
  unfold header_of_json, json_of_header. read_members (header_names h). by destruct h as [? ? ? ? [] [] []].
Qed.
