(* ===== verification/JsonlStorage.v ===== *)
(** The file of a session: [packages/agent/src/harness/session/jsonl/io.ts] and
    [storage.ts].

    The file system is what the storage is given: an interface [FileSystem],
    with the documented behaviour the code relies on as its laws.  A file is the
    text it holds.  Calls of the storage that the code queues run one after the
    other; here each is one step. *)
From S2P Require Import Prelude JsBase JsFloat Json JsonText JsonParse SessionTypes SessionState JsonlCodec.

(** * The file system ([packages/agent/src/harness/types.ts]) *)

Record TextLine : Type := TextLine_ { tl_text : jsstr; tl_terminated : bool }.

(** The lines a reader gives, one at a time, of a text. *)
Fixpoint text_lines (content : jsstr) : list TextLine :=
  match content with
  | [] => []
  | c :: content' =>
      if c =? newline then TextLine_ [] true :: text_lines content'
      else match text_lines content' with
           | [] => [TextLine_ [c] false]
           | l :: lines => TextLine_ (c :: tl_text l) (tl_terminated l) :: lines
           end
  end.

(** The methods the storage calls.  [openTextLineReader] stands for the reader
    and its calls of [readLine]; a read that fails fails here. *)
Class FileSystem (FS : Type) : Type := {
  readTextFile : jsstr -> FS -> result string jsstr;
  openTextLineReader : jsstr -> FS -> result string (list TextLine);
  writeFile : jsstr -> jsstr -> SM FS string unit;
  appendFile : jsstr -> jsstr -> SM FS string unit;
  renameFile : jsstr -> jsstr -> SM FS string unit;
  remove : jsstr -> SM FS string unit;
}.

(** What may be read back of [content] when writing it failed: all of it or a
    part, and something for a character cut in two. *)
Definition torn (content written : jsstr) : Prop :=
  written = content \/ exists part rest, part `prefix_of` content /\ part <> content /\ (newline ∉ rest) /\ written = part ++ rest.

(** [file fs path] is the text at a path. *)
Class FileSystemLaws {FS : Type} `{FileSystem FS} (file : FS -> jsstr -> option jsstr) : Prop := {
  read_law p fs c : readTextFile p fs = Ok c -> file fs p = Some c;
  reader_law p fs l : openTextLineReader p fs = Ok l -> exists c, file fs p = Some c /\ l = text_lines c;
  write_frame p c fs fs' r q : writeFile p c fs = (fs', r) -> q <> p -> file fs' q = file fs q;
  write_law p c fs fs' u : writeFile p c fs = (fs', Ok u) -> file fs' p = Some c;
  append_frame p c fs fs' r q : appendFile p c fs = (fs', r) -> q <> p -> file fs' q = file fs q;
  append_law p c fs fs' u : appendFile p c fs = (fs', Ok u) -> file fs' p = Some (default [] (file fs p) ++ c);
  append_torn p c fs fs' e : appendFile p c fs = (fs', Err e) ->
    file fs' p = file fs p \/ exists t, torn c t /\ file fs' p = Some (default [] (file fs p) ++ t);
  rename_frame p p' fs fs' r q : renameFile p p' fs = (fs', r) -> q <> p -> q <> p' -> file fs' q = file fs q;
  rename_law p p' fs fs' u : renameFile p p' fs = (fs', Ok u) -> p <> p' -> file fs' p' = file fs p;
  rename_fails p p' fs fs' e : renameFile p p' fs = (fs', Err e) -> file fs' p' = file fs p';
  remove_frame p fs fs' r q : remove p fs = (fs', r) -> q <> p -> file fs' q = file fs q;
}.

(** * Lines *)

(** [content.lastIndexOf("\n")], [None] for [-1]. *)
Fixpoint last_newline (content : jsstr) : option nat :=
  match content with
  | [] => None
  | c :: content =>
      match last_newline content with
      | Some i => Some (S i)
      | None => if c =? newline then Some 0%nat else None
      end
  end.

Definition ends_with_newline (content : jsstr) : bool := bool_decide (last content = Some newline).

Definition splitCompleteLines (content : jsstr) : list jsstr * bool :=
  if ends_with_newline content then (split_lines (take (pred (length content)) content), false)
  else
    match last_newline content with
    | None => ([], true)
    | Some lastNewline => (split_lines (take lastNewline content), true)
    end.

(** * The storage *)

Definition session_step {S A} (f : StorageState -> result session_err A) (s : StorageState) : SM S jsonl_err A :=
  reads_state (fun _ => map_err JsonlSession (f s)).

(** A step of the in-memory state that is thrown away when it throws. *)
Definition run_state {A} (m : SM StorageState session_err A) (s : StorageState) : jresult StorageState :=
  match m s with
  | (s', Ok _) => Ok s'
  | (_, Err e) => Err (JsonlSession e)
  end.

Definition replayCommitted (writes : list CommittedWrite) : SM StorageState session_err unit :=
  reads_state (fun s => validateCommitted s writes);;
  applyValidated writes;;
  mret tt.

(** The lines after the header. *)
Definition replay_line (s : StorageState) (line : jsstr) : jresult StorageState :=
  map_err (fun e => match e with JsonlUntyped => JsonlUntyped | _ => JsonlError "Invalid JSONL storage: line" end)
    (writes ← parseJsonlTransaction line; run_state (replayCommitted writes) s).

Definition replay_lines (s : StorageState) (lines : list jsstr) : jresult StorageState := foldM replay_line s lines.

Record JsonlStorage : Type := Storage_ { js_path : jsstr; js_header : JsonlStorageHeader; js_state : StorageState }.

Section Storage.
Context {FS : Type} `{FileSystem FS}.
Variable is_date : jsstr -> bool.

Abbreviation fstep := (SM FS jsonl_err).

Definition fileValue {A} (call : SM FS string A) (action : string) : fstep A :=
  fun fs => match call fs with (fs, Ok a) => (fs, Ok a) | (fs, Err _) => (fs, Err (JsonlError action)) end.

(** [readJsonlHeader] on a reader just opened. *)
Definition read_header_line (lines : list TextLine) : fstep JsonlParsedSessionHeader :=
  reads_state (fun _ =>
    match lines with
    | TextLine_ ((_ :: _) as text) true :: _ =>
        map_err (fun e => match e with JsonlUntyped => JsonlUntyped | _ => JsonlError "Invalid JSONL storage: invalid header" end)
          (parseJsonlSessionHeader is_date text)
    | _ => Err (JsonlError "Invalid JSONL storage: missing header")
    end).

Definition readJsonlHeader (path : jsstr) : fstep JsonlParsedSessionHeader :=
  lines ← fileValue (reads_state (openTextLineReader path)) "Failed to read JSONL storage";
  read_header_line lines.

Definition temp_path (path : jsstr) : jsstr := path ++ js ".tmp".

(** Whatever goes wrong, the staged file is removed and the error goes on. *)
Definition publishFileAtomically (destinationPath : jsstr) (writeContent : (jsstr -> fstep unit) -> fstep unit) : fstep unit :=
  let tempPath := temp_path destinationPath in
  fun fs =>
    match (fileValue (writeFile tempPath []) "Failed to stage JSONL storage";;
           writeContent (fun content => fileValue (appendFile tempPath content) "Failed to append JSONL storage");;
           fileValue (renameFile tempPath destinationPath) "Failed to publish JSONL storage") fs with
    | (fs, Ok u) => (fs, Ok u)
    | (fs, Err error) => (fst (remove tempPath fs), Err error)
    end.

Definition header_line (header : JsonlStorageHeader) : jsstr := stringify (json_of_header header) ++ [newline].
Definition transaction_line (writes : list CommittedWrite) : jsstr := serializeJsonlTransaction writes ++ [newline].

Definition publishJsonl (destinationPath : jsstr) (header : JsonlStorageHeader)
  (writeTransactions : (list CommittedWrite -> fstep unit) -> fstep unit) : fstep unit :=
  publishFileAtomically destinationPath (fun append =>
    append (header_line header);;
    writeTransactions (fun writes => append (transaction_line writes))).

Definition create (path : jsstr) (header : JsonlStorageHeader) (initialWrites : list Write) (now : jsnum) : fstep JsonlStorage :=
  prepared ← session_step (fun s => prepareCommit s initialWrites now) new_StorageState;
  publishJsonl path header (fun append =>
    if decide (pc_writes prepared = []) then mret tt else append (pc_writes prepared));;
  state ← reads_state (fun _ => run_state (applyValidated (pc_writes prepared)) new_StorageState);
  mret (Storage_ path header state).

Definition openV4 (path : jsstr) (header : JsonlStorageHeader) : fstep JsonlStorage :=
  content ← fileValue (reads_state (readTextFile path)) "Failed to read JSONL storage";
  let '(lines, torn) := splitCompleteLines content in
  reads_state (fun _ => throw_if (negb (bool_decide (h_storageVersion header = NInt JSONL_STORAGE_VERSION)))
    (JsonlError "Session uses unsupported storage version"));;
  state ← reads_state (fun _ => replay_lines new_StorageState (drop 1 lines));
  state ← reads_state (fun _ =>
    match h_nextSeq header with
    | None => Ok state
    | Some nextSeq => run_state (advanceNextSeq nextSeq) state
    end);
  (if torn then publishFileAtomically path (fun append => append (join_lines lines ++ [newline])) else mret tt);;
  mret (Storage_ path header state).

(** [None] for a file of format 3, which [openLegacyV3] converts. *)
Definition open (path : jsstr) : fstep (option JsonlStorage) :=
  parsed ← readJsonlHeader path;
  match parsed with
  | HeaderV3 _ => mret None
  | HeaderV4 header => storage ← openV4 path header; mret (Some storage)
  end.

Definition on_file {A} (m : fstep A) : SM (FS * StorageState) jsonl_err A :=
  fun w => let '(fs, r) := m (fst w) in ((fs, snd w), r).

Definition on_session {A} (m : SM StorageState session_err A) : SM (FS * StorageState) jsonl_err A :=
  fun w => let '(s, r) := m (snd w) in ((fst w, s), map_err JsonlSession r).

(** The turn of a commit in the queue; the state is the file system and the
    state of the storage. *)
Definition applyCommit (path : jsstr) (writes : list Write) (now : jsnum) : SM (FS * StorageState) jsonl_err CommitResult :=
  prepared ← (fun w => (w, map_err JsonlSession (prepareCommit (snd w) writes now)));
  (if decide (pc_writes prepared = []) then mret tt else on_file (fileValue
     (appendFile path (transaction_line (pc_writes prepared))) "Failed to append JSONL storage"));;
  stats ← on_session (applyValidated (pc_writes prepared));
  mret (CommitResult_ (pc_firstSeq prepared) (pc_seqs prepared) (pc_timestamp prepared) stats).
End Storage.
