(* ===== verification/JsonlDurable.v ===== *)
(** What the file of a session holds: the transactions committed, one line each;
    and that replaying them gives the live state. *)
From S2P Require Import Prelude JsBase JsText JsFloat Json JsonText JsonParse SessionTypes SessionState SessionFork SessionInv JsonlCodec JsonlStorage.

(** * Lines of a text *)

Definition terminated (l : jsstr) : jsstr := l ++ [newline].

Lemma text_lines_terminated l rest : newline ∉ l -> text_lines (terminated l ++ rest) = TextLine_ l true :: text_lines rest.
Proof.
  unfold terminated. rewrite <- app_assoc. cbn [app]. induction l as [|c l IH]; [done|]. intros [Hc Hl]%not_elem_of_cons.
  cbn [app text_lines]. rewrite (IH Hl). by rewrite (proj2 (Z.eqb_neq _ _)) by done.
Qed.

Lemma text_lines_open tail : newline ∉ tail -> text_lines tail = match tail with [] => [] | _ => [TextLine_ tail false] end.
Proof.
  induction tail as [|c tail IH]; [done|]. intros [Hc Ht]%not_elem_of_cons. cbn. rewrite (IH Ht), (proj2 (Z.eqb_neq _ _)) by done.
  by destruct tail.
Qed.

Lemma text_lines_file lines tail : Forall (fun l => newline ∉ l) lines -> newline ∉ tail ->
  text_lines (concat (terminated <$> lines) ++ tail) =
    ((fun l => TextLine_ l true) <$> lines) ++ match tail with [] => [] | _ => [TextLine_ tail false] end.
Proof.
  intros Hl Ht. induction Hl as [|l lines Hl _ IH]; [by apply text_lines_open|]. cbn. rewrite <- app_assoc.
  by rewrite text_lines_terminated, IH.
Qed.

Lemma concat_terminated l lines : concat (terminated <$> (l :: lines)) = join_lines (l :: lines) ++ [newline].
Proof.
  revert l. induction lines as [|l' lines IH]; intros l; [cbn; by rewrite !app_nil_r|].
  change (concat (terminated <$> l :: l' :: lines)) with (terminated l ++ concat (terminated <$> l' :: lines)).
  rewrite IH, (join_lines_cons l). unfold terminated. by rewrite <- !app_assoc.
Qed.

Lemma last_newline_none tail : newline ∉ tail -> last_newline tail = None.
Proof.
  induction tail as [|c tail IH]; [done|]. intros [Hc Ht]%not_elem_of_cons. cbn. rewrite (IH Ht).
  by rewrite (proj2 (Z.eqb_neq _ _)) by done.
Qed.

Lemma last_newline_app l tail : newline ∉ tail -> last_newline (l ++ newline :: tail) = Some (length l).
Proof. intros Ht. induction l as [|c l IH]; cbn; [by rewrite last_newline_none|by rewrite IH]. Qed.

(** Complete lines, and perhaps the start of one more. *)
Lemma split_complete lines l tail : Forall (fun l => newline ∉ l) (l :: lines) -> newline ∉ tail ->
  splitCompleteLines (concat (terminated <$> (l :: lines)) ++ tail) = (l :: lines, bool_decide (tail <> [])).
Proof.
  intros Hl Ht. rewrite concat_terminated, <- app_assoc. cbn [app]. unfold splitCompleteLines, ends_with_newline.
  destruct tail as [|c tail] using rev_ind.
  - rewrite last_snoc, bool_decide_true by done. rewrite length_app. cbn [length]. rewrite Nat.add_1_r. cbn [pred].
    rewrite take_app_length. by rewrite split_join_lines.
  - clear IHtail. change (newline :: tail ++ [c]) with ((newline :: tail) ++ [c]). rewrite app_assoc, last_snoc.
    rewrite (bool_decide_false (Some c = _)) by (intros [= ->]; set_solver).
    rewrite <- app_assoc. cbn [app]. rewrite last_newline_app by done. rewrite take_app_length, split_join_lines by done.
    by rewrite bool_decide_true by (by destruct tail).
Qed.

(** * Replay *)

Definition replay_txs (s : StorageState) (txs : list (list CommittedWrite)) : jresult StorageState :=
  foldM (fun s ws => run_state (replayCommitted ws) s) s txs.

Abbreviation serialized := (fmap serializeJsonlTransaction).

Lemma replay_line_tx ws s s' :
  Forall writable_write ws -> run_state (replayCommitted ws) s = Ok s' -> replay_line s (serializeJsonlTransaction ws) = Ok s'.
Proof. intros Hw H. unfold replay_line. rewrite parse_serialize by done. cbn [mbind result_bind]. by rewrite H. Qed.

Lemma replay_lines_txs txs s s' :
  Forall (Forall writable_write) txs -> replay_txs s txs = Ok s' -> replay_lines s (serialized txs) = Ok s'.
Proof.
  intros Hw. revert s. induction Hw as [|ws txs Hws _ IH]; intros s H; [done|]. unfold replay_lines, replay_txs in *.
  rewrite fmap_cons. cbn [foldM] in H |- *. apply bind_Ok in H as (s1 & H1 & H2).
  rewrite (replay_line_tx _ _ _ Hws H1). by apply IH.
Qed.

Lemma run_state_Ok {A} (m : SM StorageState session_err A) s s' : run_state m s = Ok s' <-> exists a, m s = (s', Ok a).
Proof. unfold run_state. destruct (m s) as [s1 [a|e]]; naive_solver. Qed.

Lemma replay_Ok ws s s' :
  run_state (replayCommitted ws) s = Ok s' <-> validateCommitted s ws = Ok tt /\ for_each apply_committed ws s = (s', Ok tt).
Proof.
  rewrite run_state_Ok. unfold replayCommitted, applyValidated, mbind, sm_bind, reads_state, gets. split.
  - intros [u H]. destruct (validateCommitted s ws) as [[]|e]; [|done]. destruct (for_each apply_committed ws s) as [s1 [[]|e]]; [|done].
    by injection H as <- _.
  - intros [-> ->]. by exists tt.
Qed.

(** The header of a rewritten file may put the sequence further on. *)
Definition advance (h : JsonlStorageHeader) (s : StorageState) : StorageState :=
  match h_nextSeq h with
  | Some (NInt n) => on_nextSeq (fun m => Z.max m n) s
  | _ => s
  end.

Lemma advance_run h s : writable_header h ->
  match h_nextSeq h with None => Ok s | Some n => run_state (advanceNextSeq n) s end = Ok (advance h s).
Proof.
  intros [_ _ _ _ _ _ H]. unfold advance. destruct (h_nextSeq h) as [n|]; [|done]. destruct H as (z & -> & Hz1 & Hz2).
  apply run_state_Ok. exists tt. unfold advanceNextSeq, mbind, sm_bind, reads_state. cbn [isSafeInteger].
  by rewrite !(proj2 (Z.leb_le _ _)) by (unfold MAX_SAFE_INTEGER in *; lia).
Qed.

(** What one more transaction does does not depend on the sequence, once it
    passes validation. *)
Lemma apply_committed_on_nextSeq w f s s' :
  apply_committed w s = (s', Ok tt) -> apply_committed w (on_nextSeq f s) = (s', Ok tt).
Proof.
  unfold apply_committed, applyValueSetOrListAppend, mbind, sm_bind, reads_state, modify.
  destruct w as [e|r|[[] seq n k v]|[] seq n k]; cbn; intros H; try (by rewrite <- H; destruct s).
  - destruct (address KindValue n k); [|done]. by rewrite <- H.
  - destruct (amap_get (listValues s) (physicalKey n k)); [by rewrite <- H|].
    destruct (address KindList n k); [|done]. by rewrite <- H.
Qed.

Lemma apply_all_on_nextSeq ws f s s' :
  ws <> [] -> for_each apply_committed ws s = (s', Ok tt) -> for_each apply_committed ws (on_nextSeq f s) = (s', Ok tt).
Proof.
  destruct ws as [|w ws]; [done|]. intros _. cbn. intros (s1 & [] & H1 & H2)%sm_bind_Ok. apply sm_bind_Ok. exists s1, tt.
  split; [by apply apply_committed_on_nextSeq|done].
Qed.

Lemma apply_all_fails ws f s s' e :
  for_each apply_committed ws s = (s', Err e) -> exists s1, for_each apply_committed ws (on_nextSeq f s) = (s1, Err e).
Proof.
  destruct ws as [|w ws]; [done|]. cbn [for_each]. unfold mbind at 1 2, sm_bind at 1 2.
  destruct (apply_committed w s) as [s1 [[]|e1]] eqn:E.
  - rewrite (apply_committed_on_nextSeq _ _ _ _ E). eauto.
  - intros [= <- <-]. assert (exists s2, apply_committed w (on_nextSeq f s) = (s2, Err e1)) as [s2 ->]; [|by eexists].
    unfold apply_committed, applyValueSetOrListAppend, mbind, sm_bind, reads_state, modify in *.
    destruct w as [x|r|[[] seq n k v]|[] seq n k]; cbn in E |- *; try done.
    + destruct (address KindValue n k); [done|]. injection E as <- <-. by eexists.
    + destruct (amap_get (listValues s) (physicalKey n k)); [done|]. destruct (address KindList n k); [done|].
      injection E as <- <-. by eexists.
Qed.

Lemma validate_lower A B p1 p2 ids eids ws st :
  p2 <= p1 -> ws <> [] -> foldM (validate_write A B) (p1, ids, eids) ws = Ok st -> foldM (validate_write A B) (p2, ids, eids) ws = Ok st.
Proof.
  destruct ws as [|w ws]; [done|]. intros Hp _. cbn. intros (st1 & H1 & H2)%bind_Ok. apply bind_Ok. exists st1. split; [|done].
  unfold validate_write in H1 |- *. apply bind_Ok in H1 as ([] & H0 & H1). apply throw_if_Ok in H0. bool_lia.
  rewrite (proj2 (Z.leb_gt _ _)) by lia. exact H1.
Qed.

Lemma validate_on_nextSeq f s ws :
  f (nextSeq s) <= nextSeq s -> ws <> [] -> validateCommitted s ws = Ok tt -> validateCommitted (on_nextSeq f s) ws = Ok tt.
Proof.
  unfold validateCommitted, validateCommittedWrites. intros Hf Hne (st & H & _)%bind_Ok. apply bind_Ok. exists st.
  split; [|done]. eapply validate_lower; [|done|exact H]. cbn. lia.
Qed.

Lemma apply_all_nextSeq ws s s' : ws <> [] -> validateCommitted s ws = Ok tt -> for_each apply_committed ws s = (s', Ok tt) -> nextSeq s < nextSeq s'.
Proof.
  intros Hne Hv H. unfold validateCommitted, validateCommittedWrites in Hv. apply bind_Ok in Hv as (st & Hv & _).
  assert (forall ws prev ids eids s s' A B st, foldM (validate_write A B) (prev, ids, eids) ws = Ok st ->
    for_each apply_committed ws s = (s', Ok tt) -> ws <> [] -> prev + 1 < nextSeq s') as Hgen; [|specialize (Hgen _ _ _ _ _ _ _ _ _ Hv H Hne); lia].
  clear. induction ws as [|w ws IH]; [done|]. intros prev ids eids s s' A B st Hv H _. cbn in Hv, H.
  apply bind_Ok in Hv as (st1 & H1 & H2). apply sm_bind_Ok in H as (s1 & [] & H3 & H4).
  assert (prev < write_seq w /\ fst (fst st1) = write_seq w) as [Hlt Hst].
  { unfold validate_write in H1. apply bind_Ok in H1 as ([] & H0 & H1). apply throw_if_Ok in H0. split; [bool_lia|]. by destruct w; res_inv. }
  assert (nextSeq s1 = write_seq w + 1) as Hs1.
  { unfold apply_committed in H3. apply sm_bind_Ok in H3 as (s2 & [] & _ & H3). by injection H3 as <-. }
  destruct ws as [|w' ws]; [injection H4 as <-; lia|]. destruct st1 as [[prev1 ids1] eids1]. cbn in Hst. subst prev1.
  specialize (IH _ _ _ _ _ _ _ _ H2 H4 ltac:(done)). lia.
Qed.

(** [s] is what a file with the header [h] and the transactions [txs] opens to. *)
Record opens_to (h : JsonlStorageHeader) (txs : list (list CommittedWrite)) (s : StorageState) : Prop := OpensTo {
  ot_inv : session_inv s;
  ot_lines : Forall (Forall writable_write) txs;
  ot_names : Forall (Forall write_names_ok) txs;
  ot_replay : exists s0, replay_txs new_StorageState txs = Ok s0 /\ s = advance h s0;
}.

Lemma advance_keeps h s : exists f, advance h s = on_nextSeq f s /\ nextSeq s <= f (nextSeq s).
Proof.
  unfold advance. destruct (h_nextSeq h) as [[n|b]|].
  - exists (fun m => Z.max m n). split; [done|lia].
  - exists (fun m => m). by destruct s.
  - exists (fun m => m). by destruct s.
Qed.

Lemma advance_beyond h s s' : nextSeq (advance h s) <= nextSeq s' -> advance h s' = s'.
Proof.
  unfold advance. destruct (h_nextSeq h) as [[n|b]|]; [|done..]. cbn. intros H. unfold on_nextSeq.
  rewrite Z.max_l by lia. by destruct s'.
Qed.

Lemma opens_to_snoc h txs s ws s' :
  opens_to h txs s -> Forall writable_write ws -> Forall write_names_ok ws -> ws <> [] -> session_inv s' ->
  validateCommitted s ws = Ok tt -> for_each apply_committed ws s = (s', Ok tt) -> opens_to h (txs ++ [ws]) s'.
Proof.
  intros [Hi Hl Hln (s0 & H0 & ->)] Hw Hwn Hne Hi' Hv Ha. split; [done|by apply Forall_app; split; [|constructor]..|].
  exists s'. split; [|symmetry; eapply advance_beyond; by apply Z.lt_le_incl, (apply_all_nextSeq ws)].
  unfold replay_txs in *. rewrite foldM_app, H0. cbn. rewrite (proj2 (replay_Ok ws s0 s')); [done|].
  destruct (advance_keeps h s0) as (f & E & Hf). rewrite E in Hv, Ha.
  assert (s0 = on_nextSeq (fun _ => nextSeq s0) (on_nextSeq f s0)) as Es by by destruct s0.
  rewrite Es. split; [by apply validate_on_nextSeq|by apply apply_all_on_nextSeq].
Qed.

(** * Files *)

Definition file_lines (h : JsonlStorageHeader) (txs : list (list CommittedWrite)) : list jsstr :=
  stringify (json_of_header h) :: serialized txs.

Definition file_text (h : JsonlStorageHeader) (txs : list (list CommittedWrite)) : jsstr := concat (terminated <$> file_lines h txs).

Lemma file_lines_complete h txs : writable_header h -> Forall (Forall writable_write) txs -> Forall (fun l => newline ∉ l) (file_lines h txs).
Proof.
  intros Hh Ht. constructor.
  - apply printable_no_newline, stringify_printable. by apply header_writable.
  - apply Forall_fmap. eapply Forall_impl; [exact Ht|]. intros ws. apply serialize_no_newline.
Qed.

Lemma file_text_snoc h txs ws : file_text h (txs ++ [ws]) = file_text h txs ++ transaction_line ws.
Proof.
  unfold file_text, file_lines. rewrite !fmap_cons, fmap_app, fmap_app. cbn [concat]. rewrite concat_app. cbn [fmap list_fmap concat].
  by rewrite app_nil_r, app_assoc.
Qed.

Lemma header_not_empty h : exists c t, stringify (json_of_header h) = c :: t.
Proof. by eexists _, _. Qed.

Section Files.
Context {FS : Type} {Files : FileSystem FS} {file : FS -> jsstr -> option jsstr} {Laws : FileSystemLaws file}.
Variable is_date : jsstr -> bool.

Lemma fileValue_cases {A} (m : SM FS string A) action fs fs' r :
  fileValue m action fs = (fs', r) -> (exists a, r = Ok a /\ m fs = (fs', Ok a)) \/ (exists e, r = Err (JsonlError action) /\ m fs = (fs', Err e)).
Proof. unfold fileValue. destruct (m fs) as [fs1 [a|e]]; intros [= <- <-]; eauto. Qed.

Lemma temp_path_ne p : temp_path p <> p.
Proof. intros E. apply (f_equal length) in E. unfold temp_path in E. rewrite length_app in E. cbn in E. lia. Qed.

Definition append_to (p : jsstr) (content : jsstr) : SM FS jsonl_err unit := fileValue (appendFile p content) "Failed to append JSONL storage".

Lemma appends_file p chunks : forall fs fs' r,
  for_each (append_to p) chunks fs = (fs', r) ->
  (forall q, q <> p -> file fs' q = file fs q) /\
  ((r = Ok tt /\ (forall c, file fs p = Some c -> file fs' p = Some (c ++ concat chunks))) \/ exists e, r = Err (JsonlError e)).
Proof.
  induction chunks as [|c chunks IH]; intros fs fs' r H; cbn in H.
  - injection H as <- <-. split; [done|]. left. split; [done|]. intros c Hc. by rewrite app_nil_r.
  - unfold mbind, sm_bind in H. destruct (append_to p c fs) as [fs1 r1] eqn:E1.
    destruct (fileValue_cases _ _ _ _ _ E1) as [([] & -> & Ea)|(e & -> & Ea)].
    + destruct (IH _ _ _ H) as [Hf Ho]. split; [intros q Hq; rewrite (Hf q Hq); by eapply append_frame|].
      destruct Ho as [[-> Hc]|Ho]; [left|by right]. split; [done|]. intros c0 H0.
      rewrite (Hc (c0 ++ c)); [by rewrite <- app_assoc|]. apply append_law in Ea. by rewrite Ea, H0.
    + injection H as <- <-. split; [intros q Hq; by eapply append_frame|right; by eexists].
Qed.

(** Staging leaves every other file alone, and what it appends satisfies [P]. *)
Definition stages (t : jsstr) (P : jsstr -> Prop) (fs : FS) (write : SM FS jsonl_err unit) : Prop :=
  forall fs2 fs3 r3, (forall q, q <> t -> file fs2 q = file fs q) -> file fs2 t = Some [] -> write fs2 = (fs3, r3) ->
    (forall q, q <> t -> file fs3 q = file fs2 q) /\ (r3 = Ok tt -> exists c, file fs3 t = Some c /\ P c).

(** A file is published whole, or not at all. *)
Lemma publish_file p writeContent (P : jsstr -> Prop) fs fs' r :
  stages (temp_path p) P fs (writeContent (append_to (temp_path p))) ->
  publishFileAtomically p writeContent fs = (fs', r) ->
  (forall q, q <> p -> q <> temp_path p -> file fs' q = file fs q) /\
  ((r = Ok tt /\ exists c, file fs' p = Some c /\ P c) \/ (exists e, r = Err e /\ file fs' p = file fs p)).
Proof.
  intros Hw. pose proof (not_eq_sym (temp_path_ne p)) as Hp. unfold publishFileAtomically. set (t := temp_path p) in *.
  set (staged := (_ ;; _)). intros H.
  destruct (staged fs) as [fs1 r1] eqn:E.
  assert ((forall q, q <> p -> q <> t -> file fs1 q = file fs q) /\
    ((r1 = Ok tt /\ exists c, file fs1 p = Some c /\ P c) \/ (exists e, r1 = Err e /\ file fs1 p = file fs p))) as [Hf Hs].
  { clear H. subst staged. unfold mbind at 1, sm_bind at 1 in E.
    destruct (fileValue (writeFile t []) _ fs) as [fs2 r2] eqn:E2.
    assert (forall q, q <> t -> file fs2 q = file fs q) as Hf2.
    { intros q Hq. destruct (fileValue_cases _ _ _ _ _ E2) as [(? & _ & Ew)|(? & _ & Ew)]; by eapply write_frame. }
    destruct (fileValue_cases _ _ _ _ _ E2) as [([] & -> & Ew)|(e & -> & Ew)].
    2:{ injection E as <- <-. split; [by intros q _; apply Hf2|right; eauto]. }
    unfold mbind, sm_bind in E. change (writeContent _) with (writeContent (append_to t)) in E.
    destruct (writeContent (append_to t) fs2) as [fs3 r3] eqn:E3.
    destruct (Hw _ _ _ Hf2 (write_law _ _ _ _ _ Ew) E3) as [Hf3 Hc].
    assert (forall q, q <> t -> file fs3 q = file fs q) as Hf by (intros q Hq; rewrite Hf3; auto).
    destruct r3 as [[]|e]; [|injection E as <- <-; split; [by intros q _; apply Hf|right; eauto]].
    destruct (Hc eq_refl) as (c & Hfc & HP).
    destruct (fileValue_cases _ _ _ _ _ E) as [([] & -> & Er)|(e & -> & Er)]; (split; [intros q Hq1 Hq2; rewrite (rename_frame _ _ _ _ _ _ Er) by done; by apply Hf|]).
    - left. split; [done|]. exists c. by rewrite (rename_law _ _ _ _ _ Er).
    - right. eexists. split; [done|]. by rewrite (rename_fails _ _ _ _ _ Er), Hf. }
  destruct r1 as [[]|e1]; injection H as <- <-; [split; [done|naive_solver]|]. destruct Hs as [[? _]|(e & [= ->] & Hs)]; [done|].
  destruct (remove t fs1) as [fs2 r2] eqn:Er. cbn. assert (forall q, q <> t -> file fs2 q = file fs1 q) as Hr by (intros q; by eapply remove_frame).
  split; [intros q Hq1 Hq2; rewrite Hr by done; by apply Hf|]. right. exists e. split; [done|]. by rewrite Hr.
Qed.

(** Content that is just appended, chunk by chunk. *)
Lemma stages_chunks t write chunks fs : (forall fs, write fs = for_each (append_to t) chunks fs) -> stages t (eq (concat chunks)) fs write.
Proof.
  intros Hw fs2 fs3 r3 _ Ht E. rewrite Hw in E. destruct (appends_file _ _ _ _ _ E) as [Hf Ho]. split; [done|].
  intros ->. destruct Ho as [[_ Hc]|[e [=]]]. exists (concat chunks). split; [|done]. by apply (Hc []).
Qed.

(** The file at [p] holds exactly what the state [s] was made of. *)
Definition logged (fs : FS) (p : jsstr) (h : JsonlStorageHeader) (s : StorageState) : Prop :=
  writable_header h /\ exists txs, file fs p = Some (file_text h txs) /\ opens_to h txs s.

(** With the transactions [txs]. *)
Definition logged_as (fs : FS) (p : jsstr) (h : JsonlStorageHeader) (txs : list (list CommittedWrite)) (s : StorageState) : Prop :=
  writable_header h /\ file fs p = Some (file_text h txs) /\ opens_to h txs s.

Lemma logged_as_logged fs p h txs s : logged_as fs p h txs s -> logged fs p h s.
Proof. intros (Hh & Hf & Ho). split; [done|]. by exists txs. Qed.

(** Both reads of the file at [p] go well. *)
Definition readable (fs : FS) (p : jsstr) : Prop := is_Ok (readTextFile p fs) = true /\ is_Ok (openTextLineReader p fs) = true.

Lemma read_header_lines h lines (fs : FS) : writable_header h ->
  read_header_line is_date (TextLine_ (stringify (json_of_header h)) true :: lines) fs = (fs, Ok (HeaderV4 h)).
Proof.
  intros Hh. unfold read_header_line, reads_state. destruct (header_not_empty h) as (c & t & E). rewrite E. rewrite <- E. by rewrite parse_header.
Qed.

Definition complete_lines (lines : list jsstr) (tail : jsstr) : list TextLine :=
  ((fun l => TextLine_ l true) <$> lines) ++ match tail with [] => [] | _ => [TextLine_ tail false] end.

Lemma reader_lines fs p h txs tail l :
  writable_header h -> Forall (Forall writable_write) txs -> newline ∉ tail -> file fs p = Some (file_text h txs ++ tail) ->
  openTextLineReader p fs = Ok l -> l = TextLine_ (stringify (json_of_header h)) true :: complete_lines (serialized txs) tail.
Proof.
  intros Hh Ht Htail Hfile Hl. apply reader_law in Hl as (c & Hc & ->). assert (c = file_text h txs ++ tail) as -> by congruence.
  unfold file_text. by rewrite text_lines_file by (done || by apply file_lines_complete).
Qed.

Lemma read_header fs p h txs tail l :
  writable_header h -> Forall (Forall writable_write) txs -> newline ∉ tail -> file fs p = Some (file_text h txs ++ tail) ->
  openTextLineReader p fs = Ok l -> readJsonlHeader is_date p fs = (fs, Ok (HeaderV4 h)).
Proof.
  intros Hh Ht Htail Hfile Hl. unfold readJsonlHeader, mbind, sm_bind, fileValue, reads_state at 1. rewrite Hl.
  rewrite (reader_lines _ _ _ _ _ _ Hh Ht Htail Hfile Hl). by apply read_header_lines.
Qed.

Definition publish_lines (p : jsstr) (lines : list jsstr) : SM FS jsonl_err unit :=
  publishFileAtomically p (fun append => append (join_lines lines ++ [newline])).

Lemma openV4_text fs p h txs tail s c :
  writable_header h -> opens_to h txs s -> newline ∉ tail -> file fs p = Some (file_text h txs ++ tail) ->
  readTextFile p fs = Ok c ->
  openV4 p h fs = ((if bool_decide (tail <> []) then publish_lines p (file_lines h txs) else mret tt);; mret (Storage_ p h s)) fs.
Proof.
  intros Hh [Hi Hw _ (s0 & H0 & ->)] Htail Hfile Hc. unfold openV4, mbind at 1, sm_bind at 1, fileValue, reads_state at 1. rewrite Hc.
  apply read_law in Hc. assert (c = file_text h txs ++ tail) as -> by congruence. unfold file_text at 1, file_lines at 1.
  rewrite split_complete by (done || by apply file_lines_complete).
  unfold mbind at 1, sm_bind at 1, reads_state at 1. rewrite (wh_version _ Hh), bool_decide_true by done. cbn [negb throw_if].
  unfold mbind at 1, sm_bind at 1, reads_state at 1. change (drop 1 (_ :: serialized txs)) with (serialized txs). rewrite (replay_lines_txs _ _ _ Hw H0).
  unfold mbind at 1, sm_bind at 1, reads_state at 1. by rewrite advance_run.
Qed.

Lemma open_text fs p h txs tail s :
  writable_header h -> opens_to h txs s -> newline ∉ tail -> file fs p = Some (file_text h txs ++ tail) -> readable fs p ->
  open is_date p fs = ((if bool_decide (tail <> []) then publish_lines p (file_lines h txs) else mret tt);; mret (Some (Storage_ p h s))) fs.
Proof.
  intros Hh Ho Htail Hfile [(c & Hc)%is_Ok_exists (l & Hl)%is_Ok_exists]. unfold open, mbind at 1, sm_bind at 1.
  rewrite (read_header fs p h txs tail l) by (done || apply Ho). unfold mbind at 1, sm_bind at 1.
  rewrite (openV4_text fs p h txs tail s c) by done. unfold mbind, sm_bind.
  by destruct ((if bool_decide (tail <> []) then publish_lines p (file_lines h txs) else mret tt) fs) as [fs1 [u|e]].
Qed.

Lemma publish_lines_file fs fs' p h txs r :
  publish_lines p (file_lines h txs) fs = (fs', r) ->
  (r = Ok tt /\ file fs' p = Some (file_text h txs)) \/ (exists e, r = Err e /\ file fs' p = file fs p).
Proof.
  intros Hp. unfold publish_lines in Hp. eapply publish_file in Hp as [_ Hp].
  2:{ apply (stages_chunks _ _ [join_lines (file_lines h txs) ++ [newline]]). intros fs0. cbn. unfold mbind, sm_bind.
      by destruct (append_to _ _ fs0) as [fs1 [[]|e]]. }
  destruct Hp as [(-> & c & Hc & <-)|Hp]; [left|by right]. split; [done|]. cbn [concat] in Hc. rewrite app_nil_r in Hc.
  unfold file_text, file_lines in *. by rewrite concat_terminated.
Qed.

(** Publishing [content] at [p] is refused: the file system fails to stage it, to
    append to what is staged, or to rename it; the error says which. *)
Inductive refused (p content : jsstr) (fs : FS) : jsonl_err -> Prop :=
| stage_refused fs1 e : writeFile (temp_path p) [] fs = (fs1, Err e) -> refused p content fs (JsonlError "Failed to stage JSONL storage")
| append_refused fs1 fs2 e : writeFile (temp_path p) [] fs = (fs1, Ok tt) -> appendFile (temp_path p) content fs1 = (fs2, Err e) ->
    refused p content fs (JsonlError "Failed to append JSONL storage")
| publish_refused fs1 fs2 fs3 e : writeFile (temp_path p) [] fs = (fs1, Ok tt) -> appendFile (temp_path p) content fs1 = (fs2, Ok tt) ->
    renameFile (temp_path p) p fs2 = (fs3, Err e) -> refused p content fs (JsonlError "Failed to publish JSONL storage").

Lemma publish_lines_refused p lines fs fs' e : publish_lines p lines fs = (fs', Err e) -> refused p (join_lines lines ++ [newline]) fs e.
Proof using.
  unfold publish_lines, publishFileAtomically, mbind, sm_bind.
  destruct (fileValue (writeFile _ _) _ fs) as [fs1 r1] eqn:E1. destruct (fileValue_cases _ _ _ _ _ E1) as [([] & -> & Ew)|(e1 & -> & Ew)].
  2: { intros [= _ <-]. by econstructor. }
  destruct (fileValue (appendFile _ _) _ fs1) as [fs2 r2] eqn:E2. destruct (fileValue_cases _ _ _ _ _ E2) as [([] & -> & Ea)|(e2 & -> & Ea)].
  2: { intros [= _ <-]. by econstructor. }
  destruct (fileValue (renameFile _ _) _ fs2) as [fs3 r3] eqn:E3. destruct (fileValue_cases _ _ _ _ _ E3) as [([] & -> & Er)|(e3 & -> & Er)]; [done|].
  intros [= _ <-]. by econstructor.
Qed.

(** The file ends in a half line that could not be dropped. *)
Definition not_mended (fs : FS) (p : jsstr) (e : jsonl_err) : Prop :=
  exists content half, file fs p = Some ((content ++ [newline]) ++ half) /\ half <> [] /\ (newline ∉ half) /\ refused p (content ++ [newline]) fs e.

(** Opening a file that was not cut short, and one that was. *)
Lemma open_logged fs p h s : logged fs p h s -> readable fs p -> open is_date p fs = (fs, Ok (Some (Storage_ p h s))).
Proof.
  intros [Hh (txs & Hfile & Ho)] Hr. rewrite <- (app_nil_r (file_text h txs)) in Hfile.
  by rewrite (open_text fs p h txs [] s) by (done || apply not_elem_of_nil).
Qed.

Lemma open_torn fs p h txs tail s fs' r :
  writable_header h -> opens_to h txs s -> newline ∉ tail -> file fs p = Some (file_text h txs ++ tail) -> readable fs p ->
  open is_date p fs = (fs', r) ->
  (r = Ok (Some (Storage_ p h s)) /\ logged fs' p h s) \/ (exists e, r = Err e /\ file fs' p = file fs p /\ not_mended fs p e).
Proof.
  intros Hh Ho Ht Hfile Hr E. rewrite (open_text fs p h txs tail s) in E by done. unfold mbind, sm_bind in E.
  case_bool_decide as Htail.
  - destruct (publish_lines p (file_lines h txs) fs) as [fs1 r1] eqn:Ep. destruct (publish_lines_file _ _ _ _ _ _ Ep) as [[-> Hf]|(e & -> & Hf)];
      injection E as <- <-; [left; split; [done|]; split; [done|]; by exists txs|right]. exists e. split_and!; [done..|].
    exists (join_lines (file_lines h txs)), tail. split_and!; [|done|done|by eapply publish_lines_refused].
    rewrite Hfile. f_equal. f_equal. unfold file_text. apply concat_terminated.
  - injection E as <- <-. left. split; [done|]. split; [done|]. exists txs. split; [|done]. destruct tail; [by rewrite app_nil_r in Hfile|done].
Qed.

(** * Commits *)

(** Addresses are valid, and what the writes hold can be written as JSON. *)
Definition acceptable (s : StorageState) (writes : list Write) (now : jsnum) : Prop :=
  Forall names_of_write writes /\ Forall writable_write (pc_writes (prepareStorageCommit writes (nextSeq s) now)).

(** An append that failed left a part of the line. *)
Definition cut_short (fs : FS) (p : jsstr) (h : JsonlStorageHeader) (s s1 : StorageState) : Prop :=
  exists txs ws t, writable_header h /\ opens_to h txs s /\ opens_to h (txs ++ [ws]) s1 /\
    (t = [] \/ torn (transaction_line ws) t) /\ file fs p = Some (file_text h txs ++ t).

(** The transactions a commit adds to the file. *)
Definition added (s : StorageState) (writes : list Write) (now : jsnum) : list (list CommittedWrite) :=
  match pc_writes (prepareStorageCommit writes (nextSeq s) now) with [] => [] | ws => [ws] end.

Inductive commit_result (fs : FS) (p : jsstr) (h : JsonlStorageHeader) (txs : list (list CommittedWrite)) (s : StorageState)
  (writes : list Write) (now : jsnum) : FS * StorageState * jresult CommitResult -> Prop :=
| commit_stored fs' s' c : logged_as fs' p h (txs ++ added s writes now) s' -> nextSeq s <= nextSeq s' -> commit writes now s = (s', Ok c) ->
    commit_result fs p h txs s writes now (fs', s', Ok c)
| commit_refused e : commit writes now s = (s, Err e) -> commit_result fs p h txs s writes now (fs, s, Err (JsonlSession e))
| commit_not_stored fs' s1 c : commit writes now s = (s1, Ok c) -> cut_short fs' p h s s1 ->
    commit_result fs p h txs s writes now (fs', s, Err (JsonlError "Failed to append JSONL storage")).

Lemma commit_parts writes now s s' c p :
  prepareCommit s writes now = Ok p -> commit writes now s = (s', Ok c) ->
  validateCommitted s (pc_writes p) = Ok tt /\ for_each apply_committed (pc_writes p) s = (s', Ok tt) /\
  c = CommitResult_ (pc_firstSeq p) (pc_seqs p) (pc_timestamp p) (stats s').
Proof.
  intros Hp Hc. unfold commit, applyValidated, mbind, sm_bind, reads_state, gets in Hc. rewrite Hp in Hc.
  destruct (for_each apply_committed (pc_writes p) s) as [s1 [[]|e]]; [|done]. injection Hc as <- <-. split_and!; [|done|done].
  unfold prepareCommit in Hp. by apply bind_Ok in Hp as ([] & Hv & [= <-]).
Qed.

Lemma on_session_applied ws (fs : FS) s s1 :
  for_each apply_committed ws s = (s1, Ok tt) -> on_session (applyValidated ws) (fs, s) = ((fs, s1), Ok (stats s1)).
Proof. intros H. unfold on_session, applyValidated, mbind, sm_bind, gets. cbn [snd fst]. by rewrite H. Qed.

Lemma applyCommit_result fs p h txs s writes now :
  logged_as fs p h txs s -> acceptable s writes now -> commit_result fs p h txs s writes now (applyCommit p writes now (fs, s)).
Proof.
  intros (Hh & Hfile & Ho) [Hn Hw].
  destruct (commit_outcome s _ writes now (ot_inv _ _ _ Ho) (tables_of_represents s (ot_inv _ _ _ Ho)) Hn)
    as [(e & Ec & Ep)|(s1 & pc & Ep & Ec & Hs1 & _ & Hq)]; unfold applyCommit, mbind at 1, sm_bind at 1; cbn [snd]; rewrite Ep; cbn [map_err].
  - by constructor.
  - assert (pc_writes pc = pc_writes (prepareStorageCommit writes (nextSeq s) now)) as Epc by (by apply prepareCommit_Ok in Ep as [-> _]).
    assert (nextSeq s <= nextSeq s1) as Hle by (unfold len in Hq; lia).
    pose proof (prepared_names_ok writes (nextSeq s) now Hn) as Hwn. rewrite <- Epc in Hw, Hwn. destruct (commit_parts _ _ _ _ _ _ Ep Ec) as (Hv & Ha & _).
    unfold mbind at 1, sm_bind at 1. destruct (decide (pc_writes pc = [])) as [Enil|Hne].
    { unfold mbind at 1, sm_bind at 1. cbn [mret sm_ret]. rewrite (on_session_applied _ _ _ _ Ha). cbn. eapply commit_stored; [|exact Hle|exact Ec].
      rewrite Enil in Ha. injection Ha as <-. unfold added. rewrite <- Epc, Enil, app_nil_r. done. }
    assert (added s writes now = [pc_writes pc]) as Eadd by (unfold added; rewrite <- Epc; by destruct (pc_writes pc)).
    assert (opens_to h (txs ++ [pc_writes pc]) s1) as Ho1 by by apply (opens_to_snoc h txs s).
    unfold on_file. cbn [fst snd].
    destruct (fileValue (appendFile p (transaction_line (pc_writes pc))) _ fs) as [fs1 r1] eqn:Ea.
    destruct (fileValue_cases _ _ _ _ _ Ea) as [([] & -> & Eok)|(e & -> & Eerr)].
    + unfold mbind at 1, sm_bind at 1. rewrite (on_session_applied _ _ _ _ Ha). cbn. eapply commit_stored; [|exact Hle|exact Ec].
      rewrite Eadd. split; [done|]. split; [|done]. apply append_law in Eok. by rewrite Eok, Hfile, file_text_snoc.
    + eapply commit_not_stored; [exact Ec|]. destruct (append_torn _ _ _ _ _ Eerr) as [E|(t & Ht & E)]; rewrite Hfile in E.
      * exists txs, (pc_writes pc), []. split_and!; [done..|by left|by rewrite app_nil_r].
      * exists txs, (pc_writes pc), t. split_and!; [done..|by right|done].
Qed.

(** A transaction that passes validation and throws half-way spoils the file
    it was appended to. *)
Lemma replay_spoiled h txs s ws s1 e :
  opens_to h txs s -> Forall writable_write ws -> ws <> [] -> validateCommitted s ws = Ok tt -> for_each apply_committed ws s = (s1, Err e) ->
  replay_lines new_StorageState (serialized (txs ++ [ws])) = Err (JsonlError "Invalid JSONL storage: line").
Proof using.
  intros [_ Hl _ (s0 & H0 & ->)] Hw Hne Hv Ha. unfold replay_lines. rewrite fmap_app, foldM_app.
  change (foldM replay_line new_StorageState (serialized txs)) with (replay_lines new_StorageState (serialized txs)).
  rewrite (replay_lines_txs _ _ _ Hl H0). cbn [mbind result_bind fmap list_fmap foldM].
  destruct (advance_keeps h s0) as (f & E & Hf). rewrite E in Hv, Ha.
  assert (s0 = on_nextSeq (fun _ => nextSeq s0) (on_nextSeq f s0)) as Es by by destruct s0.
  apply (validate_on_nextSeq (fun _ => nextSeq s0)) in Hv; [|cbn; lia|done]. apply (apply_all_fails _ (fun _ => nextSeq s0)) in Ha as [s2 Ha].
  rewrite <- Es in Hv, Ha. unfold replay_line. rewrite parse_serialize by done. cbn [mbind result_bind].
  unfold run_state, replayCommitted, applyValidated, mbind, sm_bind, reads_state. by rewrite Hv, Ha.
Qed.

Lemma open_spoiled fs p h txs s ws s1 e :
  writable_header h -> opens_to h txs s -> Forall writable_write ws -> ws <> [] -> validateCommitted s ws = Ok tt ->
  for_each apply_committed ws s = (s1, Err e) -> file fs p = Some (file_text h (txs ++ [ws])) -> readable fs p ->
  open is_date p fs = (fs, Err (JsonlError "Invalid JSONL storage: line")).
Proof.
  intros Hh Ho Hw Hne Hv Ha Hfile [(c & Hc)%is_Ok_exists (l & Hl)%is_Ok_exists]. unfold open, mbind at 1, sm_bind at 1.
  assert (Forall (Forall writable_write) (txs ++ [ws])) as Hlines by (apply Forall_app; split; [exact (ot_lines _ _ _ Ho)|by constructor]).
  rewrite <- (app_nil_r (file_text h _)) in Hfile.
  rewrite (read_header fs p h (txs ++ [ws]) [] l) by (done || apply not_elem_of_nil). unfold mbind at 1, sm_bind at 1.
  unfold openV4, mbind at 1, sm_bind at 1, fileValue, reads_state at 1. rewrite Hc.
  apply read_law in Hc. assert (c = file_text h (txs ++ [ws]) ++ []) as -> by congruence. unfold file_text, file_lines.
  rewrite split_complete by (apply not_elem_of_nil || by apply file_lines_complete).
  unfold mbind at 1, sm_bind at 1, reads_state at 1. rewrite (wh_version _ Hh), bool_decide_true by done. cbn [negb throw_if].
  unfold mbind at 1, sm_bind at 1, reads_state at 1. change (drop 1 (_ :: serialized (txs ++ [ws]))) with (serialized (txs ++ [ws])).
  by rewrite (replay_spoiled _ _ _ _ _ _ Ho Hw Hne Hv Ha).
Qed.

Lemma commit_spoils fs p h s writes now pc fs' s' e :
  logged fs p h s -> prepareCommit s writes now = Ok pc -> Forall writable_write (pc_writes pc) ->
  applyCommit p writes now (fs, s) = ((fs', s'), Err (JsonlSession e)) -> readable fs' p ->
  open is_date p fs' = (fs', Err (JsonlError "Invalid JSONL storage: line")).
Proof.
  intros [Hh (txs & Hfile & Ho)] Ep Hw E Hr. unfold applyCommit, mbind at 1, sm_bind at 1 in E. cbn [snd] in E. rewrite Ep in E. cbn [map_err] in E.
  unfold mbind at 1, sm_bind at 1 in E. destruct (decide (pc_writes pc = [])) as [Enil|Hne]; [by rewrite Enil in E|].
  unfold on_file in E. cbn [fst snd] in E.
  destruct (fileValue (appendFile p (transaction_line (pc_writes pc))) _ fs) as [fs1 r1] eqn:Ea.
  destruct (fileValue_cases _ _ _ _ _ Ea) as [([] & -> & Eok)|(e1 & -> & _)]; [|done].
  unfold mbind, sm_bind, on_session in E. cbn [fst snd] in E.
  destruct (applyValidated (pc_writes pc) s) as [s1 [st|e1]] eqn:Eap; [done|]. injection E as <- <- ->.
  assert (for_each apply_committed (pc_writes pc) s = (s1, Err e)) as Hfor.
  { unfold applyValidated, mbind, sm_bind, gets in Eap. destruct (for_each apply_committed (pc_writes pc) s) as [s2 [[]|e2]]; [done|].
    by injection Eap as <- <-. }
  eapply open_spoiled; [exact Hh|exact Ho|exact Hw|exact Hne| |exact Hfor| |exact Hr].
  - unfold prepareCommit in Ep. by apply bind_Ok in Ep as ([] & Hv & [= <-]).
  - apply append_law in Eok. by rewrite Eok, Hfile, file_text_snoc.
Qed.

Lemma proper_prefix_line l part : newline ∉ l -> part `prefix_of` terminated l -> part <> terminated l -> newline ∉ part.
Proof.
  unfold terminated. intros Hl [k Hk] Hne. destruct k as [|c k] using rev_ind; [rewrite app_nil_r in Hk; done|].
  rewrite app_assoc in Hk. apply app_inj_tail in Hk as [-> _]. rewrite not_elem_of_app in Hl. apply Hl.
Qed.

(** After a commit cut short the file opens to the state before it, or, when the
    line was written after all, to the state after it; and it is mended. *)
Lemma open_cut_short fs p h s s1 fs' r :
  cut_short fs p h s s1 -> readable fs p -> open is_date p fs = (fs', r) ->
  (exists s', (s' = s \/ s' = s1) /\ r = Ok (Some (Storage_ p h s')) /\ logged fs' p h s') \/
  (exists e, r = Err e /\ file fs' p = file fs p /\ not_mended fs p e).
Proof.
  intros (txs & ws & t & Hh & Ho & Ho1 & Ht & Hfile) Hr E.
  assert (newline ∉ t \/ t = transaction_line ws) as [Hnl| ->].
  { destruct Ht as [->|[->|(part & rest & Hp & Hne & Hrest & ->)]]; [left; apply not_elem_of_nil|by right|left].
    rewrite not_elem_of_app. split; [|done]. eapply proper_prefix_line; [|exact Hp|exact Hne]. apply serialize_no_newline.
    pose proof (ot_lines _ _ _ Ho1) as Hl. apply Forall_app in Hl as [_ Hl]. by apply Forall_cons in Hl as [? _]. }
  - destruct (open_torn _ _ _ _ _ _ _ _ Hh Ho Hnl Hfile Hr E) as [[-> Hl]|He]; [left; eauto|by right].
  - rewrite <- file_text_snoc in Hfile. assert (logged fs p h s1) as Hl by (split; [done|by exists (txs ++ [ws])]).
    rewrite (open_logged _ _ _ _ Hl Hr) in E. injection E as <- <-. left. exists s1. auto.
Qed.

(** * Creation *)

Lemma opens_to_new h : h_nextSeq h = None -> opens_to h [] new_StorageState.
Proof.
  intros Hn. split; [apply new_StorageState_inv|constructor|constructor|]. exists new_StorageState. split; [done|]. unfold advance. by rewrite Hn.
Qed.

Lemma validated_inv s ws s' :
  session_inv s -> Forall write_names_ok ws -> validateCommitted s ws = Ok tt -> for_each apply_committed ws s = (s', Ok tt) -> session_inv s'.
Proof.
  intros Hs Hn Hv Ha. unfold validateCommitted, validateCommittedWrites in Hv. apply bind_Ok in Hv as (st & Hv & _).
  destruct (validated_writes_apply s ws _ s _ _ (in_step_refl s) Hs (tables_of_represents s Hs) Hn Hv) as (s1 & E & Hs1 & _).
  congruence.
Qed.

Lemma create_logged p h writes now fs fs' st :
  writable_header h -> h_nextSeq h = None -> acceptable new_StorageState writes now ->
  create p h writes now fs = (fs', Ok st) -> js_path st = p /\ js_header st = h /\ logged fs' p h (js_state st).
Proof.
  intros Hh Hnone [Hn Hw] E. unfold create in E. apply sm_bind_Ok in E as (fs1 & pc & E1 & E).
  unfold session_step, reads_state in E1. injection E1 as <- E1. apply map_err_Ok in E1.
  assert (pc_writes pc = pc_writes (prepareStorageCommit writes 1 now)) as Epc by (by apply prepareCommit_Ok in E1 as [-> _]).
  cbn [nextSeq new_StorageState] in Hw. rewrite <- Epc in Hw.
  apply sm_bind_Ok in E as (fs2 & [] & Ep & E). apply sm_bind_Ok in E as (fs3 & s & Es & E). injection E as <- <-.
  unfold reads_state in Es. injection Es as <- Es. apply run_state_Ok in Es as [st' Es]. unfold applyValidated in Es.
  apply sm_bind_Ok in Es as (s1 & [] & Ha & Es). injection Es as <- _.
  assert (validateCommitted new_StorageState (pc_writes pc) = Ok tt) as Hv.
  { unfold prepareCommit in E1. by apply bind_Ok in E1 as ([] & Hv & [= <-]). }
  assert (Forall write_names_ok (pc_writes pc)) as Hwn by (rewrite Epc; by apply prepared_names_ok).
  pose proof (validated_inv _ _ _ new_StorageState_inv Hwn Hv Ha) as Hs1.
  set (txs := if decide (pc_writes pc = []) then [] else [pc_writes pc]).
  cbn [js_path js_header js_state]. split_and!; [done|done|]. split; [done|]. exists txs. split.
  - unfold publishJsonl in Ep. eapply publish_file in Ep as [_ Ep].
    2:{ apply (stages_chunks _ _ (header_line h :: (transaction_line <$> txs))). intros fs4. unfold txs. cbn [for_each]. unfold mbind, sm_bind.
      destruct (append_to _ (header_line h) fs4) as [fs5 [[]|e]]; [|done].
      destruct (decide _); [done|]. cbn. unfold mbind, sm_bind. by destruct (append_to _ _ fs5) as [fs6 [[]|e]]. }
    destruct Ep as [(_ & c & Hf & Hc)|(e & [= ] & _)]. rewrite Hf, <- Hc. unfold file_text, file_lines. f_equal.
    by rewrite fmap_cons, <- list_fmap_compose.
  - unfold txs. destruct (decide _) as [Enil|Hne].
    + rewrite Enil in Ha. injection Ha as <-. by apply opens_to_new.
    + apply (opens_to_snoc h [] new_StorageState); [by apply opens_to_new|done..].
Qed.

(** * Sessions *)

(** What happens to a session whose appends go well: commits, accepted or
    refused, and anything else that leaves its file alone. *)
Inductive session_moves (p : jsstr) : FS * StorageState -> FS * StorageState -> Prop :=
| moves_commit fs s writes now w r :
    acceptable s writes now -> applyCommit p writes now (fs, s) = (w, r) -> r <> Err (JsonlError "Failed to append JSONL storage") ->
    session_moves p (fs, s) w
| moves_elsewhere fs fs' s : file fs' p = file fs p -> session_moves p (fs, s) (fs', s).

(** The log only grows. *)
Lemma session_moves_grow p h txs s fs fs' s' :
  session_moves p (fs, s) (fs', s') -> logged_as fs p h txs s ->
  exists more, logged_as fs' p h (txs ++ more) s' /\ nextSeq s <= nextSeq s' /\ (more = [] \/ exists writes now, more = added s writes now).
Proof.
  intros Hm Hl. inversion Hm as [fs1 s1 writes now w1 r Ha E Hr|fs1 fs2 s1 E]; subst.
  - pose proof (applyCommit_result _ _ _ _ _ _ _ Hl Ha) as Hc. rewrite E in Hc. inversion Hc; subst; [|exists []; rewrite app_nil_r; split; [done|]; split; [lia|by left]|done].
    exists (added s writes now). split; [done|]. split; [done|]. right. by exists writes, now.
  - exists []. rewrite app_nil_r. destruct Hl as (Hh & Hf & Ho). split; [split; [done|]; by rewrite E|]. split; [lia|by left].
Qed.

Lemma added_from s writes now n : n <= nextSeq s ->
  match added s writes now with [] => True | ws :: _ => exists w ws', ws = w :: ws' /\ n <= write_seq w end.
Proof using.
  intros Hn. unfold added, prepareStorageCommit. destruct writes as [|w writes]; [done|]. cbn. eexists _, _. split; [done|].
  rewrite commitWrite_seq. lia.
Qed.

Lemma session_log_grows p h txs s fs fs' s' :
  rtc (session_moves p) (fs, s) (fs', s') -> logged_as fs p h txs s ->
  exists more, logged_as fs' p h (txs ++ more) s' /\
    match more with [] => True | ws :: _ => exists w ws', ws = w :: ws' /\ nextSeq s <= write_seq w end.
Proof.
  intros Hm Hl. remember (fs', s') as w' eqn:Ew. remember (fs, s) as w eqn:Ew0.
  assert (forall n fs1 s1 more0, n <= nextSeq s1 -> w = (fs1, s1) -> logged_as fs1 p h (txs ++ more0) s1 ->
    match more0 with [] => True | ws :: _ => exists w ws', ws = w :: ws' /\ n <= write_seq w end ->
    exists more, logged_as fs' p h (txs ++ more) s' /\ match more with [] => True | ws :: _ => exists w ws', ws = w :: ws' /\ n <= write_seq w end) as Hgen.
  { clear Ew0 Hl. induction Hm as [w|w [fs2 s2] w'' Hstep _ IH]; intros n fs1 s1 more0 Hn -> Hl Hmore.
    - injection Ew as -> ->. by exists more0.
    - destruct (session_moves_grow _ _ _ _ _ _ _ Hstep Hl) as (more1 & Hl2 & Hle & Hmore1). rewrite <- app_assoc in Hl2.
      apply (IH Ew n fs2 s2 (more0 ++ more1)); [lia|done|done|]. destruct more0 as [|ws0 more0]; [|done].
      destruct Hmore1 as [->|(writes & now & ->)]; [done|]. by apply added_from. }
  apply (Hgen (nextSeq s) fs s []); [lia|done|by rewrite app_nil_r|done].
Qed.

Lemma session_stays_logged p h fs s fs' s' :
  rtc (session_moves p) (fs, s) (fs', s') -> logged fs p h s -> logged fs' p h s'.
Proof.
  intros Hm [Hh (txs & Hl)]. destruct (session_log_grows _ _ _ _ _ _ _ Hm (conj Hh Hl)) as (more & Hl' & _). by eapply logged_as_logged.
Qed.
End Files.
