(* ===== verification/JsonlFork.v ===== *)
(** Forks of session files: [packages/agent/src/harness/session/jsonl/fork.ts],
    for sources of format 4.

    The source is read twice: once for an index of what is current, once for the
    writes the destination takes over.  The ids that [selectBranchFork] selects,
    which the code keeps in the index, are those of its plan. *)
From Stdlib Require Import Sorted.
From S2P Require Import Prelude JsBase Json JsonText SortedIds JsFloat JsonParse SessionTypes SessionState SessionFork SessionInv JsonlCodec JsonlStorage JsonlDurable.

(** * Sessions as the writes that made them, one after the other. *)

(** The writes from an empty session to [s], each ready when it was applied. *)
Inductive history : list CommittedWrite -> StorageState -> Prop :=
| history_nil : history [] new_StorageState
| history_snoc ws s w : history ws s -> write_ready s w -> history (ws ++ [w]) (write_done w s).

Definition no_tables : tables := Tables [] [] ∅ ∅.

Lemma history_inv ws s : history ws s -> session_inv s.
Proof. induction 1; [apply new_StorageState_inv|by apply write_done_inv]. Qed.

Lemma history_represents ws s : history ws s -> represents s (foldl table_write no_tables ws).
Proof.
  induction 1 as [|ws s w Hh IH Hr]; [apply represents_new|]. rewrite foldl_app. cbn.
  apply write_done_represents; [by eapply history_inv|done..].
Qed.

Lemma history_names ws s : history ws s -> Forall write_names_ok ws.
Proof. induction 1 as [|ws s w Hh IH (_ & Hn & _)]; [constructor|]. apply Forall_app. by split; [|constructor]. Qed.

Lemma history_below ws s : history ws s -> Forall (fun w => write_seq w < nextSeq s) ws.
Proof.
  induction 1 as [|ws s w Hh IH (Hq & _)]; [constructor|]. cbn. apply Forall_app. split; [|repeat constructor; lia].
  eapply Forall_impl; [exact IH|]. cbn. lia.
Qed.

Lemma history_increasing ws s : history ws s -> increasing (write_seq <$> ws).
Proof.
  induction 1 as [|ws s w Hh IH (Hq & _)]; [constructor|]. apply increasing_snoc; [done|].
  intros y Hy. pose proof (history_below _ _ Hh) as Hb. rewrite Forall_forall in Hb. specialize (Hb y Hy). lia.
Qed.

Lemma history_nextSeq ws s : history ws s -> nextSeq s = match last ws with Some w => write_seq w + 1 | None => 1 end.
Proof. induction 1 as [|ws s w Hh IH Hr]; [done|]. by rewrite last_snoc. Qed.

Lemma history_seqs_positive ws s : history ws s -> 1 <= nextSeq s /\ Forall (fun w => 1 <= write_seq w) ws.
Proof.
  induction 1 as [|ws s w Hh [IH1 IH2] (Hq & _)]; [done|]. cbn. split; [lia|]. apply Forall_app. split; [done|]. repeat constructor. lia.
Qed.

(** * Transactions that were validated *)

Lemma validated_history s0 ws : forall pre st s st',
  in_step s0 st s -> history pre s -> Forall write_names_ok ws ->
  foldM (validate_write (has_entry_or_usage s0) (has_entry s0)) st ws = Ok st' ->
  exists s', for_each apply_committed ws s = (s', Ok tt) /\ history (pre ++ ws) s'.
Proof.
  induction ws as [|w ws IH]; intros pre st s st' Hst Hh Hn Hv; cbn in Hv.
  - exists s. by rewrite app_nil_r.
  - apply bind_Ok in Hv as (st1 & H1 & H2). apply Forall_cons in Hn as [Hw Hn].
    pose proof (in_step_ready _ _ _ _ _ Hst Hw H1) as Hr.
    destruct (IH (pre ++ [w]) st1 (write_done w s) st') as (s' & E & Hs'); [by eapply in_step_write|by constructor|done|done|].
    exists s'. rewrite <- app_assoc in Hs'. split; [|done]. cbn. unfold mbind, sm_bind.
    by rewrite apply_committed_done by (done || by eapply history_inv).
Qed.

Lemma replay_history txs : forall pre s s',
  history pre s -> Forall (Forall write_names_ok) txs -> replay_txs s txs = Ok s' -> history (pre ++ concat txs) s'.
Proof.
  induction txs as [|ws txs IH]; intros pre s s' Hh Hn H; unfold replay_txs in *; cbn [foldM] in H.
  - injection H as <-. by rewrite app_nil_r.
  - apply bind_Ok in H as (s1 & H1 & H2). apply Forall_cons in Hn as [Hw Hn]. apply replay_Ok in H1 as [Hv Ha].
    unfold validateCommitted, validateCommittedWrites in Hv. apply bind_Ok in Hv as (st & Hv & _).
    destruct (validated_history s ws pre _ s _ (in_step_refl s) Hh Hw Hv) as (s2 & E & Hh2).
    assert (s2 = s1) as -> by congruence. cbn [concat]. rewrite app_assoc. by eapply IH.
Qed.

(** One write that is ready passes validation by itself. *)
Lemma ready_validated s w : session_inv s -> write_ready s w -> validateCommitted s [w] = Ok tt.
Proof.
  intros Hs (Hq & Hn & Hw). unfold validateCommitted, validateCommittedWrites. cbn [foldM]. unfold validate_write, check_id.
  rewrite (proj2 (Z.leb_gt _ _)) by lia. destruct w as [e|r|p|kind seq ns key]; [| |done|done].
  - destruct Hw as [[H1 H2] Hp]. rewrite H1, H2. cbn [is_Some]. rewrite !(bool_decide_false (is_Some None)) by (by intros []).
    rewrite bool_decide_false by set_solver. destruct (e_parentId e) as [p|]; [|done].
    by rewrite bool_decide_true by by apply Hp.
  - destruct Hw as [H1 H2]. rewrite H1, H2. rewrite !(bool_decide_false (is_Some None)) by (by intros []).
    by rewrite bool_decide_false by set_solver.
Qed.

(** A history is replayed one write at a time. *)
Lemma history_replay ws s : history ws s -> replay_txs new_StorageState ((fun w => [w]) <$> ws) = Ok s.
Proof.
  induction 1 as [|ws s w Hh IH Hr]; [done|]. unfold replay_txs in *. rewrite fmap_app, foldM_app, IH. cbn [mbind result_bind fmap list_fmap foldM].
  pose proof (history_inv _ _ Hh) as Hs. rewrite (proj2 (replay_Ok [w] s (write_done w s))); [done|].
  split; [by apply ready_validated|]. cbn. unfold mbind, sm_bind. by rewrite apply_committed_done by (done || apply Hr).
Qed.

(** * What a log says of an address *)

Abbreviation place := (jsstr * jsstr)%type.

Definition put_place (p : CommittedPut) : place := (p_namespace p, p_key p).

(** The value and the list after one more write. *)
Definition value_after (a : place) (v : option (json * Seq)) (w : CommittedWrite) : option (json * Seq) :=
  match w with
  | CommittedPutWrite (Put_ KindValue seq ns key x) => if decide ((ns, key) = a) then Some (x, seq) else v
  | CommittedDelete KindValue _ ns key => if decide ((ns, key) = a) then None else v
  | _ => v
  end.

Definition list_after (a : place) (l : list ListElement) (w : CommittedWrite) : list ListElement :=
  match w with
  | CommittedPutWrite (Put_ KindList seq ns key x) => if decide ((ns, key) = a) then l ++ [ListElement_ seq x] else l
  | CommittedDelete KindList _ ns key => if decide ((ns, key) = a) then [] else l
  | _ => l
  end.

Definition value_of_log (ws : list CommittedWrite) (a : place) : option (json * Seq) := foldl (value_after a) None ws.
Definition list_of_log (ws : list CommittedWrite) (a : place) : list ListElement := foldl (list_after a) [] ws.
Definition entry_of_write (w : CommittedWrite) : option Entry := match w with CommittedEntry e => Some e | _ => None end.
Definition row_of_write (w : CommittedWrite) : option UsageRow := match w with CommittedUsage r => Some r | _ => None end.

Lemma value_of_log_snoc ws w a : value_of_log (ws ++ [w]) a = value_after a (value_of_log ws a) w.
Proof. unfold value_of_log. by rewrite foldl_app. Qed.

Lemma list_of_log_snoc ws w a : list_of_log (ws ++ [w]) a = list_after a (list_of_log ws a) w.
Proof. unfold list_of_log. by rewrite foldl_app. Qed.

Lemma log_tables ws :
  let t := foldl table_write no_tables ws in
  t_entries t = omap entry_of_write ws /\ t_usage t = omap row_of_write ws /\
  (forall a, t_values t !! a = value_of_log ws a) /\ (forall a, default [] (t_lists t !! a) = list_of_log ws a).
Proof.
  induction ws as [|w ws (IH1 & IH2 & IH3 & IH4)] using rev_ind; [done|]. cbn zeta in *.
  rewrite foldl_app, !omap_app. set (t := foldl table_write no_tables ws) in *.
  rewrite <- IH1, <- IH2. split_and!; [| |intros a; rewrite value_of_log_snoc, <- IH3|intros a; rewrite list_of_log_snoc, <- IH4]; destruct t as [es us vs ls].
  - destruct w as [e|r|[[] seq n k v]|[] seq n k]; cbn; by rewrite ?app_nil_r.
  - destruct w as [e|r|[[] seq n k v]|[] seq n k]; cbn; by rewrite ?app_nil_r.
  - destruct w as [e|r|[[] seq n k v]|[] seq n k]; cbn; try done; [apply lookup_insert_if|apply lookup_delete_if].
  - destruct w as [e|r|[[] seq n k v]|[] seq n k]; cbn; try done.
    + rewrite lookup_insert_if. case_decide as E; [by subst|done].
    + rewrite lookup_delete_if. by case_decide.
Qed.

(** What a session holds is what its log says. *)
Lemma history_entries ws s : history ws s -> entriesBySeq s = omap entry_of_write ws.
Proof. intros Hh. rewrite (rp_entries _ _ (history_represents _ _ Hh)). apply log_tables. Qed.

Lemma history_usage ws s : history ws s -> (usage s).*2 = omap row_of_write ws.
Proof. intros Hh. rewrite (rp_usage _ _ (history_represents _ _ Hh)). apply log_tables. Qed.

Lemma history_value ws s ns key : history ws s -> names_ok ns key -> value_at s ns key = value_of_log ws (ns, key).
Proof. intros Hh Hn. rewrite (rp_values _ _ (history_represents _ _ Hh)) by done. apply log_tables. Qed.

Lemma history_list ws s ns key : history ws s -> names_ok ns key -> elements_at (listValues s) (physicalKey ns key) = list_of_log ws (ns, key).
Proof. intros Hh Hn. rewrite (rp_lists _ _ (history_represents _ _ Hh)) by done. apply log_tables. Qed.

Record JsonlForkSourceMetadata : Type := SourceMetadata { sm_id : jsstr; sm_cwd : jsstr; sm_path : jsstr }.

(** * Transactions up to a boundary *)

Definition reachesForkBoundary (writes : list CommittedWrite) (stopBeforeSeq : option Seq) : jresult bool :=
  match stopBeforeSeq, writes, last writes with
  | Some stop, first :: _, Some last =>
      if stop <=? write_seq first then Ok true
      else throw_if (stop <=? write_seq last) (JsonlError "JSONL transaction crosses fork sequence boundary");; Ok false
  | _, _, _ => Ok false
  end.

(** The lines after the header, each transaction given to [body] as it is read. *)
Fixpoint readJsonlForkTransactions {S} (stopBeforeSeq : option Seq) (body : list CommittedWrite -> SM S jsonl_err unit)
  (lines : list TextLine) : SM S jsonl_err unit :=
  match lines with
  | TextLine_ text true :: lines =>
      writes ← reads_state (fun _ => parseJsonlTransaction text);
      stop ← reads_state (fun _ => reachesForkBoundary writes stopBeforeSeq);
      if stop : bool then mret tt
      else body writes;; readJsonlForkTransactions stopBeforeSeq body lines
  | _ => mret tt
  end.

(** * The index *)

Record JsonlForkIndex : Type := Index_ {
  currentScalarSeqs : gmap jsstr Seq;
  branchTips : gmap jsstr json;
  firstSurvivingListSeqs : gmap jsstr Seq;
  entryParents : gmap jsstr (option jsstr);
  laneConfigs : gset jsstr;
  laneStates : gset jsstr;
}.

Definition new_JsonlForkIndex : JsonlForkIndex := Index_ ∅ ∅ ∅ ∅ ∅ ∅.

Definition applyEntry (id : jsstr) (parentId : option jsstr) (ix : JsonlForkIndex) : JsonlForkIndex :=
  Index_ (currentScalarSeqs ix) (branchTips ix) (firstSurvivingListSeqs ix) (<[id := parentId]> (entryParents ix))
    (laneConfigs ix) (laneStates ix).

(** [value] is what is set, or nothing for a deletion. *)
Definition applyLaneValue (namespace key : jsstr) (value : option json) (ix : JsonlForkIndex) : JsonlForkIndex :=
  let toggle (keys : gset jsstr) := match value with Some _ => {[key]} ∪ keys | None => keys ∖ {[key]} end in
  if ns_is namespace "shuvpi.branch.tip" then
    Index_ (currentScalarSeqs ix) (match value with Some v => <[key := v]> (branchTips ix) | None => delete key (branchTips ix) end)
      (firstSurvivingListSeqs ix) (entryParents ix) (laneConfigs ix) (laneStates ix)
  else if ns_is namespace "shuvpi.lane.config" then
    Index_ (currentScalarSeqs ix) (branchTips ix) (firstSurvivingListSeqs ix) (entryParents ix) (toggle (laneConfigs ix)) (laneStates ix)
  else if ns_is namespace "shuvpi.lane.state" then
    Index_ (currentScalarSeqs ix) (branchTips ix) (firstSurvivingListSeqs ix) (entryParents ix) (laneConfigs ix) (toggle (laneStates ix))
  else ix.

Definition setScalarSeq (key : jsstr) (seq : option Seq) (ix : JsonlForkIndex) : JsonlForkIndex :=
  Index_ (match seq with Some n => <[key := n]> (currentScalarSeqs ix) | None => delete key (currentScalarSeqs ix) end)
    (branchTips ix) (firstSurvivingListSeqs ix) (entryParents ix) (laneConfigs ix) (laneStates ix).

Definition onListSeqs (f : gmap jsstr Seq -> gmap jsstr Seq) (ix : JsonlForkIndex) : JsonlForkIndex :=
  Index_ (currentScalarSeqs ix) (branchTips ix) (f (firstSurvivingListSeqs ix)) (entryParents ix) (laneConfigs ix) (laneStates ix).

Definition apply_index (ix : JsonlForkIndex) (write : CommittedWrite) : JsonlForkIndex :=
  match write with
  | CommittedEntry e => applyEntry (e_id e) (e_parentId e) ix
  | CommittedUsage _ => ix
  | CommittedPutWrite (Put_ KindValue seq namespace key value) =>
      applyLaneValue namespace key (Some value) (setScalarSeq (physicalKey namespace key) (Some seq) ix)
  | CommittedDelete KindValue _ namespace key =>
      applyLaneValue namespace key None (setScalarSeq (physicalKey namespace key) None ix)
  | CommittedPutWrite (Put_ KindList seq namespace key _) =>
      onListSeqs (fun m => match m !! physicalKey namespace key with None => <[physicalKey namespace key := seq]> m | Some _ => m end) ix
  | CommittedDelete KindList _ namespace key => onListSeqs (delete (physicalKey namespace key)) ix
  end.

Definition applyWrites (writes : list CommittedWrite) (ix : JsonlForkIndex) : JsonlForkIndex := foldl apply_index ix writes.

Definition hasCompleteLane (ix : JsonlForkIndex) (branch : jsstr) : bool :=
  bool_decide (branch ∈ laneConfigs ix) && bool_decide (branch ∈ laneStates ix).

Definition getCurrentScalarSeq (ix : JsonlForkIndex) (namespace key : jsstr) : option Seq := currentScalarSeqs ix !! physicalKey namespace key.

Definition isSurvivingListElement (ix : JsonlForkIndex) (namespace key : jsstr) (seq : Seq) : bool :=
  match firstSurvivingListSeqs ix !! physicalKey namespace key with
  | None => false
  | Some firstSeq => firstSeq <=? seq
  end.

(** * The plan *)

Definition selectJsonlFork (ix : JsonlForkIndex) (fuel : nat) (options : ForkOptions) : option (result session_err ForkPlan) :=
  match options with
  | ForkTree => Some (Ok PlanTree)
  | ForkBranch branch entryId before =>
      match (match branchTips ix !! branch with None => Ok None | Some v => Some <$> tip_of_json v end) with
      | Err e => Some (Err e)
      | Ok tip =>
          r ← selectBranchFork (fun id => entryParents ix !! id) fuel branch entryId before tip;
          Some (plan ← r;
                throw_if (negb (hasCompleteLane ix branch)) (SessionError "Source branch is not a configured AgentLane");;
                Ok plan)
      end
  end.

Definition projectJsonlForkWrite (write : CommittedWrite) (ix : JsonlForkIndex) (plan : ForkPlan) (isEntryCopied : jsstr -> bool)
  : result session_err (option CommittedWrite) :=
  match write with
  | CommittedEntry e => Ok (if isEntryCopied (e_id e) then Some write else None)
  | CommittedPutWrite put =>
      let current :=
        match p_kind put with
        | KindValue => bool_decide (getCurrentScalarSeq ix (p_namespace put) (p_key put) = Some (p_seq put))
        | KindList => isSurvivingListElement ix (p_namespace put) (p_key put) (p_seq put)
        end in
      if current then option_map CommittedPutWrite <$> projectForkCurrentStateWrite put plan isEntryCopied else Ok None
  | CommittedDelete _ _ _ _ | CommittedUsage _ => Ok None
  end.

(** * The fork *)

(** An open source with the sequence captured, or a closed one. *)
Record JsonlForkInput : Type := ForkInput_ { fi_metadata : JsonlForkSourceMetadata; fi_nextSeq : option Seq }.

Definition num_seq (n : jsnum) : Seq := match n with NInt z => z | NFlt _ => 0 end.

Section Fork.
Context {FS : Type} `{FileSystem FS}.
Variable is_date : jsstr -> bool.

Abbreviation fstep := (SM FS jsonl_err).

(** The first line of a reader just opened, and the lines after it. *)
Definition readJsonlForkHeader (lines : list TextLine) (source : JsonlForkSourceMetadata) : fstep (JsonlStorageHeader * list TextLine) :=
  parsed ← read_header_line is_date lines;
  reads_state (fun _ =>
    match parsed with
    | HeaderV3 _ => Err (JsonlError "Invalid JSONL storage: expected format 4 header")
    | HeaderV4 header =>
        throw_if (negb (bool_decide (h_id header = sm_id source)) || negb (bool_decide (h_cwd header = sm_cwd source)))
          (JsonlError "Session identity does not match header");;
        throw_if (negb (bool_decide (h_storageVersion header = NInt JSONL_STORAGE_VERSION)))
          (JsonlError "Session uses unsupported storage version");;
        Ok (header, drop 1 lines)
    end).

Definition open_source (source : JsonlForkSourceMetadata) : fstep (JsonlStorageHeader * list TextLine) :=
  lines ← fileValue (reads_state (openTextLineReader (sm_path source))) "Failed to open JSONL fork source";
  readJsonlForkHeader lines source.

(** The index, and the highest sequence of a complete transaction. *)
Definition index_transaction (writes : list CommittedWrite) : SM (JsonlForkIndex * Seq) jsonl_err unit :=
  modify (fun '(ix, highest) => (applyWrites writes ix, match last writes with Some w => write_seq w | None => highest end)).

Definition indexForkInput (input : JsonlForkInput) : fstep (JsonlForkIndex * Seq) :=
  '(header, lines) ← open_source (fi_metadata input);
  '(ix, highestCompleteSeq) ← reads_state (fun _ =>
    let '(st, r) := readJsonlForkTransactions (fi_nextSeq input) index_transaction lines (new_JsonlForkIndex, 0) in
    r;; Ok st);
  mret (ix, match fi_nextSeq input with
            | Some nextSeq => nextSeq
            | None => Z.max (match h_nextSeq header with Some n => num_seq n | None => 1 end) (highestCompleteSeq + 1)
            end).

Definition streamForkWrites (input : JsonlForkInput) (stopBeforeSeq : Seq) (body : CommittedWrite -> fstep unit) : fstep unit :=
  '(_, lines) ← open_source (fi_metadata input);
  readJsonlForkTransactions (Some stopBeforeSeq) (for_each body) lines.

Definition with_nextSeq (header : JsonlStorageHeader) (nextSeq : Seq) : JsonlStorageHeader :=
  Header_ (h_id header) (h_storageVersion header) (h_createdAt header) (h_cwd header) (h_parentSessionId header)
    (h_legacyParentSessionPath header) (Some (NInt nextSeq)).

Definition forkWrite (ix : JsonlForkIndex) (plan : ForkPlan) (append : list CommittedWrite -> fstep unit) (write : CommittedWrite) : fstep unit :=
  projected ← reads_state (fun _ => map_err JsonlSession (projectJsonlForkWrite write ix plan (isEntryCopied plan)));
  match projected with Some w => append [w] | None => mret tt end.

(** [None] is running out of [fuel] on the way up the branch. *)
Definition runJsonlFork (fuel : nat) (input : JsonlForkInput) (destinationPath : jsstr) (destinationHeader : JsonlStorageHeader)
  (fork : ForkOptions) : fstep (option unit) :=
  '(ix, nextSeq) ← indexForkInput input;
  match selectJsonlFork ix fuel fork with
  | None => mret None
  | Some selected =>
      plan ← reads_state (fun _ => map_err JsonlSession selected);
      publishJsonl destinationPath (with_nextSeq destinationHeader nextSeq) (fun append =>
        streamForkWrites input nextSeq (forkWrite ix plan append));;
      mret (Some tt)
  end.
End Fork.
