(* ===== verification/JsonlForkSpec.v ===== *)
(** Forks of session files against forks in memory: what the index of the source
    knows, which writes the destination takes over, and the session they make. *)
From Stdlib Require Import Sorted.
From S2P Require Import Prelude JsBase JsFloat Json SortedIds SessionTypes SessionState SessionFork SessionInv SessionBranch SessionForkSpec JsonlCodec JsonlStorage JsonlDurable JsonlFork.

(** * Folds and [omap] *)

Lemma foldl_none {A B} (step : option B -> A -> option B) (l : list A) : (forall w acc, w ∈ l -> step acc w = acc) -> foldl step None l = None.
Proof.
  intros H. induction l as [|w l IH] using rev_ind; [done|]. rewrite foldl_app. cbn. rewrite IH, H; [done|set_solver|].
  intros x acc Hx. apply H. set_solver.
Qed.

Lemma omap_none {A B} (f : A -> option B) (l : list A) : (forall x, x ∈ l -> f x = None) -> omap f l = [].
Proof. induction l as [|x l IH]; intros H; [done|]. cbn. rewrite H by by left. apply IH. intros y Hy. apply H. by right. Qed.

Lemma omap_ext_elem {A B} (f g : A -> option B) (l : list A) : (forall x, x ∈ l -> f x = g x) -> omap f l = omap g l.
Proof.
  induction l as [|x l IH]; intros H; [done|]. cbn. rewrite H by by left. destruct (g x); [f_equal|]; apply IH; intros y Hy; apply H; by right.
Qed.

Lemma omap_omap {A B C} (f : A -> option B) (g : B -> option C) (l : list A) : omap g (omap f l) = omap (fun x => f x ≫= g) l.
Proof. induction l as [|x l IH]; [done|]. cbn. destruct (f x) as [y|]; cbn; [|exact IH]. destruct (g y); [f_equal|]; exact IH. Qed.

(** A fold in which only one element of the list changes anything. *)
Lemma foldl_pick {A B} (step : option B -> A -> option B) (r : option B) (w0 : A) (l : list A) :
  (forall w acc, w ∈ l -> w = w0 \/ step acc w = acc) -> (forall acc, step acc w0 = match r with Some x => Some x | None => acc end) ->
  w0 ∈ l -> foldl step None l = r.
Proof.
  intros Hl H0 Hin.
  assert (forall l', l' ⊆ l -> (foldl step None l' = None \/ foldl step None l' = r) /\ (w0 ∈ l' -> foldl step None l' = r)) as H; [|by apply H].
  induction l' as [|w l' IH] using rev_ind; intros Hsub; [split; [by left|by intros ?%elem_of_nil]|].
  destruct IH as [IH1 IH2]; [set_solver|]. rewrite foldl_app. cbn. set (acc := foldl step None l') in *.
  assert (w = w0 -> step acc w = r) as Hw.
  { intros ->. rewrite H0. destruct r; [done|]. by destruct IH1. }
  destruct (Hl w acc) as [E|E]; [set_solver|rewrite (Hw E); auto|]. rewrite E. split; [done|].
  rewrite elem_of_app, list_elem_of_singleton. intros [Hin'|<-]; [by apply IH2|]. rewrite <- E. by apply Hw.
Qed.

Lemma foldl_omap {A B C} (step : C -> B -> C) (f : A -> option B) (l : list A) c :
  foldl step c (omap f l) = foldl (fun c a => match f a with Some b => step c b | None => c end) c l.
Proof. revert c. induction l as [|a l IH]; intros c; cbn; [done|]. destruct (f a); apply IH. Qed.

(** * The index *)

(** The sequence of the first element of a list since it was last deleted. *)
Definition first_after (a : place) (f : option Seq) (w : CommittedWrite) : option Seq :=
  match w with
  | CommittedPutWrite (Put_ KindList seq ns key _) =>
      if decide ((ns, key) = a) then match f with None => Some seq | Some _ => f end else f
  | CommittedDelete KindList _ ns key => if decide ((ns, key) = a) then None else f
  | _ => f
  end.

Definition first_of_log (ws : list CommittedWrite) (a : place) : option Seq := foldl (first_after a) None ws.

Lemma first_of_log_snoc ws w a : first_of_log (ws ++ [w]) a = first_after a (first_of_log ws a) w.
Proof. unfold first_of_log. by rewrite foldl_app. Qed.

Abbreviation tip_space := (js "shuvpi.branch.tip").
Abbreviation config_space := (js "shuvpi.lane.config").
Abbreviation state_space := (js "shuvpi.lane.state").

Lemma names_ok_space ns key : ns <> [] -> 0 ∉ ns -> names_ok ns key <-> 0 ∉ key.
Proof. intros H1 H2. rewrite names_ok_spec. tauto. Qed.

(** What the index knows of the writes it was given. *)
Record indexes (ws : list CommittedWrite) (ix : JsonlForkIndex) : Prop := Indexes {
  ix_scalars : forall ns key, names_ok ns key -> getCurrentScalarSeq ix ns key = snd <$> value_of_log ws (ns, key);
  ix_lists : forall ns key, names_ok ns key -> firstSurvivingListSeqs ix !! physicalKey ns key = first_of_log ws (ns, key);
  ix_tips : forall key, branchTips ix !! key = fst <$> value_of_log ws (tip_space, key);
  ix_configs : forall key, key ∈ laneConfigs ix <-> is_Some (value_of_log ws (config_space, key));
  ix_states : forall key, key ∈ laneStates ix <-> is_Some (value_of_log ws (state_space, key));
}.

Lemma lane_value_scalars ns key v ix : currentScalarSeqs (applyLaneValue ns key v ix) = currentScalarSeqs ix.
Proof. unfold applyLaneValue. by repeat split_if. Qed.

Lemma lane_value_lists ns key v ix : firstSurvivingListSeqs (applyLaneValue ns key v ix) = firstSurvivingListSeqs ix.
Proof. unfold applyLaneValue. by repeat split_if. Qed.

Lemma lane_value_parents ns key v ix : entryParents (applyLaneValue ns key v ix) = entryParents ix.
Proof. unfold applyLaneValue. by repeat split_if. Qed.

Lemma lookup_set_or_delete {A} (m : gmap jsstr A) (k k' : jsstr) (o : option A) :
  match o with Some x => <[k := x]> m | None => delete k m end !! k' = if decide (k = k') then o else m !! k'.
Proof.
  case_decide as E; [subst; destruct o; [by rewrite lookup_insert_eq|by rewrite lookup_delete_eq]|].
  destruct o; [by rewrite lookup_insert_ne|by rewrite lookup_delete_ne].
Qed.

Lemma lane_value_tips ns key v ix k :
  branchTips (applyLaneValue ns key v ix) !! k = if decide ((ns, key) = (tip_space, k)) then v else branchTips ix !! k.
Proof.
  unfold applyLaneValue, ns_is. case_bool_decide as E; [subst ns|].
  - cbn [branchTips]. rewrite lookup_set_or_delete. destruct (decide (key = k)) as [->|Hk]; [by rewrite decide_True|by rewrite decide_False by congruence].
  - rewrite decide_False by congruence. by repeat split_if.
Qed.

(** A set of keys after one of them was set or deleted. *)
Lemma toggled (keys : gset jsstr) key (v : option json) k (P : Prop) :
  (k ∈ keys <-> P) ->
  k ∈ match v with Some _ => {[key]} ∪ keys | None => keys ∖ {[key]} end <-> (if decide (key = k) then is_Some v else P).
Proof.
  intros HP. case_decide as E; [subst key|]; destruct v; rewrite ?elem_of_union, ?elem_of_difference, elem_of_singleton.
  - split; [by eexists|by left].
  - split; [by intros [_ []]|by intros []].
  - rewrite <- HP. split; [by intros [->|]|by right].
  - rewrite <- HP. split; [by intros [? _]|]. intros H. split; [done|]. by intros ->.
Qed.

Lemma lane_value_configs ns key v ix k P : (k ∈ laneConfigs ix <-> P) ->
  k ∈ laneConfigs (applyLaneValue ns key v ix) <-> (if decide ((ns, key) = (config_space, k)) then is_Some v else P).
Proof.
  intros HP. unfold applyLaneValue, ns_is. case_bool_decide as E1; [subst ns; by rewrite decide_False|].
  case_bool_decide as E2; [subst ns|].
  - cbn [laneConfigs]. rewrite (toggled _ key v k P HP). destruct (decide (key = k)) as [->|]; [by rewrite decide_True|by rewrite decide_False by congruence].
  - rewrite decide_False by congruence. by split_if.
Qed.

Lemma lane_value_states ns key v ix k P : (k ∈ laneStates ix <-> P) ->
  k ∈ laneStates (applyLaneValue ns key v ix) <-> (if decide ((ns, key) = (state_space, k)) then is_Some v else P).
Proof.
  intros HP. unfold applyLaneValue, ns_is. case_bool_decide as E1; [subst ns; by rewrite decide_False|].
  case_bool_decide as E2; [subst ns; by rewrite decide_False|]. case_bool_decide as E3; [subst ns|].
  - cbn [laneStates]. rewrite (toggled _ key v k P HP). destruct (decide (key = k)) as [->|]; [by rewrite decide_True|by rewrite decide_False by congruence].
  - by rewrite decide_False by congruence.
Qed.

(** The address of a value, after it was set or deleted. *)
Lemma indexes_value ws ix ns key v w :
  indexes ws ix -> names_ok ns key ->
  (forall a, value_of_log (ws ++ [w]) a = if decide ((ns, key) = a) then v else value_of_log ws a) ->
  (forall a, first_of_log (ws ++ [w]) a = first_of_log ws a) ->
  indexes (ws ++ [w]) (applyLaneValue ns key (fst <$> v) (setScalarSeq (physicalKey ns key) (snd <$> v) ix)).
Proof.
  intros [H1 H2 H3 H4 H5] Hn Hv Hf. split.
  - intros ns' key' Hn'. unfold getCurrentScalarSeq in *. rewrite lane_value_scalars, Hv. cbn [setScalarSeq currentScalarSeqs].
    rewrite lookup_set_or_delete, key_cases by done. case_decide; [done|by apply H1].
  - intros ns' key' Hn'. rewrite lane_value_lists, Hf. by apply H2.
  - intros k. rewrite lane_value_tips, Hv. case_decide; [done|apply H3].
  - intros k. rewrite (lane_value_configs _ _ _ (setScalarSeq _ _ ix) _ _ (H4 k)), Hv. case_decide; [by rewrite fmap_is_Some|done].
  - intros k. rewrite (lane_value_states _ _ _ (setScalarSeq _ _ ix) _ _ (H5 k)), Hv. case_decide; [by rewrite fmap_is_Some|done].
Qed.

(** A write that changes no value; lists change with [f]. *)
Lemma indexes_list ws ix f w :
  indexes ws ix -> (forall a, value_of_log (ws ++ [w]) a = value_of_log ws a) ->
  (forall ns key, names_ok ns key -> f (firstSurvivingListSeqs ix) !! physicalKey ns key = first_of_log (ws ++ [w]) (ns, key)) ->
  indexes (ws ++ [w]) (onListSeqs f ix).
Proof.
  intros [H1 H2 H3 H4 H5] Hv Hf. split; intros; rewrite ?Hv; [by apply H1|by apply Hf|apply H3|apply H4|apply H5].
Qed.

Lemma indexes_snoc ws ix w : indexes ws ix -> write_names_ok w -> indexes (ws ++ [w]) (apply_index ix w).
Proof.
  intros Hix Hw. assert (forall a, value_of_log (ws ++ [w]) a = value_after a (value_of_log ws a) w) as Hv by (intros; apply value_of_log_snoc).
  assert (forall a, first_of_log (ws ++ [w]) a = first_after a (first_of_log ws a) w) as Hf by (intros; apply first_of_log_snoc).
  destruct w as [e|r|[[] seq n k v]|[] seq n k]; cbn [apply_index value_after first_after] in *.
  1, 2: by destruct Hix as [H1 H2 H3 H4 H5]; split; intros; rewrite ?Hv, ?Hf; [apply H1|apply H2|apply H3|apply H4|apply H5].
  - by apply (indexes_value ws ix n k (Some (v, seq))).
  - apply indexes_list; [done|done|]. intros ns key Hn. rewrite Hf. pose proof (ix_lists _ _ Hix) as Hl.
    rewrite <- (key_cases n k ns key) by done. case_decide as E.
    + rewrite <- E, <- (Hl _ _ Hn). rewrite <- E. destruct (firstSurvivingListSeqs ix !! physicalKey n k) as [x|] eqn:Ex; [done|by rewrite lookup_insert_eq].
    + rewrite <- (Hl _ _ Hn). destruct (firstSurvivingListSeqs ix !! physicalKey n k); [done|by rewrite lookup_insert_ne].
  - by apply (indexes_value ws ix n k None).
  - apply indexes_list; [done|done|]. intros ns key Hn. rewrite Hf. rewrite <- (key_cases n k ns key) by done. case_decide as E.
    + rewrite <- E. by rewrite lookup_delete_eq.
    + rewrite lookup_delete_ne by done. by apply ix_lists.
Qed.

Lemma applyWrites_indexes ws : Forall write_names_ok ws -> indexes ws (applyWrites ws new_JsonlForkIndex).
Proof.
  induction ws as [|w ws IH] using rev_ind; intros Hw.
  - split; cbn; intros; try (by rewrite lookup_empty); split; [set_solver|by intros []|set_solver|by intros []].
  - apply Forall_app in Hw as [Hws Hw]. apply Forall_cons in Hw as [Hw _]. unfold applyWrites. rewrite foldl_app. by apply indexes_snoc; [apply IH|].
Qed.

Lemma applyWrites_parents ws s id : history ws s ->
  entryParents (applyWrites ws new_JsonlForkIndex) !! id = e_parentId <$> entries s !! id.
Proof.
  induction 1 as [|ws s w Hh IH Hr]; [done|]. unfold applyWrites in *. rewrite foldl_app.
  destruct w as [e|r|[[] seq n k v]|[] seq n k]; cbn [foldl apply_index]; rewrite ?lane_value_parents; try exact IH.
  cbn. destruct (decide (e_id e = id)) as [<-|Hne]; [by rewrite !lookup_insert_eq|by rewrite !lookup_insert_ne].
Qed.

(** * The plan *)

Lemma value_of_log_put ws a v seq : value_of_log ws a = Some (v, seq) -> CommittedPutWrite (Put_ KindValue seq (fst a) (snd a) v) ∈ ws.
Proof.
  induction ws as [|w ws IH] using rev_ind; [done|]. rewrite value_of_log_snoc, elem_of_app, list_elem_of_singleton.
  destruct w as [e|r|[[] seq' n k x]|[] seq' n k]; cbn; try (intros H; left; by apply IH); (case_decide as E; [|intros H; left; by apply IH]); [|done].
  intros [= -> ->]. right. by subst a.
Qed.

Lemma value_of_log_names ws ns key : Forall write_names_ok ws -> is_Some (value_of_log ws (ns, key)) -> names_ok ns key.
Proof. intros Hw [[v seq] H%value_of_log_put]. rewrite Forall_forall in Hw. exact (Hw _ H). Qed.

Lemma select_loop_ext g1 g2 requested before fuel : (forall id, g1 id = g2 id) -> forall id found dt sel,
  select_loop g1 requested before fuel id found dt sel = select_loop g2 requested before fuel id found dt sel.
Proof.
  intros Hg. induction fuel as [|fuel IH]; intros [id|] found dt sel; cbn; rewrite ?Hg; try done.
  destruct (g2 id); [|done]. by case_decide; rewrite IH.
Qed.

Lemma selectBranchFork_ext g1 g2 fuel branch entryId before tip : (forall id, g1 id = g2 id) ->
  selectBranchFork g1 fuel branch entryId before tip = selectBranchFork g2 fuel branch entryId before tip.
Proof. intros Hg. unfold selectBranchFork. destruct tip; [|done]. by rewrite (select_loop_ext g1 g2). Qed.

(** What an address stores, by the log. *)
Lemma stored_iff ws s ns key : history ws s -> names_ok ns key ->
  is_Some (getValue s (Address_ KindValue ns key)) <-> is_Some (value_of_log ws (ns, key)).
Proof. intros Hh Hn. rewrite <- (history_value ws s) by done. unfold value_at. by rewrite fmap_is_Some. Qed.

Lemma lane_configured_log ws s branch : history ws s -> 0 ∉ branch ->
  hasCompleteLane (applyWrites ws new_JsonlForkIndex) branch = true -> lane_configured s branch = Ok tt.
Proof.
  intros Hh Hb [H1%bool_decide_eq_true H2%bool_decide_eq_true]%andb_true_iff.
  pose proof (applyWrites_indexes ws (history_names _ _ Hh)) as Hix. apply (ix_configs _ _ Hix) in H1. apply (ix_states _ _ Hix) in H2.
  assert (names_ok config_space branch) as Hn1 by (apply names_ok_space; [done|set_solver|done]).
  assert (names_ok state_space branch) as Hn2 by (apply names_ok_space; [done|set_solver|done]).
  unfold lane_configured, laneConfig, laneState. rewrite !address_ok by done. cbn [mbind result_bind].
  rewrite (bool_decide_true _ (proj2 (stored_iff _ _ _ _ Hh Hn1) H1)), (bool_decide_true _ (proj2 (stored_iff _ _ _ _ Hh Hn2) H2)). done.
Qed.

Lemma select_same_plan ws s fuel options plan :
  history ws s -> selectJsonlFork (applyWrites ws new_JsonlForkIndex) fuel options = Some (Ok plan) -> selectForkPlan s fuel options = Some (Ok plan).
Proof.
  intros Hh. destruct options as [branch entryId before|]; [|done]. cbn [selectJsonlFork selectForkPlan].
  pose proof (history_names _ _ Hh) as Hnames. pose proof (applyWrites_indexes ws Hnames) as Hix. rewrite (ix_tips _ _ Hix).
  destruct (value_of_log ws (tip_space, branch)) as [[v seq]|] eqn:Ev; [|done]. cbn [fmap option_fmap option_map fst].
  assert (names_ok tip_space branch) as Hn by (by eapply value_of_log_names; [|eexists]).
  unfold branchTip. rewrite address_ok by done. cbn [mbind result_bind].
  pose proof (history_value _ _ _ _ Hh Hn) as Hv. rewrite Ev in Hv. unfold value_at in Hv.
  destruct (getValue s (Address_ KindValue tip_space branch)) as [stored|]; [|done]. injection Hv as -> _.
  destruct (Some <$> tip_of_json v) as [tip|e]; [|done].
  rewrite (selectBranchFork_ext _ (fun id => e_parentId <$> entries s !! id)) by (intros id; by apply applyWrites_parents).
  destruct (selectBranchFork _ fuel branch entryId before tip) as [[plan'|e]|]; cbn [mbind option_bind result_bind]; [|done|done].
  destruct (hasCompleteLane _ branch) eqn:Hl; [|done]. intros [= ->].
  apply names_ok_space in Hn; [|done|set_solver]. by rewrite (lane_configured_log ws).
Qed.

(** * What the destination takes over *)

Section Taken.
Variable ix : JsonlForkIndex.
Variable plan : ForkPlan.

Definition taken (w : CommittedWrite) : option CommittedWrite :=
  match projectJsonlForkWrite w ix plan (isEntryCopied plan) with Ok (Some w') => Some w' | _ => None end.

(** A put that is current in the source. *)
Definition current_put (p : CommittedPut) : Prop :=
  match p_kind p with
  | KindValue => getCurrentScalarSeq ix (p_namespace p) (p_key p) = Some (p_seq p)
  | KindList => isSurvivingListElement ix (p_namespace p) (p_key p) (p_seq p) = true
  end.

Definition kept_put (p : CommittedPut) : option (json * Seq) := kept plan (p_kind p) (p_namespace p) (p_key p) (p_value p) (p_seq p).

Inductive taken_as : CommittedWrite -> CommittedWrite -> Prop :=
| taken_entry e : copied plan e = true -> taken_as (CommittedEntry e) (CommittedEntry e)
| taken_put p v : current_put p -> kept_put p = Some (v, p_seq p) -> taken_as (CommittedPutWrite p) (CommittedPutWrite (with_value p v)).

Lemma kept_put_project p : current_put p -> taken (CommittedPutWrite p) = (fun vs => CommittedPutWrite (with_value p (fst vs))) <$> kept_put p.
Proof using.
  unfold taken, current_put, kept_put, kept, projectJsonlForkWrite. intros Hc.
  assert (match p_kind p with
    | KindValue => bool_decide (getCurrentScalarSeq ix (p_namespace p) (p_key p) = Some (p_seq p))
    | KindList => isSurvivingListElement ix (p_namespace p) (p_key p) (p_seq p)
    end = true) as Hb by (destruct (p_kind p); [by apply bool_decide_eq_true|done]).
  rewrite Hb. destruct p as [kind seq ns key v]. cbn [p_kind p_namespace p_key p_value p_seq].
  destruct (projectForkCurrentStateWrite _ plan _) as [[w|]|e] eqn:Ep; cbn; [|done|done]. f_equal. f_equal. by apply project_same in Ep.
Qed.

Lemma taken_spec w w' : taken w = Some w' -> taken_as w w'.
Proof using.
  destruct w as [e|r|p|kind seq ns key]; [| done | | done].
  - unfold taken. cbn. destruct (isEntryCopied plan (e_id e)) eqn:E; [intros [= <-]; by constructor|done].
  - intros H. assert (current_put p) as Hc.
    { unfold taken, projectJsonlForkWrite in H. unfold current_put. destruct (p_kind p).
      - by case_bool_decide.
      - by destruct (isSurvivingListElement _ _ _ _). }
    rewrite (kept_put_project p Hc) in H. destruct (kept_put p) as [[v seq]|] eqn:E; [|done]. injection H as <-.
    assert (seq = p_seq p) as ->; [|by constructor]. unfold kept_put, kept in E.
    destruct (projectForkCurrentStateWrite _ plan _) as [[w|]|e] eqn:Ep; [|done|done]. apply project_same in Ep. injection E as _ <-. by rewrite Ep.
Qed.

Lemma taken_seq w w' : taken_as w w' -> write_seq w' = write_seq w.
Proof using. by intros [|]. Qed.

Lemma taken_names w w' : taken_as w w' -> write_names_ok w -> write_names_ok w'.
Proof using. by intros [|]. Qed.

(** The writes taken over make a session of their own: the entries copied, in
    the same order and after their parents. *)
Lemma taken_history ws s :
  history ws s ->
  (forall e p, CommittedEntry e ∈ ws -> copied plan e = true -> e_parentId e = Some p -> isEntryCopied plan p = true) ->
  exists d, history (omap taken ws) d /\ (forall id, entries d !! id = if isEntryCopied plan id then entries s !! id else None) /\
    usage d = [] /\ nextSeq d <= nextSeq s.
Proof using.
  induction 1 as [|ws s w Hh IH Hr]; intros Hc.
  { exists new_StorageState. split_and!; [constructor| |done|done]. intros id. by case_match. }
  destruct IH as (d & Hd & He & Hu & Hq); [intros e p Hin; apply Hc, elem_of_app; by left|].
  rewrite omap_app. cbn [omap list_omap]. destruct Hr as (Hseq & Hn & Hw). destruct (taken w) as [w'|] eqn:Et.
  - apply taken_spec in Et as Ht. pose proof (taken_seq _ _ Ht) as Es.
    assert (write_ready d w') as Hr'.
    { split; [lia|]. split; [by eapply taken_names|]. destruct Ht as [e Hcop|p v _ _]; [|done]. destruct Hw as [[H1 H2] Hp].
      split; [split; [rewrite He, H1; by case_match|by rewrite Hu]|]. intros p Hpar. rewrite He.
      rewrite (Hc e p) by (done || (apply elem_of_app; right; by left)). by apply Hp. }
    exists (write_done w' d). split; [by constructor|]. split_and!; [| |cbn; rewrite Es; lia].
    + intros id. destruct Ht as [e Hcop|p v _ _]; [|destruct p as [[] ? ? ? ?]; apply He]. cbn.
      destruct (decide (e_id e = id)) as [<-|Hne]; [|by rewrite !lookup_insert_ne].
      rewrite !lookup_insert_eq. unfold copied in Hcop. by rewrite Hcop.
    + destruct Ht as [e Hcop|p v _ _]; [done|by destruct p as [[] ? ? ? ?]].
  - rewrite app_nil_r. exists d. split; [done|]. split_and!; [|done|cbn; lia]. intros id. rewrite He.
    destruct w as [e|r|[[] ? ? ? ?]|[] ? ? ?]; cbn; try done.
    destruct (decide (e_id e = id)) as [<-|Hne]; [|by rewrite lookup_insert_ne].
    unfold taken in Et. cbn in Et. by destruct (isEntryCopied plan (e_id e)).
Qed.

Lemma taken_entries ws : omap entry_of_write (omap taken ws) = List.filter (copied plan) (omap entry_of_write ws).
Proof using.
  induction ws as [|w ws IH]; [done|].
  change (omap taken (w :: ws)) with (match taken w with Some w' => w' :: omap taken ws | None => omap taken ws end).
  destruct w as [e|r|p|kind seq ns key]; [|exact IH| |exact IH].
  - assert (taken (CommittedEntry e) = if copied plan e then Some (CommittedEntry e) else None) as -> by (unfold taken, copied; cbn; by case_match).
    cbn [omap list_omap entry_of_write List.filter]. destruct (copied plan e); [|exact IH]. cbn [omap list_omap entry_of_write]. f_equal. exact IH.
  - destruct (taken (CommittedPutWrite p)) as [w'|] eqn:Et; [|exact IH]. apply taken_spec in Et. inversion Et; subst. exact IH.
Qed.

Lemma taken_rows ws : omap row_of_write (omap taken ws) = [].
Proof using.
  induction ws as [|w ws IH]; [done|]. cbn. destruct (taken w) as [w'|] eqn:Et; [|done]. apply taken_spec in Et. by destruct Et.
Qed.

(** ** Values *)

Lemma seqs_distinct ws w1 w2 : increasing (write_seq <$> ws) -> w1 ∈ ws -> w2 ∈ ws -> write_seq w1 = write_seq w2 -> w1 = w2.
Proof using.
  intros Hi H1 H2 E. apply list_elem_of_lookup in H1 as [i Hi1], H2 as [j Hj2].
  assert (i = j) as ->; [|congruence]. apply increasing_NoDup in Hi.
  apply (NoDup_lookup _ i j (write_seq w1) Hi); [by rewrite list_lookup_fmap, Hi1|by rewrite list_lookup_fmap, Hj2, E].
Qed.

Lemma taken_value ws ns key :
  increasing (write_seq <$> ws) -> getCurrentScalarSeq ix ns key = snd <$> value_of_log ws (ns, key) ->
  value_of_log (omap taken ws) (ns, key) = value_of_log ws (ns, key) ≫= kept_value plan ns key.
Proof using.
  intros Hi Hc. unfold value_of_log at 1. rewrite foldl_omap.
  assert (forall w acc, w ∈ ws ->
    match taken w with Some w' => value_after (ns, key) acc w' | None => acc end = acc \/
    exists v seq, w = CommittedPutWrite (Put_ KindValue seq ns key v) /\ getCurrentScalarSeq ix ns key = Some seq) as Hstep.
  { intros w acc Hw. destruct (taken w) as [w'|] eqn:Et; [|by left]. apply taken_spec in Et.
    destruct Et as [e|[[] seq n k v] v' Hcur Hk]; [by left| |by left]. cbn. case_decide as E; [|by left]. right.
    injection E as -> ->. exists v, seq. split; [done|]. exact Hcur. }
  destruct (value_of_log ws (ns, key)) as [[v seq]|] eqn:Ev; cbn [mbind option_bind fmap option_fmap option_map snd] in Hc |- *.
  - apply value_of_log_put in Ev as Hin. cbn [fst snd] in Hin. set (w0 := CommittedPutWrite (Put_ KindValue seq ns key v)) in *.
    apply (foldl_pick _ _ w0); [| |done].
    + intros w acc Hw. destruct (Hstep w acc Hw) as [E|(v' & seq' & -> & E)]; [by right|left].
      apply (seqs_distinct ws); [done..|]. cbn. congruence.
    + intros acc. unfold w0. rewrite kept_put_project by exact Hc. unfold kept_put, kept_value. cbn [p_kind p_namespace p_key p_value p_seq fst snd].
      destruct (kept plan KindValue ns key v seq) as [[v' seq']|] eqn:Ek; [|done]. cbn. rewrite decide_True by done.
      unfold kept in Ek. destruct (projectForkCurrentStateWrite _ plan _) as [[w|]|] eqn:Ep; [|done|done]. apply project_same in Ep.
      injection Ek as <- <-. by rewrite Ep.
  - apply foldl_none. intros w acc Hw. destruct (Hstep w acc Hw) as [E|(v' & seq' & _ & E)]; [done|congruence].
Qed.

(** ** Lists *)

Definition element_of (a : place) (w : CommittedWrite) : option ListElement :=
  match w with
  | CommittedPutWrite (Put_ KindList seq ns key x) => if decide ((ns, key) = a) then Some (ListElement_ seq x) else None
  | _ => None
  end.

Definition is_delete (w : CommittedWrite) : bool := match w with CommittedDelete _ _ _ _ => true | _ => false end.

Lemma list_of_puts ws a : Forall (fun w => is_delete w = false) ws -> list_of_log ws a = omap (element_of a) ws.
Proof using.
  induction ws as [|w ws IH] using rev_ind; [done|]. intros [Hws Hw]%Forall_app. apply Forall_cons in Hw as [Hw _].
  rewrite list_of_log_snoc, omap_app, IH by done. destruct w as [e|r|[[] seq n k v]|[] seq n k]; cbn; rewrite ?app_nil_r; try done.
  case_decide; [done|by rewrite app_nil_r].
Qed.

(** The elements of a list are those appended since its first one. *)
Definition surviving (a : place) (f : option Seq) (w : CommittedWrite) : option ListElement :=
  e ← element_of a w; if match f with None => false | Some f => f <=? le_seq e end then Some e else None.

Lemma first_of_log_elem ws a f : first_of_log ws a = Some f -> exists w, w ∈ ws /\ write_seq w = f.
Proof using.
  induction ws as [|w ws IH] using rev_ind; [done|]. rewrite first_of_log_snoc. intros H.
  assert (first_of_log ws a = Some f \/ write_seq w = f) as [E|E].
  { destruct w as [e|r|[[] seq n k v]|[] seq n k]; cbn in H; auto; case_decide; auto; [|done].
    destruct (first_of_log ws a); [auto|]. injection H as <-. auto. }
  - destruct (IH E) as (x & Hx & Ex). exists x. split; [set_solver|done].
  - exists w. split; [set_solver|done].
Qed.

Lemma list_of_log_surviving ws a :
  increasing (write_seq <$> ws) -> list_of_log ws a = omap (surviving a (first_of_log ws a)) ws.
Proof using.
  induction ws as [|w ws IH] using rev_ind; [done|]. rewrite fmap_app. intros Hi. apply increasing_app in Hi as (Hi & _ & Hlt).
  rewrite list_of_log_snoc, first_of_log_snoc, omap_app, (IH Hi).
  assert (forall x, x ∈ ws -> write_seq x < write_seq w) as Hlt'.
  { intros x Hx. apply Hlt; [by apply list_elem_of_fmap_2|by apply list_elem_of_singleton]. }
  assert (forall f, (f = first_of_log ws a \/ element_of a w = None) -> True) as _ by done.
  destruct w as [e|r|[[] seq n k v]|[] seq n k]; try (cbn; by rewrite app_nil_r); cbn [list_after first_after].
  - case_decide as E; [|cbn; unfold surviving at 2; cbn; rewrite decide_False by done; by rewrite app_nil_r].
    unfold surviving at 3. cbn. rewrite decide_True by done. cbn. cbn in Hlt'. destruct (first_of_log ws a) as [f|] eqn:Ef.
    + destruct (first_of_log_elem _ _ _ Ef) as (x & Hx & <-). specialize (Hlt' x Hx). by rewrite (proj2 (Z.leb_le _ _)) by lia.
    + rewrite (proj2 (Z.leb_le seq seq)) by lia. f_equal. rewrite !omap_none; [done| |]; intros x Hx.
      * unfold surviving. destruct (element_of a x) as [e|] eqn:Ee; [|done]. cbn.
        assert (le_seq e = write_seq x) as -> by (destruct x as [?|?|[[] ? ? ? ?]|]; try done; cbn in Ee; case_decide; [by injection Ee as <-|done]).
        by rewrite (proj2 (Z.leb_gt _ _)) by by apply Hlt'.
      * unfold surviving. by destruct (element_of a x).
  - case_decide as E; [|by rewrite app_nil_r]. cbn. rewrite app_nil_r. symmetry. apply omap_none. intros x Hx. unfold surviving. by destruct (element_of a x).
Qed.

Lemma taken_list ws ns key :
  increasing (write_seq <$> ws) -> firstSurvivingListSeqs ix !! physicalKey ns key = first_of_log ws (ns, key) ->
  list_of_log (omap taken ws) (ns, key) = omap (kept_element plan ns key) (list_of_log ws (ns, key)).
Proof using.
  intros Hi Hf. rewrite (list_of_log_surviving ws) by done. rewrite list_of_puts.
  2:{ apply Forall_forall. intros w' (w & Hw & Ht)%list_elem_of_omap. apply taken_spec in Ht. by destruct Ht. }
  rewrite !omap_omap. apply omap_ext_elem. intros w Hw.
  destruct w as [e|r|[[] seq n k v]|kind seq n k].
  1, 2, 3, 5: destruct (taken _) as [w'|] eqn:Et; [|done]; apply taken_spec in Et; by inversion Et.
  - unfold surviving. cbn [element_of mbind option_bind]. case_decide as E.
    + injection E as -> ->. cbn [le_seq]. destruct (isSurvivingListElement ix ns key seq) eqn:Es.
      * rewrite kept_put_project by exact Es. unfold isSurvivingListElement in Es. rewrite Hf in Es.
        destruct (first_of_log ws (ns, key)) as [f|]; [|done]. cbn [mbind option_bind le_seq]. rewrite Es. unfold kept_put, kept_element.
        cbn [p_kind p_namespace p_key p_value p_seq le_value le_seq mbind option_bind].
        destruct (kept plan KindList ns key v seq) as [[v' seq']|] eqn:Ek; [|done]. cbn. rewrite decide_True by done.
        unfold kept in Ek. destruct (projectForkCurrentStateWrite _ plan _) as [[w|]|] eqn:Ep; [|done|done]. apply project_same in Ep.
        injection Ek as <- <-. by rewrite Ep.
      * assert (taken (CommittedPutWrite (Put_ KindList seq ns key v)) = None) as ->.
        { unfold taken, projectJsonlForkWrite. cbn [p_kind p_namespace p_key p_seq]. by rewrite Es. }
        unfold isSurvivingListElement in Es. rewrite Hf in Es. destruct (first_of_log ws (ns, key)) as [f|]; [|done]. cbn. by rewrite Es.
    + destruct (taken _) as [w'|] eqn:Et; [|done]. apply taken_spec in Et. inversion Et; subst. cbn. by rewrite decide_False.
Qed.
End Taken.

(** * The session of the destination *)

Lemma selected_closed s fuel options plan :
  session_inv s -> (length (entriesBySeq s) < fuel)%nat -> selectForkPlan s fuel options = Some (Ok plan) -> closed_plan s plan.
Proof.
  intros Hs Hf. destruct options as [branch entryId before|]; [|by intros [= <-]].
  destruct (selectForkPlan_outcome s fuel branch entryId before Hs Hf) as (r & -> & Hr). intros [= ->].
  destruct (Hr plan eq_refl) as (tip & _ & path & dt & dpath & ids & -> & _ & _ & Ha & Hids).
  by eapply branch_plan_closed; [apply (sn_entries _ _ Hs)| |].
Qed.

Lemma write_of_entry ws s e : history ws s -> e ∈ entriesBySeq s <-> CommittedEntry e ∈ ws.
Proof.
  intros Hh. rewrite (history_entries _ _ Hh), list_elem_of_omap. split; [|by eexists (CommittedEntry e)].
  intros (w & Hw & Ee). destruct w; by simplify_eq/=.
Qed.

Lemma fork_session ws s0 h s plan h' :
  history ws s0 -> s = advance h s0 -> session_inv s -> closed_plan s plan -> h_nextSeq h' = Some (NInt (nextSeq s)) ->
  let ix := applyWrites ws new_JsonlForkIndex in
  exists d0, history (omap (taken ix plan) ws) d0 /\ session_inv (advance h' d0) /\ fork_of s (advance h' d0) plan.
Proof.
  intros Hh Es Hs Hc Hn ix. pose proof (history_names _ _ Hh) as Hnames. pose proof (applyWrites_indexes ws Hnames) as Hix.
  destruct (advance_keeps h s0) as (f & Ef & Hf). rewrite Ef in Es. subst s.
  destruct (taken_history ix plan ws s0 Hh) as (d0 & Hd & He & Hu & Hq).
  { intros e p Hin Hce Hp. apply (Hc e p); [by apply (write_of_entry ws s0)|done|done]. }
  exists d0. split; [done|]. assert (nextSeq (advance h' d0) = nextSeq (on_nextSeq f s0)) as Hnx.
  { unfold advance. rewrite Hn. cbn. lia. }
  assert (exists g, advance h' d0 = on_nextSeq g d0 /\ nextSeq d0 <= g (nextSeq d0)) as (g & Eg & Hg) by apply advance_keeps.
  split.
  - rewrite Eg. unfold session_inv. apply session_below_nextSeq. eapply session_below_mono; [|exact (history_inv _ _ Hd)]. cbn. lia.
  - split; [| | | |exact Hnx]; rewrite Eg.
    + cbn [entriesBySeq on_nextSeq]. rewrite (history_entries _ _ Hd), (history_entries _ _ Hh). apply taken_entries.
    + intros ns key Hk. change (value_at d0 ns key = value_at s0 ns key ≫= kept_value plan ns key).
      rewrite (history_value _ _ _ _ Hd Hk), (history_value _ _ _ _ Hh Hk).
      apply taken_value; [by eapply history_increasing|by apply (ix_scalars _ _ Hix)].
    + intros ns key Hk. cbn [listValues on_nextSeq]. rewrite (history_list _ _ _ _ Hd Hk), (history_list _ _ _ _ Hh Hk).
      apply taken_list; [by eapply history_increasing|by apply (ix_lists _ _ Hix)].
    + exact Hu.
Qed.

(** ** What is taken over can be written *)

Definition plan_writable (plan : ForkPlan) : Prop :=
  match plan with PlanBranch _ (Some tip) _ => str_wf tip | _ => True end.

Lemma project_value w plan copied w' : plan_writable plan -> writable (p_value w) ->
  projectForkCurrentStateWrite w plan copied = Ok (Some w') -> writable (p_value w').
Proof.
  intros Hp Hw. destruct w as [kind seq ns key v]. unfold projectForkCurrentStateWrite. cbn [p_namespace p_key p_value] in *.
  intros H. repeat match goal with
  | H : (if ?b then _ else _) = _ |- _ => destruct b
  | H : match ?p with PlanTree => _ | PlanBranch _ _ _ => _ end = _ |- _ => destruct p
  | H : Ok (if ?b then _ else _) = _ |- _ => destruct b
  | H : Ok (match ?p with PlanTree => _ | PlanBranch _ _ _ => _ end) = _ |- _ => destruct p
  end; simplify_eq; try exact Hw; cbn.
  - destruct destinationTip; [by apply writable_str|by split; [constructor|]].
  - apply (writable_object [("currentOperationId"%string, Some JNull); ("lastOperationId"%string, Some JNull); ("inbox"%string, Some (JArr []))]).
    + plain_members.
    + repeat (constructor; [by split; [repeat constructor|]|]). constructor.
Qed.

Lemma taken_writable ix plan w w' :
  plan_writable plan -> writable_write w -> taken ix plan w = Some w' -> writable_write w'.
Proof.
  intros Hp Hw H. pose proof (taken_spec _ _ _ _ H) as Ht. destruct Ht as [e Hc|p v Hcur Hk]; [done|].
  assert (writable (p_value p)) as Hv.
  { pose proof (ww_members _ Hw) as Hm. unfold writable_members in Hm. cbn in Hm. rewrite !Forall_cons in Hm. cbn in Hm. tauto. }
  assert (writable v) as Hv'.
  { rewrite (kept_put_project _ _ _ Hcur), Hk in H. unfold kept_put, kept in Hk. destruct p as [kind seq ns key x].
    cbn [p_kind p_namespace p_key p_value p_seq] in *.
    destruct (projectForkCurrentStateWrite _ plan _) as [[w|]|] eqn:Ep; [|done|done]. injection Hk as <- _.
    eapply project_value; [exact Hp| |exact Ep]; exact Hv. }
  destruct Hw as [Hm Hs Htime]. split; [|exact Hs|exact Htime]. unfold writable_members in *. cbn in Hm |- *.
  rewrite !Forall_cons in Hm |- *. cbn in Hm |- *. tauto.
Qed.

Lemma writable_entry e : writable_write (CommittedEntry e) -> str_wf (e_id e) /\ from_option str_wf True (e_parentId e).
Proof.
  intros [Hm _ _]. unfold writable_members, write_members, entry_members in Hm. cbn [app] in Hm.
  rewrite !Forall_cons in Hm. cbn in Hm. destruct Hm as (_ & [Hid _] & [Hp _] & _). split; [by inversion Hid|].
  destruct (e_parentId e); [by inversion Hp|done].
Qed.

Lemma selected_writable ws s fuel options plan :
  history ws s -> Forall writable_write ws -> (length (entriesBySeq s) < fuel)%nat ->
  selectForkPlan s fuel options = Some (Ok plan) -> plan_writable plan.
Proof.
  intros Hh Hw Hf. pose proof (history_inv _ _ Hh) as Hs. destruct options as [branch entryId before|]; [|by intros [= <-]].
  destruct (selectForkPlan_outcome s fuel branch entryId before Hs Hf) as (r & -> & Hr). intros [= ->].
  destruct (Hr plan eq_refl) as (tip & _ & path & dt & dpath & ids & -> & Ha & Hp & _). unfold fork_point in Hp.
  destruct (requested_of entryId tip) as [rid|]; [|by subst dt]. destruct Hp as (e & He & <- & ->).
  assert (e ∈ entriesBySeq s) as Hin.
  { apply (ancestry_on_path _ _ _ Ha) in He as (id & _ & He). by eapply on_path_elem; [apply (sn_entries _ _ Hs)|]. }
  apply (write_of_entry ws s) in Hin; [|done]. rewrite Forall_forall in Hw. destruct (writable_entry e (Hw _ Hin)) as [H1 H2].
  destruct before; [|exact H1]. cbn. by destruct (e_parentId e).
Qed.

(** * Reading the source *)

Section Source.
Context {FS : Type} {Files : FileSystem FS} {file : FS -> jsstr -> option jsstr} {Laws : FileSystemLaws file}.
Variable is_date : jsstr -> bool.

(** Transactions below the boundary, and others from it on. *)
Definition before_boundary (stop : option Seq) (ws : list CommittedWrite) : Prop :=
  from_option (fun n => Forall (fun w => write_seq w < n) ws) True stop.

Definition from_boundary (stop : option Seq) (txs : list (list CommittedWrite)) : Prop :=
  match txs with
  | [] => True
  | ws :: _ => exists n w ws', stop = Some n /\ ws = w :: ws' /\ n <= write_seq w
  end.

Lemma read_transactions {S} stop (body : list CommittedWrite -> SM S jsonl_err unit) txs later tail s :
  Forall (Forall writable_write) txs -> Forall (Forall writable_write) later -> Forall (before_boundary stop) txs -> from_boundary stop later ->
  readJsonlForkTransactions stop body (complete_lines (serialized (txs ++ later)) tail) s = for_each body txs s.
Proof using.
  intros Hw Hl Hb Hfrom. revert s. induction txs as [|ws txs IH]; intros s.
  - cbn [app]. destruct later as [|ws later]; [by destruct tail|]. destruct Hfrom as (n & w & ws' & -> & -> & Hn).
    apply Forall_cons in Hl as [Hws _]. unfold complete_lines. rewrite !fmap_cons. cbn [app readJsonlForkTransactions].
    unfold mbind, sm_bind, reads_state. rewrite parse_serialize by done. unfold reachesForkBoundary.
    destruct (last (w :: ws')) as [x|] eqn:El; [|by apply last_None in El]. by rewrite (proj2 (Z.leb_le _ _)).
  - apply Forall_cons in Hw as [Hws Hw], Hb as [Hb0 Hb]. unfold complete_lines. rewrite <- app_comm_cons, !fmap_cons. cbn [app readJsonlForkTransactions for_each].
    unfold mbind, sm_bind, reads_state. rewrite parse_serialize by done.
    assert (reachesForkBoundary ws stop = Ok false) as ->.
    { unfold reachesForkBoundary. destruct stop as [n|]; [|done]. destruct ws as [|w ws]; [done|]. cbn in Hb0.
      destruct (last (w :: ws)) as [x|] eqn:El; [|done]. pose proof (last_Some_elem_of _ _ El) as Hx. rewrite Forall_forall in Hb0.
      rewrite !(proj2 (Z.leb_gt _ _)) by (apply Hb0; done || by left). done. }
    destruct (body ws s) as [s1 [[]|e]]; [|done]. by apply IH.
Qed.

Lemma index_transactions txs ix highest :
  for_each index_transaction txs (ix, highest) =
  ((applyWrites (concat txs) ix, foldl (fun h ws => match last ws with Some w => write_seq w | None => h end) highest txs), Ok tt).
Proof using.
  revert ix highest. induction txs as [|ws txs IH]; intros ix highest; [done|]. cbn [for_each]. unfold mbind, sm_bind, index_transaction, modify.
  unfold index_transaction, modify in IH. rewrite IH. unfold applyWrites. cbn [concat foldl]. by rewrite foldl_app.
Qed.

Lemma highest_seq txs h : foldl (fun h ws => match last ws with Some w => write_seq w | None => h end) h txs =
  match last (concat txs) with Some w => write_seq w | None => h end.
Proof using.
  revert h. induction txs as [|ws txs IH]; intros h; [done|]. cbn [foldl concat]. rewrite IH, last_app.
  by destruct (last (concat txs)).
Qed.

(** A source: what was captured, what was committed since, and a line cut short. *)
Record source_of (fs : FS) (input : JsonlForkInput) (h : JsonlStorageHeader) (txs : list (list CommittedWrite)) (s : StorageState) : Prop := SourceOf {
  so_header : writable_header h;
  so_id : sm_id (fi_metadata input) = h_id h;
  so_cwd : sm_cwd (fi_metadata input) = h_cwd h;
  so_opens : opens_to h txs s;
  so_next : from_option (fun n => n = nextSeq s) True (fi_nextSeq input);
  so_file : exists later tail, file fs (sm_path (fi_metadata input)) = Some (file_text h (txs ++ later) ++ tail) /\
    (newline ∉ tail) /\ Forall (Forall writable_write) later /\ from_boundary (fi_nextSeq input) later;
}.

Lemma source_elsewhere fs fs' input h txs s :
  source_of fs input h txs s -> file fs' (sm_path (fi_metadata input)) = file fs (sm_path (fi_metadata input)) -> source_of fs' input h txs s.
Proof using. intros [H1 H2 H3 H4 H5 (later & tail & Hf & H6)] E. split; [done..|]. exists later, tail. by rewrite E. Qed.

Lemma open_source_lines fs input h txs s fs' hl :
  source_of fs input h txs s -> open_source is_date (fi_metadata input) fs = (fs', Ok hl) ->
  exists later tail, fs' = fs /\ hl = (h, complete_lines (serialized (txs ++ later)) tail) /\
    Forall (Forall writable_write) later /\ from_boundary (fi_nextSeq input) later.
Proof using Laws.
  intros [Hh Hid Hcwd Ho _ (later & tail & Hfile & Htail & Hlw & Hlf)] E. exists later, tail. unfold open_source in E.
  apply sm_bind_Ok in E as (fs1 & lines & E1 & E). destruct (fileValue_cases _ _ _ _ _ E1) as [(l & [= <-] & El)|(e & [=] & _)].
  unfold reads_state in El. injection El as -> El.
  assert (Forall (Forall writable_write) (txs ++ later)) as Hw by (apply Forall_app; split; [apply Ho|done]).
  rewrite (reader_lines _ _ _ _ _ _ Hh Hw Htail Hfile El) in E. unfold readJsonlForkHeader, mbind at 1, sm_bind at 1 in E.
  rewrite read_header_lines in E by done. unfold reads_state in E. rewrite Hid, Hcwd, (wh_version _ Hh), !bool_decide_true in E by done.
  cbn [negb orb throw_if mbind result_bind] in E. cbn [negb throw_if mbind result_bind] in E.
  by injection E as <- <-.
Qed.

Lemma for_each_concat {S A} (f : A -> SM S jsonl_err unit) ls s : for_each (for_each f) ls s = for_each f (concat ls) s.
Proof using.
  revert s. induction ls as [|l ls IH]; intros s; [done|]. cbn [for_each concat]. unfold mbind, sm_bind.
  assert (forall l1 l2 s, for_each f (l1 ++ l2) s = match for_each f l1 s with (s1, Ok _) => for_each f l2 s1 | (s1, Err e) => (s1, Err e) end) as Happ.
  { clear. induction l1 as [|a l1 IH]; intros l2 s; [done|]. cbn [app for_each]. unfold mbind, sm_bind.
    destruct (f a s) as [s1 [[]|e]]; [apply IH|done]. }
  rewrite Happ. destruct (for_each f l s) as [s1 [u|e]]; [apply IH|done].
Qed.

(** The pass that writes: the transactions of what is taken over. *)
Lemma fork_writes_file t ix plan ws : forall fs fs' r,
  for_each (forkWrite ix plan (fun writes => append_to t (transaction_line writes))) ws fs = (fs', r) ->
  (forall q, q <> t -> file fs' q = file fs q) /\
  (r = Ok tt -> forall c, file fs t = Some c -> file fs' t = Some (c ++ concat ((fun w => transaction_line [w]) <$> omap (taken ix plan) ws))).
Proof using Laws.
  induction ws as [|w ws IH]; intros fs fs' r H.
  - injection H as <- <-. split; [done|]. intros _ c Hc. by rewrite app_nil_r.
  - cbn [for_each] in H. unfold mbind at 1, sm_bind at 1 in H.
    destruct (forkWrite ix plan _ w fs) as [fs1 r1] eqn:E1.
    assert ((forall q, q <> t -> file fs1 q = file fs q) /\ (r1 = Ok tt -> forall c, file fs t = Some c ->
      file fs1 t = Some (c ++ concat ((fun w => transaction_line [w]) <$> match taken ix plan w with Some w' => [w'] | None => [] end)))) as [Hf1 Hc1].
    { unfold forkWrite, mbind, sm_bind, reads_state in E1. unfold taken.
      destruct (projectJsonlForkWrite w ix plan (isEntryCopied plan)) as [[w'|]|e]; cbn [map_err] in E1.
      - destruct (fileValue_cases _ _ _ _ _ E1) as [([] & -> & Ea)|(e & -> & Ea)]; (split; [by intros q; eapply append_frame|]); [|done].
        intros _ c Hc. apply append_law in Ea. rewrite Ea, Hc. cbn. by rewrite app_nil_r.
      - injection E1 as <- <-. split; [done|]. intros _ c Hc. by rewrite app_nil_r.
      - injection E1 as <- <-. by split. }
    destruct r1 as [[]|e]; [|injection H as <- <-; by split].
    destruct (IH _ _ _ H) as [Hf Hc]. split; [intros q Hq; by rewrite Hf, Hf1|]. intros -> c H0.
    rewrite (Hc eq_refl _ (Hc1 eq_refl _ H0)). rewrite <- app_assoc, <- concat_app, <- fmap_app. do 3 f_equal. cbn. by destruct (taken ix plan w).
Qed.

Lemma with_nextSeq_writable hd n : writable_header hd -> valid_seq n -> writable_header (with_nextSeq hd n).
Proof using. intros [H1 H2 H3 H4 H5 H6 _] Hn. split; [done..|]. cbn. by exists n. Qed.

Lemma indexForkInput_result fs input h txs s fs' ix n :
  source_of fs input h txs s -> indexForkInput is_date input fs = (fs', Ok (ix, n)) ->
  fs' = fs /\ ix = applyWrites (concat txs) new_JsonlForkIndex /\ n = nextSeq s.
Proof using Laws.
  intros Hsrc E. unfold indexForkInput in E. apply sm_bind_Ok in E as (fs1 & hl & E1 & E).
  destruct (open_source_lines _ _ _ _ _ _ _ Hsrc E1) as (later & tail & -> & -> & Hlw & Hlf).
  destruct Hsrc as [Hh _ _ Ho Hn _]. destruct (ot_replay _ _ _ Ho) as (s0 & H0 & Es).
  pose proof (replay_history _ [] _ _ history_nil (ot_names _ _ _ Ho) H0) as Hhist. cbn [app] in Hhist.
  pose proof (advance_keeps h s0) as (f & Ef & Hf). rewrite Ef in Es.
  assert (Forall (before_boundary (fi_nextSeq input)) txs) as Hb.
  { pose proof (history_below _ _ Hhist) as Hbelow. apply Forall_forall. intros ws Hws. unfold before_boundary.
    destruct (fi_nextSeq input) as [m|]; [|done]. cbn in Hn |- *. apply Forall_forall. intros w Hw. rewrite Forall_forall in Hbelow.
    assert (w ∈ concat txs) as Hin by (rewrite list_elem_of_In, in_concat; exists ws; by rewrite <- !list_elem_of_In). specialize (Hbelow w Hin). rewrite Hn, Es. cbn. lia. }
  unfold mbind at 1, sm_bind at 1, reads_state at 1 in E.
  rewrite read_transactions in E by (done || exact (ot_lines _ _ _ Ho)). rewrite index_transactions, highest_seq in E. cbn [mbind result_bind] in E.
  injection E as <- <- <-. split_and!; [done|done|].
  destruct (fi_nextSeq input) as [m|]; [exact Hn|]. pose proof (history_nextSeq _ _ Hhist) as Hq.
  assert (match last (concat txs) with Some w => write_seq w | None => 0 end + 1 = nextSeq s0) as -> by (rewrite Hq; by destruct (last (concat txs))).
  rewrite Es, <- Ef. unfold advance. pose proof (wh_next _ Hh) as Hx. destruct (h_nextSeq h) as [x|]; cbn.
  - destruct Hx as (z & -> & Hz). cbn. lia.
  - pose proof (history_seqs_positive _ _ Hhist) as [? _]. lia.
Qed.

Lemma open_source_reads source (fs fs' : FS) r : open_source is_date source fs = (fs', r) -> fs' = fs.
Proof using.
  unfold open_source, mbind, sm_bind, fileValue, reads_state. destruct (openTextLineReader (sm_path source) fs) as [lines|e]; [|by intros [= <- _]].
  unfold readJsonlForkHeader, mbind, sm_bind, read_header_line, reads_state. destruct (match lines with [] => _ | _ => _ end); by intros [= <- _].
Qed.

Lemma indexForkInput_reads input (fs fs' : FS) r : indexForkInput is_date input fs = (fs', r) -> fs' = fs.
Proof using.
  unfold indexForkInput, mbind at 1, sm_bind at 1. destruct (open_source is_date _ fs) as [fs1 [[header lines]|e]] eqn:E;
    apply open_source_reads in E; [|by intros [= <- _]]. subst fs1. unfold mbind, sm_bind, reads_state.
  destruct (readJsonlForkTransactions _ _ lines _) as [[ix h] [u|e]]; cbn; by intros [= <- _].
Qed.

Lemma select_total ws s fuel options :
  history ws s -> (length (entriesBySeq s) < fuel)%nat -> exists r, selectJsonlFork (applyWrites ws new_JsonlForkIndex) fuel options = Some r.
Proof using.
  intros Hh Hf. destruct options as [branch entryId before|]; [|by eexists]. cbn [selectJsonlFork].
  destruct (match branchTips _ !! branch with None => _ | Some v => _ end) as [tip|e]; [|by eexists].
  rewrite (selectBranchFork_ext _ (fun id => e_parentId <$> entries s !! id)) by (intros id; by apply applyWrites_parents).
  destruct tip as [tip|]; [|by eexists].
  destruct (selectBranchFork_outcome s _ (sn_entries _ _ (history_inv _ _ Hh)) fuel branch entryId before tip Hf) as (r & -> & _). by eexists.
Qed.

(** The destination's file, staged. *)
Lemma fork_stages fs input h txs s dst hd ix plan :
  source_of fs input h txs s -> sm_path (fi_metadata input) <> temp_path dst ->
  Forall (fun w => write_seq w < nextSeq s) (concat txs) ->
  stages (file := file) (temp_path dst)
    (eq (file_text hd ((fun w => [w]) <$> omap (taken ix plan) (concat txs)))) fs
    (append_to (temp_path dst) (header_line hd);;
     streamForkWrites is_date input (nextSeq s) (forkWrite ix plan (fun writes => append_to (temp_path dst) (transaction_line writes)))).
Proof using Laws.
  intros Hsrc Hne Hbelow fs2 fs3 r3 Hf2 Ht2 E. unfold mbind at 1, sm_bind at 1 in E.
  destruct (append_to (temp_path dst) (header_line hd) fs2) as [fs4 r4] eqn:E4.
  assert (forall q, q <> temp_path dst -> file fs4 q = file fs2 q) as Hf4.
  { intros q. destruct (fileValue_cases _ _ _ _ _ E4) as [(? & _ & Ea)|(? & _ & Ea)]; by eapply append_frame. }
  destruct (fileValue_cases _ _ _ _ _ E4) as [([] & -> & Ea)|(e & -> & Ea)]; [|by injection E as <- <-].
  unfold streamForkWrites, mbind, sm_bind in E. destruct (open_source is_date _ fs4) as [fs5 [hl|e]] eqn:E5;
    pose proof (open_source_reads _ _ _ _ E5) as ->; [|by injection E as <- <-].
  assert (source_of fs4 input h txs s) as Hsrc4 by (eapply source_elsewhere; [exact Hsrc|]; by rewrite Hf4, Hf2).
  destruct (open_source_lines _ _ _ _ _ _ _ Hsrc4 E5) as (later & tail & _ & -> & Hlw & Hlf).
  rewrite read_transactions in E; [|exact (ot_lines _ _ _ (so_opens _ _ _ _ _ Hsrc))|done| |].
  - rewrite for_each_concat in E. destruct (fork_writes_file _ _ _ _ _ _ _ E) as [Hf3 Hc3]. split; [intros q Hq; by rewrite Hf3, Hf4|].
    intros ->. apply append_law in Ea. rewrite Ht2 in Ea. eexists. split; [by apply (Hc3 eq_refl)|]. unfold file_text, file_lines.
    rewrite !fmap_cons. cbn [default id app concat]. f_equal. f_equal. by rewrite <- !list_fmap_compose.
  - rewrite Forall_forall in Hbelow. apply Forall_forall. intros ws Hws. cbn. apply Forall_forall. intros w Hw. apply Hbelow.
    rewrite list_elem_of_In, in_concat. exists ws. by rewrite <- !list_elem_of_In.
  - pose proof (so_next _ _ _ _ _ Hsrc) as Hn. destruct later as [|ws later]; [done|]. destruct Hlf as (n & w & ws' & En & -> & Hle).
    rewrite En in Hn. cbn in Hn. subst n. exists (nextSeq s), w, ws'. done.
Qed.

(** A fork publishes a file that opens to the fork of what was captured, or
    leaves the destination alone. *)
Lemma runJsonlFork_result fs input h txs s fuel dst hd options fs' r :
  source_of fs input h txs s -> (length (entriesBySeq s) < fuel)%nat -> writable_header hd -> nextSeq s <= MAX_SAFE_INTEGER ->
  sm_path (fi_metadata input) <> temp_path dst ->
  runJsonlFork is_date fuel input dst hd options fs = (fs', r) ->
  (forall q, q <> dst -> q <> temp_path dst -> file fs' q = file fs q) /\
  match r with
  | Ok done => done = Some tt /\ exists plan d, selectForkPlan s fuel options = Some (Ok plan) /\ fork_of s d plan /\
                 logged (file := file) fs' dst (with_nextSeq hd (nextSeq s)) d
  | Err _ => file fs' dst = file fs dst
  end.
Proof using Laws.
  intros Hsrc Hfuel Hhd Hmax Hne E. unfold runJsonlFork, mbind at 1, sm_bind at 1 in E.
  destruct (indexForkInput is_date input fs) as [fs1 [[ix n]|e]] eqn:Ei; pose proof (indexForkInput_reads _ _ _ _ Ei) as ->; [|by injection E as <- <-].
  destruct (indexForkInput_result _ _ _ _ _ _ _ _ Hsrc Ei) as (_ & -> & ->). clear Ei.
  pose proof (so_opens _ _ _ _ _ Hsrc) as Ho. destruct (ot_replay _ _ _ Ho) as (s0 & H0 & Es).
  pose proof (replay_history _ [] _ _ history_nil (ot_names _ _ _ Ho) H0) as Hh. cbn [app] in Hh.
  destruct (advance_keeps h s0) as (f & Ef & Hf). assert (Es' : s = on_nextSeq f s0) by by rewrite Es, Ef.
  assert (Hfuel0 : (length (entriesBySeq s0) < fuel)%nat) by (rewrite Es' in Hfuel; exact Hfuel).
  destruct (select_total _ _ fuel options Hh Hfuel0) as (selected & Hsel). rewrite Hsel in E.
  unfold mbind at 1, sm_bind at 1, reads_state at 1 in E. destruct selected as [plan|e]; cbn [map_err] in E; [|by injection E as <- <-].
  apply (select_same_plan _ _ _ _ _ Hh) in Hsel as Hplan0.
  assert (Hplan : selectForkPlan s fuel options = Some (Ok plan)) by (rewrite Es'; exact Hplan0).
  unfold mbind, sm_bind in E. destruct (publishJsonl _ _ _ fs) as [fs2 r2] eqn:Ep. unfold publishJsonl in Ep.
  pose proof (with_nextSeq_writable hd (nextSeq s) Hhd) as Hhd'. set (hd' := with_nextSeq hd (nextSeq s)) in *.
  set (ws := concat txs) in *. set (ix := applyWrites ws new_JsonlForkIndex) in *.
  eapply publish_file in Ep as [Hfr Ho2].
  2:{ apply (fork_stages fs input h txs s dst hd' ix plan Hsrc Hne). eapply Forall_impl; [exact (history_below _ _ Hh)|].
      intros w Hw. cbn in Hw |- *. rewrite Es'. cbn. lia. }
  destruct Ho2 as [(-> & c & Hc & <-)|(e & -> & Hc)]; injection E as <- <-; (split; [done|]); [|done].
  split; [done|]. destruct (fork_session ws s0 h s plan hd' Hh Es (ot_inv _ _ _ Ho)) as (d0 & Hd & Hdi & Hfork);
    [by eapply selected_closed; [apply Ho| |]|done|].
  exists plan, (advance hd' d0). split; [done|]. split; [done|]. split.
  { apply Hhd'. split; [|done]. pose proof (history_seqs_positive _ _ Hh) as [? _]. rewrite Es' in Hmax |- *. cbn in *. lia. }
  exists ((fun w => [w]) <$> omap (taken ix plan) ws). split; [done|]. split; [done| | |].
  - apply Forall_fmap, Forall_forall. intros w' (w & Hw & Ht)%list_elem_of_omap. constructor; [|constructor]. cbn.
    assert (Hall : Forall writable_write ws) by (apply Forall_concat; exact (ot_lines _ _ _ Ho)).
    eapply taken_writable; [|by rewrite Forall_forall in Hall; apply Hall|exact Ht]. by eapply (selected_writable ws s0).
  - apply Forall_fmap. eapply Forall_impl; [exact (history_names _ _ Hd)|]. intros w Hw. by repeat constructor.
  - exists d0. split; [by apply history_replay|done].
Qed.
End Source.
