(* ===== verification/JsonlTheorems.v ===== *)
(** What the file of a session promises: its lines are read back, it opens to the
    live session, a commit cut short is mended, a fork of the file is a fork of
    the session; and what spoils it.  Each with an instance on a file system in
    memory. *)
From Stdlib Require Import Sorted.
From S2P Require Import Prelude JsBase Json JsonText JsFloat JsonParse SessionTypes SessionState SessionFork SessionInv SessionForkSpec JsonlCodec JsonlStorage JsonlDurable JsonlFork JsonlForkSpec.

(** * A file system in memory whose writes fail on demand, and a decision
    procedure for what can be written: the ground of the concrete instances. *)

(** * A file system *)

(** Each write that is given a number fails after as many code units. *)
Record TestFS : Type := TestFS_ { fs_files : gmap jsstr jsstr; fs_faults : list (option nat) }.

Definition fs_write (path : jsstr) (before content : jsstr) : SM TestFS string unit :=
  fun fs =>
    match fs_faults fs with
    | Some n :: faults => (TestFS_ (<[path := before ++ take n content]> (fs_files fs)) faults, Err "fault"%string)
    | _ => (TestFS_ (<[path := before ++ content]> (fs_files fs)) (drop 1 (fs_faults fs)), Ok tt)
    end.

Definition test_file (fs : TestFS) (path : jsstr) : option jsstr := fs_files fs !! path.

#[export] Instance TestFS_FileSystem : FileSystem TestFS := {
  readTextFile p fs := ok_or "not found"%string (test_file fs p);
  openTextLineReader p fs := ok_or "not found"%string (text_lines <$> test_file fs p);
  writeFile p c := fs_write p [] c;
  appendFile p c := fun fs => fs_write p (default [] (test_file fs p)) c fs;
  renameFile p p' := fun fs =>
    match test_file fs p with
    | Some c => (TestFS_ (<[p' := c]> (delete p (fs_files fs))) (fs_faults fs), Ok tt)
    | None => (fs, Err "not found"%string)
    end;
  remove p := fun fs => (TestFS_ (delete p (fs_files fs)) (fs_faults fs), Ok tt);
}.

Lemma fs_write_cases p b c fs fs' r : fs_write p b c fs = (fs', r) ->
  (forall q, q <> p -> test_file fs' q = test_file fs q) /\
  ((exists u, r = Ok u /\ test_file fs' p = Some (b ++ c)) \/ exists e n, r = Err e /\ test_file fs' p = Some (b ++ take n c)).
Proof.
  unfold fs_write, test_file. destruct (fs_faults fs) as [|[n|] faults]; intros [= <- <-]; cbn;
    (split; [intros q Hq; by rewrite lookup_insert_ne|]); rewrite lookup_insert_eq; eauto.
Qed.

Lemma torn_take n c : torn c (take n c).
Proof.
  destruct (decide (take n c = c)) as [->|Hne]; [by left|right]. exists (take n c), []. split_and!; [apply prefix_take|done|apply not_elem_of_nil|by rewrite app_nil_r].
Qed.

#[export] Instance TestFS_laws : FileSystemLaws test_file.
Proof.
  split; cbn.
  - intros p fs c H. by apply ok_or_Ok in H.
  - intros p fs l H. apply ok_or_Ok in H. destruct (test_file fs p) as [c|]; [|done]. injection H as <-. eauto.
  - intros p c fs fs' r q H. by apply fs_write_cases in H as [H _]; apply H.
  - intros p c fs fs' u H. apply fs_write_cases in H as [_ [(? & _ & H)|(? & ? & [=] & _)]]. exact H.
  - intros p c fs fs' r q H. by apply fs_write_cases in H as [H _]; apply H.
  - intros p c fs fs' u H. apply fs_write_cases in H as [_ [(? & _ & H)|(? & ? & [=] & _)]]. exact H.
  - intros p c fs fs' e H. apply fs_write_cases in H as [_ [(? & [=] & _)|(? & n & _ & H)]]. right. exists (take n c). split; [apply torn_take|exact H].
  - intros p p' fs fs' r q H Hq Hq'. unfold test_file in *. destruct (fs_files fs !! p); injection H as <- _; [|done]. cbn.
    by rewrite lookup_insert_ne, lookup_delete_ne.
  - intros p p' fs fs' u H _. unfold test_file in *. cbn in H. destruct (fs_files fs !! p); [|discriminate H]. injection H as <- _. cbn. by rewrite lookup_insert_eq.
  - intros p p' fs fs' e H. unfold test_file in *. destruct (fs_files fs !! p); [discriminate H|]. by injection H as <- _.
  - intros p fs fs' r q [= <- _] Hq. unfold test_file. cbn. by rewrite lookup_delete_ne.
Qed.

(** * Deciding what can be written *)

Definition unitb (u : Z) : bool := (0 <=? u) && (u <? 2 ^ 16).

Definition num_wfb (n : jsnum) : bool :=
  match n with NInt _ => true | NFlt b => (0 <=? b) && (b <? 2 ^ 64) && bool_decide (num_of_f64 b = NFlt b) end.

Definition key_beforeb (k1 k2 : jsstr) : bool :=
  match array_index k1, array_index k2 with
  | Some a, Some b => a <? b
  | Some _, None => true
  | None, Some _ => false
  | None, None => negb (bool_decide (k1 = k2))
  end.

Fixpoint sortedb (keys : list jsstr) : bool :=
  match keys with
  | [] => true
  | k :: keys => forallb (key_beforeb k) keys && sortedb keys
  end.

Fixpoint json_wfb (v : json) : bool :=
  match v with
  | JNull | JBool _ => true
  | JNum n => num_wfb n && isFinite n
  | JStr s => forallb unitb s
  | JArr l => forallb json_wfb l
  | JObj o => sortedb (obj_keys o) && forallb (fun kv => forallb unitb (fst kv) && json_wfb (snd kv)) o
  end.

Definition writableb (v : json) : bool := json_wfb v && json_prints v.

Lemma unitb_str s : forallb unitb s = true -> str_wf s.
Proof. intros H%forallb_Forall. eapply Forall_impl; [exact H|]. intros u Hu. unfold unitb, unit_ok in *. bool_lia. Qed.

Lemma sortedb_spec keys : sortedb keys = true -> StronglySorted key_before keys.
Proof.
  induction keys as [|k keys IH]; cbn; [constructor|]. intros [Hk Hs]%andb_true_iff. constructor; [by apply IH|].
  apply forallb_Forall in Hk. eapply Forall_impl; [exact Hk|]. intros k2. unfold key_beforeb, key_before.
  destruct (array_index k), (array_index k2); try done; [intros; bool_lia|]. intros H%negb_true_iff. by apply bool_decide_eq_false in H.
Qed.

Lemma json_wfb_spec v : json_wfb v = true -> json_wf v.
Proof.
  induction v as [|b|n|s|l IH|o IH] using json_ind; cbn; intros H; try constructor.
  - apply andb_true_iff in H as [H _]. destruct n as [z|b]; [done|]. cbn in H. apply andb_true_iff in H as [H1 H2].
    apply bool_decide_eq_true in H2. split; [bool_lia|done].
  - by apply andb_true_iff in H as [_ H].
  - by apply unitb_str.
  - apply forallb_Forall in H. rewrite Forall_forall in IH, H |- *. intros v Hv. by apply IH; [|apply H].
  - apply andb_true_iff in H as [H _]. by apply sortedb_spec.
  - apply andb_true_iff in H as [_ H]. apply forallb_Forall in H. eapply Forall_impl; [exact H|]. intros kv Hkv.
    apply andb_true_iff in Hkv as [Hkv _]. by apply unitb_str.
  - apply andb_true_iff in H as [_ H]. apply forallb_Forall in H. rewrite Forall_forall in IH, H |- *. intros kv Hkv.
    apply IH; [done|]. specialize (H kv Hkv). by apply andb_true_iff in H as [_ H].
Qed.

Lemma writableb_spec v : writableb v = true -> writable v.
Proof. intros [H1 H2]%andb_true_iff. split; [by apply json_wfb_spec|done]. Qed.

Definition valid_seqb (n : Seq) : bool := (1 <=? n) && (n <=? MAX_SAFE_INTEGER).
Definition valid_timeb (t : jsnum) : bool := match t with NInt z => (0 <=? z) && (z <=? MAX_SAFE_INTEGER) | NFlt _ => false end.

Definition writable_writeb (w : CommittedWrite) : bool :=
  forallb (fun m : string * option json => match snd m with Some v => writableb v | None => true end) (write_members w) &&
  valid_seqb (write_seq w) && match write_time w with Some t => valid_timeb t | None => true end.

Lemma writable_writeb_spec w : writable_writeb w = true -> writable_write w.
Proof.
  intros [[H1 H2]%andb_true_iff H3]%andb_true_iff. split.
  - apply forallb_Forall in H1. eapply Forall_impl; [exact H1|]. intros [n [v|]]; cbn; [apply writableb_spec|done].
  - unfold valid_seqb, valid_seq in *. bool_lia.
  - destruct (write_time w) as [[z|b]|]; cbn in *; [|done|done]. exists z. split; [done|]. bool_lia.
Qed.

Definition acceptableb (s : StorageState) (writes : list Write) (now : jsnum) : bool :=
  forallb (fun w => match w with PutWrite _ ns key _ | DeleteWrite _ ns key => is_Ok (validateAddress ns key) | _ => true end) writes &&
  forallb writable_writeb (pc_writes (prepareStorageCommit writes (nextSeq s) now)).

Lemma acceptableb_spec s writes now : acceptableb s writes now = true -> acceptable s writes now.
Proof.
  intros [H1 H2]%andb_true_iff. split.
  - apply forallb_Forall in H1. eapply Forall_impl; [exact H1|]. intros [e|r|k ns key v|k ns key]; try done; by intros ([] & H)%is_Ok_exists.
  - apply forallb_Forall in H2. eapply Forall_impl; [exact H2|]. apply writable_writeb_spec.
Qed.

(** * Lines *)

(** A transaction that can be written is one line, and reading the line gives
    the transaction back: entries of every type, usage with fractional costs,
    values and lists, deletions, alone or several at once. *)
Theorem jsonl_transaction_roundtrip ws :
  Forall writable_write ws ->
  parseJsonlTransaction (serializeJsonlTransaction ws) = Ok ws /\ newline ∉ serializeJsonlTransaction ws.
Proof. intros H. split; [by apply parse_serialize|by apply serialize_no_newline]. Qed.

Definition tenth : jsnum := NFlt 0x3FB999999999999A.

Definition sample_usage : Usage :=
  Usage_ (NInt 10) (NInt 20) (NInt 0) (NInt 0) None (Some (NInt 5)) (NInt 30) (Cost_ tenth tenth (NInt 0) (NInt 0) (NFlt 0x3FC999999999999A)).

(** A message whose text has a quote, a line break, a character outside the
    basic plane and half of one. *)
Definition sample_text : jsstr := [0x22; 10; 0x41; 0xD83D; 0xDE00; 0xD83D].

Definition sample_entry (id : string) (parent : option string) : NewEntry :=
  NewEntry_ (js id) (js <$> parent) None (MessageEntry (JObj [(js "role", JStr (js "user")); (js "content", JStr sample_text)]) false).

Definition sample_draft : UsageDraft := UsageDraft_ (js "u1") sample_usage (Some (js "m1")) false None.

Definition sample_writes : list CommittedWrite :=
  [CommittedEntry (Entry_ (sample_entry "m1" None) 1 (NInt 1700000000000)); CommittedUsage (UsageRow_ sample_draft 2);
   CommittedDelete KindList 3 (js "app") (js "k")].

Lemma jsonl_transaction_roundtrip_witness :
  Forall writable_write sample_writes /\ parseJsonlTransaction (serializeJsonlTransaction sample_writes) = Ok sample_writes.
Proof.
  assert (Forall writable_write sample_writes) as H by (repeat (apply Forall_cons_2; [apply writable_writeb_spec; vm_compute; reflexivity|]); apply Forall_nil_2).
  split; [exact H|]. apply (jsonl_transaction_roundtrip sample_writes H).
Defined.

(** * Reopening *)

(** C18: opening the file of a session, at any time between commits, gives the
    session as it lives in memory, under the same header, and leaves the file
    alone, whatever was committed since it was created, refused, or done to other
    files: provided every commit had valid addresses and values that can be written,
    its append did not fail, and the file can be read.  (An address that is not valid
    spoils the file, see [jsonl_bad_address_spoils]; a failed append may leave half a
    line, to which the next commit is joined, see [commit_after_failed_append], unless
    the file is opened before.) *)
Theorem jsonl_file_reopens {FS : Type} {Files : FileSystem FS} (file : FS -> jsstr -> option jsstr) {Laws : FileSystemLaws file}
  (is_date : jsstr -> bool) p h writes now fs0 fs1 st fs s :
  writable_header h -> h_nextSeq h = None -> acceptable new_StorageState writes now ->
  create p h writes now fs0 = (fs1, Ok st) -> rtc (session_moves (file := file) p) (fs1, js_state st) (fs, s) -> readable fs p ->
  open is_date p fs = (fs, Ok (Some (Storage_ p h s))).
Proof.
  intros Hh Hn Ha Hc Hm Hr. destruct (create_logged _ _ _ _ _ _ _ Hh Hn Ha Hc) as (_ & _ & Hl).
  apply (open_logged (file := file)); [|done]. by eapply session_stays_logged.
Qed.

Definition sample_header : JsonlStorageHeader := Header_ (js "s1") (NInt 1) (NInt 1700000000000) (js "/work") None None None.

Lemma sample_header_writable : writable_header sample_header.
Proof.
  split; [exact (js_str_wf "s1")|exact (js_str_wf "/work")|reflexivity| |exact I|exact I|exact I].
  exists 1700000000000. split; [reflexivity|]. unfold MAX_SAFE_INTEGER. lia.
Qed.

Definition path : jsstr := js "s1.jsonl".

(** The lane [main] and its first message. *)
Definition first_writes : list Write :=
  [PutWrite KindValue (js "shuvpi.lane.config") (js "main") (JObj []);
   PutWrite KindValue (js "shuvpi.lane.state") (js "main") (JObj [(js "currentOperationId", JStr (js "op1"))]);
   EntryWrite (sample_entry "m1" None); PutWrite KindValue (js "shuvpi.branch.tip") (js "main") (JStr (js "m1"))].

(** An answer, its usage, and a list of the application. *)
Definition second_writes : list Write :=
  [EntryWrite (sample_entry "m2" (Some "m1"%string)); UsageWrite sample_draft; PutWrite KindList (js "app") (js "k") (JNum tenth);
   PutWrite KindValue (js "shuvpi.branch.tip") (js "main") (JStr (js "m2"))].

Definition no_date (s : jsstr) : bool := false.
Definition start : TestFS := TestFS_ ∅ [].

Definition created : TestFS * StorageState :=
  match create path sample_header first_writes (NInt 100) start with
  | (fs, Ok st) => (fs, js_state st)
  | (fs, Err _) => (fs, new_StorageState)
  end.

Lemma created_eq : create path sample_header first_writes (NInt 100) start = (fst created, Ok (Storage_ path sample_header (snd created))).
Proof. vm_compute. reflexivity. Qed.

Definition committed : TestFS * StorageState := fst (applyCommit path second_writes (NInt 200) created).

Definition commit_answer : jresult CommitResult := snd (applyCommit path second_writes (NInt 200) created).

Lemma commit_answer_ok : commit_answer <> Err (JsonlError "Failed to append JSONL storage").
Proof. vm_compute. discriminate. Qed.

Lemma committed_moves : rtc (session_moves (file := test_file) path) (fst created, snd created) (fst committed, snd committed).
Proof.
  apply rtc_once. apply (moves_commit path _ _ second_writes (NInt 200) _ commit_answer).
  - apply acceptableb_spec. vm_compute. reflexivity.
  - unfold committed, commit_answer. destruct created as [fs s]. cbn [fst snd]. by destruct (applyCommit path second_writes (NInt 200) (fs, s)) as [[fs' s'] r].
  - exact commit_answer_ok.
Qed.

Lemma first_writes_acceptable : acceptable new_StorageState first_writes (NInt 100).
Proof. apply acceptableb_spec. vm_compute. reflexivity. Qed.

Lemma jsonl_file_reopens_witness :
  open no_date path (fst committed) = (fst committed, Ok (Some (Storage_ path sample_header (snd committed)))) /\
  e_id <$> entriesBySeq (snd committed) = [js "m1"; js "m2"] /\ nextSeq (snd committed) = 9.
Proof.
  split; [|vm_compute; auto].
  apply (jsonl_file_reopens test_file no_date path sample_header first_writes (NInt 100) start (fst created) (Storage_ path sample_header (snd created)));
    [exact sample_header_writable|reflexivity|exact first_writes_acceptable|exact created_eq|exact committed_moves|].
  split; vm_compute; reflexivity.
Defined.

(** C17: a commit whose addresses are valid and whose values can be written, to the
    file of a session, does what a commit in memory does, the error it throws
    included, or, when its append fails, nothing; and whatever the append left
    behind, even half a line, the file, if it can be read, then opens to the session
    before the commit or to the one after it, and is a file of complete lines again.
    Only when it ends in half a line and the file system refuses to stage, append or
    rename what is to replace it does opening throw, with the error of that call, and
    then the file is as it was. *)
Theorem jsonl_commit_recoverable {FS : Type} {Files : FileSystem FS} (file : FS -> jsstr -> option jsstr) {Laws : FileSystemLaws file}
  (is_date : jsstr -> bool) p h s fs writes now fs' s' r :
  logged (file := file) fs p h s -> acceptable s writes now -> applyCommit p writes now (fs, s) = ((fs', s'), r) ->
  match r with
  | Ok c => commit writes now s = (s', Ok c)
  | Err (JsonlSession e) => s' = s /\ commit writes now s = (s, Err e)
  | Err e => s' = s /\ e = JsonlError "Failed to append JSONL storage"
  end /\
  forall fs2 o, readable fs' p -> open is_date p fs' = (fs2, o) ->
    (exists s2, o = Ok (Some (Storage_ p h s2)) /\ logged (file := file) fs2 p h s2 /\ (s2 = s \/ exists c, commit writes now s = (s2, Ok c)) /\
       (is_Ok r = true -> s2 = s')) \/
    (exists e, o = Err e /\ file fs2 p = file fs' p /\ r = Err (JsonlError "Failed to append JSONL storage") /\ not_mended (file := file) fs' p e).
Proof.
  intros [Hh (txs & Hl)] Ha E. assert (logged (file := file) fs p h s) as Hlog by (split; [done|by exists txs]).
  pose proof (applyCommit_result fs p h txs s writes now (conj Hh Hl) Ha) as Hc. rewrite E in Hc.
  inversion Hc as [x y c Hl' _ Ec|e Ec|x s1 c Ec Hcut]; subst; (split; [done|]); intros fs2 o Hr Eo.
  - apply logged_as_logged in Hl'. rewrite (open_logged is_date _ _ _ _ Hl' Hr) in Eo. injection Eo as <- <-. left. eexists. eauto 6.
  - rewrite (open_logged is_date _ _ _ _ Hlog Hr) in Eo. injection Eo as <- <-. left. eexists. eauto 6.
  - destruct (open_cut_short is_date _ _ _ _ _ _ _ Hcut Hr Eo) as [(s2 & [->| ->] & -> & Hl2)|(e & -> & Hf & Hm)]; [left|left|right; eauto 6].
    + eexists. eauto 6.
    + exists s1. split; [done|]. split; [done|]. split; [by right; exists c|done].
Qed.

(** The second commit, its append failing after twenty units: opening drops the
    half line. *)
Definition faulty : TestFS := TestFS_ (fs_files (fst created)) [Some 20%nat].
Definition half_committed : TestFS := fst (fst (applyCommit path second_writes (NInt 200) (faulty, snd created))).

Lemma created_logged : logged (file := test_file) faulty path sample_header (snd created).
Proof.
  pose proof (create_logged (file := test_file) path sample_header first_writes (NInt 100) start _ _ sample_header_writable eq_refl first_writes_acceptable created_eq)
    as (_ & _ & Hl).
  exact Hl.
Qed.

Lemma jsonl_commit_recoverable_witness :
  exists fs2, open no_date path half_committed = (fs2, Ok (Some (Storage_ path sample_header (snd created)))) /\
    len (default [] (test_file half_committed path)) = len (default [] (test_file fs2 path)) + 20.
Proof.
  assert (acceptable (snd created) second_writes (NInt 200)) as Ha by (apply acceptableb_spec; vm_compute; reflexivity).
  destruct (open no_date path half_committed) as [fs2 o] eqn:Eo.
  destruct (jsonl_commit_recoverable test_file no_date path sample_header (snd created) faulty second_writes (NInt 200) half_committed (snd created)
    (Err (JsonlError "Failed to append JSONL storage")) created_logged Ha) as [_ H]; [vm_compute; reflexivity|].
  destruct (H fs2 o) as [(s2 & Es & _ & Hs2 & _)|(e & Es & _)]; [split; vm_compute; reflexivity|exact Eo| |]; subst o.
  - destruct Hs2 as [->|(c & Ec)].
    + exists fs2. split; [reflexivity|]. vm_compute in Eo. injection Eo as <-. vm_compute. reflexivity.
    + exfalso. vm_compute in Eo, Ec. injection Eo as _ <-. discriminate Ec.
  - exfalso. vm_compute in Eo. discriminate Eo.
Defined.

(** The file system fails a second time, at staging the file without the half line. *)
Example mend_refused :
  let fs := fst (fst (applyCommit path second_writes (NInt 200) (TestFS_ (fs_files (fst created)) [Some 20%nat; Some 0%nat], snd created))) in
  let '(fs2, o) := open no_date path fs in
  o = Err (JsonlError "Failed to stage JSONL storage") /\ test_file fs2 path = test_file fs path.
Proof. vm_compute. auto. Qed.

(** * What spoils a file *)

(** Validation does not look at addresses.  A commit it accepts that throws
    when it is applied, as a value in an empty namespace does, has already been
    appended: the caller is told it failed, and the file never opens again. *)
Theorem jsonl_bad_address_spoils {FS : Type} {Files : FileSystem FS} (file : FS -> jsstr -> option jsstr) {Laws : FileSystemLaws file}
  (is_date : jsstr -> bool) p h s fs writes now pc fs' s' e :
  logged (file := file) fs p h s -> prepareCommit s writes now = Ok pc -> Forall writable_write (pc_writes pc) ->
  applyCommit p writes now (fs, s) = ((fs', s'), Err (JsonlSession e)) -> readable fs' p ->
  open is_date p fs' = (fs', Err (JsonlError "Invalid JSONL storage: line")).
Proof. apply commit_spoils. Qed.

Definition bad_writes : list Write := [PutWrite KindValue [] (js "k") JNull].

Lemma jsonl_bad_address_spoils_witness :
  exists fs', fst (fst (applyCommit path bad_writes (NInt 200) (fst created, snd created))) = fs' /\
    open no_date path fs' = (fs', Err (JsonlError "Invalid JSONL storage: line")).
Proof.
  eexists. split; [reflexivity|].
  apply (jsonl_bad_address_spoils test_file no_date path sample_header (snd created) (fst created) bad_writes (NInt 200)
    (prepareStorageCommit bad_writes (nextSeq (snd created)) (NInt 200)) _ (snd created) (SessionTypeError "Value namespace must not be empty")).
  - destruct created_logged as [Hh (txs & Hf & Ho)]. split; [exact Hh|]. exists txs. split; [exact Hf|exact Ho].
  - vm_compute. reflexivity.
  - apply Forall_cons_2; [apply writable_writeb_spec; vm_compute; reflexivity|apply Forall_nil_2].
  - vm_compute. reflexivity.
  - split; vm_compute; reflexivity.
Defined.

(** An append that fails half-way leaves the session open: the next commit goes
    on the same line, and its answer is good, but the file never opens again. *)
Example commit_after_failed_append :
  let w := fst (applyCommit path second_writes (NInt 200) (faulty, snd created)) in
  let '((fs, s), r) := applyCommit path second_writes (NInt 300) w in
  is_Ok r = true /\ snd (open no_date path fs) = Err (JsonlError "Invalid JSONL storage: line").
Proof. vm_compute. auto. Qed.

(** * Forks *)

(** A source of a fork in the state [s]: a closed file, perhaps with half a line
    at its end, or an open session captured in that state, whatever it has
    committed since. *)
Inductive fork_source {FS : Type} {Files : FileSystem FS} (file : FS -> jsstr -> option jsstr) (p : jsstr) (h : JsonlStorageHeader) (s : StorageState)
  : option Seq -> FS -> Prop :=
| source_closed fs txs tail :
    writable_header h -> opens_to h txs s -> newline ∉ tail -> file fs p = Some (file_text h txs ++ tail) -> fork_source file p h s None fs
| source_open fs0 fs s' :
    logged (file := file) fs0 p h s -> rtc (session_moves (file := file) p) (fs0, s) (fs, s') -> fork_source file p h s (Some (nextSeq s)) fs.

Lemma fork_source_of {FS : Type} {Files : FileSystem FS} (file : FS -> jsstr -> option jsstr) {Laws : FileSystemLaws file} p h s next fs :
  fork_source file p h s next fs ->
  exists txs, source_of (file := file) fs (ForkInput_ (SourceMetadata (h_id h) (h_cwd h) p) next) h txs s.
Proof.
  intros [fs1 txs tail Hh Ho Ht Hf|fs0 fs1 s' [Hh (txs & Hl)] Hm]; exists txs.
  - split; [done..|]. exists [], tail. rewrite app_nil_r. split_and!; [exact Hf|exact Ht|constructor|done].
  - destruct (session_log_grows _ _ _ _ _ _ _ Hm (conj Hh Hl)) as (more & (_ & Hf & Ho) & Hmore). split; [done|done|done|apply Hl|done|].
    exists more, []. rewrite app_nil_r. pose proof (ot_lines _ _ _ Ho) as Hw. apply Forall_app in Hw as [_ Hw].
    split_and!; [exact Hf|apply not_elem_of_nil|exact Hw|]. destruct more as [|ws more]; [done|]. destruct Hmore as (w & ws' & -> & Hle).
    by exists (nextSeq s), w, ws'.
Qed.

(** C20: forking the file of a session, open or closed, makes a file that opens to
    a fork of the session under the plan a fork in memory selects: the same
    entries, values and lists under the same policy, no usage, the same next
    sequence; commits made meanwhile are not in it.  Otherwise the destination is
    as it was; no other file is touched either way. *)
Theorem jsonl_fork_is_fork {FS : Type} {Files : FileSystem FS} (file : FS -> jsstr -> option jsstr) {Laws : FileSystemLaws file}
  (is_date : jsstr -> bool) p h s next fs fuel dst hd options fs' r :
  fork_source file p h s next fs -> (length (entriesBySeq s) < fuel)%nat -> writable_header hd -> nextSeq s <= MAX_SAFE_INTEGER ->
  p <> temp_path dst ->
  runJsonlFork is_date fuel (ForkInput_ (SourceMetadata (h_id h) (h_cwd h) p) next) dst hd options fs = (fs', r) ->
  (forall q, q <> dst -> q <> temp_path dst -> file fs' q = file fs q) /\
  match r with
  | Ok _ => exists plan d, selectForkPlan s fuel options = Some (Ok plan) /\ fork_of s d plan /\ session_inv d /\
              (readable fs' dst -> open is_date dst fs' = (fs', Ok (Some (Storage_ dst (with_nextSeq hd (nextSeq s)) d))))
  | Err _ => file fs' dst = file fs dst
  end.
Proof.
  intros Hsrc Hf Hhd Hmax Hne E. destruct (fork_source_of file p h s next fs Hsrc) as (txs & Hs).
  destruct (runJsonlFork_result is_date _ _ _ _ _ _ _ _ _ _ _ Hs Hf Hhd Hmax Hne E) as [Hframe Hr]. split; [done|].
  destruct r as [u|e]; [|done]. destruct Hr as (_ & plan & d & Hplan & Hfork & Hl). exists plan, d. split_and!; [done|done| |].
  - destruct Hl as (_ & dtxs & _ & Ho). apply Ho.
  - intros Hread. by apply (open_logged (file := file)).
Qed.

Definition fork_path : jsstr := js "s2.jsonl".
Definition fork_header : JsonlStorageHeader := Header_ (js "s2") (NInt 1) (NInt 1700000001000) (js "/work") (Some (js "s1")) None None.

(** The branch as it was before the second commit, read after it. *)
Definition fork_run : TestFS * jresult (option unit) :=
  runJsonlFork no_date 2 (ForkInput_ (SourceMetadata (js "s1") (js "/work") path) (Some (nextSeq (snd created)))) fork_path fork_header
    (ForkBranch (js "main") None false) (fst committed).

Lemma fork_run_ok : snd fork_run = Ok (Some tt).
Proof. vm_compute. reflexivity. Qed.

Lemma fork_header_writable : writable_header fork_header.
Proof.
  split; [exact (js_str_wf "s2")|exact (js_str_wf "/work")|reflexivity| |exact (js_str_wf "s1")|exact I|exact I].
  exists 1700000001000. split; [reflexivity|]. unfold MAX_SAFE_INTEGER. lia.
Qed.

Lemma jsonl_fork_is_fork_witness :
  exists d, open no_date fork_path (fst fork_run) = (fst fork_run, Ok (Some (Storage_ fork_path (with_nextSeq fork_header 5) d))) /\
    e_id <$> entriesBySeq d = [js "m1"] /\
    (exists seq, value_at d (js "shuvpi.lane.state") (js "main") = Some (idle_lane_state, seq)).
Proof.
  assert (fork_source test_file path sample_header (snd created) (Some (nextSeq (snd created))) (fst committed)) as Hsrc.
  { apply (source_open _ _ _ _ (fst created) _ (snd committed)); [|exact committed_moves].
    destruct created_logged as [Hh (txs & Hf & Ho)]. split; [exact Hh|]. exists txs. split; [exact Hf|exact Ho]. }
  destruct (jsonl_fork_is_fork test_file no_date path sample_header (snd created) _ (fst committed) 2 fork_path fork_header
    (ForkBranch (js "main") None false) (fst fork_run) (Ok (Some tt)) Hsrc) as [_ (plan & d & Hp & Hfork & _ & Ho)];
    [vm_compute; lia|exact fork_header_writable|vm_compute; discriminate|vm_compute; discriminate|vm_compute; reflexivity|].
  exists d. split; [apply Ho; split; vm_compute; reflexivity|]. split.
  - rewrite (fk_entries _ _ _ Hfork). vm_compute in Hp. injection Hp as <-. vm_compute. reflexivity.
  - assert (names_ok (js "shuvpi.lane.state") (js "main")) as Hn by reflexivity. rewrite (fk_values _ _ _ Hfork _ _ Hn).
    vm_compute in Hp. injection Hp as <-. eexists. vm_compute. reflexivity.
Defined.
