(* ===== verification/AiTypes.v ===== *)
(** The messages of models: the types of [packages/ai/src/types.ts] and
    [contentText] of [packages/ai/src/utils/text.ts]. *)
From S2P Require Import Prelude JsBase JsText Json SessionTypes.

(** * What messages are made of *)

Record TextContent : Type := TextContent_ { tc_text : jsstr; tc_textSignature : option jsstr }.
Record ThinkingContent : Type := ThinkingContent_ { th_thinking : jsstr; th_thinkingSignature : option jsstr; th_redacted : option bool }.
Record ToolCall : Type := ToolCall_ {
  tool_id : jsstr;
  tool_name : jsstr;
  tool_arguments : json;
  tool_thoughtSignature : option jsstr;
  tool_namespace : option jsstr;
}.

(** [TextContent | ImageContent]: an image is its data and its MIME type. *)
Inductive input_block : Type :=
| InputText (content : TextContent)
| InputImage (data mimeType : jsstr).

(** [string | (TextContent | ImageContent)[]] *)
Inductive input_content : Type :=
| InputString (text : jsstr)
| InputBlocks (blocks : list input_block).

(** [TextContent | ThinkingContent | ToolCall] *)
Inductive content_block : Type :=
| BlockText (content : TextContent)
| BlockThinking (content : ThinkingContent)
| BlockToolCall (call : ToolCall).

Inductive StopReason : Type := StopPending | StopStop | StopLength | StopToolUse | StopError | StopAborted | StopDeferred.

#[export] Instance StopReason_eq_dec : EqDecision StopReason.
Proof. solve_decision. Defined.

(** * Messages *)

(** [Tool]; its schema and the sampling it constrains are JSON. *)
Record Tool : Type := Tool_ {
  tl_name : jsstr;
  tl_description : jsstr;
  tl_parameters : json;
  tl_constrainedSampling : option json;
}.

(** [SystemMessage]: its sections in the order of the object, with the names of the
    tools removed.  [None] as a section is [null]. *)
Record SystemMessage : Type := SystemMessage_ {
  sy_content : input_content;
  sy_sections : option (list (jsstr * option jsstr));
  sy_toolsAdded : option (list Tool);
  sy_toolsRemoved : option (list jsstr);
  sy_timestamp : jsnum;
}.

Record UserMessage : Type := UserMessage_ { um_content : input_content; um_timestamp : jsnum }.

Record ToolResultMessage : Type := ToolResultMessage_ {
  tr_toolCallId : jsstr;
  tr_toolName : jsstr;
  tr_content : list input_block;
  tr_details : option json;
  tr_usage : option Usage;
  tr_isError : bool;
  tr_timestamp : jsnum;
}.

Record AssistantMessage : Type := AssistantMessage_ {
  am_content : list content_block;
  am_api : jsstr;
  am_provider : jsstr;
  am_model : jsstr;
  am_responseModel : option jsstr;
  am_responseId : option jsstr;
  am_providerThinkingLevel : option jsstr;
  am_diagnostics : option json;
  am_usage : Usage;
  am_stopReason : StopReason;
  am_deferred : option json;
  am_errorMessage : option jsstr;
  am_rawStopReason : option jsstr;
  am_endTurn : option bool;
  am_timestamp : jsnum;
}.

(** [Message] *)
Inductive Message : Type :=
| MsgSystem (m : SystemMessage)
| MsgUser (m : UserMessage)
| MsgAssistant (m : AssistantMessage)
| MsgToolResult (m : ToolResultMessage).

(** * Text *)

(** The text blocks of a content. *)
Definition input_texts (blocks : list input_block) : list jsstr :=
  omap (fun b => match b with InputText c => Some (tc_text c) | InputImage _ _ => None end) blocks.

Definition contentText (content : input_content) (separator : jsstr) : jsstr :=
  match content with
  | InputString text => text
  | InputBlocks blocks => join separator (input_texts blocks)
  end.

(** [contentText] of the content of an assistant message. *)
Definition block_texts (blocks : list content_block) : list jsstr :=
  omap (fun b => match b with BlockText c => Some (tc_text c) | _ => None end) blocks.

Definition contentText_blocks (blocks : list content_block) (separator : jsstr) : jsstr := join separator (block_texts blocks).
