(* ===== verification/AgentMessages.v ===== *)
(** The messages and entries an agent works on, and the context a model gets of
    them: [packages/agent/src/harness/messages.ts], the entries of
    [session/types.ts] with their messages in full, and [session/context.ts].

    The storage keeps messages as JSON ([SessionTypes]); here they have the types
    the harness gives them. *)
From S2P Require Import Prelude JsBase JsFloat JsText Json SessionTypes AiTypes.

(** * Messages *)

Record BashExecutionMessage : Type := BashExecutionMessage_ {
  bx_command : jsstr;
  bx_output : jsstr;
  bx_exitCode : option Z;
  bx_cancelled : bool;
  bx_truncated : bool;
  bx_fullOutputPath : option jsstr;
  bx_timestamp : jsnum;
  bx_excludeFromContext : option bool;
}.

Record CustomMessage : Type := CustomMessage_ {
  cm_customType : jsstr;
  cm_content : input_content;
  cm_display : bool;
  cm_details : option json;
  cm_timestamp : jsnum;
}.

Record BranchSummaryMessage : Type := BranchSummaryMessage_ {
  bs_summary : jsstr;
  bs_fromId : option jsstr;
  bs_timestamp : jsnum;
}.

Record CompactionSummaryMessage : Type := CompactionSummaryMessage_ {
  cs_summary : jsstr;
  cs_tokensBefore : jsnum;
  cs_timestamp : jsnum;
}.

(** A message of a type an application adds: its role is none of the others, and
    its timestamp may be a text. *)
Record ApplicationMessage : Type := ApplicationMessage_ {
  ap_role : jsstr;
  ap_timestamp : jsnum + jsstr;
  ap_data : json;
}.

(** [AgentMessage], by role. *)
Inductive AgentMessage : Type :=
| AgentLlm (m : Message)
| AgentBash (m : BashExecutionMessage)
| AgentCustom (m : CustomMessage)
| AgentBranchSummary (m : BranchSummaryMessage)
| AgentCompactionSummary (m : CompactionSummaryMessage)
| AgentApplication (m : ApplicationMessage).

(** [message.timestamp] *)
Definition message_timestamp (message : AgentMessage) : jsnum + jsstr :=
  match message with
  | AgentLlm (MsgSystem m) => inl (sy_timestamp m)
  | AgentLlm (MsgUser m) => inl (um_timestamp m)
  | AgentLlm (MsgAssistant m) => inl (am_timestamp m)
  | AgentLlm (MsgToolResult m) => inl (tr_timestamp m)
  | AgentBash m => inl (bx_timestamp m)
  | AgentCustom m => inl (cm_timestamp m)
  | AgentBranchSummary m => inl (bs_timestamp m)
  | AgentCompactionSummary m => inl (cs_timestamp m)
  | AgentApplication m => ap_timestamp m
  end.

Definition COMPACTION_SUMMARY_PREFIX : jsstr := js "The conversation history before this point was compacted into the following summary:

<summary>
".

Definition COMPACTION_SUMMARY_SUFFIX : jsstr := js "
</summary>".

Definition BRANCH_SUMMARY_PREFIX : jsstr := js "The following is a summary of a branch that this conversation came back from:

<summary>
".

Definition BRANCH_SUMMARY_SUFFIX : jsstr := js "</summary>".

Definition non_empty (text : jsstr) : bool := negb (bool_decide (text = [])).

Definition bashExecutionToText (msg : BashExecutionMessage) : jsstr :=
  let text := js "Ran `" ++ bx_command msg ++ js "`" ++ [newline] in
  let fence := js "```" in
  let text :=
    if non_empty (bx_output msg) then text ++ fence ++ [newline] ++ bx_output msg ++ [newline] ++ fence
    else text ++ js "(no output)" in
  let text :=
    if bx_cancelled msg then text ++ [newline; newline] ++ js "(command cancelled)"
    else
      match bx_exitCode msg with
      | Some exitCode => if exitCode =? 0 then text else text ++ [newline; newline] ++ js "Command exited with code " ++ js_of_Z exitCode
      | None => text
      end in
  match bx_fullOutputPath msg with
  | Some fullOutputPath =>
      if bx_truncated msg && non_empty fullOutputPath
      then text ++ [newline; newline] ++ js "[Output truncated. Full output: " ++ fullOutputPath ++ js "]"
      else text
  | None => text
  end.

(** Timestamps are those of entries, which are numbers. *)
Definition createBranchSummaryMessage (summary : jsstr) (fromId : option jsstr) (timestamp : jsnum) : AgentMessage :=
  AgentBranchSummary (BranchSummaryMessage_ summary fromId timestamp).

Definition createCompactionSummaryMessage (summary : jsstr) (tokensBefore timestamp : jsnum) : AgentMessage :=
  AgentCompactionSummary (CompactionSummaryMessage_ summary tokensBefore timestamp).

(** [content: [{ type: "text", text }]] *)
Definition text_content (text : jsstr) : input_content := InputBlocks [InputText (TextContent_ text None)].

Definition user_text (text : jsstr) (timestamp : jsnum) : Message := MsgUser (UserMessage_ (text_content text) timestamp).

(** What a model is sent of a message. *)
Definition to_llm (m : AgentMessage) : option Message :=
  match m with
  | AgentBash m =>
      if default false (bx_excludeFromContext m) then None
      else Some (user_text (bashExecutionToText m) (bx_timestamp m))
  | AgentCustom m =>
      let content := match cm_content m with InputString text => text_content text | content => content end in
      Some (MsgUser (UserMessage_ content (cm_timestamp m)))
  | AgentBranchSummary m => Some (user_text (BRANCH_SUMMARY_PREFIX ++ bs_summary m ++ BRANCH_SUMMARY_SUFFIX) (bs_timestamp m))
  | AgentCompactionSummary m => Some (user_text (COMPACTION_SUMMARY_PREFIX ++ cs_summary m ++ COMPACTION_SUMMARY_SUFFIX) (cs_timestamp m))
  | AgentLlm m => Some m
  | AgentApplication _ => None
  end.

Definition convertToLlm (messages : list AgentMessage) : list Message := omap to_llm messages.

(** * Entries *)

Inductive TranscriptBody : Type :=
| TMessage (message : AgentMessage) (terminate : bool)
| TCompaction (summary : jsstr) (retainedTail : list AgentMessage) (tokensBefore : jsnum) (details : option json) (usage : option Usage) (fromHook : bool)
| TBranchSummary (fromId : option jsstr) (summary : jsstr) (details : option json) (usage : option Usage) (fromHook : bool)
| TCustom (customType : jsstr) (data : option json).

(** [Entry] *)
Record TranscriptEntry : Type := TranscriptEntry_ {
  te_id : jsstr;
  te_parentId : option jsstr;
  te_seq : Seq;
  te_timestamp : jsnum;
  te_body : TranscriptBody;
}.

Definition is_compaction (entry : TranscriptEntry) : bool :=
  match te_body entry with TCompaction _ _ _ _ _ _ => true | _ => false end.

(** * The context of a model *)

(** [for (let index = n - 1; index >= 0; index--)]: the first that passes. *)
Fixpoint find_below {A} (pred : A -> bool) (l : list A) (n : nat) : option (nat * A) :=
  match n with
  | O => None
  | S index =>
      match l !! index with
      | Some a => if pred a then Some (index, a) else find_below pred l index
      | None => find_below pred l index
      end
  end.

Definition find_last {A} (pred : A -> bool) (l : list A) : option (nat * A) := find_below pred l (length l).

Definition buildContextEntries (pathEntries : list TranscriptEntry) : list TranscriptEntry :=
  match find_last is_compaction pathEntries with
  | None => pathEntries
  | Some (compactionIndex, compaction) => compaction :: drop (S compactionIndex) pathEntries
  end.

Definition isContextMessage (message : AgentMessage) : bool :=
  match message with
  | AgentLlm (MsgAssistant m) => negb (bool_decide (am_stopReason m ∈ [StopError; StopAborted; StopDeferred]))
  | _ => true
  end.

Definition sessionEntryToContextMessages (entry : TranscriptEntry) : list AgentMessage :=
  match te_body entry with
  | TMessage message _ => if isContextMessage message then [message] else []
  | TCompaction summary retainedTail tokensBefore _ _ _ =>
      createCompactionSummaryMessage summary tokensBefore (te_timestamp entry) :: base.filter (fun m => isContextMessage m = true) retainedTail
  | TBranchSummary fromId summary _ _ _ => if non_empty summary then [createBranchSummaryMessage summary fromId (te_timestamp entry)] else []
  | TCustom _ _ => []
  end.

Section Projected.
Context {E : Type}.
(** [entryProjectors[customType]] *)
Variable entryProjectors : jsstr -> option (TranscriptEntry -> result E (option (list AgentMessage))).

Definition entry_context (messages : list AgentMessage) (entry : TranscriptEntry) : result E (list AgentMessage) :=
  match te_body entry with
  | TCustom customType _ =>
      match entryProjectors customType with
      | Some projector => projected ← projector entry; Ok (messages ++ default [] projected)
      | None => Ok messages
      end
  | _ => Ok (messages ++ sessionEntryToContextMessages entry)
  end.

Definition buildSessionContext (pathEntries : list TranscriptEntry) : result E (list AgentMessage) :=
  foldM entry_context [] (buildContextEntries pathEntries).
End Projected.

(** * What the context is made of *)

Lemma find_below_app {A} (pred : A -> bool) l l' n : (n <= length l)%nat -> find_below pred (l ++ l') n = find_below pred l n.
Proof.
  induction n as [|n IH]; intros Hn; [done|]. cbn. rewrite lookup_app_l, IH by lia. done.
Qed.

Lemma find_last_snoc {A} (pred : A -> bool) l a : find_last pred (l ++ [a]) = if pred a then Some (length l, a) else find_last pred l.
Proof.
  unfold find_last. rewrite length_app, Nat.add_1_r. cbn [find_below]. rewrite list_lookup_middle by done.
  destruct (pred a); [done|]. by apply find_below_app.
Qed.

Lemma find_last_None {A} (pred : A -> bool) l : find_last pred l = None <-> Forall (fun a => pred a = false) l.
Proof.
  induction l as [|a l IH] using rev_ind; [done|]. rewrite find_last_snoc, Forall_app, Forall_singleton. destruct (pred a); naive_solver.
Qed.

Lemma find_last_Some {A} (pred : A -> bool) l i a :
  find_last pred l = Some (i, a) <->
  exists before after, l = before ++ a :: after /\ length before = i /\ pred a = true /\ Forall (fun a => pred a = false) after.
Proof.
  induction l as [|b l IH] using rev_ind; [split; [done|by intros ([|] & ? & ? & _)]|]. rewrite find_last_snoc. destruct (pred b) eqn:Eb.
  - split; [intros [= <- <-]; by exists l, []|]. intros (before & after & E & <- & Ha & Hr).
    destruct after as [|c after _] using rev_ind; [by apply app_inj_tail in E as [-> ->]|].
    rewrite app_comm_cons, app_assoc in E. apply app_inj_tail in E as [_ ->]. apply Forall_app in Hr as [_ [Hr _]%Forall_cons]. congruence.
  - rewrite IH. split.
    + intros (before & after & -> & ? & ? & ?). exists before, (after ++ [b]). rewrite Forall_app, Forall_singleton. split_and!; try done. by rewrite <- app_assoc.
    + intros (before & after & E & ? & Ha & Hr). destruct after as [|c after _] using rev_ind; [apply app_inj_tail in E as [_ ->]; congruence|].
      rewrite app_comm_cons, app_assoc in E. apply app_inj_tail in E as [-> <-]. apply Forall_app in Hr as [? _]. by exists before, after.
Qed.

(** Where the last compaction is the context begins. *)
Lemma buildContextEntries_last before entry rest :
  is_compaction entry = true -> Forall (fun e => is_compaction e = false) rest ->
  buildContextEntries (before ++ entry :: rest) = entry :: rest.
Proof.
  intros He Hr. unfold buildContextEntries. rewrite (proj2 (find_last_Some is_compaction _ (length before) entry)) by eauto 8.
  by rewrite drop_app_ge, Nat.sub_succ_l, Nat.sub_diag by lia.
Qed.

Lemma buildContextEntries_none path : Forall (fun e => is_compaction e = false) path -> buildContextEntries path = path.
Proof. intros H%find_last_None. unfold buildContextEntries. by rewrite H. Qed.

(** Without projectors the context is what the entries give one by one. *)
Lemma buildSessionContext_plain {E} path : @buildSessionContext E (fun _ => None) path = Ok (buildContextEntries path ≫= sessionEntryToContextMessages).
Proof.
  unfold buildSessionContext. assert (forall l acc, @foldM E _ _ (entry_context (fun _ => None)) acc l = Ok (acc ++ (l ≫= sessionEntryToContextMessages))) as H.
  { induction l as [|e l IH]; intros acc; cbn; [by rewrite app_nil_r|].
    assert (entry_context (fun _ => None) acc e = Ok (acc ++ sessionEntryToContextMessages e)) as ->; [|cbn; by rewrite IH, <- app_assoc].
    unfold entry_context, sessionEntryToContextMessages. destruct (te_body e); try done. by rewrite app_nil_r. }
  apply H.
Qed.
