(* ===== verification/Transcript.v ===== *)
(** The system messages of a transcript, replayed: [packages/ai/src/utils/transcript.ts]
    and [getSystemMessageText] of [text.ts].

    The prompt and the tools a model has are what its system messages say, one
    after the other. *)
From S2P Require Import Prelude JsBase JsFloat JsText Json JsonText JsonParse SessionTypes AiTypes AgentMessages.

(** [message.role === "system"] *)
Definition isSystemMessage (message : AgentMessage) : option SystemMessage :=
  match message with AgentLlm (MsgSystem m) => Some m | _ => None end.

Definition systems (messages : list AgentMessage) : list SystemMessage := omap isSystemMessage messages.

(** * The leading message *)

Definition createInitialSystemMessage (systemPrompt : option jsstr) (tools : option (list Tool)) : option SystemMessage :=
  let hasSystemPrompt := match systemPrompt with Some s => non_empty s | None => false end in
  let hasTools := match tools with Some (_ :: _) => true | _ => false end in
  if negb hasSystemPrompt && negb hasTools then None
  else Some (SystemMessage_ (InputString (default [] systemPrompt)) None (if hasTools then tools else None) None (NInt 0)).

(** [Context]: what callers of a model pass. *)
Record Context_ : Type := Context__ { cx_systemPrompt : option jsstr; cx_messages : list Message; cx_tools : option (list Tool) }.

Definition normalizeContext (context : Context_) : list Message :=
  match createInitialSystemMessage (cx_systemPrompt context) (cx_tools context) with
  | Some m => MsgSystem m :: cx_messages context
  | None => cx_messages context
  end.

Definition getInitialSystemMessage (messages : list AgentMessage) : option SystemMessage :=
  match messages with [] => None | first :: _ => isSystemMessage first end.

Definition withoutInitialSystemMessage (messages : list Message) : list Message :=
  match getInitialSystemMessage (AgentLlm <$> messages) with Some _ => tail messages | None => messages end.

(** * Tools *)

Definition set_tool (tools : list (jsstr * Tool)) (tool : Tool) : list (jsstr * Tool) := amap_set tools (tl_name tool) tool.

(** What a system message does to the tools: it removes, then adds. *)
Definition replay_tools (tools : list (jsstr * Tool)) (m : SystemMessage) : list (jsstr * Tool) :=
  foldl set_tool (foldl amap_delete tools (default [] (sy_toolsRemoved m))) (default [] (sy_toolsAdded m)).

Definition getCurrentTools (messages : list AgentMessage) : list Tool := (foldl replay_tools [] (systems messages)).*2.

(** * The prompt *)

(** The locals of [getCurrentSystemMessage]. *)
Record Replay : Type := Replay_ { rp_content : list jsstr; rp_sections : list (jsstr * jsstr); rp_timestamp : option jsnum }.

Definition replay_section (sections : list (jsstr * jsstr)) (entry : jsstr * option jsstr) : list (jsstr * jsstr) :=
  match snd entry with
  | None => amap_delete sections (fst entry)
  | Some value => amap_set sections (fst entry) value
  end.

Definition replay_prompt (r : Replay) (m : SystemMessage) : Replay :=
  let text := contentText (sy_content m) [newline] in
  Replay_ (rp_content r ++ if non_empty text then [text] else [])
    (foldl replay_section (rp_sections r) (default [] (sy_sections m)))
    (match rp_timestamp r with Some t => Some t | None => Some (sy_timestamp m) end).

Definition some_value {K V} (kv : K * V) : K * option V := (fst kv, Some (snd kv)).

Definition getCurrentSystemMessage (messages : list AgentMessage) : option SystemMessage :=
  let r := foldl replay_prompt (Replay_ [] [] None) (systems messages) in
  let tools := getCurrentTools messages in
  match rp_timestamp r, tools with
  | None, [] => None
  | _, _ =>
      Some (SystemMessage_ (InputString (join blank_line (rp_content r)))
        (if bool_decide (rp_sections r = []) then None else Some (obj_of_entries (some_value <$> rp_sections r)))
        (if bool_decide (length tools = 0%nat) then None else Some tools) None (default (NInt 0) (rp_timestamp r)))
  end.

Definition getSystemMessageText (m : SystemMessage) : jsstr :=
  join blank_line (filter (fun part => non_empty part = true)
    (contentText (sy_content m) [newline] :: omap snd (default [] (sy_sections m)))).

Definition getCurrentSystemPrompt (messages : list AgentMessage) : jsstr :=
  match getCurrentSystemMessage messages with Some m => getSystemMessageText m | None => [] end.

Definition collapseSystemMessages (messages : list Message) : list Message :=
  let rest := filter (fun m => isSystemMessage (AgentLlm m) = None) messages in
  match getCurrentSystemMessage (AgentLlm <$> messages) with Some head => MsgSystem head :: rest | None => rest end.

Definition resolveTranscript (messages : list Message) (supportsMidConvoSystemMessages : option bool) : list Message :=
  if default false supportsMidConvoSystemMessages then messages else collapseSystemMessages messages.

(** * Declarations *)

(** [JSON.parse(JSON.stringify(v))]; what is written can be read. *)
Definition json_clone (v : json) : json := match parse (stringify v) with Some v' => v' | None => v end.

Definition toToolDeclaration (tool : Tool) : Tool :=
  Tool_ (tl_name tool) (tl_description tool) (json_clone (tl_parameters tool)) (tl_constrainedSampling tool).

Definition tool_json (tool : Tool) : json :=
  JObj ([(js "name", JStr (tl_name tool)); (js "description", JStr (tl_description tool)); (js "parameters", tl_parameters tool)] ++
    match tl_constrainedSampling tool with Some c => [(js "constrainedSampling", c)] | None => [] end).

Definition declarationsEqual (left right : Tool) : bool :=
  bool_decide (stringify (tool_json (toToolDeclaration left)) = stringify (tool_json (toToolDeclaration right))).

Record ToolStateChanges : Type := ToolStateChanges_ { ch_toolsAdded : list Tool; ch_toolsRemoved : list jsstr }.

(** [new Map(tools.map((tool) => [tool.name, tool]))] *)
Definition tool_map (tools : list Tool) : list (jsstr * Tool) := foldl set_tool [] tools.

(** Not in a map, or declared otherwise there. *)
Definition differs (map : list (jsstr * Tool)) (equal : Tool -> bool) (tool : Tool) : bool :=
  match amap_get map (tl_name tool) with Some other => negb (equal other) | None => true end.

Definition getToolStateChanges (previous current : list Tool) : ToolStateChanges :=
  ToolStateChanges_
    (toToolDeclaration <$> filter (fun tool => differs (tool_map previous) (fun other => declarationsEqual other tool) tool = true) current)
    (tl_name <$> filter (fun tool => differs (tool_map current) (fun other => declarationsEqual tool other) tool = true) previous).

(** * How tools are sent *)

Definition added_tools (m : SystemMessage) : list Tool := default [] (sy_toolsAdded m).

Definition getDeclaredTools (messages : list AgentMessage) : list Tool := (foldl (fun tools m => foldl set_tool tools (added_tools m)) [] (systems messages)).*2.

(** The loops over the tools of a message return early; [None] is such a return. *)
Fixpoint declare_once (declared : list (jsstr * Tool)) (tools : list Tool) : option (list (jsstr * Tool)) :=
  match tools with
  | [] => Some declared
  | tool :: tools =>
      match amap_get declared (tl_name tool) with
      | Some previous => if declarationsEqual previous tool then declare_once (set_tool declared tool) tools else None
      | None => declare_once (set_tool declared tool) tools
      end
  end.

Fixpoint redefines (declared : list (jsstr * Tool)) (messages : list SystemMessage) : bool :=
  match messages with
  | [] => false
  | m :: messages => match declare_once declared (added_tools m) with Some declared => redefines declared messages | None => true end
  end.

Definition hasToolRedefinitions (messages : list AgentMessage) : bool := redefines [] (systems messages).

Fixpoint declare_new (declared : list jsstr) (tools : list Tool) : option (list jsstr) :=
  match tools with
  | [] => Some declared
  | tool :: tools => if decide (tl_name tool ∈ declared) then None else declare_new (tl_name tool :: declared) tools
  end.

Fixpoint takes_back (declared : list jsstr) (messages : list SystemMessage) : bool :=
  match messages with
  | [] => false
  | m :: messages =>
      if bool_decide (default [] (sy_toolsRemoved m) <> []) then true
      else
        match declare_new declared (added_tools m) with Some declared => takes_back declared messages | None => true end
  end.

Definition hasNonAdditiveToolChanges (messages : list AgentMessage) : bool := takes_back [] (systems messages).

Record TranscriptTools : Type := TranscriptTools_ { tt_requestTools : list Tool; tt_anchorsAdditions : bool }.

Definition resolveTranscriptTools (messages : list AgentMessage) (supportsToolAdditions : bool) : TranscriptTools :=
  let anchorsAdditions := supportsToolAdditions && negb (hasNonAdditiveToolChanges messages) in
  TranscriptTools_
    (if anchorsAdditions then match getInitialSystemMessage messages with Some m => added_tools m | None => [] end
     else getCurrentTools messages)
    anchorsAdditions.

(** * Maps of tools

    A map is keyed by the names of the tools it holds. *)

Definition by_name (tools : list Tool) : list (jsstr * Tool) := (fun tool => (tl_name tool, tool)) <$> tools.

Definition names (tools : list Tool) : list jsstr := tl_name <$> tools.

Lemma by_name_tools tools : (by_name tools).*2 = tools.
Proof. unfold by_name. rewrite <- list_fmap_compose. apply list_fmap_id. Qed.

Lemma by_name_names tools : (by_name tools).*1 = names tools.
Proof. unfold by_name, names. by rewrite <- list_fmap_compose. Qed.

Lemma by_name_get tools name tool : NoDup (names tools) -> amap_get (by_name tools) name = Some tool <-> tool ∈ tools /\ tl_name tool = name.
Proof.
  intros Hn. rewrite <- amap_get_elem by (by rewrite by_name_names). unfold by_name. rewrite list_elem_of_fmap. split.
  - intros (t & [= -> ->] & Ht). done.
  - intros [Ht <-]. by exists tool.
Qed.

Lemma by_name_fresh tools name : amap_get (by_name tools) name = None <-> name ∉ names tools.
Proof. by rewrite amap_get_None, by_name_names. Qed.

Lemma set_new_tools tools added :
  NoDup (names added) -> (forall name, name ∈ names added -> name ∉ names tools) -> foldl set_tool (by_name tools) added = by_name (tools ++ added).
Proof.
  unfold names. revert tools. induction added as [|t added IH]; intros tools Hn Hf; cbn; [by rewrite app_nil_r|]. apply NoDup_cons in Hn as [Ht Hn].
  unfold set_tool at 2. rewrite amap_set_new by (apply by_name_fresh, Hf; cbn; set_solver).
  replace (by_name tools ++ [(tl_name t, t)]) with (by_name (tools ++ [t])) by (unfold by_name; by rewrite fmap_app).
  rewrite IH, <- app_assoc; [done..|]. intros name Hin. rewrite fmap_app, not_elem_of_app. split; [apply Hf; cbn; set_solver|].
  cbn. intros ->%list_elem_of_singleton. done.
Qed.

Lemma tool_map_by_name tools : NoDup (names tools) -> tool_map tools = by_name tools.
Proof. intros Hn. apply (set_new_tools []); [done|]. intros name _. apply not_elem_of_nil. Qed.

Lemma delete_by_name tools name : amap_delete (by_name tools) name = by_name (filter (fun t => tl_name t <> name) tools).
Proof.
  unfold amap_delete, by_name. induction tools as [|t tools IH]; [done|]. rewrite filter_cons. cbn [fmap list_fmap List.filter fst].
  case_bool_decide as E; cbn [negb].
  - by rewrite decide_False by (intros H; by apply H).
  - rewrite decide_True by done. cbn [fmap list_fmap]. by f_equal.
Qed.

Lemma filter_true {A} (P : A -> Prop) `{!forall a, Decision (P a)} (l : list A) : Forall P l -> filter P l = l.
Proof. induction 1 as [|a l Ha _ IH]; [done|]. by rewrite filter_cons, decide_True, IH. Qed.

Lemma filter_false {A} (P : A -> Prop) `{!forall a, Decision (P a)} (l : list A) : Forall (fun a => ~ P a) l -> filter P l = [].
Proof. induction 1 as [|a l Ha _ IH]; [done|]. by rewrite filter_cons, decide_False. Qed.

Lemma delete_tools tools removed : foldl amap_delete (by_name tools) removed = by_name (filter (fun t => tl_name t ∉ removed) tools).
Proof.
  revert tools. induction removed as [|name removed IH]; intros tools; cbn.
  - f_equal. symmetry. apply filter_true, Forall_forall. intros t _. apply not_elem_of_nil.
  - rewrite delete_by_name, IH, list_filter_filter. f_equal. apply list_filter_iff. intros t. rewrite not_elem_of_cons. tauto.
Qed.

Lemma set_tool_by_name tools tool : NoDup (names tools) -> exists tools', set_tool (by_name tools) tool = by_name tools' /\ NoDup (names tools').
Proof.
  intros Hn. destruct (amap_get (by_name tools) (tl_name tool)) as [old|] eqn:Eg.
  - unfold set_tool. exists ((fun t => if decide (tl_name t = tl_name tool) then tool else t) <$> tools). split.
    + revert Hn Eg. induction tools as [|t tools IH]; [done|]. intros [Ht Hn]%NoDup_cons. cbn. destruct (decide (tl_name t = tl_name tool)) as [E|E].
      * intros _. apply (f_equal (cons (tl_name tool, tool))), (f_equal by_name). symmetry. rewrite <- (list_fmap_id tools) at 2.
        apply list_fmap_ext. intros i t' Hi. cbn. rewrite decide_False; [done|]. intros E'.
        apply Ht. rewrite E, <- E'. apply list_elem_of_fmap_2. by eapply list_elem_of_lookup_2.
      * intros Eg. f_equal. by apply IH.
    + unfold names. rewrite <- list_fmap_compose. replace ((tl_name ∘ _) <$> tools) with (tl_name <$> tools); [done|].
      apply list_fmap_ext. intros i t _. cbn. by case_decide.
  - exists (tools ++ [tool]). unfold set_tool. rewrite amap_set_new by done. split; [unfold by_name; by rewrite fmap_app|].
    unfold names. rewrite fmap_app. apply by_name_fresh in Eg. apply NoDup_app. split_and!; [done| |apply NoDup_singleton].
    intros name Hin ->%list_elem_of_singleton. done.
Qed.

Lemma filter_names_NoDup (P : Tool -> Prop) `{!forall t, Decision (P t)} tools : NoDup (names tools) -> NoDup (names (filter P tools)).
Proof.
  unfold names. induction tools as [|t tools IH]; [done|]. rewrite filter_cons. intros [Ht Hn]%NoDup_cons. case_decide; [|by apply IH].
  cbn [fmap list_fmap]. apply NoDup_cons. split; [|by apply IH]. contradict Ht. apply list_elem_of_fmap in Ht as (t' & -> & [_ Hin]%list_elem_of_filter).
  apply list_elem_of_fmap. by exists t'.
Qed.

Lemma replay_tools_by_name tools m : NoDup (names tools) -> exists tools', replay_tools (by_name tools) m = by_name tools' /\ NoDup (names tools').
Proof.
  intros Hn. unfold replay_tools. rewrite delete_tools. generalize (filter_names_NoDup (fun t => tl_name t ∉ default [] (sy_toolsRemoved m)) tools Hn).
  generalize (filter (fun t => tl_name t ∉ default [] (sy_toolsRemoved m)) tools). clear tools Hn.
  induction (default [] (sy_toolsAdded m)) as [|t added IH]; intros tools Hn; cbn; [by exists tools|].
  destruct (set_tool_by_name tools t Hn) as (tools' & -> & Hn'). by apply IH.
Qed.

(** The tools of a transcript have names of their own, and the map they are kept
    in is keyed by them. *)
Lemma current_tools_by_name messages :
  foldl replay_tools [] (systems messages) = by_name (getCurrentTools messages) /\ NoDup (names (getCurrentTools messages)).
Proof.
  unfold getCurrentTools. assert (exists tools, foldl replay_tools [] (systems messages) = by_name tools /\ NoDup (names tools)) as (tools & -> & Hn);
    [|by rewrite by_name_tools].
  change (@nil (jsstr * Tool)) with (by_name []). assert (NoDup (names [])) as Hn by constructor. revert Hn. generalize (@nil Tool).
  induction (systems messages) as [|m ms IH]; intros tools Hn; cbn; [by exists tools|].
  destruct (replay_tools_by_name tools m Hn) as (tools' & -> & Hn'). by apply IH.
Qed.

(** * Declarations are compared exactly

    Of tools whose schemas are JSON with numbers that print as they are. *)

Definition tool_ok (tool : Tool) : Prop := json_wf (tool_json tool) /\ json_prints (tool_json tool) = true.

Lemma json_clone_id v : json_wf v -> json_prints v = true -> json_clone v = v.
Proof. intros Hw Hp. unfold json_clone. by rewrite parse_stringify. Qed.

Lemma toToolDeclaration_id tool : tool_ok tool -> toToolDeclaration tool = tool.
Proof.
  intros [Hw Hp]. destruct tool as [name description parameters sampling]. unfold toToolDeclaration. cbn [tl_name tl_description tl_parameters tl_constrainedSampling]. f_equal.
  inversion Hw as [| | | | |? _ _ Hv E]; subst. cbn [json_prints tool_json] in Hp. apply forallb_Forall in Hp. unfold tool_json in Hp. cbn [tl_parameters tl_name tl_description app] in *.
  apply Forall_cons in Hv as [_ Hv]. apply Forall_cons in Hv as [_ Hv]. apply Forall_cons in Hv as [Hv _].
  apply Forall_cons in Hp as [_ Hp]. apply Forall_cons in Hp as [_ Hp]. apply Forall_cons in Hp as [Hp _]. by apply json_clone_id.
Qed.

Lemma tool_json_inj left right : tool_json left = tool_json right -> left = right.
Proof.
  destruct left as [n d p [c|]], right as [n' d' p' [c'|]]; unfold tool_json; cbn [tl_name tl_description tl_parameters tl_constrainedSampling]; intros H;
    injection H; congruence.
Qed.

Lemma declarationsEqual_eq left right : tool_ok left -> tool_ok right -> declarationsEqual left right = true <-> left = right.
Proof.
  intros Hl Hr. unfold declarationsEqual. rewrite bool_decide_eq_true, !toToolDeclaration_id by done. split; [|by intros ->]. intros E.
  apply (f_equal parse) in E. destruct Hl as [Hl1 Hl2], Hr as [Hr1 Hr2]. rewrite (parse_stringify _ Hl1 Hl2), (parse_stringify _ Hr1 Hr2) in E. by apply (inj Some), tool_json_inj in E.
Qed.

Lemma names_inj tools tool tool' : NoDup (names tools) -> tool ∈ tools -> tool' ∈ tools -> tl_name tool = tl_name tool' -> tool = tool'.
Proof.
  intros Hn Ht Ht' E. assert (amap_get (by_name tools) (tl_name tool') = Some tool) as H by (apply by_name_get; done).
  assert (amap_get (by_name tools) (tl_name tool') = Some tool') by (apply by_name_get; done). congruence.
Qed.

Lemma names_NoDup tools : NoDup (names tools) -> NoDup tools.
Proof. apply NoDup_fmap_1. Qed.

#[export] Instance Tool_eq_dec : EqDecision Tool.
Proof. solve_decision. Defined.

(** A tool differs from a set of them when it is not one of them. *)
Lemma differs_iff tools (equal : Tool -> bool) tool :
  NoDup (names tools) -> (forall other, other ∈ tools -> equal other = true <-> other = tool) -> differs (tool_map tools) equal tool = true <-> tool ∉ tools.
Proof.
  intros Hn He. unfold differs. rewrite tool_map_by_name by done. destruct (amap_get (by_name tools) (tl_name tool)) as [other|] eqn:Eg.
  - apply by_name_get in Eg as [Hin E]; [|done]. specialize (He other Hin). destruct (equal other); cbn.
    + split; [done|]. intros H. destruct H. by rewrite <- (proj1 He eq_refl).
    + split; [|done]. intros _ Ht. destruct (names_inj tools other tool); [done..|]. destruct He as [_ He]. by specialize (He eq_refl).
  - split; [|done]. intros _ Ht. apply by_name_fresh in Eg. apply Eg. by apply list_elem_of_fmap_2.
Qed.

(** The changes between two sets of tools lead from the one to the other. *)
Lemma changes_applied previous current m :
  NoDup (names previous) -> NoDup (names current) -> Forall tool_ok previous -> Forall tool_ok current ->
  default [] (sy_toolsAdded m) = ch_toolsAdded (getToolStateChanges previous current) ->
  default [] (sy_toolsRemoved m) = ch_toolsRemoved (getToolStateChanges previous current) ->
  exists tools, replay_tools (by_name previous) m = by_name tools /\ NoDup (names tools) /\ tools ≡ₚ current.
Proof.
  intros Hp Hc Op Oc Ea Er. rewrite Forall_forall in Op, Oc. unfold replay_tools. rewrite Ea, Er, delete_tools. clear Ea Er m.
  unfold getToolStateChanges. cbn [ch_toolsAdded ch_toolsRemoved].
  set (gone := filter (fun tool => differs (tool_map current) _ tool = true) previous). set (added := filter (fun tool => differs _ _ tool = true) current). set (kept := filter _ previous).
  assert (forall t, t ∈ added <-> t ∈ current /\ t ∉ previous) as Hadded.
  { intros t. unfold added. rewrite list_elem_of_filter. split; intros [H1 H2].
    - split; [done|]. eapply differs_iff; [done| |exact H1]. intros other Ho. apply declarationsEqual_eq; auto.
    - split; [|done]. apply differs_iff; [done| |done]. intros other Ho. apply declarationsEqual_eq; auto. }
  assert (forall t, t ∈ previous -> tl_name t ∈ tl_name <$> gone <-> t ∉ current) as Hgone.
  { intros t Ht. unfold gone. rewrite list_elem_of_fmap. setoid_rewrite list_elem_of_filter. split.
    - intros (t' & E & Hd & Hin). rewrite (names_inj previous t t') by done. eapply differs_iff; [done| |exact Hd].
      intros other Ho. rewrite declarationsEqual_eq by auto. naive_solver.
    - intros Hn. exists t. split_and!; [done| |done]. apply differs_iff; [done| |done]. intros other Ho. rewrite declarationsEqual_eq by auto. naive_solver. }
  assert (forall t, t ∈ kept <-> t ∈ previous /\ t ∈ current) as Hkept.
  { intros t. unfold kept. rewrite list_elem_of_filter. split; intros [H1 H2].
    - split; [done|]. destruct (decide (t ∈ current)) as [|Hn]; [done|]. by apply Hgone in Hn.
    - split; [|done]. rewrite Hgone by done. by intros Hn. }
  exists (kept ++ added). replace (toToolDeclaration <$> added) with added.
  2: { symmetry. rewrite <- (list_fmap_id added) at 2. apply list_fmap_ext. intros i t Hi. apply toToolDeclaration_id, Oc, Hadded. by eapply list_elem_of_lookup_2. }
  assert (kept ++ added ≡ₚ current) as Hperm.
  { apply NoDup_Permutation; [apply NoDup_app; split_and!|by apply names_NoDup|].
    - unfold kept. by apply NoDup_filter, names_NoDup.
    - intros t Hk Ha. apply Hkept in Hk as [Hk _]. by apply Hadded in Ha as [_ Ha].
    - unfold added. by apply NoDup_filter, names_NoDup.
    - intros t. rewrite elem_of_app, Hkept, Hadded. destruct (decide (t ∈ previous)); naive_solver. }
  assert (NoDup (names (kept ++ added))) as Hnames by (eapply NoDup_Permutation_proper; [exact (fmap_Permutation tl_name _ _ Hperm)|done]).
  split_and!; [|done|done]. unfold names in Hnames. rewrite fmap_app in Hnames. apply NoDup_app in Hnames as (_ & Hdis & Ha).
  apply set_new_tools; [done|]. intros name H1 H2. by apply (Hdis name).
Qed.

(** * Collapsed transcripts *)

Section FmapObject.
Context {V W : Type} (h : V -> W).
Let g (kv : jsstr * V) : jsstr * W := (fst kv, h (snd kv)).

Lemma obj_get_fmap o k : obj_get (g <$> o) k = h <$> obj_get o k.
Proof. induction o as [|[k' v] o IH]; cbn; [done|]. by case_decide. Qed.

Lemma obj_set_fmap o k v : obj_set (g <$> o) k (h v) = g <$> obj_set o k v.
Proof.
  assert (obj_has (g <$> o) k = obj_has o k) as Eh by (unfold obj_has; rewrite obj_get_fmap; by destruct (obj_get o k)).
  unfold obj_set. rewrite Eh. clear Eh. destruct (obj_has o k).
  - induction o as [|[k' v'] o IH]; cbn; [done|]. case_decide; cbn; [done|]. by f_equal.
  - destruct (array_index k) as [n|]; [|by rewrite fmap_app].
    induction o as [|[k' v'] o IH]; cbn; [done|]. destruct (array_index k') as [m|]; [destruct (m <? n)|]; cbn; [by f_equal|done..].
Qed.

Lemma obj_of_entries_fmap l : obj_of_entries (g <$> l) = g <$> obj_of_entries l.
Proof.
  unfold obj_of_entries. change (@nil (jsstr * W)) with (g <$> []). generalize (@nil (jsstr * V)).
  induction l as [|[k v] l IH]; intros o; cbn; [done|]. by rewrite obj_set_fmap, IH.
Qed.
End FmapObject.

Lemma obj_of_entries_nil {V} (l : list (jsstr * V)) : obj_of_entries l = [] <-> l = [].
Proof.
  split; [|by intros ->]. intros H. destruct l as [|[k v] l] using rev_ind; [done|]. unfold obj_of_entries in H. rewrite foldl_app in H.
  apply (f_equal (fun o => obj_get o k)) in H. cbn in H. by rewrite obj_get_set, decide_True in H.
Qed.

(** The sections a system message has that holds the current ones. *)
Lemma replay_own_sections (sections : list (jsstr * jsstr)) :
  NoDup sections.*1 -> foldl replay_section [] (some_value <$> sections) = sections.
Proof.
  assert (forall front, NoDup (front ++ sections).*1 -> foldl replay_section front (some_value <$> sections) = front ++ sections) as H;
    [|apply (H [])].
  induction sections as [|[k v] sections IH]; intros front Hn; cbn; [by rewrite app_nil_r|].
  change (replay_section front (k, Some v)) with (amap_set front k v).
  rewrite amap_set_new.
  - rewrite IH; rewrite <- app_assoc; [done|exact Hn].
  - apply amap_get_None. rewrite fmap_app in Hn. apply NoDup_app in Hn as (_ & Hd & _). intros Hin. apply (Hd k Hin). left.
Qed.

Lemma systems_llm messages : Forall (fun m => isSystemMessage (AgentLlm m) = None) messages -> systems (AgentLlm <$> messages) = [].
Proof. induction 1 as [|m messages Hm _ IH]; [done|]. unfold systems in *. cbn [fmap list_fmap omap list_omap]. by rewrite Hm. Qed.

Lemma current_tools_systems messages messages' : systems messages = systems messages' -> getCurrentTools messages = getCurrentTools messages'.
Proof. unfold getCurrentTools. by intros ->. Qed.

(** The timestamps replayed are those of the first system message. *)
Lemma replay_timestamp ms r : rp_timestamp (foldl replay_prompt r ms) = match rp_timestamp r with Some t => Some t | None => sy_timestamp <$> head ms end.
Proof.
  revert r. induction ms as [|m ms IH]; intros r; cbn; [by destruct (rp_timestamp r)|]. rewrite IH. cbn. by destruct (rp_timestamp r).
Qed.

Lemma current_message_None messages : getCurrentSystemMessage messages = None -> systems messages = [].
Proof.
  unfold getCurrentSystemMessage. rewrite replay_timestamp. cbn. by destruct (systems messages).
Qed.

Lemma replay_sections_NoDup ms r : NoDup (rp_sections r).*1 -> NoDup (rp_sections (foldl replay_prompt r ms)).*1.
Proof.
  revert r. induction ms as [|m ms IH]; intros r Hn; cbn; [done|]. apply IH. cbn [rp_sections replay_prompt].
  revert Hn. generalize (rp_sections r). induction (default [] (sy_sections m)) as [|[k v] entries IHe]; intros sections Hn; cbn; [done|].
  apply IHe. unfold replay_section. cbn [fst snd]. destruct v as [v|]; [by apply amap_set_NoDup|].
  unfold amap_delete. clear - Hn. induction sections as [|[k' v'] sections IH]; cbn in *; [done|]. apply NoDup_cons in Hn as [Hk Hn].
  case_bool_decide; cbn; [by apply IH|]. apply NoDup_cons. split; [|by apply IH]. contradict Hk.
  apply list_elem_of_fmap in Hk as ([k1 v1] & -> & [Hin _]%list_elem_of_In%filter_In). apply list_elem_of_fmap. exists (k1, v1). split; [done|]. by apply list_elem_of_In.
Qed.

(** The message for a prompt, its sections and the tools. *)
Definition head_message (content : list jsstr) (sections : list (jsstr * jsstr)) (tools : list Tool) (timestamp : jsnum) : SystemMessage :=
  SystemMessage_ (InputString (join blank_line content)) (if bool_decide (sections = []) then None else Some (obj_of_entries (some_value <$> sections)))
    (if bool_decide (length tools = 0%nat) then None else Some tools) None timestamp.

Lemma current_message_form messages m ms :
  systems messages = m :: ms ->
  getCurrentSystemMessage messages =
    Some (head_message (rp_content (foldl replay_prompt (Replay_ [] [] None) (m :: ms))) (rp_sections (foldl replay_prompt (Replay_ [] [] None) (m :: ms)))
      (getCurrentTools messages) (sy_timestamp m)).
Proof. intros E. unfold getCurrentSystemMessage. rewrite E, replay_timestamp. done. Qed.

Lemma join_single separator part : join separator [part] = part.
Proof. cbn. apply app_nil_r. Qed.

(** A message that holds what a transcript says says it again. *)
Lemma head_message_again messages content sections tools timestamp :
  NoDup sections.*1 -> NoDup (names tools) -> systems messages = [head_message content sections tools timestamp] ->
  getCurrentTools messages = tools /\ getCurrentSystemMessage messages = Some (head_message content sections tools timestamp).
Proof.
  intros Hs Ht E. assert (getCurrentTools messages = tools) as Etools.
  { unfold getCurrentTools. rewrite E. cbn. unfold replay_tools. cbn. replace (default [] (if bool_decide (length tools = 0%nat) then None else Some tools)) with tools.
    - change (foldl set_tool [] tools) with (tool_map tools). by rewrite tool_map_by_name, by_name_tools.
    - by destruct tools. }
  split; [done|]. rewrite (current_message_form _ _ _ E), Etools. cbn [foldl replay_prompt rp_content rp_sections].
  replace (default [] (sy_sections (head_message content sections tools timestamp))) with (some_value <$> obj_of_entries sections).
  2: { unfold head_message. cbn [sy_sections]. case_bool_decide as En; [by rewrite En|]. symmetry. apply obj_of_entries_fmap. }
  rewrite replay_own_sections by (apply obj_sorted_NoDup, obj_sorted_of_entries).
  unfold head_message at 1. cbn [sy_timestamp sy_content head_message]. unfold head_message. do 2 f_equal.
  - f_equal. cbn [contentText app]. unfold non_empty. case_bool_decide as En; cbn [negb]; [by rewrite En|]. apply join_single.
  - rewrite !(bool_decide_ext _ _ (obj_of_entries_nil sections)). case_bool_decide; [done|]. f_equal. unfold some_value.
    rewrite !(obj_of_entries_fmap Some), (obj_of_entries_id (obj_of_entries sections)); [done|]. apply obj_sorted_of_entries.
Qed.

(** What providers without system messages in the middle get says the same. *)
Lemma collapse_same messages :
  getCurrentTools (AgentLlm <$> collapseSystemMessages messages) = getCurrentTools (AgentLlm <$> messages) /\
  getCurrentSystemMessage (AgentLlm <$> collapseSystemMessages messages) = getCurrentSystemMessage (AgentLlm <$> messages).
Proof.
  assert (systems (AgentLlm <$> filter (fun m => isSystemMessage (AgentLlm m) = None) messages) = []) as Hrest.
  { apply systems_llm, Forall_forall. intros m Hm. by apply list_elem_of_filter in Hm as [Hm _]. }
  unfold collapseSystemMessages. destruct (systems (AgentLlm <$> messages)) as [|m ms] eqn:E.
  - assert (getCurrentSystemMessage (AgentLlm <$> messages) = None) as H by (unfold getCurrentSystemMessage, getCurrentTools; by rewrite E).
    rewrite H. unfold getCurrentSystemMessage, getCurrentTools. by rewrite Hrest, E.
  - rewrite (current_message_form _ _ _ E). set (tail := filter _ messages) in *.
    apply head_message_again; [apply replay_sections_NoDup; constructor|apply current_tools_by_name|]. unfold systems in *. cbn. by rewrite Hrest.
Qed.

(** * Tools that are only added *)

Definition all_added (messages : list AgentMessage) : list Tool := concat (added_tools <$> systems messages).

Lemma declare_new_Some declared tools declared' :
  declare_new declared tools = Some declared' -> declared' ≡ₚ names tools ++ declared /\ NoDup (names tools) /\ (forall t, t ∈ tools -> tl_name t ∉ declared).
Proof.
  unfold names. revert declared. induction tools as [|t tools IH]; intros declared; cbn; [intros [= ->]; split_and!; [done|constructor|by intros t ?%elem_of_nil]|].
  case_decide as Hd; [done|]. intros H. apply IH in H as (Hp & Hn & Hf). split_and!.
  - rewrite Hp. apply Permutation_sym, Permutation_middle.
  - apply NoDup_cons. split; [|done]. intros (t' & E & Hin)%list_elem_of_fmap. apply (Hf t' Hin). rewrite <- E. left.
  - intros t'. rewrite elem_of_cons. intros [->|Hin]; [done|]. intros Hx. apply (Hf t' Hin). by right.
Qed.

(** Then replaying is appending. *)
Lemma additive_replay declared tools ms :
  takes_back declared ms = false -> declared ≡ₚ names tools -> foldl replay_tools (by_name tools) ms = by_name (tools ++ concat (added_tools <$> ms)).
Proof.
  revert declared tools. induction ms as [|m ms IH]; intros declared tools H Hd; cbn; [by rewrite app_nil_r|]. cbn in H.
  case_bool_decide as Er; [done|]. assert (default [] (sy_toolsRemoved m) = []) as Er' by (destruct (default [] (sy_toolsRemoved m)); [done|by destruct Er]).
  destruct (declare_new declared (added_tools m)) as [declared'|] eqn:En; [|done]. apply declare_new_Some in En as (Hp & Hn & Hf).
  unfold replay_tools at 2. rewrite Er'. cbn [foldl]. fold (added_tools m). rewrite set_new_tools; [|done|].
  - rewrite app_assoc. apply (IH declared'); [done|]. rewrite Hp, Hd. unfold names. rewrite fmap_app. apply Permutation_app_comm.
  - intros name (t & -> & Hin)%list_elem_of_fmap. rewrite <- Hd. by apply Hf.
Qed.

Lemma additive_tools messages : hasNonAdditiveToolChanges messages = false -> getCurrentTools messages = all_added messages.
Proof.
  intros H. unfold getCurrentTools, all_added. change (@nil (jsstr * Tool)) with (by_name []). by rewrite (additive_replay [] [] _ H), by_name_tools.
Qed.

Lemma additive_removes declared ms : takes_back declared ms = false -> Forall (fun m => default [] (sy_toolsRemoved m) = []) ms.
Proof.
  revert declared. induction ms as [|m ms IH]; intros declared; cbn; [constructor|]. case_bool_decide as Er; [done|].
  destruct (declare_new declared (added_tools m)) as [declared'|]; [|done]. intros H. constructor; [|by eapply IH].
  destruct (default [] (sy_toolsRemoved m)); [done|by destruct Er].
Qed.

Lemma additive_removes_nothing messages : hasNonAdditiveToolChanges messages = false -> Forall (fun m => default [] (sy_toolsRemoved m) = []) (systems messages).
Proof. apply additive_removes. Qed.

(** * Tools that are declared twice *)

Lemma declarationsEqual_sym a b : declarationsEqual a b = declarationsEqual b a.
Proof. unfold declarationsEqual. apply bool_decide_ext. naive_solver. Qed.

Lemma declarationsEqual_trans a b c : declarationsEqual a b = true -> declarationsEqual b c = declarationsEqual a c.
Proof. unfold declarationsEqual. rewrite bool_decide_eq_true. by intros ->. Qed.

(** Each of the tools agrees with every other of its name. *)
Definition agree (tools : list Tool) : Prop := forall a b, a ∈ tools -> b ∈ tools -> tl_name a = tl_name b -> declarationsEqual a b = true.

(** What is declared is some tool seen for each name seen. *)
Definition represents (declared : list (jsstr * Tool)) (seen : list Tool) : Prop :=
  forall name, match amap_get declared name with
               | Some tool => tool ∈ seen /\ tl_name tool = name
               | None => name ∉ names seen
               end.

Lemma represents_set declared seen tool : represents declared seen -> represents (set_tool declared tool) (seen ++ [tool]).
Proof.
  intros H name. specialize (H name). unfold set_tool. rewrite amap_get_set. case_decide as E; [set_solver|].
  destruct (amap_get declared name) as [t|]; [set_solver|]. unfold names in *. rewrite fmap_app. cbn. set_solver.
Qed.

Lemma agree_snoc seen tool : agree (seen ++ [tool]) <-> agree seen /\ forall t, t ∈ seen -> tl_name t = tl_name tool -> declarationsEqual t tool = true.
Proof.
  unfold agree. split.
  - intros H. split; intros; apply H; set_solver.
  - intros [H Ht] a b. rewrite !elem_of_app, !list_elem_of_singleton. intros [Ha| ->] [Hb| ->] E; [by apply H|by apply Ht| |].
    + rewrite declarationsEqual_sym. by apply Ht.
    + by apply bool_decide_eq_true.
Qed.

Lemma agree_app_l seen more : agree (seen ++ more) -> agree seen.
Proof. intros H a b Ha Hb. apply H; set_solver. Qed.

Lemma declare_once_spec declared seen tools :
  represents declared seen -> agree seen ->
  match declare_once declared tools with Some declared' => represents declared' (seen ++ tools) /\ agree (seen ++ tools) | None => ~ agree (seen ++ tools) end.
Proof.
  revert declared seen. induction tools as [|t tools IH]; intros declared seen Hr Ha; cbn; [by rewrite app_nil_r|].
  pose proof (Hr (tl_name t)) as Hg. assert (agree (seen ++ [t]) -> match declare_once (set_tool declared t) tools with
    | Some declared' => represents declared' (seen ++ t :: tools) /\ agree (seen ++ t :: tools) | None => ~ agree (seen ++ t :: tools) end) as Hnext.
  { intros Ht. specialize (IH (set_tool declared t) (seen ++ [t])). rewrite <- app_assoc in IH. apply IH; [by apply represents_set|done]. }
  destruct (amap_get declared (tl_name t)) as [previous|].
  - destruct Hg as [Hin En]. destruct (declarationsEqual previous t) eqn:Ed.
    + apply Hnext, agree_snoc. split; [done|]. intros t' Ht' E. rewrite <- Ed. symmetry. apply declarationsEqual_trans. apply Ha; [done..|congruence].
    + intros H. rewrite (cons_middle t) in H. rewrite app_assoc in H. apply agree_app_l, agree_snoc in H as [_ H]. specialize (H previous Hin En). congruence.
  - apply Hnext, agree_snoc. split; [done|]. intros t' Ht' E. destruct Hg. rewrite <- E. by apply list_elem_of_fmap_2.
Qed.

Lemma redefines_spec declared seen ms :
  represents declared seen -> agree seen -> redefines declared ms = false <-> agree (seen ++ concat (added_tools <$> ms)).
Proof.
  revert declared seen. induction ms as [|m ms IH]; intros declared seen Hr Ha; cbn; [by rewrite app_nil_r|].
  pose proof (declare_once_spec declared seen (added_tools m) Hr Ha) as H. rewrite app_assoc. destruct (declare_once declared (added_tools m)) as [declared'|].
  - destruct H as [Hr' Ha']. by apply IH.
  - split; [done|]. intros Hx. by apply agree_app_l in Hx.
Qed.

Lemma redefinitions_iff messages : hasToolRedefinitions messages = false <-> agree (all_added messages).
Proof.
  apply (redefines_spec [] []); [|by intros a b ?%elem_of_nil]. intros name. cbn. apply not_elem_of_nil.
Qed.
