(* ===== verification/Compaction.v ===== *)
(** When and how a conversation is compacted: what is counted, where it is cut,
    what is summarized and what is kept.
    [packages/agent/src/harness/compaction/compaction.ts].

    Counts of characters and tokens are integers; the settings of a compaction and
    what providers report are JavaScript numbers. *)
From stdpp Require Import sorting.
From S2P Require Import Prelude JsBase Json JsonText JsText JsFloat JsonParse SessionTypes AiTypes AgentMessages.

(** * What summaries of conversations are made from: the files tool calls touched,
    and a conversation as text.  [packages/agent/src/harness/compaction/utils.ts].

    The sets of paths are only ever listed in order, so they are sets here. *)

(** * File operations *)

Record FileOperations : Type := FileOperations_ { fo_read : gset jsstr; fo_written : gset jsstr; fo_edited : gset jsstr }.

Definition createFileOps : FileOperations := FileOperations_ ∅ ∅ ∅.

Definition add_read (path : jsstr) (f : FileOperations) : FileOperations := FileOperations_ ({[path]} ∪ fo_read f) (fo_written f) (fo_edited f).
Definition add_written (path : jsstr) (f : FileOperations) : FileOperations := FileOperations_ (fo_read f) ({[path]} ∪ fo_written f) (fo_edited f).
Definition add_edited (path : jsstr) (f : FileOperations) : FileOperations := FileOperations_ (fo_read f) (fo_written f) ({[path]} ∪ fo_edited f).

(** [typeof args.path === "string" ? args.path : undefined], if it is not empty. *)
Definition path_argument (arguments : json) : option jsstr :=
  match arguments with
  | JObj o => match obj_get o (js "path") with Some (JStr path) => if non_empty path then Some path else None | _ => None end
  | _ => None
  end.

Definition note_block (fileOps : FileOperations) (block : content_block) : FileOperations :=
  match block with
  | BlockToolCall call =>
      match path_argument (tool_arguments call) with
      | None => fileOps
      | Some path =>
          if bool_decide (tool_name call = js "read") then add_read path fileOps
          else if bool_decide (tool_name call = js "write") then add_written path fileOps
          else if bool_decide (tool_name call = js "edit") then add_edited path fileOps
          else fileOps
      end
  | _ => fileOps
  end.

Definition extractFileOpsFromMessage (message : AgentMessage) (fileOps : FileOperations) : FileOperations :=
  match message with
  | AgentLlm (MsgAssistant m) => foldl note_block fileOps (am_content m)
  | _ => fileOps
  end.

(** [readFiles] and [modifiedFiles]. *)
Definition computeFileLists (fileOps : FileOperations) : list jsstr * list jsstr :=
  let modified := fo_edited fileOps ∪ fo_written fileOps in
  let readOnly := sort_strings (elements (fo_read fileOps ∖ modified)) in
  let modifiedFiles := sort_strings (elements modified) in
  (readOnly, modifiedFiles).

(** [<tag>], the lines, [</tag>]. *)
Definition tagged (tag : string) (files : list jsstr) : jsstr :=
  js "<" ++ js tag ++ js ">" ++ [newline] ++ join [newline] files ++ [newline] ++ js "</" ++ js tag ++ js ">".

Definition formatFileOperations (readFiles modifiedFiles : list jsstr) : jsstr :=
  let sections :=
    (if (0 <? length readFiles)%nat then [tagged "read-files" readFiles] else []) ++
    (if (0 <? length modifiedFiles)%nat then [tagged "modified-files" modifiedFiles] else []) in
  match sections with
  | [] => []
  | _ => [newline; newline] ++ join [newline; newline] sections
  end.

(** * A conversation as text *)

Definition TOOL_RESULT_MAX_CHARS : nat := 2000.

Definition truncateForSummary (text : jsstr) (maxChars : nat) : jsstr :=
  if (length text <=? maxChars)%nat then text
  else
    let truncatedChars := Z.of_nat (length text) - Z.of_nat maxChars in
    take maxChars text ++ [newline; newline] ++ js "[... " ++ js_of_Z truncatedChars ++ js " more characters truncated]".

(** A [TypeError]. *)
Inductive type_err : Type := TypeError_.

(** [Object.entries(v)]: of an object, of the places of an array or of a string,
    of nothing else but [null], which it refuses. *)
Definition object_entries (v : json) : result type_err (list (jsstr * json)) :=
  match v with
  | JNull => Err TypeError_
  | JObj o => Ok o
  | JArr items => Ok (imap (fun i item => (js_of_Z (Z.of_nat i), item)) items)
  | JStr text => Ok (imap (fun i unit => (js_of_Z (Z.of_nat i), JStr [unit])) text)
  | _ => Ok []
  end.

Definition call_text (call : ToolCall) : result type_err jsstr :=
  args ← object_entries (tool_arguments call);
  let argsStr := join (js ", ") ((fun kv => fst kv ++ js "=" ++ stringify (snd kv)) <$> args) in
  Ok (tool_name call ++ js "(" ++ argsStr ++ js ")").

(** The loop over the blocks of an assistant message. *)
Definition block_step (acc : list jsstr * list jsstr) (block : content_block) : result type_err (list jsstr * list jsstr) :=
  let '(thinkingParts, toolCalls) := acc in
  match block with
  | BlockThinking c => Ok (thinkingParts ++ [th_thinking c], toolCalls)
  | BlockToolCall call => text ← call_text call; Ok (thinkingParts, toolCalls ++ [text])
  | BlockText _ => Ok acc
  end.

Definition is_text_block (block : content_block) : bool := match block with BlockText _ => true | _ => false end.

Definition serialize_message (parts : list jsstr) (msg : Message) : result type_err (list jsstr) :=
  match msg with
  | MsgUser m =>
      let content := contentText (um_content m) [] in
      Ok (if non_empty content then parts ++ [js "[User]: " ++ content] else parts)
  | MsgAssistant m =>
      pieces ← foldM block_step ([], []) (am_content m);
      let '(thinkingParts, toolCalls) := pieces in
      let parts := if (0 <? length thinkingParts)%nat then parts ++ [js "[Assistant thinking]: " ++ join [newline] thinkingParts] else parts in
      let parts := if existsb is_text_block (am_content m) then parts ++ [js "[Assistant]: " ++ contentText_blocks (am_content m) [newline]] else parts in
      Ok (if (0 <? length toolCalls)%nat then parts ++ [js "[Assistant tool calls]: " ++ join (js "; ") toolCalls] else parts)
  | MsgToolResult m =>
      let content := contentText (InputBlocks (tr_content m)) [] in
      Ok (if non_empty content then parts ++ [js "[Tool result]: " ++ truncateForSummary content TOOL_RESULT_MAX_CHARS] else parts)
  | MsgSystem _ => Ok parts
  end.

Definition serializeConversation (messages : list Message) : result type_err jsstr :=
  parts ← foldM serialize_message [] messages; Ok (join [newline; newline] parts).

(** * What the lists of files are *)

(** A block is a call of the tool that names the path. *)
Definition names (tool : string) (path : jsstr) (block : content_block) : Prop :=
  match block with
  | BlockToolCall call => tool_name call = js tool /\ path_argument (tool_arguments call) = Some path
  | _ => False
  end.

Definition touches (tool : string) (path : jsstr) (message : AgentMessage) : Prop :=
  match message with
  | AgentLlm (MsgAssistant m) => Exists (names tool path) (am_content m)
  | _ => False
  end.

(** [fileOps] holds what [before] held, and the paths [X] takes the tools to. *)
Definition holds (X : string -> jsstr -> Prop) (before fileOps : FileOperations) : Prop :=
  forall path,
    (path ∈ fo_read fileOps <-> path ∈ fo_read before \/ X "read" path) /\
    (path ∈ fo_written fileOps <-> path ∈ fo_written before \/ X "write" path) /\
    (path ∈ fo_edited fileOps <-> path ∈ fo_edited before \/ X "edit" path).

Lemma holds_refl f : holds (fun _ _ => False) f f.
Proof. unfold holds. naive_solver. Qed.

Lemma holds_trans X Y Z a b c : holds X a b -> holds Y b c -> (forall t p, Z t p <-> X t p \/ Y t p) -> holds Z a c.
Proof. intros H1 H2 HZ path. destruct (H1 path), (H2 path). rewrite !HZ. naive_solver. Qed.

Lemma note_block_holds f block : holds (fun t p => names t p block) f (note_block f block).
Proof.
  destruct block as [|?|call]; cbn [note_block names]; try apply holds_refl. destruct (path_argument _) as [path|]; unfold holds; [|naive_solver].
  unfold holds, add_read, add_written, add_edited. intros p.
  assert (js "read" <> js "write" /\ js "read" <> js "edit" /\ js "write" <> js "edit") as (? & ? & ?) by (split_and!; discriminate).
  repeat case_bool_decide; split_and!; cbn [fo_read fo_written fo_edited]; rewrite ?elem_of_union, ?elem_of_singleton; intuition congruence.
Qed.

Lemma extract_holds message f : holds (fun t p => touches t p message) f (extractFileOpsFromMessage message f).
Proof.
  destruct message as [[| |m|]| | | | |]; try apply holds_refl. cbn.
  revert f. induction (am_content m) as [|b blocks IH]; intros f; cbn.
  - eapply holds_trans; [apply holds_refl..|]. intros. rewrite Exists_nil. tauto.
  - eapply holds_trans; [apply note_block_holds|apply IH|]. intros. by rewrite Exists_cons.
Qed.

Lemma extract_all_holds messages f :
  holds (fun t p => Exists (touches t p) messages) f (foldl (fun f m => extractFileOpsFromMessage m f) f messages).
Proof.
  revert f. induction messages as [|m messages IH]; intros f; cbn.
  - eapply holds_trans; [apply holds_refl..|]. intros. rewrite Exists_nil. tauto.
  - eapply holds_trans; [apply extract_holds|apply IH|]. intros. by rewrite Exists_cons.
Qed.

(** The lists are sorted, name nothing twice and share nothing: what is modified
    is not listed as read. *)
Lemma computeFileLists_spec f readFiles modifiedFiles :
  computeFileLists f = (readFiles, modifiedFiles) ->
  (forall p, p ∈ modifiedFiles <-> p ∈ fo_edited f \/ p ∈ fo_written f) /\
  (forall p, p ∈ readFiles <-> p ∈ fo_read f /\ p ∉ modifiedFiles) /\
  NoDup readFiles /\ NoDup modifiedFiles /\ StronglySorted str_le readFiles /\ StronglySorted str_le modifiedFiles.
Proof.
  intros [= <- <-]. assert (forall p, p ∈ sort_strings (elements (fo_edited f ∪ fo_written f)) <-> p ∈ fo_edited f \/ p ∈ fo_written f) as Hm.
  { intros p. by rewrite sort_strings_elem, elem_of_elements, elem_of_union. }
  split_and!; try apply sort_strings_sorted; try (apply sort_strings_NoDup, NoDup_elements); [done|].
  intros p. rewrite sort_strings_elem, elem_of_elements, elem_of_difference, Hm, elem_of_union. done.
Qed.

(** * Files *)

(** The texts of an array under a key of an object. *)
Definition detail_paths (key : string) (details : option json) : list jsstr :=
  match details with
  | Some (JObj o) =>
      match obj_get o (js key) with
      | Some (JArr items) => omap (fun item => match item with JStr path => Some path | _ => None end) items
      | _ => []
      end
  | _ => []
  end.

(** What earlier details name. *)
Definition note_details (details : option json) (fileOps : FileOperations) : FileOperations :=
  let fileOps := foldl (fun f path => add_read path f) fileOps (detail_paths "readFiles" details) in
  foldl (fun f path => add_edited path f) fileOps (detail_paths "modifiedFiles" details).

Definition extract_all (messages : list AgentMessage) (fileOps : FileOperations) : FileOperations :=
  foldl (fun f msg => extractFileOpsFromMessage msg f) fileOps messages.

Definition extractFileOperations (messages : list AgentMessage) (prevCompaction : option TranscriptEntry) : FileOperations :=
  let fileOps :=
    match prevCompaction with
    | Some entry => match te_body entry with TCompaction _ _ _ details _ _ => note_details details createFileOps | _ => createFileOps end
    | None => createFileOps
    end in
  extract_all messages fileOps.

Definition getMessageFromEntry (entry : TranscriptEntry) : option AgentMessage :=
  match te_body entry with
  | TMessage message _ => Some message
  | TBranchSummary fromId summary _ _ _ => Some (createBranchSummaryMessage summary fromId (te_timestamp entry))
  | TCompaction summary _ tokensBefore _ _ _ => Some (createCompactionSummaryMessage summary tokensBefore (te_timestamp entry))
  | TCustom _ _ => None
  end.

Definition getMessageFromEntryForCompaction (entry : TranscriptEntry) : option AgentMessage :=
  if is_compaction entry then None else getMessageFromEntry entry.

(** * Counting tokens *)

Record CompactionSettings : Type := CompactionSettings_ { cset_enabled : bool; cset_reserveTokens : jsnum; cset_keepRecentTokens : jsnum }.

Definition DEFAULT_COMPACTION_SETTINGS : CompactionSettings := CompactionSettings_ true (NInt 16384) (NInt 20000).

Definition calculateContextTokens (usage : Usage) : jsnum :=
  if js_truthy (u_totalTokens usage) then u_totalTokens usage
  else js_add (js_add (js_add (u_input usage) (u_output usage)) (u_cacheRead usage)) (u_cacheWrite usage).

Definition getAssistantUsage (msg : AgentMessage) : option Usage :=
  match msg with
  | AgentLlm (MsgAssistant m) =>
      if negb (bool_decide (am_stopReason m = StopAborted)) && negb (bool_decide (am_stopReason m = StopError)) &&
         js_lt (NInt 0) (calculateContextTokens (am_usage m))
      then Some (am_usage m) else None
  | _ => None
  end.

Definition entry_usage (entry : TranscriptEntry) : option Usage :=
  match te_body entry with TMessage message _ => getAssistantUsage message | _ => None end.

Definition is_some {A} (o : option A) : bool := match o with Some _ => true | None => false end.

Definition getLastAssistantUsage (entries : list TranscriptEntry) : option Usage :=
  match find_last (fun entry => is_some (entry_usage entry)) entries with
  | Some (_, entry) => entry_usage entry
  | None => None
  end.

Record ContextUsageEstimate : Type := ContextUsageEstimate_ {
  ce_tokens : jsnum;
  ce_usageTokens : jsnum;
  ce_trailingTokens : Z;
  ce_lastUsageIndex : option nat;
}.

Definition getLastAssistantUsageInfo (messages : list AgentMessage) : option (Usage * nat) :=
  match find_last (fun message => is_some (getAssistantUsage message)) messages with
  | Some (index, message) => usage ← getAssistantUsage message; Some (usage, index)
  | None => None
  end.

Definition ESTIMATED_IMAGE_CHARS : Z := 4800.

Definition chars_of (text : jsstr) : Z := Z.of_nat (length text).

Definition sum (counts : list Z) : Z := foldr Z.add 0 counts.

Definition estimateTextAndImageContentChars (content : input_content) : Z :=
  match content with
  | InputString text => chars_of text
  | InputBlocks blocks => sum ((fun block => match block with InputText c => chars_of (tc_text c) | InputImage _ _ => ESTIMATED_IMAGE_CHARS end) <$> blocks)
  end.

Definition block_chars (block : content_block) : Z :=
  match block with
  | BlockText c => chars_of (tc_text c)
  | BlockThinking c => chars_of (th_thinking c)
  | BlockToolCall call => chars_of (tool_name call) + chars_of (stringify (tool_arguments call))
  end.

Definition message_chars (message : AgentMessage) : Z :=
  match message with
  | AgentLlm (MsgUser m) => estimateTextAndImageContentChars (um_content m)
  | AgentLlm (MsgAssistant m) => sum (block_chars <$> am_content m)
  | AgentCustom m => estimateTextAndImageContentChars (cm_content m)
  | AgentLlm (MsgToolResult m) => estimateTextAndImageContentChars (InputBlocks (tr_content m))
  | AgentBash m => chars_of (bx_command m) + chars_of (bx_output m)
  | AgentBranchSummary m => chars_of (bs_summary m)
  | AgentCompactionSummary m => chars_of (cs_summary m)
  | AgentLlm (MsgSystem _) | AgentApplication _ => 0
  end.

(** [Math.ceil(chars / 4)] *)
Definition estimateTokens (message : AgentMessage) : Z := (message_chars message + 3) / 4.

Definition estimate_all (messages : list AgentMessage) : Z := sum (estimateTokens <$> messages).

Definition estimateContextTokens (messages : list AgentMessage) : ContextUsageEstimate :=
  match getLastAssistantUsageInfo messages with
  | None =>
      let estimated := estimate_all messages in
      ContextUsageEstimate_ (NInt estimated) (NInt 0) estimated None
  | Some (usage, index) =>
      let usageTokens := calculateContextTokens usage in
      let trailingTokens := estimate_all (drop (S index) messages) in
      ContextUsageEstimate_ (js_add usageTokens (NInt trailingTokens)) usageTokens trailingTokens (Some index)
  end.

Definition shouldCompact (contextTokens contextWindow : jsnum) (settings : CompactionSettings) : bool :=
  if negb (cset_enabled settings) then false
  else js_lt (js_sub contextWindow (cset_reserveTokens settings)) contextTokens.

(** * Where to cut

    Places are those of entries that are there: no caller asks beyond the end. *)

(** By role: every message but the results of tools and what is no part of a
    conversation. *)
Definition cut_role (message : AgentMessage) : bool :=
  match message with
  | AgentBash _ | AgentCustom _ | AgentBranchSummary _ | AgentCompactionSummary _ | AgentLlm (MsgUser _) | AgentLlm (MsgAssistant _) => true
  | AgentLlm (MsgToolResult _) | AgentLlm (MsgSystem _) | AgentApplication _ => false
  end.

Definition is_cut_point (entry : TranscriptEntry) : bool :=
  match te_body entry with
  | TMessage message _ => cut_role message
  | TBranchSummary _ _ _ _ _ => true
  | TCompaction _ _ _ _ _ _ | TCustom _ _ => false
  end.

Definition cut_point_at (entries : list TranscriptEntry) (i : nat) : bool :=
  match entries !! i with Some entry => is_cut_point entry | None => false end.

Definition findValidCutPoints (entries : list TranscriptEntry) (startIndex endIndex : nat) : list nat :=
  base.filter (fun i => cut_point_at entries i = true) (seq startIndex (endIndex - startIndex)).

Definition starts_turn (entry : TranscriptEntry) : bool :=
  match te_body entry with
  | TBranchSummary _ _ _ _ _ => true
  | TMessage (AgentLlm (MsgUser _)) _ | TMessage (AgentBash _) _ => true
  | _ => false
  end.

(** [None] is -1. *)
Fixpoint findTurnStartIndex (entries : list TranscriptEntry) (entryIndex startIndex : nat) : option nat :=
  if (entryIndex <? startIndex)%nat then None
  else
    match entries !! entryIndex with
    | Some entry =>
        if starts_turn entry then Some entryIndex
        else match entryIndex with S i => findTurnStartIndex entries i startIndex | O => None end
    | None => None
    end.

Record CutPointResult : Type := CutPointResult_ { firstKeptEntryIndex : nat; turnStartIndex : option nat; isSplitTurn : bool }.

(** The loop from the end: the message with which there are enough tokens. *)
Fixpoint budget_index (entries : list TranscriptEntry) (keepRecentTokens : jsnum) (startIndex n : nat) (accumulatedTokens : Z) : option nat :=
  match n with
  | O => None
  | S i =>
      if (i <? startIndex)%nat then None
      else
        match entries !! i with
        | Some entry =>
            match te_body entry with
            | TMessage message _ =>
                let accumulatedTokens := accumulatedTokens + estimateTokens message in
                if js_le keepRecentTokens (NInt accumulatedTokens) then Some i
                else budget_index entries keepRecentTokens startIndex i accumulatedTokens
            | _ => budget_index entries keepRecentTokens startIndex i accumulatedTokens
            end
        | None => budget_index entries keepRecentTokens startIndex i accumulatedTokens
        end
  end.

Definition is_message (entry : TranscriptEntry) : bool := match te_body entry with TMessage _ _ => true | _ => false end.

(** Entries that are no messages go with what follows them. *)
Fixpoint back_to_message (entries : list TranscriptEntry) (startIndex cutIndex : nat) : nat :=
  match cutIndex with
  | O => O
  | S prev =>
      if (startIndex <? cutIndex)%nat then
        match entries !! prev with
        | Some prevEntry => if is_compaction prevEntry || is_message prevEntry then cutIndex else back_to_message entries startIndex prev
        | None => cutIndex
        end
      else cutIndex
  end.

Definition is_user_entry (entry : TranscriptEntry) : bool := match te_body entry with TMessage (AgentLlm (MsgUser _)) _ => true | _ => false end.

Definition findCutPoint (entries : list TranscriptEntry) (startIndex endIndex : nat) (keepRecentTokens : jsnum) : CutPointResult :=
  match findValidCutPoints entries startIndex endIndex with
  | [] => CutPointResult_ startIndex None false
  | (first :: _) as cutPoints =>
      let cutIndex :=
        match budget_index entries keepRecentTokens startIndex endIndex 0 with
        | Some i => default first (head (base.filter (fun c => (i <= c)%nat) cutPoints))
        | None => first
        end in
      let cutIndex := back_to_message entries startIndex cutIndex in
      let isUserMessage := match entries !! cutIndex with Some cutEntry => is_user_entry cutEntry | None => false end in
      let turnStartIndex := if isUserMessage then None else findTurnStartIndex entries cutIndex startIndex in
      CutPointResult_ cutIndex turnStartIndex (negb isUserMessage && is_some turnStartIndex)
  end.

(** * What a compaction works on *)

Record CompactionPreparation : Type := CompactionPreparation_ {
  cp_messagesToSummarize : list AgentMessage;
  cp_turnPrefixMessages : list AgentMessage;
  cp_retainedTail : list AgentMessage;
  cp_isSplitTurn : bool;
  cp_tokensBefore : jsnum;
  cp_previousSummary : option jsstr;
  cp_fileOps : FileOperations;
  cp_settings : CompactionSettings;
}.

Section Prepare.
(** [Date.parse], [None] for [NaN]. *)
Variable date_parse : jsstr -> option jsnum.

Definition toEntryTimestamp (timestamp : jsnum + jsstr) (fallback : jsnum) : jsnum :=
  match timestamp with
  | inl n => n
  | inr text => default fallback (date_parse text)
  end.

(** What the last compaction kept, as entries. *)
Definition virtual_entry (prevCompaction : TranscriptEntry) (index : nat) (message : AgentMessage) : TranscriptEntry :=
  let retained_id i := te_id prevCompaction ++ js ":retained:" ++ js_of_Z (Z.of_nat i) in
  TranscriptEntry_ (retained_id index) (Some (match index with O => te_id prevCompaction | S i => retained_id i end)) (te_seq prevCompaction)
    (toEntryTimestamp (message_timestamp message) (te_timestamp prevCompaction)) (TMessage message false).

Definition slice_messages (entries : list TranscriptEntry) (first last : nat) : list AgentMessage :=
  omap getMessageFromEntryForCompaction (take (last - first) (drop first entries)).

(** The entries that are not compacted yet, and the summary they follow. *)
Definition compactable (pathEntries : list TranscriptEntry) : option TranscriptEntry * option jsstr * list TranscriptEntry :=
  match find_last is_compaction pathEntries with
  | Some (prevCompactionIndex, prevCompaction) =>
      match te_body prevCompaction with
      | TCompaction summary retainedTail _ _ _ _ =>
          (Some prevCompaction, Some summary, imap (virtual_entry prevCompaction) retainedTail ++ drop (S prevCompactionIndex) pathEntries)
      | _ => (None, None, pathEntries)
      end
  | None => (None, None, pathEntries)
  end.

Definition prepareCompaction (pathEntries : list TranscriptEntry) (settings : CompactionSettings) : option CompactionPreparation :=
  match last pathEntries with
  | None => None
  | Some entry =>
      if is_compaction entry then None
      else
        let '(prevCompaction, previousSummary, compactableEntries) := compactable pathEntries in
        let boundaryEnd := length compactableEntries in
        let tokensBefore := ce_tokens (estimateContextTokens (buildContextEntries pathEntries ≫= sessionEntryToContextMessages)) in
        let cutPoint := findCutPoint compactableEntries 0 boundaryEnd (cset_keepRecentTokens settings) in
        let historyEnd := if isSplitTurn cutPoint then default 0%nat (turnStartIndex cutPoint) else firstKeptEntryIndex cutPoint in
        let messagesToSummarize := slice_messages compactableEntries 0 historyEnd in
        let turnPrefixMessages :=
          if isSplitTurn cutPoint then slice_messages compactableEntries (default 0%nat (turnStartIndex cutPoint)) (firstKeptEntryIndex cutPoint) else [] in
        let retainedTail := slice_messages compactableEntries (firstKeptEntryIndex cutPoint) boundaryEnd in
        let fileOps := extractFileOperations messagesToSummarize prevCompaction in
        let fileOps := if isSplitTurn cutPoint then extract_all turnPrefixMessages fileOps else fileOps in
        Some (CompactionPreparation_ messagesToSummarize turnPrefixMessages retainedTail (isSplitTurn cutPoint) tokensBefore previousSummary fileOps settings)
  end.
End Prepare.
