(* ===== verification/CompactionSpec.v ===== *)
(** What a cut of a conversation keeps, and what a compaction makes of the context. *)
From S2P Require Import Prelude JsBase JsFloat JsText Json JsonText JsonParse SessionTypes AiTypes AgentMessages Compaction.

(** * Tokens *)

Definition entry_tokens (entry : TranscriptEntry) : Z :=
  match te_body entry with TMessage message _ => estimateTokens message | _ => 0 end.

Definition message_tokens (entries : list TranscriptEntry) : Z := sum (entry_tokens <$> entries).

Lemma sum_app a b : sum (a ++ b) = sum a + sum b.
Proof. induction a as [|x a IH]; [done|]. change (x + sum (a ++ b) = x + sum a + sum b). lia. Qed.

Lemma sum_nonneg l : Forall (fun z => 0 <= z) l -> 0 <= sum l.
Proof. induction 1 as [|x l Hx _ IH]; [done|]. change (0 <= x + sum l). lia. Qed.

Lemma input_chars_nonneg content : 0 <= estimateTextAndImageContentChars content.
Proof.
  destruct content as [|blocks]; cbn; [unfold chars_of; lia|]. apply sum_nonneg, Forall_fmap, Forall_true. intros [|]; cbn; unfold chars_of, ESTIMATED_IMAGE_CHARS; lia.
Qed.

Lemma estimateTokens_nonneg message : 0 <= estimateTokens message.
Proof.
  unfold estimateTokens. enough (0 <= message_chars message) by (apply Z.div_pos; lia).
  destruct message as [[| |m|]| | | | |]; cbn; try apply input_chars_nonneg; try (apply (input_chars_nonneg (InputBlocks _))); unfold chars_of; try lia.
  apply sum_nonneg, Forall_fmap, Forall_true. intros [|?|]; cbn; unfold chars_of; lia.
Qed.

Lemma entry_tokens_nonneg entry : 0 <= entry_tokens entry.
Proof. unfold entry_tokens. destruct (te_body entry); [apply estimateTokens_nonneg|lia..]. Qed.

Lemma message_tokens_cons e l : message_tokens (e :: l) = entry_tokens e + message_tokens l.
Proof. done. Qed.

Lemma message_tokens_app a b : message_tokens (a ++ b) = message_tokens a + message_tokens b.
Proof. unfold message_tokens. by rewrite fmap_app, sum_app. Qed.

Lemma message_tokens_nonneg l : 0 <= message_tokens l.
Proof. apply sum_nonneg, Forall_fmap, Forall_true. intros e. apply entry_tokens_nonneg. Qed.

Lemma message_tokens_drop l i j : (i <= j)%nat -> message_tokens (drop j l) <= message_tokens (drop i l).
Proof.
  intros H. rewrite <- (take_drop (j - i) (drop i l)), drop_drop, message_tokens_app. replace (i + (j - i))%nat with j by lia.
  pose proof (message_tokens_nonneg (take (j - i) (drop i l))). lia.
Qed.

Lemma message_tokens_none l : Forall (fun e => is_message e = false) l -> message_tokens l = 0.
Proof.
  induction 1 as [|e l He _ IH]; [done|]. rewrite message_tokens_cons, IH. unfold entry_tokens, is_message in *. by destruct (te_body e).
Qed.

(** * The steps of a cut *)

(** The first number of a range that passes. *)
Lemma head_filter_seq (P : nat -> Prop) `{forall i, Decision (P i)} s n :
  match head (base.filter P (seq s n)) with
  | Some c => (s <= c < s + n)%nat /\ P c /\ forall i, (s <= i < c)%nat -> ~ P i
  | None => forall i, (s <= i < s + n)%nat -> ~ P i
  end.
Proof.
  revert s. induction n as [|n IH]; intros s; [cbn; intros; lia|]. cbn [seq]. destruct (decide (P s)) as [Hp|Hp].
  - rewrite filter_cons_True by done. cbn. split_and!; [lia|lia|done|intros; lia].
  - rewrite filter_cons_False by done. specialize (IH (S s)). destruct (head _) as [c|].
    + destruct IH as (? & ? & Hi). split_and!; [lia|lia|done|]. intros i ?. destruct (decide (i = s)) as [->|]; [done|apply Hi; lia].
    + intros i ?. destruct (decide (i = s)) as [->|]; [done|apply IH; lia].
Qed.

Definition cut_at (entries : list TranscriptEntry) (i : nat) : Prop := cut_point_at entries i = true.

#[export] Instance cut_at_dec entries i : Decision (cut_at entries i) := decide (cut_point_at entries i = true).

Lemma cut_at_entry entries i : cut_at entries i <-> exists entry, entries !! i = Some entry /\ is_cut_point entry = true.
Proof. unfold cut_at, cut_point_at. destruct (entries !! i); naive_solver. Qed.

Lemma cut_at_bound entries i : cut_at entries i -> (i < length entries)%nat.
Proof. intros (entry & H & _)%cut_at_entry. by eapply lookup_lt_Some. Qed.

(** The message that reaches the budget is the last from which it is reached. *)
Lemma budget_index_Some entries k start n acc i :
  acc < k -> budget_index entries (NInt k) start n acc = Some i ->
  (start <= i < n)%nat /\ k <= acc + message_tokens (drop i (take n entries)) /\ acc + message_tokens (drop (S i) (take n entries)) < k.
Proof.
  revert acc. induction n as [|n IH]; intros acc Ha; cbn [budget_index]; [done|]. destruct (n <? start)%nat eqn:Es; [done|]. apply Nat.ltb_ge in Es.
  destruct (entries !! n) as [entry|] eqn:E.
  - assert (forall j, (j <= n)%nat -> message_tokens (drop j (take (S n) entries)) = message_tokens (drop j (take n entries)) + entry_tokens entry) as Ht.
    { intros j Hj. pose proof (lookup_lt_Some _ _ _ E). rewrite (take_S_r _ _ _ E), drop_app_le by (rewrite length_take; lia).
      rewrite message_tokens_app, message_tokens_cons. change (message_tokens []) with 0. lia. }
    assert (drop (S n) (take (S n) entries) = []) as Hd by (apply drop_ge; rewrite length_take; lia).
    assert (acc + entry_tokens entry < k -> budget_index entries (NInt k) start n (acc + entry_tokens entry) = Some i -> 
      (start <= i < S n)%nat /\ k <= acc + message_tokens (drop i (take (S n) entries)) /\ acc + message_tokens (drop (S i) (take (S n) entries)) < k) as Hrec.
    { intros Hlt H. apply IH in H as (? & ? & ?); [|done]. split_and!; [lia|lia|rewrite Ht by lia; lia|rewrite Ht by lia; lia]. }
    unfold entry_tokens in *. destruct (te_body entry) as [message t| | |].
    + cbn [js_le]. destruct (k <=? acc + estimateTokens message) eqn:Ek; bool_lia; [|by apply Hrec].
      intros [= <-]. rewrite Hd, Ht by lia. rewrite (drop_ge (take n entries)) by (rewrite length_take; lia). cbn. split_and!; lia.
    + intros H. apply Hrec; rewrite Z.add_0_r; [done|exact H].
    + intros H. apply Hrec; rewrite Z.add_0_r; [done|exact H].
    + intros H. apply Hrec; rewrite Z.add_0_r; [done|exact H].
  - intros H. apply IH in H as (? & ? & ?); [|done]. pose proof (lookup_ge_None_1 _ _ E).
    rewrite !take_ge in * by lia. split_and!; [lia..|done|done].
Qed.

(** Going back stops behind a message. *)
Lemma back_to_message_spec entries start cut :
  (start <= cut)%nat ->
  let r := back_to_message entries start cut in
  (start <= r <= cut)%nat /\ (forall j entry, (r <= j < cut)%nat -> entries !! j = Some entry -> is_message entry = false /\ is_compaction entry = false) /\
  ((cut <= length entries)%nat -> r = start \/ exists entry, entries !! pred r = Some entry /\ (is_message entry = true \/ is_compaction entry = true)).
Proof.
  induction cut as [|prev IH]; intros Hs; cbn [back_to_message]; [split_and!; [lia|lia|intros; lia|intros _; left; lia]|].
  destruct (start <? S prev)%nat eqn:E; [|apply Nat.ltb_ge in E; split_and!; [lia|lia|intros; lia|intros _; left; lia]]. apply Nat.ltb_lt in E.
  destruct (entries !! prev) as [prevEntry|] eqn:Ep; [|split_and!; [lia|lia|intros; lia|intros; apply lookup_ge_None_1 in Ep; lia]].
  destruct (is_compaction prevEntry || is_message prevEntry) eqn:Eb.
  - split_and!; [lia|lia|intros; lia|]. intros _. right. exists prevEntry. split; [done|]. apply orb_true_iff in Eb. tauto.
  - apply orb_false_iff in Eb as [? ?]. destruct IH as (? & Hj & Hp); [lia|]. split_and!; [lia|lia| |intros; apply Hp; lia].
    intros j entry Hjr Hl. destruct (decide (j = prev)) as [->|]; [by simplify_eq|]. apply (Hj j); [lia|done].
Qed.

Lemma findTurnStartIndex_Some entries i start t :
  findTurnStartIndex entries i start = Some t ->
  (start <= t <= i)%nat /\ (exists entry, entries !! t = Some entry /\ starts_turn entry = true) /\
  (forall j entry, (t < j <= i)%nat -> entries !! j = Some entry -> starts_turn entry = false).
Proof.
  induction i as [|i IH]; cbn [findTurnStartIndex].
  1: destruct (0 <? start)%nat eqn:Es; [done|]; destruct (entries !! 0%nat) as [entry|] eqn:E; [|done].
  2: destruct (S i <? start)%nat eqn:Es; [done|]; destruct (entries !! S i) as [entry|] eqn:E; [|done].
  all: apply Nat.ltb_ge in Es.
  - destruct (starts_turn entry) eqn:Et; [|done]. intros [= <-]. split_and!; [lia|lia|eauto|intros; lia].
  - destruct (starts_turn entry) eqn:Et.
    + intros [= <-]. split_and!; [lia|lia|eauto|intros; lia].
    + intros (? & ? & Hj)%IH. split_and!; [lia|lia|done|]. intros j e ? He. destruct (decide (j = S i)) as [->|]; [by simplify_eq|by apply (Hj j); [lia|]].
Qed.

(** * Where a cut falls *)

(** Where the search from [i] on, or from the start, finds a place. *)
Definition chosen (entries : list TranscriptEntry) (from : option nat) (c : nat) : Prop :=
  let first_from i := cut_at entries c /\ (i <= c)%nat /\ forall j, (i <= j < c)%nat -> ~ cut_at entries j in
  match from with
  | Some i => first_from i \/ ((forall j, (i <= j)%nat -> ~ cut_at entries j) /\ first_from 0%nat)
  | None => first_from 0%nat
  end.

(** Between what is kept first and the place chosen are only entries that are no
    messages; the turn that is split starts above. *)
Record cut_place (entries : list TranscriptEntry) (keep : jsnum) (r : CutPointResult) (c : nat) : Prop := {
  place_chosen : chosen entries (budget_index entries keep 0 (length entries) 0) c;
  place_before : (firstKeptEntryIndex r <= c)%nat;
  place_between j entry : (firstKeptEntryIndex r <= j < c)%nat -> entries !! j = Some entry -> is_message entry = false /\ is_compaction entry = false;
  place_stop : firstKeptEntryIndex r = 0%nat \/ exists entry, entries !! pred (firstKeptEntryIndex r) = Some entry /\ (is_message entry = true \/ is_compaction entry = true);
  place_split : isSplitTurn r = true -> exists t, turnStartIndex r = Some t /\ (t <= firstKeptEntryIndex r)%nat /\
    (exists entry, entries !! t = Some entry /\ starts_turn entry = true) /\
    forall j entry, (t < j <= firstKeptEntryIndex r)%nat -> entries !! j = Some entry -> starts_turn entry = false;
}.

Lemma findCutPoint_place entries keep :
  let r := findCutPoint entries 0 (length entries) keep in
  ((forall j, ~ cut_at entries j) /\ r = CutPointResult_ 0 None false) \/ exists c, cut_place entries keep r c.
Proof.
  intros r. subst r. unfold findCutPoint. pose proof (head_filter_seq (cut_at entries) 0 (length entries)) as Hf. unfold findValidCutPoints. rewrite Nat.sub_0_r in *.
  change (base.filter (fun i => cut_point_at entries i = true) (seq 0 (length entries))) with (base.filter (cut_at entries) (seq 0 (length entries))).
  destruct (base.filter (cut_at entries) _) as [|first rest] eqn:El; cbn [head] in Hf.
  { left. split; [|done]. intros j Hj. apply (Hf j); [|done]. apply cut_at_bound in Hj. lia. }
  right. set (from := budget_index entries keep 0 (length entries) 0).
  set (c := match from with Some i => default first _ | None => first end). exists c.
  assert (chosen entries from c) as Hc.
  { destruct Hf as (? & ? & Hf). subst c. unfold chosen. destruct from as [i|]; [|split_and!; [done|lia|exact Hf]].
    rewrite <- El. rewrite list_filter_filter. pose proof (head_filter_seq (fun j => (i <= j)%nat /\ cut_at entries j) 0 (length entries)) as Hi.
    destruct (head _) as [c|]; cbn [from_option]; unfold id.
    - destruct Hi as (? & [? ?] & Hi). left. split_and!; [done..|]. intros j ? ?. apply (Hi j); [lia|by split; [lia|]].
    - right. split; [|split_and!; [done|lia|exact Hf]]. intros j ? Hj. pose proof (cut_at_bound _ _ Hj). by apply (Hi j); [lia|]. }
  assert (c <= length entries)%nat as Hcl by (destruct from; unfold chosen in Hc; naive_solver (eauto using cut_at_bound, Nat.lt_le_incl)).
  destruct (back_to_message_spec entries 0 c) as (? & Hb & Hst); [lia|]. specialize (Hst Hcl). set (cut := back_to_message entries 0 c) in *.
  split; cbn; [done|lia|done|done|]. intros [_ Ht]%andb_true_iff.
  destruct (match entries !! cut with Some cutEntry => is_user_entry cutEntry | None => false end); [done|].
  destruct (findTurnStartIndex entries cut 0) as [t|] eqn:Et; [|done]. apply findTurnStartIndex_Some in Et as (? & ? & ?). exists t. split_and!; [done|lia|done..].
Qed.

(** * Slices of entries *)

Abbreviation kept_message := getMessageFromEntryForCompaction.

Lemma slice_messages_app entries a b c : (a <= b <= c)%nat -> slice_messages entries a b ++ slice_messages entries b c = slice_messages entries a c.
Proof.
  intros H. unfold slice_messages. rewrite <- omap_app. f_equal.
  rewrite <- (take_drop (b - a) (take (c - a) (drop a entries))), take_take, Nat.min_l by lia. f_equal.
  rewrite skipn_firstn_comm, drop_drop. f_equal; [lia|f_equal; lia].
Qed.

Lemma slice_messages_all entries : slice_messages entries 0 (length entries) = omap kept_message entries.
Proof. unfold slice_messages. by rewrite drop_0, Nat.sub_0_r, take_ge by lia. Qed.

(** A compaction has more than one part only if it splits a turn. *)
Definition summarized (prep : CompactionPreparation) : list AgentMessage := cp_messagesToSummarize prep ++ cp_turnPrefixMessages prep.

Section Prepared.
Variable date_parse : jsstr -> option jsnum.
Abbreviation prepareCompaction := (prepareCompaction date_parse).
Abbreviation compactable := (compactable date_parse).

(** The cut a preparation is made with. *)
Lemma prepareCompaction_Some path settings prep :
  prepareCompaction path settings = Some prep ->
  let '(prevCompaction, previousSummary, entries) := compactable path in
  let r := findCutPoint entries 0 (length entries) (cset_keepRecentTokens settings) in
  summarized prep = slice_messages entries 0 (firstKeptEntryIndex r) /\
  cp_retainedTail prep = slice_messages entries (firstKeptEntryIndex r) (length entries) /\
  (firstKeptEntryIndex r <= length entries)%nat /\
  cp_previousSummary prep = previousSummary /\
  cp_fileOps prep = extract_all (summarized prep) (extractFileOperations [] prevCompaction) /\
  cp_tokensBefore prep = ce_tokens (estimateContextTokens (buildContextEntries path ≫= sessionEntryToContextMessages)).
Proof.
  unfold Compaction.prepareCompaction. destruct (last path) as [e|]; [|done]. destruct (is_compaction e); [done|].
  destruct (compactable path) as [[prev summary] entries]. set (r := findCutPoint entries 0 (length entries) (cset_keepRecentTokens settings)). intros [= <-]. cbn.
  assert ((firstKeptEntryIndex r <= length entries)%nat /\ (isSplitTurn r = true -> default 0%nat (turnStartIndex r) <= firstKeptEntryIndex r)%nat) as [Hl Hs].
  { destruct (findCutPoint_place entries (cset_keepRecentTokens settings)) as [[_ E]|[c Hc]]; fold r in E || fold r in Hc; [rewrite E; cbn; split; [lia|done]|].
    pose proof (place_before _ _ _ _ Hc). assert (cut_at entries c) as ?%cut_at_bound by (pose proof (place_chosen _ _ _ _ Hc) as H1; unfold chosen in H1; destruct budget_index; naive_solver).
    split; [lia|]. intros (t & -> & ? & _)%(place_split _ _ _ _ Hc). done. }
  unfold summarized, extractFileOperations, extract_all. cbn. destruct (isSplitTurn r) eqn:E; [specialize (Hs eq_refl)|]; rewrite ?app_nil_r; [rewrite slice_messages_app by lia|];
    split_and!; try done. by rewrite <- foldl_app, slice_messages_app by lia.
Qed.

(** Nothing is lost and the order is kept. *)
Lemma prepared_messages path settings prep :
  prepareCompaction path settings = Some prep ->
  summarized prep ++ cp_retainedTail prep = omap kept_message (snd (compactable path)).
Proof.
  intros H%prepareCompaction_Some. destruct (compactable path) as [[prev summary] entries]. destruct H as (-> & -> & ? & _).
  by rewrite slice_messages_app, slice_messages_all by lia.
Qed.

(** * The context after a compaction *)

(** What a model is given of a path, without projectors. *)
Definition context_of (path : list TranscriptEntry) : list AgentMessage := buildContextEntries path ≫= sessionEntryToContextMessages.

Definition in_context (messages : list AgentMessage) : list AgentMessage := base.filter (fun m => isContextMessage m = true) messages.

(** A branch summary without text is no part of a context. *)
Definition tells (entry : TranscriptEntry) : Prop :=
  match te_body entry with TBranchSummary _ summary _ _ _ => summary <> [] | _ => True end.

Lemma context_of_entries entries :
  Forall (fun e => is_compaction e = false) entries -> Forall tells entries ->
  (entries ≫= sessionEntryToContextMessages) = in_context (omap kept_message entries).
Proof.
  intros Hc Ht. induction entries as [|e entries IH]; [done|]. apply Forall_cons in Hc as [He Hc]. apply Forall_cons in Ht as [Hte Ht].
  rewrite bind_cons, IH by done. unfold tells in Hte. cbn [omap list_omap]. unfold sessionEntryToContextMessages, getMessageFromEntryForCompaction, getMessageFromEntry. rewrite He.
  unfold is_compaction in He. destruct (te_body e) as [m t|?|from summary|]; [|done| |done].
  - unfold in_context. rewrite filter_cons. by destruct (isContextMessage m); case_decide.
  - unfold non_empty. by rewrite bool_decide_eq_false_2.
Qed.

Lemma retained_entries (f : nat -> AgentMessage -> TranscriptEntry) messages :
  (forall i m, kept_message (f i m) = Some m) -> omap kept_message (imap f messages) = messages.
Proof.
  revert f. induction messages as [|m messages IH]; intros f Hf; [done|]. rewrite imap_cons. cbn [omap list_omap]. rewrite Hf. f_equal. apply IH. intros i. apply Hf.
Qed.

(** The summary a context begins with. *)
Definition summary_message (entry : TranscriptEntry) : list AgentMessage :=
  match te_body entry with
  | TCompaction summary _ tokensBefore _ _ _ => [createCompactionSummaryMessage summary tokensBefore (te_timestamp entry)]
  | _ => []
  end.

Definition summary_text (entry : TranscriptEntry) : option jsstr := match te_body entry with TCompaction summary _ _ _ _ _ => Some summary | _ => None end.

(** The summary the context of a path begins with, and what is not compacted. *)
Lemma context_compactable path :
  Forall tells path ->
  let '(prevCompaction, previousSummary, entries) := compactable path in
  context_of path = (match prevCompaction with Some entry => summary_message entry | None => [] end) ++ in_context (omap kept_message entries) /\
  previousSummary = (entry ← prevCompaction; summary_text entry) /\
  match prevCompaction with Some entry => entry ∈ path | None => Forall (fun e => is_compaction e = false) path end.
Proof.
  intros Ht. unfold Compaction.compactable, context_of. destruct (find_last is_compaction path) as [[i prev]|] eqn:E.
  - apply find_last_Some in E as (before & rest & -> & <- & Hp & Hr). rewrite buildContextEntries_last by done.
    pose proof Hp as Hp'. unfold is_compaction in Hp'. destruct (te_body prev) as [|summary tail tokens details usage hook| |] eqn:Eb; try done.
    apply Forall_app in Ht as [_ [_ Ht]%Forall_cons]. rewrite bind_cons, context_of_entries by done.
    unfold summary_message, summary_text. cbn. rewrite Eb. split_and!; [|done|set_solver].
    rewrite drop_app_ge, Nat.sub_succ_l, Nat.sub_diag by lia. cbn [drop]. rewrite omap_app, retained_entries by done.
    unfold sessionEntryToContextMessages. rewrite Eb. unfold in_context. by rewrite filter_app.
  - apply find_last_None in E. rewrite buildContextEntries_none by done. cbn. rewrite context_of_entries by done. done.
Qed.

(** The context of a path that ends in a compaction. *)
Lemma context_after path entry summary tail tokens details usage hook :
  te_body entry = TCompaction summary tail tokens details usage hook ->
  context_of (path ++ [entry]) = summary_message entry ++ in_context tail.
Proof.
  intros Eb. unfold context_of, summary_message. rewrite buildContextEntries_last by (unfold is_compaction; by rewrite ?Eb). cbn. unfold sessionEntryToContextMessages. rewrite Eb.
  by rewrite app_nil_r.
Qed.
End Prepared.

(** * Calls and results *)

Definition tool_call_of (id : jsstr) (message : AgentMessage) : Prop :=
  match message with AgentLlm (MsgAssistant m) => exists call, BlockToolCall call ∈ am_content m /\ tool_id call = id | _ => False end.

Definition result_of (message : AgentMessage) : option jsstr :=
  match message with AgentLlm (MsgToolResult m) => Some (tr_toolCallId m) | _ => None end.

(** Every result of a tool follows its call, and no message at which a cut could
    be made stands between them. *)
Definition paired (messages : list AgentMessage) : Prop :=
  forall j m id, messages !! j = Some m -> result_of m = Some id ->
    exists i call, (i < j)%nat /\ messages !! i = Some call /\ tool_call_of id call /\
      forall l n, (i < l < j)%nat -> messages !! l = Some n -> cut_role n = false.

Lemma result_no_cut m id : result_of m = Some id -> cut_role m = false.
Proof. by destruct m as [[]| | | | |]. Qed.

(** Cutting before a message at which a cut can be made separates no pair. *)
Lemma paired_cut a b : paired (a ++ b) -> (forall m, head b = Some m -> cut_role m = true) -> paired b.
Proof.
  intros Hp Hb j m id Hj Hid. destruct (Hp (length a + j)%nat m id) as (i & call & Hi & Hc & Ht & Hn); [by rewrite lookup_app_r, Nat.add_comm, Nat.add_sub by lia|done|].
  destruct (decide (length a <= i)%nat) as [Hge|Hlt].
  - rewrite lookup_app_r in Hc by lia. exists (i - length a)%nat, call. split_and!; [lia|done|done|].
    intros l n ? Hl. apply (Hn (length a + l)%nat); [lia|]. by rewrite lookup_app_r, Nat.add_comm, Nat.add_sub by lia.
  - exfalso. destruct b as [|h b]; [done|]. specialize (Hb h eq_refl). destruct j as [|j].
    + injection Hj as ->. apply result_no_cut in Hid. congruence.
    + assert (cut_role h = false); [|congruence]. apply (Hn (length a)); [lia|]. by apply list_lookup_middle.
Qed.

Lemma paired_prefix a b : paired (a ++ b) -> paired a.
Proof.
  intros Hp j m id Hj Hid. pose proof (lookup_lt_Some _ _ _ Hj). destruct (Hp j m id) as (i & call & ? & Hc & ? & Hn); [by rewrite lookup_app_l|done|].
  exists i, call. split_and!; [done|by rewrite lookup_app_l in Hc by lia|done|]. intros l n ? Hl. apply (Hn l); [done|by rewrite lookup_app_l by lia].
Qed.

(** What is kept begins with such a message, or is everything. *)
Lemma kept_head entries keep m :
  let r := findCutPoint entries 0 (length entries) keep in
  head (slice_messages entries (firstKeptEntryIndex r) (length entries)) = Some m ->
  firstKeptEntryIndex r = 0%nat \/ cut_role m = true.
Proof.
  intros r. destruct (findCutPoint_place entries keep) as [[_ E]|[c Hc]]; fold r in E || fold r in Hc; [by rewrite E; left|]. intros Hm. right.
  pose proof (place_before _ _ _ _ Hc) as Hle. assert (cut_at entries c) as Hcut by (pose proof (place_chosen _ _ _ _ Hc) as H1; unfold chosen in H1; destruct budget_index; naive_solver).
  pose proof (place_between _ _ _ _ Hc) as Hb. revert Hm Hle Hb. generalize (firstKeptEntryIndex r) as a. intros a Hm Hle Hb.
  unfold slice_messages in Hm. rewrite take_ge in Hm by (rewrite length_drop; lia).
  apply cut_at_entry in Hcut as (entry & He & Hp). remember (c - a)%nat as n eqn:En. revert a En Hm Hle Hb. induction n as [|n IH]; intros a En Hm Hle Hb.
  - replace a with c in * by lia. rewrite (drop_S _ _ _ He) in Hm. cbn in Hm. unfold is_cut_point in Hp. unfold getMessageFromEntryForCompaction, is_compaction, getMessageFromEntry in Hm.
    destruct (te_body entry); cbn in Hm; try done; by injection Hm as <-.
  - destruct (lookup_lt_is_Some_2 entries a) as [e1 He1]; [apply lookup_lt_Some in He; lia|]. destruct (Hb a e1) as [Hm1 Hc1]; [lia|done|].
    rewrite (drop_S _ _ _ He1) in Hm. cbn [omap list_omap] in Hm. unfold getMessageFromEntryForCompaction at 1 in Hm. rewrite Hc1 in Hm.
    unfold is_message in Hm1. unfold getMessageFromEntry at 1 in Hm. destruct (te_body e1); try done.
    + unfold is_compaction in Hc1. cbn in Hm. by injection Hm as <-.
    + cbn in Hm. by injection Hm as <-.
    + apply (IH (S a)); [lia|done|lia|]. intros j e ?. apply Hb. lia.
Qed.

(** * What is kept of a budget *)

(** Nothing that is counted stands between the place chosen and what is kept. *)
Lemma kept_tokens entries keep r c : cut_place entries keep r c -> message_tokens (drop (firstKeptEntryIndex r) entries) = message_tokens (drop c entries).
Proof.
  intros Hc. pose proof (place_before _ _ _ _ Hc) as Hle. pose proof (place_between _ _ _ _ Hc) as Hb.
  rewrite <- (take_drop (c - firstKeptEntryIndex r) (drop (firstKeptEntryIndex r) entries)), drop_drop, message_tokens_app.
  replace (firstKeptEntryIndex r + (c - firstKeptEntryIndex r))%nat with c by lia. rewrite message_tokens_none; [done|].
  apply Forall_forall. intros e (j & Hj)%list_elem_of_lookup. apply lookup_take_Some in Hj as [Hj Hlt]. rewrite lookup_drop in Hj.
  destruct (Hb (firstKeptEntryIndex r + j)%nat e) as [? _]; [lia|done|done].
Qed.

Lemma budget_index_bound entries k i :
  0 < k -> budget_index entries (NInt k) 0 (length entries) 0 = Some i ->
  k <= message_tokens (drop i entries) /\ message_tokens (drop (S i) entries) < k.
Proof. intros Hk H. apply budget_index_Some in H as (_ & ? & ?); [|done]. rewrite !firstn_all, !Z.add_0_l in *. done. Qed.

(** Where the budget is not reached, all the messages are less. *)
Lemma budget_index_None entries k n acc : acc < k -> budget_index entries (NInt k) 0 n acc = None -> acc + message_tokens (take n entries) < k.
Proof.
  revert acc. induction n as [|n IH]; intros acc Ha; cbn [budget_index]; [intros _; rewrite take_0; change (message_tokens []) with 0; lia|]. rewrite (proj2 (Nat.ltb_ge n 0)) by lia.
  destruct (entries !! n) as [entry|] eqn:E.
  - rewrite (take_S_r _ _ _ E), message_tokens_app, message_tokens_cons. change (message_tokens []) with 0. unfold entry_tokens.
    destruct (te_body entry) as [message t| | |]; [cbn [js_le]; destruct (k <=? acc + estimateTokens message) eqn:Ek; [done|]; bool_lia|..]; intros H; apply IH in H; lia.
  - intros H. apply IH in H; [|done]. pose proof (lookup_ge_None_1 _ _ E). rewrite !take_ge in * by lia. done.
Qed.

(** * Files over compactions *)

Lemma detail_step_holds (add : jsstr -> FileOperations -> FileOperations) tool paths f :
  (forall p f, holds (fun t q => t = tool /\ q = p) f (add p f)) ->
  holds (fun t q => t = tool /\ q ∈ paths) f (foldl (fun f p => add p f) f paths).
Proof.
  intros Ha. revert f. induction paths as [|p paths IH]; intros f; cbn.
  - eapply holds_trans; [apply holds_refl..|]. set_solver.
  - eapply holds_trans; [apply Ha|apply IH|]. set_solver.
Qed.

Lemma add_read_holds p f : holds (fun t q => t = "read" /\ q = p) f (add_read p f).
Proof. unfold holds, add_read. cbn. set_solver. Qed.

Lemma add_edited_holds p f : holds (fun t q => t = "edit" /\ q = p) f (add_edited p f).
Proof. unfold holds, add_edited. cbn. set_solver. Qed.

Definition detailed (details : option json) (tool : string) (path : jsstr) : Prop :=
  (tool = "read" /\ path ∈ detail_paths "readFiles" details) \/ (tool = "edit" /\ path ∈ detail_paths "modifiedFiles" details).

Lemma note_details_holds details f : holds (detailed details) f (note_details details f).
Proof.
  unfold note_details. eapply holds_trans; [apply detail_step_holds, add_read_holds|apply detail_step_holds, add_edited_holds|]. done.
Qed.

Definition details_of (entry : TranscriptEntry) : option json := match te_body entry with TCompaction _ _ _ details _ _ => details | _ => None end.

Lemma extractFileOperations_holds messages prev :
  holds (fun t p => detailed (entry ← prev; details_of entry) t p \/ Exists (touches t p) messages) createFileOps (extractFileOperations messages prev).
Proof.
  unfold extractFileOperations, extract_all. eapply holds_trans; [|apply extract_all_holds|].
  - instantiate (1 := detailed (entry ← prev; details_of entry)). assert (holds (detailed None) createFileOps createFileOps) as Hn.
    { eapply holds_trans; [apply holds_refl..|]. intros t p. unfold detailed. cbn. set_solver. }
    destruct prev as [entry|]; [|exact Hn]. cbn. unfold details_of. destruct (te_body entry); try exact Hn. apply note_details_holds.
  - done.
Qed.

(** The details a compaction stores name the lists they were made from. *)
Definition file_details (readFiles modifiedFiles : list jsstr) : json :=
  JObj [(js "readFiles", JArr (JStr <$> readFiles)); (js "modifiedFiles", JArr (JStr <$> modifiedFiles))].

Lemma detail_paths_details R M :
  detail_paths "readFiles" (Some (file_details R M)) = R /\ detail_paths "modifiedFiles" (Some (file_details R M)) = M.
Proof.
  assert (forall l : list jsstr, omap (fun item => match item with JStr path => Some path | _ => None end) (JStr <$> l : list json) = l) as H.
  { intros l. induction l as [|x l IH]; [done|]. cbn. by f_equal. }
  split; unfold detail_paths, file_details; cbn [obj_get]; repeat (case_decide; try done); apply H.
Qed.
