(* ===== verification/BranchSummary.v ===== *)
(** What of an abandoned branch is summarized:
    [packages/agent/src/harness/compaction/branch-summarization.ts].

    Between the reads of [collectEntriesForBranchSummary] a session may grow;
    entries never change and the ancestors of an entry are stored before it, so
    every read gives what it would give at the start, and there is one state. *)
From Stdlib Require Import Sorted.
From stdpp Require Import sorting.
From S2P Require Import Prelude JsBase JsFloat JsText Json SortedIds SessionTypes SessionState SessionFork SessionInv SessionBranch.

Record CollectEntriesResult : Type := CollectEntriesResult_ { collected : list Entry; commonAncestorId : option jsstr }.

Inductive collect_err : Type :=
| CollectSession (e : session_err)
| CorruptSession (id : jsstr).

Definition path_scan (start : jsstr) : BranchScan := BranchScan_ start None None None None false None None.

Section Collect.
Variable s : StorageState.

(** [branch.findEntries({ start })]: the entry and its ancestors. *)
Definition find_path (fuel : nat) (start : jsstr) : option (result collect_err (list Entry)) :=
  option_map (map_err CollectSession) (scanBranch s fuel (path_scan start)).

(** The loop up from the old tip, newest first. *)
Fixpoint collect_loop (fuel : nat) (stop current : option jsstr) : option (result collect_err (list Entry)) :=
  match fuel with
  | O => None
  | S fuel =>
      match current with
      | None => Some (Ok [])
      | Some id =>
          if bool_decide (id = []) || bool_decide (current = stop) then Some (Ok [])
          else
            match entries s !! id with
            | None => Some (Err (CorruptSession id))
            | Some entry => r ← collect_loop fuel stop (e_parentId entry); Some (match r with Ok l => Ok (entry :: l) | Err e => Err e end)
            end
      end
  end.

Definition collectEntriesForBranchSummary (fuel : nat) (oldTipId : option jsstr) (targetId : jsstr) : option (result collect_err CollectEntriesResult) :=
  match oldTipId with
  | None | Some [] => Some (Ok (CollectEntriesResult_ [] None))
  | Some oldTip =>
      old ← find_path fuel oldTip;
      target ← find_path fuel targetId;
      match old, target with
      | Err e, _ | _, Err e => Some (Err e)
      | Ok oldEntries, Ok targetPath =>
          let oldPath := e_id <$> (oldEntries : list Entry) in
          let common := e_id <$> head (base.filter (fun entry => e_id entry ∈ oldPath) targetPath) in
          r ← collect_loop fuel common (Some oldTip);
          Some (match r with Ok l => Ok (CollectEntriesResult_ (rev l) common) | Err e => Err e end)
      end
  end.
End Collect.

(** * The entries of one path that are not on the other *)

Section Spec.
Context (s : StorageState) (Hs : session_inv s).

Lemma stored_ok : entries_ok (nextSeq s) s.
Proof using Hs. exact (sn_entries _ _ Hs). Qed.

Lemma find_path_ok fuel id e :
  entries s !! id = Some e -> (length (entriesBySeq s) <= fuel)%nat ->
  exists path, find_path s fuel id = Some (Ok path) /\ ancestry s (Some id) path.
Proof using Hs.
  intros He Hf. destruct (ancestry_exists _ _ stored_ok e (entry_elem _ _ stored_ok _ _ He)) as [path Ha].
  assert (ancestry s (Some id) (e :: path)) as Hfull by by constructor. pose proof (ancestry_length _ _ stored_ok _ _ Hfull) as Hlen. cbn in Hlen.
  exists (e :: path). split; [|done]. unfold find_path, scanBranch, path_scan. cbn [bs_start]. rewrite He, (branch_path_ancestry s path fuel e Ha) by lia.
  cbn [mbind option_bind result_bind option_map bs_oldestFirst bs_cursor bs_customType bs_type bs_limit limited past_cursor matches matches_custom].
  assert (forall l, stop_at (stops_at (BranchScan_ id None None None None false None None)) l = l) as -> by (intros l; induction l as [|x l IH]; [done|]; cbn; by rewrite IH).
  assert (forall l : list Entry, List.filter (fun _ => true) l = l) as H by (intros l; induction l as [|x l IH]; [done|]; cbn; by rewrite IH).
  by rewrite !H.
Qed.

(** The entries of a path before the one that stops. *)
Fixpoint above (stop : option jsstr) (path : list Entry) : list Entry :=
  match path with
  | [] => []
  | e :: path => if bool_decide (Some (e_id e) = stop) then [] else e :: above stop path
  end.

Lemma collect_loop_above fuel stop current path :
  entries s !! [] = None -> ancestry s current path -> (length path < fuel)%nat -> collect_loop s fuel stop current = Some (Ok (above stop path)).
Proof using Hs.
  intros Hn Ha. revert fuel. induction Ha as [|id e path He Ha IH]; intros [|fuel] Hf; cbn in Hf; try lia; [done|]. cbn [collect_loop above].
  rewrite (entry_id _ _ stored_ok _ _ He). rewrite (bool_decide_eq_false_2 (id = [])) by congruence. cbn [orb].
  case_bool_decide; [done|]. rewrite He, IH by lia. done.
Qed.

Lemma ancestry_suffix tip a e b : ancestry s tip (a ++ e :: b) -> ancestry s (Some (e_id e)) (e :: b).
Proof using Hs.
  revert tip. induction a as [|x a IH]; intros tip H; inversion H as [|id ? ? Hx Hr]; subst; [|by eapply IH].
  pose proof (entry_id _ _ stored_ok _ _ Hx) as <-. done.
Qed.

(** Where a path meets the other, and what is before. *)
Lemma above_split stop path : above stop path = path /\ (forall e, e ∈ path -> Some (e_id e) <> stop) \/ exists e b, path = above stop path ++ e :: b /\ Some (e_id e) = stop.
Proof using.
  clear s Hs. induction path as [|x path IH]; cbn; [left; split; [done|set_solver]|]. case_bool_decide as E; [right; by exists x, path|].
  destruct IH as [[-> H]|(e & b & H & ?)]; [left; split; [done|]; intros e [->|?]%elem_of_cons; [done|by apply H]|right; exists e, b; split; [by rewrite H at 1|done]].
Qed.

Lemma newer_first path a e b x tip : ancestry s tip path -> path = a ++ e :: b -> x ∈ path -> (x ∈ a <-> e_seq e < e_seq x).
Proof using Hs.
  intros Ha -> Hx. pose proof (ancestry_decreasing _ _ stored_ok _ _ Ha) as Hd. apply StronglySorted_app in Hd as (Hab & _ & Hb).
  apply StronglySorted_inv in Hb as [_ Hb]. rewrite Forall_forall in Hb. split; [intros Hxa; by apply (Hab x e); [|left]|].
  intros Hlt. apply elem_of_app in Hx as [?|[->|Hxb]%elem_of_cons]; [done|lia|]. specialize (Hb x Hxb). lia.
Qed.

Lemma common_spec old target oldPath targetPath :
  ancestry s (Some old) oldPath -> ancestry s (Some target) targetPath ->
  let common := e_id <$> head (base.filter (fun entry => e_id entry ∈ e_id <$> oldPath) targetPath) in
  (forall e, e ∈ above common oldPath <-> on_path s old e /\ ~ on_path s target e) /\
  match common with
  | Some c => exists e, entries s !! c = Some e /\ on_path s old e /\ on_path s target e /\ forall e', on_path s old e' -> on_path s target e' -> on_path s c e'
  | None => forall e, on_path s old e -> ~ on_path s target e
  end.
Proof using Hs.
  intros Ho Ht. assert (forall e, e ∈ oldPath <-> on_path s old e) as Heo by (intros e; rewrite (ancestry_on_path _ _ _ Ho); naive_solver).
  assert (forall e, e ∈ targetPath <-> on_path s target e) as Het by (intros e; rewrite (ancestry_on_path _ _ _ Ht); naive_solver).
  assert (forall e tip, on_path s tip e -> entries s !! e_id e = Some e) as Hkey by (intros e tip He; by eapply (elem_entry _ _ stored_ok), (on_path_elem _ _ stored_ok)).
  assert (forall e e', e ∈ oldPath -> e' ∈ oldPath \/ e' ∈ targetPath -> e_id e = e_id e' -> e = e') as Hinj.
  { intros e e' He%Heo%Hkey He' E. assert (entries s !! e_id e' = Some e') as H by (destruct He' as [He'%Heo|He'%Het]; by eapply Hkey). congruence. }
  assert (forall e, e_id e ∈ e_id <$> oldPath -> e ∈ targetPath -> e ∈ oldPath) as Hid.
  { intros e (e' & E & He')%list_elem_of_fmap He. by rewrite <- (Hinj e' e He') by auto. }
  destruct (base.filter _ targetPath) as [|c rest] eqn:Ef; cbn [head fmap option_fmap option_map].
  - assert (forall e, e ∈ oldPath -> e ∉ targetPath) as Hno.
    { intros e Hi Hti. assert (e ∈ @nil Entry) as []%elem_of_nil. rewrite <- Ef. apply list_elem_of_filter. split; [by apply list_elem_of_fmap_2|done]. }
    split; [|intros e ?%Heo ?%Het; by apply (Hno e)]. intros e. rewrite <- Heo, <- Het. destruct (above_split None oldPath) as [[-> _]|(? & ? & _ & ?)]; [naive_solver|done].
  - assert (exists t1 t2, targetPath = t1 ++ c :: t2 /\ forall e, e ∈ t1 -> e ∉ oldPath) as (t1 & t2 & Et & Hnew).
    { clear -Ef. induction targetPath as [|x l IH]; [done|]. rewrite filter_cons in Ef. case_decide as Hx.
      - injection Ef as -> _. exists [], l. split; [done|set_solver].
      - destruct (IH Ef) as (t1 & t2 & -> & H). exists (x :: t1), t2. split; [done|]. intros e [->|?]%elem_of_cons; [|by apply H]. intros ?. apply Hx. by apply list_elem_of_fmap_2. }
    assert (c ∈ targetPath) as Hct by (rewrite Et; set_solver). assert (c ∈ oldPath) as Hco.
    { apply Hid; [|done]. assert (c ∈ c :: rest) as H by by left. rewrite <- Ef in H. by apply list_elem_of_filter in H as [? _]. }
    assert (exists a b, oldPath = a ++ c :: b /\ above (Some (e_id c)) oldPath = a) as (a & b & Eo & Ea).
    { destruct (above_split (Some (e_id c)) oldPath) as [[_ H]|(e & b & E & [= Ei])]; [by destruct (H c Hco)|]. exists (above (Some (e_id c)) oldPath), b. split; [|done].
      assert (e = c) as <-; [|done]. apply Hinj; [rewrite E; set_solver|by left|done]. }
    pose proof Ho as Ho'. rewrite Eo in Ho'. apply ancestry_suffix in Ho'. pose proof Ht as Ht'. rewrite Et in Ht'. apply ancestry_suffix in Ht'.
    pose proof (ancestry_det _ _ _ _ Ho' Ht') as [= <-]. rewrite Ea. split.
    + intros e. rewrite <- Heo, <- Het. split.
      * intros He. assert (e ∈ oldPath) as Heold by (rewrite Eo; set_solver). split; [done|]. intros Hti.
        pose proof (proj1 (newer_first _ _ _ _ e _ Ho Eo Heold) He) as Hlt. apply (newer_first _ _ _ _ e _ Ht Et Hti) in Hlt. by apply (Hnew e).
      * intros [He Hn]. rewrite Eo in He. apply elem_of_app in He as [?|He]; [done|]. destruct Hn. rewrite Et. set_solver.
    + exists c. split_and!; [by apply (Hkey c old), Heo|by apply Heo|by apply Het|].
      intros e' He'%Heo Het'%Het. assert (e' ∈ c :: b) as H.
      { rewrite Et in Het'. apply elem_of_app in Het' as [H|?]; [|done]. by destruct (Hnew e'). }
      apply (ancestry_on_path _ _ _ Ho') in H as (? & [= <-] & ?). done.
Qed.
End Spec.
