(* ===== verification/CompactionRequests.v ===== *)
(** The requests that summarize a conversation, what of it they send, and what
    becomes of the answers: [packages/agent/src/harness/compaction], the second
    half of [compaction.ts] and of [branch-summarization.ts].

    A request to a model is a step on a state of the caller's, which may throw;
    the state is what the outside world is.  The signal, the telemetry, the cache
    retention and the session id that [createSummaryRequestOptions] adds are the
    same for every request and are not part of the model. *)
From S2P Require Import Prelude JsBase Json JsonText JsText JsFloat JsonParse SessionTypes AiTypes AgentMessages Compaction CompactionSpec.

Definition SUMMARIZATION_SYSTEM_PROMPT : jsstr := js_quoted "You are a context summarization assistant. Your task is to read a conversation between a user and an AI assistant, then produce a structured summary following the exact format specified.

Do NOT continue the conversation. Do NOT respond to any questions in the conversation. ONLY output the structured summary.".

Definition SUMMARIZATION_PROMPT : jsstr := js_quoted "The messages above are a conversation to summarize. Create a structured context checkpoint summary that another LLM will use to continue the work.

Use this EXACT format:

## Goal
[What is the user trying to accomplish? Can be multiple items if the session covers different tasks.]

## Constraints & Preferences
- [Any constraints, preferences, or requirements mentioned by user]
- [Or ~(none)~ if none were mentioned]

## Progress
### Done
- [x] [Completed tasks/changes]

### In Progress
- [ ] [Current work]

### Blocked
- [Issues preventing progress, if any]

## Key Decisions
- **[Decision]**: [Brief rationale]

## Next Steps
1. [Ordered list of what should happen next]

## Critical Context
- [Any data, examples, or references needed to continue]
- [Or ~(none)~ if not applicable]

Keep each section concise. Preserve exact file paths, function names, and error messages.".

Definition UPDATE_SUMMARIZATION_PROMPT : jsstr := js_quoted "The messages above are NEW conversation messages to incorporate into the existing summary provided in <previous-summary> tags.

Update the existing structured summary with new information. RULES:
- PRESERVE all existing information from the previous summary
- ADD new progress, decisions, and context from the new messages
- UPDATE the Progress section: move items from ~In Progress~ to ~Done~ when completed
- UPDATE ~Next Steps~ based on what was accomplished
- PRESERVE exact file paths, function names, and error messages
- If something is no longer relevant, you may remove it

Use this EXACT format:

## Goal
[Preserve existing goals, add new ones if the task expanded]

## Constraints & Preferences
- [Preserve existing, add new ones discovered]

## Progress
### Done
- [x] [Include previously done items AND newly completed items]

### In Progress
- [ ] [Current work - update based on progress]

### Blocked
- [Current blockers - remove if resolved]

## Key Decisions
- **[Decision]**: [Brief rationale] (preserve all previous, add new)

## Next Steps
1. [Update based on current state]

## Critical Context
- [Preserve important context, add new if needed]

Keep each section concise. Preserve exact file paths, function names, and error messages.".

Definition TURN_PREFIX_SUMMARIZATION_PROMPT : jsstr := js_quoted "This is the PREFIX of a turn that was too large to keep. The SUFFIX (recent work) is retained.

Summarize the prefix to provide context for the retained suffix:

## Original Request
[What did the user ask for in this turn?]

## Early Progress
- [Key decisions and work done in the prefix]

## Context for Suffix
- [Information needed to understand the retained recent work]

Be concise. Focus on what's needed to understand the kept suffix.".

Definition BRANCH_SUMMARY_PREAMBLE : jsstr := js_quoted "The user explored a different conversation branch before returning here.
Summary of that exploration:

".

Definition BRANCH_SUMMARY_PROMPT : jsstr := js_quoted "Create a structured summary of this conversation branch for context when returning later.

Use this EXACT format:

## Goal
[What was the user trying to accomplish in this branch?]

## Constraints & Preferences
- [Any constraints, preferences, or requirements mentioned]
- [Or ~(none)~ if none were mentioned]

## Progress
### Done
- [x] [Completed tasks/changes]

### In Progress
- [ ] [Work that was started but not finished]

### Blocked
- [Issues preventing progress, if any]

## Key Decisions
- **[Decision]**: [Brief rationale]

## Next Steps
1. [What should happen next to continue this work]

Keep each section concise. Preserve exact file paths, function names, and error messages.".

(** * Requests *)

(** The fields of [Model] that are read here. *)
Record SummaryModel : Type := SummaryModel_ { md_reasoning : bool; md_maxTokens : jsnum; md_contextWindow : jsnum }.

(** What a model is asked: [AiContext] and the options. *)
Record SummaryCall : Type := SummaryCall_ {
  sc_systemPrompt : jsstr;
  sc_messages : list Message;
  sc_maxTokens : jsnum;
  sc_reasoning : option jsstr;
}.

Inductive CompactionErrorCode : Type := CodeAborted | CodeSummarizationFailed.
Record CompactionError : Type := CompactionError_ { code : CompactionErrorCode; error_message : jsstr }.

(** [a || b] on texts. *)
Definition or_text (a : option jsstr) (b : jsstr) : jsstr :=
  match a with Some text => if non_empty text then text else b | None => b end.

Definition truthy_text (a : option jsstr) : bool := match a with Some text => non_empty text | None => false end.

(** [0.8], [0.5] and [0.9]. *)
Definition share_08 : jsnum := NFlt 0x3FE999999999999A.
Definition share_05 : jsnum := NFlt 0x3FE0000000000000.
Definition share_09 : jsnum := NFlt 0x3FECCCCCCCCCCCCD.

Definition summary_tokens (share reserveTokens : jsnum) (model : SummaryModel) : jsnum :=
  js_min (js_floor (js_mul share reserveTokens)) (if js_lt (NInt 0) (md_maxTokens model) then md_maxTokens model else js_infinity).

(** [reasoning] of [completionOptions]. *)
Definition summary_reasoning (model : SummaryModel) (thinkingLevel : option jsstr) : option jsstr :=
  match thinkingLevel with
  | Some level => if md_reasoning model && non_empty level && negb (bool_decide (level = js "off")) then Some level else None
  | None => None
  end.

(** How a request ends that gives no summary. *)
Definition summary_error (aborted failed : string) (response : AssistantMessage) : option CompactionError :=
  if bool_decide (am_stopReason response = StopAborted) then Some (CompactionError_ CodeAborted (or_text (am_errorMessage response) (js aborted)))
  else if bool_decide (am_stopReason response = StopError) then
    Some (CompactionError_ CodeSummarizationFailed (js failed ++ js ": " ++ or_text (am_errorMessage response) (js "Unknown error")))
  else None.

(** [<conversation>], the text, [</conversation>]. *)
Definition conversation_block (conversationText : jsstr) : jsstr :=
  js "<conversation>" ++ [newline] ++ conversationText ++ [newline] ++ js "</conversation>" ++ blank_line.

Record SummaryGenerationOptions : Type := SummaryGenerationOptions_ {
  go_model : SummaryModel;
  go_reserveTokens : jsnum;
  go_customInstructions : option jsstr;
  go_previousSummary : option jsstr;
  go_thinkingLevel : option jsstr;
}.

Definition summary_prompt (conversationText : jsstr) (options : SummaryGenerationOptions) : jsstr :=
  let basePrompt := if truthy_text (go_previousSummary options) then UPDATE_SUMMARIZATION_PROMPT else SUMMARIZATION_PROMPT in
  let basePrompt :=
    match go_customInstructions options with
    | Some instructions => if non_empty instructions then basePrompt ++ blank_line ++ js "Additional focus: " ++ instructions else basePrompt
    | None => basePrompt
    end in
  let promptText := conversation_block conversationText in
  let promptText :=
    match go_previousSummary options with
    | Some previousSummary =>
        if non_empty previousSummary
        then promptText ++ js "<previous-summary>" ++ [newline] ++ previousSummary ++ [newline] ++ js "</previous-summary>" ++ blank_line
        else promptText
    | None => promptText
    end in
  promptText ++ basePrompt.

(** What a request, or the text of a tool call without arguments, throws. *)
Inductive thrown (E : Type) : Type := ThrownType | ThrownByRequest (e : E).
Arguments ThrownType {E}.
Arguments ThrownByRequest {E} e.

Record CompactResult : Type := CompactResult_ {
  co_summary : jsstr;
  co_tokensBefore : jsnum;
  co_usage : Usage;
  co_retainedTail : list AgentMessage;
  co_readFiles : list jsstr;
  co_modifiedFiles : list jsstr;
}.

Record CompactGenerationOptions : Type := CompactGenerationOptions_ {
  cg_model : SummaryModel;
  cg_customInstructions : option jsstr;
  cg_thinkingLevel : option jsstr;
}.

Section Requests.
Context {St E : Type}.
Variable request : SummaryCall -> SM St (thrown E) AssistantMessage.
(** [Date.now()] *)
Variable now : St -> jsnum.

Definition conversation_text (messages : list AgentMessage) : SM St (thrown E) jsstr :=
  reads_state (fun _ => map_err (fun _ => ThrownType) (serializeConversation (convertToLlm messages))).

Definition ask (promptText : jsstr) (maxTokens : jsnum) (reasoning : option jsstr) : SM St (thrown E) AssistantMessage :=
  timestamp ← gets now;
  request (SummaryCall_ SUMMARIZATION_SYSTEM_PROMPT [user_text promptText timestamp] maxTokens reasoning).

Definition generateSummaryWithRequest (currentMessages : list AgentMessage) (options : SummaryGenerationOptions) : SM St (thrown E) (result CompactionError (jsstr * Usage)) :=
  let maxTokens := summary_tokens share_08 (go_reserveTokens options) (go_model options) in
  conversationText ← conversation_text currentMessages;
  response ← ask (summary_prompt conversationText options) maxTokens (summary_reasoning (go_model options) (go_thinkingLevel options));
  mret (match summary_error "Summarization aborted" "Summarization failed" response with
        | Some error => Err error
        | None => Ok (contentText_blocks (am_content response) [newline], am_usage response)
        end).

Definition generateTurnPrefixSummary (messages : list AgentMessage) (model : SummaryModel) (reserveTokens : jsnum) (thinkingLevel : option jsstr) :
    SM St (thrown E) (result CompactionError (jsstr * Usage)) :=
  let maxTokens := summary_tokens share_05 reserveTokens model in
  conversationText ← conversation_text messages;
  response ← ask (conversation_block conversationText ++ TURN_PREFIX_SUMMARIZATION_PROMPT) maxTokens (summary_reasoning model thinkingLevel);
  mret (match summary_error "Turn prefix summarization aborted" "Turn prefix summarization failed" response with
        | Some error => Err error
        | None => Ok (contentText_blocks (am_content response) [newline], am_usage response)
        end).

Definition split_summary (historyText prefixText : jsstr) : jsstr :=
  historyText ++ blank_line ++ js "---" ++ blank_line ++ js "**Turn Context (split turn):**" ++ blank_line ++ prefixText.

(** The summary and its usage. *)
Definition summarize (preparation : CompactionPreparation) (options : CompactGenerationOptions) : SM St (thrown E) (result CompactionError (jsstr * Usage)) :=
  let reserveTokens := cset_reserveTokens (cp_settings preparation) in
  let history :=
    generateSummaryWithRequest (cp_messagesToSummarize preparation)
      (SummaryGenerationOptions_ (cg_model options) reserveTokens (cg_customInstructions options) (cp_previousSummary preparation) (cg_thinkingLevel options)) in
  if cp_isSplitTurn preparation && (0 <? length (cp_turnPrefixMessages preparation))%nat then
    historyResult ←
      (if (0 <? length (cp_messagesToSummarize preparation))%nat
       then r ← history; mret ((fun tu => (fst tu, Some (snd tu))) <$> r)
       else mret (Ok (js "No prior history.", None)));
    match historyResult with
    | Err error => mret (Err error)
    | Ok (historyText, historyUsage) =>
        turnPrefixResult ← generateTurnPrefixSummary (cp_turnPrefixMessages preparation) (cg_model options) reserveTokens (cg_thinkingLevel options);
        match turnPrefixResult with
        | Err error => mret (Err error)
        | Ok (prefixText, prefixUsage) =>
            mret (Ok (split_summary historyText prefixText,
                      match historyUsage with Some usage => addUsage usage prefixUsage | None => prefixUsage end))
        end
    end
  else history.

Definition compactWithRequest (preparation : CompactionPreparation) (options : CompactGenerationOptions) : SM St (thrown E) (result CompactionError CompactResult) :=
  r ← summarize preparation options;
  match r with
  | Err error => mret (Err error)
  | Ok (summary, summaryUsage) =>
      let '(readFiles, modifiedFiles) := computeFileLists (cp_fileOps preparation) in
      mret (Ok (CompactResult_ (summary ++ formatFileOperations readFiles modifiedFiles) (cp_tokensBefore preparation) summaryUsage
                  (cp_retainedTail preparation) readFiles modifiedFiles))
  end.

(** * Summaries of branches *)

Record BranchSummaryResult : Type := BranchSummaryResult_ {
  br_summary : jsstr;
  br_usage : option Usage;
  br_readFiles : list jsstr;
  br_modifiedFiles : list jsstr;
}.

Record PreparedBranchSummaryOptions : Type := PreparedBranchSummaryOptions_ { bo_customInstructions : option jsstr; bo_replaceInstructions : bool }.

Definition branch_instructions (options : PreparedBranchSummaryOptions) : jsstr :=
  match bo_customInstructions options with
  | Some custom =>
      if negb (non_empty custom) then BRANCH_SUMMARY_PROMPT
      else if bo_replaceInstructions options then custom
      else BRANCH_SUMMARY_PROMPT ++ blank_line ++ js "Additional focus: " ++ custom
  | None => BRANCH_SUMMARY_PROMPT
  end.

Definition generateBranchSummaryWithRequest (messages : list AgentMessage) (fileOps : FileOperations) (options : PreparedBranchSummaryOptions) :
    SM St (thrown E) (result CompactionError BranchSummaryResult) :=
  match messages with
  | [] => mret (Ok (BranchSummaryResult_ (js "No content to summarize") None [] []))
  | _ =>
      conversationText ← conversation_text messages;
      response ← ask (conversation_block conversationText ++ branch_instructions options) (NInt 2048) None;
      mret (match summary_error "Branch summary aborted" "Branch summary failed" response with
            | Some error => Err error
            | None =>
                let '(readFiles, modifiedFiles) := computeFileLists fileOps in
                let summary := BRANCH_SUMMARY_PREAMBLE ++ contentText_blocks (am_content response) [newline] ++ formatFileOperations readFiles modifiedFiles in
                Ok (BranchSummaryResult_ (or_text (Some summary) (js "No summary generated")) (Some (am_usage response)) readFiles modifiedFiles)
            end)
  end.
End Requests.

Record BranchPreparation : Type := BranchPreparation_ { bp_messages : list AgentMessage; bp_fileOps : FileOperations; bp_totalTokens : Z }.

Definition branch_message (entry : TranscriptEntry) : option AgentMessage :=
  match te_body entry with
  | TMessage (AgentLlm (MsgToolResult _)) _ => None
  | TMessage message _ => Some message
  | TBranchSummary fromId summary _ _ _ => Some (createBranchSummaryMessage summary fromId (te_timestamp entry))
  | TCompaction summary _ tokensBefore _ _ _ => Some (createCompactionSummaryMessage summary tokensBefore (te_timestamp entry))
  | TCustom _ _ => None
  end.

Definition is_summary (entry : TranscriptEntry) : bool :=
  match te_body entry with TCompaction _ _ _ _ _ _ | TBranchSummary _ _ _ _ _ => true | _ => false end.

Definition note_branch_summary (fileOps : FileOperations) (entry : TranscriptEntry) : FileOperations :=
  match te_body entry with TBranchSummary _ _ details _ _ => note_details details fileOps | _ => fileOps end.

(** The loop from the end; [newestFirst] is what is still to come. *)
Fixpoint branch_loop (tokenBudget : jsnum) (newestFirst : list TranscriptEntry) (p : BranchPreparation) : BranchPreparation :=
  match newestFirst with
  | [] => p
  | entry :: older =>
      match branch_message entry with
      | None => branch_loop tokenBudget older p
      | Some message =>
          let fileOps := extractFileOpsFromMessage message (bp_fileOps p) in
          let tokens := estimateTokens message in
          let more := BranchPreparation_ (message :: bp_messages p) fileOps (bp_totalTokens p + tokens) in
          if js_lt (NInt 0) tokenBudget && js_lt tokenBudget (NInt (bp_totalTokens p + tokens)) then
            if is_summary entry && js_lt (NInt (bp_totalTokens p)) (js_mul tokenBudget share_09) then more
            else BranchPreparation_ (bp_messages p) fileOps (bp_totalTokens p)
          else branch_loop tokenBudget older more
      end
  end.

Definition prepareBranchEntries (entries : list TranscriptEntry) (tokenBudget : jsnum) : BranchPreparation :=
  let fileOps := foldl note_branch_summary createFileOps entries in
  branch_loop tokenBudget (rev entries) (BranchPreparation_ [] fileOps 0).

(** [generateBranchSummary] *)
Definition generateBranchSummary {St E} (request : SummaryCall -> SM St (thrown E) AssistantMessage) (now : St -> jsnum) (entries : list TranscriptEntry)
    (model : SummaryModel) (reserveTokens : jsnum) (options : PreparedBranchSummaryOptions) : SM St (thrown E) (result CompactionError BranchSummaryResult) :=
  let contextWindow := if js_truthy (md_contextWindow model) then md_contextWindow model else NInt 128000 in
  let preparation := prepareBranchEntries entries (js_sub contextWindow reserveTokens) in
  generateBranchSummaryWithRequest request now (bp_messages preparation) (bp_fileOps preparation) options.

(** * What is within the budget *)

Lemma sum_cons x l : sum (x :: l) = x + sum l.
Proof. done. Qed.

(** Of the messages not yet taken, what is taken are the last, counted; in a
    budget, the first message taken may go beyond it, if it is a summary. *)
Definition within (tokenBudget : jsnum) (messages : list AgentMessage) : Prop :=
  js_lt tokenBudget (NInt (estimate_all messages)) = false \/
  exists entry message rest, messages = message :: rest /\ is_summary entry = true /\ branch_message entry = Some message /\
    js_lt (NInt (estimate_all rest)) (js_mul tokenBudget share_09) = true.

Lemma branch_loop_spec budget newestFirst p :
  bp_totalTokens p = estimate_all (bp_messages p) ->
  let q := branch_loop budget newestFirst p in
  let older := rev (omap branch_message newestFirst) in
  bp_totalTokens q = estimate_all (bp_messages q) /\
  (exists taken, bp_messages q = taken ++ bp_messages p /\ taken `suffix_of` older /\ (js_lt (NInt 0) budget = false -> taken = older)) /\
  (js_lt (NInt 0) budget = true -> js_lt budget (NInt (bp_totalTokens p)) = false -> within budget (bp_messages q)).
Proof.
  revert p. induction newestFirst as [|entry older IH]; intros p Hp; cbn [branch_loop omap list_omap rev].
  - split_and!; [done|by exists []|]. intros _ H. left. by rewrite <- Hp.
  - destruct (branch_message entry) as [message|] eqn:Em; [|by apply IH]. cbn [rev].
    assert (forall fo, bp_totalTokens (BranchPreparation_ (message :: bp_messages p) fo (bp_totalTokens p + estimateTokens message)) =
      estimate_all (bp_messages (BranchPreparation_ (message :: bp_messages p) fo (bp_totalTokens p + estimateTokens message)))) as Hm.
    { intros fo. cbn [bp_totalTokens bp_messages]. unfold estimate_all. rewrite fmap_cons, sum_cons. unfold estimate_all in Hp. lia. }
    destruct (js_lt (NInt 0) budget && js_lt budget _) eqn:Eb.
    + apply andb_true_iff in Eb as [Eb Eo]. destruct (is_summary entry && _) eqn:Es.
      * apply andb_true_iff in Es as [Es Elt]. split_and!; [by rewrite Hm| |].
        -- exists [message]. split_and!; [done|by eexists|congruence].
        -- intros _ _. right. exists entry, message, (bp_messages p). split_and!; [done..|by rewrite <- Hp].
      * split_and!; [exact Hp|exists []; split_and!; [done|apply suffix_nil|congruence]|]. cbn [bp_messages]. intros _ H. left. by rewrite <- Hp.
    + destruct (IH _ (Hm (extractFileOpsFromMessage message (bp_fileOps p)))) as (H1 & (taken & Ht & Hsuf & Hall) & Hw). cbn [bp_messages bp_totalTokens] in *. split_and!; [exact H1| |].
      * exists (taken ++ [message]). rewrite Ht, <- app_assoc. split_and!; [done|by apply suffix_app|]. intros Hb. by rewrite (Hall Hb).
      * intros Hb _. apply Hw; [done|]. by rewrite Hb in Eb.
Qed.

(** A request that is to be made: what is summarized, the text around it, the
    bound on the answer. *)
Record Planned : Type := Planned_ { pl_messages : list AgentMessage; pl_prompt : jsstr -> jsstr; pl_maxTokens : jsnum }.

Definition plan_history (prep : CompactionPreparation) (options : CompactGenerationOptions) : Planned :=
  let reserveTokens := cset_reserveTokens (cp_settings prep) in
  Planned_ (cp_messagesToSummarize prep)
    (fun text => summary_prompt text (SummaryGenerationOptions_ (cg_model options) reserveTokens (cg_customInstructions options) (cp_previousSummary prep) (cg_thinkingLevel options)))
    (summary_tokens share_08 reserveTokens (cg_model options)).

Definition plan_prefix (prep : CompactionPreparation) (options : CompactGenerationOptions) : Planned :=
  Planned_ (cp_turnPrefixMessages prep) (fun text => conversation_block text ++ TURN_PREFIX_SUMMARIZATION_PROMPT)
    (summary_tokens share_05 (cset_reserveTokens (cp_settings prep)) (cg_model options)).

Definition is_nil {A} (l : list A) : bool := match l with [] => true | _ => false end.

(** One request, or two where a turn is split; none for a history that is empty
    then. *)
Definition plan (prep : CompactionPreparation) (options : CompactGenerationOptions) : list Planned :=
  if cp_isSplitTurn prep && negb (is_nil (cp_turnPrefixMessages prep))
  then (if is_nil (cp_messagesToSummarize prep) then [] else [plan_history prep options]) ++ [plan_prefix prep options]
  else [plan_history prep options].

Definition succeeded (response : AssistantMessage) : Prop := am_stopReason response <> StopAborted /\ am_stopReason response <> StopError.

Definition answer (response : AssistantMessage) : jsstr := contentText_blocks (am_content response) [newline].

(** The code of an error is how the request ended. *)
Definition blames (error : CompactionError) (response : AssistantMessage) : Prop :=
  (am_stopReason response = StopAborted /\ code error = CodeAborted) \/ (am_stopReason response = StopError /\ code error = CodeSummarizationFailed).

Lemma summary_error_None aborted failed response : summary_error aborted failed response = None <-> succeeded response.
Proof. unfold summary_error, succeeded. repeat case_bool_decide; naive_solver. Qed.

Lemma summary_error_Some aborted failed response error : summary_error aborted failed response = Some error -> blames error response.
Proof. unfold summary_error, blames. repeat case_bool_decide; naive_solver. Qed.

(** The summary of the answers. *)
Definition summary_of (prep : CompactionPreparation) (answers : list jsstr) : jsstr :=
  if cp_isSplitTurn prep && negb (is_nil (cp_turnPrefixMessages prep))
  then match answers with
       | [prefix] => split_summary (js "No prior history.") prefix
       | [history; prefix] => split_summary history prefix
       | _ => []
       end
  else join [] answers.

Definition usage_of (responses : list AssistantMessage) : option Usage :=
  match am_usage <$> responses with
  | [] => None
  | first :: rest => Some (foldl addUsage first rest)
  end.

Section Asked.
Context {St E : Type}.
Variable request : SummaryCall -> SM St (thrown E) AssistantMessage.
Variable now : St -> jsnum.
Variable reasoning : option jsstr.

(** What is planned is asked for, one request after the other. *)
Inductive asked : St -> list Planned -> list AssistantMessage -> St -> Prop :=
| asked_none s : asked s [] [] s
| asked_one s p plans text response s1 responses s' :
    serializeConversation (convertToLlm (pl_messages p)) = Ok text ->
    request (SummaryCall_ SUMMARIZATION_SYSTEM_PROMPT [user_text (pl_prompt p text) (now s)] (pl_maxTokens p) reasoning) s = (s1, Ok response) ->
    asked s1 plans responses s' ->
    asked s (p :: plans) (response :: responses) s'.

Lemma ask_inv messages prompt maxTokens s s' response :
  (text ← conversation_text messages; ask request now (prompt text) maxTokens reasoning) s = (s', Ok response) ->
  asked s [Planned_ messages prompt maxTokens] [response] s'.
Proof.
  intros (s1 & text & H1 & H2)%sm_bind_Ok. unfold conversation_text, reads_state in H1. injection H1 as <- H1.
  apply map_err_Ok in H1. apply sm_bind_Ok in H2 as (s2 & t & H2 & H3). injection H2 as <- <-. econstructor; [done|exact H3|constructor].
Qed.

Lemma asked_app s plans1 responses1 s1 plans2 responses2 s2 :
  asked s plans1 responses1 s1 -> asked s1 plans2 responses2 s2 -> asked s (plans1 ++ plans2) (responses1 ++ responses2) s2.
Proof. induction 1; cbn; [done|]. intros. econstructor; eauto. Qed.
End Asked.

Lemma sm_assoc {S E A B C} (m : SM S E A) (f : A -> SM S E B) (g : B -> SM S E C) s : ((m ≫= f) ≫= g) s = (m ≫= (fun a => f a ≫= g)) s.
Proof. unfold mbind, sm_bind. by destruct (m s) as [s1 [a|e]]. Qed.

Section Summaries.
Context {St E : Type}.
Variable request : SummaryCall -> SM St (thrown E) AssistantMessage.
Variable now : St -> jsnum.
Variable prep : CompactionPreparation.
Variable options : CompactGenerationOptions.
Abbreviation asked := (asked request now (summary_reasoning (cg_model options) (cg_thinkingLevel options))).

(** What came of one request. *)
Definition outcome (response : AssistantMessage) (r : result CompactionError (jsstr * Usage)) : Prop :=
  match r with
  | Ok tu => succeeded response /\ tu = (answer response, am_usage response)
  | Err error => blames error response
  end.

Lemma outcome_of aborted failed response :
  outcome response (match summary_error aborted failed response with
                    | Some error => Err error
                    | None => Ok (contentText_blocks (am_content response) [newline], am_usage response)
                    end).
Proof.
  destruct (summary_error aborted failed response) eqn:Es; [by eapply summary_error_Some|]. by apply summary_error_None in Es.
Qed.

Lemma history_asked s s' r :
  generateSummaryWithRequest request now (cp_messagesToSummarize prep)
    (SummaryGenerationOptions_ (cg_model options) (cset_reserveTokens (cp_settings prep)) (cg_customInstructions options) (cp_previousSummary prep) (cg_thinkingLevel options)) s = (s', Ok r) ->
  exists response, asked s [plan_history prep options] [response] s' /\ outcome response r.
Proof.
  unfold generateSummaryWithRequest. intros H. rewrite <- sm_assoc in H. apply sm_bind_Ok in H as (s1 & response & H & Hr). injection Hr as <- <-.
  exists response. split; [|apply outcome_of]. by apply ask_inv in H.
Qed.

Lemma prefix_asked s s' r :
  generateTurnPrefixSummary request now (cp_turnPrefixMessages prep) (cg_model options) (cset_reserveTokens (cp_settings prep)) (cg_thinkingLevel options) s = (s', Ok r) ->
  exists response, asked s [plan_prefix prep options] [response] s' /\ outcome response r.
Proof.
  unfold generateTurnPrefixSummary. intros H. rewrite <- sm_assoc in H. apply sm_bind_Ok in H as (s1 & response & H & Hr). injection Hr as <- <-.
  exists response. split; [|apply outcome_of]. by apply (ask_inv _ _ _ _ (fun text => conversation_block text ++ TURN_PREFIX_SUMMARIZATION_PROMPT)) in H.
Qed.

(** All that is planned is asked for and answered, or the first request that
    gives no answer is the last. *)
Definition carried_out s s' (r : result CompactionError (jsstr * Usage)) : Prop :=
  exists responses,
    match r with
    | Ok (summary, usage) =>
        asked s (plan prep options) responses s' /\ Forall succeeded responses /\ summary = summary_of prep (answer <$> responses) /\ Some usage = usage_of responses
    | Err error =>
        exists plans later good last, plan prep options = plans ++ later /\ responses = good ++ [last] /\ asked s plans responses s' /\ Forall succeeded good /\ blames error last
    end.

Lemma summarize_carried_out s s' r : summarize request now prep options s = (s', Ok r) -> carried_out s s' r.
Proof.
  unfold summarize, carried_out, plan, summary_of. replace (0 <? length (cp_turnPrefixMessages prep))%nat with (negb (is_nil (cp_turnPrefixMessages prep))) by by destruct (cp_turnPrefixMessages prep).
  replace (0 <? length (cp_messagesToSummarize prep))%nat with (negb (is_nil (cp_messagesToSummarize prep))) by by destruct (cp_messagesToSummarize prep).
  destruct (_ && _).
  - intros (s1 & h & Hh & H)%sm_bind_Ok. destruct (is_nil (cp_messagesToSummarize prep)); cbn [negb] in Hh.
    + injection Hh as <- <-. apply sm_bind_Ok in H as (s2 & p & Hp & H). apply prefix_asked in Hp as (response & Ha & Ho).
      destruct p as [[text usage]|error]; injection H as <- <-; exists [response].
      * destruct Ho as [? [= -> ->]]. split_and!; [done|by constructor|done|done].
      * exists [plan_prefix prep options], [], [], response. split_and!; [done|done|exact Ha|done|exact Ho].
    + apply sm_bind_Ok in Hh as (s2 & rh & Hh & Hr). injection Hr as <- <-. apply history_asked in Hh as (rh1 & Ha & Ho). destruct rh as [[text usage]|error]; cbn in H.
      * destruct Ho as [? [= -> ->]]. apply sm_bind_Ok in H as (s3 & p & Hp & H). apply prefix_asked in Hp as (response & Ha2 & Ho2). pose proof (asked_app _ _ _ _ _ _ _ _ _ _ Ha Ha2) as Haa.
        destruct p as [[text usage]|error]; injection H as <- <-; exists [rh1; response].
        -- destruct Ho2 as [? [= -> ->]]. split_and!; [exact Haa|by apply Forall_cons_2; [|apply Forall_cons_2]|done|done].
        -- exists [plan_history prep options; plan_prefix prep options], [], [rh1], response. split_and!; [done|done|exact Haa|by constructor|exact Ho2].
      * injection H as <- <-. exists [rh1], [plan_history prep options], [plan_prefix prep options], [], rh1. split_and!; [done|done|exact Ha|done|exact Ho].
  - intros H. apply history_asked in H as (response & Ha & Ho). destruct r as [[text usage]|error]; exists [response].
    + destruct Ho as [? [= -> ->]]. split_and!; [exact Ha|by constructor|cbn; by rewrite app_nil_r|done].
    + exists [plan_history prep options], [], [], response. split_and!; [done|done|exact Ha|done|exact Ho].
Qed.
End Summaries.

(** Only a turn that is split has a prefix. *)
Lemma prefix_of_split date_parse path settings prep :
  prepareCompaction date_parse path settings = Some prep -> cp_isSplitTurn prep = false -> cp_turnPrefixMessages prep = [].
Proof.
  unfold prepareCompaction. destruct (last path) as [e|]; [|done]. destruct (is_compaction e); [done|]. destruct (compactable date_parse path) as [[? ?] entries].
  intros [= <-]. cbn. by intros ->.
Qed.

(** What is planned is to summarize everything that is not kept. *)
Lemma plan_covers prep options :
  (cp_isSplitTurn prep = false -> cp_turnPrefixMessages prep = []) -> concat (pl_messages <$> plan prep options) = summarized prep.
Proof.
  intros Hs. unfold plan, summarized. destruct (cp_isSplitTurn prep); cbn [andb].
  - destruct (cp_turnPrefixMessages prep) as [|m l] eqn:Ep; cbn [is_nil negb].
    + cbn. by rewrite !app_nil_r.
    + destruct (cp_messagesToSummarize prep) eqn:Em; cbn [is_nil app fmap list_fmap concat pl_messages plan_history plan_prefix]; rewrite ?Em, ?Ep; by rewrite ?app_nil_r.
  - rewrite Hs by done. cbn. by rewrite !app_nil_r.
Qed.
