(* ===== verification/CompactionTheorems.v ===== *)
(** What compaction does to a conversation.  With instances. *)
From stdpp Require Import sorting.
From S2P Require Import Prelude JsBase JsFloat JsText Json JsonText JsonParse SessionTypes AiTypes AgentMessages Compaction CompactionSpec CompactionRequests.

(** * A conversation to try things on *)

Definition user (text : string) : AgentMessage := AgentLlm (user_text (js text) (NInt 1)).
Definition assistant (content : list content_block) : AgentMessage :=
  AgentLlm (MsgAssistant (AssistantMessage_ content (js "api") (js "provider") (js "model") None None None None emptyUsage StopStop None None None None (NInt 2))).
Definition says (text : string) : AgentMessage := assistant [BlockText (TextContent_ (js text) None)].
Definition calls (tool id path : string) : AgentMessage :=
  assistant [BlockToolCall (ToolCall_ (js id) (js tool) (JObj [(js "path", JStr (js path))]) None None)].
Definition answers (id text : string) : AgentMessage :=
  AgentLlm (MsgToolResult (ToolResultMessage_ (js id) (js "read") [InputText (TextContent_ (js text) None)] None None false (NInt 3))).

Definition entry_of (i : nat) (body : TranscriptBody) : TranscriptEntry := TranscriptEntry_ (js_of_Z (Z.of_nat i)) None (Z.of_nat i) (NInt 4) body.
Definition path_of (messages : list AgentMessage) : list TranscriptEntry := imap (fun i m => entry_of i (TMessage m false)) messages.

Definition settings_keeping (k : Z) : CompactionSettings := CompactionSettings_ true (NInt 100) (NInt k).

(** A compaction, a turn that reads a file, a turn that edits one. *)
Definition sample_path : list TranscriptEntry :=
  path_of [user "first"; says "done"] ++
  [entry_of 2 (TCompaction (js "they met") [user "kept question"; says "kept answer"] (NInt 9)
     (Some (JObj [(js "readFiles", JArr [JStr (js "/old")]); (js "modifiedFiles", JArr [JStr (js "/new")])])) None false)] ++
  drop 3 (path_of [user ""; user ""; user ""; user "please read the file"; calls "read" "c1" "/a"; answers "c1" "its whole content"; calls "edit" "c2" "/b"; answers "c2" "changed"; says "all is done"]).

Definition no_date (text : jsstr) : option jsnum := None.

(** * The context *)

(** C33: Compacting replaces the beginning of what the model is given, and nothing else:
    the messages handed over to be summarized, those of the part of a split turn,
    and those kept are together, in order, all that the last compaction kept and
    all that came since; the context was the summary there was, what is now
    summarized, and what is kept; with the new compaction it is the new summary
    and what is kept.  The old summary is handed over too, and the tokens recorded
    are those of the whole context. *)
Theorem compaction_context (date_parse : jsstr -> option jsnum) (path : list TranscriptEntry) (settings : CompactionSettings) (prep : CompactionPreparation)
  (entry : TranscriptEntry) (summary : jsstr) (details : option json) (usage : option Usage) (fromHook : bool) :
  prepareCompaction date_parse path settings = Some prep ->
  Forall tells path ->
  te_body entry = TCompaction summary (cp_retainedTail prep) (cp_tokensBefore prep) details usage fromHook ->
  let summarized := cp_messagesToSummarize prep ++ cp_turnPrefixMessages prep in
  summarized ++ cp_retainedTail prep = omap getMessageFromEntryForCompaction (snd (compactable date_parse path)) /\
  exists prior,
    cp_previousSummary prep = (entry ← prior; summary_text entry) /\ from_option (fun entry => entry ∈ path) True prior /\
    context_of path = from_option summary_message [] prior ++ in_context summarized ++ in_context (cp_retainedTail prep) /\
    context_of (path ++ [entry]) = createCompactionSummaryMessage summary (cp_tokensBefore prep) (te_timestamp entry) :: in_context (cp_retainedTail prep) /\
    cp_tokensBefore prep = ce_tokens (estimateContextTokens (context_of path)).
Proof.
  intros Hprep Ht He summarized. pose proof (prepared_messages _ _ _ _ Hprep) as Hm. fold (CompactionSpec.summarized prep) in summarized. split; [exact Hm|].
  apply prepareCompaction_Some in Hprep. pose proof (context_compactable date_parse path Ht) as Hc.
  destruct (compactable date_parse path) as [[prior previousSummary] entries]. destruct Hprep as (_ & _ & _ & Hs & _ & Hb), Hc as (Hctx & Hp & Hin).
  exists prior. split_and!.
  - by rewrite Hs, Hp.
  - by destruct prior.
  - rewrite Hctx. cbn [snd] in Hm. rewrite <- Hm. unfold in_context. rewrite filter_app. by destruct prior.
  - rewrite (context_after _ _ _ _ _ _ _ _ He). unfold summary_message. by rewrite He.
  - exact Hb.
Qed.

Lemma compaction_context_witness :
  exists prep, prepareCompaction no_date sample_path (settings_keeping 6) = Some prep /\
    context_of (sample_path ++ [entry_of 9 (TCompaction (js "new") (cp_retainedTail prep) (cp_tokensBefore prep) None None false)]) =
      [createCompactionSummaryMessage (js "new") (NInt 34) (NInt 4); calls "edit" "c2" "/b"; answers "c2" "changed"; says "all is done"].
Proof.
  destruct (prepareCompaction no_date sample_path (settings_keeping 6)) as [prep|] eqn:E; [|vm_compute in E; discriminate E].
  exists prep. split; [reflexivity|].
  destruct (compaction_context no_date sample_path (settings_keeping 6) prep (entry_of 9 (TCompaction (js "new") (cp_retainedTail prep) (cp_tokensBefore prep) None None false))
    (js "new") None None false E) as (_ & prior & _ & _ & _ & H & _).
  - unfold sample_path. repeat constructor.
  - reflexivity.
  - rewrite H. vm_compute in E. injection E as <-. vm_compute. reflexivity.
Defined.

(** * Where it is cut *)

(** C34: What is kept begins with a message that is no result of a tool, unless
    everything is kept.  So a call that is summarized is separated from its result,
    which is kept, only by a cut strictly between the two, before a message at which
    a cut can be made: never when only results, changes of the system prompt and
    messages of applications stand between them.  In particular, in a conversation
    where every result follows its call with nothing else between ([paired]), the
    results that are summarized, and those that are kept, are so with their calls. *)
Theorem compaction_keeps_pairs (date_parse : jsstr -> option jsnum) (path : list TranscriptEntry) (settings : CompactionSettings) (prep : CompactionPreparation) :
  prepareCompaction date_parse path settings = Some prep ->
  let messages := omap getMessageFromEntryForCompaction (snd (compactable date_parse path)) in
  let summarized := cp_messagesToSummarize prep ++ cp_turnPrefixMessages prep in
  summarized ++ cp_retainedTail prep = messages /\
  (summarized = [] \/ forall m, head (cp_retainedTail prep) = Some m -> cut_role m = true) /\
  (forall i j call result id, messages !! i = Some call -> tool_call_of id call -> messages !! j = Some result -> result_of result = Some id ->
     (i < length summarized <= j)%nat ->
     (length summarized < j)%nat /\ exists m, messages !! length summarized = Some m /\ cut_role m = true) /\
  (paired messages -> paired summarized /\ paired (cp_retainedTail prep)).
Proof.
  intros Hprep messages summarized. pose proof (prepared_messages _ _ _ _ Hprep) as Hm. fold messages in Hm. change (CompactionSpec.summarized prep) with summarized in Hm.
  assert (summarized = [] \/ forall m, head (cp_retainedTail prep) = Some m -> cut_role m = true) as Hk.
  { apply prepareCompaction_Some in Hprep. change (CompactionSpec.summarized prep) with summarized in Hprep. destruct (compactable date_parse path) as [[prior previousSummary] entries].
    destruct Hprep as (-> & -> & _).
    destruct (firstKeptEntryIndex _) as [|a] eqn:Ea; [by left; unfold slice_messages|right]. intros m Hh. rewrite <- Ea in Hh. apply kept_head in Hh as [?|?]; [congruence|done]. }
  split_and!; [exact Hm|exact Hk| |].
  - intros i j call result id _ _ Hj Hr [Hi Hle]. destruct Hk as [E|Hk]; [rewrite E in Hi; cbn in Hi; lia|]. rewrite <- Hm, lookup_app_r in Hj by done.
    assert (exists m, head (cp_retainedTail prep) = Some m) as [m Hh] by (destruct (cp_retainedTail prep) as [|m l]; [done|by exists m]). specialize (Hk m Hh).
    assert (messages !! length summarized = Some m) as E by (rewrite <- Hm, lookup_app_r, Nat.sub_diag by done; by destruct (cp_retainedTail prep)).
    split; [|by exists m]. destruct (decide (j = length summarized)) as [->|]; [|lia]. rewrite Nat.sub_diag in Hj. destruct (cp_retainedTail prep) as [|h l]; [done|].
    injection Hj as ->. injection Hh as ->. apply result_no_cut in Hr. congruence.
  - intros Hp. rewrite <- Hm in Hp. split; [by eapply paired_prefix|]. destruct Hk as [E|Hk]; [by rewrite E in Hp|by eapply paired_cut].
Qed.

(** The two calls of the conversation are kept with their results. *)
Lemma compaction_keeps_pairs_witness :
  exists prep, prepareCompaction no_date sample_path (settings_keeping 2) = Some prep /\ paired (cp_retainedTail prep).
Proof.
  destruct (prepareCompaction no_date sample_path (settings_keeping 2)) as [prep|] eqn:E; [|vm_compute in E; discriminate E].
  exists prep. split; [reflexivity|]. refine (proj2 (proj2 (proj2 (proj2 (compaction_keeps_pairs no_date sample_path (settings_keeping 2) prep E))) _)).
  intros j m id Hj Hid. assert (j < 8)%nat as Hlt by (apply lookup_lt_Some in Hj; exact Hj).
  do 8 (destruct j as [|j]; [cbn in Hj; injection Hj as <-; cbn in Hid;
    first [discriminate Hid|injection Hid as <-; match goal with |- exists i c, (i < S ?n)%nat /\ _ => exists n end; eexists; split_and!; [lia|reflexivity|eexists; split; [by left|reflexivity]|lia]]|]). lia.
Defined.

(** A message of the user between a call and its result is such a place. *)
Example steered_pair_separated :
  let entries := path_of [user "old"; calls "read" "c" "/a"; user "steer"; answers "c" "text"; says "end"] in
  firstKeptEntryIndex (findCutPoint entries 0 (length entries) (NInt 4)) = 2%nat.
Proof. vm_compute. reflexivity. Qed.

(** C35: A budget of [k] tokens: let [i] be where the messages from the end on reach it.
    If a cut can be made at or after [i], the place [c] is the first such one: what
    is kept is no more than from [i] on, at least the budget if the cut can be made at
    [i] itself, and less than it otherwise.  If the budget is not reached, or no cut
    can be made at or after [i], [c] is the first place of all.  What is kept begins
    at [c] or above it, right behind a message or a compaction, with no message
    between, so the tokens are the same. *)
Theorem compaction_budget (entries : list TranscriptEntry) (k : Z) :
  0 < k ->
  let cut := firstKeptEntryIndex (findCutPoint entries 0 (length entries) (NInt k)) in
  let kept := message_tokens (drop cut entries) in
  (exists j, cut_at entries j) ->
  exists c, cut_at entries c /\
    (cut <= c)%nat /\ (forall j entry, (cut <= j < c)%nat -> entries !! j = Some entry -> is_message entry = false /\ is_compaction entry = false) /\
    (cut = 0%nat \/ exists entry, entries !! pred cut = Some entry /\ (is_message entry = true \/ is_compaction entry = true)) /\
    kept = message_tokens (drop c entries) /\
    ((message_tokens entries < k /\ forall j, (j < c)%nat -> ~ cut_at entries j) \/
     exists i, k <= message_tokens (drop i entries) /\ message_tokens (drop (S i) entries) < k /\
       (((i <= c)%nat /\ (forall j, (i <= j < c)%nat -> ~ cut_at entries j) /\
           kept <= message_tokens (drop i entries) /\ (cut_at entries i -> k <= kept) /\ (~ cut_at entries i -> kept < k)) \/
        ((forall j, (i <= j)%nat -> ~ cut_at entries j) /\ forall j, (j < c)%nat -> ~ cut_at entries j))).
Proof.
  intros Hk cut kept [j0 Hj0]. subst cut kept. set (r := findCutPoint entries 0 (length entries) (NInt k)).
  destruct (findCutPoint_place entries (NInt k)) as [[Hn _]|[c Hc]]; [by destruct (Hn j0)|]. fold r in Hc. exists c.
  pose proof (place_before _ _ _ _ Hc) as Hle. pose proof (place_chosen _ _ _ _ Hc) as Hch.
  split; [unfold chosen in Hch; destruct (budget_index _ _ _ _ _); naive_solver|]. split; [done|]. split; [exact (place_between _ _ _ _ Hc)|]. split; [exact (place_stop _ _ _ _ Hc)|].
  pose proof (kept_tokens _ _ _ _ Hc) as Hkept. split; [exact Hkept|]. rewrite Hkept.
  destruct (budget_index entries (NInt k) 0 (length entries) 0) as [i|] eqn:Ei.
  - right. apply budget_index_bound in Ei as [Hge Hlt]; [|done]. exists i. split_and!; [done..|]. destruct Hch as [(Hcut & Hic & Hno)|(Hno & _ & _ & Hf)].
    + left. split_and!; [done|exact Hno|by apply message_tokens_drop| |].
      * intros Hi. destruct (decide (i = c)) as [<-|]; [done|]. exfalso. apply (Hno i); [lia|done].
      * intros Hi. destruct (decide (i = c)) as [<-|]; [done|]. pose proof (message_tokens_drop entries (S i) c ltac:(lia)). lia.
    + right. split; [done|]. intros j ?. apply Hf. lia.
  - left. apply budget_index_None in Ei; [|done]. rewrite firstn_all, Z.add_0_l in Ei. destruct Hch as (_ & _ & Hf). split; [done|]. intros j ?. apply Hf. lia.
Qed.

(** The budget is reached at a result; the cut comes after it. *)
Lemma compaction_budget_witness :
  let entries := path_of [user "one question of many words"; says "an answer"; user "two"; calls "read" "c" "/a"; answers "c" "a longer text"; says "end"] in
  let cut := firstKeptEntryIndex (findCutPoint entries 0 (length entries) (NInt 4)) in
  cut = 5%nat /\ message_tokens (drop 4 entries) = 5 /\ message_tokens (drop 5 entries) = 1 /\ exists c, cut_at entries c /\ (cut <= c)%nat.
Proof.
  intros entries cut. split; [vm_compute; reflexivity|]. split; [vm_compute; reflexivity|]. split; [vm_compute; reflexivity|].
  destruct (compaction_budget entries 4 eq_refl) as (c & Hc & Hle & _); [by exists 0%nat|]. by exists c.
Defined.

(** When the last results alone reach the budget there is no place to cut after
    them, and everything is kept. *)
Example large_result_keeps_all :
  let entries := path_of [user "old"; says "old"; user "new"; calls "read" "c" "/a"; answers "c" "a very long text"] in
  let r := findCutPoint entries 0 (length entries) (NInt 2) in
  message_tokens (drop 4 entries) = 4 /\ r = CutPointResult_ 0 None false.
Proof. vm_compute. auto. Qed.

(** * Files *)

(** The lists of files a compaction stores account for all compactions so far: a
    file is listed as modified if the last compaction lists it so, or a call that
    is summarized writes or edits it; as read if it was listed as read or is read,
    and is not listed as modified.  So nothing listed is ever forgotten; the lists
    are in order and name no file twice. *)
Theorem compaction_files (date_parse : jsstr -> option jsnum) (path : list TranscriptEntry) (settings : CompactionSettings) (prep : CompactionPreparation)
  (readFiles modifiedFiles : list jsstr) :
  prepareCompaction date_parse path settings = Some prep ->
  computeFileLists (cp_fileOps prep) = (readFiles, modifiedFiles) ->
  let prior := (entry ← fst (fst (compactable date_parse path)); details_of entry) in
  let touched tool p := Exists (touches tool p) (cp_messagesToSummarize prep ++ cp_turnPrefixMessages prep) in
  (forall p, p ∈ modifiedFiles <-> p ∈ detail_paths "modifiedFiles" prior \/ touched "edit" p \/ touched "write" p) /\
  (forall p, p ∈ readFiles <-> (p ∈ detail_paths "readFiles" prior \/ touched "read" p) /\ p ∉ modifiedFiles) /\
  NoDup (readFiles ++ modifiedFiles) /\ StronglySorted str_le readFiles /\ StronglySorted str_le modifiedFiles /\
  detail_paths "readFiles" (Some (file_details readFiles modifiedFiles)) = readFiles /\
  detail_paths "modifiedFiles" (Some (file_details readFiles modifiedFiles)) = modifiedFiles.
Proof.
  intros Hprep Hl prior touched. apply prepareCompaction_Some in Hprep. destruct (compactable date_parse path) as [[prev previousSummary] entries].
  destruct Hprep as (_ & _ & _ & _ & Hf & _). cbn [fst] in prior.
  assert (holds (fun t p => detailed prior t p \/ touched t p) createFileOps (cp_fileOps prep)) as Hh.
  { rewrite Hf. eapply holds_trans; [apply extractFileOperations_holds|apply extract_all_holds|]. intros t p. cbn beta. rewrite Exists_nil. unfold touched, summarized, prior. tauto. }
  apply computeFileLists_spec in Hl as (Hm & Hr & Hnr & Hnm & Hsr & Hsm). destruct (detail_paths_details readFiles modifiedFiles) as [-> ->].
  assert (forall p, p ∈ modifiedFiles <-> p ∈ detail_paths "modifiedFiles" prior \/ touched "edit" p \/ touched "write" p) as Hmod.
  { intros p. rewrite Hm. destruct (Hh p) as (_ & -> & ->). unfold detailed. cbn. set_solver. }
  split_and!; try done.
  - intros p. rewrite Hr. destruct (Hh p) as (-> & _). unfold detailed. cbn. set_solver.
  - apply NoDup_app. split_and!; [done| |done]. intros p ? ?. by apply Hr in H as [_ ?].
Qed.

Lemma compaction_files_witness :
  exists prep, prepareCompaction no_date sample_path (settings_keeping 6) = Some prep /\
    computeFileLists (cp_fileOps prep) = ([js "/a"; js "/old"], [js "/new"]) /\ js "/old" ∈ [js "/a"; js "/old"].
Proof.
  destruct (prepareCompaction no_date sample_path (settings_keeping 6)) as [prep|] eqn:E; [|vm_compute in E; discriminate E].
  assert (computeFileLists (cp_fileOps prep) = ([js "/a"; js "/old"], [js "/new"])) as El by (vm_compute in E; injection E as <-; vm_compute; reflexivity).
  exists prep. split; [reflexivity|]. split; [exact El|].
  apply (proj2 (proj1 (proj2 (compaction_files no_date sample_path (settings_keeping 6) prep _ _ E El)) (js "/old"))).
  split; [left; vm_compute; by left|set_solver].
Defined.

(** * Requests *)

(** A compaction asks for what is planned and nothing else, in order: one summary
    of all that is not kept, or one of the history, where there is any, and one of
    the beginning of a split turn; each request holds the text of its messages.
    The first answer that is an error or was aborted is the last, and the result
    says which it was.  Otherwise the result has the texts of the answers, the sum
    of their usage, what the preparation keeps, its count of tokens and its lists
    of files. *)
Theorem compaction_asks {St E : Type} (request : SummaryCall -> SM St (thrown E) AssistantMessage) (now : St -> jsnum)
  (date_parse : jsstr -> option jsnum) (path : list TranscriptEntry) (settings : CompactionSettings) (prep : CompactionPreparation)
  (options : CompactGenerationOptions) (s s' : St) (r : result CompactionError CompactResult) :
  prepareCompaction date_parse path settings = Some prep ->
  compactWithRequest request now prep options s = (s', Ok r) ->
  let performed := asked request now (summary_reasoning (cg_model options) (cg_thinkingLevel options)) in
  concat (pl_messages <$> plan prep options) = cp_messagesToSummarize prep ++ cp_turnPrefixMessages prep /\
  exists responses,
    match r with
    | Ok result =>
        performed s (plan prep options) responses s' /\ Forall succeeded responses /\
        co_summary result = summary_of prep (answer <$> responses) ++ formatFileOperations (co_readFiles result) (co_modifiedFiles result) /\
        Some (co_usage result) = usage_of responses /\
        co_retainedTail result = cp_retainedTail prep /\ co_tokensBefore result = cp_tokensBefore prep /\
        (co_readFiles result, co_modifiedFiles result) = computeFileLists (cp_fileOps prep)
    | Err error =>
        exists plans later good last, plan prep options = plans ++ later /\ responses = good ++ [last] /\
          performed s plans responses s' /\ Forall succeeded good /\ blames error last
    end.
Proof.
  intros Hprep H performed. split; [apply plan_covers; by eapply prefix_of_split|].
  unfold compactWithRequest in H. apply sm_bind_Ok in H as (s1 & rs & Hs & H). apply summarize_carried_out in Hs as [responses Hs]. exists responses.
  destruct rs as [[summary usage]|error].
  - destruct (computeFileLists (cp_fileOps prep)) as [R M]. injection H as <- <-. destruct Hs as (? & ? & -> & Hu). split_and!; done.
  - injection H as <- <-. exact Hs.
Qed.

(** A model whose answers are given beforehand, and what it was asked. *)
Definition scripted (call : SummaryCall) : SM (list AssistantMessage * list SummaryCall) (thrown False) AssistantMessage :=
  fun s => match fst s with
           | response :: rest => ((rest, snd s ++ [call]), Ok response)
           | [] => (s, Err ThrownType)
           end.

Definition response_of (reason : StopReason) (text : string) : AssistantMessage :=
  AssistantMessage_ [BlockText (TextContent_ (js text) None)] (js "api") (js "provider") (js "model") None None None None
    (Usage_ (NInt 3) (NInt 1) (NInt 0) (NInt 0) None None (NInt 4) (Cost_ (NInt 0) (NInt 0) (NInt 0) (NInt 0) (NInt 0))) reason None None None None (NInt 2).

Definition sample_options : CompactGenerationOptions := CompactGenerationOptions_ (SummaryModel_ true (NInt 0) (NInt 1000)) None (Some (js "high")).

Lemma compaction_asks_witness :
  exists prep s' r, prepareCompaction no_date sample_path (settings_keeping 6) = Some prep /\
    compactWithRequest scripted (fun _ => NInt 5) prep sample_options ([response_of StopStop "H"; response_of StopAborted "P"], []) = (s', Ok r) /\
    length (snd s') = 2%nat /\ exists error, r = Err error /\ code error = CodeAborted.
Proof.
  destruct (prepareCompaction no_date sample_path (settings_keeping 6)) as [prep|] eqn:E; [|vm_compute in E; discriminate E].
  destruct (compactWithRequest scripted (fun _ => NInt 5) prep sample_options ([response_of StopStop "H"; response_of StopAborted "P"], [])) as [s' [r|e]] eqn:Er.
  - exists prep, s', r. split; [reflexivity|]. split; [exact Er|].
    assert (length (snd s') = 2%nat /\ exists error, r = Err error) as [Hl [error ->]].
    { pose proof E as E'. vm_compute in E'. injection E' as <-. vm_compute in Er. injection Er as <- <-. split; [reflexivity|eexists; reflexivity]. }
    split; [exact Hl|]. exists error. split; [reflexivity|].
    destruct (compaction_asks scripted (fun _ => NInt 5) no_date sample_path (settings_keeping 6) prep sample_options _ s' _ E Er) as (_ & responses & plans & later & good & last & _ & _ & _ & _ & [[_ Hc]|[Hf _]]); [exact Hc|].
    destruct error as [[] ?]; [reflexivity|]. pose proof E as E'. vm_compute in E'. injection E' as <-. vm_compute in Er. injection Er. discriminate.
  - pose proof E as E'. vm_compute in E'. injection E' as <-. vm_compute in Er. discriminate Er.
Defined.

(** A turn that was kept whole and is split later: the history is empty then, and
    the summary there was is neither asked for nor kept. *)
Example split_turn_forgets_summary :
  let path := [entry_of 0 (TCompaction (js "all that happened") [user "a long question"; calls "read" "c" "/a"; answers "c" "text"] (NInt 9) None None false);
               entry_of 1 (TMessage (says "all is done") false)] in
  exists prep, prepareCompaction no_date path (settings_keeping 3) = Some prep /\
    cp_previousSummary prep = Some (js "all that happened") /\ length (cp_turnPrefixMessages prep) = 3%nat /\
    match snd (compactWithRequest scripted (fun _ => NInt 5) prep sample_options ([response_of StopStop "P"], [])) with
    | Ok (Ok result) => co_summary result = split_summary (js "No prior history.") (js "P") ++ formatFileOperations [js "/a"] []
    | _ => False
    end.
Proof. eexists. split; [vm_compute; reflexivity|]. vm_compute. auto. Qed.

(** * Branches that are left *)

(** What is sent of a branch to be summarized are its last messages, results of
    tools apart, in order: all of them without a budget, and otherwise as many as
    stay within it, but that the oldest may go beyond if it is a summary itself
    and the others leave a tenth of the budget.  The tokens are counted. *)
Theorem branch_messages_budget (entries : list TranscriptEntry) (tokenBudget : jsnum) :
  let p := prepareBranchEntries entries tokenBudget in
  bp_totalTokens p = estimate_all (bp_messages p) /\
  bp_messages p `suffix_of` omap branch_message entries /\
  (js_lt (NInt 0) tokenBudget = false -> bp_messages p = omap branch_message entries) /\
  (js_lt (NInt 0) tokenBudget = true -> js_lt tokenBudget (NInt 0) = false -> within tokenBudget (bp_messages p)).
Proof.
  intros p. destruct (branch_loop_spec tokenBudget (rev entries) (BranchPreparation_ [] (foldl note_branch_summary createFileOps entries) 0) eq_refl) as (H1 & (taken & Ht & Hs & Ha) & Hw).
  cbn [bp_messages bp_totalTokens] in *. fold (prepareBranchEntries entries tokenBudget) in *. fold p in H1, Ht, Hw. rewrite app_nil_r in Ht. subst taken.
  assert (forall l, rev (omap branch_message (rev l)) = omap branch_message l) as Hr.
  { intros l. induction l as [|e l IH]; [done|]. cbn [rev]. rewrite omap_app, rev_app_distr, IH. cbn. by destruct (branch_message e). }
  rewrite Hr in Hs, Ha. split_and!; [exact H1|exact Hs|exact Ha|exact Hw].
Qed.

Lemma branch_messages_budget_witness :
  let entries := entry_of 0 (TCompaction (js "what was before") [] (NInt 1) None None false) :: drop 1 (path_of [user ""; user "one question"; calls "read" "c" "/a"; answers "c" "text"; says "end"]) in
  bp_messages (prepareBranchEntries entries (NInt 11)) = omap branch_message entries /\ within (NInt 11) (bp_messages (prepareBranchEntries entries (NInt 11))).
Proof.
  intros entries. split; [vm_compute; reflexivity|]. apply (branch_messages_budget entries (NInt 11)); vm_compute; reflexivity.
Defined.
