(* ===== verification/Retry.v ===== *)
(** Calls of a model that are tried again: [packages/ai/src/utils/retry.ts].

    The call, the sleep between tries and the callbacks are steps on a state that
    is the outside world; the call and the callbacks may throw.  Counts and delays
    are integers. *)
From S2P Require Import Prelude JsBase JsFloat JsText Json SessionTypes AiTypes AgentMessages.

(** * Which errors are worth another try *)

(** [/a/i] on two units: the patterns are ASCII, and nothing else folds to it. *)
Definition fold_case (u : Z) : Z := if (0x41 <=? u) && (u <=? 0x5A) then u + 32 else u.

(** [.] is anything but the end of a line. *)
Definition unit_matches (p u : Z) : bool :=
  if p =? 0x2E then negb (bool_decide (u ∈ [0x0A; 0x0D; 0x2028; 0x2029])) else fold_case p =? fold_case u.

(** A pattern of the forms the lists have: units, any unit, and either of them
    made optional by a question mark. *)
Fixpoint match_here (pattern text : jsstr) : bool :=
  match pattern with
  | [] => true
  | p :: pattern =>
      let taken rest := match text with u :: text => unit_matches p u && match_here rest text | [] => false end in
      match pattern with
      | q :: rest => if q =? 0x3F then taken rest || match_here rest text else taken pattern
      | [] => taken pattern
      end
  end.

(** [pattern.test(text)] *)
Fixpoint search (pattern text : jsstr) : bool :=
  match_here pattern text || match text with [] => false | _ :: text => search pattern text end.

(** [new RegExp(patterns.join("|"), "i").test(text)] *)
Definition search_any (patterns : list string) (text : jsstr) : bool := existsb (fun pattern => search (js pattern) text) patterns.

Definition NON_RETRYABLE_PROVIDER_LIMIT_ERROR_PATTERN : list string :=
  ["GoUsageLimitError"; "FreeUsageLimitError"; "Monthly usage limit reached"; "available balance"; "insufficient_quota"; "out of budget"; "quota exceeded"; "billing"]%string.

Definition RETRYABLE_PROVIDER_ERROR_PATTERN : list string :=
  ["overloaded"; "currently experiencing high demand"; "rate.?limit"; "too many requests"; "429"; "500"; "502"; "503"; "504"; "520"; "524";
   "service.?unavailable"; "server.?error"; "internal.?error"; "provider.?returned.?error"; "exceeded request buffer limit while retrying upstream";
   "network.?error"; "connection.?error"; "connection.?refused"; "connection.?lost"; "other side closed"; "fetch failed"; "getaddrinfo"; "ENOTFOUND"; "EAI_AGAIN";
   "upstream.?connect"; "reset before headers"; "socket hang up"; "socket connection was closed"; "timed? out"; "timeout"; "terminated";
   "websocket.?closed"; "websocket.?error"; "ended without"; "stream ended before message_stop"; "stream ended before a terminal response event";
   "http2 request did not get a response"; "retry delay"; "you can retry your request"; "try your request again"; "please retry your request"; "ResourceExhausted"]%string.

Definition isRetryableAssistantError (message : AssistantMessage) : bool :=
  match am_errorMessage message with
  | Some errorMessage =>
      bool_decide (am_stopReason message = StopError) && non_empty errorMessage &&
      negb (search_any NON_RETRYABLE_PROVIDER_LIMIT_ERROR_PATTERN errorMessage) && search_any RETRYABLE_PROVIDER_ERROR_PATTERN errorMessage
  | None => false
  end.

(** * How long to wait *)

Record RetryPolicy : Type := RetryPolicy_ { rp_enabled : bool; rp_maxRetries : Z; rp_baseDelayMs : Z; rp_maxAgentDelayMs : option Z }.

Definition DEFAULT_MAX_AGENT_RETRY_DELAY_MS : Z := 60000.

(** A product with a power of two is exact as long as it is a safe integer. *)
Definition retryDelayMs (policy : RetryPolicy) (attempt : Z) : Z :=
  let delay := rp_baseDelayMs policy * 2 ^ Z.max 0 (attempt - 1) in
  let safeDelay := if Z.abs delay <=? MAX_SAFE_INTEGER then delay else MAX_SAFE_INTEGER in
  Z.min safeDelay (default DEFAULT_MAX_AGENT_RETRY_DELAY_MS (rp_maxAgentDelayMs policy)).

(** * The loop *)

Inductive RetryEvent : Type :=
| RetryScheduled (attempt maxAttempts delayMs : Z) (errorMessage : jsstr)
| RetryAttemptStart
| RetryFinished (success : bool) (attempt : Z) (finalError : option jsstr).

(** [{ ...rest, stopReason: "aborted" }], without the error. *)
Definition aborted_response (m : AssistantMessage) : AssistantMessage :=
  AssistantMessage_ (am_content m) (am_api m) (am_provider m) (am_model m) (am_responseModel m) (am_responseId m) (am_providerThinkingLevel m)
    (am_diagnostics m) (am_usage m) StopAborted (am_deferred m) None (am_rawStopReason m) (am_endTurn m) (am_timestamp m).

Section Loop.
Context {St E : Type}.
Variable produce : SM St E AssistantMessage.
(** [sleep(ms, signal)]: whether it was not aborted. *)
Variable sleep : Z -> SM St E bool.
Variable callback : RetryEvent -> SM St E unit.

(** [onRetryFinished], if a retry was scheduled. *)
Definition finish (lastRetry : option (Z * jsstr)) (success : bool) (finalError : option jsstr) : SM St E unit :=
  match lastRetry with
  | Some (attempt, _) => callback (RetryFinished success attempt finalError)
  | None => mret tt
  end.

(** [retriesLeft] is [maxAttempts - attempt], so the loop ends. *)
Fixpoint retry_loop (policy : RetryPolicy) (maxAttempts : Z) (retriesLeft : nat) (attempt : Z) (lastRetry : option (Z * jsstr)) : SM St E AssistantMessage :=
  response ← produce;
  if bool_decide (am_stopReason response = StopAborted) then finish lastRetry false None;; mret response
  else if negb (bool_decide (am_stopReason response = StopError)) then finish lastRetry true None;; mret response
  else
    match retriesLeft with
    | O => finish lastRetry false (am_errorMessage response);; mret response
    | S retriesLeft =>
        if negb (isRetryableAssistantError response) then finish lastRetry false (am_errorMessage response);; mret response
        else
          let attempt := attempt + 1 in
          let errorMessage :=
            match am_errorMessage response with Some text => if non_empty text then text else js "Unknown error" | None => js "Unknown error" end in
          let delayMs := retryDelayMs policy attempt in
          callback (RetryScheduled attempt maxAttempts delayMs errorMessage);;
          completed ← sleep delayMs;
          if negb completed then callback (RetryFinished false attempt (Some errorMessage));; mret (aborted_response response)
          else callback RetryAttemptStart;; retry_loop policy maxAttempts retriesLeft attempt (Some (attempt, errorMessage))
    end.

Definition default_policy : RetryPolicy := RetryPolicy_ false 0 0 None.

Definition retryAssistantCall (policy : option RetryPolicy) : SM St E AssistantMessage :=
  let policy := default default_policy policy in
  let maxAttempts := if rp_enabled policy then rp_maxRetries policy else 0 in
  retry_loop policy maxAttempts (Z.to_nat maxAttempts) 0 None.
End Loop.

(** * The delays *)

Lemma retryDelayMs_bounds policy attempt :
  0 <= rp_baseDelayMs policy -> 0 <= default DEFAULT_MAX_AGENT_RETRY_DELAY_MS (rp_maxAgentDelayMs policy) ->
  0 <= retryDelayMs policy attempt <= default DEFAULT_MAX_AGENT_RETRY_DELAY_MS (rp_maxAgentDelayMs policy) /\
  retryDelayMs policy attempt <= retryDelayMs policy (attempt + 1).
Proof.
  intros Hb Hm. unfold retryDelayMs. set (cap := default _ _) in *. set (d := rp_baseDelayMs policy * 2 ^ Z.max 0 (attempt - 1)). set (d' := rp_baseDelayMs policy * 2 ^ Z.max 0 (attempt + 1 - 1)).
  assert (0 <= d <= d') as [Hd Hdd].
  { subst d d'. split; [apply Z.mul_nonneg_nonneg; lia|]. apply Z.mul_le_mono_nonneg_l; [done|]. apply Z.pow_le_mono_r; lia. }
  assert (0 <= MAX_SAFE_INTEGER) by (unfold MAX_SAFE_INTEGER; lia). cbn zeta. destruct (Z.abs d <=? _) eqn:E1, (Z.abs d' <=? _) eqn:E2; bool_lia; repeat split; try lia.
Qed.

(** * What happens in a world that answers and sleeps as it is told *)

Section Trace.
(** The answer of the call with a number, and whether the sleep with a number is
    not aborted. *)
Variable responses : nat -> AssistantMessage.
Variable wakes : nat -> bool.

Inductive Happened : Type :=
| Called
| Slept (delayMs : Z)
| Event (event : RetryEvent).

(** Calls so far, sleeps so far, what happened. *)
Record World : Type := World_ { w_calls : nat; w_sleeps : nat; w_trace : list Happened }.

Definition told_produce : SM World False AssistantMessage :=
  fun w => (World_ (S (w_calls w)) (w_sleeps w) (w_trace w ++ [Called]), Ok (responses (w_calls w))).
Definition told_sleep (delayMs : Z) : SM World False bool :=
  fun w => (World_ (w_calls w) (S (w_sleeps w)) (w_trace w ++ [Slept delayMs]), Ok (wakes (w_sleeps w))).
Definition told_callback (event : RetryEvent) : SM World False unit :=
  fun w => (World_ (w_calls w) (w_sleeps w) (w_trace w ++ [Event event]), Ok tt).

Definition message_text (m : AssistantMessage) : jsstr :=
  match am_errorMessage m with Some text => if non_empty text then text else js "Unknown error" | None => js "Unknown error" end.

(** The try with a number, from its failure on. *)
Definition scheduled (policy : RetryPolicy) (maxAttempts : Z) (i : nat) : list Happened :=
  let attempt := Z.of_nat i + 1 in
  [Event (RetryScheduled attempt maxAttempts (retryDelayMs policy attempt) (message_text (responses i))); Slept (retryDelayMs policy attempt)].

Definition tried_again (policy : RetryPolicy) (maxAttempts : Z) (i : nat) : list Happened :=
  scheduled policy maxAttempts i ++ [Event RetryAttemptStart; Called].

(** A response that ends the loop when [retriesLeft] tries are left. *)
Definition ends_loop (retriesLeft : nat) (response : AssistantMessage) : bool :=
  (retriesLeft =? 0)%nat || negb (isRetryableAssistantError response).

Definition finished (n : nat) (response : AssistantMessage) : list Happened :=
  if (n =? 0)%nat then []
  else
    let success := negb (bool_decide (am_stopReason response = StopAborted)) && negb (bool_decide (am_stopReason response = StopError)) in
    [Event (RetryFinished success (Z.of_nat n) (if bool_decide (am_stopReason response = StopError) then am_errorMessage response else None))].

(** From the call with number [i], with [left] tries left: the tries up to [n],
    which ends the loop, or whose sleep is aborted. *)
Definition outcome_from (policy : RetryPolicy) (maxAttempts : Z) (i left : nat) (trace : list Happened) (r : AssistantMessage) : Prop :=
  exists n, (i <= n <= i + left)%nat /\
    (forall j, (i <= j < n)%nat -> isRetryableAssistantError (responses j) = true /\ wakes j = true) /\
    ((ends_loop (i + left - n) (responses n) = true /\ r = responses n /\
      trace = Called :: concat (tried_again policy maxAttempts <$> seq i (n - i)) ++ finished n (responses n)) \/
     ((n < i + left)%nat /\ isRetryableAssistantError (responses n) = true /\ wakes n = false /\ r = aborted_response (responses n) /\
      trace = Called :: concat (tried_again policy maxAttempts <$> seq i (n - i)) ++ scheduled policy maxAttempts n ++
        [Event (RetryFinished false (Z.of_nat n + 1) (Some (message_text (responses n))))])).

Lemma retryable_error m : isRetryableAssistantError m = true -> am_stopReason m = StopError.
Proof. unfold isRetryableAssistantError. destruct (am_errorMessage m); [|done]. intros H. do 3 apply andb_true_iff in H as [H _]. by apply bool_decide_eq_true in H. Qed.

Definition told_since (i : nat) (last : option (Z * jsstr)) : Prop :=
  match last with Some (a, _) => (0 < i)%nat /\ a = Z.of_nat i | None => i = 0%nat end.

Lemma finish_told i last success finalError w :
  told_since i last ->
  finish told_callback last success finalError w =
    (World_ (w_calls w) (w_sleeps w) (w_trace w ++ (if (i =? 0)%nat then [] else [Event (RetryFinished success (Z.of_nat i) finalError)])), Ok tt).
Proof.
  destruct last as [[a ?]|]; cbn; [intros [Hi ->]|intros ->]; [by destruct i; [lia|]|]. rewrite app_nil_r. by destruct w.
Qed.

(** A call that is the last. *)
Lemma outcome_last policy maxAttempts i left trace :
  ends_loop left (responses i) = true -> trace = Called :: finished i (responses i) -> outcome_from policy maxAttempts i left trace (responses i).
Proof.
  intros He ->. exists i. split_and!; [lia|lia|intros; lia|]. left. rewrite Nat.sub_diag, Nat.add_comm, Nat.add_sub. done.
Qed.

Lemma retry_loop_trace policy maxAttempts left : forall i last w,
  w_calls w = i -> w_sleeps w = i -> told_since i last ->
  exists w' r trace, retry_loop told_produce told_sleep told_callback policy maxAttempts left (Z.of_nat i) last w = (w', Ok r) /\
    w_trace w' = w_trace w ++ trace /\ outcome_from policy maxAttempts i left trace r.
Proof.
  induction left as [|left IH]; intros i last w Hc Hsl Hl; cbn [retry_loop]; unfold mbind, sm_bind; cbn [told_produce]; rewrite Hc;
    set (w1 := World_ _ _ _); pose proof (finish_told i last) as Hf; set (response := responses i) in *.
  all: assert (forall left success finalError, ends_loop left response = true ->
      success = negb (bool_decide (am_stopReason response = StopAborted)) && negb (bool_decide (am_stopReason response = StopError)) ->
      finalError = (if bool_decide (am_stopReason response = StopError) then am_errorMessage response else None) ->
      exists w' r trace, (let (s, r0) := finish told_callback last success finalError w1 in match r0 with Ok _ => (mret response : SM World False AssistantMessage) s | Err e => (s, Err e) end) = (w', Ok r) /\
        w_trace w' = w_trace w ++ trace /\ outcome_from policy maxAttempts i left trace r) as Hlast
    by (intros l success finalError He -> ->; rewrite Hf by done; eexists _, _, (Called :: finished i response); split_and!; [reflexivity|cbn; by rewrite <- app_assoc|by apply outcome_last]).
  all: destruct (bool_decide (am_stopReason response = StopAborted)) eqn:Ea; [apply bool_decide_eq_true in Ea; apply Hlast; unfold ends_loop, isRetryableAssistantError; rewrite Ea; by destruct (am_errorMessage response), (_ =? 0)%nat|].
  all: destruct (bool_decide (am_stopReason response = StopError)) eqn:Ee; cbn [negb];
    [|apply Hlast; [|done|done]; unfold ends_loop, isRetryableAssistantError; rewrite Ee; by destruct (am_errorMessage response), (_ =? 0)%nat].
  - by apply Hlast.
  - destruct (isRetryableAssistantError response) eqn:Er; cbn [negb]; [|apply Hlast; [|done|done]; unfold ends_loop; rewrite Er; by rewrite orb_true_r].
    cbn [told_callback told_sleep w_sleeps w1]. rewrite Hsl. replace (Z.of_nat i + 1) with (Z.of_nat (S i)) by lia.
    assert (scheduled policy maxAttempts i = [Event (RetryScheduled (Z.of_nat (S i)) maxAttempts (retryDelayMs policy (Z.of_nat (S i))) (message_text response)); Slept (retryDelayMs policy (Z.of_nat (S i)))]) as Hsch
      by (unfold scheduled; by replace (Z.of_nat i + 1) with (Z.of_nat (S i)) by lia).
    assert (tried_again policy maxAttempts i = scheduled policy maxAttempts i ++ [Event RetryAttemptStart; Called]) as Htry by done.
    destruct (wakes i) eqn:Ew; cbn [negb].
    + edestruct (IH (S i)) as (w' & r & trace & E & Ht & Ho); [..|exists w', r; eexists; split_and!; [exact E| |]]; [reflexivity|reflexivity|split; [lia|done]| |].
      * rewrite Ht. cbn [w_trace w1]. rewrite <- !app_assoc. reflexivity.
      * destruct Ho as (n & Hn & Hall & Hcase). exists n. split_and!; [lia|lia| |].
        { intros j ?. destruct (decide (j = i)) as [->|]; [done|apply Hall; lia]. }
        replace (n - i)%nat with (S (n - S i)) by lia. cbn [seq fmap list_fmap concat].
        destruct Hcase as [(He & -> & ->)|(? & ? & ? & -> & ->)]; [left|right].
        -- split_and!; [by replace (i + S left - n)%nat with (S i + left - n)%nat by lia|done|]. rewrite Htry, Hsch. reflexivity.
        -- split_and!; [lia|done..|]. rewrite Htry, Hsch. reflexivity.
    + eexists _, _, _. split_and!; [reflexivity|cbn [w_trace w1]; rewrite <- !app_assoc; reflexivity|].
      exists i. split_and!; [lia|lia|intros; lia|]. right. rewrite Nat.sub_diag. split_and!; [lia|done|done|done|]. rewrite Hsch. replace (Z.of_nat i + 1) with (Z.of_nat (S i)) by lia. reflexivity.
Qed.
End Trace.
