(* ===== verification/LaneReducer.v ===== *)
(** What a watcher of a lane sees: the snapshot of a lane and the events that change
    it.  [packages/agent/src/harness/runtime/reducer.ts], the events of committed
    entries of [runtime/transcript.ts], and their types in [agent-harness.ts].

    Of the events only what the reducer reads is kept; the results of tools, handles
    and configurations are data it passes on. *)
From S2P Require Import Prelude JsBase JsFloat JsText Json SessionTypes AiTypes AgentMessages.

(** * Snapshots *)

Inductive OperationStatus : Type := OperationRunning | OperationOpen | OperationAborting.
Inductive OperationKind : Type := KindRun | KindCompaction | KindNavigation.
Inductive TerminalStatus : Type := TerminalCompleted | TerminalDeclined | TerminalAborted | TerminalFailed.

#[export] Instance OperationKind_eq_dec : EqDecision OperationKind.
Proof. solve_decision. Defined.
#[export] Instance TerminalStatus_eq_dec : EqDecision TerminalStatus.
Proof. solve_decision. Defined.

(** [LaneSnapshotTool] *)
Inductive LaneSnapshotTool : Type :=
| ToolRunning (toolCallId toolName : jsstr) (args : json) (result : option json)
| ToolSettled (toolCallId toolName : jsstr) (args : json) (result : json) (isError : bool).

Definition lt_toolCallId (tool : LaneSnapshotTool) : jsstr :=
  match tool with ToolRunning id _ _ _ | ToolSettled id _ _ _ _ => id end.
Definition lt_args (tool : LaneSnapshotTool) : json :=
  match tool with ToolRunning _ _ args _ | ToolSettled _ _ args _ _ => args end.

Record OperationResultRecord : Type := OperationResultRecord_ {
  or_operationId : jsstr;
  or_kind : OperationKind;
  or_status : TerminalStatus;
  or_error : option json;
  or_fromTipId : option jsstr;
  or_tipId : option jsstr;
  or_startedAt : jsnum;
  or_endedAt : jsnum;
}.

Record RetryInfo : Type := RetryInfo_ { ri_attempt : Z; ri_maxAttempts : Z; ri_nextAttemptAt : jsnum }.

Record LaneOperation : Type := LaneOperation_ {
  lo_id : jsstr;
  lo_kind : OperationKind;
  lo_startedAt : jsnum;
  lo_fromTipId : option jsstr;
  lo_status : OperationStatus;
  lo_retry : option RetryInfo;
  lo_deferred : option (json * Z);
  lo_streamingMessage : option AssistantMessage;
  lo_runningTools : list LaneSnapshotTool;
}.

Record LaneConfiguration : Type := LaneConfiguration_ { lc_model : jsstr * jsstr; lc_thinkingLevel : jsstr; lc_activeToolNames : list jsstr }.

Record LaneSnapshot : Type := LaneSnapshot_ {
  ls_lane : jsstr;
  ls_transcript : list TranscriptEntry;
  ls_tipId : option jsstr;
  ls_lastResult : option OperationResultRecord;
  ls_configuration : LaneConfiguration;
  ls_messageCount : Z;
  ls_usage : Usage;
  ls_operation : option LaneOperation;
  ls_queues : list json;
  ls_faulted : bool;
}.

(** * Events *)

Inductive LanePayload : Type :=
| RunStart (runId : jsstr) (startedAt : jsnum)
| RunResume (runId : jsstr)
| RunSuspend (runId : jsstr) (deferred : json) (poll : Z)
| OperationAbort (operationId : jsstr)
| RunEnd (runId : jsstr) (fromTipId tipId : option jsstr) (endedAt : jsnum) (status : TerminalStatus) (error : option json)
| FaultEvent
| HandlerError
| TurnStart
| TurnEnd
| RetryScheduledEvent (runId : jsstr) (attempt maxAttempts : Z) (notBefore : jsnum)
| RetryStartEvent (runId : jsstr)
| RetryEndEvent (runId : jsstr)
| MessageStart (runId : option jsstr) (message : AgentMessage)
| MessageUpdate (runId : jsstr) (message : AgentMessage)
| MessageEnd (runId : option jsstr) (message : AgentMessage) (entryId : option jsstr)
| ToolStart (runId toolCallId toolName : jsstr) (args : json)
| ToolUpdate (runId toolCallId : jsstr) (partialResult : json)
| ToolEnd (runId toolCallId toolName : jsstr) (result : json) (isError : bool)
| EntryAdded (entry : TranscriptEntry)
| QueueUpdate (queues : list json)
| ValueUpdate
| ConfigModel (value : jsstr * jsstr)
| ConfigThinkingLevel (value : jsstr)
| ConfigActiveTools (value : list jsstr)
| ConfigOther
| CompactionStart (runId : jsstr) (startedAt : jsnum)
| CompactionEnd (runId : jsstr) (endedAt : jsnum) (status : TerminalStatus) (error : option json)
| NavigationStart (runId : jsstr) (startedAt : jsnum)
| NavigationEnd
| LaneCreated
| UsageEvent (totals : Usage).

(** An event of a lane, or of the session. *)
Record HarnessEvent : Type := HarnessEvent_ { he_lane : option jsstr; he_payload : LanePayload }.

(** * The reducer *)

Definition set_operation (operation : option LaneOperation) (s : LaneSnapshot) : LaneSnapshot :=
  LaneSnapshot_ (ls_lane s) (ls_transcript s) (ls_tipId s) (ls_lastResult s) (ls_configuration s) (ls_messageCount s) (ls_usage s) operation (ls_queues s) (ls_faulted s).

Definition set_tools (tools : list LaneSnapshotTool) (o : LaneOperation) : LaneOperation :=
  LaneOperation_ (lo_id o) (lo_kind o) (lo_startedAt o) (lo_fromTipId o) (lo_status o) (lo_retry o) (lo_deferred o) (lo_streamingMessage o) tools.
Definition set_status (status : OperationStatus) (o : LaneOperation) : LaneOperation :=
  LaneOperation_ (lo_id o) (lo_kind o) (lo_startedAt o) (lo_fromTipId o) status (lo_retry o) (lo_deferred o) (lo_streamingMessage o) (lo_runningTools o).
Definition set_retry (retry : option RetryInfo) (o : LaneOperation) : LaneOperation :=
  LaneOperation_ (lo_id o) (lo_kind o) (lo_startedAt o) (lo_fromTipId o) (lo_status o) retry (lo_deferred o) (lo_streamingMessage o) (lo_runningTools o).
Definition set_deferred (deferred : option (json * Z)) (o : LaneOperation) : LaneOperation :=
  LaneOperation_ (lo_id o) (lo_kind o) (lo_startedAt o) (lo_fromTipId o) (lo_status o) (lo_retry o) deferred (lo_streamingMessage o) (lo_runningTools o).
Definition set_streaming (message : option AssistantMessage) (o : LaneOperation) : LaneOperation :=
  LaneOperation_ (lo_id o) (lo_kind o) (lo_startedAt o) (lo_fromTipId o) (lo_status o) (lo_retry o) (lo_deferred o) message (lo_runningTools o).

Definition same_call (toolCallId : jsstr) (tool : LaneSnapshotTool) : Prop := lt_toolCallId tool = toolCallId.

#[export] Instance same_call_dec id tool : Decision (same_call id tool) := decide (lt_toolCallId tool = id).

(** [findIndex] *)
Definition tool_index (toolCallId : jsstr) (tools : list LaneSnapshotTool) : option (nat * LaneSnapshotTool) := list_find (same_call toolCallId) tools.

Definition upsertTool (tool : LaneSnapshotTool) (operation : LaneOperation) : LaneOperation :=
  let tools := lo_runningTools operation in
  match tool_index (lt_toolCallId tool) tools with
  | None => set_tools (tools ++ [tool]) operation
  | Some (index, _) => set_tools (<[index := tool]> tools) operation
  end.

(** Changes the operation of the snapshot if it has the id. *)
Definition on_operation (operationId : jsstr) (f : LaneOperation -> LaneOperation) (s : LaneSnapshot) : LaneSnapshot :=
  match ls_operation s with
  | Some operation => if bool_decide (lo_id operation = operationId) then set_operation (Some (f operation)) s else s
  | None => s
  end.

Definition open_operation (id : jsstr) (kind : OperationKind) (startedAt : jsnum) (s : LaneSnapshot) : LaneSnapshot :=
  set_operation (Some (LaneOperation_ id kind startedAt (ls_tipId s) OperationOpen None None None [])) s.

(** The end of an operation of the kind, where it is the one the event names. *)
Definition close_operation (operationId : jsstr) (kind : OperationKind) (status : TerminalStatus) (error : option json)
    (fromTipId : LaneOperation -> option jsstr) (tipId : option jsstr) (endedAt : jsnum) (s : LaneSnapshot) : LaneSnapshot :=
  match ls_operation s with
  | Some operation =>
      if bool_decide (lo_id operation = operationId) && bool_decide (lo_kind operation = kind) then
        let record := OperationResultRecord_ operationId kind status (if bool_decide (status = TerminalFailed) then error else None)
          (fromTipId operation) tipId (lo_startedAt operation) endedAt in
        LaneSnapshot_ (ls_lane s) (ls_transcript s) tipId (Some record) (ls_configuration s) (ls_messageCount s) (ls_usage s) None (ls_queues s) (ls_faulted s)
      else s
  | None => s
  end.

Definition end_tool (toolCallId toolName : jsstr) (result : json) (isError : bool) (operation : LaneOperation) : LaneOperation :=
  match tool_index toolCallId (lo_runningTools operation) with
  | None => operation
  | Some (index, current) => set_tools (<[index := ToolSettled toolCallId toolName (lt_args current) result isError]> (lo_runningTools operation)) operation
  end.

Definition update_tool (toolCallId : jsstr) (partialResult : json) (operation : LaneOperation) : LaneOperation :=
  match tool_index toolCallId (lo_runningTools operation) with
  | Some (index, ToolRunning id name args _) => set_tools (<[index := ToolRunning id name args (Some partialResult)]> (lo_runningTools operation)) operation
  | _ => operation
  end.

(** [runningTools.splice(index, 1)] *)
Definition drop_tool (toolCallId : jsstr) (operation : LaneOperation) : LaneOperation :=
  match tool_index toolCallId (lo_runningTools operation) with
  | Some (index, _) => set_tools (delete index (lo_runningTools operation)) operation
  | None => operation
  end.

Definition add_entry (entry : TranscriptEntry) (s : LaneSnapshot) : LaneSnapshot :=
  let operation :=
    match te_body entry with
    | TMessage (AgentLlm (MsgToolResult m)) _ => drop_tool (tr_toolCallId m) <$> ls_operation s
    | _ => ls_operation s
    end in
  let transcript := if is_compaction entry then [entry] else ls_transcript s ++ [entry] in
  let messageCount := match te_body entry with TMessage _ _ => ls_messageCount s + 1 | _ => ls_messageCount s end in
  LaneSnapshot_ (ls_lane s) transcript (Some (te_id entry)) (ls_lastResult s) (ls_configuration s) messageCount (ls_usage s) operation (ls_queues s) (ls_faulted s).

Definition set_configuration (f : LaneConfiguration -> LaneConfiguration) (s : LaneSnapshot) : LaneSnapshot :=
  LaneSnapshot_ (ls_lane s) (ls_transcript s) (ls_tipId s) (ls_lastResult s) (f (ls_configuration s)) (ls_messageCount s) (ls_usage s) (ls_operation s) (ls_queues s) (ls_faulted s).

(** An event of another lane, usage apart. *)
Definition foreign (s : LaneSnapshot) (event : HarnessEvent) : bool :=
  match he_lane event with
  | Some lane => negb (bool_decide (lane = ls_lane s)) && match he_payload event with UsageEvent _ => false | _ => true end
  | None => false
  end.

(** The snapshot, and whether it has to be taken anew ([rebase]). *)
Definition reduceLaneSnapshot (s : LaneSnapshot) (event : HarnessEvent) : LaneSnapshot * bool :=
  if foreign s event then (s, false)
  else
    match he_payload event with
    | RunStart runId startedAt => (open_operation runId KindRun startedAt s, false)
    | CompactionStart runId startedAt => (match ls_operation s with Some _ => s | None => open_operation runId KindCompaction startedAt s end, false)
    | NavigationStart runId startedAt => (open_operation runId KindNavigation startedAt s, false)
    | OperationAbort operationId => (on_operation operationId (set_status OperationAborting) s, false)
    | RunResume runId => (on_operation runId (set_deferred None) s, false)
    | RunSuspend runId deferred poll => (on_operation runId (fun o => set_deferred (Some (deferred, poll)) (set_streaming None o)) s, false)
    | RetryScheduledEvent runId attempt maxAttempts notBefore => (on_operation runId (set_retry (Some (RetryInfo_ attempt maxAttempts notBefore))) s, false)
    | RetryStartEvent runId | RetryEndEvent runId => (on_operation runId (set_retry None) s, false)
    | MessageStart (Some runId) (AgentLlm (MsgAssistant m)) =>
        (if bool_decide (am_stopReason m = StopPending) then on_operation runId (set_streaming (Some m)) s else s, false)
    | MessageStart _ _ => (s, false)
    | MessageUpdate runId (AgentLlm (MsgAssistant m)) => (on_operation runId (set_streaming (Some m)) s, false)
    | MessageUpdate _ _ => (s, false)
    | MessageEnd (Some runId) _ _ => (on_operation runId (set_streaming None) s, false)
    | MessageEnd None _ _ => (s, false)
    | ToolStart runId toolCallId toolName args => (on_operation runId (upsertTool (ToolRunning toolCallId toolName args None)) s, false)
    | ToolUpdate runId toolCallId partialResult => (on_operation runId (update_tool toolCallId partialResult) s, false)
    | ToolEnd runId toolCallId toolName result isError => (on_operation runId (end_tool toolCallId toolName result isError) s, false)
    | EntryAdded entry => (add_entry entry s, false)
    | QueueUpdate queues =>
        (LaneSnapshot_ (ls_lane s) (ls_transcript s) (ls_tipId s) (ls_lastResult s) (ls_configuration s) (ls_messageCount s) (ls_usage s) (ls_operation s) queues (ls_faulted s), false)
    | UsageEvent totals =>
        (LaneSnapshot_ (ls_lane s) (ls_transcript s) (ls_tipId s) (ls_lastResult s) (ls_configuration s) (ls_messageCount s) totals (ls_operation s) (ls_queues s) (ls_faulted s), false)
    | ConfigModel value =>
        (if bool_decide (he_lane event = Some (ls_lane s)) then set_configuration (fun c => LaneConfiguration_ value (lc_thinkingLevel c) (lc_activeToolNames c)) s else s, false)
    | ConfigThinkingLevel value =>
        (if bool_decide (he_lane event = Some (ls_lane s)) then set_configuration (fun c => LaneConfiguration_ (lc_model c) value (lc_activeToolNames c)) s else s, false)
    | ConfigActiveTools value =>
        (if bool_decide (he_lane event = Some (ls_lane s)) then set_configuration (fun c => LaneConfiguration_ (lc_model c) (lc_thinkingLevel c) value) s else s, false)
    | ConfigOther => (s, false)
    | RunEnd runId fromTipId tipId endedAt status error => (close_operation runId KindRun status error (fun _ => fromTipId) tipId endedAt s, false)
    | CompactionEnd runId endedAt status error => (close_operation runId KindCompaction status error lo_fromTipId (ls_tipId s) endedAt s, false)
    | NavigationEnd => (s, true)
    | FaultEvent =>
        (LaneSnapshot_ (ls_lane s) (ls_transcript s) (ls_tipId s) (ls_lastResult s) (ls_configuration s) (ls_messageCount s) (ls_usage s) (ls_operation s) (ls_queues s) true, false)
    | HandlerError | TurnStart | TurnEnd | ValueUpdate | LaneCreated => (s, false)
    end.

(** A watcher that applies events one after the other. *)
Definition watch (s : LaneSnapshot) (events : list HarnessEvent) : LaneSnapshot := foldl (fun s event => fst (reduceLaneSnapshot s event)) s events.

(** * The events of committed entries *)

(** [NewEntry]: before the storage gives it a sequence and a time. *)
Record TranscriptNew : Type := TranscriptNew_ { tn_id : jsstr; tn_parentId : option jsstr; tn_body : TranscriptBody }.

Fixpoint chainEntries (parentId : option jsstr) (items : list (jsstr * TranscriptBody)) : list TranscriptNew :=
  match items with
  | [] => []
  | (id, body) :: items => TranscriptNew_ id parentId body :: chainEntries (Some id) items
  end.

Definition entryLifecycleEvents (entry : TranscriptEntry) (lane : jsstr) (runId : option jsstr) : list HarnessEvent :=
  match te_body entry with
  | TMessage message _ =>
      [HarnessEvent_ (Some lane) (MessageStart runId message); HarnessEvent_ (Some lane) (MessageEnd runId message (Some (te_id entry)));
       HarnessEvent_ (Some lane) (EntryAdded entry)]
  | _ => [HarnessEvent_ (Some lane) (EntryAdded entry)]
  end.

(** [materializeCommittedEntry] *)
Definition materialize (entry : TranscriptNew) (seq : Seq) (timestamp : jsnum) : TranscriptEntry :=
  TranscriptEntry_ (tn_id entry) (tn_parentId entry) seq timestamp (tn_body entry).

(** The sequences are those of the writes from [firstWriteIndex] on, one for each
    entry. *)
Definition committedEntryEvents (entries : list TranscriptNew) (seqs : list Seq) (timestamp : jsnum) (lane : jsstr) (runId : option jsstr) (firstWriteIndex : nat) : list HarnessEvent :=
  concat (zip_with (fun entry seq => entryLifecycleEvents (materialize entry seq timestamp) lane runId) entries (drop firstWriteIndex seqs)).

(** * What holds of every event *)

(** No two tools of the running operation have the same call. *)
Definition tools_unique (o : LaneOperation) : Prop := NoDup (lt_toolCallId <$> lo_runningTools o).

Definition snapshot_ok (s : LaneSnapshot) : Prop := forall o, ls_operation s = Some o -> tools_unique o.

Lemma fmap_insert_same {A B} (f : A -> B) (l : list A) i a b : l !! i = Some a -> f b = f a -> f <$> <[i := b]> l = f <$> l.
Proof. intros Hl Hf. rewrite list_fmap_insert, Hf. apply list_insert_id. by rewrite list_lookup_fmap, Hl. Qed.

Lemma tool_index_Some id tools i tool : tool_index id tools = Some (i, tool) -> tools !! i = Some tool /\ lt_toolCallId tool = id.
Proof. by intros (? & ? & _)%list_find_Some. Qed.

Lemma tool_index_None id tools : tool_index id tools = None <-> id ∉ lt_toolCallId <$> tools.
Proof.
  unfold tool_index. rewrite list_find_None, Forall_forall. split.
  - intros H (tool & -> & Ht)%list_elem_of_fmap. by apply (H tool Ht).
  - intros H tool Ht E. apply H. apply list_elem_of_fmap. exists tool. by rewrite E.
Qed.

Lemma upsertTool_unique tool o : tools_unique o -> tools_unique (upsertTool tool o).
Proof.
  unfold tools_unique, upsertTool. intros H. destruct (tool_index _ _) as [[i current]|] eqn:E; cbn [lo_runningTools set_tools].
  - apply tool_index_Some in E as [Hi E]. by erewrite fmap_insert_same.
  - apply tool_index_None in E. rewrite fmap_app. cbn. apply NoDup_app. split_and!; [done|set_solver|apply NoDup_singleton].
Qed.

Lemma end_tool_unique id name result isError o : tools_unique o -> tools_unique (end_tool id name result isError o).
Proof.
  unfold tools_unique, end_tool. intros H. destruct (tool_index _ _) as [[i current]|] eqn:E; cbn [lo_runningTools set_tools]; [|done].
  apply tool_index_Some in E as [Hi E]. by erewrite fmap_insert_same.
Qed.

Lemma update_tool_unique id partial o : tools_unique o -> tools_unique (update_tool id partial o).
Proof.
  unfold tools_unique, update_tool. intros H. destruct (tool_index _ _) as [[i [cid name args result|]]|] eqn:E; cbn [lo_runningTools set_tools]; try done.
  apply tool_index_Some in E as [Hi E]. by erewrite fmap_insert_same.
Qed.

Lemma drop_tool_unique id o : tools_unique o -> tools_unique (drop_tool id o) /\ id ∉ lt_toolCallId <$> lo_runningTools (drop_tool id o).
Proof.
  unfold tools_unique, drop_tool. intros H. destruct (tool_index _ _) as [[i current]|] eqn:E; cbn [lo_runningTools set_tools]; [|by apply tool_index_None in E].
  apply tool_index_Some in E as [Hi E]. rewrite delete_take_drop, fmap_app. pose proof (take_drop_middle _ _ _ Hi) as Hm. rewrite <- Hm in H. rewrite fmap_app, fmap_cons in H.
  apply NoDup_app in H as (H1 & H2 & H3). apply NoDup_cons in H3 as [H3 H4]. split; [apply NoDup_app; set_solver|]. set_solver.
Qed.

Lemma on_operation_ok id f s : (forall o, tools_unique o -> tools_unique (f o)) -> snapshot_ok s -> snapshot_ok (on_operation id f s).
Proof.
  intros Hf Hs. unfold on_operation. destruct (ls_operation s) as [o|] eqn:E; [|done]. case_bool_decide; [|done]. intros o' [= <-]. apply Hf. by apply Hs.
Qed.

Lemma open_operation_ok id kind t s : snapshot_ok (open_operation id kind t s).
Proof. intros o [= <-]. apply NoDup_nil_2. Qed.

Lemma close_operation_ok id kind status error from tip t s : snapshot_ok s -> snapshot_ok (close_operation id kind status error from tip t s).
Proof. intros Hs. unfold close_operation. destruct (ls_operation s); [|done]. by destruct (_ && _). Qed.

Lemma add_entry_ok entry s : snapshot_ok s -> snapshot_ok (add_entry entry s).
Proof.
  intros Hs o. unfold add_entry. cbn [ls_operation].
  destruct (te_body entry) as [[[| | |m]| | | | |] t| | |]; cbn; try apply Hs. destruct (ls_operation s) as [o1|] eqn:E; [|done]. intros [= <-]. by apply drop_tool_unique, Hs.
Qed.

Lemma reduce_ok s event : snapshot_ok s -> snapshot_ok (fst (reduceLaneSnapshot s event)).
Proof.
  intros Hs. unfold reduceLaneSnapshot. destruct (foreign s event); [done|].
  destruct (he_payload event) as [| | | | | | | | | | | |[runId|] m|runId m|[runId|] m e| | | | | | | | | | | | | | | |]; cbn [fst]; try done;
    try (by apply on_operation_ok; auto using upsertTool_unique, end_tool_unique, update_tool_unique); try apply open_operation_ok; try (by apply close_operation_ok); try (by apply add_entry_ok);
    try (by case_bool_decide).
  - destruct m as [[| |m|]| | | | |]; try done. cbn [fst]. case_bool_decide; [by apply on_operation_ok|done].
  - destruct m as [[| |m|]| | | | |]; try done. by apply on_operation_ok.
  - destruct (ls_operation s) eqn:E; [exact Hs|apply open_operation_ok].
Qed.

(** The lane stays. *)
Lemma on_operation_rest id f s :
  let s' := on_operation id f s in
  ls_lane s' = ls_lane s /\ ls_transcript s' = ls_transcript s /\ ls_messageCount s' = ls_messageCount s /\ ls_tipId s' = ls_tipId s.
Proof. unfold on_operation. destruct (ls_operation s); [|done]. by case_bool_decide. Qed.

(** The entry an event adds to the lane. *)
Definition entry_of_event (lane : jsstr) (event : HarnessEvent) : option TranscriptEntry :=
  match he_payload event with
  | EntryAdded entry => match he_lane event with Some l => if bool_decide (l = lane) then Some entry else None | None => Some entry end
  | _ => None
  end.

Definition is_message_entry (entry : TranscriptEntry) : bool := match te_body entry with TMessage _ _ => true | _ => false end.

Lemma foreign_entry s event : foreign s event = true -> entry_of_event (ls_lane s) event = None.
Proof.
  unfold foreign, entry_of_event. destruct (he_lane event) as [lane|]; [|done]. intros [H _]%andb_true_iff. destruct (he_payload event); try done.
  by case_bool_decide.
Qed.

Lemma own_entry s event entry : foreign s event = false -> he_payload event = EntryAdded entry -> entry_of_event (ls_lane s) event = Some entry.
Proof.
  unfold foreign, entry_of_event. intros Hf Hp. rewrite Hp in *. destruct (he_lane event) as [lane|]; [|done]. rewrite andb_true_r in Hf. by case_bool_decide.
Qed.

(** What an event that adds no entry leaves. *)
Lemma reduce_rest s event :
  let s' := fst (reduceLaneSnapshot s event) in
  ls_lane s' = ls_lane s /\
  match entry_of_event (ls_lane s) event with
  | Some entry => s' = add_entry entry s
  | None => ls_transcript s' = ls_transcript s /\ ls_messageCount s' = ls_messageCount s
  end.
Proof.
  intros s'. subst s'. destruct (foreign s event) eqn:Ef; [unfold reduceLaneSnapshot; by rewrite Ef, (foreign_entry _ _ Ef)|].
  destruct (he_payload event) as [| | | | | | | | | | | |[runId|] m|runId m|[runId|] m e| | | |entry| | | | | | | | | | | |] eqn:Ep;
    try (rewrite (own_entry _ _ _ Ef Ep)); try (assert (entry_of_event (ls_lane s) event = None) as -> by (unfold entry_of_event; by rewrite Ep));
    unfold reduceLaneSnapshot; rewrite Ef, Ep; cbn [fst]; try (by destruct (on_operation_rest runId (fun o => o) s)); try done;
    try (match goal with |- context [on_operation ?i ?f ?s] => by destruct (on_operation_rest i f s) as (? & ? & ? & _) end);
    try (by unfold close_operation; destruct (ls_operation s); [destruct (_ && _)|]); try (by case_bool_decide).
  - destruct m as [[| |m|]| | | | |]; try done. cbn [fst]. case_bool_decide; [|done]. by destruct (on_operation_rest runId (set_streaming (Some m)) s) as (? & ? & ? & _).
  - destruct m as [[| |m|]| | | | |]; try done. by destruct (on_operation_rest runId (set_streaming (Some m)) s) as (? & ? & ? & _).
  - by destruct (ls_operation s).
Qed.

Lemma buildContextEntries_snoc path entry :
  buildContextEntries (path ++ [entry]) = if is_compaction entry then [entry] else buildContextEntries path ++ [entry].
Proof.
  unfold buildContextEntries. rewrite find_last_snoc. destruct (is_compaction entry); [by rewrite drop_ge by (rewrite length_app; cbn; lia)|].
  destruct (find_last is_compaction path) as [[i c]|] eqn:E; [|done]. apply find_last_Some in E as (before & after & -> & <- & _).
  rewrite drop_app_le by (rewrite length_app; cbn; lia). done.
Qed.
