(* ===== verification/StreamingJson.v ===== *)
(** JSON that is still being written: [packages/ai/src/utils/json-parse.ts], and
    what its repair restores: texts whose strings hold raw control characters, or
    backslashes that are not doubled although no escape follows.

    [parse] of the partial-json library is a parameter: what it makes of a text,
    [None] where it throws. *)
From S2P Require Import Prelude JsBase Json JsonText JsText JsFloat JsonParse.

Definition backslash : Z := 0x5C.
Definition double_quote_unit : Z := 0x22.
Definition letter_u : Z := 0x75.

(** The characters of [VALID_JSON_ESCAPES]. *)
Definition valid_json_escape (c : Z) : bool := bool_decide (c ∈ [0x22; 0x5C; 0x2F; 0x62; 0x66; 0x6E; 0x72; 0x74; 0x75]).

Definition isControlCharacter (c : Z) : bool := (0 <=? c) && (c <=? 0x1F).

Definition escapeControlCharacter (c : Z) : jsstr :=
  if c =? 8 then [backslash; 0x62]
  else if c =? 12 then [backslash; 0x66]
  else if c =? 10 then [backslash; 0x6E]
  else if c =? 13 then [backslash; 0x72]
  else if c =? 9 then [backslash; 0x74]
  else [backslash; letter_u; 0x30; 0x30; hex_digit (c / 16); hex_digit (c mod 16)].

(** [/^[0-9a-fA-F]{4}$/], one digit. *)
Definition is_hex (c : Z) : bool := in_range 0x30 0x39 c || in_range 0x61 0x66 c || in_range 0x41 0x46 c.

(** The loop of [repairJson]. *)
Fixpoint repair (inString : bool) (json : jsstr) : jsstr :=
  match json with
  | [] => []
  | char :: rest =>
      if negb inString then char :: repair (char =? double_quote_unit) rest
      else if char =? double_quote_unit then char :: repair false rest
      else if char =? backslash then
        match rest with
        | [] => [backslash; backslash]
        | nextChar :: rest1 =>
            let other :=
              if valid_json_escape nextChar then backslash :: nextChar :: repair true rest1
              else backslash :: backslash :: repair true rest in
            if nextChar =? letter_u then
              match rest1 with
              | a :: b :: c :: d :: rest2 =>
                  if is_hex a && is_hex b && is_hex c && is_hex d then backslash :: letter_u :: a :: b :: c :: d :: repair true rest2
                  else other
              | _ => other
              end
            else other
        end
      else (if isControlCharacter char then escapeControlCharacter char else [char]) ++ repair true rest
  end.

Definition repairJson (json : jsstr) : jsstr := repair false json.

(** [None] where it throws. *)
Definition parseJsonWithRepair (text : jsstr) : option json :=
  match parse text with
  | Some v => Some v
  | None =>
      let repairedJson := repairJson text in
      if bool_decide (repairedJson = text) then None else parse repairedJson
  end.

Section Streaming.
Variable partialParse : jsstr -> option json.

(** [result ?? {}]. *)
Definition or_empty (v : json) : json := match v with JNull => JObj [] | _ => v end.

Definition parseStreamingJson (partialJson : jsstr) : json :=
  if forallb is_space partialJson then JObj []
  else
    match parseJsonWithRepair partialJson with
    | Some v => v
    | None =>
        match partialParse partialJson with
        | Some result => or_empty result
        | None =>
            match partialParse (repairJson partialJson) with
            | Some result => or_empty result
            | None => JObj []
            end
        end
    end.

Lemma parseStreamingJson_empty : parseStreamingJson [] = JObj [].
Proof. done. Qed.

Lemma parseStreamingJson_json text v : parse text = Some v -> forallb is_space text = false -> parseStreamingJson text = v.
Proof. intros H Hs. unfold parseStreamingJson, parseJsonWithRepair. by rewrite Hs, H. Qed.
End Streaming.

(** A way to write the content of a string between its quotes. *)
Inductive sloppy : jsstr -> jsstr -> Prop :=
| sloppy_nil : sloppy [] []
| sloppy_raw u s t : u <> double_quote_unit -> u <> backslash -> sloppy s t -> sloppy (u :: s) (u :: t)
| sloppy_quote s t : sloppy s t -> sloppy (double_quote_unit :: s) (backslash :: double_quote_unit :: t)
| sloppy_double s t : sloppy s t -> sloppy (backslash :: s) (backslash :: backslash :: t)
| sloppy_single c s t : valid_json_escape c = false -> sloppy s (c :: t) -> sloppy (backslash :: s) (backslash :: c :: t).

(** The text of a value whose strings are written by [w]. *)
Fixpoint json_text (w : jsstr -> jsstr) (v : json) : jsstr :=
  match v with
  | JNull => js "null"
  | JBool b => if b then js "true" else js "false"
  | JNum n => if isFinite n then number_text n else js "null"
  | JStr s => w s
  | JArr l => items_text 0x5B 0x5D (json_text w <$> l)
  | JObj o => items_text 0x7B 0x7D ((fun kv => w (fst kv) ++ 0x3A :: json_text w (snd kv)) <$> o)
  end.

(** Every string of [v] is UTF-16, and [w] writes it between quotes in such a way. *)
Inductive written (w : jsstr -> jsstr) : json -> Prop :=
| written_null : written w JNull
| written_bool b : written w (JBool b)
| written_num n : written w (JNum n)
| written_str s : written_string w s -> written w (JStr s)
| written_arr l : Forall (written w) l -> written w (JArr l)
| written_obj o : Forall (fun kv => written_string w (fst kv)) o -> Forall (fun kv => written w (snd kv)) o -> written w (JObj o)
with written_string (w : jsstr -> jsstr) : jsstr -> Prop :=
| written_string_ s t : str_wf s -> is_well_formed s = true -> sloppy s t -> w s = double_quote_unit :: t ++ [double_quote_unit] -> written_string w s.

(** What becomes of one unit. *)
Definition quoted_unit (u : Z) : jsstr :=
  if u =? double_quote_unit then [backslash; double_quote_unit]
  else if u =? backslash then [backslash; backslash]
  else if isControlCharacter u then escapeControlCharacter u
  else [u].

Lemma quote_unit_plain u : unit_ok u -> is_high u = false -> is_low u = false -> quote_unit u = quoted_unit u.
Proof.
  intros [Hu _] Hh Hl. unfold quote_unit, quoted_unit, isControlCharacter, escapeControlCharacter, double_quote_unit, backslash. rewrite Hh, Hl, !orb_false_r.
  destruct (Z.eqb_spec u 0x22); [done|]. destruct (Z.eqb_spec u 0x5C); [done|]. destruct (Z.leb_spec 0 u); [cbn [andb]|lia].
  destruct (Z.ltb_spec u 0x20), (Z.leb_spec u 0x1F); try lia.
  - destruct (Z.eqb_spec u 8), (Z.eqb_spec u 9), (Z.eqb_spec u 10), (Z.eqb_spec u 12), (Z.eqb_spec u 13); try lia; try done.
    unfold unicode_escape, letter_u. rewrite (Z.div_small u 4096), (Z.div_small u 256), (Z.mod_small (u / 16)) by first [lia|split; [apply Z.div_pos; lia|apply Z.div_lt_upper_bound; lia]]. done.
  - destruct (Z.eqb_spec u 8), (Z.eqb_spec u 9), (Z.eqb_spec u 10), (Z.eqb_spec u 12), (Z.eqb_spec u 13); try lia; done.
Qed.

Lemma surrogate_unit u : is_high u = true \/ is_low u = true -> quoted_unit u = [u].
Proof.
  intros H. assert (0xD800 <= u) as Hu by (unfold is_high, is_low in H; destruct H; bool_lia). unfold quoted_unit, isControlCharacter, double_quote_unit, backslash.
  by rewrite !(proj2 (Z.eqb_neq u _)), (proj2 (Z.leb_gt u 0x1F)), andb_false_r by lia.
Qed.

Lemma quote_body_units s : str_wf s -> is_well_formed s = true -> quote_body s = concat (quoted_unit <$> s).
Proof.
  remember (length s) as n eqn:Hn. revert s Hn. induction (lt_wf n) as [n _ IH]. intros [|u s] -> Hs Hw; [done|]. apply Forall_cons in Hs as [Hu Hs].
  rewrite is_well_formed_cons in Hw. cbn [quote_body]. destruct (is_high u) eqn:Hh.
  - destruct s as [|l s]; [done|]. apply andb_true_iff in Hw as [Hl Hw]. rewrite Hl. cbn [andb fmap list_fmap concat]. apply Forall_cons in Hs as [_ Hs].
    rewrite !surrogate_unit by auto. rewrite (IH (length s)); [done|cbn; lia|done..].
  - apply andb_true_iff in Hw as [Hl Hw]. apply negb_true_iff in Hl. cbn [andb fmap list_fmap concat]. rewrite <- quote_unit_plain by done.
    destruct s as [|l s]; [by rewrite app_nil_r|]. f_equal. apply (IH (length (l :: s))); [cbn; lia|done..].
Qed.

(** * Inside a string *)

Lemma repair_escape c k : valid_json_escape c = true -> c <> letter_u -> repair true (backslash :: c :: k) = backslash :: c :: repair true k.
Proof. intros Hv Hu. cbn [repair negb]. rewrite Hv, (proj2 (Z.eqb_neq c letter_u) Hu). done. Qed.

Lemma repair_string s t k : sloppy s t -> repair true (t ++ double_quote_unit :: k) = concat (quoted_unit <$> s) ++ double_quote_unit :: repair false k.
Proof.
  induction 1 as [|u s t Hq Hb _ IH|s t _ IH|s t _ IH|c s t Hc _ IH]; cbn [app fmap list_fmap concat].
  - done.
  - rewrite <- app_assoc, <- IH. cbn [repair negb]. unfold quoted_unit. rewrite !(proj2 (Z.eqb_neq u _)) by done. by destruct (isControlCharacter u).
  - rewrite repair_escape by done. by rewrite IH.
  - rewrite repair_escape by done. by rewrite IH.
  - cbn [app] in IH. rewrite <- app_assoc, <- IH. cbn [repair negb]. rewrite Hc. destruct (Z.eqb_spec c letter_u) as [->|Hu]; [done|]. done.
Qed.

(** * Outside *)

Lemma repair_plain t k : plain t -> repair false (t ++ k) = t ++ repair false k.
Proof.
  induction 1 as [|c t Hc _ IH]; [done|]. cbn. rewrite (proj2 (Z.eqb_neq c double_quote_unit)) by (unfold double_quote_unit; lia). by rewrite IH.
Qed.

Lemma js_plain (s : string) : forallb (fun c => 0x23 <=? c) (js s) = true -> plain (js s).
Proof. intros H. apply forallb_Forall in H. eapply Forall_impl; [exact H|]. intros c. apply Z.leb_le. Qed.

Section Values.
Variable w : jsstr -> jsstr.

Definition restores (text : jsstr) (target : jsstr) : Prop := forall k, repair false (text ++ k) = target ++ repair false k.

Lemma restores_plain t : plain t -> restores t t.
Proof. intros H k. by apply repair_plain. Qed.

Lemma restores_app a a' b b' : restores a a' -> restores b b' -> restores (a ++ b) (a' ++ b').
Proof. intros Ha Hb k. by rewrite <- app_assoc, Ha, Hb, app_assoc. Qed.

Lemma restores_cons c a a' : c <> double_quote_unit -> restores a a' -> restores (c :: a) (c :: a').
Proof. intros Hc Ha k. cbn. rewrite (proj2 (Z.eqb_neq c double_quote_unit) Hc). by rewrite Ha. Qed.

Lemma restores_string s : written_string w s -> restores (w s) (stringify_str s).
Proof.
  intros [s' t Hs Hw Hsl E] k. rewrite E. unfold stringify_str. cbn [app repair negb]. change (double_quote_unit =? double_quote_unit) with true.
  rewrite <- app_assoc. cbn [app]. rewrite (repair_string _ _ _ Hsl), (quote_body_units _ Hs Hw), <- app_assoc. done.
Qed.

Lemma restores_items open close l l' : open <> double_quote_unit -> close <> double_quote_unit -> Forall2 restores l l' -> restores (items_text open close l) (items_text open close l').
Proof.
  intros Ho Hc Hl. apply restores_cons; [done|]. assert (forall l l', Forall2 restores l l' -> restores (rest_text close l) (rest_text close l')) as Hr.
  { clear -Hc. induction 1 as [|t t' l l' Ht _ IH]; cbn; [apply restores_cons; [done|intros k; done]|]. apply restores_cons; [done|]. by apply restores_app. }
  destruct Hl as [|t t' l l' Ht Hl]; [apply restores_cons; [done|by intros k]|]. apply restores_app; [done|by apply Hr].
Qed.

Lemma restores_value v : written w v -> restores (json_text w v) (stringify v).
Proof.
  induction v as [|b|n|s|l IH|o IH] using json_ind; intros H; inversion H as [| | |? Hs|? Hl|? Hk Ho]; subst; cbn [json_text stringify].
  - by apply restores_plain, js_plain.
  - destruct b; by apply restores_plain, js_plain.
  - destruct (isFinite n); apply restores_plain; [apply number_text_plain|by apply js_plain].
  - by apply restores_string.
  - apply restores_items; [done..|]. apply Forall2_fmap_2, Forall_Forall2_diag. rewrite Forall_forall in IH, Hl |- *. intros v Hv. apply IH; [done|by apply Hl].
  - apply restores_items; [done..|]. apply Forall2_fmap_2, Forall_Forall2_diag. rewrite Forall_forall in IH, Hk, Ho |- *. intros kv Hkv. unfold member_text.
    apply restores_app; [by apply restores_string, Hk|]. apply restores_cons; [done|]. apply IH; [done|by apply Ho].
Qed.
End Values.
