(* ===== verification/AssistantFrames.v ===== *)
(** The progress of an assistant message as frames that can be stored and replayed:
    [packages/ai/src/utils/assistant-message-frame.ts].

    The message an event carries ([partial]) is the live one: when the event is
    read it may hold more than was there when the event was sent.  Every event has
    the message as it is when the event is read. *)
From S2P Require Import Prelude JsBase JsText Json JsonText JsonParse StreamingJson AiTypes.

(** * Events and frames *)

Definition with_content (content : list content_block) (m : AssistantMessage) : AssistantMessage :=
  AssistantMessage_ content (am_api m) (am_provider m) (am_model m) (am_responseModel m) (am_responseId m) (am_providerThinkingLevel m)
    (am_diagnostics m) (am_usage m) (am_stopReason m) (am_deferred m) (am_errorMessage m) (am_rawStopReason m) (am_endTurn m) (am_timestamp m).

Inductive AssistantMessageEvent : Type :=
| EvStart (partial : AssistantMessage)
| EvTextStart (contentIndex : Z) (partial : AssistantMessage)
| EvTextDelta (contentIndex : Z) (delta : jsstr) (partial : AssistantMessage)
| EvTextEnd (contentIndex : Z) (content : jsstr) (partial : AssistantMessage)
| EvThinkingStart (contentIndex : Z) (partial : AssistantMessage)
| EvThinkingDelta (contentIndex : Z) (delta : jsstr) (partial : AssistantMessage)
| EvThinkingEnd (contentIndex : Z) (content : jsstr) (partial : AssistantMessage)
| EvToolcallStart (contentIndex : Z) (partial : AssistantMessage)
| EvToolcallDelta (contentIndex : Z) (delta : jsstr) (partial : AssistantMessage)
| EvToolcallEnd (contentIndex : Z) (toolCall : ToolCall) (partial : AssistantMessage)
| EvDone (message : AssistantMessage)
| EvError (error : AssistantMessage).

Inductive AssistantMessageFrame : Type :=
| FrStart (partial : AssistantMessage)
| FrTextStart (contentIndex : Z) (content : TextContent)
| FrTextDelta (contentIndex : Z) (delta : jsstr)
| FrTextEnd (contentIndex : Z) (content : jsstr) (textSignature : option jsstr)
| FrThinkingStart (contentIndex : Z) (content : ThinkingContent)
| FrThinkingDelta (contentIndex : Z) (delta : jsstr)
| FrThinkingEnd (contentIndex : Z) (content : jsstr) (thinkingSignature : option jsstr) (redacted : option bool)
| FrToolcallStart (contentIndex : Z) (toolCall : ToolCall)
| FrToolcallCheckpoint (contentIndex : Z) (json_ : jsstr)
| FrToolcallDelta (contentIndex : Z) (delta : jsstr)
| FrToolcallEnd (contentIndex : Z) (id name : jsstr) (arguments : json) (thoughtSignature namespace : option jsstr).

Inductive block_kind : Type := KText | KThinking | KToolCall.
#[export] Instance block_kind_eq_dec : EqDecision block_kind.
Proof. solve_decision. Defined.

Definition kind_of (b : content_block) : block_kind :=
  match b with BlockText _ => KText | BlockThinking _ => KThinking | BlockToolCall _ => KToolCall end.

(** The errors of the encoder and the reducer. *)
Inductive frame_err : Type :=
| AfterTerminal
| MoreThanOneStart
| BeforeStart
| InvalidContentIndex (contentIndex : Z)
| NoContentBlock (contentIndex : Z)
| WrongBlock (contentIndex : Z) (found : block_kind)
| StartsTwice (contentIndex : Z)
| NotStarted (contentIndex : Z)
| AlreadyExists (contentIndex : Z)
| LeavesGap (contentIndex : Z)
| FollowsEnd (contentIndex : Z).

Definition assertContentIndex (contentIndex : Z) : result frame_err unit :=
  throw_if (negb ((0 <=? contentIndex) && (contentIndex <=? MAX_SAFE_INTEGER))) (InvalidContentIndex contentIndex).

Definition eventBlock (contentIndex : Z) (partial : AssistantMessage) : result frame_err content_block :=
  assertContentIndex contentIndex;;
  ok_or (NoContentBlock contentIndex) (am_content partial !! Z.to_nat contentIndex).

(** A start message has no content yet, and nothing of how the message ends. *)
Definition cloneStartMessage (m : AssistantMessage) : AssistantMessage :=
  AssistantMessage_ [] (am_api m) (am_provider m) (am_model m) (am_responseModel m) (am_responseId m) (am_providerThinkingLevel m)
    (am_diagnostics m) (am_usage m) StopPending None None None None (am_timestamp m).

Definition serializedArguments (argumentsValue : json) : jsstr := stringify argumentsValue.

(** [Object.is] on what is not an object. *)
Fixpoint isJsonPrefix (snapshot current : json) : bool :=
  match snapshot with
  | JStr s => match current with JStr c => starts_with c s | _ => false end
  | JArr l =>
      match current with
      | JArr c =>
          (fix every l c :=
             match l, c with
             | [], _ => true
             | v :: l, w :: c => isJsonPrefix v w && every l c
             | _, [] => false
             end) l c
      | _ => false
      end
  | JObj o =>
      match current with
      | JObj c =>
          (fix every o :=
             match o with
             | [] => true
             | (key, value) :: o => match obj_get c key with Some w => isJsonPrefix value w | None => false end && every o
             end) o
      | _ => false
      end
  | _ => json_beq snapshot current
  end.

Section Frames.
Variable partialParse : jsstr -> option json.
Abbreviation parseStreaming := (parseStreamingJson partialParse).

(** * The encoder *)

Inductive EncoderBlockState : Type :=
| EncText (thinking : bool) (coveredChars deltaChars : nat)
| EncToolCall (caughtUp : bool) (catchupJson snapshotArguments : jsstr).

Definition enc_kind (s : EncoderBlockState) : block_kind :=
  match s with EncText false _ _ => KText | EncText true _ _ => KThinking | EncToolCall _ _ _ => KToolCall end.

Record Encoder : Type := Encoder_ { en_started : bool; en_terminal : bool; en_blocks : gmap Z EncoderBlockState }.

Definition new_Encoder : Encoder := Encoder_ false false ∅.

Definition EMPTY_PARSED_TOOL_ARGUMENTS : jsstr := serializedArguments (parseStreaming []).

Definition set_blocks (blocks : gmap Z EncoderBlockState) (st : Encoder) : Encoder := Encoder_ (en_started st) (en_terminal st) blocks.

Definition startBlock (contentIndex : Z) (state : EncoderBlockState) (st : Encoder) : result frame_err Encoder :=
  assertContentIndex contentIndex;;
  throw_if (bool_decide (is_Some (en_blocks st !! contentIndex))) (StartsTwice contentIndex);;
  Ok (set_blocks (<[contentIndex := state]> (en_blocks st)) st).

Definition block (contentIndex : Z) (kind : block_kind) (st : Encoder) : result frame_err EncoderBlockState :=
  assertContentIndex contentIndex;;
  state ← ok_or (NotStarted contentIndex) (en_blocks st !! contentIndex);
  throw_if (negb (bool_decide (enc_kind state = kind))) (WrongBlock contentIndex (enc_kind state));;
  Ok state.

Definition endBlock (contentIndex : Z) (kind : block_kind) (st : Encoder) : result frame_err Encoder :=
  block contentIndex kind st;;
  Ok (set_blocks (delete contentIndex (en_blocks st)) st).

Definition encodeTextDelta (contentIndex : Z) (delta : jsstr) (thinking : bool) (st : Encoder) : result frame_err (Encoder * option AssistantMessageFrame) :=
  state ← block contentIndex (if thinking then KThinking else KText) st;
  match state with
  | EncToolCall _ _ _ => Err (WrongBlock contentIndex KToolCall)
  | EncText thinking' coveredChars deltaStart =>
      let st := set_blocks (<[contentIndex := EncText thinking' coveredChars (deltaStart + length delta)]> (en_blocks st)) st in
      let covered := (coveredChars - deltaStart)%nat in
      if (length delta <=? covered)%nat then Ok (st, None)
      else
        let uncovered := drop covered delta in
        Ok (st, Some (if thinking then FrThinkingDelta contentIndex uncovered else FrTextDelta contentIndex uncovered))
  end.

Definition encodeToolcallDelta (contentIndex : Z) (delta : jsstr) (st : Encoder) : result frame_err (Encoder * option AssistantMessageFrame) :=
  state ← block contentIndex KToolCall st;
  match state with
  | EncText _ _ _ => Err (WrongBlock contentIndex KText)
  | EncToolCall caughtUp catchupJson snapshotArguments =>
      if caughtUp then Ok (st, if bool_decide (delta = []) then None else Some (FrToolcallDelta contentIndex delta))
      else
        let catchupJson := catchupJson ++ delta in
        let argumentsValue := parseStreaming catchupJson in
        let update state := set_blocks (<[contentIndex := state]> (en_blocks st)) st in
        if negb (bool_decide (serializedArguments argumentsValue = snapshotArguments)) && negb (isJsonPrefix (parseStreaming snapshotArguments) argumentsValue)
        then Ok (update (EncToolCall false catchupJson snapshotArguments), None)
        else Ok (update (EncToolCall true [] []), if bool_decide (catchupJson = []) then None else Some (FrToolcallCheckpoint contentIndex catchupJson))
  end.

Definition wrong_block {A} (contentIndex : Z) (content : content_block) : result frame_err A := Err (WrongBlock contentIndex (kind_of content)).

Definition encode (event : AssistantMessageEvent) (st : Encoder) : result frame_err (Encoder * option AssistantMessageFrame) :=
  if en_terminal st then Err AfterTerminal
  else
    let unless_started (m : result frame_err (Encoder * option AssistantMessageFrame)) := if en_started st then m else Err BeforeStart in
    match event with
    | EvStart partial =>
        throw_if (en_started st) MoreThanOneStart;;
        Ok (Encoder_ true (en_terminal st) (en_blocks st), Some (FrStart (cloneStartMessage partial)))
    | EvDone _ => unless_started (Ok (Encoder_ (en_started st) true (en_blocks st), None))
    | EvError _ => Ok (Encoder_ (en_started st) true (en_blocks st), None)
    | EvTextStart i partial =>
        unless_started (content ← eventBlock i partial;
          match content with
          | BlockText c => st ← startBlock i (EncText false (length (tc_text c)) 0) st; Ok (st, Some (FrTextStart i c))
          | _ => wrong_block i content
          end)
    | EvTextDelta i delta _ => unless_started (encodeTextDelta i delta false st)
    | EvTextEnd i text partial =>
        unless_started (content ← eventBlock i partial;
          match content with
          | BlockText c => st ← endBlock i KText st; Ok (st, Some (FrTextEnd i text (tc_textSignature c)))
          | _ => wrong_block i content
          end)
    | EvThinkingStart i partial =>
        unless_started (content ← eventBlock i partial;
          match content with
          | BlockThinking c => st ← startBlock i (EncText true (length (th_thinking c)) 0) st; Ok (st, Some (FrThinkingStart i c))
          | _ => wrong_block i content
          end)
    | EvThinkingDelta i delta _ => unless_started (encodeTextDelta i delta true st)
    | EvThinkingEnd i text partial =>
        unless_started (content ← eventBlock i partial;
          match content with
          | BlockThinking c => st ← endBlock i KThinking st; Ok (st, Some (FrThinkingEnd i text (th_thinkingSignature c) (th_redacted c)))
          | _ => wrong_block i content
          end)
    | EvToolcallStart i partial =>
        unless_started (content ← eventBlock i partial;
          match content with
          | BlockToolCall c =>
              let snapshotArguments := serializedArguments (tool_arguments c) in
              let caughtUp := bool_decide (snapshotArguments = EMPTY_PARSED_TOOL_ARGUMENTS) in
              st ← startBlock i (EncToolCall caughtUp [] (if caughtUp then [] else snapshotArguments)) st;
              Ok (st, Some (FrToolcallStart i c))
          | _ => wrong_block i content
          end)
    | EvToolcallDelta i delta _ => unless_started (encodeToolcallDelta i delta st)
    | EvToolcallEnd i toolCall partial =>
        unless_started (content ← eventBlock i partial;
          match content with
          | BlockToolCall _ =>
              st ← endBlock i KToolCall st;
              Ok (st, Some (FrToolcallEnd i (tool_id toolCall) (tool_name toolCall) (tool_arguments toolCall) (tool_thoughtSignature toolCall) (tool_namespace toolCall)))
          | _ => wrong_block i content
          end)
    end.

(** The frames of a stream of events. *)
Fixpoint encode_events (events : list AssistantMessageEvent) (st : Encoder) : result frame_err (Encoder * list AssistantMessageFrame) :=
  match events with
  | [] => Ok (st, [])
  | event :: events =>
      encoded ← encode event st;
      rest ← encode_events events (fst encoded);
      Ok (fst rest, option_list (snd encoded) ++ snd rest)
  end.

(** * The reducer *)

Record ReducerBlockState : Type := ReducerBlock { rb_kind : block_kind; rb_ended : bool; rb_json : jsstr }.

(** The locals of [reduceAssistantMessageFrames] once there is a message. *)
Record Reducer : Type := Reducer_ { re_message : AssistantMessage; re_states : gmap Z ReducerBlockState }.

Definition set_content (content : list content_block) (r : Reducer) : Reducer := Reducer_ (with_content content (re_message r)) (re_states r).

Definition appendBlock (contentIndex : Z) (block : content_block) (r : Reducer) : result frame_err Reducer :=
  assertContentIndex contentIndex;;
  let content := am_content (re_message r) in
  throw_if (negb (contentIndex =? len content)) (if contentIndex <? len content then AlreadyExists contentIndex else LeavesGap contentIndex);;
  Ok (Reducer_ (with_content (content ++ [block]) (re_message r)) (<[contentIndex := ReducerBlock (kind_of block) false []]> (re_states r))).

Definition activeBlock (contentIndex : Z) (expectedKind : block_kind) (r : Reducer) : result frame_err (content_block * ReducerBlockState) :=
  assertContentIndex contentIndex;;
  match re_states r !! contentIndex, am_content (re_message r) !! Z.to_nat contentIndex with
  | Some state, Some block =>
      throw_if (negb (bool_decide (rb_kind state = expectedKind)) || negb (bool_decide (kind_of block = expectedKind))) (WrongBlock contentIndex (kind_of block));;
      throw_if (rb_ended state) (FollowsEnd contentIndex);;
      Ok (block, state)
  | _, _ => Err (NotStarted contentIndex)
  end.

Definition put_block (contentIndex : Z) (block : content_block) (state : ReducerBlockState) (r : Reducer) : Reducer :=
  Reducer_ (with_content (<[Z.to_nat contentIndex := block]> (am_content (re_message r))) (re_message r)) (<[contentIndex := state]> (re_states r)).

Definition end_state (s : ReducerBlockState) : ReducerBlockState := ReducerBlock (rb_kind s) true (rb_json s).

Definition with_arguments (arguments : json) (c : ToolCall) : ToolCall :=
  ToolCall_ (tool_id c) (tool_name c) arguments (tool_thoughtSignature c) (tool_namespace c).

(** A frame after the start. *)
Definition reduce_frame (r : Reducer) (frame : AssistantMessageFrame) : result frame_err Reducer :=
  match frame with
  | FrStart _ => Err MoreThanOneStart
  | FrTextStart i c => appendBlock i (BlockText c) r
  | FrTextDelta i delta =>
      found ← activeBlock i KText r;
      match found with
      | (BlockText c, state) => Ok (put_block i (BlockText (TextContent_ (tc_text c ++ delta) (tc_textSignature c))) state r)
      | (other, _) => wrong_block i other
      end
  | FrTextEnd i content textSignature =>
      found ← activeBlock i KText r;
      match found with
      | (BlockText _, state) => Ok (put_block i (BlockText (TextContent_ content textSignature)) (end_state state) r)
      | (other, _) => wrong_block i other
      end
  | FrThinkingStart i c => appendBlock i (BlockThinking c) r
  | FrThinkingDelta i delta =>
      found ← activeBlock i KThinking r;
      match found with
      | (BlockThinking c, state) => Ok (put_block i (BlockThinking (ThinkingContent_ (th_thinking c ++ delta) (th_thinkingSignature c) (th_redacted c))) state r)
      | (other, _) => wrong_block i other
      end
  | FrThinkingEnd i content thinkingSignature redacted =>
      found ← activeBlock i KThinking r;
      match found with
      | (BlockThinking _, state) => Ok (put_block i (BlockThinking (ThinkingContent_ content thinkingSignature redacted)) (end_state state) r)
      | (other, _) => wrong_block i other
      end
  | FrToolcallStart i c => appendBlock i (BlockToolCall c) r
  | FrToolcallCheckpoint i json_ =>
      found ← activeBlock i KToolCall r;
      match found with
      | (BlockToolCall c, state) => Ok (put_block i (BlockToolCall (with_arguments (parseStreaming json_) c)) (ReducerBlock KToolCall (rb_ended state) json_) r)
      | (other, _) => wrong_block i other
      end
  | FrToolcallDelta i delta =>
      found ← activeBlock i KToolCall r;
      match found with
      | (BlockToolCall c, state) => Ok (put_block i (BlockToolCall c) (ReducerBlock KToolCall (rb_ended state) (rb_json state ++ delta)) r)
      | (other, _) => wrong_block i other
      end
  | FrToolcallEnd i id name arguments thoughtSignature namespace =>
      found ← activeBlock i KToolCall r;
      match found with
      | (BlockToolCall _, state) => Ok (put_block i (BlockToolCall (ToolCall_ id name arguments thoughtSignature namespace)) (end_state state) r)
      | (other, _) => wrong_block i other
      end
  end.

(** The arguments of the calls that have not ended are parsed last. *)
Definition settle_block (states : gmap Z ReducerBlockState) (i : nat) (b : content_block) : content_block :=
  match states !! Z.of_nat i, b with
  | Some state, BlockToolCall c => if rb_ended state || bool_decide (rb_json state = []) then b else BlockToolCall (with_arguments (parseStreaming (rb_json state)) c)
  | _, _ => b
  end.

Definition settle_reducer (r : Reducer) : AssistantMessage := with_content (imap (settle_block (re_states r)) (am_content (re_message r))) (re_message r).

(** Frames before the start are noted, and refused when a start follows. *)
Fixpoint reduce_before (early : bool) (frames : list AssistantMessageFrame) : result frame_err (option AssistantMessage) :=
  match frames with
  | [] => Ok None
  | FrStart partial :: frames =>
      throw_if early BeforeStart;;
      r ← foldM reduce_frame (Reducer_ partial ∅) frames;
      Ok (Some (settle_reducer r))
  | _ :: frames => reduce_before true frames
  end.

Definition reduceAssistantMessageFrames (frames : list AssistantMessageFrame) : result frame_err (option AssistantMessage) := reduce_before false frames.
End Frames.
