(* ===== verification/AssistantFramesSpec.v ===== *)
(** What frames replay to: the content of each block as the events tell it. *)
From S2P Require Import Prelude JsBase JsText Json JsonText JsonParse StreamingJson AiTypes AssistantFrames.

Section Spec.
Variable partialParse : jsstr -> option json.
Abbreviation parseStreaming := (parseStreamingJson partialParse).

(** * What the events tell *)

(** A block with what it held when its start was read and the deltas since; for a
    call, whether the arguments the deltas make have reached those it held. *)
Inductive told_block : Type :=
| ToldText (c : TextContent) (deltas : jsstr)
| ToldThinking (c : ThinkingContent) (deltas : jsstr)
| ToldCall (c : ToolCall) (deltas : jsstr) (reached : bool)
| ToldDone (b : content_block).

(** The part of the deltas that was not there at the start. *)
Definition beyond (start deltas : jsstr) : jsstr := start ++ drop (length start) deltas.

Definition shown (b : told_block) : content_block :=
  match b with
  | ToldText c deltas => BlockText (TextContent_ (beyond (tc_text c) deltas) (tc_textSignature c))
  | ToldThinking c deltas => BlockThinking (ThinkingContent_ (beyond (th_thinking c) deltas) (th_thinkingSignature c) (th_redacted c))
  | ToldCall c deltas reached =>
      BlockToolCall (with_arguments (if reached && negb (bool_decide (deltas = [])) then parseStreaming deltas else tool_arguments c) c)
  | ToldDone b => b
  end.

Definition reaches (c : ToolCall) (deltas : jsstr) : bool :=
  bool_decide (serializedArguments (parseStreaming deltas) = serializedArguments (tool_arguments c))
  || isJsonPrefix (parseStreaming (serializedArguments (tool_arguments c))) (parseStreaming deltas).

Definition told_start (b : content_block) : told_block :=
  match b with
  | BlockText c => ToldText c []
  | BlockThinking c => ToldThinking c []
  | BlockToolCall c => ToldCall c [] (bool_decide (serializedArguments (tool_arguments c) = serializedArguments (JObj [])))
  end.

Definition told_delta (delta : jsstr) (b : told_block) : told_block :=
  match b with
  | ToldText c deltas => ToldText c (deltas ++ delta)
  | ToldThinking c deltas => ToldThinking c (deltas ++ delta)
  | ToldCall c deltas reached => ToldCall c (deltas ++ delta) (reached || reaches c (deltas ++ delta))
  | ToldDone b => ToldDone b
  end.

(** The last word on a block is what its end event says, with the signatures the
    message holds then. *)
Definition told_end (event : AssistantMessageEvent) (held : content_block) : content_block :=
  match event, held with
  | EvTextEnd _ text _, BlockText c => BlockText (TextContent_ text (tc_textSignature c))
  | EvThinkingEnd _ text _, BlockThinking c => BlockThinking (ThinkingContent_ text (th_thinkingSignature c) (th_redacted c))
  | EvToolcallEnd _ call _, _ => BlockToolCall call
  | _, _ => held
  end.

Definition tell (event : AssistantMessageEvent) (blocks : list told_block) : list told_block :=
  match event with
  | EvTextStart i m | EvThinkingStart i m | EvToolcallStart i m => blocks ++ option_list (told_start <$> am_content m !! Z.to_nat i)
  | EvTextDelta i delta _ | EvThinkingDelta i delta _ | EvToolcallDelta i delta _ => alter (told_delta delta) (Z.to_nat i) blocks
  | EvTextEnd i _ m | EvThinkingEnd i _ m | EvToolcallEnd i _ m =>
      match am_content m !! Z.to_nat i with
      | Some held => <[Z.to_nat i := ToldDone (told_end event held)]> blocks
      | None => blocks
      end
  | EvStart _ | EvDone _ | EvError _ => blocks
  end.

Definition tell_all (events : list AssistantMessageEvent) (blocks : list told_block) : list told_block := foldl (fun blocks event => tell event blocks) blocks events.

(** Blocks start in order, [n] of them before. *)
Fixpoint in_order (n : nat) (events : list AssistantMessageEvent) : Prop :=
  match events with
  | [] => True
  | (EvTextStart i _ | EvThinkingStart i _ | EvToolcallStart i _) :: events => i = Z.of_nat n /\ in_order (S n) events
  | _ :: events => in_order n events
  end.

(** * Encoder and reducer in step *)

Definition block_rel (enc : option EncoderBlockState) (red : ReducerBlockState) (content : content_block) (b : told_block) : Prop :=
  match b with
  | ToldText c deltas => enc = Some (EncText false (length (tc_text c)) (length deltas)) /\ red = ReducerBlock KText false [] /\ content = shown b
  | ToldThinking c deltas => enc = Some (EncText true (length (th_thinking c)) (length deltas)) /\ red = ReducerBlock KThinking false [] /\ content = shown b
  | ToldCall c deltas reached =>
      let json_ := if reached then deltas else [] in
      enc = Some (EncToolCall reached (if reached then [] else deltas) (if reached then [] else serializedArguments (tool_arguments c))) /\
      red = ReducerBlock KToolCall false json_ /\
      exists a, content = BlockToolCall (with_arguments a c) /\ (json_ = [] -> a = tool_arguments c)
  | ToldDone b => enc = None /\ rb_kind red = kind_of b /\ rb_ended red = true /\ content = b
  end.

Record in_step (m0 : AssistantMessage) (st : Encoder) (r : Reducer) (blocks : list told_block) : Prop := {
  step_started : en_started st = true;
  step_message : re_message r = with_content (am_content (re_message r)) m0;
  step_length : length (am_content (re_message r)) = length blocks;
  step_blocks i b : blocks !! i = Some b ->
    exists red content, re_states r !! Z.of_nat i = Some red /\ am_content (re_message r) !! i = Some content /\
      block_rel (en_blocks st !! Z.of_nat i) red content b;
  step_none i : (length blocks <= i)%nat -> en_blocks st !! Z.of_nat i = None;
}.

Lemma index_ok i : assertContentIndex i = Ok tt -> 0 <= i /\ Z.of_nat (Z.to_nat i) = i.
Proof. unfold assertContentIndex. intros H. apply throw_if_Ok, negb_false_iff, andb_true_iff in H as [H _]. apply Z.leb_le in H. split; [done|lia]. Qed.

Lemma step_append m0 st r blocks b enc :
  in_step m0 st r blocks -> assertContentIndex (len blocks) = Ok tt ->
  block_rel (Some enc) (ReducerBlock (kind_of b) false []) b (told_start b) ->
  exists r', appendBlock (len blocks) b r = Ok r' /\ in_step m0 (set_blocks (<[len blocks := enc]> (en_blocks st)) st) r' (blocks ++ [told_start b]).
Proof.
  intros [H1 H2 H3 H4 H5] Hi Hb. unfold appendBlock. rewrite Hi. cbn [mbind result_bind]. replace (len (am_content (re_message r))) with (len blocks) by (unfold len; congruence).
  rewrite Z.eqb_refl. cbn. eexists. split; [done|]. split; cbn.
  - done.
  - by rewrite H2.
  - rewrite !length_app. cbn. lia.
  - intros i b' Hb'. apply lookup_app_Some in Hb' as [Hb'|[Hle Hb']].
    + destruct (H4 i b' Hb') as (red & content & Hr & Hc & Hrel). apply lookup_lt_Some in Hb'. exists red, content. unfold len.
      rewrite !lookup_insert_ne by lia. split; [done|]. split; [by apply lookup_app_l_Some|done].
    + apply list_lookup_singleton_Some in Hb' as [Hi0 <-]. assert (i = length blocks) as -> by lia. unfold len. rewrite !lookup_insert_eq.
      eexists _, b. split; [done|]. split; [rewrite <- H3; by apply list_lookup_middle|done].
  - intros i Hi'. rewrite length_app in Hi'. cbn in Hi'. unfold len. rewrite lookup_insert_ne by lia. apply H5. lia.
Qed.

(** A change of one block, on all sides. *)
Lemma step_change m0 st st' r blocks i b b' red content :
  in_step m0 st r blocks -> 0 <= i -> blocks !! Z.to_nat i = Some b -> block_rel (en_blocks st' !! i) red content b' ->
  en_started st' = true -> (forall j, j <> i -> en_blocks st' !! j = en_blocks st !! j) ->
  in_step m0 st' (put_block i content red r) (<[Z.to_nat i := b']> blocks).
Proof.
  intros [H1 H2 H3 H4 H5] Hi Hb Hrel Hs He. pose proof (lookup_lt_Some _ _ _ Hb) as Hlt. split; cbn.
  - done.
  - by rewrite H2.
  - by rewrite !length_insert.
  - intros j bj Hj. destruct (decide (j = Z.to_nat i)) as [->|Hne].
    + rewrite list_lookup_insert_eq in Hj by done. injection Hj as <-. rewrite Z2Nat.id by done. exists red, content. rewrite lookup_insert_eq.
      split; [done|]. split; [apply list_lookup_insert_eq; lia|done].
    + rewrite list_lookup_insert_ne in Hj by done. destruct (H4 j bj Hj) as (red' & content' & Hr & Hc & Hrel'). exists red', content'.
      rewrite lookup_insert_ne by lia. rewrite list_lookup_insert_ne by done. rewrite He by lia. done.
  - intros j Hj. rewrite length_insert in Hj. rewrite He by lia. by apply H5.
Qed.

(** A change only the encoder knows of. *)
Lemma step_keep m0 st st' r blocks i b b' red content :
  in_step m0 st r blocks -> 0 <= i -> blocks !! Z.to_nat i = Some b ->
  re_states r !! i = Some red -> am_content (re_message r) !! Z.to_nat i = Some content -> block_rel (en_blocks st' !! i) red content b' ->
  en_started st' = true -> (forall j, j <> i -> en_blocks st' !! j = en_blocks st !! j) ->
  in_step m0 st' r (<[Z.to_nat i := b']> blocks).
Proof.
  intros H Hi Hb Hr Hc Hrel Hs He. pose proof (step_change m0 st st' r blocks i b b' red content H Hi Hb Hrel Hs He) as Hst.
  destruct r as [m states]. unfold put_block in Hst. cbn [re_message re_states] in *. rewrite (list_insert_id _ _ _ Hc), (insert_id _ _ _ Hr) in Hst.
  destruct m. exact Hst.
Qed.

(** The block that an accepted event names. *)
Lemma step_block m0 st r blocks i kind state :
  in_step m0 st r blocks -> block i kind st = Ok state ->
  0 <= i /\ assertContentIndex i = Ok tt /\ en_blocks st !! i = Some state /\ enc_kind state = kind /\
  exists b red content, blocks !! Z.to_nat i = Some b /\ re_states r !! i = Some red /\ am_content (re_message r) !! Z.to_nat i = Some content /\
    block_rel (Some state) red content b.
Proof.
  intros H Hb. unfold block in Hb. res_inv. destruct x. destruct (index_ok i H0) as [Hi Hz]. apply negb_false_iff, bool_decide_eq_true in H2.
  split_and!; try done. destruct (blocks !! Z.to_nat i) as [b|] eqn:Eb.
  - destruct (step_blocks _ _ _ _ H _ _ Eb) as (red & content & Hr & Hc & Hrel). rewrite Hz, H1 in *. eauto 10.
  - apply lookup_ge_None in Eb. pose proof (step_none _ _ _ _ H _ Eb) as Hn. rewrite Hz in Hn. congruence.
Qed.

Lemma active_ok i kind r red content :
  assertContentIndex i = Ok tt -> re_states r !! i = Some red -> am_content (re_message r) !! Z.to_nat i = Some content ->
  rb_kind red = kind -> kind_of content = kind -> rb_ended red = false -> activeBlock i kind r = Ok (content, red).
Proof. intros Hi Hr Hc <- Hk He. unfold activeBlock. rewrite Hi. cbn. rewrite Hr, Hc, He, !bool_decide_true by done. done. Qed.

Lemma beyond_within start deltas delta : (length delta <= length start - length deltas)%nat -> beyond start (deltas ++ delta) = beyond start deltas.
Proof.
  intros H. unfold beyond. f_equal. rewrite drop_app. destruct (decide (length start <= length deltas)%nat).
  - assert (delta = []) as -> by (destruct delta; [done|cbn in H; lia]). by rewrite drop_nil, app_nil_r.
  - rewrite (drop_ge delta) by lia. by rewrite app_nil_r.
Qed.

Lemma beyond_app start deltas delta : beyond start (deltas ++ delta) = beyond start deltas ++ drop (length start - length deltas) delta.
Proof. unfold beyond. by rewrite drop_app, app_assoc. Qed.

Lemma alter_told i delta (blocks : list told_block) b : blocks !! Z.to_nat i = Some b -> alter (told_delta delta) (Z.to_nat i) blocks = <[Z.to_nat i := told_delta delta b]> blocks.
Proof.
  intros H. apply list_eq. intros j. destruct (decide (j = Z.to_nat i)) as [->|Hne].
  - rewrite list_lookup_alter_eq, list_lookup_insert_eq by (by eapply lookup_lt_Some). by rewrite H.
  - by rewrite list_lookup_alter_ne, list_lookup_insert_ne.
Qed.

Abbreviation advances m0 st' r blocks frame := (exists r', foldM (reduce_frame partialParse) r (option_list frame) = Ok r' /\ in_step m0 st' r' blocks).

Lemma one_frame r f r' : reduce_frame partialParse r f = Ok r' -> foldM (reduce_frame partialParse) r (option_list (Some f)) = Ok r'.
Proof. intros H. change (option_list (Some f)) with [f]. cbn [foldM]. by rewrite H. Qed.

Lemma text_delta_step m0 st r blocks i delta thinking st' frame :
  in_step m0 st r blocks -> encodeTextDelta i delta thinking st = Ok (st', frame) ->
  advances m0 st' r (alter (told_delta delta) (Z.to_nat i) blocks) frame.
Proof.
  intros H He. unfold encodeTextDelta in He. apply bind_Ok in He as (x & Hx & He). destruct (step_block _ _ _ _ _ _ _ H Hx) as (Hi & Ha & Hen & Hk & b & red & content & Hb & Hr & Hc & Hrel).
  rewrite (alter_told _ _ _ _ Hb). destruct x as [th covered ds|]; [|done].
  assert (Hgo : forall start deltas, covered = length start -> ds = length deltas -> kind_of content = enc_kind (EncText th covered ds) -> red = ReducerBlock (kind_of content) false [] ->
    (forall c', block_rel (Some (EncText th covered (ds + length delta))) red c' (told_delta delta b) <-> c' = shown (told_delta delta b)) ->
    (forall more, beyond start (deltas ++ delta) = beyond start deltas ++ more -> reduce_frame partialParse r (if thinking then FrThinkingDelta i more else FrTextDelta i more) = Ok (put_block i (shown (told_delta delta b)) red r)) ->
    (beyond start (deltas ++ delta) = beyond start deltas -> content = shown (told_delta delta b)) ->
    advances m0 st' r (<[Z.to_nat i := told_delta delta b]> blocks) frame).
  { intros start deltas -> -> Hkc Hred Hrel' Hput Hsame. destruct (Nat.leb_spec (length delta) (length start - length deltas)); injection He as <- <-.
    - exists r. split; [done|]. eapply (step_keep m0 st); try done; cbn; [|by apply step_started in H|intros j Hj; by rewrite lookup_insert_ne].
      rewrite lookup_insert_eq. apply Hrel', Hsame. by apply beyond_within.
    - eexists. split; [apply one_frame, Hput, beyond_app|]. eapply (step_change m0 st); try done; cbn; [|by apply step_started in H|intros j Hj; by rewrite lookup_insert_ne].
      rewrite lookup_insert_eq. by apply Hrel'. }
  destruct b as [c deltas|c deltas|c deltas reached|b]; cbn in Hrel; [| |by destruct Hrel as [[=] _]|by destruct Hrel as [[=] _]]; destruct Hrel as ([= -> -> ->] & -> & ->).
  - destruct thinking; [done|]. apply (Hgo (tc_text c) deltas); try done.
    + intros c'. cbn. rewrite length_app. intuition.
    + intros more E. cbn [reduce_frame]. rewrite (active_ok _ _ _ _ _ Ha Hr Hc) by done. cbn. by rewrite E.
    + cbn. by intros ->.
  - destruct thinking; [|done]. apply (Hgo (th_thinking c) deltas); try done.
    + intros c'. cbn. rewrite length_app. intuition.
    + intros more E. cbn [reduce_frame]. rewrite (active_ok _ _ _ _ _ Ha Hr Hc) by done. cbn. by rewrite E.
    + cbn. by intros ->.
Qed.

Lemma call_delta_step m0 st r blocks i delta st' frame :
  in_step m0 st r blocks -> encodeToolcallDelta partialParse i delta st = Ok (st', frame) ->
  advances m0 st' r (alter (told_delta delta) (Z.to_nat i) blocks) frame.
Proof.
  intros H He. unfold encodeToolcallDelta in He. apply bind_Ok in He as (x & Hx & He). destruct (step_block _ _ _ _ _ _ _ H Hx) as (Hi & Ha & Hen & Hk & b & red & content & Hb & Hr & Hc & Hrel).
  rewrite (alter_told _ _ _ _ Hb). destruct x as [|caught catchup snap]; [done|].
  destruct b as [c deltas|c deltas|c deltas reached|b]; cbn in Hrel; [by destruct Hrel as [[=] _]|by destruct Hrel as [[=] _]| |by destruct Hrel as [[=] _]].
  destruct Hrel as ([= -> -> ->] & -> & a & -> & Hja). destruct reached; [|set (ds := deltas ++ delta) in *].
  - injection He as <- <-. case_bool_decide as Hd.
    + subst delta. exists r. split; [done|]. cbn. rewrite app_nil_r. by rewrite (list_insert_id _ _ _ Hb).
    + eexists. split; [apply one_frame; cbn [reduce_frame]; rewrite (active_ok _ _ _ _ _ Ha Hr Hc) by done; done|].
      eapply (step_change m0 st); try done; [|by apply step_started in H]. rewrite Hen. cbn. split_and!; [done|done|]. exists a. split; [done|]. by intros [_ ?]%app_nil.
  - cbn [told_delta orb]. fold ds. unfold reaches.
    destruct (bool_decide (serializedArguments (parseStreaming ds) = serializedArguments (tool_arguments c)) || isJsonPrefix (parseStreaming (serializedArguments (tool_arguments c))) (parseStreaming ds)) eqn:Er.
    + assert (negb (bool_decide (serializedArguments (parseStreaming ds) = serializedArguments (tool_arguments c))) && negb (isJsonPrefix (parseStreaming (serializedArguments (tool_arguments c))) (parseStreaming ds)) = false) as En
        by (rewrite <- negb_orb, Er; done).
      rewrite En in He. injection He as <- <-. destruct (bool_decide_reflect (ds = [])) as [Hd|Hd].
      * exists r. split; [done|]. eapply (step_keep m0 st); try done; cbn; [|by apply step_started in H|intros j Hj; by rewrite lookup_insert_ne].
        rewrite lookup_insert_eq, Hd. split_and!; [done|done|]. exists a. split; [done|]. intros _. by apply Hja.
      * eexists. split; [apply one_frame; cbn [reduce_frame]; rewrite (active_ok _ _ _ _ _ Ha Hr Hc) by done; done|].
        eapply (step_change m0 st); try done; cbn; [|by apply step_started in H|intros j Hj; by rewrite lookup_insert_ne].
        rewrite lookup_insert_eq. split_and!; [done|done|]. exists (parseStreaming ds). split; [done|]. by intros E.
    + assert (negb (bool_decide (serializedArguments (parseStreaming ds) = serializedArguments (tool_arguments c))) && negb (isJsonPrefix (parseStreaming (serializedArguments (tool_arguments c))) (parseStreaming ds)) = true) as En
        by (rewrite <- negb_orb, Er; done).
      rewrite En in He. injection He as <- <-. exists r. split; [done|].
      eapply (step_keep m0 st); try done; cbn; [|by apply step_started in H|intros j Hj; by rewrite lookup_insert_ne].
      rewrite lookup_insert_eq. split_and!; [done|done|]. by exists a.
Qed.

Lemma event_block i m b : eventBlock i m = Ok b -> assertContentIndex i = Ok tt /\ am_content m !! Z.to_nat i = Some b.
Proof. unfold eventBlock. intros H. res_inv. by destruct x. Qed.

Lemma start_step m0 st r blocks i m b enc st' :
  in_step m0 st r blocks -> i = len blocks -> eventBlock i m = Ok b -> startBlock i enc st = Ok st' ->
  block_rel (Some enc) (ReducerBlock (kind_of b) false []) b (told_start b) ->
  exists r', appendBlock i b r = Ok r' /\ in_step m0 st' r' (blocks ++ option_list (told_start <$> am_content m !! Z.to_nat i)).
Proof.
  intros H -> [Ha Hm]%event_block Hs Hrel. unfold startBlock in Hs. rewrite Ha in Hs. cbn in Hs. res_inv. rewrite Hm. cbn. by apply step_append.
Qed.

Lemma end_step m0 st r blocks i m held kind st' frame new :
  in_step m0 st r blocks -> eventBlock i m = Ok held -> endBlock i kind st = Ok st' -> kind_of held = kind -> kind_of new = kind ->
  (forall content red, kind_of content = kind -> activeBlock i kind r = Ok (content, red) -> reduce_frame partialParse r frame = Ok (put_block i new (end_state red) r)) ->
  advances m0 st' r (match am_content m !! Z.to_nat i with Some _ => <[Z.to_nat i := ToldDone new]> blocks | None => blocks end) (Some frame).
Proof.
  intros H [Ha Hm]%event_block He Hkh Hkn Hf. rewrite Hm. unfold endBlock in He. apply bind_Ok in He as (state & Hb & [= <-]).
  destruct (step_block _ _ _ _ _ _ _ H Hb) as (Hi & _ & Hen & Hk & b & red & content & Hbl & Hr & Hc & Hrel).
  assert (rb_kind red = kind /\ kind_of content = kind /\ rb_ended red = false) as (Hrk & Hck & Hre).
  { destruct b as [c deltas|c deltas|c deltas reached|b]; cbn in Hrel.
    - destruct Hrel as ([= ->] & -> & ->). cbn in Hk. by subst.
    - destruct Hrel as ([= ->] & -> & ->). cbn in Hk. by subst.
    - destruct Hrel as ([= ->] & -> & a & -> & _). cbn in Hk. by subst.
    - by destruct Hrel as [? _]. }
  eexists. split; [apply one_frame; eapply Hf; [exact Hck|by apply active_ok]|].
  eapply (step_change m0 st); try done; cbn; [|by apply step_started in H|intros j Hj; by rewrite lookup_delete_ne].
  rewrite lookup_delete_eq. split_and!; [done|by rewrite Hrk, Hkn|done|done].
Qed.

Lemma empty_arguments : EMPTY_PARSED_TOOL_ARGUMENTS partialParse = serializedArguments (JObj []).
Proof. done. Qed.

Definition next_index (event : AssistantMessageEvent) (n : nat) : Prop :=
  match event with EvTextStart i _ | EvThinkingStart i _ | EvToolcallStart i _ => i = Z.of_nat n | _ => True end.

Lemma encode_step m0 st r blocks event st' frame :
  in_step m0 st r blocks -> next_index event (length blocks) -> encode partialParse event st = Ok (st', frame) ->
  advances m0 st' r (tell event blocks) frame.
Proof.
  intros H Hn He. unfold encode in He. pose proof (step_started _ _ _ _ H) as Hs. rewrite Hs in He. destruct (en_terminal st); [done|].
  assert (forall b, in_step m0 (Encoder_ (en_started st) b (en_blocks st)) r blocks) as Hterm by (intros b; by destruct H).
  destruct event as [m|i m|i d m|i t m|i m|i d m|i t m|i m|i d m|i c m|m|m]; cbn [tell next_index] in *.
  - done.
  - apply bind_Ok in He as (b & Hb & He). destruct b as [c| |]; [|done..]. apply bind_Ok in He as (st1 & Hst & [= <- <-]).
    destruct (start_step m0 st r blocks i m _ _ _ H Hn Hb Hst) as (r' & Hr & Hi); [cbn; unfold beyond; by rewrite drop_nil, app_nil_r; destruct c|].
    exists r'. split; [by apply one_frame|done].
  - by apply (text_delta_step m0 st r blocks i d false).
  - apply bind_Ok in He as (b & Hb & He). destruct b as [c| |]; [|done..]. apply bind_Ok in He as (st1 & Hst & [= <- <-]). pose proof (event_block _ _ _ Hb) as [_ Hm].
    pose proof (end_step m0 st r blocks i m _ KText st1 (FrTextEnd i t (tc_textSignature c)) (BlockText (TextContent_ t (tc_textSignature c))) H Hb Hst eq_refl eq_refl) as Hstep.
    rewrite Hm in *. apply Hstep. intros content red Hck Hac. cbn [reduce_frame]. rewrite Hac. by destruct content.
  - apply bind_Ok in He as (b & Hb & He). destruct b as [|c|]; [done| |done]. apply bind_Ok in He as (st1 & Hst & [= <- <-]).
    destruct (start_step m0 st r blocks i m _ _ _ H Hn Hb Hst) as (r' & Hr & Hi); [cbn; unfold beyond; by rewrite drop_nil, app_nil_r; destruct c|].
    exists r'. split; [by apply one_frame|done].
  - by apply (text_delta_step m0 st r blocks i d true).
  - apply bind_Ok in He as (b & Hb & He). destruct b as [|c|]; [done| |done]. apply bind_Ok in He as (st1 & Hst & [= <- <-]). pose proof (event_block _ _ _ Hb) as [_ Hm].
    pose proof (end_step m0 st r blocks i m _ KThinking st1 (FrThinkingEnd i t (th_thinkingSignature c) (th_redacted c)) (BlockThinking (ThinkingContent_ t (th_thinkingSignature c) (th_redacted c))) H Hb Hst eq_refl eq_refl) as Hstep.
    rewrite Hm in *. apply Hstep. intros content red Hck Hac. cbn [reduce_frame]. rewrite Hac. by destruct content.
  - apply bind_Ok in He as (b & Hb & He). destruct b as [| |c]; [done..|]. apply bind_Ok in He as (st1 & Hst & [= <- <-]).
    destruct (start_step m0 st r blocks i m _ _ _ H Hn Hb Hst) as (r' & Hr & Hi).
    { rewrite empty_arguments. cbn -[serializedArguments]. destruct (bool_decide (serializedArguments (tool_arguments c) = serializedArguments (JObj []))); (split_and!; [done|done|]); exists (tool_arguments c); by destruct c. }
    exists r'. split; [by apply one_frame|done].
  - by apply (call_delta_step m0 st r blocks i d).
  - apply bind_Ok in He as (b & Hb & He). destruct b as [| |c0]; [done..|]. apply bind_Ok in He as (st1 & Hst & [= <- <-]). pose proof (event_block _ _ _ Hb) as [_ Hm].
    pose proof (end_step m0 st r blocks i m _ KToolCall st1 (FrToolcallEnd i (tool_id c) (tool_name c) (tool_arguments c) (tool_thoughtSignature c) (tool_namespace c)) (BlockToolCall c) H Hb Hst eq_refl eq_refl) as Hstep.
    rewrite Hm in *. apply Hstep. intros content red Hck Hac. cbn [reduce_frame]. rewrite Hac. destruct content; [done..|]. by destruct c.
  - injection He as <- <-. rewrite <- Hs. exists r. split; [done|apply Hterm].
  - injection He as <- <-. rewrite <- Hs. exists r. split; [done|apply Hterm].
Qed.

Lemma tell_length event blocks st st' frame : encode partialParse event st = Ok (st', frame) ->
  length (tell event blocks) = match event with EvTextStart _ _ | EvThinkingStart _ _ | EvToolcallStart _ _ => S (length blocks) | _ => length blocks end.
Proof.
  intros He. destruct event as [m|i m|i d m|i t m|i m|i d m|i t m|i m|i d m|i c m|m|m]; cbn [tell]; rewrite ?length_alter; try done;
    try (destruct (am_content m !! Z.to_nat i); by rewrite ?length_insert);
    (unfold encode in He; destruct (en_terminal st); [done|]; destruct (en_started st); [|done]; apply bind_Ok in He as (b & [_ Hb]%event_block & _);
     rewrite Hb, length_app; cbn; lia).
Qed.

Lemma encode_events_step m0 events st r blocks st' frames :
  in_step m0 st r blocks -> in_order (length blocks) events -> encode_events partialParse events st = Ok (st', frames) ->
  exists r', foldM (reduce_frame partialParse) r frames = Ok r' /\ in_step m0 st' r' (tell_all events blocks).
Proof.
  revert st r blocks frames. induction events as [|event events IH]; intros st r blocks frames H Ho He; cbn [encode_events] in He.
  - injection He as <- <-. by exists r.
  - apply bind_Ok in He as ([st1 frame] & Hev & He). apply bind_Ok in He as ([st2 rest] & Hrest & [= <- <-]). cbn [fst snd] in *.
    assert (next_index event (length blocks) /\ in_order (length (tell event blocks)) events) as [Hn Ho'].
    { rewrite (tell_length _ _ _ _ _ Hev). destruct event; cbn in Ho |- *; tauto. }
    destruct (encode_step _ _ _ _ _ _ _ H Hn Hev) as (r1 & Hr1 & H1). destruct (IH st1 r1 _ _ H1 Ho' Hrest) as (r' & Hr' & H').
    exists r'. split; [|done]. by rewrite foldM_app, Hr1.
Qed.

(** A block that starts out of order is not taken. *)
Lemma encode_step_disordered m0 st r blocks event st' frame :
  in_step m0 st r blocks -> ~ next_index event (length blocks) -> encode partialParse event st = Ok (st', frame) ->
  exists e, foldM (reduce_frame partialParse) r (option_list frame) = Err e.
Proof.
  intros H Hn He. unfold encode in He. rewrite (step_started _ _ _ _ H) in He. destruct (en_terminal st); [done|].
  assert (forall i b, i <> Z.of_nat (length blocks) -> exists e, appendBlock i b r = Err e) as Hap.
  { intros i b Hi. unfold appendBlock. destruct (assertContentIndex i) as [u|e]; cbn; [|by exists e].
    destruct (Z.eqb_spec i (len (am_content (re_message r)))) as [E|E]; cbn; [|by eexists]. unfold len in E. by rewrite (step_length _ _ _ _ H) in E. }
  destruct event as [m|i m|i d m|i t m|i m|i d m|i t m|i m|i d m|i c m|m|m]; cbn [next_index] in Hn; try tauto;
    apply bind_Ok in He as (b & Hb & He); (destruct b as [c|c|c]; try discriminate He); apply bind_Ok in He as (st1 & Hst & [= <- <-]);
    change (option_list (Some ?f)) with [f]; cbn [foldM reduce_frame]; [destruct (Hap i (BlockText c) Hn) as [e ->]|destruct (Hap i (BlockThinking c) Hn) as [e ->]|destruct (Hap i (BlockToolCall c) Hn) as [e ->]]; by exists e.
Qed.

#[export] Instance next_index_dec event n : Decision (next_index event n).
Proof. destruct event; cbn; apply _. Defined.

Lemma encode_events_disordered m0 events st r blocks st' frames :
  in_step m0 st r blocks -> ~ in_order (length blocks) events -> encode_events partialParse events st = Ok (st', frames) ->
  exists e, foldM (reduce_frame partialParse) r frames = Err e.
Proof.
  revert st r blocks frames. induction events as [|event events IH]; intros st r blocks frames H Ho He; cbn [encode_events] in He; [by destruct Ho|].
  apply bind_Ok in He as ([st1 frame] & Hev & He). apply bind_Ok in He as ([st2 rest] & Hrest & [= <- <-]). cbn [fst snd] in *. rewrite foldM_app.
  destruct (decide (next_index event (length blocks))) as [Hn|Hn].
  - destruct (encode_step _ _ _ _ _ _ _ H Hn Hev) as (r1 & -> & H1). apply (IH st1 r1 (tell event blocks)); [done| |done].
    rewrite (tell_length _ _ _ _ _ Hev). intros Ho'. apply Ho. destruct event; cbn in Hn, Ho' |- *; tauto.
  - destruct (encode_step_disordered _ _ _ _ _ _ _ H Hn Hev) as [e ->]. by exists e.
Qed.

Lemma settle_shown m0 st r blocks : in_step m0 st r blocks -> settle_reducer partialParse r = with_content (shown <$> blocks) m0.
Proof.
  intros H. unfold settle_reducer. assert (forall c, with_content c (re_message r) = with_content c m0) as -> by (intros c; by rewrite (step_message _ _ _ _ H)). f_equal.
  apply list_eq. intros i. rewrite list_lookup_imap, list_lookup_fmap. destruct (blocks !! i) as [b|] eqn:Eb.
  - destruct (step_blocks _ _ _ _ H i b Eb) as (red & content & Hr & -> & Hrel). cbn. f_equal. unfold settle_block. rewrite Hr.
    destruct b as [c deltas|c deltas|c deltas reached|b]; cbn in Hrel.
    + by destruct Hrel as (_ & _ & ->).
    + by destruct Hrel as (_ & _ & ->).
    + destruct Hrel as (_ & -> & a & -> & Ha). cbn. destruct reached; cbn; [case_bool_decide as Hd; cbn; [by rewrite (Ha Hd)|done]|by rewrite (Ha eq_refl)].
    + destruct Hrel as (_ & Hk & He & ->). destruct b; [done..|]. by rewrite He.
  - apply lookup_ge_None in Eb. rewrite <- (step_length _ _ _ _ H) in Eb. by rewrite (lookup_ge_None_2 _ _ Eb).
Qed.

Lemma started_in_step partial : in_step (cloneStartMessage partial) (Encoder_ true false ∅) (Reducer_ (cloneStartMessage partial) ∅) [].
Proof. split; try done. Qed.

(** A start later than what it tells of loses nothing. *)
Lemma beyond_prefix start deltas : start `prefix_of` deltas -> beyond start deltas = deltas.
Proof. intros [more ->]. unfold beyond. by rewrite drop_app_length. Qed.
End Spec.
