(* ===== verification/SerialQueue.v ===== *)
(** Calls that run one after the other: [packages/agent/src/harness/session/mutation-line.ts],
    and the [commitQueue] that the storages keep, which is the same chain of
    promises without the seal.

    An operation is a tree of turns: what it does until it waits, and how it goes
    on.  Between two turns anything else may happen; the line only promises that
    no other operation of the same line runs. *)
From S2P Require Import Prelude.

(** * Operations *)

Inductive job (W E R : Type) : Type :=
| Done (r : result E R)
| Turn (step : W -> W * job W E R).
Arguments Done {W E R} r.
Arguments Turn {W E R} step.

(** Induction on the turns that are left. *)
Lemma job_turns {W E R} (P : job W E R -> Prop) : (forall r, P (Done r)) -> (forall step, (forall w, P (snd (step w))) -> P (Turn step)) -> forall j, P j.
Proof.
  intros Hd Ht. refine (fix IH (j : job W E R) : P j := _). destruct j as [r|step]; [apply Hd|]. apply Ht. intros w. exact (IH (snd (step w))).
Qed.

(** All its turns, with nothing in between. *)
Fixpoint run_job {W E R} (j : job W E R) (w : W) : W * result E R :=
  match j with
  | Done r => (w, r)
  | Turn step => let '(w', j') := step w in run_job j' w'
  end.

(** All its turns, with something else before each: [others] says what may happen. *)
Inductive interleaved {W E R} (others : W -> W -> Prop) : job W E R -> W -> W -> result E R -> Prop :=
| interleaved_done r w : interleaved others (Done r) w w r
| interleaved_turn step w w1 w2 j w' r : others w w1 -> step w1 = (w2, j) -> interleaved others j w2 w' r -> interleaved others (Turn step) w w' r.

(** All its turns, the next of [between] before each. *)
Fixpoint run_between {W E R} (between : list (W -> W)) (j : job W E R) (w : W) : W * result E R :=
  match j with
  | Done r => (w, r)
  | Turn step => let '(w', j') := step (match between with [] => w | f :: _ => f w end) in run_between (drop 1 between) j' w'
  end.

Lemma run_between_interleaved {W E R} (others : W -> W -> Prop) between (j : job W E R) w w' r :
  (forall w, others w w) -> Forall (fun f => forall w, others w (f w)) between -> run_between between j w = (w', r) -> interleaved others j w w' r.
Proof.
  intros Ho. revert between w. induction j as [r0|step IH] using job_turns; intros between w Hb H; cbn in H; [injection H as <- <-; constructor|].
  set (w0 := match between with [] => w | f :: _ => f w end) in *. assert (others w w0) as H0 by (destruct Hb as [|f between Hf Hb]; [apply Ho|apply Hf]).
  destruct (step w0) as [w1 j] eqn:Es. specialize (IH w0 (drop 1 between)). rewrite Es in IH. eapply interleaved_turn; [exact H0|exact Es|]. apply IH; [|done].
  by destruct Hb.
Qed.

(** At most [n] turns, whatever it finds. *)
Inductive within {W E R} : nat -> job W E R -> Prop :=
| within_done n r : within n (Done r)
| within_turn n step : (forall w, within n (snd (step w))) -> within (S n) (Turn step).

Lemma within_S {W E R} n (j : job W E R) : within n j -> within (S n) j.
Proof. induction 1 as [n r|n step Hs IH]; by constructor. Qed.

(** * The line *)

Inductive slot (W E R : Type) : Type :=
| Waiting (operation : job W E R)
| Running (rest : job W E R).
Arguments Waiting {W E R} operation.
Arguments Running {W E R} rest.

(** [ln_tail] holds the calls that are not settled yet, in order; a call is known
    by its number. *)
Record MutationLine (W E R : Type) : Type := Line_ {
  ln_tail : list (nat * slot W E R);
  ln_issued : nat;
  ln_settled : list (nat * result E R);
  ln_sealedError : option E;
}.
Arguments Line_ {W E R}.
Arguments ln_tail {W E R}.
Arguments ln_issued {W E R}.
Arguments ln_settled {W E R}.
Arguments ln_sealedError {W E R}.

Section Line.
Context {W E R : Type}.
Implicit Types (l : MutationLine W E R) (w : W) (j : job W E R).

Definition new_MutationLine : MutationLine W E R := Line_ [] 0 [] None.

(** A call that is turned away at once. *)
Definition reject (e : E) l : MutationLine W E R :=
  Line_ (ln_tail l) (S (ln_issued l)) (ln_settled l ++ [(ln_issued l, Err e)]) (ln_sealedError l).

Definition run (operation : job W E R) l : MutationLine W E R :=
  match ln_sealedError l with
  | Some e => reject e l
  | None => Line_ (ln_tail l ++ [(ln_issued l, Waiting operation)]) (S (ln_issued l)) (ln_settled l) (ln_sealedError l)
  end.

Definition seal (error : E) l : MutationLine W E R :=
  Line_ (ln_tail l) (ln_issued l) (ln_settled l) (match ln_sealedError l with Some e => Some e | None => Some error end).

Definition settle (n : nat) (r : result E R) (rest : list (nat * slot W E R)) l : MutationLine W E R :=
  Line_ rest (ln_issued l) (ln_settled l ++ [(n, r)]) (ln_sealedError l).

(** The next turn of the line.  An operation starts when its place comes, unless
    the line was sealed meanwhile. *)
Definition turn (x : W * MutationLine W E R) : W * MutationLine W E R :=
  let '(w, l) := x in
  match ln_tail l with
  | [] => (w, l)
  | (n, Waiting operation) :: rest =>
      match ln_sealedError l with
      | Some e => (w, settle n (Err e) rest l)
      | None =>
          match operation with
          | Done r => (w, settle n r rest l)
          | Turn step => let '(w', j) := step w in (w', Line_ ((n, Running j) :: rest) (ln_issued l) (ln_settled l) None)
          end
      end
  | (n, Running (Done r)) :: rest => (w, settle n r rest l)
  | (n, Running (Turn step)) :: rest =>
      let '(w', j) := step w in (w', Line_ ((n, Running j) :: rest) (ln_issued l) (ln_settled l) (ln_sealedError l))
  end.

(** * Schedules *)

Inductive event : Type :=
| Call (operation : job W E R)
| Reject (error : E)
| Seal (error : E)
| Next.

Definition step_event (x : W * MutationLine W E R) (e : event) : W * MutationLine W E R :=
  match e with
  | Call operation => (fst x, run operation (snd x))
  | Reject error => (fst x, reject error (snd x))
  | Seal error => (fst x, seal error (snd x))
  | Next => turn x
  end.

Definition schedule (x : W * MutationLine W E R) (evs : list event) : W * MutationLine W E R := foldl step_event x evs.

Fixpoint turns (evs : list event) : nat :=
  match evs with
  | [] => 0
  | Next :: evs => S (turns evs)
  | _ :: evs => turns evs
  end.
End Line.
Arguments event : clear implicits.

(** * One after the other

    [drained] is where the line ends up, when nothing else is called: it does not
    depend on the turns already taken. *)

Section Serial.
Context {W E R : Type}.
Implicit Types (l : MutationLine W E R) (w : W) (j : job W E R) (x : W * MutationLine W E R).

Definition run_slot (sealed : option E) (s : slot W E R) (w : W) : W * result E R :=
  match s, sealed with
  | Waiting _, Some e => (w, Err e)
  | Waiting operation, None => run_job operation w
  | Running rest, _ => run_job rest w
  end.

Fixpoint run_slots (sealed : option E) (w : W) (slots : list (nat * slot W E R)) : W * list (nat * result E R) :=
  match slots with
  | [] => (w, [])
  | (n, s) :: slots =>
      let '(w1, r) := run_slot sealed s w in
      let '(w2, rs) := run_slots sealed w1 slots in
      (w2, (n, r) :: rs)
  end.

Definition drained (x : W * MutationLine W E R) : W * list (nat * result E R) :=
  let '(w, rs) := run_slots (ln_sealedError (snd x)) (fst x) (ln_tail (snd x)) in (w, ln_settled (snd x) ++ rs).

(** Whole operations, one after the other, by the number of their call. *)
Fixpoint outcomes (n : nat) (evs : list (event W E R)) (w : W) : W * list (nat * result E R) :=
  match evs with
  | [] => (w, [])
  | Call op :: evs =>
      let '(w1, r) := run_job op w in
      let '(w2, rs) := outcomes (S n) evs w1 in
      (w2, (n, r) :: rs)
  | Reject e :: evs => let '(w1, rs) := outcomes (S n) evs w in (w1, (n, Err e) :: rs)
  | _ :: evs => outcomes n evs w
  end.

Lemma run_slots_app sealed w a b :
  run_slots sealed w (a ++ b) = let '(w1, rs1) := run_slots sealed w a in let '(w2, rs2) := run_slots sealed w1 b in (w2, rs1 ++ rs2).
Proof.
  revert w. induction a as [|[n s] a IH]; intros w; cbn; [by destruct (run_slots sealed w b)|].
  destruct (run_slot sealed s w) as [w1 r]. rewrite IH. destruct (run_slots sealed w1 a) as [w2 rs]. by destruct (run_slots sealed w2 b).
Qed.

Lemma drained_settle w n r rest l :
  drained (w, settle n r rest l) = let '(w', rs) := run_slots (ln_sealedError l) w rest in (w', ln_settled l ++ (n, r) :: rs).
Proof. unfold drained, settle. cbn. destruct (run_slots _ w rest). by rewrite <- app_assoc. Qed.

Lemma drained_turn x : drained (turn x) = drained x.
Proof.
  destruct x as [w [tail issued settled sealed]]. unfold turn. cbn [ln_tail ln_sealedError ln_issued ln_settled].
  destruct tail as [|[n [op|j]] tail]; [done|destruct sealed as [e|]; [|destruct op as [r|step]]|destruct j as [r|step]].
  - rewrite drained_settle. unfold drained. cbn. by destruct (run_slots _ w tail).
  - rewrite drained_settle. unfold drained. cbn. by destruct (run_slots _ w tail).
  - unfold drained. cbn. destruct (step w) as [w' j']. cbn. by destruct (run_job j' w').
  - rewrite drained_settle. unfold drained. cbn. by destruct (run_slots _ w tail).
  - unfold drained. cbn. destruct (step w) as [w' j']. cbn. by destruct (run_job j' w').
Qed.

Definition unsealed (evs : list (event W E R)) : Prop := Forall (fun e => match e with Seal _ => False | _ => True end) evs.

Lemma turn_sealed x : ln_sealedError (snd (turn x)) = ln_sealedError (snd x).
Proof.
  destruct x as [w [tail issued settled sealed]]. unfold turn, settle. cbn.
  destruct tail as [|[n [op|j]] tail]; [done|destruct sealed as [e|]; [|destruct op as [r|step]]|destruct j as [r|step]]; try destruct (step w) as [w' j']; done.
Qed.

Lemma turn_issued x : ln_issued (snd (turn x)) = ln_issued (snd x).
Proof.
  destruct x as [w [tail issued settled sealed]]. unfold turn, settle. cbn.
  destruct tail as [|[n [op|j]] tail]; [done|destruct sealed as [e|]; [|destruct op as [r|step]]|destruct j as [r|step]]; try destruct (step w) as [w' j']; done.
Qed.

(** However calls and turns interleave, the operations run whole, in the order
    they were called in. *)
Lemma schedule_drained evs x :
  unsealed evs -> ln_sealedError (snd x) = None ->
  fst (drained (schedule x evs)) = fst (outcomes (ln_issued (snd x)) evs (fst (drained x))) /\
  snd (drained (schedule x evs)) ≡ₚ snd (drained x) ++ snd (outcomes (ln_issued (snd x)) evs (fst (drained x))).
Proof.
  unfold schedule. revert x. induction evs as [|e evs IH]; intros x Hu Hs; [by rewrite app_nil_r|].
  apply Forall_cons in Hu as [He Hu]. cbn [foldl]. destruct e as [op|err|err|]; [| |done|].
  - destruct (IH (step_event x (Call op)) Hu) as [-> ->]; [cbn; unfold run; by rewrite Hs|]. destruct x as [w [tail issued settled sealed]]. cbn in Hs |- *. subst sealed.
    unfold run, drained. cbn. rewrite run_slots_app. destruct (run_slots None w tail) as [w1 rs1]. cbn.
    destruct (run_job op w1) as [w2 r]. cbn. destruct (outcomes (S issued) evs w2) as [w3 rs3]. by rewrite <- !app_assoc.
  - destruct (IH (step_event x (Reject err)) Hu Hs) as [-> ->]. destruct x as [w [tail issued settled sealed]]. cbn in Hs |- *. subst sealed.
    unfold reject, drained. cbn. destruct (run_slots None w tail) as [w1 rs1]. cbn. destruct (outcomes (S issued) evs w1) as [w3 rs3]. split; [done|].
    cbn. rewrite <- !app_assoc. apply Permutation_app_head. cbn. apply Permutation_middle.
  - cbn [step_event outcomes]. destruct (IH (turn x) Hu) as [-> ->]; [by rewrite turn_sealed|]. by rewrite drained_turn, turn_issued.
Qed.
End Serial.

(** * Every call settles, once *)

Section Settling.
Context {W E R : Type}.
Implicit Types (l : MutationLine W E R) (w : W) (j : job W E R) (x : W * MutationLine W E R).

Definition slot_job (s : slot W E R) : job W E R := match s with Waiting op => op | Running rest => rest end.

(** A turn either settles the first call or takes one turn off it. *)
Lemma turn_head x n s rest m :
  ln_tail (snd x) = (n, s) :: rest -> within m (slot_job s) ->
  (exists r, ln_tail (snd (turn x)) = rest /\ ln_settled (snd (turn x)) = ln_settled (snd x) ++ [(n, r)]) \/
  (exists m' s', m = S m' /\ within m' (slot_job s') /\ ln_tail (snd (turn x)) = (n, s') :: rest /\ ln_settled (snd (turn x)) = ln_settled (snd x)).
Proof.
  destruct x as [w [tail issued settled sealed]]. cbn. intros -> Hw.
  destruct s as [op|j]; cbn in *; [destruct sealed as [e|]; [left; by eexists|]; rename op into j|];
    (inversion Hw as [k r|k step Hk]; subst; [left; by eexists|]; right; exists k;
     specialize (Hk w); destruct (step w) as [w' j']; cbn in *; by exists (Running j')).
Qed.

Lemma turn_settled x : ln_settled (snd x) `prefix_of` ln_settled (snd (turn x)).
Proof.
  destruct x as [w [tail issued settled sealed]]. unfold turn, settle. cbn. repeat case_match; cbn; try done; by apply prefix_app_r.
Qed.

Lemma step_settled x e : ln_settled (snd x) `prefix_of` ln_settled (snd (step_event x e)).
Proof.
  destruct e; cbn; [|by apply prefix_app_r|done|apply turn_settled]. unfold run. case_match; cbn; [by apply prefix_app_r|done].
Qed.

Lemma schedule_settled evs x : ln_settled (snd x) `prefix_of` ln_settled (snd (schedule x evs)).
Proof.
  unfold schedule. revert x. induction evs as [|e evs IH]; intros x; cbn; [done|]. etrans; [apply step_settled|apply IH].
Qed.

(** The calls at the front settle within their turns, whatever is called
    meanwhile. *)
Lemma schedule_settles evs x front rest ms :
  ln_tail (snd x) = front ++ rest -> Forall2 (fun m ns => within m (slot_job (snd ns))) ms front ->
  (sum_list (S <$> ms) <= turns evs)%nat -> front.*1 ⊆ (ln_settled (snd (schedule x evs))).*1.
Proof.
  unfold schedule. revert x front rest ms. induction evs as [|e evs IH]; intros x front rest ms Ht Hw Hn; cbn [foldl turns] in *.
  { inversion Hw; subst; [set_solver|cbn in Hn; lia]. }
  destruct e as [op|err|err|].
  - destruct (ln_sealedError (snd x)) as [e|] eqn:Es.
    + apply (IH _ front rest ms); [|done|done]. cbn. unfold run. by rewrite Es.
    + apply (IH (fst x, run op (snd x)) front (rest ++ [(ln_issued (snd x), Waiting op)]) ms); [|done|done]. cbn. unfold run. rewrite Es. cbn.
      by rewrite Ht, <- app_assoc.
  - by apply (IH _ front rest ms).
  - by apply (IH _ front rest ms).
  - inversion Hw as [|m [n s] ms' front' Hm Hf]; subst; [set_solver|]. cbn in Ht, Hn.
    destruct (turn_head x n s (front' ++ rest) m Ht Hm) as [(r & Ht' & Hs)|(m' & s' & -> & Hm' & Ht' & Hs)].
    + change (n :: front'.*1 ⊆ (ln_settled (snd (foldl step_event (turn x) evs))).*1). intros k Hk. apply elem_of_cons in Hk as [->|Hk].
      * destruct (schedule_settled evs (turn x)) as [more Hmore]. unfold schedule in Hmore. rewrite Hmore, Hs, !fmap_app. set_solver.
      * revert k Hk. apply (IH (turn x) front' rest ms'); [done|done|lia].
    + apply (IH (turn x) ((n, s') :: front') rest (m' :: ms')); [done|by constructor|cbn in *; lia].
Qed.

(** Every number given out is waiting or settled, and never both. *)
Definition accounted l : Prop := (ln_settled l).*1 ++ (ln_tail l).*1 ≡ₚ seq 0 (ln_issued l).

Lemma new_accounted : accounted new_MutationLine.
Proof. apply Permutation_refl. Qed.

Lemma turn_accounted x : accounted (snd x) -> accounted (snd (turn x)).
Proof.
  unfold accounted. destruct x as [w [tail issued settled sealed]]. unfold turn, settle. cbn.
  destruct tail as [|[n [op|j]] tail]; [done|destruct sealed as [e|]; [|destruct op as [r|step]]|destruct j as [r|step]];
    try destruct (step w) as [w' j']; cbn; rewrite ?fmap_app, <- ?app_assoc; done.
Qed.

Lemma reject_accounted e l : accounted l -> accounted (reject e l).
Proof.
  unfold accounted. cbn -[seq]. intros H. rewrite fmap_app, seq_S, <- H, <- !app_assoc. apply Permutation_app_head. by rewrite Permutation_app_comm.
Qed.

Lemma step_accounted x e : accounted (snd x) -> accounted (snd (step_event x e)).
Proof.
  destruct e; cbn; [|apply reject_accounted|done|apply turn_accounted]. unfold run. destruct (ln_sealedError (snd x)) as [e|]; [apply reject_accounted|]. unfold accounted.
  intros H. cbn -[seq]. by rewrite fmap_app, seq_S, <- H, app_assoc.
Qed.

Lemma schedule_accounted evs x : accounted (snd x) -> accounted (snd (schedule x evs)).
Proof. unfold schedule. revert x. induction evs as [|e evs IH]; intros x H; cbn; [done|]. by apply IH, step_accounted. Qed.

(** * The seal *)

(** Only the first call can have started. *)
Definition one_started l : Prop := Forall (fun ns => match snd ns with Waiting _ => True | Running _ => False end) (drop 1 (ln_tail l)).

Lemma new_one_started : one_started new_MutationLine.
Proof. apply Forall_nil_2. Qed.

Lemma waiting_one_started tail issued settled sealed :
  Forall (fun ns => match snd ns with Waiting _ => True | Running _ => False end) tail -> one_started (Line_ tail issued settled sealed).
Proof. unfold one_started. cbn. intros H. destruct H; [apply Forall_nil_2|done]. Qed.

Lemma step_one_started x e : one_started (snd x) -> one_started (snd (step_event x e)).
Proof.
  destruct x as [w [tail issued settled sealed]]. destruct e as [op|err|err|]; cbn; [|done|done|].
  - unfold one_started, run. cbn. destruct sealed; cbn; [done|]. intros H. destruct tail; cbn in *; [apply Forall_nil_2|]. apply Forall_app. split; [done|]. by apply Forall_singleton.
  - intros H. unfold turn, settle. cbn.
    destruct tail as [|[n [op|j]] tail]; [done|destruct sealed as [e|]; [|destruct op as [r|step]]|destruct j as [r|step]];
      try destruct (step w) as [w' j']; cbn; first [exact H|apply waiting_one_started; exact H].
Qed.

Lemma schedule_one_started evs x : one_started (snd x) -> one_started (snd (schedule x evs)).
Proof. unfold schedule. revert x. induction evs as [|e evs IH]; intros x H; cbn; [done|]. by apply IH, step_one_started. Qed.

(** After the seal the operation that has started goes on, and no other starts:
    what the world will be is settled. *)
Lemma run_waiting e w slots :
  Forall (fun ns => match snd ns with Waiting _ => True | Running _ => False end) slots ->
  run_slots (Some e) w slots = (w, (fun ns : nat * slot W E R => (ns.1, Err e)) <$> slots).
Proof. induction 1 as [|[n [op|j]] slots Hs _ IH]; cbn; [done| |done]. by rewrite IH. Qed.

Lemma step_sealed x ev e : ln_sealedError (snd x) = Some e -> ln_sealedError (snd (step_event x ev)) = Some e.
Proof.
  destruct x as [w [tail issued settled sealed]]. cbn. intros ->. destruct ev as [op|err|err|]; cbn; [done|done|done|].
  unfold turn, settle. cbn. destruct tail as [|[n [op|[r|step]]] tail]; [done..|]. by destruct (step w).
Qed.

Lemma drained_reject e w l : fst (drained (w, reject e l)) = fst (drained (w, l)).
Proof. unfold drained. cbn. by destruct (run_slots (ln_sealedError l) w (ln_tail l)). Qed.

Lemma sealed_world evs x e :
  ln_sealedError (snd x) = Some e -> fst (drained (schedule x evs)) = fst (drained x).
Proof.
  unfold schedule. revert x. induction evs as [|ev evs IH]; intros x Hs; [done|]. cbn [foldl].
  rewrite IH by (by apply step_sealed). destruct ev as [op|err|err|]; cbn [step_event]; [| | |by rewrite drained_turn].
  - destruct x as [w l]. cbn in *. unfold run. rewrite Hs. apply drained_reject.
  - destruct x as [w l]. apply drained_reject.
  - destruct x as [w l]. cbn in *. unfold drained, seal. cbn. rewrite Hs. by destruct (run_slots (Some e) w (ln_tail l)).
Qed.
Lemma sealed_settled evs x e n r :
  ln_sealedError (snd x) = Some e -> Forall (fun ev => match ev with Reject _ => False | _ => True end) evs ->
  (n, r) ∈ snd (drained (schedule x evs)) -> (n, r) ∈ snd (drained x) \/ r = Err e.
Proof.
  unfold schedule. revert x. induction evs as [|ev evs IH]; intros x Hs Hev Hin; [by left|]. apply Forall_cons in Hev as [Hr Hev].
  destruct (IH (step_event x ev)) as [H|H]; [by apply step_sealed|done|done| |by right].
  destruct x as [w l]. destruct ev as [op|err|err|]; cbn [step_event fst snd] in *; [| |left|left].
  - unfold run in H. rewrite Hs in H. unfold drained, reject in *. cbn in *. destruct (run_slots (ln_sealedError l) w (ln_tail l)). set_solver.
  - done.
  - unfold seal, drained in *. cbn in *. rewrite Hs in *. done.
  - by rewrite drained_turn in H.
Qed.

End Settling.

(** * One operation inside another *)

Section Bind.
Context {W E E' A B : Type}.

Fixpoint bind_job (j : job W E A) (f : result E A -> job W E' B) : job W E' B :=
  match j with
  | Done r => f r
  | Turn step => Turn (fun w => let '(w', j') := step w in (w', bind_job j' f))
  end.

Lemma run_bind_job j f w : run_job (bind_job j f) w = let '(w', r) := run_job j w in run_job (f r) w'.
Proof.
  revert w. refine ((fix IH (j : job W E A) : forall w, run_job (bind_job j f) w = let '(w', r) := run_job j w in run_job (f r) w' := _) j).
  destruct j as [r|step]; intros w; cbn; [done|]. destruct (step w) as [w' j'] eqn:Es. cbn.
  specialize (IH (snd (step w))). rewrite Es in IH. apply IH.
Qed.

Lemma within_bind n m j f : within n j -> (forall r, within m (f r)) -> within (n + m) (bind_job j f).
Proof.
  intros Hj Hf. induction Hj as [n r|n step Hs IH]; cbn.
  - specialize (Hf r). induction n as [|n IHn]; [done|].
    by apply within_S.
  - constructor. intros w. specialize (IH w). by destruct (step w).
Qed.
End Bind.
