(* ===== verification/AgentLoop.v ===== *)
(** The loop of an agent: [packages/agent/src/agent-loop.ts] and the types of
    [packages/agent/src/types.ts] it works with.

    The outside world is a state: hooks, listeners, the model and the tools are
    steps on it that may throw.  The events emitted so far are kept with it.  What
    a hook is handed it reads; it changes no message in place.  A tool runs turn by
    turn ([tool_run]); tools that run at the same time take their turns in an order
    that the outside world chooses ([picks]).  A stream of a model is a finite list
    of events, each of which is waited for. *)
From S2P Require Import Prelude JsBase JsFloat JsText Json JsonText JsonParse SessionTypes AiTypes AgentMessages Transcript AssistantFrames SerialQueue.

(** * Types *)

Inductive ToolExecutionMode : Type := ModeSequential | ModeParallel.

#[export] Instance ToolExecutionMode_eq_dec : EqDecision ToolExecutionMode.
Proof. solve_decision. Defined.

(** [content] may be missing in what untyped tools return. *)
Record AgentToolResult : Type := AgentToolResult_ {
  rs_content : option (list input_block);
  rs_details : option json;
  rs_usage : option Usage;
  rs_terminate : option bool;
}.

Record BeforeToolCallResult : Type := BeforeToolCallResult_ { bt_block : option bool; bt_reason : option jsstr; bt_terminate : option bool }.

Record AfterToolCallResult : Type := AfterToolCallResult_ {
  af_content : option (list input_block);
  af_details : option json;
  af_isError : option bool;
  af_usage : option Usage;
  af_terminate : option bool;
}.

Inductive AgentTurnDecision : Type := DecideContinue | DecideEnd.

(** What the loop reads of a model. *)
Record AgentModel : Type := AgentModel_ { mo_id : jsstr; mo_api : jsstr; mo_provider : jsstr }.

Inductive AgentEvent : Type :=
| OnAgentStart
| OnAgentEnd (messages : list AgentMessage)
| OnTurnStart
| OnTurnEnd (message : AgentMessage) (toolResults : list ToolResultMessage)
| OnMessageStart (message : AgentMessage)
| OnMessageUpdate (message : AgentMessage) (assistantMessageEvent : AssistantMessageEvent)
| OnMessageEnd (message : AgentMessage)
| OnToolStart (toolCallId toolName : jsstr) (args : json)
| OnToolUpdate (toolCallId toolName : jsstr) (args : json) (partialResult : AgentToolResult)
| OnToolEnd (toolCallId toolName : jsstr) (toolResult : AgentToolResult) (isError : bool).

(** What a tool does: the partial results it reports in a turn, and how it goes on.
    What it reports after it has settled is ignored. *)
Inductive tool_run (O E : Type) : Type :=
| ToolDone (r : result E AgentToolResult)
| ToolTurn (step : O -> O * list AgentToolResult * tool_run O E).
Arguments ToolDone {O E} r.
Arguments ToolTurn {O E} step.

(** Induction on the turns that are left. *)
Lemma tool_turns {O E} (P : tool_run O E -> Prop) : (forall r, P (ToolDone r)) -> (forall step, (forall o, P (snd (step o))) -> P (ToolTurn step)) -> forall t, P t.
Proof.
  intros Hd Ht. refine (fix IH (t : tool_run O E) : P t := _). destruct t as [r|step]; [apply Hd|]. apply Ht. intros o. exact (IH (snd (step o))).
Qed.

Record AgentTool (O E : Type) : Type := AgentTool_ {
  at_tool : Tool;
  at_prepareArguments : option (json -> SM O E json);
  at_execute : jsstr -> json -> tool_run O E;
  at_executionMode : option ToolExecutionMode;
}.
Arguments AgentTool_ {O E}.
Arguments at_tool {O E}.
Arguments at_prepareArguments {O E}.
Arguments at_execute {O E}.
Arguments at_executionMode {O E}.

Record AgentContext (O E : Type) : Type := AgentContext_ { ctx_messages : list AgentMessage; ctx_tools : option (list (AgentTool O E)) }.
Arguments AgentContext_ {O E}.
Arguments ctx_messages {O E}.
Arguments ctx_tools {O E}.

(** [AgentTurnContext] *)
Record AgentTurnContext (O E : Type) : Type := AgentTurnContext_ {
  tn_message : AssistantMessage;
  tn_toolResults : list ToolResultMessage;
  tn_context : AgentContext O E;
  tn_newMessages : list AgentMessage;
}.
Arguments AgentTurnContext_ {O E}.
Arguments tn_message {O E}.
Arguments tn_toolResults {O E}.
Arguments tn_context {O E}.
Arguments tn_newMessages {O E}.

Record AgentLoopTurnUpdate (O E : Type) : Type := AgentLoopTurnUpdate_ {
  tu_context : option (AgentContext O E);
  tu_messages : option (list AgentMessage);
  tu_model : option AgentModel;
  tu_thinkingLevel : option jsstr;
}.
Arguments AgentLoopTurnUpdate_ {O E}.
Arguments tu_context {O E}.
Arguments tu_messages {O E}.
Arguments tu_model {O E}.
Arguments tu_thinkingLevel {O E}.

(** [BeforeToolCallContext] and [AfterToolCallContext]. *)
Record ToolCallContext (O E : Type) : Type := ToolCallContext_ {
  tcc_assistantMessage : AssistantMessage;
  tcc_toolCall : ToolCall;
  tcc_args : json;
  tcc_context : AgentContext O E;
}.
Arguments ToolCallContext_ {O E}.

(** [AgentLoopConfig]; [cf_reasoning] is [undefined] for the level [off]. *)
Record AgentLoopConfig (O E : Type) : Type := AgentLoopConfig_ {
  cf_model : AgentModel;
  cf_reasoning : option jsstr;
  cf_apiKey : option jsstr;
  cf_convertToLlm : list AgentMessage -> SM O E (list Message);
  cf_transformContext : option (list AgentMessage -> SM O E (list AgentMessage));
  cf_getApiKey : option (jsstr -> SM O E (option jsstr));
  cf_finishTurn : option (AgentTurnContext O E -> SM O E (option AgentTurnDecision));
  cf_prepareRequest : option (AgentContext O E -> AgentModel -> jsstr -> SM O E (option (AgentLoopTurnUpdate O E)));
  cf_prepareNextTurn : option (AgentTurnContext O E -> SM O E (option (AgentLoopTurnUpdate O E)));
  cf_getSteeringMessages : option (SM O E (list AgentMessage));
  cf_getFollowUpMessages : option (SM O E (list AgentMessage));
  cf_toolExecution : option ToolExecutionMode;
  cf_beforeToolCall : option (ToolCallContext O E -> SM O E (option BeforeToolCallResult));
  cf_afterToolCall : option (ToolCallContext O E -> AgentToolResult -> bool -> SM O E (option AfterToolCallResult));
}.
Arguments AgentLoopConfig_ {O E}.
Arguments cf_model {O E}.
Arguments cf_reasoning {O E}.
Arguments cf_apiKey {O E}.
Arguments cf_convertToLlm {O E}.
Arguments cf_transformContext {O E}.
Arguments cf_getApiKey {O E}.
Arguments cf_finishTurn {O E}.
Arguments cf_prepareRequest {O E}.
Arguments cf_prepareNextTurn {O E}.
Arguments cf_getSteeringMessages {O E}.
Arguments cf_getFollowUpMessages {O E}.
Arguments cf_toolExecution {O E}.
Arguments cf_beforeToolCall {O E}.
Arguments cf_afterToolCall {O E}.

(** [AssistantMessageEventStream]: the events, as they are waited for, and
    [result()]. *)
Record EventStream (O E : Type) : Type := EventStream_ { es_events : list (SM O E AssistantMessageEvent); es_result : SM O E AssistantMessage }.
Arguments EventStream_ {O E}.
Arguments es_events {O E}.
Arguments es_result {O E}.

(** * Tool declarations *)

Section Declare.
Context {O E : Type}.

Definition NO_CHANGES : ToolStateChanges := ToolStateChanges_ [] [].

Definition unless_empty {A} (l : list A) : option (list A) := match l with [] => None | _ => Some l end.

Definition withToolChanges (message : SystemMessage) (changes : ToolStateChanges) : SystemMessage :=
  SystemMessage_ (sy_content message) (sy_sections message) (unless_empty (ch_toolsAdded changes)) (unless_empty (ch_toolsRemoved changes)) (sy_timestamp message).

(** The last system message, between what stands before and after it. *)
Fixpoint last_system (messages : list AgentMessage) : option (list AgentMessage * SystemMessage * list AgentMessage) :=
  match messages with
  | [] => None
  | m :: rest =>
      match last_system rest with
      | Some (before, pending, after) => Some (m :: before, pending, after)
      | None => match isSystemMessage m with Some pending => Some ([], pending, rest) | None => None end
      end
  end.

(** Up to the first message that is not a system message, and the rest. *)
Fixpoint span_system (messages : list AgentMessage) : list AgentMessage * list AgentMessage :=
  match messages with
  | [] => ([], [])
  | m :: rest =>
      match isSystemMessage m with
      | Some _ => let '(front, back) := span_system rest in (m :: front, back)
      | None => ([], messages)
      end
  end.

Definition system_llm (m : SystemMessage) : AgentMessage := AgentLlm (MsgSystem m).

Definition no_changes (changes : ToolStateChanges) : bool := bool_decide (length (ch_toolsAdded changes) = 0%nat) && bool_decide (length (ch_toolsRemoved changes) = 0%nat).

Definition declareToolChanges (context : AgentContext O E) (pendingMessages : list AgentMessage) (timestamp : jsnum) : list AgentMessage :=
  let current := toToolDeclaration <$> (at_tool <$> default [] (ctx_tools context)) in
  match last_system pendingMessages with
  | Some (before, pending, after) =>
      let baseline := before ++ system_llm (withToolChanges pending NO_CHANGES) :: after in
      let changes := getToolStateChanges (getCurrentTools (ctx_messages context ++ baseline)) current in
      if no_changes changes && bool_decide (length (default [] (sy_toolsAdded pending)) = 0%nat) && bool_decide (length (default [] (sy_toolsRemoved pending)) = 0%nat)
      then pendingMessages
      else before ++ system_llm (withToolChanges pending changes) :: after
  | None =>
      let changes := getToolStateChanges (getCurrentTools (ctx_messages context ++ pendingMessages)) current in
      if no_changes changes then pendingMessages
      else
        let update := withToolChanges (SystemMessage_ (InputString []) None None None timestamp) changes in
        let '(front, back) := span_system pendingMessages in front ++ system_llm update :: back
  end.
End Declare.

(** * The world of a run *)

Record world (O : Type) : Type := World { wl_events : list AgentEvent; wl_outside : O }.
Arguments World {O}.
Arguments wl_events {O}.
Arguments wl_outside {O}.

(** What is the same during a run: the sink of events, [signal?.aborted], the
    clock, the text of an error ([error instanceof Error ? error.message :
    String(error)]), and [validateToolArguments], which hands the schema to a
    third-party compiler. *)
Record Surroundings (O E : Type) : Type := Surroundings_ {
  sr_emit : AgentEvent -> SM O E unit;
  sr_aborted : O -> bool;
  sr_now : O -> jsnum;
  sr_message : E -> jsstr;
  sr_validateToolArguments : Tool -> ToolCall -> result E json;
  sr_picks : O -> list nat;
  sr_streamFunction : AgentModel -> list Message -> option jsstr -> option jsstr -> SM O E (EventStream O E);
}.
Arguments Surroundings_ {O E}.
Arguments sr_emit {O E}.
Arguments sr_aborted {O E}.
Arguments sr_now {O E}.
Arguments sr_message {O E}.
Arguments sr_validateToolArguments {O E}.
Arguments sr_picks {O E}.
Arguments sr_streamFunction {O E}.

Section Loop.
Context {O E : Type}.
Variable sr : Surroundings O E.
#[local] Abbreviation step := (SM (world O) E).
#[local] Abbreviation turns := (job (world O) E).
Implicit Types (context : AgentContext O E) (config : AgentLoopConfig O E).

(** A step of the outside world. *)
Definition outside {A} (m : SM O E A) : step A := fun w => let '(o, r) := m (wl_outside w) in (World (wl_events w) o, r).

Definition emit (event : AgentEvent) : step unit :=
  fun w => let '(o, r) := sr_emit sr event (wl_outside w) in (World (wl_events w ++ [event]) o, r).

Definition aborted (w : world O) : bool := sr_aborted sr (wl_outside w).

(** [await hook?.(x)] *)
Definition call_hook {A B} (hook : option (A -> SM O E (option B))) (x : A) : step (option B) :=
  match hook with Some f => outside (f x) | None => mret None end.

(** [(await poll?.()) || []] *)
Definition poll (queue : option (SM O E (list AgentMessage))) : step (list AgentMessage) :=
  match queue with Some f => outside f | None => mret [] end.

(** [try { m } catch (error) { handler }] *)
Definition catching {A} (m : step A) (handler : E -> A) : step A :=
  fun w => let '(w, r) := m w in (w, Ok (match r with Ok a => a | Err e => handler e end)).

(** * The response of the model *)

(** The locals of [streamAssistantResponse]: the messages of the context, and
    whether a partial message was added to them. *)
Record Streaming : Type := Streaming_ { st_messages : list AgentMessage; st_added : bool }.

Definition assistant_llm (m : AssistantMessage) : AgentMessage := AgentLlm (MsgAssistant m).

(** [messages[messages.length - 1] = m] *)
Definition replace_last (messages : list AgentMessage) (m : AgentMessage) : list AgentMessage := removelast messages ++ [m].

Definition event_partial (event : AssistantMessageEvent) : option AssistantMessage :=
  match event with
  | EvTextStart _ p | EvTextDelta _ _ p | EvTextEnd _ _ p | EvThinkingStart _ p | EvThinkingDelta _ _ p | EvThinkingEnd _ _ p
  | EvToolcallStart _ p | EvToolcallDelta _ _ p | EvToolcallEnd _ _ p => Some p
  | _ => None
  end.

Definition finish_response (response : EventStream O E) (s : Streaming) : step (list AgentMessage * AssistantMessage) :=
  finalMessage ← outside (es_result response);
  let messages := if st_added s then replace_last (st_messages s) (assistant_llm finalMessage) else st_messages s ++ [assistant_llm finalMessage] in
  (if st_added s then mret tt else emit (OnMessageStart (assistant_llm finalMessage)));;
  emit (OnMessageEnd (assistant_llm finalMessage));;
  mret (messages, finalMessage).

Fixpoint stream_events (response : EventStream O E) (events : list (SM O E AssistantMessageEvent)) (s : Streaming) : step (list AgentMessage * AssistantMessage) :=
  match events with
  | [] => finish_response response s
  | next :: events =>
      event ← outside next;
      match event with
      | EvStart partial =>
          emit (OnMessageStart (assistant_llm partial));;
          stream_events response events (Streaming_ (st_messages s ++ [assistant_llm partial]) true)
      | EvDone _ | EvError _ => finish_response response s
      | _ =>
          match event_partial event with
          | Some partial =>
              if st_added s then
                emit (OnMessageUpdate (assistant_llm partial) event);;
                stream_events response events (Streaming_ (replace_last (st_messages s) (assistant_llm partial)) true)
              else stream_events response events s
          | None => stream_events response events s
          end
      end
  end.

(** The context, with the response at its end, and the response. *)
Definition streamAssistantResponse context config : step (AgentContext O E * AssistantMessage) :=
  messages ← match cf_transformContext config with Some f => outside (f (ctx_messages context)) | None => mret (ctx_messages context) end;
  llmMessages ← outside (cf_convertToLlm config messages);
  key ← match cf_getApiKey config with Some f => outside (f (mo_provider (cf_model config))) | None => mret None end;
  let resolvedApiKey := match key with Some k => if non_empty k then Some k else cf_apiKey config | None => cf_apiKey config end in
  response ← outside (sr_streamFunction sr (cf_model config) (normalizeContext (Context__ None llmMessages None)) (cf_reasoning config) resolvedApiKey);
  streamed ← stream_events response (es_events response) (Streaming_ (ctx_messages context) false);
  mret (AgentContext_ (fst streamed) (ctx_tools context), snd streamed).

(** * Tool calls *)

(** [FinalizedToolCallOutcome] *)
Record Finalized : Type := Finalized_ { fi_toolCall : ToolCall; fi_result : AgentToolResult; fi_isError : bool }.

Definition createErrorToolResult (message : jsstr) : AgentToolResult :=
  AgentToolResult_ (Some [InputText (TextContent_ message None)]) (Some (JObj [])) None None.

Definition failed (toolCall : ToolCall) (message : jsstr) : Finalized := Finalized_ toolCall (createErrorToolResult message) true.

Definition emitToolExecutionStart (toolCall : ToolCall) : step unit := emit (OnToolStart (tool_id toolCall) (tool_name toolCall) (tool_arguments toolCall)).

Definition emitToolExecutionEnd (f : Finalized) : step unit := emit (OnToolEnd (tool_id (fi_toolCall f)) (tool_name (fi_toolCall f)) (fi_result f) (fi_isError f)).

Definition createToolResultMessage (f : Finalized) (timestamp : jsnum) : ToolResultMessage :=
  ToolResultMessage_ (tool_id (fi_toolCall f)) (tool_name (fi_toolCall f)) (default [] (rs_content (fi_result f))) (rs_details (fi_result f)) (rs_usage (fi_result f))
    (fi_isError f) timestamp.

Definition result_llm (m : ToolResultMessage) : AgentMessage := AgentLlm (MsgToolResult m).

Definition emitToolResultMessage (m : ToolResultMessage) : step unit :=
  emit (OnMessageStart (result_llm m));;
  emit (OnMessageEnd (result_llm m)).

(** The message for a call that is finalized, made and emitted. *)
Definition report_result (f : Finalized) : step ToolResultMessage :=
  timestamp ← gets (fun w => sr_now sr (wl_outside w));
  let m := createToolResultMessage f timestamp in
  emitToolResultMessage m;; mret m.

Fixpoint report_results (calls : list Finalized) : step (list ToolResultMessage) :=
  match calls with
  | [] => mret []
  | f :: calls => m ← report_result f; ms ← report_results calls; mret (m :: ms)
  end.

Definition shouldTerminateToolBatch (calls : list Finalized) : bool :=
  match calls with [] => false | _ => forallb (fun f => default false (rs_terminate (fi_result f))) calls end.

Record ExecutedToolCallBatch : Type := Batch { ba_messages : list ToolResultMessage; ba_terminate : bool }.

Definition truncated_text (toolCall : ToolCall) : jsstr :=
  js_quoted "Tool call ~" ++ tool_name toolCall ++
  js_quoted "~ was not executed: the response hit the output token limit, so its arguments may be truncated. Re-issue the tool call with complete arguments.".

Fixpoint fail_truncated (toolCalls : list ToolCall) : step (list ToolResultMessage) :=
  match toolCalls with
  | [] => mret []
  | toolCall :: toolCalls =>
      emitToolExecutionStart toolCall;;
      emitToolExecutionEnd (failed toolCall (truncated_text toolCall));;
      m ← report_result (failed toolCall (truncated_text toolCall));
      ms ← fail_truncated toolCalls;
      mret (m :: ms)
  end.

Definition failToolCallsFromTruncatedMessage (toolCalls : list ToolCall) : step ExecutedToolCallBatch :=
  messages ← fail_truncated toolCalls; mret (Batch messages false).

(** ** Before a tool runs *)

(** [PreparedToolCall | ImmediateToolCallOutcome]; what is immediate is an error. *)
Inductive Preparation : Type :=
| Prepared (tool : AgentTool O E) (args : json)
| Immediate (outcome : AgentToolResult).

Definition find_tool context (name : jsstr) : option (AgentTool O E) :=
  find (fun tool => bool_decide (tl_name (at_tool tool) = name)) (default [] (ctx_tools context)).

Definition prepareToolCallArguments (tool : AgentTool O E) (toolCall : ToolCall) : step ToolCall :=
  match at_prepareArguments tool with
  | None => mret toolCall
  | Some prepareArguments =>
      preparedArguments ← outside (prepareArguments (tool_arguments toolCall));
      mret (ToolCall_ (tool_id toolCall) (tool_name toolCall) preparedArguments (tool_thoughtSignature toolCall) (tool_namespace toolCall))
  end.

Definition operation_aborted : AgentToolResult := createErrorToolResult (js "Operation aborted").

(** [reason || "Tool execution was blocked"] *)
Definition block_reason (r : BeforeToolCallResult) : jsstr :=
  match bt_reason r with Some reason => if non_empty reason then reason else js "Tool execution was blocked" | None => js "Tool execution was blocked" end.

Definition blocked (r : BeforeToolCallResult) : AgentToolResult :=
  let result := createErrorToolResult (block_reason r) in
  AgentToolResult_ (rs_content result) (rs_details result) (rs_usage result) (if default false (bt_terminate r) then Some true else None).

Definition prepareToolCall context (assistantMessage : AssistantMessage) (toolCall : ToolCall) config : step Preparation :=
  match find_tool context (tool_name toolCall) with
  | None => mret (Immediate (createErrorToolResult (js "Tool " ++ tool_name toolCall ++ js " not found")))
  | Some tool =>
      catching
        (preparedToolCall ← prepareToolCallArguments tool toolCall;
         validatedArgs ← reads_state (fun _ => sr_validateToolArguments sr (at_tool tool) preparedToolCall);
         beforeResult ← call_hook (cf_beforeToolCall config) (ToolCallContext_ assistantMessage toolCall validatedArgs context);
         stopped ← gets aborted;
         if stopped : bool then mret (Immediate operation_aborted)
         else
           match beforeResult with
           | Some r => if default false (bt_block r) then mret (Immediate (blocked r)) else mret (Prepared tool validatedArgs)
           | None => mret (Prepared tool validatedArgs)
           end)
        (fun e => Immediate (createErrorToolResult (sr_message sr e)))
  end.

(** ** While it runs *)

(** What a tool reports is emitted at once; the first failure is kept. *)
Fixpoint emit_updates (toolCall : ToolCall) (partials : list AgentToolResult) (rejected : option E) (w : world O) : world O * option E :=
  match partials with
  | [] => (w, rejected)
  | partial :: partials =>
      let '(w, r) := emit (OnToolUpdate (tool_id toolCall) (tool_name toolCall) (tool_arguments toolCall) partial) w in
      emit_updates toolCall partials (match rejected, r with None, Err e => Some e | _, _ => rejected end) w
  end.

Fixpoint run_tool (toolCall : ToolCall) (rejected : option E) (t : tool_run O E) : turns (AgentToolResult * bool) :=
  match t with
  | ToolDone r =>
      match rejected with
      | Some e => Done (Err e)
      | None => Done (Ok (match r with Ok result => (result, false) | Err e => (createErrorToolResult (sr_message sr e), true) end))
      end
  | ToolTurn next =>
      Turn (fun w =>
        let '(o, partials, t) := next (wl_outside w) in
        let '(w, rejected) := emit_updates toolCall partials rejected (World (wl_events w) o) in
        (w, run_tool toolCall rejected t))
  end.

(** [executePreparedToolCall]: the result, and whether it is an error. *)
Definition executePreparedToolCall (toolCall : ToolCall) (tool : AgentTool O E) (args : json) : turns (AgentToolResult * bool) :=
  run_tool toolCall None (at_execute tool (tool_id toolCall) args).

(** ** After it ran

    [??] also passes over a detail that is [null]. *)

Definition finalizeExecutedToolCall context (assistantMessage : AssistantMessage) (toolCall : ToolCall) (args : json) (executed : AgentToolResult * bool) config : step Finalized :=
  let '(result, isError) := executed in
  match cf_afterToolCall config with
  | None => mret (Finalized_ toolCall result isError)
  | Some afterToolCall =>
      catching
        (afterResult ← outside (afterToolCall (ToolCallContext_ assistantMessage toolCall args context) result isError);
         mret (match afterResult with
               | None => Finalized_ toolCall result isError
               | Some a =>
                   Finalized_ toolCall
                     (AgentToolResult_ (match af_content a with Some c => Some c | None => rs_content result end)
                        (match af_details a with Some JNull | None => rs_details result | Some d => Some d end)
                        (match af_usage a with Some u => Some u | None => rs_usage result end)
                        (match af_terminate a with Some t => Some t | None => rs_terminate result end))
                     (default isError (af_isError a))
               end))
        (fun e => failed toolCall (sr_message sr e))
  end.

(** A step as one turn. *)
Definition one_turn {A} (m : step A) : turns A := Turn (fun w => let '(w, r) := m w in (w, Done r)).

(** The run of a prepared call, finalized. *)
Definition run_prepared context (assistantMessage : AssistantMessage) (toolCall : ToolCall) config (tool : AgentTool O E) (args : json) : turns Finalized :=
  bind_job (executePreparedToolCall toolCall tool args) (fun executed =>
    match executed with
    | Ok executed => one_turn (finalizeExecutedToolCall context assistantMessage toolCall args executed config)
    | Err e => Done (Err e)
    end).

(** ** One after the other *)

Fixpoint run_sequential context (assistantMessage : AssistantMessage) config (toolCalls : list ToolCall) : step (list (Finalized * ToolResultMessage)) :=
  match toolCalls with
  | [] => mret []
  | toolCall :: toolCalls =>
      emitToolExecutionStart toolCall;;
      preparation ← prepareToolCall context assistantMessage toolCall config;
      finalized ← match preparation with
                  | Immediate outcome => mret (Finalized_ toolCall outcome true)
                  | Prepared tool args => run_job (run_prepared context assistantMessage toolCall config tool args)
                  end;
      emitToolExecutionEnd finalized;;
      m ← report_result finalized;
      stopped ← gets aborted;
      if stopped : bool then mret [(finalized, m)]
      else rest ← run_sequential context assistantMessage config toolCalls; mret ((finalized, m) :: rest)
  end.

Definition executeToolCallsSequential context (assistantMessage : AssistantMessage) (toolCalls : list ToolCall) config : step ExecutedToolCallBatch :=
  done_ ← run_sequential context assistantMessage config toolCalls;
  mret (Batch done_.*2 (shouldTerminateToolBatch done_.*1)).

(** ** At the same time *)

Definition bind_Ok {A B} (j : turns A) (f : A -> turns B) : turns B :=
  bind_job j (fun r => match r with Ok a => f a | Err e => Done (Err e) end).

(** What a job does when it is called: up to where it waits first. *)
Definition force {A} (j : turns A) (w : world O) : world O * turns A :=
  match j with Done r => (w, Done r) | Turn next => next w end.

(** The function kept for a prepared call. *)
Definition parallel_entry context (assistantMessage : AssistantMessage) (toolCall : ToolCall) config (tool : AgentTool O E) (args : json) : turns Finalized :=
  Turn (fun w =>
    if aborted w then
      let finalized := Finalized_ toolCall operation_aborted true in
      let '(w, r) := emitToolExecutionEnd finalized w in (w, Done (_ ← r; Ok finalized))
    else
      force (bind_Ok (run_prepared context assistantMessage toolCall config tool args)
               (fun finalized => one_turn (emitToolExecutionEnd finalized;; mret finalized))) w).

(** [FinalizedToolCallEntry]: an outcome is a promise that is kept. *)
Fixpoint prepare_parallel context (assistantMessage : AssistantMessage) config (toolCalls : list ToolCall) : step (list (turns Finalized)) :=
  match toolCalls with
  | [] => mret []
  | toolCall :: toolCalls =>
      emitToolExecutionStart toolCall;;
      preparation ← prepareToolCall context assistantMessage toolCall config;
      entry ← match preparation with
              | Immediate outcome =>
                  let finalized := Finalized_ toolCall outcome true in
                  emitToolExecutionEnd finalized;; mret (Done (Ok finalized))
              | Prepared tool args => mret (parallel_entry context assistantMessage toolCall config tool args)
              end;
      stopped ← gets aborted;
      if stopped : bool then mret [entry]
      else rest ← prepare_parallel context assistantMessage config toolCalls; mret (entry :: rest)
  end.

(** The first promise that is rejected. *)
Fixpoint rejection {A} (jobs : list (turns A)) : option E :=
  match jobs with
  | [] => None
  | Done (Err e) :: _ => Some e
  | _ :: jobs => rejection jobs
  end.

(** All entries are called, in order. *)
Fixpoint start_all {A} (jobs : list (turns A)) (w : world O) : world O * list (turns A) :=
  match jobs with
  | [] => (w, [])
  | j :: jobs => let '(w, j) := force j w in let '(w, jobs) := start_all jobs w in (w, j :: jobs)
  end.

(** A turn of the [n]th. *)
Fixpoint turn_nth {A} (n : nat) (jobs : list (turns A)) (w : world O) : world O * list (turns A) :=
  match n, jobs with
  | _, [] => (w, [])
  | 0%nat, j :: jobs => let '(w, j) := force j w in (w, j :: jobs)
  | S n, j :: jobs => let '(w, jobs) := turn_nth n jobs w in (w, j :: jobs)
  end.

(** When the order is no longer chosen, the rest runs in the order of the list. *)
Fixpoint run_rest {A} (jobs : list (turns A)) : step (list A) :=
  match jobs with
  | [] => mret []
  | j :: jobs => a ← run_job j; l ← run_rest jobs; mret (a :: l)
  end.

Fixpoint interleave {A} (picks : list nat) (jobs : list (turns A)) (w : world O) : world O * result E (list A) :=
  match rejection jobs with
  | Some e => (w, Err e)
  | None =>
      match picks with
      | [] => run_rest jobs w
      | n :: picks => let '(w, jobs) := turn_nth n jobs w in interleave picks jobs w
      end
  end.

(** [Promise.all(entries.map((entry) => entry()))] *)
Definition promise_all {A} (jobs : list (turns A)) : step (list A) :=
  fun w => let '(w, jobs) := start_all jobs w in interleave (sr_picks sr (wl_outside w)) jobs w.

Definition executeToolCallsParallel context (assistantMessage : AssistantMessage) (toolCalls : list ToolCall) config : step ExecutedToolCallBatch :=
  finalizedCalls ← prepare_parallel context assistantMessage config toolCalls;
  orderedFinalizedCalls ← promise_all finalizedCalls;
  messages ← report_results orderedFinalizedCalls;
  mret (Batch messages (shouldTerminateToolBatch orderedFinalizedCalls)).

Definition tool_calls (m : AssistantMessage) : list ToolCall := omap (fun b => match b with BlockToolCall c => Some c | _ => None end) (am_content m).

Definition executeToolCalls context (assistantMessage : AssistantMessage) config : step ExecutedToolCallBatch :=
  let toolCalls := tool_calls assistantMessage in
  let hasSequentialToolCall :=
    existsb (fun tc => match find_tool context (tool_name tc) with Some t => bool_decide (at_executionMode t = Some ModeSequential) | None => false end) toolCalls in
  if bool_decide (cf_toolExecution config = Some ModeSequential) || hasSequentialToolCall
  then executeToolCallsSequential context assistantMessage toolCalls config
  else executeToolCallsParallel context assistantMessage toolCalls config.

(** * The loop *)

(** The locals of [runLoop]. *)
Record LoopState : Type := LoopState_ {
  lo_context : AgentContext O E;
  lo_config : AgentLoopConfig O E;
  lo_newMessages : list AgentMessage;
  lo_lastCompletedTurn : option (AgentTurnContext O E);
  lo_explicitContinuation : bool;
  lo_pendingMessages : list AgentMessage;
  lo_hasMoreToolCalls : bool;
}.

Definition with_model config (model : AgentModel) (reasoning : option jsstr) : AgentLoopConfig O E :=
  AgentLoopConfig_ model reasoning (cf_apiKey config) (cf_convertToLlm config) (cf_transformContext config) (cf_getApiKey config) (cf_finishTurn config)
    (cf_prepareRequest config) (cf_prepareNextTurn config) (cf_getSteeringMessages config) (cf_getFollowUpMessages config) (cf_toolExecution config)
    (cf_beforeToolCall config) (cf_afterToolCall config).

(** [{ ...config, model, reasoning }] of an update. *)
Definition update_config config (u : AgentLoopTurnUpdate O E) : AgentLoopConfig O E :=
  with_model config (default (cf_model config) (tu_model u))
    (match tu_thinkingLevel u with None => cf_reasoning config | Some level => if decide (level = js "off") then None else Some level end).

(** What is prepared when a turn was completed before: context, config, messages
    prepared and messages pending. *)
Definition prepare_turn (s : LoopState) : step (AgentContext O E * AgentLoopConfig O E * list AgentMessage * list AgentMessage) :=
  match lo_lastCompletedTurn s with
  | None => mret (lo_context s, lo_config s, [], lo_pendingMessages s)
  | Some last =>
      snapshot ← call_hook (cf_prepareNextTurn (lo_config s)) last;
      let '(context, config, prepared) :=
        match snapshot with
        | Some u => (default (lo_context s) (tu_context u), update_config (lo_config s) u, default [] (tu_messages u))
        | None => (lo_context s, lo_config s, [])
        end in
      pending ← match lo_pendingMessages s with [] => poll (cf_getSteeringMessages config) | pending => mret pending end;
      emit OnTurnStart;;
      mret (context, config, prepared, pending)
  end.

(** Messages before the next response, which are appended to the context. *)
Definition emit_message (m : AgentMessage) : step unit := emit (OnMessageStart m);; emit (OnMessageEnd m).

Definition prepare_request context config : step (AgentContext O E * AgentLoopConfig O E) :=
  match cf_prepareRequest config with
  | None => mret (context, config)
  | Some prepareRequest =>
      requestUpdate ← outside (prepareRequest context (cf_model config) (default (js "off") (cf_reasoning config)));
      mret (match requestUpdate with Some u => (default context (tu_context u), update_config config u) | None => (context, config) end)
  end.

(** The end of the run with its messages, or what the loop goes on with. *)
Definition end_run (newMessages : list AgentMessage) : step (list AgentMessage + LoopState) :=
  emit (OnAgentEnd newMessages);; mret (inl newMessages).

Definition run_tools context (message : AssistantMessage) config : step ExecutedToolCallBatch :=
  match tool_calls message with
  | [] => mret (Batch [] true)
  | toolCalls =>
      if decide (am_stopReason message = StopLength) then failToolCallsFromTruncatedMessage toolCalls
      else executeToolCalls context message config
  end.

Definition add_messages context (messages : list AgentMessage) : AgentContext O E := AgentContext_ (ctx_messages context ++ messages) (ctx_tools context).

(** What follows the response: its tool calls, and whether to go on. *)
Definition after_response context config (newMessages : list AgentMessage) (message : AssistantMessage) : step (list AgentMessage + LoopState) :=
  let newMessages := newMessages ++ [assistant_llm message] in
  if bool_decide (am_stopReason message = StopError) || bool_decide (am_stopReason message = StopAborted) then
    call_hook (cf_finishTurn config) (AgentTurnContext_ message [] context newMessages);;
    emit (OnTurnEnd (assistant_llm message) []);;
    end_run newMessages
  else
    batch ← run_tools context message config;
    let toolResults := ba_messages batch in
    let context := add_messages context (result_llm <$> toolResults) in
    let newMessages := newMessages ++ (result_llm <$> toolResults) in
    let last := AgentTurnContext_ message toolResults context newMessages in
    decision ← call_hook (cf_finishTurn config) last;
    emit (OnTurnEnd (assistant_llm message) toolResults);;
    match decision with
    | Some DecideEnd => end_run newMessages
    | _ =>
        pending ← poll (cf_getSteeringMessages config);
        let hasMoreToolCalls := negb (ba_terminate batch) in
        let explicit := match decision with Some DecideContinue => true | _ => false end in
        mret (inr (LoopState_ context config newMessages (Some last)
                     (explicit && negb (hasMoreToolCalls || bool_decide (0 < length pending)%nat)) pending hasMoreToolCalls))
    end.

(** An iteration of the inner loop. *)
Definition iteration (s : LoopState) : step (list AgentMessage + LoopState) :=
  prepared ← prepare_turn s;
  let '(context, config, preparedMessages, pendingMessages) := prepared in
  timestamp ← gets (fun w => sr_now sr (wl_outside w));
  let messages := declareToolChanges context (preparedMessages ++ pendingMessages) timestamp in
  for_each emit_message messages;;
  request ← prepare_request (add_messages context messages) config;
  response ← streamAssistantResponse (fst request) (snd request);
  after_response (fst response) (snd request) (lo_newMessages s ++ messages) (snd response).

(** The inner loop goes on for tool calls and for pending messages. *)
Definition goes_on (s : LoopState) : bool := lo_hasMoreToolCalls s || bool_decide (0 < length (lo_pendingMessages s))%nat.

(** Once more through the outer loop. *)
Definition again (s : LoopState) (pending : list AgentMessage) : LoopState :=
  LoopState_ (lo_context s) (lo_config s) (lo_newMessages s) (lo_lastCompletedTurn s) false pending true.

(** [fuel] bounds the requests; [None] when they are used up. *)
Fixpoint iterations (fuel : nat) (s : LoopState) : step (option (list AgentMessage)) :=
  match fuel with
  | 0%nat => mret None
  | S fuel =>
      r ← iteration s;
      match r with
      | inl newMessages => mret (Some newMessages)
      | inr s =>
          if goes_on s then iterations fuel s
          else
            followUpMessages ← poll (cf_getFollowUpMessages (lo_config s));
            if bool_decide (0 < length followUpMessages)%nat then iterations fuel (again s followUpMessages)
            else if lo_explicitContinuation s then iterations fuel (again s [])
            else emit (OnAgentEnd (lo_newMessages s));; mret (Some (lo_newMessages s))
      end
  end.

Definition runLoop (fuel : nat) context (newMessages : list AgentMessage) config : step (option (list AgentMessage)) :=
  pendingMessages ← poll (cf_getSteeringMessages config);
  iterations fuel (LoopState_ context config newMessages None false pendingMessages true).

Definition runAgentLoop (fuel : nat) (prompts : list AgentMessage) context config : step (option (list AgentMessage)) :=
  timestamp ← gets (fun w => sr_now sr (wl_outside w));
  let initialMessages := declareToolChanges context prompts timestamp in
  emit OnAgentStart;;
  emit OnTurnStart;;
  for_each emit_message initialMessages;;
  runLoop fuel (add_messages context initialMessages) initialMessages config.

(** What [runAgentLoopContinue] refuses before it starts. *)
Inductive continue_error : Type := NoMessages | LastIsAssistant.

Definition check_continue context : option continue_error :=
  match last (ctx_messages context) with
  | None => Some NoMessages
  | Some (AgentLlm (MsgAssistant _)) => Some LastIsAssistant
  | _ => None
  end.

Definition runAgentLoopContinue (fuel : nat) context config : step (continue_error + option (list AgentMessage)) :=
  match check_continue context with
  | Some e => mret (inl e)
  | None =>
      emit OnAgentStart;;
      emit OnTurnStart;;
      r ← runLoop fuel context [] config;
      mret (inr r)
  end.
End Loop.
