(* ===== verification/AgentLoopSpec.v ===== *)
(** What a run of an agent shows: the protocol of its events as a step relation, and
    that the loop follows it, under any interleaving of the tools. *)
From stdpp Require Import gmultiset.
From S2P Require Import Prelude JsBase JsFloat JsText Json JsonText JsonParse SessionTypes AiTypes AgentMessages Transcript AssistantFrames SerialQueue AgentLoop.

(** * The protocol *)

Inductive run_phase : Type := BeforeRun | BetweenTurns | InTurn | AfterRun.

(** What a watcher of the events knows: the message that is being shown, the calls
    that run, by their ids, and the messages that were shown. *)
Record Watch : Type := Watch_ {
  wt_phase : run_phase;
  wt_message : option AgentMessage;
  wt_tools : gmultiset jsstr;
  wt_shown : list AgentMessage;
}.

(** A result is for a call. *)
Definition answers (call : ToolCall) (r : ToolResultMessage) : Prop := tr_toolCallId r = tool_id call /\ tr_toolName r = tool_name call.

(** The results of a turn are for its calls, in their order: for none of them when
    the response failed, for all of them, as errors, when it was cut off, and else
    for the calls up to where the run was aborted; [complete] says that it was not. *)
Definition turn_answered (complete : Prop) (m : AssistantMessage) (results : list ToolResultMessage) : Prop :=
  match am_stopReason m with
  | StopError | StopAborted => results = []
  | StopLength => Forall2 answers (tool_calls m) results /\ Forall (fun r => tr_isError r = true) results
  | _ => Forall2 answers (take (length results) (tool_calls m)) results /\ (complete -> length results = length (tool_calls m))
  end.

Inductive shows (complete : Prop) : Watch -> AgentEvent -> Watch -> Prop :=
| shows_agent_start : shows complete (Watch_ BeforeRun None ∅ []) OnAgentStart (Watch_ BetweenTurns None ∅ [])
| shows_turn_start shown : shows complete (Watch_ BetweenTurns None ∅ shown) OnTurnStart (Watch_ InTurn None ∅ shown)
| shows_message_start m shown : shows complete (Watch_ InTurn None ∅ shown) (OnMessageStart m) (Watch_ InTurn (Some m) ∅ shown)
| shows_message_update m m' event shown :
    shows complete (Watch_ InTurn (Some (assistant_llm m)) ∅ shown) (OnMessageUpdate (assistant_llm m') event) (Watch_ InTurn (Some (assistant_llm m')) ∅ shown)
| shows_message_end m shown : shows complete (Watch_ InTurn (Some m) ∅ shown) (OnMessageEnd m) (Watch_ InTurn None ∅ (shown ++ [m]))
| shows_response_end m m' shown :
    shows complete (Watch_ InTurn (Some (assistant_llm m)) ∅ shown) (OnMessageEnd (assistant_llm m')) (Watch_ InTurn None ∅ (shown ++ [assistant_llm m']))
| shows_tool_start id name args tools shown :
    shows complete (Watch_ InTurn None tools shown) (OnToolStart id name args) (Watch_ InTurn None (tools ⊎ {[+ id +]}) shown)
| shows_tool_update id name args partial tools shown :
    id ∈ tools -> shows complete (Watch_ InTurn None tools shown) (OnToolUpdate id name args partial) (Watch_ InTurn None tools shown)
| shows_tool_end id name result isError tools shown :
    shows complete (Watch_ InTurn None (tools ⊎ {[+ id +]}) shown) (OnToolEnd id name result isError) (Watch_ InTurn None tools shown)
| shows_turn_end m results shown :
    turn_answered complete m results ->
    shows complete (Watch_ InTurn None ∅ (shown ++ assistant_llm m :: (result_llm <$> results))) (OnTurnEnd (assistant_llm m) results)
      (Watch_ BetweenTurns None ∅ (shown ++ assistant_llm m :: (result_llm <$> results)))
| shows_agent_end shown : shows complete (Watch_ BetweenTurns None ∅ shown) (OnAgentEnd shown) (Watch_ AfterRun None ∅ shown).

Definition unwatched : Watch := Watch_ BeforeRun None ∅ [].

(** From the start of a run on. *)
Inductive watched (complete : Prop) : list AgentEvent -> Watch -> Prop :=
| watched_none : watched complete [] unwatched
| watched_snoc events event x y : watched complete events x -> shows complete x event y -> watched complete (events ++ [event]) y.

#[export] Hint Constructors shows watched : s2r.

(** * Steps that are watched *)

Section Steps.
Context {Out E : Type}.
Variable sr : Surroundings Out E.
#[local] Abbreviation step := (SM (world Out) E).
#[local] Abbreviation turns := (job (world Out) E).

(** The run is never aborted. *)
Definition never_aborted : Prop := forall o, sr_aborted sr o = false.

#[local] Abbreviation sees w x := (watched never_aborted (wl_events w) x).

(** [m], watched from [x] on, ends watched in a state and with a result as told,
    unless it throws. *)
Definition runs {A} (m : step A) (x : Watch) (Q : A -> Watch -> Prop) : Prop :=
  forall w w' a, sees w x -> m w = (w', Ok a) -> exists y, sees w' y /\ Q a y.

(** Nothing is emitted. *)
Definition quiet {A} (m : step A) : Prop := forall w w' r, m w = (w', r) -> wl_events w' = wl_events w.

Lemma runs_mono {A} (m : step A) x (Q Q' : A -> Watch -> Prop) : runs m x Q -> (forall a y, Q a y -> Q' a y) -> runs m x Q'.
Proof. intros H HQ w w' a Hw Hm. destruct (H w w' a Hw Hm) as (y & Hy & Ha). eauto. Qed.

Lemma runs_ret {A} (a : A) x (Q : A -> Watch -> Prop) : Q a x -> runs (mret a) x Q.
Proof. intros HQ w w' b Hw [= <- <-]. eauto. Qed.

Lemma runs_bind {A B} (m : step A) (f : A -> step B) x Q : runs m x (fun a y => runs (f a) y Q) -> runs (m ≫= f) x Q.
Proof.
  intros H w w' b Hw Hm. apply sm_bind_Ok in Hm as (w1 & a & Hm & Hf). destruct (H w w1 a Hw Hm) as (y & Hy & Ha). by apply (Ha w1 w' b).
Qed.

Lemma runs_quiet {A} (m : step A) x (Q : A -> Watch -> Prop) : quiet m -> (forall a, Q a x) -> runs m x Q.
Proof. intros Hq HQ w w' a Hw Hm. exists x. split; [by rewrite (Hq w w' _ Hm)|done]. Qed.

Lemma runs_gets {A} (f : world Out -> A) x (Q : A -> Watch -> Prop) : (forall w, Q (f w) x) -> runs (gets f) x Q.
Proof. intros HQ w w' a Hw [= <- <-]. eauto. Qed.

Lemma runs_emit event x y Q : shows never_aborted x event y -> Q tt y -> runs (emit sr event) x Q.
Proof.
  intros Hs HQ w w' [] Hw. unfold emit. destruct (sr_emit sr event (wl_outside w)) as [o r]. intros [= <- _]. exists y. split; [|done].
  by eapply watched_snoc.
Qed.

Lemma quiet_outside {A} (m : SM Out E A) : quiet (outside m).
Proof. intros w w' r. unfold outside. destruct (m (wl_outside w)). by intros [= <- _]. Qed.

Lemma quiet_ret {A} (a : A) : quiet (mret a).
Proof. intros w w' r [= <- _]. done. Qed.

Lemma quiet_gets {A} (f : world Out -> A) : quiet (gets f).
Proof. intros w w' r [= <- _]. done. Qed.

Lemma quiet_reads {A} (f : world Out -> result E A) : quiet (reads_state f).
Proof. intros w w' r [= <- _]. done. Qed.

Lemma quiet_bind {A B} (m : step A) (f : A -> step B) : quiet m -> (forall a, quiet (f a)) -> quiet (m ≫= f).
Proof.
  intros Hm Hf w w' r. unfold mbind, sm_bind. destruct (m w) as [w1 [a|e]] eqn:E1; intros H.
  - rewrite (Hf a w1 w' r H). by eapply Hm.
  - injection H as <- _. by eapply Hm.
Qed.

Lemma quiet_catching {A} (m : step A) handler : quiet m -> quiet (catching m handler).
Proof. intros Hm w w' r. unfold catching. destruct (m w) as [w1 r1] eqn:E1. intros [= <- _]. by eapply Hm. Qed.

Lemma quiet_hook {A B} (hook : option (A -> SM Out E (option B))) x : quiet (call_hook hook x).
Proof. destruct hook; [apply quiet_outside|apply quiet_ret]. Qed.

Lemma quiet_poll queue : quiet (poll (E := E) queue).
Proof. destruct queue; [apply quiet_outside|apply quiet_ret]. Qed.

Lemma quiet_prepare context m call config : quiet (prepareToolCall sr context m call config).
Proof.
  unfold prepareToolCall. destruct (find_tool context (tool_name call)) as [tool|]; [|apply quiet_ret]. apply quiet_catching.
  apply quiet_bind; [unfold prepareToolCallArguments; destruct (at_prepareArguments tool); [apply quiet_bind; [apply quiet_outside|intros; apply quiet_ret]|apply quiet_ret]|].
  intros prepared. apply quiet_bind; [apply quiet_reads|]. intros args. apply quiet_bind; [apply quiet_hook|]. intros before.
  apply quiet_bind; [apply quiet_gets|]. intros []; [apply quiet_ret|]. destruct before as [r|]; [destruct (default false _)|]; apply quiet_ret.
Qed.

Lemma quiet_finalize context m call args executed config : quiet (finalizeExecutedToolCall sr context m call args executed config).
Proof.
  unfold finalizeExecutedToolCall. destruct executed as [result isError]. destruct (cf_afterToolCall config); [|apply quiet_ret].
  apply quiet_catching, quiet_bind; [apply quiet_outside|]. intros; apply quiet_ret.
Qed.

Lemma finalize_call context m call args executed config w w' f :
  finalizeExecutedToolCall sr context m call args executed config w = (w', Ok f) -> fi_toolCall f = call.
Proof.
  unfold finalizeExecutedToolCall. destruct executed as [result isError]. destruct (cf_afterToolCall config) as [after|]; [|by intros [= _ <-]].
  unfold catching. match goal with |- context [let '(_, _) := ?x in _] => destruct x as [w1 [f1|e]] eqn:E1 end; intros [= _ <-]; [|done]. apply sm_bind_Ok in E1 as (w2 & a & _ & E2).
  destruct a; by injection E2 as _ <-.
Qed.

(** * Tools while they run

    A job for a call owes the end of it: its turns report what they like, the last
    one tells the end, or it fails. *)

Inductive owes (call : ToolCall) : turns Finalized -> Prop :=
| owes_turn next :
    (forall w w' j tools shown, sees w (Watch_ InTurn None (tools ⊎ {[+ tool_id call +]}) shown) -> next w = (w', j) ->
      (owes call j /\ sees w' (Watch_ InTurn None (tools ⊎ {[+ tool_id call +]}) shown)) \/
      (exists f, j = Done (Ok f) /\ fi_toolCall f = call /\ sees w' (Watch_ InTurn None tools shown)) \/
      (exists e, j = Done (Err e))) ->
    owes call (Turn next).

(** The same for a job that runs within a call: it tells no end. *)
Inductive stays {A} (call : ToolCall) (Q : A -> Prop) : turns A -> Prop :=
| stays_done r : (forall a, r = Ok a -> Q a) -> stays call Q (Done r)
| stays_turn next :
    (forall w w' j tools shown, sees w (Watch_ InTurn None (tools ⊎ {[+ tool_id call +]}) shown) -> next w = (w', j) ->
      stays call Q j /\ sees w' (Watch_ InTurn None (tools ⊎ {[+ tool_id call +]}) shown)) ->
    stays call Q (Turn next).

Lemma emit_updates_watched call partials rejected w w' rejected' tools shown :
  tool_id call ∈ tools -> sees w (Watch_ InTurn None tools shown) -> emit_updates sr call partials rejected w = (w', rejected') ->
  sees w' (Watch_ InTurn None tools shown).
Proof.
  intros Hin. revert w rejected. induction partials as [|partial partials IH]; intros w rejected Hw; cbn; [by intros [= <- _]|].
  unfold emit. destruct (sr_emit sr _ (wl_outside w)) as [o r]. apply IH. cbn. eapply watched_snoc; [exact Hw|]. by apply shows_tool_update.
Qed.

Lemma run_tool_stays call rejected t : stays call (fun _ => True) (run_tool sr call rejected t).
Proof.
  revert rejected. induction t as [r|next IH] using tool_turns; intros rejected; cbn; [destruct rejected; by apply stays_done|]. apply stays_turn. intros w w' j tools shown Hw.
  destruct (next (wl_outside w)) as [[o partials] t'] eqn:En. destruct (emit_updates sr call partials rejected _) as [w1 rejected'] eqn:Eu. intros [= <- <-].
  split.
  - specialize (IH (wl_outside w) rejected'). rewrite En in IH. exact IH.
  - eapply emit_updates_watched; [| |exact Eu]; [multiset_solver|exact Hw].
Qed.

Lemma stays_bind {A B} call (j : turns A) (f : result E A -> turns B) (P : A -> Prop) (Q : B -> Prop) :
  stays call P j -> (forall r, (forall a, r = Ok a -> P a) -> stays call Q (f r)) -> stays call Q (bind_job j f).
Proof.
  intros Hj Hf. revert Hj. induction j as [r|next IH] using job_turns; intros Hj; inversion Hj as [r' Hr|next' Hn]; subst; cbn; [by apply Hf|].
  apply stays_turn. intros w w' j tools shown Hw. destruct (next w) as [w1 j1] eqn:En. intros [= <- <-].
  destruct (Hn w w1 j1 tools shown Hw En) as [Hs Hw1]. split; [|done]. specialize (IH w). rewrite En in IH. by apply IH.
Qed.

Lemma stays_one_turn {A} call (m : step A) (Q : A -> Prop) : quiet m -> (forall w w' a, m w = (w', Ok a) -> Q a) -> stays call Q (one_turn m).
Proof.
  intros Hq HQ. apply stays_turn. intros w w' j tools shown Hw. destruct (m w) as [w1 r] eqn:Em. intros [= <- <-]. split.
  - apply stays_done. intros a ->. by eapply HQ.
  - by rewrite (Hq w w1 r Em).
Qed.

Lemma run_prepared_stays context m call config tool args : stays call (fun f => fi_toolCall f = call) (run_prepared sr context m call config tool args).
Proof.
  unfold run_prepared. eapply stays_bind; [apply run_tool_stays|]. intros [executed|e] _; [|by apply stays_done].
  apply stays_one_turn; [apply quiet_finalize|]. intros w w' f. apply finalize_call.
Qed.

(** Run alone, it leaves the call open and comes to its end. *)
Lemma stays_run {A} call (Q : A -> Prop) (j : turns A) w w' a tools shown :
  stays call Q j -> sees w (Watch_ InTurn None (tools ⊎ {[+ tool_id call +]}) shown) -> run_job j w = (w', Ok a) ->
  sees w' (Watch_ InTurn None (tools ⊎ {[+ tool_id call +]}) shown) /\ Q a.
Proof.
  revert w. induction j as [r|next IH] using job_turns; intros w Hj Hw; inversion Hj as [r' Hr|next' Hn]; subst; cbn.
  - intros [= <- ->]. split; [done|]. by apply Hr.
  - destruct (next w) as [w1 j1] eqn:En. destruct (Hn w w1 j1 tools shown Hw En) as [Hs Hw1]. specialize (IH w w1). rewrite En in IH. by apply IH.
Qed.

(** ** Calls that run at the same time *)

(** A call is settled, or failed, or owes its end. *)
Definition pays (call : ToolCall) (j : turns Finalized) : Prop :=
  match j with
  | Done (Ok f) => fi_toolCall f = call
  | Done (Err _) => False
  | Turn _ => owes call j
  end.

Definition open_tool (call : ToolCall) (j : turns Finalized) : gmultiset jsstr := match j with Turn _ => {[+ tool_id call +]} | Done _ => ∅ end.

Fixpoint open_tools (calls : list ToolCall) (jobs : list (turns Finalized)) : gmultiset jsstr :=
  match calls, jobs with
  | call :: calls, j :: jobs => open_tool call j ⊎ open_tools calls jobs
  | _, _ => ∅
  end.

Definition is_failed (j : turns Finalized) : Prop := match j with Done (Err _) => True | _ => False end.

Lemma rejection_None (jobs : list (turns Finalized)) : rejection jobs = None <-> Forall (fun j => ~ is_failed j) jobs.
Proof.
  induction jobs as [|j jobs IH]; cbn; [split; [constructor|done]|]. destruct j as [[f|e]|next]; cbn.
  - rewrite IH, Forall_cons. cbn. tauto.
  - split; [done|]. intros H%Forall_inv. cbn in H. tauto.
  - rewrite IH, Forall_cons. cbn. tauto.
Qed.

Lemma force_pays call j w w' j' tools shown :
  pays call j -> sees w (Watch_ InTurn None (tools ⊎ open_tool call j) shown) -> force j w = (w', j') -> ~ is_failed j' ->
  pays call j' /\ sees w' (Watch_ InTurn None (tools ⊎ open_tool call j') shown).
Proof.
  intros Hp Hw Hf Hn. destruct j as [[f|e]|next]; cbn in *; simplify_eq; [done|done|]. inversion Hp as [next' H]; subst.
  destruct (H w w' j' tools shown Hw Hf) as [[Ho Hw']|[(f & -> & Ef & Hw')|(e & ->)]]; [|split; [done|]|by destruct Hn].
  - by inversion Ho; subst.
  - cbn. by rewrite (right_id_L ∅ (⊎)).
Qed.

Lemma start_all_pays calls jobs w w' jobs' tools shown :
  Forall2 pays calls jobs -> sees w (Watch_ InTurn None (tools ⊎ open_tools calls jobs) shown) -> start_all jobs w = (w', jobs') -> Forall (fun j => ~ is_failed j) jobs' ->
  Forall2 pays calls jobs' /\ sees w' (Watch_ InTurn None (tools ⊎ open_tools calls jobs') shown).
Proof.
  intros Hp. revert w jobs' tools. induction Hp as [|call j calls jobs Hj _ IH]; intros w jobs' tools Hw; cbn; [by intros [= <- <-]|].
  destruct (force j w) as [w1 j1] eqn:Ef, (start_all jobs w1) as [w2 jobs2] eqn:Es. intros [= <- <-] [Hn Hns]%Forall_cons. cbn in Hw.
  replace (tools ⊎ (open_tool call j ⊎ open_tools calls jobs)) with ((tools ⊎ open_tools calls jobs) ⊎ open_tool call j) in Hw by multiset_solver.
  destruct (force_pays _ _ _ _ _ _ _ Hj Hw Ef Hn) as [Hj1 Hw1].
  replace ((tools ⊎ open_tools calls jobs) ⊎ open_tool call j1) with ((tools ⊎ open_tool call j1) ⊎ open_tools calls jobs) in Hw1 by multiset_solver.
  destruct (IH w1 jobs2 _ Hw1 Es Hns) as [H2 Hw2]. split; [by constructor|]. cbn.
  by replace (tools ⊎ (open_tool call j1 ⊎ open_tools calls jobs2)) with ((tools ⊎ open_tool call j1) ⊎ open_tools calls jobs2) by multiset_solver.
Qed.

Lemma turn_nth_pays n calls jobs w w' jobs' tools shown :
  Forall2 pays calls jobs -> sees w (Watch_ InTurn None (tools ⊎ open_tools calls jobs) shown) -> turn_nth n jobs w = (w', jobs') -> Forall (fun j => ~ is_failed j) jobs' ->
  Forall2 pays calls jobs' /\ sees w' (Watch_ InTurn None (tools ⊎ open_tools calls jobs') shown).
Proof.
  intros Hp. revert n w jobs' tools. induction Hp as [|call j calls jobs Hj Hjs IH]; intros [|n] w jobs' tools Hw; cbn; [by intros [= <- <-]..| |].
  - destruct (force j w) as [w1 j1] eqn:Ef. intros [= <- <-] [Hn _]%Forall_cons. cbn in Hw |- *.
    replace (tools ⊎ (open_tool call j ⊎ open_tools calls jobs)) with ((tools ⊎ open_tools calls jobs) ⊎ open_tool call j) in Hw by multiset_solver.
    destruct (force_pays _ _ _ _ _ _ _ Hj Hw Ef Hn) as [Hj1 Hw1]. split; [by constructor|].
    by replace (tools ⊎ (open_tool call j1 ⊎ open_tools calls jobs)) with ((tools ⊎ open_tools calls jobs) ⊎ open_tool call j1) by multiset_solver.
  - destruct (turn_nth n jobs w) as [w1 jobs1] eqn:Et. intros [= <- <-] [_ Hns]%Forall_cons. cbn in Hw |- *.
    replace (tools ⊎ (open_tool call j ⊎ open_tools calls jobs)) with ((tools ⊎ open_tool call j) ⊎ open_tools calls jobs) in Hw by multiset_solver.
    destruct (IH n w jobs1 _ Hw Et Hns) as [H1 Hw1]. split; [by constructor|].
    by replace (tools ⊎ (open_tool call j ⊎ open_tools calls jobs1)) with ((tools ⊎ open_tool call j) ⊎ open_tools calls jobs1) by multiset_solver.
Qed.

(** Alone, a job pays what it owes. *)
Lemma pays_run call j w w' f tools shown :
  pays call j -> sees w (Watch_ InTurn None (tools ⊎ open_tool call j) shown) -> run_job j w = (w', Ok f) ->
  fi_toolCall f = call /\ sees w' (Watch_ InTurn None tools shown).
Proof.
  revert w. induction j as [r|next IH] using job_turns; intros w Hp Hw; cbn.
  - intros [= <- ->]. cbn in Hp, Hw. by rewrite (right_id_L ∅ (⊎)) in Hw.
  - destruct (next w) as [w1 j1] eqn:En. intros Hr. assert (~ is_failed j1) as Hn by (destruct j1 as [[|]|]; cbn in *; naive_solver).
    destruct (force_pays call (Turn next) w w1 j1 tools shown Hp Hw En Hn) as [Hp1 Hw1]. specialize (IH w w1). rewrite En in IH. by apply IH.
Qed.

(** What the calls come to, in their order. *)
Definition outcomes_for (calls : list ToolCall) (l : list Finalized) : Prop := fi_toolCall <$> l = calls.

Lemma run_rest_pays calls jobs w w' l tools shown :
  Forall2 pays calls jobs -> sees w (Watch_ InTurn None (tools ⊎ open_tools calls jobs) shown) -> run_rest jobs w = (w', Ok l) ->
  outcomes_for calls l /\ sees w' (Watch_ InTurn None tools shown).
Proof.
  intros Hp. unfold outcomes_for. revert w l. induction Hp as [|call j calls jobs Hj _ IH]; intros w l Hw; cbn.
  - intros [= <- <-]. cbn in Hw. by rewrite (right_id_L ∅ (⊎)) in Hw.
  - intros (w1 & f & Hf & (w2 & l1 & Hl & [= <- <-])%sm_bind_Ok)%sm_bind_Ok. cbn in Hw.
    replace (tools ⊎ (open_tool call j ⊎ open_tools calls jobs)) with ((tools ⊎ open_tools calls jobs) ⊎ open_tool call j) in Hw by multiset_solver.
    destruct (pays_run _ _ _ _ _ _ _ Hj Hw Hf) as [Ef Hw1]. destruct (IH w1 l1 Hw1 Hl) as [El Hw2]. cbn. by rewrite Ef, El.
Qed.

Lemma interleave_pays picks calls jobs w w' l tools shown :
  Forall2 pays calls jobs -> sees w (Watch_ InTurn None (tools ⊎ open_tools calls jobs) shown) -> interleave picks jobs w = (w', Ok l) ->
  outcomes_for calls l /\ sees w' (Watch_ InTurn None tools shown).
Proof.
  revert jobs w. induction picks as [|n picks IH]; intros jobs w Hp Hw; cbn; (destruct (rejection jobs) eqn:Er; [done|]); [by apply run_rest_pays|].
  destruct (turn_nth n jobs w) as [w1 jobs1] eqn:Et. intros Hi. assert (rejection jobs1 = None) as Hn%rejection_None.
  { destruct picks; cbn in Hi; by destruct (rejection jobs1). }
  destruct (turn_nth_pays _ _ _ _ _ _ _ _ Hp Hw Et Hn) as [Hp1 Hw1]. by apply (IH jobs1 w1).
Qed.

(** Whatever the order of the turns, the outcomes are in the order of the calls and
    no call is left open. *)
Lemma promise_all_runs calls jobs shown Q :
  Forall2 pays calls jobs -> (forall l, outcomes_for calls l -> Q l (Watch_ InTurn None ∅ shown)) ->
  runs (promise_all sr jobs) (Watch_ InTurn None (open_tools calls jobs) shown) Q.
Proof.
  intros Hp HQ w w' l Hw. unfold promise_all. destruct (start_all jobs w) as [w1 jobs1] eqn:Es. intros Hi.
  assert (rejection jobs1 = None) as Hn%rejection_None by (destruct (sr_picks sr (wl_outside w1)); cbn in Hi; by destruct (rejection jobs1)).
  rewrite <- (left_id_L ∅ (⊎) (open_tools calls jobs)) in Hw. destruct (start_all_pays _ _ _ _ _ _ _ Hp Hw Es Hn) as [Hp1 Hw1].
  destruct (interleave_pays _ _ _ _ _ _ _ _ Hp1 Hw1 Hi) as [Hl Hw']. eauto.
Qed.

(** * The calls of a response *)

Lemma runs_message m shown (Q : unit -> Watch -> Prop) :
  Q tt (Watch_ InTurn None ∅ (shown ++ [m])) -> runs (emit_message sr m) (Watch_ InTurn None ∅ shown) Q.
Proof. intros HQ. unfold emit_message. eapply runs_bind, runs_emit; [apply shows_message_start|]. by eapply runs_emit; [apply shows_message_end|]. Qed.

Lemma runs_messages messages shown (Q : unit -> Watch -> Prop) :
  Q tt (Watch_ InTurn None ∅ (shown ++ messages)) -> runs (for_each (emit_message sr) messages) (Watch_ InTurn None ∅ shown) Q.
Proof.
  revert shown. induction messages as [|m messages IH]; intros shown HQ; cbn; [apply runs_ret; by rewrite app_nil_r in HQ|].
  apply runs_bind, runs_message, IH. by rewrite <- app_assoc.
Qed.

(** A result tells how its call ended. *)
Definition reports (f : Finalized) (r : ToolResultMessage) : Prop := answers (fi_toolCall f) r /\ tr_isError r = fi_isError f.

Lemma runs_report f shown (Q : ToolResultMessage -> Watch -> Prop) :
  (forall r, reports f r -> Q r (Watch_ InTurn None ∅ (shown ++ [result_llm r]))) -> runs (report_result sr f) (Watch_ InTurn None ∅ shown) Q.
Proof.
  intros HQ. unfold report_result. apply runs_bind, runs_gets. intros w. eapply runs_bind, (runs_message (result_llm _)), runs_ret, HQ. done.
Qed.

Lemma runs_reports l shown (Q : list ToolResultMessage -> Watch -> Prop) :
  (forall rs, Forall2 reports l rs -> Q rs (Watch_ InTurn None ∅ (shown ++ (result_llm <$> rs)))) -> runs (report_results sr l) (Watch_ InTurn None ∅ shown) Q.
Proof.
  revert shown Q. induction l as [|f l IH]; intros shown Q HQ; cbn.
  - apply runs_ret. specialize (HQ []). rewrite app_nil_r in HQ. by apply HQ.
  - apply runs_bind, runs_report. intros r Hr. apply runs_bind, IH. intros rs Hrs. apply runs_ret. rewrite <- app_assoc. apply (HQ (r :: rs)). by constructor.
Qed.

Lemma runs_tool_start call tools shown (Q : unit -> Watch -> Prop) :
  Q tt (Watch_ InTurn None (tools ⊎ {[+ tool_id call +]}) shown) -> runs (emitToolExecutionStart sr call) (Watch_ InTurn None tools shown) Q.
Proof. intros HQ. by eapply runs_emit; [apply shows_tool_start|]. Qed.

Lemma runs_tool_end f call tools shown (Q : unit -> Watch -> Prop) :
  fi_toolCall f = call -> Q tt (Watch_ InTurn None tools shown) -> runs (emitToolExecutionEnd sr f) (Watch_ InTurn None (tools ⊎ {[+ tool_id call +]}) shown) Q.
Proof. intros <- HQ. by eapply runs_emit; [apply shows_tool_end|]. Qed.

(** The first calls are answered, all of them unless the run is aborted. *)
Definition answered_calls (calls : list ToolCall) (rs : list ToolResultMessage) : Prop :=
  Forall2 answers (take (length rs) calls) rs /\ (never_aborted -> length rs = length calls).

Lemma answered_cons call calls r rs : answers call r -> answered_calls calls rs -> answered_calls (call :: calls) (r :: rs).
Proof. intros Hr [Hrs Hc]. split; [by constructor|]. intros Ha. cbn. by rewrite Hc. Qed.

Lemma answered_one call calls r : answers call r -> (never_aborted -> False) -> answered_calls (call :: calls) [r].
Proof. intros Hr Hc. split; [cbn; by constructor|]. by intros Ha%Hc. Qed.

Lemma runs_sequential context m config calls shown (Q : list (Finalized * ToolResultMessage) -> Watch -> Prop) :
  (forall l, answered_calls calls l.*2 -> Q l (Watch_ InTurn None ∅ (shown ++ (result_llm <$> l.*2)))) ->
  runs (run_sequential sr context m config calls) (Watch_ InTurn None ∅ shown) Q.
Proof.
  revert shown Q. induction calls as [|call calls IH]; intros shown Q HQ; cbn.
  { apply runs_ret. specialize (HQ []). cbn in HQ. rewrite app_nil_r in HQ. apply HQ. by split. }
  apply runs_bind, runs_tool_start, runs_bind, runs_quiet; [apply quiet_prepare|]. intros preparation.
  assert (forall f, fi_toolCall f = call -> runs (emitToolExecutionEnd sr f;; m0 ← report_result sr f; stopped ← gets (aborted sr);
    if stopped : bool then mret [(f, m0)] else rest ← run_sequential sr context m config calls; mret ((f, m0) :: rest))
    (Watch_ InTurn None (∅ ⊎ {[+ tool_id call +]}) shown) Q) as Hend.
  { intros f Ef. apply runs_bind, runs_tool_end, runs_bind, runs_report; [done|]. intros r [Hr _]. rewrite Ef in Hr. apply runs_bind, runs_gets. intros w.
    destruct (aborted sr w) eqn:Ea.
    - apply runs_ret, (HQ [(f, r)]), answered_one; [done|]. intros Hc. unfold aborted in Ea. by rewrite Hc in Ea.
    - apply runs_bind, IH. intros l Hl. apply runs_ret. rewrite <- app_assoc. by apply (HQ ((f, r) :: l)), answered_cons. }
  apply runs_bind. destruct preparation as [tool args|outcome]; [|by apply runs_ret, Hend].
  intros w w' f Hw Hr. destruct (stays_run call _ _ _ _ _ _ _ (run_prepared_stays context m call config tool args) Hw Hr) as [Hw' Ef]. eauto.
Qed.

Lemma runs_end call f tools shown :
  fi_toolCall f = call -> runs (emitToolExecutionEnd sr f;; mret f) (Watch_ InTurn None (tools ⊎ {[+ tool_id call +]}) shown) (fun f' y => f' = f /\ y = Watch_ InTurn None tools shown).
Proof. intros Ef. by apply runs_bind, runs_tool_end, runs_ret. Qed.

Lemma end_owes call f : fi_toolCall f = call -> owes call (one_turn (emitToolExecutionEnd sr f;; mret f)).
Proof.
  intros Ef. apply owes_turn. intros w w' j tools shown Hw Hn. right. pose proof (runs_end call f tools shown Ef w) as H. revert Hn.
  match goal with |- (let '(_, _) := ?x in _) = _ -> _ => destruct x as [w1 [f1|e]] eqn:Em end; intros [= <- <-]; [left|right; by exists e].
  destruct (H w1 f1 Hw eq_refl) as (y & Hy & -> & ->). eauto.
Qed.

(** What is left to pay, or a failure. *)
Definition pays_or_fails (call : ToolCall) (j : turns Finalized) : Prop := pays call j \/ is_failed j.

Lemma stays_then_end call (j : turns Finalized) :
  stays call (fun f => fi_toolCall f = call) j ->
  match bind_Ok j (fun f => one_turn (emitToolExecutionEnd sr f;; mret f)) with Done (Err _) => True | Done (Ok _) => False | Turn _ as j' => owes call j' end.
Proof.
  induction j as [r|next IH] using job_turns; intros Hj; inversion Hj as [r' Hr|next' Hn]; subst; cbn.
  - destruct r as [f|e]; [|done]. by apply end_owes, Hr.
  - apply owes_turn. intros w w' j tools shown Hw. destruct (next w) as [w1 j1] eqn:En. intros [= <- <-]. destruct (Hn w w1 j1 tools shown Hw En) as [Hs Hw1].
    specialize (IH w). rewrite En in IH. specialize (IH Hs). unfold bind_Ok in IH. cbn [snd] in IH.
    destruct (bind_job j1 _) as [[f|e]|next1]; [done|right; right; by exists e|by left].
Qed.

Lemma entry_owes context m call config tool args : owes call (parallel_entry sr context m call config tool args).
Proof.
  apply owes_turn. intros w w' j tools shown Hw. destruct (aborted sr w).
  - cbv zeta. destruct (emitToolExecutionEnd sr (Finalized_ call operation_aborted true) w) as [w1 [[]|e]] eqn:Ee; intros [= <- <-]; right; [left|right; by exists e].
    eexists. split; [done|]. split; [done|].
    destruct (runs_tool_end (Finalized_ call operation_aborted true) call tools shown (fun _ y => y = Watch_ InTurn None tools shown) eq_refl eq_refl w w1 tt Hw Ee) as (y & Hy & ->).
    done.
  - pose proof (stays_then_end call _ (run_prepared_stays context m call config tool args)) as H. destruct (bind_Ok _ _) as [[f|e]|next]; [done| |]; cbn.
    + intros [= <- <-]. right; right. by exists e.
    + inversion H as [next' Hn]; subst. by apply Hn.
Qed.

(** The calls that were prepared, each with its entry. *)
Lemma runs_prepare_parallel context m config calls tools shown (Q : list (turns Finalized) -> Watch -> Prop) :
  (forall jobs, Forall2 pays (take (length jobs) calls) jobs -> (never_aborted -> length jobs = length calls) ->
    Q jobs (Watch_ InTurn None (tools ⊎ open_tools (take (length jobs) calls) jobs) shown)) ->
  runs (prepare_parallel sr context m config calls) (Watch_ InTurn None tools shown) Q.
Proof.
  revert tools Q. induction calls as [|call calls IH]; intros tools Q HQ; cbn.
  { apply runs_ret. specialize (HQ []). cbn in HQ. rewrite (right_id_L ∅ (⊎)) in HQ. by apply HQ. }
  apply runs_bind, runs_tool_start, runs_bind, runs_quiet; [apply quiet_prepare|]. intros preparation.
  apply runs_bind.
  assert (forall entry, pays call entry -> runs (stopped ← gets (aborted sr); if stopped : bool then mret [entry] else rest ← prepare_parallel sr context m config calls; mret (entry :: rest))
    (Watch_ InTurn None (tools ⊎ open_tool call entry) shown) Q) as Hnext.
  { intros entry He. apply runs_bind, runs_gets. intros w. destruct (aborted sr w) eqn:Ea.
    - apply runs_ret. specialize (HQ [entry]). cbn in HQ. rewrite take_0 in HQ. cbn in HQ. rewrite (right_id_L ∅ (⊎)) in HQ. apply HQ; [by constructor|].
      intros Hc. unfold aborted in Ea. by rewrite Hc in Ea.
    - apply runs_bind, IH. intros jobs Hj Hc. apply runs_ret. rewrite <- (assoc_L (⊎)). apply (HQ (entry :: jobs)); [by constructor|].
      intros Ha. cbn. by rewrite Hc. }
  destruct preparation as [tool args|outcome].
  - apply runs_ret. apply (Hnext (parallel_entry sr context m call config tool args)). apply entry_owes.
  - apply runs_bind, runs_tool_end; [done|]. apply runs_ret. specialize (Hnext (Done (Ok (Finalized_ call outcome true))) eq_refl).
    cbn in Hnext. by rewrite (right_id_L ∅ (⊎)) in Hnext.
Qed.

Lemma reports_answer calls l rs : outcomes_for calls l -> Forall2 reports l rs -> Forall2 answers calls rs.
Proof. unfold outcomes_for. intros <- H. apply Forall2_fmap_l. eapply Forall2_impl; [exact H|]. by intros f r [Hr _]. Qed.

(** Either way, the results are in the order of the calls. *)
Lemma runs_executeToolCalls context m config shown (Q : ExecutedToolCallBatch -> Watch -> Prop) :
  (forall batch, answered_calls (tool_calls m) (ba_messages batch) -> Q batch (Watch_ InTurn None ∅ (shown ++ (result_llm <$> ba_messages batch)))) ->
  runs (executeToolCalls sr context m config) (Watch_ InTurn None ∅ shown) Q.
Proof.
  intros HQ. unfold executeToolCalls. destruct (_ || _).
  - apply runs_bind, runs_sequential. intros l Hl. apply runs_ret. apply HQ. exact Hl.
  - apply runs_bind, runs_prepare_parallel. intros jobs Hj Hc. rewrite (left_id_L ∅ (⊎)). apply runs_bind, promise_all_runs; [done|]. intros l Hl.
    apply runs_bind, runs_reports. intros rs Hrs. apply runs_ret, HQ. cbn [ba_messages]. pose proof (reports_answer _ _ _ Hl Hrs) as Ha.
    pose proof (Forall2_length _ _ _ Ha) as El. pose proof (Forall2_length _ _ _ Hj) as Ej. split.
    + by replace (take (length rs) (tool_calls m)) with (take (length jobs) (tool_calls m)) by (f_equal; congruence).
    + intros Hna. rewrite <- El, length_take, Hc by done. lia.
Qed.

Lemma runs_truncated calls shown (Q : list ToolResultMessage -> Watch -> Prop) :
  (forall rs, Forall2 answers calls rs -> Forall (fun r => tr_isError r = true) rs -> Q rs (Watch_ InTurn None ∅ (shown ++ (result_llm <$> rs)))) ->
  runs (fail_truncated sr calls) (Watch_ InTurn None ∅ shown) Q.
Proof.
  revert shown Q. induction calls as [|call calls IH]; intros shown Q HQ; cbn.
  { apply runs_ret. specialize (HQ []). cbn in HQ. rewrite app_nil_r in HQ. by apply HQ. }
  apply runs_bind, runs_tool_start, runs_bind, runs_tool_end; [done|]. apply runs_bind, runs_report. intros r [Hr He].
  apply runs_bind, IH. intros rs Hrs Hes. apply runs_ret. rewrite <- app_assoc. apply (HQ (r :: rs)); by constructor.
Qed.

Lemma runs_tools context m config shown (Q : ExecutedToolCallBatch -> Watch -> Prop) :
  am_stopReason m <> StopError -> am_stopReason m <> StopAborted ->
  (forall batch, turn_answered never_aborted m (ba_messages batch) -> Q batch (Watch_ InTurn None ∅ (shown ++ (result_llm <$> ba_messages batch)))) ->
  runs (run_tools sr context m config) (Watch_ InTurn None ∅ shown) Q.
Proof.
  intros He Ha HQ. assert (forall rs, answered_calls (tool_calls m) rs -> am_stopReason m <> StopLength -> turn_answered never_aborted m rs) as Hanswered.
  { intros rs [H1 H2] Hl. unfold turn_answered. by destruct (am_stopReason m). }
  unfold run_tools. destruct (tool_calls m) as [|call calls] eqn:Et.
  - apply runs_ret. specialize (HQ (Batch [] true)). cbn in HQ. rewrite app_nil_r in HQ. apply HQ. unfold turn_answered. rewrite Et.
    destruct (am_stopReason m); (done || by split).
  - rewrite <- Et in *. case_decide as El.
    + apply runs_bind, runs_truncated. intros rs Hrs Hes. apply runs_ret, (HQ (Batch rs false)). unfold turn_answered. by rewrite El.
    + apply runs_executeToolCalls. intros batch Hb. apply HQ. by apply Hanswered.
Qed.

(** * The response of the model *)

(** An event [start] comes first or not at all. *)
Definition starts_once (response : EventStream Out E) : Prop :=
  match es_events response with
  | [] => True
  | _ :: rest => Forall (fun next => forall o o' p, next o <> (o', Ok (EvStart p))) rest
  end.

Definition streams_start_once : Prop :=
  forall model messages reasoning key o o' response, sr_streamFunction sr model messages reasoning key o = (o', Ok response) -> starts_once response.

Lemma runs_outside {A} (m : SM Out E A) x (Q : A -> Watch -> Prop) : (forall o o' a, m o = (o', Ok a) -> Q a x) -> runs (outside m) x Q.
Proof.
  intros HQ w w' a Hw. unfold outside. destruct (m (wl_outside w)) as [o r] eqn:Em. intros [= <- ->]. exists x. split; [done|]. by eapply HQ.
Qed.

(** The watcher sees the partial message, when there is one. *)
Definition seen_partial (partial : option AssistantMessage) (shown : list AgentMessage) : Watch := Watch_ InTurn (assistant_llm <$> partial) ∅ shown.

Definition streaming (base : list AgentMessage) (partial : option AssistantMessage) : Streaming :=
  Streaming_ (base ++ match partial with Some p => [assistant_llm p] | None => [] end) (match partial with Some _ => true | None => false end).

Lemma replace_last_snoc (base : list AgentMessage) p m : replace_last (base ++ [p]) m = base ++ [m].
Proof. unfold replace_last. by rewrite removelast_last. Qed.

Lemma runs_finish_response response base partial shown (Q : list AgentMessage * AssistantMessage -> Watch -> Prop) :
  (forall m, Q (base ++ [assistant_llm m], m) (Watch_ InTurn None ∅ (shown ++ [assistant_llm m]))) ->
  runs (finish_response sr response (streaming base partial)) (seen_partial partial shown) Q.
Proof.
  intros HQ. unfold finish_response. apply runs_bind, runs_outside. intros _ _ m _. destruct partial as [p|]; cbn [streaming st_added st_messages].
  - rewrite replace_last_snoc. apply runs_bind, runs_ret. eapply runs_bind, runs_emit; [apply shows_response_end|]. by apply runs_ret.
  - rewrite app_nil_r. apply runs_bind. eapply runs_emit; [apply shows_message_start|]. eapply runs_bind, runs_emit; [apply shows_message_end|]. by apply runs_ret.
Qed.

Lemma runs_stream_events response events base partial shown (Q : list AgentMessage * AssistantMessage -> Watch -> Prop) :
  Forall (fun next => forall o o' p, next o <> (o', Ok (EvStart p))) events ->
  (forall m, Q (base ++ [assistant_llm m], m) (Watch_ InTurn None ∅ (shown ++ [assistant_llm m]))) ->
  runs (stream_events sr response events (streaming base partial)) (seen_partial partial shown) Q.
Proof.
  intros He HQ. revert partial. induction He as [|next events Hnext _ IH]; intros partial; cbn [stream_events]; [by apply runs_finish_response|].
  apply runs_bind, runs_outside. intros o o' event Ho. specialize (Hnext o o').
  assert (forall q, runs (if st_added (streaming base partial) then
      emit sr (OnMessageUpdate (assistant_llm q) event);; stream_events sr response events (Streaming_ (replace_last (st_messages (streaming base partial)) (assistant_llm q)) true)
      else stream_events sr response events (streaming base partial)) (seen_partial partial shown) Q) as Hupdate.
  { intros q. destruct partial as [p|]; cbn [streaming st_added st_messages]; [|apply IH]. rewrite replace_last_snoc.
    eapply runs_bind, runs_emit; [apply shows_message_update|]. apply (IH (Some q)). }
  destruct event; cbn [event_partial]; try apply Hupdate; try by apply runs_finish_response.
  by destruct (Hnext partial0).
Qed.

Lemma runs_streamAssistantResponse context config shown (Q : AgentContext Out E * AssistantMessage -> Watch -> Prop) :
  streams_start_once -> (forall m, Q (add_messages context [assistant_llm m], m) (Watch_ InTurn None ∅ (shown ++ [assistant_llm m]))) ->
  runs (streamAssistantResponse sr context config) (Watch_ InTurn None ∅ shown) Q.
Proof.
  intros Hs HQ. unfold streamAssistantResponse. apply runs_bind, runs_quiet; [destruct (cf_transformContext config); [apply quiet_outside|apply quiet_ret]|]. intros messages.
  apply runs_bind, runs_quiet; [apply quiet_outside|]. intros llm. apply runs_bind, runs_quiet; [destruct (cf_getApiKey config); [apply quiet_outside|apply quiet_ret]|].
  intros key. apply runs_bind, runs_outside. intros o o' response Hr%Hs. apply runs_bind.
  set (R := fun (streamed : list AgentMessage * AssistantMessage) y => runs (mret (AgentContext_ (fst streamed) (ctx_tools context), snd streamed) : step _) y Q).
  assert (forall m, R (ctx_messages context ++ [assistant_llm m], m) (Watch_ InTurn None ∅ (shown ++ [assistant_llm m]))) as HR by (intros m; apply runs_ret, HQ).
  clearbody R. unfold starts_once in Hr. replace (Streaming_ (ctx_messages context) false) with (streaming (ctx_messages context) None) by (unfold streaming; by rewrite app_nil_r).
  change (Watch_ InTurn None ∅ shown) with (seen_partial None shown).
  destruct (es_events response) as [|first rest]; [by apply runs_stream_events|]. cbn [stream_events]. apply runs_bind, runs_outside. intros o1 o2 event Ho.
  assert (runs (stream_events sr response rest (streaming (ctx_messages context) None)) (seen_partial None shown) R) as Hrest by by apply runs_stream_events.
  destruct event; cbn [event_partial streaming st_added]; try exact Hrest; [|by apply runs_finish_response..].
  eapply runs_bind, runs_emit; [apply shows_message_start|]. cbn [st_messages streaming]. rewrite app_nil_r. by apply (runs_stream_events response rest _ (Some partial)).
Qed.

(** * The loop *)

(** Between two iterations: what the watcher saw is what the run returns. *)
Definition at_iteration (s : LoopState (O := Out) (E := E)) : Watch :=
  Watch_ (match lo_lastCompletedTurn s with Some _ => BetweenTurns | None => InTurn end) None ∅ (lo_newMessages s).

Definition at_end (newMessages : list AgentMessage) : Watch := Watch_ AfterRun None ∅ newMessages.

Definition iteration_seen (r : list AgentMessage + LoopState (O := Out) (E := E)) (y : Watch) : Prop :=
  match r with
  | inl newMessages => y = at_end newMessages
  | inr s => y = at_iteration s /\ exists last, lo_lastCompletedTurn s = Some last
  end.

Lemma runs_end_run newMessages (Q : list AgentMessage + LoopState (O := Out) (E := E) -> Watch -> Prop) :
  Q (inl newMessages) (at_end newMessages) -> runs (end_run sr newMessages) (Watch_ BetweenTurns None ∅ newMessages) Q.
Proof. intros HQ. unfold end_run. eapply runs_bind, runs_emit; [apply shows_agent_end|]. by apply runs_ret. Qed.

Lemma runs_turn_end m results shown (Q : unit -> Watch -> Prop) :
  turn_answered never_aborted m results -> Q tt (Watch_ BetweenTurns None ∅ (shown ++ assistant_llm m :: (result_llm <$> results))) ->
  runs (emit sr (OnTurnEnd (assistant_llm m) results)) (Watch_ InTurn None ∅ (shown ++ assistant_llm m :: (result_llm <$> results))) Q.
Proof. intros Hm HQ. eapply runs_emit; [|exact HQ]. by apply shows_turn_end. Qed.

Lemma runs_after_response context config shown m :
  runs (after_response sr context config shown m) (Watch_ InTurn None ∅ (shown ++ [assistant_llm m])) iteration_seen.
Proof.
  unfold after_response. destruct (bool_decide (am_stopReason m = StopError) || bool_decide (am_stopReason m = StopAborted)) eqn:Ef.
  - apply runs_bind, runs_quiet; [apply quiet_hook|]. intros _. apply runs_bind, (runs_turn_end m []), runs_end_run; [|done].
    unfold turn_answered. apply orb_true_iff in Ef as [->%bool_decide_eq_true| ->%bool_decide_eq_true]; done.
  - apply orb_false_iff in Ef as [He%bool_decide_eq_false Ha%bool_decide_eq_false]. apply runs_bind, runs_tools; [done..|]. intros batch Hb.
    apply runs_bind, runs_quiet; [apply quiet_hook|]. intros decision. rewrite <- (app_assoc shown). cbn [app]. apply runs_bind, runs_turn_end; [done|].
    assert (runs (pending ← poll (cf_getSteeringMessages config);
      mret (inr (LoopState_ (add_messages context (result_llm <$> ba_messages batch)) config (shown ++ assistant_llm m :: (result_llm <$> ba_messages batch))
        (Some (AgentTurnContext_ m (ba_messages batch) (add_messages context (result_llm <$> ba_messages batch)) (shown ++ assistant_llm m :: (result_llm <$> ba_messages batch))))
        (match decision with Some DecideContinue => true | _ => false end && negb (negb (ba_terminate batch) || bool_decide (0 < length pending)%nat)) pending (negb (ba_terminate batch)))))
      (Watch_ BetweenTurns None ∅ (shown ++ assistant_llm m :: (result_llm <$> ba_messages batch))) iteration_seen) as Hnext.
    { apply runs_bind, runs_quiet; [apply quiet_poll|]. intros pending. apply runs_ret. cbn. split; [done|]. eauto. }
    destruct decision as [[]|]; [exact Hnext|by apply runs_end_run|exact Hnext].
Qed.

Lemma runs_prepare_turn s (Q : _ -> Watch -> Prop) :
  (forall prepared, Q prepared (Watch_ InTurn None ∅ (lo_newMessages s))) -> runs (prepare_turn sr s) (at_iteration s) Q.
Proof.
  intros HQ. unfold prepare_turn, at_iteration. destruct (lo_lastCompletedTurn s) as [last|]; [|by apply runs_ret].
  apply runs_bind, runs_quiet; [apply quiet_hook|]. intros snapshot. destruct (match snapshot with Some _ => _ | None => _ end) as [[context config] prepared].
  apply runs_bind, runs_quiet; [destruct (lo_pendingMessages s); [apply quiet_poll|apply quiet_ret]|]. intros pending.
  eapply runs_bind, runs_emit; [apply shows_turn_start|]. by apply runs_ret.
Qed.

Lemma runs_iteration s : streams_start_once -> runs (iteration sr s) (at_iteration s) iteration_seen.
Proof.
  intros Hs. unfold iteration. apply runs_bind, runs_prepare_turn. intros [[[context config] prepared] pending].
  apply runs_bind, runs_gets. intros w. apply runs_bind, runs_messages, runs_bind, runs_quiet.
  { unfold prepare_request. destruct (cf_prepareRequest config); [|apply quiet_ret]. apply quiet_bind; [apply quiet_outside|]. intros; apply quiet_ret. }
  intros request. apply runs_bind, runs_streamAssistantResponse; [done|]. intros m. apply runs_after_response.
Qed.

(** Out of fuel, nothing is said. *)
Definition run_seen (r : option (list AgentMessage)) (y : Watch) : Prop := match r with Some newMessages => y = at_end newMessages | None => True end.

Lemma runs_iterations fuel s : streams_start_once -> runs (iterations sr fuel s) (at_iteration s) run_seen.
Proof.
  intros Hs. revert s. induction fuel as [|fuel IH]; intros s; cbn; [by apply runs_ret|]. apply runs_bind. eapply runs_mono; [by apply runs_iteration|].
  intros [newMessages|s'] y; cbn; [intros ->; by apply runs_ret|]. intros [-> [last El]]. destruct (goes_on s'); [apply IH|].
  assert (forall pending, at_iteration s' = at_iteration (again s' pending)) as Hagain by done.
  apply runs_bind, runs_quiet; [apply quiet_poll|]. intros followUps. case_bool_decide; [rewrite (Hagain followUps); apply IH|].
  destruct (lo_explicitContinuation s'); [rewrite (Hagain []); apply IH|].
  unfold at_iteration. rewrite El. eapply runs_bind, runs_emit; [apply shows_agent_end|]. by apply runs_ret.
Qed.

Lemma runs_runLoop fuel context newMessages config : streams_start_once -> runs (runLoop sr fuel context newMessages config) (Watch_ InTurn None ∅ newMessages) run_seen.
Proof.
  intros Hs. unfold runLoop. apply runs_bind, runs_quiet; [apply quiet_poll|]. intros pending.
  by apply (runs_iterations fuel (LoopState_ context config newMessages None false pending true)).
Qed.

Lemma runs_runAgentLoop fuel prompts context config : streams_start_once -> runs (runAgentLoop sr fuel prompts context config) unwatched run_seen.
Proof.
  intros Hs. unfold runAgentLoop. apply runs_bind, runs_gets. intros w. eapply runs_bind, runs_emit; [apply shows_agent_start|].
  eapply runs_bind, runs_emit; [apply shows_turn_start|]. apply runs_bind, runs_messages. by apply runs_runLoop.
Qed.

Lemma runs_runAgentLoopContinue fuel context config :
  streams_start_once -> runs (runAgentLoopContinue sr fuel context config) unwatched (fun r y => match r with inl _ => y = unwatched | inr r => run_seen r y end).
Proof.
  intros Hs. unfold runAgentLoopContinue. destruct (check_continue context); [by apply runs_ret|]. eapply runs_bind, runs_emit; [apply shows_agent_start|].
  eapply runs_bind, runs_emit; [apply shows_turn_start|]. apply runs_bind. eapply runs_mono; [by apply runs_runLoop|]. intros r y Hr. by apply runs_ret.
Qed.

End Steps.

(** * What was seen *)

Definition shown_message (event : AgentEvent) : option AgentMessage := match event with OnMessageEnd m => Some m | _ => None end.
Definition started_tool (event : AgentEvent) : option jsstr := match event with OnToolStart id _ _ => Some id | _ => None end.
Definition ended_tool (event : AgentEvent) : option jsstr := match event with OnToolEnd id _ _ _ => Some id | _ => None end.

(** How many calls of an id were started or ended. *)
Definition count (f : AgentEvent -> option jsstr) (id : jsstr) (events : list AgentEvent) : nat := length (filter (fun e => f e = Some id) events).

Section Seen.
Context (complete : Prop).

Lemma watched_messages events x : watched complete events x -> omap shown_message events = wt_shown x.
Proof.
  induction 1 as [|events event x y _ IH Hs]; [done|]. rewrite omap_app, IH. destruct Hs; cbn; by rewrite ?app_nil_r.
Qed.

Lemma count_snoc f id events event : count f id (events ++ [event]) = (count f id events + if decide (f event = Some id) then 1 else 0)%nat.
Proof. unfold count. rewrite filter_app, length_app. f_equal. rewrite filter_cons. by case_decide. Qed.

(** What is open is what was started and did not end. *)
Lemma watched_tools events x id :
  watched complete events x -> (count ended_tool id events + multiplicity id (wt_tools x) = count started_tool id events)%nat.
Proof.
  induction 1 as [|events event x y _ IH Hs]; [cbn; by rewrite multiplicity_empty|]. rewrite !count_snoc.
  destruct Hs; cbn in *; try rewrite multiplicity_disj_union, multiplicity_singleton in IH; rewrite ?multiplicity_disj_union, ?multiplicity_singleton;
    repeat case_decide; simplify_eq; lia.
Qed.

Lemma watched_prefix events more x : watched complete (events ++ more) x -> exists y, watched complete events y.
Proof.
  revert x. induction more as [|event more IH] using rev_ind; intros x; [rewrite app_nil_r; eauto|]. rewrite app_assoc. intros H.
  inversion H as [E|events' event' y z Hw Hs E]; [by destruct (events ++ more)|]. apply app_inj_tail in E as [-> _]. by eapply IH.
Qed.

(** The end of the run comes once, and last. *)
Lemma watched_end events x :
  watched complete events x ->
  match wt_phase x with
  | AfterRun => exists front, events = front ++ [OnAgentEnd (wt_shown x)] /\ Forall (fun e => match e with OnAgentEnd _ => False | _ => True end) front
  | _ => Forall (fun e => match e with OnAgentEnd _ => False | _ => True end) events
  end.
Proof.
  induction 1 as [|events event x y _ IH Hs]; [constructor|]. destruct Hs; cbn in *; try (apply Forall_app; split; [done|by constructor]). by exists events.
Qed.

(** The results of a turn stand behind its response. *)
Lemma watched_turns events x m results :
  watched complete events x -> OnTurnEnd (assistant_llm m) results ∈ events ->
  turn_answered complete m results /\ exists front back, wt_shown x = front ++ assistant_llm m :: (result_llm <$> results) ++ back.
Proof.
  induction 1 as [|events event x y _ IH Hs]; [by intros ?%elem_of_nil|]. rewrite elem_of_app, list_elem_of_singleton. intros [Hin|Ee].
  - destruct (IH Hin) as (Ha & front & back & E). split; [done|].
    assert (exists back', wt_shown y = front ++ assistant_llm m :: (result_llm <$> results) ++ back') as (back' & ->); [|eauto].
    destruct Hs; cbn in *; try (by exists back); rewrite E; eexists; rewrite <- app_assoc; cbn; by rewrite <- app_assoc.
  - destruct Hs as [| | | | | | | | |m' results' shown Ha|]; simplify_eq. split; [done|]. exists shown, []. cbn. by rewrite app_nil_r.
Qed.
End Seen.

(** * Tools are declared before they are used *)

Section Declared.
Context {Out E : Type}.
Implicit Types (context : AgentContext Out E).

Lemma last_system_Some messages before pending after :
  last_system messages = Some (before, pending, after) -> messages = before ++ system_llm pending :: after /\ systems after = [].
Proof.
  revert before pending after. induction messages as [|m messages IH]; intros before pending after; cbn; [done|].
  destruct (last_system messages) as [[[before' pending'] after']|] eqn:El.
  - intros [= <- <- <-]. destruct (IH _ _ _ eq_refl) as [-> Ha]. done.
  - destruct m as [[p| | |]| | | | |]; cbn; try done. intros [= <- <- <-]. split; [done|]. clear IH.
    induction messages as [|m messages IH]; [done|]. cbn in El. destruct (last_system messages) as [[[? ?] ?]|]; [done|].
    destruct m as [[q| | |]| | | | |]; cbn in El |- *; try done; by apply IH.
Qed.

Lemma last_system_None messages : last_system messages = None -> systems messages = [].
Proof.
  induction messages as [|m messages IH]; cbn; [done|]. destruct (last_system messages) as [[[? ?] ?]|]; [done|].
  destruct m as [[q| | |]| | | | |]; cbn; try done; intros _; by apply IH.
Qed.

Lemma span_no_system messages : systems messages = [] -> span_system messages = ([], messages).
Proof. destruct messages as [|m messages]; cbn; [done|]. unfold systems. cbn. by destruct (isSystemMessage m). Qed.

Lemma systems_app a b : systems (a ++ b) = systems a ++ systems b.
Proof. apply omap_app. Qed.

(** The tools after a transcript whose last system message is [m]. *)
Lemma current_tools_then messages m after :
  systems after = [] -> getCurrentTools (messages ++ system_llm m :: after) = (replay_tools (by_name (getCurrentTools messages)) m).*2.
Proof.
  intros Ha. unfold getCurrentTools at 1. rewrite systems_app, foldl_app, (proj1 (current_tools_by_name messages)).
  change (systems (system_llm m :: after)) with (m :: systems after). by rewrite Ha.
Qed.

Lemma replay_nothing tools m : default [] (sy_toolsAdded m) = [] -> default [] (sy_toolsRemoved m) = [] -> replay_tools tools m = tools.
Proof. intros Ea Er. unfold replay_tools. by rewrite Ea, Er. Qed.

Lemma unless_empty_default {A} (l : list A) : default [] (unless_empty l) = l.
Proof. by destruct l. Qed.

Lemma set_tool_added tools added kv : kv ∈ foldl set_tool tools added -> kv ∈ tools \/ kv.2 ∈ added.
Proof.
  revert tools. induction added as [|t added IH]; intros tools; cbn; [by left|]. intros [Hin|Hin]%IH; [|right; by right].
  apply amap_set_elem in Hin as [->|Hin]; [right; left|by left].
Qed.

Lemma delete_tool_elem (tools : list (jsstr * Tool)) removed kv : kv ∈ foldl amap_delete tools removed -> kv ∈ tools.
Proof. revert tools. induction removed as [|name removed IH]; intros tools; cbn; [done|]. by intros [Hin _]%IH%amap_delete_elem. Qed.

(** Only tools that were added are there. *)
Lemma current_tools_added messages t : t ∈ getCurrentTools messages -> t ∈ all_added messages.
Proof.
  unfold getCurrentTools, all_added. intros ([name t'] & -> & Hin)%list_elem_of_fmap. cbn.
  assert (forall tools, (name, t') ∈ foldl replay_tools tools (systems messages) -> (name, t') ∈ tools \/ t' ∈ concat (added_tools <$> systems messages)) as H.
  { clear Hin. induction (systems messages) as [|m ms IH]; intros tools; cbn; [by left|]. rewrite elem_of_app. intros [Hin|Hin]%IH; [|by right; right].
    unfold replay_tools in Hin. apply set_tool_added in Hin as [Hin%delete_tool_elem|Hin]; [by left|by right; left]. }
  destruct (H [] Hin) as [?%elem_of_nil|]; done.
Qed.

Lemma all_added_app a b : all_added (a ++ b) = all_added a ++ all_added b.
Proof. unfold all_added. by rewrite systems_app, fmap_app, concat_app. Qed.

Definition context_tools context : list Tool := at_tool <$> default [] (ctx_tools context).

Lemma declarations_ok context : Forall tool_ok (context_tools context) -> toToolDeclaration <$> (at_tool <$> default [] (ctx_tools context)) = context_tools context.
Proof.
  unfold context_tools. induction (at_tool <$> default [] (ctx_tools context)) as [|t tools IH]; [done|]. intros [Ht H]%Forall_cons. cbn. by rewrite toToolDeclaration_id, IH.
Qed.

(** Changes that are none lead nowhere. *)
Lemma no_changes_same previous current :
  NoDup (names previous) -> NoDup (names current) -> Forall tool_ok previous -> Forall tool_ok current ->
  no_changes (getToolStateChanges previous current) = true -> previous ≡ₚ current.
Proof.
  intros Hp Hc Op Oc [Ea%bool_decide_eq_true Er%bool_decide_eq_true]%andb_true_iff.
  set (m := withToolChanges (SystemMessage_ (InputString []) None None None (NInt 0)) (getToolStateChanges previous current)).
  destruct (changes_applied previous current m) as (tools & Et & _ & Hperm); [done..|apply unless_empty_default|apply unless_empty_default|].
  rewrite replay_nothing in Et; [|unfold m; cbn; rewrite unless_empty_default; by apply nil_length_inv..].
  apply (f_equal (fun l => l.*2)) in Et. rewrite !by_name_tools in Et. by subst.
Qed.

Lemma changes_lead messages after p context :
  NoDup (names (context_tools context)) -> Forall tool_ok (context_tools context) -> Forall tool_ok (all_added messages) -> systems after = [] ->
  getCurrentTools (messages ++ system_llm (withToolChanges p (getToolStateChanges (getCurrentTools messages) (context_tools context))) :: after) ≡ₚ context_tools context.
Proof.
  intros Hn Oc Om Ha. rewrite current_tools_then by done.
  edestruct (changes_applied (getCurrentTools messages) (context_tools context)) as (tools & -> & _ & Hperm);
    [apply current_tools_by_name|done| |done|apply unless_empty_default|apply unless_empty_default|by rewrite by_name_tools].
  apply Forall_forall. intros t Ht%current_tools_added. rewrite Forall_forall in Om. by apply Om.
Qed.

Lemma declared_tools context pending timestamp :
  NoDup (names (context_tools context)) -> Forall tool_ok (context_tools context) -> Forall tool_ok (all_added (ctx_messages context ++ pending)) ->
  getCurrentTools (ctx_messages context ++ declareToolChanges context pending timestamp) ≡ₚ context_tools context.
Proof.
  intros Hn Oc Om. assert (forall messages, (forall t, t ∈ all_added messages -> t ∈ all_added (ctx_messages context ++ pending)) ->
    Forall tool_ok (all_added messages) /\ (no_changes (getToolStateChanges (getCurrentTools messages) (context_tools context)) = true -> getCurrentTools messages ≡ₚ context_tools context)) as Hsame.
  { intros messages Hs. assert (Forall tool_ok (all_added messages)) as Ok' by (apply Forall_forall; intros t Ht; rewrite Forall_forall in Om; by apply Om, Hs).
    split; [done|]. apply no_changes_same; [apply current_tools_by_name|done| |done]. apply Forall_forall. intros t Ht%current_tools_added.
    rewrite Forall_forall in Ok'. by apply Ok'. }
  unfold declareToolChanges. rewrite declarations_ok by done. destruct (last_system pending) as [[[before p] after]|] eqn:El.
  - apply last_system_Some in El as [-> Ha]. set (messages := ctx_messages context ++ before). replace (ctx_messages context ++ before ++ system_llm (withToolChanges p NO_CHANGES) :: after)
      with (messages ++ system_llm (withToolChanges p NO_CHANGES) :: after) by (unfold messages; by rewrite <- app_assoc).
    rewrite (current_tools_then messages _ after Ha), replay_nothing, by_name_tools by done.
    destruct (Hsame messages) as [Okm Hm]. { intros t Ht. rewrite app_assoc, all_added_app. apply elem_of_app. by left. }
    assert (getCurrentTools (ctx_messages context ++ before ++ system_llm (withToolChanges p (getToolStateChanges (getCurrentTools messages) (context_tools context))) :: after)
      ≡ₚ context_tools context) as Hchanged by (rewrite app_assoc; by apply changes_lead).
    destruct (no_changes _) eqn:En; cbn [andb]; [|exact Hchanged]. destruct (bool_decide _ && bool_decide _) eqn:Eb; [|exact Hchanged].
    apply andb_true_iff in Eb as [Ea%bool_decide_eq_true%nil_length_inv Er%bool_decide_eq_true%nil_length_inv].
    rewrite app_assoc. fold messages. rewrite current_tools_then, replay_nothing, by_name_tools by done. by apply Hm.
  - apply last_system_None in El. assert (getCurrentTools (ctx_messages context ++ pending) = getCurrentTools (ctx_messages context)) as Et.
    { unfold getCurrentTools. by rewrite systems_app, El, app_nil_r. }
    rewrite Et. destruct (Hsame (ctx_messages context)) as [Okm Hm]. { intros t Ht. rewrite all_added_app. apply elem_of_app. by left. }
    destruct (no_changes _) eqn:En; [rewrite Et; by apply Hm|]. rewrite span_no_system by done. cbn [app]. by apply changes_lead.
Qed.

(** What is not a system message is left as it is. *)
Definition not_system (m : AgentMessage) : bool := match isSystemMessage m with Some _ => false | None => true end.

Lemma declare_keeps context pending timestamp :
  filter (fun m => not_system m = true) (declareToolChanges context pending timestamp) = filter (fun m => not_system m = true) pending.
Proof.
  unfold declareToolChanges. destruct (last_system pending) as [[[before p] after]|] eqn:El.
  - apply last_system_Some in El as [-> _]. destruct (_ && _); [done|]. by rewrite !filter_app, !filter_cons.
  - apply last_system_None in El. destruct (no_changes _); [done|]. rewrite span_no_system by done. cbn [app]. by rewrite filter_cons.
Qed.
Lemma same_no_changes previous current :
  NoDup (names previous) -> NoDup (names current) -> Forall tool_ok previous -> Forall tool_ok current -> previous ≡ₚ current ->
  no_changes (getToolStateChanges previous current) = true.
Proof.
  intros Hp Hc Op Oc Heq. rewrite Forall_forall in Op, Oc. unfold no_changes, getToolStateChanges. cbn [ch_toolsAdded ch_toolsRemoved]. rewrite !filter_false; [done|..].
  - apply Forall_forall. intros t Ht Hd. eapply (differs_iff current); [done| |exact Hd|by rewrite <- Heq].
    intros other Ho. rewrite declarationsEqual_eq by auto. naive_solver.
  - apply Forall_forall. intros t Ht Hd. eapply (differs_iff previous); [done| |exact Hd|by rewrite Heq].
    intros other Ho. apply declarationsEqual_eq; auto.
Qed.

(** What was declared is not declared again. *)
Lemma declared_once context pending timestamp timestamp' :
  NoDup (names (context_tools context)) -> Forall tool_ok (context_tools context) -> Forall tool_ok (all_added (ctx_messages context ++ pending)) ->
  declareToolChanges (add_messages context (declareToolChanges context pending timestamp)) [] timestamp' = [].
Proof.
  intros Hn Oc Om. pose proof (declared_tools context pending timestamp Hn Oc Om) as Hperm. unfold declareToolChanges at 1. cbn [last_system add_messages ctx_messages ctx_tools].
  rewrite app_nil_r, (declarations_ok context Oc). set (messages := ctx_messages context ++ declareToolChanges context pending timestamp) in *.
  assert (forall t, t ∈ getCurrentTools messages -> tool_ok t) as Ok_ by (intros t Ht; rewrite Forall_forall in Oc; apply Oc; by rewrite <- Hperm).
  rewrite same_no_changes; [done|apply current_tools_by_name|done|by apply Forall_forall|done..].
Qed.
End Declared.
