(* ===== verification/Agent.v ===== *)
(** The object that owns a conversation and its queues: [packages/agent/src/agent.ts].

    Tools are kept by reference: [tool_of] gives what is behind a reference.  The
    options and the listeners do not change; what they do, and the rest of the
    outside world, are steps on the state of the object and on [Ext]. *)
From S2P Require Import Prelude JsBase JsFloat JsText Json JsonText JsonParse SessionTypes AiTypes AgentMessages Transcript AssistantFrames SerialQueue AgentLoop.

(** * The queues *)

Inductive QueueMode : Type := QueueAll | QueueOneAtATime.

Record PendingMessageQueue : Type := Queue_ { pq_mode : QueueMode; pq_messages : list AgentMessage }.

Definition enqueue_message (q : PendingMessageQueue) (m : AgentMessage) : PendingMessageQueue := Queue_ (pq_mode q) (pq_messages q ++ [m]).

Definition hasItems (q : PendingMessageQueue) : bool := bool_decide (0 < length (pq_messages q))%nat.

Definition peek (q : PendingMessageQueue) : list AgentMessage :=
  match pq_mode q, pq_messages q with
  | QueueAll, messages => messages
  | QueueOneAtATime, first :: _ => [first]
  | QueueOneAtATime, [] => []
  end.

Definition drain (q : PendingMessageQueue) : PendingMessageQueue * list AgentMessage :=
  let drained := peek q in (Queue_ (pq_mode q) (drop (length drained) (pq_messages q)), drained).

Definition clear (q : PendingMessageQueue) : PendingMessageQueue := Queue_ (pq_mode q) [].

(** * The state *)

Record AgentState (T : Type) : Type := AgentState_ {
  as_model : AgentModel;
  as_thinkingLevel : jsstr;
  as_tools : list T;
  as_messages : list AgentMessage;
  as_isStreaming : bool;
  as_streamingMessage : option AgentMessage;
  as_pendingToolCalls : gset jsstr;
  as_errorMessage : option jsstr;
}.
Arguments AgentState_ {T}.
Arguments as_model {T}.
Arguments as_thinkingLevel {T}.
Arguments as_tools {T}.
Arguments as_messages {T}.
Arguments as_isStreaming {T}.
Arguments as_streamingMessage {T}.
Arguments as_pendingToolCalls {T}.
Arguments as_errorMessage {T}.

(** [activeRun] holds whether the run was aborted; [skipInitialSteeringPoll] is a
    variable of the configuration of the run. *)
Record Agent (T Ext : Type) : Type := Agent_ {
  ag_state : AgentState T;
  ag_steeringQueue : PendingMessageQueue;
  ag_followUpQueue : PendingMessageQueue;
  ag_activeRun : option bool;
  ag_skipInitialSteeringPoll : bool;
  ag_ext : Ext;
}.
Arguments Agent_ {T Ext}.
Arguments ag_state {T Ext}.
Arguments ag_steeringQueue {T Ext}.
Arguments ag_followUpQueue {T Ext}.
Arguments ag_activeRun {T Ext}.
Arguments ag_skipInitialSteeringPoll {T Ext}.
Arguments ag_ext {T Ext}.

Section State.
Context {T : Type}.
Implicit Types (s : AgentState T).

(** [createMutableAgentState], with what the options leave out filled in. *)
Definition createMutableAgentState (declaration : T -> Tool) (systemPrompt : option jsstr) (model : AgentModel) (thinkingLevel : jsstr) (tools : list T) (messages : list AgentMessage) : AgentState T :=
  let initialMessage := createInitialSystemMessage systemPrompt (Some ((fun t => toToolDeclaration (declaration t)) <$> tools)) in
  let messages :=
    match getInitialSystemMessage messages, initialMessage with
    | None, Some m => AgentLlm (MsgSystem m) :: messages
    | _, _ => messages
    end in
  AgentState_ model thinkingLevel tools messages false None ∅ None.

Definition set_messages (messages : list AgentMessage) s : AgentState T :=
  AgentState_ (as_model s) (as_thinkingLevel s) (as_tools s) messages (as_isStreaming s) (as_streamingMessage s) (as_pendingToolCalls s) (as_errorMessage s).

Definition set_streaming_message (message : option AgentMessage) s : AgentState T :=
  AgentState_ (as_model s) (as_thinkingLevel s) (as_tools s) (as_messages s) (as_isStreaming s) message (as_pendingToolCalls s) (as_errorMessage s).

Definition set_pending (pending : gset jsstr) s : AgentState T :=
  AgentState_ (as_model s) (as_thinkingLevel s) (as_tools s) (as_messages s) (as_isStreaming s) (as_streamingMessage s) pending (as_errorMessage s).

Definition set_error (error : option jsstr) s : AgentState T :=
  AgentState_ (as_model s) (as_thinkingLevel s) (as_tools s) (as_messages s) (as_isStreaming s) (as_streamingMessage s) (as_pendingToolCalls s) error.

Definition set_is_streaming (b : bool) s : AgentState T :=
  AgentState_ (as_model s) (as_thinkingLevel s) (as_tools s) (as_messages s) b (as_streamingMessage s) (as_pendingToolCalls s) (as_errorMessage s).

(** What [processEvents] makes of an event, before the listeners. *)
Definition reduce_event s (event : AgentEvent) : AgentState T :=
  match event with
  | OnMessageStart message | OnMessageUpdate message _ => set_streaming_message (Some message) s
  | OnMessageEnd message => set_messages (as_messages s ++ [message]) (set_streaming_message None s)
  | OnToolStart toolCallId _ _ => set_pending ({[toolCallId]} ∪ as_pendingToolCalls s) s
  | OnToolEnd toolCallId _ _ _ => set_pending (as_pendingToolCalls s ∖ {[toolCallId]}) s
  | OnTurnEnd (AgentLlm (MsgAssistant m)) _ =>
      match am_errorMessage m with Some text => if non_empty text then set_error (Some text) s else s | None => s end
  | OnAgentEnd _ => set_streaming_message None s
  | _ => s
  end.
End State.

(** * The object *)

Section Agent.
Context {T Ext E : Type}.
#[local] Abbreviation agent := (Agent T Ext).
#[local] Abbreviation step := (SM (world (Agent T Ext)) E).

(** The options of the constructor, the clock of the outside world, and what it
    needs of errors: [new Error(message)] and the text of an error. *)
Record AgentOptions : Type := AgentOptions_ {
  op_tool_of : T -> AgentTool agent E;
  op_convertToLlm : list AgentMessage -> SM agent E (list Message);
  op_transformContext : option (list AgentMessage -> SM agent E (list AgentMessage));
  op_streamFunction : AgentModel -> list Message -> option jsstr -> option jsstr -> SM agent E (EventStream agent E);
  op_getApiKey : option (jsstr -> SM agent E (option jsstr));
  op_beforeToolCall : option (ToolCallContext agent E -> SM agent E (option BeforeToolCallResult));
  op_afterToolCall : option (ToolCallContext agent E -> AgentToolResult -> bool -> SM agent E (option AfterToolCallResult));
  op_finishTurn : option (AgentTurnContext agent E -> SM agent E (option AgentTurnDecision));
  op_prepareRequest : option (AgentContext agent E -> AgentModel -> jsstr -> SM agent E (option (AgentLoopTurnUpdate agent E)));
  op_prepareNextTurn : option (SM agent E (option (AgentLoopTurnUpdate agent E)));
  op_prepareNextTurnWithContext : option (AgentTurnContext agent E -> SM agent E (option (AgentLoopTurnUpdate agent E)));
  op_toolExecution : ToolExecutionMode;
  op_listeners : list (AgentEvent -> SM agent E unit);
  op_validate : Tool -> ToolCall -> result E json;
  op_picks : Ext -> list nat;
  op_now : Ext -> jsnum;
  op_error : string -> E;
  op_error_message : E -> jsstr;
}.

Variable op : AgentOptions.
Implicit Types (a : agent).

Definition with_state (f : AgentState T -> AgentState T) a : agent :=
  Agent_ (f (ag_state a)) (ag_steeringQueue a) (ag_followUpQueue a) (ag_activeRun a) (ag_skipInitialSteeringPoll a) (ag_ext a).

Definition with_queues (steering followUp : PendingMessageQueue) a : agent :=
  Agent_ (ag_state a) steering followUp (ag_activeRun a) (ag_skipInitialSteeringPoll a) (ag_ext a).

Definition with_run (run : option bool) a : agent :=
  Agent_ (ag_state a) (ag_steeringQueue a) (ag_followUpQueue a) run (ag_skipInitialSteeringPoll a) (ag_ext a).

Definition with_skip (skip : bool) a : agent :=
  Agent_ (ag_state a) (ag_steeringQueue a) (ag_followUpQueue a) (ag_activeRun a) skip (ag_ext a).

(** ** What others may call at any time *)

Definition steer (message : AgentMessage) a : agent := with_queues (enqueue_message (ag_steeringQueue a) message) (ag_followUpQueue a) a.

Definition followUp (message : AgentMessage) a : agent := with_queues (ag_steeringQueue a) (enqueue_message (ag_followUpQueue a) message) a.

Definition clearSteeringQueue a : agent := with_queues (clear (ag_steeringQueue a)) (ag_followUpQueue a) a.

Definition clearFollowUpQueue a : agent := with_queues (ag_steeringQueue a) (clear (ag_followUpQueue a)) a.

Definition clearAllQueues a : agent := clearFollowUpQueue (clearSteeringQueue a).

Definition hasQueuedMessages a : bool := hasItems (ag_steeringQueue a) || hasItems (ag_followUpQueue a).

Definition peekQueuedMessages a : list AgentMessage :=
  match peek (ag_steeringQueue a) with [] => peek (ag_followUpQueue a) | steering => steering end.

Definition abort a : agent := match ag_activeRun a with Some _ => with_run (Some true) a | None => a end.

(** [reset] throws while a run is active. *)
Definition reset : SM agent E unit := fun a =>
  match ag_activeRun a with
  | Some _ => (a, Err (op_error op "Agent is already processing. Wait for completion before resetting."))
  | None =>
      let baseline := match getCurrentSystemMessage (as_messages (ag_state a)) with Some m => [AgentLlm (MsgSystem m)] | None => [] end in
      let s := ag_state a in
      let s := AgentState_ (as_model s) (as_thinkingLevel s) (as_tools s) baseline false None ∅ None in
      (clearSteeringQueue (clearFollowUpQueue (with_state (fun _ => s) a)), Ok tt)
  end.

(** ** A run *)

Fixpoint call_listeners (listeners : list (AgentEvent -> SM agent E unit)) (event : AgentEvent) : SM agent E unit :=
  match listeners with
  | [] => mret tt
  | listener :: listeners => listener event;; call_listeners listeners event
  end.

Definition processEvents (event : AgentEvent) : SM agent E unit :=
  modify (with_state (fun s => reduce_event s event));;
  active ← gets ag_activeRun;
  match active with
  | None => mthrow (op_error op "Agent listener invoked outside active run")
  | Some _ => call_listeners (op_listeners op) event
  end.

(** What the loop has around it; the signal is that of the active run. *)
Definition agent_surroundings : Surroundings agent E :=
  Surroundings_ processEvents (fun a => default false (ag_activeRun a)) (fun a => op_now op (ag_ext a)) (op_error_message op) (op_validate op)
    (fun a => op_picks op (ag_ext a)) (op_streamFunction op).

Definition createContextSnapshot a : AgentContext agent E :=
  AgentContext_ (as_messages (ag_state a)) (Some (op_tool_of op <$> as_tools (ag_state a))).

Definition drain_steering : SM agent E (list AgentMessage) := fun a =>
  if ag_skipInitialSteeringPoll a then (with_skip false a, Ok [])
  else let '(q, drained) := drain (ag_steeringQueue a) in (with_queues q (ag_followUpQueue a) a, Ok drained).

Definition drain_followUps : SM agent E (list AgentMessage) := fun a =>
  let '(q, drained) := drain (ag_followUpQueue a) in (with_queues (ag_steeringQueue a) q a, Ok drained).

Definition prepare_next_turn : option (AgentTurnContext agent E -> SM agent E (option (AgentLoopTurnUpdate agent E))) :=
  match op_prepareNextTurnWithContext op, op_prepareNextTurn op with
  | Some f, _ => Some f
  | None, Some f => Some (fun _ => f)
  | None, None => None
  end.

Definition createLoopConfig a : AgentLoopConfig agent E :=
  AgentLoopConfig_ (as_model (ag_state a)) (if decide (as_thinkingLevel (ag_state a) = js "off") then None else Some (as_thinkingLevel (ag_state a))) None
    (op_convertToLlm op) (op_transformContext op) (op_getApiKey op) (op_finishTurn op) (op_prepareRequest op) prepare_next_turn
    (Some drain_steering) (Some drain_followUps) (Some (op_toolExecution op)) (op_beforeToolCall op) (op_afterToolCall op).

Definition finishRun a : agent :=
  with_run None (with_state (fun s => set_pending ∅ (set_streaming_message None (set_is_streaming false s))) a).

Definition failure_message a (error : E) (was_aborted : bool) (timestamp : jsnum) : AssistantMessage :=
  let model := as_model (ag_state a) in
  AssistantMessage_ [BlockText (TextContent_ [] None)] (mo_api model) (mo_provider model) (mo_id model) None None None None emptyUsage
    (if was_aborted then StopAborted else StopError) None (Some (op_error_message op error)) None None timestamp.

Definition handleRunFailure (error : E) (was_aborted : bool) : step unit :=
  m ← gets (fun w => failure_message (wl_outside w) error was_aborted (op_now op (ag_ext (wl_outside w))));
  emit agent_surroundings (OnMessageStart (assistant_llm m));;
  emit agent_surroundings (OnMessageEnd (assistant_llm m));;
  emit agent_surroundings (OnTurnEnd (assistant_llm m) []);;
  emit agent_surroundings (OnAgentEnd [assistant_llm m]).

(** A step of the object that is not part of the events. *)
Definition on_agent (f : agent -> agent) (w : world agent) : world agent := World (wl_events w) (f (wl_outside w)).

Definition start_run a : agent := with_state (fun s => set_error None (set_streaming_message None (set_is_streaming true s))) (with_run (Some false) a).

(** [executor], between [activeRun] and [finishRun]; its failure is shown as the
    message of a turn.  The answer is whether the loop came to its end. *)
Definition runWithLifecycle (executor : step bool) : step bool := fun w =>
  match ag_activeRun (wl_outside w) with
  | Some _ => (w, Err (op_error op "Agent is already processing."))
  | None =>
      match executor (on_agent start_run w) with
      | (w, Ok done_) => (on_agent finishRun w, Ok done_)
      | (w, Err error) =>
          let '(w, r) := handleRunFailure error (default false (ag_activeRun (wl_outside w))) w in
          (on_agent finishRun w, match r with Ok _ => Ok true | Err e => Err e end)
      end
  end.

(** [fuel] bounds the requests of the run. *)
Definition runPromptMessages (fuel : nat) (messages : list AgentMessage) (skipInitialSteeringPoll : bool) : step bool :=
  runWithLifecycle (fun w =>
    let a := with_skip skipInitialSteeringPoll (wl_outside w) in
    (r ← runAgentLoop agent_surroundings fuel messages (createContextSnapshot a) (createLoopConfig a);
     mret (match r with Some _ => true | None => false end)) (World (wl_events w) a)).

Definition runContinuation (fuel : nat) : step bool :=
  runWithLifecycle (fun w =>
    let a := with_skip false (wl_outside w) in
    (r ← runAgentLoopContinue agent_surroundings fuel (createContextSnapshot a) (createLoopConfig a);
     match r with
     | inl NoMessages => mthrow (op_error op "Cannot continue: no messages in context")
     | inl LastIsAssistant => mthrow (op_error op "Cannot continue from message role: assistant")
     | inr r => mret (match r with Some _ => true | None => false end)
     end) (World (wl_events w) a)).

(** [string | AgentMessage | AgentMessage[]], a string with its images. *)
Inductive prompt_input : Type :=
| PromptText (text : jsstr) (images : list input_block)
| PromptMessage (message : AgentMessage)
| PromptMessages (messages : list AgentMessage).

Definition normalizePromptInput (input : prompt_input) (now : jsnum) : list AgentMessage :=
  match input with
  | PromptText text images => [AgentLlm (MsgUser (UserMessage_ (InputBlocks (InputText (TextContent_ text None) :: images)) now))]
  | PromptMessage message => [message]
  | PromptMessages messages => messages
  end.

Definition busy_text : string := "Agent is already processing a prompt. Use steer() or followUp() to queue messages, or wait for completion.".

Definition prompt (fuel : nat) (input : prompt_input) : step bool := fun w =>
  match ag_activeRun (wl_outside w) with
  | Some _ => (w, Err (op_error op busy_text))
  | None => runPromptMessages fuel (normalizePromptInput input (op_now op (ag_ext (wl_outside w)))) false w
  end.

(** [continue] *)
Definition continue_ (fuel : nat) : step bool := fun w =>
  let messages := as_messages (ag_state (wl_outside w)) in
  match ag_activeRun (wl_outside w) with
  | Some _ => (w, Err (op_error op "Agent is already processing. Wait for completion before continuing."))
  | None =>
      match last messages with
      | None => (w, Err (op_error op "No messages to continue from"))
      | Some lastMessage =>
          if forallb (fun m => match isSystemMessage m with Some _ => true | None => false end) messages
          then (w, Err (op_error op "No messages to continue from"))
          else
            match lastMessage with
            | AgentLlm (MsgAssistant _) =>
                let '(steering, queuedSteering) := drain (ag_steeringQueue (wl_outside w)) in
                let w := on_agent (fun a => with_queues steering (ag_followUpQueue a) a) w in
                match queuedSteering with
                | _ :: _ => runPromptMessages fuel queuedSteering true w
                | [] =>
                    let '(followUps, queuedFollowUps) := drain (ag_followUpQueue (wl_outside w)) in
                    let w := on_agent (fun a => with_queues (ag_steeringQueue a) followUps a) w in
                    match queuedFollowUps with
                    | _ :: _ => runPromptMessages fuel queuedFollowUps false w
                    | [] => (w, Err (op_error op "Cannot continue from message role: assistant"))
                    end
                end
            | _ => runContinuation fuel w
            end
      end
  end.
End Agent.
