(* ===== verification/AgentSpec.v ===== *)
(** What the object that owns a conversation keeps of a run, and that what is queued
    is delivered. *)
From stdpp Require Import gmultiset.
From S2P Require Import Prelude JsBase JsFloat JsText Json JsonText JsonParse SessionTypes AiTypes AgentMessages Transcript AssistantFrames SerialQueue AgentLoop AgentLoopSpec Agent.

(** * The state after the events *)

Section Reduced.
Context {T : Type}.
Implicit Types (s : AgentState T).

(** [x] is what the watcher knows when the state is [s], which was [s0] before the
    run. *)
Definition follows (s0 : AgentState T) (x : Watch) s : Prop :=
  as_messages s = as_messages s0 ++ wt_shown x /\ as_streamingMessage s = wt_message x /\ forall id, id ∈ as_pendingToolCalls s -> id ∈ wt_tools x.

Lemma reduce_follows complete s0 s x event y : shows complete x event y -> follows s0 x s -> follows s0 y (reduce_event s event).
Proof.
  unfold follows. intros Hs (Hm & Hst & Hp). destruct Hs as [|shown|m shown|m m' event shown|m shown|m m' shown|id name args tools shown|id name args partial tools shown Hin|id name result isError tools shown|m results shown Ha|shown];
    cbn in *; try by (rewrite ?Hm, ?app_assoc; done).
  - split_and!; [done..|]. intros id'. rewrite elem_of_union, elem_of_singleton, gmultiset_elem_of_disj_union, gmultiset_elem_of_singleton. naive_solver.
  - split_and!; [done..|]. intros id'. rewrite elem_of_difference, elem_of_singleton. intros [Hin Hne]. specialize (Hp id' Hin). multiset_solver.
  - destruct (am_errorMessage m) as [text|]; [destruct (non_empty text)|]; done.
Qed.

Lemma watched_follows complete s0 events x :
  as_streamingMessage s0 = None -> as_pendingToolCalls s0 = ∅ -> watched complete events x -> follows s0 x (foldl reduce_event s0 events).
Proof.
  intros Hst Hp. induction 1 as [|events event x y _ IH Hs]; [split_and!; [by rewrite app_nil_r|done|cbn; intros id; rewrite Hp; set_solver]|].
  rewrite foldl_app. cbn. by eapply reduce_follows.
Qed.
End Reduced.

(** * Queues *)

Lemma peek_drain q : peek q ++ drop (length (peek q)) (pq_messages q) = pq_messages q.
Proof. unfold peek. destruct (pq_mode q), (pq_messages q) as [|m l]; cbn; rewrite ?drop_all, ?app_nil_r; done. Qed.

Lemma peek_nil q : peek q = [] -> pq_messages q = [].
Proof. unfold peek. by destruct (pq_mode q), (pq_messages q). Qed.

(** * What is queued is delivered *)

Definition not_response (m : AgentMessage) : bool := match m with AgentLlm (MsgAssistant _) => false | _ => true end.

(** The messages of others: neither responses nor declarations of tools. *)
Definition delivered (messages : list AgentMessage) : list AgentMessage :=
  filter (fun m => not_response m = true) (filter (fun m => not_system m = true) messages).

Lemma delivered_app a b : delivered (a ++ b) = delivered a ++ delivered b.
Proof. unfold delivered. by rewrite !filter_app. Qed.

Section Delivery.
Context {T Ext E : Type}.
Variable op : AgentOptions (T := T) (Ext := Ext) (E := E).
#[local] Abbreviation agent := (Agent T Ext).
#[local] Abbreviation step := (SM (world (Agent T Ext)) E).
#[local] Abbreviation sr := (agent_surroundings op).

Definition with_ext (x : Ext) (a : agent) : agent :=
  Agent_ (ag_state a) (ag_steeringQueue a) (ag_followUpQueue a) (ag_activeRun a) (ag_skipInitialSteeringPoll a) x.

(** A step that succeeds, with a result as told, and leaves the object alone. *)
Definition ext_only {A} (P : A -> Prop) (m : SM agent E A) : Prop := forall a, exists x r, m a = (with_ext x a, Ok r) /\ P r.

(** A response that asks for nothing and did not fail. *)
Definition plain_response (m : AssistantMessage) : Prop := tool_calls m = [] /\ am_stopReason m <> StopError /\ am_stopReason m <> StopAborted.

Definition plain_stream (response : EventStream agent E) : Prop :=
  Forall (ext_only (fun _ => True)) (es_events response) /\ ext_only plain_response (es_result response).

(** No hooks; listeners and the model mind their own business, and the model only
    answers. *)
Record plain_options : Prop := PlainOptions {
  po_convertToLlm : forall messages, ext_only (fun _ => True) (op_convertToLlm op messages);
  po_transformContext : op_transformContext op = None;
  po_streamFunction : forall model messages reasoning key, ext_only plain_stream (op_streamFunction op model messages reasoning key);
  po_getApiKey : op_getApiKey op = None;
  po_finishTurn : op_finishTurn op = None;
  po_prepareRequest : op_prepareRequest op = None;
  po_prepareNextTurn : op_prepareNextTurn op = None;
  po_prepareNextTurnWithContext : op_prepareNextTurnWithContext op = None;
  po_listeners : Forall (fun listener => forall event, ext_only (fun _ => True) (listener event)) (op_listeners op);
}.
Hypothesis Hop : plain_options.

(** A run is active, with these messages and these queued. *)
Definition holds (messages : list AgentMessage) (steering followUps : PendingMessageQueue) (w : world agent) : Prop :=
  let a := wl_outside w in
  as_messages (ag_state a) = messages /\ ag_steeringQueue a = steering /\ ag_followUpQueue a = followUps /\
  ag_activeRun a = Some false /\ ag_skipInitialSteeringPoll a = false.

(** [m] succeeds. *)
Definition goes {A} (m : step A) (w : world agent) (Q : A -> world agent -> Prop) : Prop := exists w' a, m w = (w', Ok a) /\ Q a w'.

Lemma goes_ret {A} (a : A) w (Q : A -> world agent -> Prop) : Q a w -> goes (mret a) w Q.
Proof. intros HQ. by exists w, a. Qed.

Lemma goes_bind {A B} (m : step A) (f : A -> step B) w Q : goes m w (fun a w' => goes (f a) w' Q) -> goes (m ≫= f) w Q.
Proof. intros (w1 & a & Hm & w2 & b & Hf & HQ). exists w2, b. split; [|done]. apply sm_bind_Ok. eauto. Qed.

Lemma goes_mono {A} (m : step A) w (Q Q' : A -> world agent -> Prop) : goes m w Q -> (forall a w', Q a w' -> Q' a w') -> goes m w Q'.
Proof. intros (w1 & a & Hm & HQ) H. exists w1, a. auto. Qed.

Lemma goes_gets {A} (f : world agent -> A) w (Q : A -> world agent -> Prop) : Q (f w) w -> goes (gets f) w Q.
Proof. intros HQ. by exists w, (f w). Qed.

Lemma goes_outside {A} (P : A -> Prop) (m : SM agent E A) messages qs qf w (Q : A -> world agent -> Prop) :
  ext_only P m -> holds messages qs qf w -> (forall r w', P r -> holds messages qs qf w' -> Q r w') -> goes (outside m) w Q.
Proof.
  intros Hm Hw HQ. destruct (Hm (wl_outside w)) as (x & r & Em & Hr). unfold goes, outside. rewrite Em. do 2 eexists. split; [done|]. by apply HQ.
Qed.

Lemma listeners_ext event listeners : Forall (fun listener => forall event, ext_only (fun _ => True) (listener event)) listeners -> ext_only (fun _ => True) (call_listeners listeners event).
Proof.
  induction 1 as [|listener listeners Hl _ IH]; intros a; cbn.
  - exists (ag_ext a), tt. split; [|done]. by destruct a.
  - destruct (Hl event a) as (x & [] & El & _). destruct (IH (with_ext x a)) as (x' & [] & El' & _). exists x', tt. split; [|done].
    unfold mbind, sm_bind. by rewrite El, El'.
Qed.

Lemma goes_emit event messages qs qf w (Q : unit -> world agent -> Prop) :
  holds messages qs qf w -> (forall w', holds (messages ++ match shown_message event with Some m => [m] | None => [] end) qs qf w' -> Q tt w') ->
  goes (emit sr event) w Q.
Proof.
  intros (Hm & Hs & Hf & Ha & Hk) HQ. unfold goes, emit. cbn [sr_emit agent_surroundings]. unfold processEvents, modify, gets, mbind, sm_bind.
  set (a1 := with_state _ (wl_outside w)). assert (ag_activeRun a1 = Some false) as -> by exact Ha.
  destruct (listeners_ext event (op_listeners op) (po_listeners Hop) a1) as (x & [] & El & _). rewrite El. do 2 eexists. split; [done|]. apply HQ. unfold holds. cbn. rewrite Hs, Hf, Ha, Hk. split_and!; [|done..].
  destruct event as [| | |[[| |a|]| | | | |] results|m|m e|m| | |]; cbn; rewrite ?Hm, ?app_nil_r; try done. destruct (am_errorMessage a) as [text|]; [destruct (non_empty text)|]; done.
Qed.

Lemma goes_message m messages qs qf w (Q : unit -> world agent -> Prop) :
  holds messages qs qf w -> (forall w', holds (messages ++ [m]) qs qf w' -> Q tt w') -> goes (emit_message sr m) w Q.
Proof.
  intros Hw HQ. unfold emit_message. eapply goes_bind, goes_emit; [exact Hw|]. cbn. rewrite app_nil_r. intros w1 Hw1. eapply goes_emit; [exact Hw1|]. done.
Qed.

Lemma goes_messages more messages qs qf w (Q : unit -> world agent -> Prop) :
  holds messages qs qf w -> (forall w', holds (messages ++ more) qs qf w' -> Q tt w') -> goes (for_each (emit_message sr) more) w Q.
Proof.
  revert messages w. induction more as [|m more IH]; intros messages w Hw HQ; cbn; [apply goes_ret, HQ; by rewrite app_nil_r|].
  eapply goes_bind, goes_message; [exact Hw|]. intros w1 Hw1. eapply IH; [exact Hw1|]. intros w2 Hw2. apply HQ. by rewrite <- app_assoc in Hw2.
Qed.

Lemma goes_finish_response response s messages qs qf w (Q : list AgentMessage * AssistantMessage -> world agent -> Prop) :
  plain_stream response -> holds messages qs qf w -> (forall l m w', plain_response m -> holds (messages ++ [assistant_llm m]) qs qf w' -> Q (l, m) w') ->
  goes (finish_response sr response s) w Q.
Proof.
  intros [_ Hr] Hw HQ. unfold finish_response. eapply goes_bind, goes_outside; [exact Hr|exact Hw|]. intros m w1 Hm Hw1. apply goes_bind.
  assert (forall w2, holds messages qs qf w2 -> goes (emit sr (OnMessageEnd (assistant_llm m));; mret (if st_added s then replace_last (st_messages s) (assistant_llm m) else st_messages s ++ [assistant_llm m], m)) w2 Q) as Hend.
  { intros w2 Hw2. eapply goes_bind, goes_emit; [exact Hw2|]. intros w3 Hw3. by apply goes_ret, HQ. }
  destruct (st_added s); [by apply goes_ret, Hend|]. eapply goes_emit; [exact Hw1|]. cbn. rewrite app_nil_r. apply Hend.
Qed.

Lemma goes_stream response events s messages qs qf w (Q : list AgentMessage * AssistantMessage -> world agent -> Prop) :
  plain_stream response -> Forall (ext_only (fun _ => True)) events -> holds messages qs qf w ->
  (forall l m w', plain_response m -> holds (messages ++ [assistant_llm m]) qs qf w' -> Q (l, m) w') -> goes (stream_events sr response events s) w Q.
Proof.
  intros Hr He Hw HQ. revert s w Hw. induction He as [|next events Hn _ IH]; intros s w Hw; cbn [stream_events]; [by eapply goes_finish_response|].
  eapply goes_bind, goes_outside; [exact Hn|exact Hw|]. intros event w1 _ Hw1.
  destruct event; cbn [event_partial]; try (by eapply goes_finish_response); try (destruct (st_added s); [|by apply IH]);
    (eapply goes_bind, goes_emit; [exact Hw1|]; cbn; rewrite app_nil_r; intros w2 Hw2; by apply IH).
Qed.

(** The configuration of a run, with whatever model. *)
Definition plain_config (config : AgentLoopConfig agent E) : Prop := exists model reasoning a, config = with_model (createLoopConfig op a) model reasoning.

Lemma goes_response context config messages qs qf w (Q : AgentContext agent E * AssistantMessage -> world agent -> Prop) :
  plain_config config -> holds messages qs qf w ->
  (forall context m w', plain_response m -> holds (messages ++ [assistant_llm m]) qs qf w' -> Q (context, m) w') -> goes (streamAssistantResponse sr context config) w Q.
Proof.
  intros (model & reasoning & a & ->) Hw HQ. unfold streamAssistantResponse. cbn. rewrite (po_transformContext Hop), (po_getApiKey Hop).
  apply goes_bind, goes_ret. eapply goes_bind, goes_outside; [apply (po_convertToLlm Hop)|exact Hw|]. intros llm w1 _ Hw1. apply goes_bind, goes_ret.
  eapply goes_bind, goes_outside; [apply (po_streamFunction Hop)|exact Hw1|]. intros response w2 Hr Hw2.
  eapply goes_bind, goes_stream; [exact Hr|apply Hr|exact Hw2|]. intros l m w3 Hm Hw3. by apply goes_ret, HQ.
Qed.

Lemma goes_poll_steering messages qs qf w (Q : list AgentMessage -> world agent -> Prop) :
  holds messages qs qf w -> (forall w', holds messages (fst (drain qs)) qf w' -> Q (peek qs) w') -> goes (poll (Some drain_steering)) w Q.
Proof.
  intros (Hm & Hs & Hf & Ha & Hk) HQ. unfold goes, poll, outside, drain_steering. rewrite Hk, Hs. cbn. do 2 eexists. split; [done|]. apply HQ. unfold holds. cbn. by rewrite Hf.
Qed.

Lemma goes_poll_followUps messages qs qf w (Q : list AgentMessage -> world agent -> Prop) :
  holds messages qs qf w -> (forall w', holds messages qs (fst (drain qf)) w' -> Q (peek qf) w') -> goes (poll (Some drain_followUps)) w Q.
Proof.
  intros (Hm & Hs & Hf & Ha & Hk) HQ. unfold goes, poll, outside, drain_followUps. rewrite Hf. cbn. do 2 eexists. split; [done|]. apply HQ. unfold holds. cbn. by rewrite Hs.
Qed.

(** An iteration delivers what is pending, and takes from the steering queue. *)
Lemma goes_iteration s messages qs qf w (Q : list AgentMessage + LoopState -> world agent -> Prop) :
  plain_config (lo_config s) -> (lo_lastCompletedTurn s = None \/ lo_pendingMessages s <> []) -> holds messages qs qf w ->
  (forall s' more w', plain_config (lo_config s') -> lo_newMessages s' = lo_newMessages s ++ more -> delivered more = delivered (lo_pendingMessages s) ->
    lo_pendingMessages s' = peek qs -> lo_explicitContinuation s' = false -> lo_hasMoreToolCalls s' = false ->
    holds (messages ++ more) (fst (drain qs)) qf w' -> Q (inr s') w') ->
  goes (iteration sr s) w Q.
Proof.
  intros Hc Hp Hw HQ. destruct Hc as (model & reasoning & a & Ec). unfold iteration.
  assert (forall w1, holds messages qs qf w1 -> goes (timestamp ← gets (fun w => sr_now sr (wl_outside w));
    let declared := declareToolChanges (lo_context s) (lo_pendingMessages s) timestamp in
    for_each (emit_message sr) declared;;
    request ← prepare_request (add_messages (lo_context s) declared) (lo_config s);
    response ← streamAssistantResponse sr (fst request) (snd request);
    after_response sr (fst response) (snd request) (lo_newMessages s ++ declared) (snd response)) w1 Q) as Hrest.
  { intros w1 Hw1. apply goes_bind, goes_gets. cbv zeta. set (declared := declareToolChanges _ _ _). eapply goes_bind, goes_messages; [exact Hw1|]. intros w2 Hw2.
    unfold prepare_request. rewrite Ec at 1. cbn [cf_prepareRequest with_model createLoopConfig]. rewrite (po_prepareRequest Hop). apply goes_bind, goes_ret. cbn [fst snd].
    eapply goes_bind, goes_response; [by exists model, reasoning, a|exact Hw2|]. intros context m w3 (Ht & He & Hab) Hw3. cbn [fst snd].
    unfold after_response, run_tools. rewrite !bool_decide_eq_false_2 by done. cbn [orb]. rewrite Ht. apply goes_bind, goes_ret. cbn [ba_messages ba_terminate fmap list_fmap].
    rewrite Ec. cbn [cf_finishTurn with_model createLoopConfig cf_getSteeringMessages]. rewrite (po_finishTurn Hop). apply goes_bind, goes_ret.
    eapply goes_bind, goes_emit; [exact Hw3|]. cbn [shown_message]. rewrite app_nil_r. intros w4 Hw4.
    eapply goes_bind, goes_poll_steering; [exact Hw4|]. intros w5 Hw5. apply goes_ret.
    eapply (HQ _ (declared ++ [assistant_llm m])); cbn; [by exists model, reasoning, a|by rewrite !app_nil_r, app_assoc| |done..|by rewrite app_assoc].
    rewrite delivered_app. unfold delivered, declared. rewrite (declare_keeps (lo_context s)). cbn. by rewrite app_nil_r. }
  apply goes_bind. unfold prepare_turn. destruct (lo_lastCompletedTurn s) as [last|] eqn:El; [|by apply goes_ret, Hrest].
  destruct Hp as [|Hp]; [done|]. rewrite Ec at 1. cbn [cf_prepareNextTurn with_model createLoopConfig]. unfold prepare_next_turn. rewrite (po_prepareNextTurn Hop), (po_prepareNextTurnWithContext Hop).
  apply goes_bind, goes_ret, goes_bind. destruct (lo_pendingMessages s) as [|p pending] eqn:Ep; [done|]. apply goes_ret.
  eapply goes_bind, goes_emit; [exact Hw|]. cbn [shown_message]. rewrite app_nil_r. intros w1 Hw1. apply goes_ret. by apply Hrest.
Qed.
Definition emptied (q : PendingMessageQueue) : PendingMessageQueue := Queue_ (pq_mode q) [].

Lemma drained_nil q : pq_messages q = [] -> fst (drain q) = emptied q /\ peek q = [].
Proof. destruct q as [mode l]. cbn. intros ->. unfold drain, peek, emptied. cbn. by destruct mode. Qed.

Lemma drain_shorter q : peek q <> [] -> (length (pq_messages (fst (drain q))) < length (pq_messages q))%nat.
Proof. intros Hp. pose proof (peek_drain q) as Hl. apply (f_equal length) in Hl. rewrite length_app in Hl. cbn [drain fst pq_messages]. destruct (peek q); [done|]. cbn [length] in *. lia. Qed.

(** The loop takes as many turns as it needs to deliver what is pending and queued,
    and no more than there are messages queued, and one. *)
Lemma goes_iterations fuel s messages qs qf w (Q : option (list AgentMessage) -> world agent -> Prop) :
  (length (pq_messages qs) + length (pq_messages qf) < fuel)%nat ->
  plain_config (lo_config s) -> (lo_lastCompletedTurn s = None \/ lo_pendingMessages s <> []) -> holds messages qs qf w ->
  (forall more w', delivered more = delivered (lo_pendingMessages s ++ pq_messages qs ++ pq_messages qf) -> holds (messages ++ more) (emptied qs) (emptied qf) w' ->
    Q (Some (lo_newMessages s ++ more)) w') ->
  goes (iterations sr fuel s) w Q.
Proof.
  revert s messages qs qf w. induction fuel as [|fuel IH]; intros s messages qs qf w Hf Hc Hp Hw HQ; [lia|]. cbn [iterations].
  eapply goes_bind, goes_iteration; [done..|]. intros s' more w1 Hc' En Ed Ep Ex Eh Hw1. unfold goes_on. rewrite Eh, Ep. cbn [orb].
  case_bool_decide as Hpeek.
  - assert (peek qs <> []) as Hne by (destruct (peek qs); [cbn in Hpeek; lia|done]). pose proof (drain_shorter qs Hne).
    eapply (IH s' _ (fst (drain qs)) qf); [lia|done|right; by rewrite Ep|exact Hw1|]. intros more' w2 Ed' Hw2. rewrite En, <- app_assoc. apply HQ.
    + rewrite delivered_app, Ed, Ed', Ep, <- delivered_app. f_equal. rewrite (app_assoc (peek qs)). cbn [drain fst pq_messages]. by rewrite peek_drain.
    + by rewrite app_assoc.
  - assert (peek qs = []) as Hnil by (destruct (peek qs); [done|cbn in Hpeek; lia]). apply peek_nil in Hnil as Eq. destruct (drained_nil qs Eq) as [Edr _]. rewrite Edr in Hw1.
    destruct Hc' as (model & reasoning & a & Ec'). rewrite Ec'. cbn [cf_getFollowUpMessages with_model createLoopConfig].
    eapply goes_bind, goes_poll_followUps; [exact Hw1|]. intros w2 Hw2. case_bool_decide as Hpf.
    + assert (peek qf <> []) as Hne by (destruct (peek qf); [cbn in Hpf; lia|done]). pose proof (drain_shorter qf Hne).
      eapply (IH (again s' (peek qf)) _ (emptied qs) (fst (drain qf))); [cbn [emptied pq_messages length]; lia|by exists model, reasoning, a|by right|exact Hw2|].
      intros more' w3 Ed' Hw3. cbn [again lo_newMessages lo_pendingMessages] in *. rewrite En, <- app_assoc. apply HQ.
      * rewrite delivered_app, Ed, Ed', <- delivered_app. f_equal. rewrite Eq. cbn [emptied pq_messages app drain fst]. by rewrite peek_drain.
      * by rewrite app_assoc.
    + assert (peek qf = []) as Hnf by (destruct (peek qf); [done|cbn in Hpf; lia]). apply peek_nil in Hnf as Eqf. destruct (drained_nil qf Eqf) as [Edf _]. rewrite Edf in Hw2.
      rewrite Ex. eapply goes_bind, goes_emit; [exact Hw2|]. cbn [shown_message]. rewrite app_nil_r. intros w3 Hw3. apply goes_ret. rewrite En. apply HQ; [|done].
      by rewrite Ed, Eq, Eqf, !app_nil_r.
Qed.

Lemma lifecycle_ok executor w w1 b :
  ag_activeRun (wl_outside w) = None -> executor (on_agent start_run w) = (w1, Ok b) -> runWithLifecycle op executor w = (on_agent finishRun w1, Ok b).
Proof. intros Ha He. unfold runWithLifecycle. by rewrite Ha, He. Qed.

(** A prompt while no run is active: it, and what is queued, is delivered. *)
Lemma goes_prompt fuel input w :
  let a := wl_outside w in let messages := as_messages (ag_state a) in
  let qs := ag_steeringQueue a in let qf := ag_followUpQueue a in
  ag_activeRun a = None -> (length (pq_messages qs) + length (pq_messages qf) < fuel)%nat ->
  goes (prompt op fuel input) w (fun done_ w' =>
    exists more, done_ = true /\ as_messages (ag_state (wl_outside w')) = messages ++ more /\
      delivered more = delivered (normalizePromptInput input (op_now op (ag_ext a)) ++ pq_messages qs ++ pq_messages qf) /\
      ag_steeringQueue (wl_outside w') = emptied qs /\ ag_followUpQueue (wl_outside w') = emptied qf).
Proof.
  intros a messages qs qf Ha Hf. set (prompts := normalizePromptInput input _).
  set (b := with_skip false (start_run a)). set (w0 := World (wl_events w) b).
  assert (holds messages qs qf w0) as Hw0 by done.
  assert (goes (r ← runAgentLoop sr fuel prompts (createContextSnapshot op b) (createLoopConfig op b); mret (match r with Some _ => true | None => false end)) w0
    (fun done_ w1 => done_ = true /\ exists more, delivered more = delivered (prompts ++ pq_messages qs ++ pq_messages qf) /\ holds (messages ++ more) (emptied qs) (emptied qf) w1))
    as (w1 & done_ & Er & -> & more & Ed & Hm & Hs & Hq & _).
  { unfold runAgentLoop. apply goes_bind, goes_bind, goes_gets. cbv zeta. set (declared := declareToolChanges _ _ _).
    eapply goes_bind, goes_emit; [exact Hw0|]. cbn [shown_message]. rewrite app_nil_r. intros w1 Hw1.
    eapply goes_bind, goes_emit; [exact Hw1|]. cbn [shown_message]. rewrite app_nil_r. intros w2 Hw2.
    eapply goes_bind, goes_messages; [exact Hw2|]. intros w3 Hw3. unfold runLoop. cbn [cf_getSteeringMessages createLoopConfig].
    eapply goes_bind, goes_poll_steering; [exact Hw3|]. intros w4 Hw4.
    assert (length (pq_messages (fst (drain qs))) <= length (pq_messages qs))%nat by (cbn; rewrite length_drop; lia).
    eapply goes_iterations; [|by exists (as_model (ag_state b)), (cf_reasoning (createLoopConfig op b)), b|by left|exact Hw4|]; [lia|].
    intros more w5 Ed Hw5. apply goes_ret. split; [done|]. exists (declared ++ more). split; [|by rewrite app_assoc].
    rewrite delivered_app, Ed. cbn [drain fst pq_messages]. rewrite (app_assoc (peek qs)), (peek_drain qs), (delivered_app prompts). f_equal. unfold delivered, declared. by rewrite (declare_keeps (createContextSnapshot op b)). }
  exists (on_agent finishRun w1), true. split; [|exists more; by split_and!]. unfold prompt. fold a. rewrite Ha. by apply lifecycle_ok.
Qed.
End Delivery.

(** * Idle again *)

Section Idle.
Context {T Ext E : Type}.
Variable op : AgentOptions (T := T) (Ext := Ext) (E := E).

(** No run is active, and nothing of one is left. *)
Definition idle (a : Agent T Ext) : Prop :=
  ag_activeRun a = None /\ as_isStreaming (ag_state a) = false /\ as_streamingMessage (ag_state a) = None /\ as_pendingToolCalls (ag_state a) = ∅.

Lemma lifecycle_idle executor w w' r :
  runWithLifecycle op executor w = (w', r) -> (w' = w /\ (exists e, r = Err e) /\ ag_activeRun (wl_outside w) <> None) \/ (ag_activeRun (wl_outside w) = None /\ idle (wl_outside w')).
Proof.
  unfold runWithLifecycle. destruct (ag_activeRun (wl_outside w)) eqn:Ea; [intros [= <- <-]; left; split_and!; [done|by eexists|done]|].
  intros H. right. split; [done|]. destruct (executor _) as [w1 [b|e]]; [by injection H as <- _|].
  destruct (handleRunFailure op e _ w1) as [w2 r2]. by injection H as <- _.
Qed.
End Idle.
