(* ===== verification/StorageQueue.v ===== *)
(** The storages of sessions as objects that are called concurrently:
    [MemoryStorage] of [packages/agent/src/harness/session/memory.ts] and
    [JsonlStorage] of [jsonl/storage.ts].

    Both keep their commits in one line ([commitQueue]), answer reads at once from
    the state as it is, and turn calls away once they are closing.  The time a
    commit reads when its turn comes is an argument of the call.  The lemmas give
    the laws of their commits, and that the storage in a file, whose commits wait
    for their appends, does what a storage does whose commits happen at once. *)
From S2P Require Import Prelude JsBase Json JsonText JsFloat JsonParse SessionTypes SessionState SessionFork SessionInv SessionForkSpec JsonlCodec JsonlStorage SerialQueue.

(** * The shell of a storage *)

Inductive lifecycle : Type := LifeOpen | LifeClosing | LifeClosed.

Record queued (W E R : Type) : Type := Queued { q_state : lifecycle; q_line : MutationLine W E R }.
Arguments Queued {W E R}.
Arguments q_state {W E R}.
Arguments q_line {W E R}.

Section Shell.
Context {W E R : Type}.
Variable closedError : E.

Definition new_queued : queued W E R := Queued LifeOpen new_MutationLine.

Definition is_open (q : queued W E R) : bool := match q_state q with LifeOpen => true | _ => false end.

Definition enqueue (operation : job W E R) (q : queued W E R) : queued W E R :=
  Queued (q_state q) (if is_open q then run operation (q_line q) else reject closedError (q_line q)).

(** A read: [getEntries], [getValue], [scanValues], [readList], [scanBranch],
    [scanBranchStructure], [scanEntries], [scanUsage], [getStats]. *)
Definition read {A} (f : W -> result E A) (q : queued W E R) (w : W) : result E A := if is_open q then f w else Err closedError.

Definition close (q : queued W E R) : queued W E R := Queued (if is_open q then LifeClosing else q_state q) (q_line q).

(** A turn of the line; the promise of [close] waits for the end of it. *)
Definition queue_turn (x : W * queued W E R) : W * queued W E R :=
  let '(w, q) := x in
  match ln_tail (q_line q), q_state q with
  | [], LifeClosing => (w, Queued LifeClosed (q_line q))
  | _, st => let '(w', l) := turn (w, q_line q) in (w', Queued st l)
  end.

Inductive queue_event : Type :=
| QCall (operation : job W E R)
| QClose
| QNext.

Definition queue_step (x : W * queued W E R) (e : queue_event) : W * queued W E R :=
  match e with
  | QCall operation => (fst x, enqueue operation (snd x))
  | QClose => (fst x, close (snd x))
  | QNext => queue_turn x
  end.

Definition queue_schedule (x : W * queued W E R) (evs : list queue_event) : W * queued W E R := foldl queue_step x evs.

(** What the line of the storage sees of its calls. *)
Fixpoint line_events (open : bool) (evs : list queue_event) : list (event W E R) :=
  match evs with
  | [] => []
  | QCall operation :: evs => (if open then Call operation else Reject closedError) :: line_events open evs
  | QClose :: evs => line_events false evs
  | QNext :: evs => Next :: line_events open evs
  end.

Lemma turn_idle (w : W) (l : MutationLine W E R) : ln_tail l = [] -> turn (w, l) = (w, l).
Proof. destruct l as [tail issued settled sealed]. cbn. by intros ->. Qed.

Lemma queue_turn_line x :
  (fst (queue_turn x), q_line (snd (queue_turn x))) = turn (fst x, q_line (snd x)) /\ is_open (snd (queue_turn x)) = is_open (snd x).
Proof.
  destruct x as [w [st l]]. unfold queue_turn. cbn [fst snd q_line q_state].
  destruct (ln_tail l) eqn:Et; [destruct st; [|by rewrite (turn_idle w l Et)|]|]; by destruct (turn (w, l)) as [w' l'].
Qed.

Lemma queue_schedule_line evs x :
  (fst (queue_schedule x evs), q_line (snd (queue_schedule x evs))) = schedule (fst x, q_line (snd x)) (line_events (is_open (snd x)) evs).
Proof.
  unfold queue_schedule, schedule. revert x. induction evs as [|e evs IH]; intros x; [done|]. cbn [foldl]. rewrite IH.
  destruct e as [op| |]; cbn [line_events queue_step foldl].
  - unfold enqueue. cbn [fst snd q_line]. destruct x as [w [st l]]. unfold is_open. cbn. by destruct st.
  - f_equal. destruct x as [w [st l]]. by destruct st.
  - destruct (queue_turn_line x) as [El Eo]. by rewrite El, Eo.
Qed.

Lemma line_events_unsealed evs open : unsealed (line_events open evs).
Proof.
  unfold unsealed. revert open. induction evs as [|[op| |] evs IH]; intros open; cbn; [by apply Forall_nil_2| |done|by apply Forall_cons].
  apply Forall_cons. split; [by destruct open|done].
Qed.

Lemma line_events_turns evs open : turns (line_events open evs) = length (List.filter (fun e => match e with QNext => true | _ => false end) evs).
Proof. revert open. induction evs as [|[op| |] evs IH]; intros open; cbn; [done|destruct open; cbn; by rewrite IH|done|by rewrite IH]. Qed.

(** A storage is closed only when nothing waits, and nothing is admitted again. *)
Definition closed_idle (q : queued W E R) : Prop := q_state q = LifeClosed -> ln_tail (q_line q) = [].

Lemma queue_step_idle x e : closed_idle (snd x) -> closed_idle (snd (queue_step x e)).
Proof.
  destruct x as [w [st l]]. unfold closed_idle. cbn [snd q_state q_line]. destruct e as [op| |]; cbn [queue_step fst snd].
  - by destruct st.
  - by destruct st.
  - unfold queue_turn. cbn [q_line q_state]. intros H.
    destruct (ln_tail l) eqn:Et; destruct st; rewrite ?(turn_idle w l Et); try done; try (by destruct (turn (w, l))). by specialize (H eq_refl).
Qed.

Lemma queue_schedule_idle evs x : closed_idle (snd x) -> closed_idle (snd (queue_schedule x evs)).
Proof. unfold queue_schedule. revert x. induction evs as [|e evs IH]; intros x H; cbn; [done|]. by apply IH, queue_step_idle. Qed.

(** Turns: once a storage is closing, each brings it nearer to its end. *)
Fixpoint queue_turns (evs : list queue_event) : nat :=
  match evs with
  | [] => 0
  | QNext :: evs => S (queue_turns evs)
  | _ :: evs => queue_turns evs
  end.

Lemma queue_turns_line open evs : turns (line_events open evs) = queue_turns evs.
Proof. revert open. induction evs as [|[op| |] evs IH]; intros open; cbn; [done|destruct open; apply IH|apply IH|by rewrite IH]. Qed.

Lemma queue_schedule_closed evs x : q_state (snd x) = LifeClosed -> q_state (snd (queue_schedule x evs)) = LifeClosed.
Proof.
  unfold queue_schedule. revert x. induction evs as [|e evs IH]; intros [w [st l]] H; [done|]. cbn [foldl]. apply IH. cbn in H. subst st.
  destruct e; [done|done|]. cbn [queue_step]. unfold queue_turn. cbn [q_line q_state]. destruct (ln_tail l); by destruct (turn (w, l)).
Qed.

Lemma queue_closes evs x ms :
  q_state (snd x) = LifeClosing -> Forall2 (fun m ns => within m (slot_job (snd ns))) ms (ln_tail (q_line (snd x))) ->
  (sum_list (S <$> ms) < queue_turns evs)%nat -> q_state (snd (queue_schedule x evs)) = LifeClosed.
Proof.
  unfold queue_schedule. revert x ms. induction evs as [|e evs IH]; intros [w [st l]] ms Ho Hw Hn; cbn in Ho; subst st; cbn [queue_turns foldl] in *; [lia|].
  destruct e as [op| |]; cbn [queue_step fst snd]; [by apply (IH _ ms)..|].
  unfold queue_turn. cbn [q_line q_state snd] in Hw |- *. destruct (ln_tail l) as [|[n s] rest] eqn:Et; [by apply (queue_schedule_closed evs)|].
  inversion Hw as [|m [n' s'] ms' rest' Hm Hf]; subst. cbn in Hn, Hm. pose proof (turn_head (w, l) n s rest m Et Hm) as Hhead.
  destruct (turn (w, l)) as [w' l']. cbn in Hhead. destruct Hhead as [(r & Ht & _)|(m' & s' & -> & Hm' & Ht & _)].
  - apply (IH _ ms'); [done|cbn; by rewrite Ht|lia].
  - apply (IH _ (m' :: ms')); [done|cbn; rewrite Ht; by constructor|cbn in *; lia].
Qed.

(** The bound on the operations called bounds what is left of them. *)
Lemma queue_schedule_within m evs x :
  Forall (fun e => match e with QCall op => within m op | _ => True end) evs ->
  Forall (fun ns => within m (slot_job (snd ns))) (ln_tail (q_line (snd x))) ->
  Forall (fun ns => within m (slot_job (snd ns))) (ln_tail (q_line (snd (queue_schedule x evs)))).
Proof.
  unfold queue_schedule. intros He. revert x. induction He as [|e evs He _ IH]; intros [w [st l]] Hl; [done|]. cbn [foldl]. apply IH. cbn in Hl. clear IH.
  destruct e as [op| |]; cbn [queue_step fst snd q_line]; [| |].
  - unfold enqueue, is_open, run, reject. destruct st; cbn; try done. destruct (ln_sealedError l); cbn; [done|]. apply Forall_app. by split; [|apply Forall_singleton].
  - done.
  - destruct (queue_turn_line (w, Queued st l)) as [Hq _]. apply (f_equal snd) in Hq. cbn [snd fst q_line] in Hq. rewrite Hq. clear Hq.
    destruct (ln_tail l) as [|[n s] rest] eqn:Et; [rewrite (turn_idle w l Et); cbn; by rewrite Et|].
    apply Forall_cons in Hl as [Hs Hr]. destruct (turn_head (w, l) n s rest m Et Hs) as [(r & -> & _)|(m' & s' & -> & Hm' & -> & _)]; [done|].
    apply Forall_cons. split; [by apply within_S|done].
Qed.
End Shell.
Arguments queue_event : clear implicits.

(** * What a session needs of its storage *)

Class Storage (W E : Type) : Type := {
  storage_state : W -> StorageState;
  storage_commit : list Write -> jsnum -> job W E CommitResult;
}.

(** A commit that is answered has done what the commit of the state in memory
    does, and one that is refused has done nothing, as long as addresses are
    valid; it takes a bounded number of turns. *)
Class StorageLaws (W E : Type) `{Storage W E} : Prop := {
  commit_within : exists n, forall writes now, within n (storage_commit writes now);
  commit_law writes now w w' r :
    session_inv (storage_state w) -> Forall names_of_write writes -> run_job (storage_commit writes now) w = (w', r) ->
    match r with
    | Ok c => commit writes now (storage_state w) = (storage_state w', Ok c)
    | Err _ => storage_state w' = storage_state w
    end;
}.

(** * The storage in memory *)

(** What the promises of a storage give. *)
Inductive storage_answer : Type :=
| Committed (c : CommitResult)
| ForkedStorage (destination : StorageState)
| CapturedSeq (n : Seq).

Definition memory_closed : session_err := SessionError "MemoryStorage is closed".

Definition memory_commit (writes : list Write) (now : jsnum) : job StorageState session_err CommitResult :=
  Turn (fun s => let '(s', r) := commit writes now s in (s', Done r)).

(** [fork] between two commits; the walk up the branch never runs out. *)
Definition memory_fork (options : ForkOptions) : job StorageState session_err storage_answer :=
  Turn (fun s => (s, Done (r ← ok_or (SessionError "fuel") (createFork s (S (length (entriesBySeq s))) options); d ← r; Ok (ForkedStorage d)))).

#[export] Instance memory_storage : Storage StorageState session_err := { storage_state s := s; storage_commit := memory_commit }.

(** * The storage in a file *)

Section Jsonl.
Context {FS : Type} `{FileSystem FS}.
Variable path : jsstr.

Definition jsonl_closed : jsonl_err := JsonlError "JsonlStorage is closed".

Abbreviation world := (FS * StorageState)%type.

Definition finish_commit (prepared : PreparedCommit) (w : world) : world * job world jsonl_err CommitResult :=
  let '(w', r) := on_session (applyValidated (pc_writes prepared)) w in
  (w', Done (stats ← r; Ok (CommitResult_ (pc_firstSeq prepared) (pc_seqs prepared) (pc_timestamp prepared) stats))).

Definition append_commit (prepared : PreparedCommit) (w : world) : world * job world jsonl_err CommitResult :=
  match on_file (fileValue (appendFile path (transaction_line (pc_writes prepared))) "Failed to append JSONL storage") w with
  | (w, Err e) => (w, Done (Err e))
  | (w, Ok _) => (w, Turn (finish_commit prepared))
  end.

Definition start_commit (writes : list Write) (now : jsnum) (w : world) : world * job world jsonl_err CommitResult :=
  match map_err JsonlSession (prepareCommit (snd w) writes now) with
  | Err e => (w, Done (Err e))
  | Ok prepared => if decide (pc_writes prepared = []) then finish_commit prepared w else (w, Turn (append_commit prepared))
  end.

(** [applyCommit] as it is scheduled: the append is waited for, and the session in
    memory changes after it. *)
Definition jsonl_commit (writes : list Write) (now : jsnum) : job world jsonl_err CommitResult := Turn (start_commit writes now).

Definition jsonl_captureForkNextSeq : job world jsonl_err storage_answer := Turn (fun w => (w, Done (Ok (CapturedSeq (nextSeq (snd w)))))).

#[export] Instance jsonl_storage : Storage world jsonl_err := { storage_state := snd; storage_commit := jsonl_commit }.

(** The turns of a commit, with nothing in between. *)
Lemma run_jsonl_commit writes now w : run_job (jsonl_commit writes now) w = applyCommit path writes now w.
Proof.
  unfold jsonl_commit, start_commit, applyCommit, mbind, sm_bind. cbn [run_job]. destruct (map_err JsonlSession (prepareCommit (snd w) writes now)) as [prepared|e]; [|done].
  unfold finish_commit. case_decide.
  - cbn. by destruct (on_session (applyValidated (pc_writes prepared)) w) as [w' [st|e]].
  - cbn [run_job]. unfold append_commit. destruct (on_file _ w) as [w1 [u|e]]; [|done]. cbn. unfold finish_commit. by destruct (on_session (applyValidated (pc_writes prepared)) w1) as [w' [st|e]].
Qed.
End Jsonl.

(** * Laws of the commits *)

#[export] Instance memory_laws : StorageLaws StorageState session_err.
Proof.
  split.
  - exists 1%nat. intros writes now. constructor. intros s. cbn. destruct (commit writes now s). constructor.
  - intros writes now s s' r Hs Hn. cbn in *. destruct (commit writes now s) as [s1 r1] eqn:Ec. intros [= <- <-].
    destruct (commit_outcome s _ writes now Hs (tables_of_represents s Hs) Hn) as [(e & Ec' & _)|(s2 & p & _ & Ec' & _)];
      rewrite Ec' in Ec; by injection Ec as <- <-.
Qed.

Section Jsonl.
Context {FS : Type} `{FileSystem FS}.
Variable path : jsstr.

Abbreviation world := (FS * StorageState)%type.

Lemma jsonl_commit_within writes now : within 3 (jsonl_commit path writes now).
Proof.
  constructor. intros w. unfold start_commit. destruct (map_err JsonlSession (prepareCommit (snd w) writes now)) as [prepared|e]; [|constructor].
  case_decide; unfold finish_commit.
  - destruct (on_session _ w). constructor.
  - constructor. intros w1. unfold append_commit. destruct (on_file _ w1) as [w2 [u|e]]; constructor. intros w3. unfold finish_commit. destruct (on_session _ w3). constructor.
Qed.

Lemma jsonl_laws : StorageLaws world jsonl_err (H := jsonl_storage path).
Proof.
  split.
  - exists 3%nat. apply jsonl_commit_within.
  - intros writes now [fs s] w' r Hs Hn. cbn [storage_state storage_commit jsonl_storage] in *. rewrite run_jsonl_commit.
    unfold applyCommit, mbind, sm_bind. cbn [snd]. cbn [snd] in Hs.
    destruct (commit_outcome s _ writes now Hs (tables_of_represents s Hs) Hn) as [(e & Ec & Ep)|(s2 & p & Ep & Ec & _)]; rewrite Ep; cbn [map_err].
    { by intros [= <- <-]. }
    assert (forall fs1 : FS, on_session (applyValidated (pc_writes p)) (fs1, s) = ((fs1, s2), Ok (stats s2))) as Ha.
    { intros fs1. unfold commit, mbind, sm_bind, reads_state in Ec. rewrite Ep in Ec. unfold on_session. cbn [fst snd].
      destruct (applyValidated (pc_writes p) s) as [s3 [st|e]]; [|done]. by injection Ec as -> ->. }
    case_decide.
    + cbn. rewrite Ha. intros [= <- <-]. by rewrite Ec.
    + unfold on_file. cbn [fst snd]. destruct (fileValue _ _ fs) as [fs1 [u|e]]; [|by intros [= <- <-]].
      rewrite Ha. intros [= <- <-]. by rewrite Ec.
Qed.

(** * Runs of the storage

    The commit of the storage, or one that happens at once, whatever else happens
    to the file system in between. *)

Definition atomic_commit (writes : list Write) (now : jsnum) : job world jsonl_err CommitResult :=
  Turn (fun w => let '(w', r) := applyCommit path writes now w in (w', Done r)).

Definition as_answer {A} (f : A -> storage_answer) (j : job world jsonl_err A) : job world jsonl_err storage_answer :=
  bind_job j (fun r => Done (f <$> r)).

(** The calls of a storage, a turn, and others changing the file system. *)
Inductive storage_action : Type :=
| CallCommit (writes : list Write) (now : jsnum)
| CallCapture
| CallClose
| TakeTurn
| Elsewhere (fs : FS).

Abbreviation storage_world := (world * queued world jsonl_err storage_answer)%type.

(** With [commits] for what a commit is made of. *)
Definition act (commits : list Write -> jsnum -> job world jsonl_err CommitResult) (x : storage_world) (a : storage_action) : storage_world :=
  match a with
  | CallCommit writes now => (fst x, enqueue jsonl_closed (as_answer Committed (commits writes now)) (snd x))
  | CallCapture => (fst x, enqueue jsonl_closed jsonl_captureForkNextSeq (snd x))
  | CallClose => (fst x, close (snd x))
  | TakeTurn => queue_turn x
  | Elsewhere fs => ((fs, snd (fst x)), snd x)
  end.

Definition storage_run (commits : list Write -> jsnum -> job world jsonl_err CommitResult) (x : storage_world) (acts : list storage_action) : storage_world :=
  foldl (act commits) x acts.

(** All but the turns. *)
Fixpoint visible (acts : list storage_action) : list storage_action :=
  match acts with
  | [] => []
  | TakeTurn :: acts => visible acts
  | a :: acts => a :: visible acts
  end.

(** * The commits happen at once

    A commit counts when its append is done; from there to its last turn the
    session in memory is behind. *)

Inductive same_call : nat * slot world jsonl_err storage_answer -> nat * slot world jsonl_err storage_answer -> Prop :=
| same_commit n writes now :
    same_call (n, Waiting (as_answer Committed (jsonl_commit path writes now))) (n, Waiting (as_answer Committed (atomic_commit writes now)))
| same_capture n : same_call (n, Waiting jsonl_captureForkNextSeq) (n, Waiting jsonl_captureForkNextSeq).

(** The first call of the two lines, and where the worlds are. *)
Inductive in_phase : world -> nat * slot world jsonl_err storage_answer -> world -> nat * slot world jsonl_err storage_answer -> Prop :=
| phase_waiting w a b : same_call a b -> in_phase w a w b
| phase_appending n w writes now prepared :
    prepareCommit (snd w) writes now = Ok prepared -> pc_writes prepared <> [] ->
    in_phase w (n, Running (as_answer Committed (Turn (append_commit path prepared)))) w (n, Waiting (as_answer Committed (atomic_commit writes now)))
| phase_appended n fs s s' prepared r :
    finish_commit prepared (fs, s) = ((fs, s'), Done r) ->
    (forall fs' : FS, finish_commit prepared (fs', s) = ((fs', s'), Done r)) ->
    in_phase (fs, s) (n, Running (as_answer Committed (Turn (finish_commit prepared)))) (fs, s') (n, Running (Done (Committed <$> r)))
| phase_done n w r : in_phase w (n, Running (Done r)) w (n, Running (Done r)).

Inductive same_tail : world -> list (nat * slot world jsonl_err storage_answer) -> world -> list (nat * slot world jsonl_err storage_answer) -> Prop :=
| tail_idle w : same_tail w [] w []
| tail_busy w w' a b rest rest' : in_phase w a w' b -> Forall2 same_call rest rest' -> same_tail w (a :: rest) w' (b :: rest').

Definition simulates (x y : world * queued world jsonl_err storage_answer) : Prop :=
  q_state (snd x) = q_state (snd y) /\
  ln_issued (q_line (snd x)) = ln_issued (q_line (snd y)) /\ ln_settled (q_line (snd x)) = ln_settled (q_line (snd y)) /\
  ln_sealedError (q_line (snd x)) = None /\ ln_sealedError (q_line (snd y)) = None /\
  same_tail (fst x) (ln_tail (q_line (snd x))) (fst y) (ln_tail (q_line (snd y))).

Lemma same_tail_snoc w tail w' tail' a b : same_tail w tail w' tail' -> same_call a b -> same_tail w (tail ++ [a]) w' (tail' ++ [b]).
Proof.
  intros [w1|w1 w2 a1 b1 rest rest' Hp Hr] Hc; cbn.
  - by constructor; [constructor|].
  - constructor; [done|]. apply Forall2_app; [done|by constructor].
Qed.

Lemma simulates_admit w q w' q' j1 j2 :
  simulates (w, q) (w', q') -> (forall n, same_call (n, Waiting j1) (n, Waiting j2)) ->
  simulates (w, enqueue jsonl_closed j1 q) (w', enqueue jsonl_closed j2 q').
Proof.
  destruct q as [st [tail issued settled sealed]], q' as [st' [tail' issued' settled' sealed']]. unfold simulates, enqueue, is_open. cbn.
  intros (-> & -> & -> & -> & -> & Ht) Hc. destruct st'; cbn; split_and!; try done. by apply same_tail_snoc.
Qed.

Lemma simulates_elsewhere fs fs' s q y :
  simulates ((fs, s), q) y -> simulates ((fs', s), q) ((fs', snd (fst y)), snd y) /\ fst (fst y) = fs.
Proof.
  destruct y as [[fsy sy] q']. unfold simulates. cbn. intros (H1 & H2 & H3 & H4 & H5 & Ht). enough (same_tail (fs', s) (ln_tail (q_line q)) (fs', sy) (ln_tail (q_line q')) /\ fsy = fs) by naive_solver.
  inversion Ht as [w1 E1|w1 w2 a b rest rest' Hp Hr]; subst; [by split; [constructor|]|].
  inversion Hp as [w3 a3 b3 Hc|n w3 writes now prepared Ep Hne|n fs3 s3 s3' prepared r Ef Hall|n w3 r]; subst; (split; [|done]); constructor; try done.
  - by apply phase_waiting.
  - by eapply phase_appending.
  - apply phase_appended; [apply Hall|exact Hall].
  - apply phase_done.
Qed.

Lemma queue_turn_busy (w : world) st l a rest : ln_tail l = a :: rest ->
  queue_turn (w, Queued st l) = let '(w', l') := turn (w, l) in (w', Queued (R := storage_answer) (E := jsonl_err) st l').
Proof. intros E. unfold queue_turn. cbn [q_line q_state]. by rewrite E. Qed.

Lemma turn_waiting (w : world) n (step : world -> world * job world jsonl_err CommitResult) rest i s :
  turn (w, Line_ ((n, Waiting (as_answer Committed (Turn step))) :: rest) i s None) =
    let '(w', j) := step w in (w', Line_ ((n, Running (as_answer Committed j)) :: rest) i s None).
Proof. cbn. by destruct (step w). Qed.

Lemma turn_running (w : world) n (step : world -> world * job world jsonl_err CommitResult) rest i s :
  turn (w, Line_ ((n, Running (as_answer Committed (Turn step))) :: rest) i s None) =
    let '(w', j) := step w in (w', Line_ ((n, Running (as_answer Committed j)) :: rest) i s None).
Proof. cbn. by destruct (step w). Qed.

(** The three turns of a commit that is stored are one of the other. *)
Lemma applyCommit_start writes now w :
  applyCommit path writes now w =
    match map_err JsonlSession (prepareCommit (snd w) writes now) with
    | Err e => (w, Err e)
    | Ok prepared => run_job (if decide (pc_writes prepared = []) then Turn (finish_commit prepared) else Turn (append_commit path prepared)) w
    end.
Proof.
  rewrite <- run_jsonl_commit. unfold jsonl_commit, start_commit. cbn [run_job].
  destruct (map_err JsonlSession (prepareCommit (snd w) writes now)) as [prepared|e]; [|done]. by case_decide.
Qed.

Lemma finish_commit_done prepared (w : world) : exists w' r, finish_commit prepared w = (w', Done r).
Proof. unfold finish_commit. destruct (on_session _ w) as [w' r]. by eexists _, _. Qed.

Lemma finish_commit_file prepared (fs : FS) s : exists s' r, forall fs' : FS, finish_commit prepared (fs', s) = ((fs', s'), Done r).
Proof.
  unfold finish_commit, on_session. cbn [fst snd]. destruct (applyValidated (pc_writes prepared) s) as [s' r]. by eexists _, _.
Qed.

(** A turn moves the first call to its next phase. *)
Lemma busy_turn w w' (l l' : MutationLine world jsonl_err storage_answer) a b rest rest' st :
  in_phase w a w' b -> Forall2 same_call rest rest' ->
  ln_tail l = a :: rest -> ln_tail l' = b :: rest' -> ln_issued l = ln_issued l' -> ln_settled l = ln_settled l' ->
  ln_sealedError l = None -> ln_sealedError l' = None ->
  exists y, (y = (w', Queued st l') \/ y = queue_turn (w', Queued st l')) /\ simulates (queue_turn (w, Queued st l)) y.
Proof.
  intros Hp Hr Et Et' Hi Hs He He'. rewrite (queue_turn_busy w st l _ _ Et), (queue_turn_busy w' st l' _ _ Et').
  destruct l as [tail issued settled sealed], l' as [tail' issued' settled' sealed']. cbn [ln_tail ln_issued ln_settled ln_sealedError] in *. subst.
  assert (forall w1 n r, exists y, (y = (w', Queued st (Line_ (b :: rest') issued' settled' None)) \/
      y = (w1, Queued st (Line_ ((n, Running (Done r)) :: rest') issued' settled' None))) /\
      simulates (w1, Queued st (Line_ ((n, Running (Done r)) :: rest) issued' settled' None)) y) as Hdone.
  { intros w1 n r. eexists. split; [by right|]. unfold simulates. cbn. split_and!; try done. constructor; [apply phase_done|done]. }
  inversion Hp as [w3 a3 b3 Hc|n w3 writes now prepared Ep Hne|n fs3 s3 s3' prepared r Ef Hall|n w3 r]; subst.
  - inversion Hc as [n writes now|n]; subst; [|apply Hdone].
    unfold jsonl_commit, atomic_commit. rewrite !turn_waiting, applyCommit_start. unfold start_commit.
    destruct (prepareCommit (snd w') writes now) as [prepared|e] eqn:Ep; cbn [map_err]; [|apply (Hdone w' n (Err (JsonlSession e)))].
    case_decide as Hd.
    + cbn [run_job]. destruct (finish_commit_done prepared w') as (w1 & r & ->). apply (Hdone w1 n (Committed <$> r)).
    + eexists. split; [by left|]. unfold simulates. cbn. split_and!; try done. constructor; [by apply phase_appending|done].
  - unfold atomic_commit. rewrite turn_running, turn_waiting, applyCommit_start, Ep. cbn [map_err]. rewrite decide_False by done. cbn [run_job].
    unfold append_commit. destruct (on_file _ w') as [[fs1 s1] [u|e]]; [|apply (Hdone (fs1, s1) n (Err e))]. cbn [run_job].
    destruct (finish_commit_file prepared fs1 s1) as (s2 & r & Hall). rewrite (Hall fs1). eexists. split; [by right|].
    unfold simulates. cbn. split_and!; try done. constructor; [by apply phase_appended|done].
  - rewrite turn_running, Ef. eexists. split; [by left|]. unfold simulates. cbn. split_and!; try done. constructor; [apply phase_done|done].
  - eexists. split; [by right|]. unfold simulates. cbn. split_and!; try done. destruct Hr; [constructor|]. constructor; [by apply phase_waiting|done].
Qed.

Lemma simulates_turn x y : simulates x y -> exists y', (y' = y \/ y' = queue_turn y) /\ simulates (queue_turn x) y'.
Proof.
  intros Hsim. destruct x as [w [st l]], y as [w' [st' l']]. pose proof Hsim as (H1 & H2 & H3 & H4 & H5 & Ht). cbn in H1, H2, H3, H4, H5, Ht. subst st'.
  inversion Ht as [w1 E1 E2 E3 E4|w1 w2 a b rest rest' Hp Hr E1 E2 E3 E4]; subst w'; [|by eapply busy_turn].
  exists (queue_turn (w, Queued st l')). split; [by right|]. unfold queue_turn. cbn [q_line q_state]. rewrite <- E2, <- E4.
  symmetry in E2, E4. rewrite (turn_idle w l E2), (turn_idle w l' E4).
  destruct st; unfold simulates; cbn; split_and!; try done.
Qed.

Lemma simulates_act x y a :
  simulates x y ->
  exists acts, visible acts = visible [a] /\ simulates (act (jsonl_commit path) x a) (storage_run atomic_commit y acts).
Proof.
  intros Hsim. destruct a as [writes now| | | |fs'].
  - exists [CallCommit writes now]. split; [done|]. destruct x, y. cbn. apply simulates_admit; [done|]. intros n. apply same_commit.
  - exists [CallCapture]. split; [done|]. destruct x, y. cbn. apply simulates_admit; [done|]. intros n. apply same_capture.
  - exists [CallClose]. split; [done|]. cbn. destruct x as [w [st l]], y as [w' [st' l']]. unfold simulates, close, is_open in *. cbn in *.
    destruct Hsim as (-> & Hsim). by destruct st'.
  - destruct (simulates_turn x y Hsim) as (y' & [->| ->] & Hs); [exists []|exists [TakeTurn]]; done.
  - exists [Elsewhere fs']. split; [done|]. destruct x as [[fs s] q]. by destruct (simulates_elsewhere fs fs' s q y Hsim).
Qed.

Lemma visible_app a b : visible (a ++ b) = visible a ++ visible b.
Proof. induction a as [|x a IH]; cbn; [done|]. destruct x; cbn; by rewrite IH. Qed.

Lemma storage_refines x y acts :
  simulates x y ->
  exists acts', visible acts' = visible acts /\ simulates (storage_run (jsonl_commit path) x acts) (storage_run atomic_commit y acts').
Proof.
  revert x y. induction acts as [|a acts IH]; intros x y Hsim; [by exists []|].
  destruct (simulates_act x y a Hsim) as (acts1 & Hv1 & Hs1). destruct (IH _ _ Hs1) as (acts2 & Hv2 & Hs2). exists (acts1 ++ acts2). split.
  - rewrite visible_app, Hv1, Hv2. by destruct a.
  - unfold storage_run in *. by rewrite foldl_app.
Qed.

Lemma simulates_new w : simulates (w, new_queued) (w, new_queued).
Proof. unfold simulates. cbn. split_and!; try done. constructor. Qed.

(** Between two commits the worlds are the same. *)
Lemma simulates_between x y :
  simulates x y -> (forall n j, head (ln_tail (q_line (snd x))) = Some (n, Running j) -> exists r, j = Done r) -> fst x = fst y.
Proof.
  destruct x as [w q], y as [w' q']. unfold simulates. cbn. intros (_ & _ & _ & _ & _ & Ht) Hh.
  inversion Ht as [|w1 w2 a b rest rest' Hp Hr E1 E2 E3 E4]; subst; [done|]. rewrite <- E2 in Hh. cbn in Hh.
  inversion Hp; subst; [done..| |done]. destruct (Hh _ _ eq_refl) as (r' & Hj). discriminate Hj.
Qed.
End Jsonl.
