(* ===== verification/SessionObject.v ===== *)
(** The sessions that callers hold: [packages/agent/src/harness/session/session.ts],
    over any storage.

    A session is a line of mutations.  A mutation reads as often as it likes and
    commits at most once; the line gives it the storage alone.  Reads outside a
    mutation are answered at once.  A session is open until its line is sealed.
    The lemmas say what callers get that do not wait for each other: appends to
    its branches chain, in the order of the calls. *)
From S2P Require Import Prelude JsBase Json JsonText JsFloat JsonParse SessionTypes SessionState SessionFork SessionInv SessionBranch SessionForkSpec JsonlCodec SerialQueue StorageQueue.

Inductive object_err (E : Type) : Type :=
| SessionClosed
| SessionInvariantError
| SessionInvalidBranchError (branch : jsstr)
| SessionBranchExistsError (branch : jsstr)
| SessionUnknownTargetError (target : jsstr)
| SessionPendingAssistantMessageError
| CommitAlreadyAttempted
| SessionArgument (e : session_err)
| SessionStorage (e : E).
Arguments SessionClosed {E}.
Arguments SessionInvariantError {E}.
Arguments SessionInvalidBranchError {E} branch.
Arguments SessionBranchExistsError {E} branch.
Arguments SessionUnknownTargetError {E} target.
Arguments SessionPendingAssistantMessageError {E}.
Arguments CommitAlreadyAttempted {E}.
Arguments SessionArgument {E} e.
Arguments SessionStorage {E} e.

(** A message the provider has not finished. *)
Definition pending_assistant (message : AgentMessage) : bool :=
  is_text (member_of "role" message) "assistant" && is_text (member_of "stopReason" message) "pending".

Definition pending_write (w : Write) : bool :=
  match w with
  | EntryWrite e => match ne_body e with MessageEntry message _ => pending_assistant message | _ => false end
  | _ => false
  end.

Section Session.
Context {W E : Type} `{Storage W E}.

(** * Mutations *)

(** The callback of [mutate] with the mutator it is given: what it returns or
    throws, a read and how it goes on, a commit and how it goes on with its
    answer.  The mutator is gone when the callback has returned. *)
Inductive mutation (A : Type) : Type :=
| Return (r : result (object_err E) A)
| Read (next : StorageState -> mutation A)
| Commit (writes : list Write) (now : jsnum) (next : result (object_err E) CommitResult -> mutation A).

(** [StorageBackedSessionMutation]: whether a commit was attempted. *)
Fixpoint mutation_job {A} (attempted : bool) (m : mutation A) : job W (object_err E) A :=
  match m with
  | Return _ r => Done r
  | Read _ next => Turn (fun w => (w, mutation_job attempted (next (storage_state w))))
  | Commit _ writes now next =>
      if attempted then mutation_job true (next (Err CommitAlreadyAttempted))
      else if existsb pending_write writes then mutation_job true (next (Err SessionPendingAssistantMessageError))
      else bind_job (storage_commit writes now) (fun r => mutation_job true (next (map_err SessionStorage r)))
  end.

(** * The session *)

(** What the writers of a session resolve to. *)
Inductive session_answer : Type :=
| AnswerVoid
| AnswerId (id : jsstr)
| AnswerBranch (name : jsstr)
| AnswerValue (v : json).

Abbreviation StorageBackedSession := (MutationLine W (object_err E) session_answer).

(** The line is sealed when the session closes, and then the storage is closed. *)
Definition session_state (session : StorageBackedSession) : lifecycle :=
  match ln_sealedError session, ln_tail session with
  | None, _ => LifeOpen
  | Some _, _ :: _ => LifeClosing
  | Some _, [] => LifeClosed
  end.

Definition mutate (callback : mutation session_answer) (session : StorageBackedSession) : StorageBackedSession :=
  run (mutation_job false callback) session.

Definition close_session (session : StorageBackedSession) : StorageBackedSession := seal SessionClosed session.

Definition assertOpen {A} (session : StorageBackedSession) (r : result (object_err E) A) : result (object_err E) A :=
  match session_state session with LifeOpen => r | _ => Err SessionClosed end.

(** * Writers *)

(** [await mutator.commit(writes)], and nothing is returned. *)
Definition commit_only (writes : list Write) (now : jsnum) : mutation session_answer :=
  Commit _ writes now (fun r => Return _ (r;; Ok AnswerVoid)).

Definition setValue_mutation (a : Address) (next : json) (now : jsnum) := commit_only [setValue a next] now.
Definition deleteValue_mutation (a : Address) (now : jsnum) := commit_only [deleteValue a] now.
Definition appendList_mutation (a : Address) (element : json) (now : jsnum) := commit_only [appendList a element] now.
Definition deleteList_mutation (a : Address) (now : jsnum) := commit_only [deleteList a] now.

Definition sessionName : Address := Address_ KindValue (js "shuvpi.session.name") [].
Definition entryLabel (entryId : jsstr) : result session_err Address := address KindValue (js "shuvpi.entry.label") entryId.

Definition setName_mutation (name : option jsstr) (now : jsnum) : mutation session_answer :=
  match name with
  | None => deleteValue_mutation sessionName now
  | Some name => setValue_mutation sessionName (JStr name) now
  end.

(** The address is made before the mutation is called. *)
Definition setLabel (targetId : jsstr) (label : option jsstr) (now : jsnum) (session : StorageBackedSession) : StorageBackedSession :=
  match entryLabel targetId with
  | Err e => reject (SessionArgument e) session
  | Ok a => mutate (match label with None => deleteValue_mutation a now | Some label => setValue_mutation a (JStr label) now end) session
  end.

(** [branchTip(name)] inside a callback: what it throws, the callback throws. *)
Definition with_tip {A} (name : jsstr) (next : Address -> mutation A) : mutation A :=
  match branchTip name with
  | Err e => Return _ (Err (SessionArgument e))
  | Ok a => next a
  end.

Definition createBranch_mutation (name : jsstr) (at_ : option jsstr) (now : jsnum) : mutation session_answer :=
  with_tip name (fun a => Read _ (fun s =>
    if bool_decide (is_Some (getValue s a)) then Return _ (Err (SessionBranchExistsError name))
    else
      let commit := Commit _ [setValue a (tip_to_json at_)] now (fun r => Return _ (r;; Ok (AnswerBranch name))) in
      match at_ with
      | None => commit
      | Some id => Read _ (fun s =>
          if bool_decide (is_Some (amap_get (getEntries s [id]) id)) then commit else Return _ (Err (SessionUnknownTargetError id)))
      end)).

Definition assertValidBranchName (name : jsstr) : result (object_err E) unit :=
  throw_if (bool_decide (name = []) || bool_decide (0 ∈ name)) (SessionInvalidBranchError name).

(** The name is looked at before the mutation is called. *)
Definition createBranch (name : jsstr) (at_ : option jsstr) (now : jsnum) (session : StorageBackedSession) : StorageBackedSession :=
  match assertOpen session (assertValidBranchName name) with
  | Err e => reject e session
  | Ok _ => mutate (createBranch_mutation name at_ now) session
  end.

(** What [appendToBranch] is given. *)
Inductive branch_entry : Type :=
| BranchMessage (message : AgentMessage)
| BranchCustom (customType : jsstr) (data : option json).

Definition entry_on (entry : branch_entry) (id : jsstr) (parentId : option jsstr) : NewEntry :=
  match entry with
  | BranchMessage message => NewEntry_ id parentId None (MessageEntry message false)
  | BranchCustom customType data => NewEntry_ id parentId (Some customType) (CustomEntry data)
  end.

Definition append_mutation (name : jsstr) (entry : branch_entry) (id : jsstr) (now : jsnum) : mutation session_answer :=
  with_tip name (fun a => Read _ (fun s =>
    match getValue s a with
    | None => Return _ (Err SessionInvariantError)
    | Some stored =>
        match tip_of_json (sv_value stored) with
        | Err e => Return _ (Err (SessionArgument e))
        | Ok tip =>
            Commit _ [insertEntry (entry_on entry id tip); setValue a (JStr id)] now (fun r => Return _ (r;; Ok (AnswerId id)))
        end
    end)).

(** [id] is what the generator of the session gives next. *)
Definition appendToBranch (name : jsstr) (entry : branch_entry) (id : jsstr) (now : jsnum) (session : StorageBackedSession) : StorageBackedSession :=
  match session_state session, entry with
  | LifeOpen, BranchMessage message =>
      if pending_assistant message then reject SessionPendingAssistantMessageError session else mutate (append_mutation name entry id now) session
  | LifeOpen, BranchCustom _ _ => mutate (append_mutation name entry id now) session
  | _, _ => reject SessionClosed session
  end.

(** * Readers *)

Section Readers.
Variable session : StorageBackedSession.
Variable w : W.

Definition getEntry (id : jsstr) : result (object_err E) (option Entry) := assertOpen session (Ok (amap_get (getEntries (storage_state w) [id]) id)).

Definition read_value (a : Address) : result (object_err E) (option StoredValue) := assertOpen session (Ok (getValue (storage_state w) a)).

Definition getName : result (object_err E) (option json) := r ← read_value sessionName; Ok (option_map sv_value r).

Definition getLabel (targetId : jsstr) : result (object_err E) (option json) :=
  a ← map_err SessionArgument (entryLabel targetId); r ← read_value a; Ok (option_map sv_value r).

Record EntryQuery : Type := EntryQuery_ {
  eq_type : option EntryType;
  eq_customType : option jsstr;
  eq_descending : bool;
  eq_limit : option Z;
  eq_cursor : option Seq;
}.

Definition findEntries (query : EntryQuery) : result (object_err E) (list Entry) :=
  let scan from to := Ok (scanEntries (storage_state w) (EntryScan_ (eq_type query) (eq_customType query) from to (eq_descending query) (eq_limit query))) in
  assertOpen session
    match eq_cursor query with
    | None => scan None None
    | Some seq =>
        if eq_descending query then if seq <=? 1 then Ok [] else scan None (Some (seq - 1))
        else if seq =? MAX_SAFE_INTEGER then Ok [] else scan (Some (seq + 1)) None
    end.

Definition findEntry (query : EntryQuery) : result (object_err E) (option Entry) :=
  let limit := match eq_limit query with None => 1 | Some n => Z.min n 1 end in
  found ← findEntries (EntryQuery_ (eq_type query) (eq_customType query) (eq_descending query) (Some limit) (eq_cursor query));
  Ok (head found).

Definition branch (name : jsstr) : result (object_err E) (option jsstr) :=
  assertValidBranchName name;;
  a ← map_err SessionArgument (branchTip name);
  stored ← read_value a;
  Ok (if bool_decide (is_Some stored) then Some name else None).

Definition getBranchTip (name : jsstr) : result (object_err E) (option jsstr) :=
  a ← map_err SessionArgument (branchTip name);
  stored ← read_value a;
  match stored with
  | None => Err SessionInvariantError
  | Some stored => map_err SessionArgument (tip_of_json (sv_value stored))
  end.
End Readers.
End Session.
Arguments mutation : clear implicits.

(** The entries of a branch, the newest first. *)
Definition branch_entries (s : StorageState) (b : jsstr) (path : list Entry) : Prop := exists tip, stored_tip s b tip /\ ancestry s tip path.

Definition entries_kept (s s' : StorageState) : Prop := forall id e, entries s !! id = Some e -> entries s' !! id = Some e.

Lemma ancestry_kept s s' tip path : entries_kept s s' -> ancestry s tip path -> ancestry s' tip path.
Proof. intros Hk. induction 1; econstructor; eauto. Qed.

(** The commit of an entry and a value. *)
Lemma commit_entry_value s s' c ne ns key v now :
  session_inv s -> names_ok ns key -> commit [EntryWrite ne; PutWrite KindValue ns key v] now s = (s', Ok c) ->
  session_inv s' /\ (exists seq, entriesBySeq s' = entriesBySeq s ++ [Entry_ ne seq now]) /\
  exists seq, forall ns' key', names_ok ns' key' -> value_at s' ns' key' = if decide ((ns, key) = (ns', key')) then Some (v, seq) else value_at s ns' key'.
Proof.
  intros Hs Hn Hc. set (ws := [_; _]) in Hc. assert (Forall names_of_write ws) as Hw by (repeat constructor; exact Hn).
  destruct (commit_outcome s _ ws now Hs (tables_of_represents s Hs) Hw) as [(e & E & _)|(s1 & p & Ep & E & Hs' & Hr & _)]; rewrite E in Hc; [done|].
  injection Hc as <- _. destruct (prepareCommit_Ok _ _ _ _ Ep) as [-> _]. clear E Ep.
  pose proof (tables_of_represents s Hs) as H0. revert Hr H0. generalize (tables_of s). intros [es us vs ls] Hr H0. cbn in Hr.
  split; [done|]. split; eexists; [by rewrite (rp_entries _ _ Hr), (rp_entries _ _ H0)|].
  intros ns' key' Hnk. rewrite (rp_values _ _ Hr ns' key' Hnk), (rp_values _ _ H0 ns' key' Hnk). cbn. apply lookup_insert_if.
Qed.

(** What the commit of an append does. *)
Lemma commit_append s s' c name entry id tip now :
  session_inv s -> stored_tip s name tip ->
  commit [insertEntry (entry_on entry id tip); setValue (Address_ KindValue (js "shuvpi.branch.tip") name) (JStr id)] now s = (s', Ok c) ->
  session_inv s' /\ entries_kept s s' /\ stored_tip s' name (Some id) /\
  (exists e, entries s' !! id = Some e /\ e_new e = entry_on entry id tip) /\
  (forall b t, b <> name -> stored_tip s b t -> stored_tip s' b t).
Proof.
  intros Hs [Hn _] Hc. apply commit_entry_value in Hc as (Hs' & (seq & He) & seq' & Hv); [|done|done].
  assert (forall x, x ∈ entriesBySeq s' -> entries s' !! e_id x = Some x) as Hfind by (intros x Hx; by apply (elem_entry _ _ (sn_entries _ _ Hs'))).
  split_and!; [done| | | |].
  - intros i x Hx. apply (en_ids _ _ (sn_entries _ _ Hs)) in Hx as [Hx <-]. apply Hfind. rewrite He. set_solver.
  - split; [done|]. rewrite (Hv _ _ Hn), decide_True by done. by eexists.
  - set (e := Entry_ (entry_on entry id tip) seq now) in He. exists e. split; [|done].
    assert (e_id e = id) as Hid by (by destruct entry). rewrite <- Hid at 1. apply Hfind. rewrite He. set_solver.
  - intros b t Hb [Hnb (q & Hvb)]. split; [done|]. rewrite (Hv _ _ Hnb), decide_False; [by exists q|].
    intros Heq. apply (f_equal snd) in Heq. by symmetry in Heq.
Qed.

Section Appends.
Context {W E : Type} `{St : Storage W E} {Laws : StorageLaws W E}.

Record append_call : Type := AppendCall { ac_branch : jsstr; ac_entry : branch_entry; ac_id : jsstr; ac_now : jsnum }.

Definition append_job (c : append_call) : job W (object_err E) session_answer :=
  mutation_job false (append_mutation (ac_branch c) (ac_entry c) (ac_id c) (ac_now c)).

(** The branch is one that [branch] or [createBranch] has given out. *)
Definition named_branch (c : append_call) : Prop := names_ok (js "shuvpi.branch.tip") (ac_branch c).

(** An append that succeeds puts its entry on top of its branch; one that fails
    does nothing. *)
Lemma run_append c w w' r :
  session_inv (storage_state w) -> named_branch c -> run_job (append_job c) w = (w', r) ->
  match r with
  | Ok a => a = AnswerId (ac_id c) /\ session_inv (storage_state w') /\
      forall b path, branch_entries (storage_state w) b path ->
        if decide (ac_branch c = b) then exists e, branch_entries (storage_state w') b (e :: path) /\ e_new e = entry_on (ac_entry c) (ac_id c) (e_id <$> head path)
        else branch_entries (storage_state w') b path
  | Err _ => storage_state w' = storage_state w
  end.
Proof.
  intros Hs Hn. destruct c as [name entry id now]. unfold append_job, append_mutation, with_tip, branchTip. cbn [ac_branch ac_entry ac_id ac_now] in *.
  rewrite (address_ok _ _ _ Hn). cbn [mutation_job run_job]. destruct (getValue (storage_state w) _) as [stored|] eqn:Eg; [|cbn; by intros [= <- <-]].
  destruct (tip_of_json (sv_value stored)) as [tip|e] eqn:Et; [|cbn; by intros [= <- <-]]. cbn [mutation_job].
  destruct (existsb pending_write _); [cbn; by intros [= <- <-]|]. rewrite run_bind_job.
  assert (stored_tip (storage_state w) name tip) as Htip by (eapply stored_tip_intro; [by apply address_ok|exact Eg|exact Et]).
  set (ws := [insertEntry _; _]). destruct (run_job (storage_commit ws now) w) as [w1 r1] eqn:Er.
  assert (Forall names_of_write ws) as Hw by (repeat constructor; exact Hn).
  pose proof (commit_law ws now w w1 r1 Hs Hw Er) as Hl. destruct r1 as [c|e]; cbn; intros [= <- <-]; [|done].
  destruct (commit_append _ _ c name entry id tip now Hs Htip Hl) as (Hs' & Hk & Ht' & (e & He & Hnew) & Hother).
  split; [done|]. split; [done|]. intros b path (t & Htb & Hab). case_decide as Hb.
  - subst b. destruct Htb as [_ (q1 & Hq1)], Htip as [_ (q2 & Hq2)]. rewrite Hq1 in Hq2. assert (t = tip) as -> by (destruct t, tip; cbn in Hq2; congruence).
    exists e. split.
    + exists (Some id). split; [done|]. econstructor; [done|]. replace (e_parentId e) with tip by (unfold e_parentId; rewrite Hnew; by destruct entry).
      by eapply ancestry_kept.
    + rewrite Hnew. f_equal. inversion Hab as [|i e' path' He' Ha']; subst; [done|]. cbn. f_equal. symmetry. eapply entry_id; [apply Hs|exact He'].
  - exists t. split; [by apply Hother|by eapply ancestry_kept].
Qed.
(** * Callers that do not wait *)

(** A call, or a turn of the line. *)
Inductive client : Type :=
| Append (c : append_call)
| Proceed.

Definition client_step (x : W * MutationLine W (object_err E) session_answer) (cl : client) : W * MutationLine W (object_err E) session_answer :=
  match cl with
  | Append c => (fst x, appendToBranch (ac_branch c) (ac_entry c) (ac_id c) (ac_now c) (snd x))
  | Proceed => turn x
  end.

Definition client_event (cl : client) : event W (object_err E) session_answer :=
  match cl with
  | Append c =>
      match ac_entry c with
      | BranchMessage message => if pending_assistant message then Reject SessionPendingAssistantMessageError else Call (append_job c)
      | BranchCustom _ _ => Call (append_job c)
      end
  | Proceed => Next
  end.

Fixpoint appends (cls : list client) : list append_call :=
  match cls with
  | [] => []
  | Append c :: cls => c :: appends cls
  | Proceed :: cls => appends cls
  end.

Lemma client_step_event x cl : ln_sealedError (snd x) = None -> client_step x cl = step_event x (client_event cl).
Proof.
  destruct x as [w l], cl as [[name entry id now]|]; cbn; [|done]. intros Hs. unfold appendToBranch, session_state, mutate. rewrite Hs.
  destruct entry as [message|]; [|done]. by destruct (pending_assistant message).
Qed.

Lemma client_schedule cls x : ln_sealedError (snd x) = None ->
  foldl client_step x cls = schedule x (client_event <$> cls) /\ ln_sealedError (snd (foldl client_step x cls)) = None.
Proof.
  unfold schedule. revert x. induction cls as [|cl cls IH]; intros x Hs; [done|]. cbn. rewrite (client_step_event x cl Hs). apply IH.
  destruct cl as [[name entry id now]|]; cbn; [|by rewrite turn_sealed].
  destruct entry as [message|]; [destruct (pending_assistant message)|]; cbn; try done; unfold run; by rewrite Hs.
Qed.

Lemma client_unsealed cls : unsealed (client_event <$> cls).
Proof.
  apply Forall_fmap, Forall_forall. intros [[name [message|] id now]|] _; cbn; [by destruct (pending_assistant message)|done..].
Qed.

(** The call number [n] was answered, and not refused. *)
Definition answered (n : nat) (settled : list (nat * result (object_err E) session_answer)) : bool :=
  existsb (fun nr => Nat.eqb (fst nr) n && is_Ok (snd nr)) settled.

(** The appends to a branch that succeeded, the calls counted from [n]. *)
Fixpoint succeeded (b : jsstr) (n : nat) (cs : list append_call) (settled : list (nat * result (object_err E) session_answer)) : list append_call :=
  match cs with
  | [] => []
  | c :: cs => (if answered n settled && bool_decide (ac_branch c = b) then [c] else []) ++ succeeded b (S n) cs settled
  end.

(** The entries they make, the oldest first. *)
Fixpoint chain (parent : option jsstr) (cs : list append_call) : list NewEntry :=
  match cs with
  | [] => []
  | c :: cs => entry_on (ac_entry c) (ac_id c) parent :: chain (Some (ac_id c)) cs
  end.

Lemma answered_perm n rs rs' : rs ≡ₚ rs' -> answered n rs = answered n rs'.
Proof.
  intros Hp. apply eq_true_iff_eq. unfold answered. rewrite !existsb_exists.
  split; intros (x & Hx & H); exists x; (split; [|done]); apply list_elem_of_In; apply list_elem_of_In in Hx; [by rewrite <- Hp|by rewrite Hp].
Qed.

Lemma succeeded_perm b n cs rs rs' : rs ≡ₚ rs' -> succeeded b n cs rs = succeeded b n cs rs'.
Proof. intros Hp. revert n. induction cs as [|c cs IH]; intros n; cbn; [done|]. by rewrite (answered_perm _ _ _ Hp), IH. Qed.

Lemma outcomes_from n evs (w : W) : Forall (fun nr => n <= fst nr)%nat (snd (outcomes (R := session_answer) (E := object_err E) n evs w)).
Proof.
  revert n w. induction evs as [|[op|e|e|] evs IH]; intros n w; cbn; [by apply Forall_nil_2| | |done|done].
  - destruct (run_job op w) as [w1 r]. specialize (IH (S n) w1). destruct (outcomes (S n) evs w1) as [w2 rs]. constructor; [done|].
    eapply Forall_impl; [exact IH|]. cbn. lia.
  - specialize (IH (S n) w). destruct (outcomes (S n) evs w) as [w2 rs]. constructor; [done|]. eapply Forall_impl; [exact IH|]. cbn. lia.
Qed.

Lemma answered_none n rs : Forall (fun nr => S n <= fst nr)%nat rs -> answered n rs = false.
Proof.
  unfold answered. induction 1 as [|[m r] rs Hm _ IH]; cbn; [done|]. cbn in Hm. rewrite IH. by rewrite (proj2 (Nat.eqb_neq m n)) by lia.
Qed.

Lemma succeeded_later b n cs m r rs : (m < n)%nat -> succeeded b n cs ((m, r) :: rs) = succeeded b n cs rs.
Proof.
  revert n. induction cs as [|c cs IH]; intros n Hm; cbn; [done|]. rewrite IH by lia. by rewrite (proj2 (Nat.eqb_neq m n)) by lia.
Qed.

Lemma entry_on_id entry id parent : ne_id (entry_on entry id parent) = id.
Proof. by destruct entry. Qed.

(** One after the other, the appends chain. *)
Lemma outcomes_chain cls : forall n w w' rs,
  session_inv (storage_state w) -> Forall named_branch (appends cls) -> outcomes n (client_event <$> cls) w = (w', rs) ->
  session_inv (storage_state w') /\
  forall b path, branch_entries (storage_state w) b path ->
    exists added, branch_entries (storage_state w') b (rev added ++ path) /\
      e_new <$> added = chain (e_id <$> head path) (succeeded b n (appends cls) rs).
Proof.
  induction cls as [|[c|] cls IH]; intros n w w' rs Hs Hn; cbn [fmap list_fmap client_event outcomes appends].
  - intros [= <- <-]. split; [done|]. intros b path Hb. exists []. done.
  - apply Forall_cons in Hn as [Hc Hn].
    assert (forall w1 r, (match r with Ok _ => run_job (append_job c) w = (w1, r) | Err _ => storage_state w1 = storage_state w end) ->
      (let '(w2, rs2) := outcomes (S n) (client_event <$> cls) w1 in (w2, (n, r) :: rs2)) = (w', rs) ->
      session_inv (storage_state w') /\
      forall b path, branch_entries (storage_state w) b path ->
        exists added, branch_entries (storage_state w') b (rev added ++ path) /\
          e_new <$> added = chain (e_id <$> head path) (succeeded b n (c :: appends cls) rs)) as Hgen.
    { intros w1 r H1 Hout. pose proof (outcomes_from (S n) (client_event <$> cls) w1) as Hfrom.
      destruct (outcomes (S n) (client_event <$> cls) w1) as [w2 rs2] eqn:Eo. injection Hout as -> <-. cbn [snd] in Hfrom.
      assert (forall b, succeeded b n (c :: appends cls) ((n, r) :: rs2) = (if is_Ok r && bool_decide (ac_branch c = b) then [c] else []) ++ succeeded b (S n) (appends cls) rs2) as Hsucc.
      { intros b. cbn [succeeded]. rewrite succeeded_later by lia. f_equal. cbn. rewrite Nat.eqb_refl. fold (answered n rs2). rewrite (answered_none _ _ Hfrom), orb_false_r. done. }
      destruct r as [a|e].
      - pose proof (run_append c w w1 (Ok a) Hs Hc H1) as (_ & Hs1 & Hb1). destruct (IH _ _ _ _ Hs1 Hn Eo) as [Hs' Hb']. split; [done|].
        intros b path Hb. specialize (Hb1 b path Hb). rewrite Hsucc. cbn [is_Ok andb].
        case_decide as Hd; [|rewrite bool_decide_false by done; destruct (Hb' b path Hb1) as (added & H2 & H3); by exists added].
        rewrite bool_decide_true by done. destruct Hb1 as (e & He & Hnew). destruct (Hb' b _ He) as (added & H2 & H3). exists (e :: added).
        split; [cbn; by rewrite <- app_assoc|]. cbn. rewrite Hnew. f_equal. rewrite H3. cbn. unfold e_id. by rewrite Hnew, entry_on_id.
      - rewrite <- H1 in Hs. destruct (IH _ _ _ _ Hs Hn Eo) as [Hs' Hb']. split; [done|].
        intros b path Hb. rewrite Hsucc. cbn. rewrite <- H1 in Hb. by apply Hb'. }
    destruct (ac_entry c) as [message|] eqn:Ee; [destruct (pending_assistant message)|]; cbn [outcomes].
    + apply (Hgen w (Err SessionPendingAssistantMessageError)). done.
    + destruct (run_job (append_job c) w) as [w1 r] eqn:Er. apply (Hgen w1 r). destruct r; [done|]. apply (run_append c w w1 (Err e) Hs Hc Er).
    + destruct (run_job (append_job c) w) as [w1 r] eqn:Er. apply (Hgen w1 r). destruct r; [done|]. apply (run_append c w w1 (Err e) Hs Hc Er).
  - apply IH; done.
Qed.
End Appends.
