(* ===== verification/EditDiff.v ===== *)
(** Edits of files as the edit tool makes them:
    [packages/agent/src/harness/tools/edit-diff.ts].

    Indices are positions in UTF-16 units.  [String.prototype.normalize] and the
    library that computes line diffs are parameters. *)
From S2P Require Import Prelude JsBase JsText.

(** * Line endings *)

Definition crlf : jsstr := [13; 10].
Definition lf : jsstr := [10].

Definition detectLineEnding (content : jsstr) : jsstr :=
  match index_of content crlf 0, index_of content lf 0 with
  | _, None => lf
  | None, _ => lf
  | Some crlfIdx, Some lfIdx => if (crlfIdx <? lfIdx)%nat then crlf else lf
  end.

(** [text.replace(/\r\n/g, "\n")]. *)
Fixpoint replace_crlf (text : jsstr) : jsstr :=
  match text with
  | [] => []
  | u :: text' =>
      match text' with
      | v :: text'' => if (u =? 13) && (v =? 10) then 10 :: replace_crlf text'' else u :: replace_crlf text'
      | [] => [u]
      end
  end.

Definition normalizeToLF (text : jsstr) : jsstr := replace_class (fun u => u =? 13) 10 (replace_crlf text).

Definition restoreLineEndings (text ending : jsstr) : jsstr :=
  if bool_decide (ending = crlf) then concat ((fun u => if u =? 10 then crlf else [u]) <$> text) else text.

Definition bom_unit : Z := 0xFEFF.

Definition stripBom (content : jsstr) : jsstr * jsstr :=
  if starts_with content [bom_unit] then ([bom_unit], drop 1 content) else ([], content).

(** * Replacements *)

Record LineSpan : Type := LineSpan_ { sp_start : nat; sp_end : nat }.

Record MatchedEdit : Type := MatchedEdit_ { editIndex : nat; matchIndex : nat; matchLength : nat; me_newText : jsstr }.

Record Edit : Type := Edit_ { oldText : jsstr; newText : jsstr }.

(** The errors the code throws, with what their texts say. *)
Inductive edit_err : Type :=
| EmptyOldText (editIndex totalEdits : nat)
| NotFound (editIndex totalEdits : nat)
| Duplicate (editIndex totalEdits : nat) (occurrences : Z)
| Overlap (previous current : nat)
| NoChange (totalEdits : nat)
| RangeOutside
| LineCountDiffers.

(** [content.match(/[^\n]*\n|[^\n]+/g) ?? []]. *)
Fixpoint splitLinesWithEndings (content : jsstr) : list jsstr :=
  match content with
  | [] => []
  | u :: content =>
      if u =? newline then [u] :: splitLinesWithEndings content
      else match splitLinesWithEndings content with [] => [[u]] | l :: ls => (u :: l) :: ls end
  end.

Fixpoint spans_from (offset : nat) (lines : list jsstr) : list LineSpan :=
  match lines with
  | [] => []
  | line :: lines => LineSpan_ offset (offset + length line) :: spans_from (offset + length line) lines
  end.

Definition getLineSpans (content : jsstr) : list LineSpan := spans_from 0 (splitLinesWithEndings content).

(** The two loops of [getReplacementLineRange]. *)
Fixpoint start_line (i : nat) (lines : list LineSpan) (replacementStart : nat) : option nat :=
  match lines with
  | [] => None
  | line :: lines =>
      if (sp_start line <=? replacementStart)%nat && (replacementStart <? sp_end line)%nat then Some i
      else start_line (S i) lines replacementStart
  end.

Fixpoint end_line (endLine : nat) (lines : list LineSpan) (replacementEnd : nat) : nat :=
  match lines with
  | [] => endLine
  | line :: lines => if (sp_end line <? replacementEnd)%nat then end_line (S endLine) lines replacementEnd else endLine
  end.

Definition getReplacementLineRange (lines : list LineSpan) (replacement : MatchedEdit) : result edit_err (nat * nat) :=
  let replacementStart := matchIndex replacement in
  let replacementEnd := (matchIndex replacement + matchLength replacement)%nat in
  match start_line 0 lines replacementStart with
  | None => Err RangeOutside
  | Some startLine =>
      let endLine := end_line startLine (drop startLine lines) replacementEnd in
      if (length lines <=? endLine)%nat then Err RangeOutside else Ok (startLine, S endLine)
  end.

(** The last replacement is made first. *)
Definition applyReplacements (content : jsstr) (replacements : list MatchedEdit) (offset : nat) : jsstr :=
  foldr (fun r result =>
    let index := Z.of_nat (matchIndex r) - Z.of_nat offset in
    substring_to result index ++ me_newText r ++ substring_from result (index + Z.of_nat (matchLength r))) content replacements.

Record Group : Type := Group_ { g_startLine : nat; g_endLine : nat; g_replacements : list MatchedEdit }.

Definition group_step (baseLines : list LineSpan) (groups : list Group) (replacement : MatchedEdit) : result edit_err (list Group) :=
  range ← getReplacementLineRange baseLines replacement;
  let '(startLine, endLine) := range in
  match last groups with
  | Some current =>
      if (startLine <? g_endLine current)%nat then
        Ok (removelast groups ++ [Group_ (g_startLine current) (Nat.max (g_endLine current) endLine) (g_replacements current ++ [replacement])])
      else Ok (groups ++ [Group_ startLine endLine [replacement]])
  | None => Ok (groups ++ [Group_ startLine endLine [replacement]])
  end.

(** [baseLines[i]]. *)
Definition span_at (baseLines : list LineSpan) (i : nat) : LineSpan := default (LineSpan_ 0 0) (baseLines !! i).

(** [lines.slice(from, to)] and [content.slice(from, to)]. *)
Definition slice {A} (l : list A) (from to : nat) : list A := drop from (take to l).

Definition group_text (baseContent : jsstr) (baseLines : list LineSpan) (group : Group) : jsstr :=
  let groupStartOffset := sp_start (span_at baseLines (g_startLine group)) in
  let groupEndOffset := sp_end (span_at baseLines (pred (g_endLine group))) in
  applyReplacements (slice baseContent groupStartOffset groupEndOffset) (g_replacements group) groupStartOffset.

(** What is left of the original from [originalLineIndex] on, the groups rewritten. *)
Fixpoint overlay_groups (originalLines : list jsstr) (baseContent : jsstr) (baseLines : list LineSpan) (originalLineIndex : nat) (groups : list Group) : jsstr :=
  match groups with
  | [] => concat (drop originalLineIndex originalLines)
  | group :: groups =>
      concat (slice originalLines originalLineIndex (g_startLine group)) ++ group_text baseContent baseLines group
        ++ overlay_groups originalLines baseContent baseLines (g_endLine group) groups
  end.

Definition applyReplacementsPreservingUnchangedLines (originalContent baseContent : jsstr) (replacements : list MatchedEdit) : result edit_err jsstr :=
  let originalLines := splitLinesWithEndings originalContent in
  let baseLines := getLineSpans baseContent in
  if negb (length originalLines =? length baseLines)%nat then Err LineCountDiffers
  else
    groups ← foldM (group_step baseLines) [] (sort_by matchIndex replacements);
    Ok (overlay_groups originalLines baseContent baseLines 0 groups).

(** * Matching *)

Record FuzzyMatchResult : Type := FuzzyMatchResult_ {
  found : bool;
  fm_index : Z;
  fm_matchLength : nat;
  usedFuzzyMatch : bool;
  contentForReplacement : jsstr;
}.

Section Match.
Variable normalize : jsstr -> jsstr.

Definition normalizeForFuzzyMatch (text : jsstr) : jsstr := to_ascii (join_lines (trim_end <$> split_lines (normalize text))).

Definition fuzzyFindText (content oldText : jsstr) : FuzzyMatchResult :=
  match index_of content oldText 0 with
  | Some exactIndex => FuzzyMatchResult_ true (Z.of_nat exactIndex) (length oldText) false content
  | None =>
      let fuzzyContent := normalizeForFuzzyMatch content in
      let fuzzyOldText := normalizeForFuzzyMatch oldText in
      match index_of fuzzyContent fuzzyOldText 0 with
      | None => FuzzyMatchResult_ false (-1) 0 false content
      | Some fuzzyIndex => FuzzyMatchResult_ true (Z.of_nat fuzzyIndex) (length fuzzyOldText) true fuzzyContent
      end
  end.

Definition countOccurrences (content oldText : jsstr) : Z :=
  len (split_on (normalizeForFuzzyMatch content) (normalizeForFuzzyMatch oldText)) - 1.

(** The loops of [applyEditsToNormalizedContent]. *)
Fixpoint check_not_empty (i totalEdits : nat) (edits : list Edit) : result edit_err unit :=
  match edits with
  | [] => Ok tt
  | edit :: edits => throw_if (length (oldText edit) =? 0)%nat (EmptyOldText i totalEdits);; check_not_empty (S i) totalEdits edits
  end.

Definition match_edit (replacementBaseContent : jsstr) (totalEdits i : nat) (edit : Edit) : result edit_err MatchedEdit :=
  let matchResult := fuzzyFindText replacementBaseContent (oldText edit) in
  throw_if (negb (found matchResult)) (NotFound i totalEdits);;
  let occurrences := countOccurrences replacementBaseContent (oldText edit) in
  throw_if (1 <? occurrences) (Duplicate i totalEdits occurrences);;
  Ok (MatchedEdit_ i (Z.to_nat (fm_index matchResult)) (fm_matchLength matchResult) (newText edit)).

Fixpoint match_edits (replacementBaseContent : jsstr) (totalEdits i : nat) (edits : list Edit) : result edit_err (list MatchedEdit) :=
  match edits with
  | [] => Ok []
  | edit :: edits =>
      matched ← match_edit replacementBaseContent totalEdits i edit;
      rest ← match_edits replacementBaseContent totalEdits (S i) edits;
      Ok (matched :: rest)
  end.

Fixpoint check_overlaps (previous : MatchedEdit) (matchedEdits : list MatchedEdit) : result edit_err unit :=
  match matchedEdits with
  | [] => Ok tt
  | current :: matchedEdits =>
      throw_if (matchIndex current <? matchIndex previous + matchLength previous)%nat (Overlap (editIndex previous) (editIndex current));;
      check_overlaps current matchedEdits
  end.

Definition no_overlaps (matchedEdits : list MatchedEdit) : result edit_err unit :=
  match matchedEdits with [] => Ok tt | first :: rest => check_overlaps first rest end.

Definition edit_to_lf (edit : Edit) : Edit := Edit_ (normalizeToLF (oldText edit)) (normalizeToLF (newText edit)).

Definition needs_fuzzy (normalizedContent : jsstr) (normalizedEdits : list Edit) : bool :=
  existsb (fun edit => usedFuzzyMatch (fuzzyFindText normalizedContent (oldText edit))) normalizedEdits.

(** The base content and the new content. *)
Definition applyEditsToNormalizedContent (normalizedContent : jsstr) (edits : list Edit) : result edit_err (jsstr * jsstr) :=
  let normalizedEdits := edit_to_lf <$> edits in
  let totalEdits := length normalizedEdits in
  check_not_empty 0 totalEdits normalizedEdits;;
  let fuzzy := needs_fuzzy normalizedContent normalizedEdits in
  let replacementBaseContent := if fuzzy then normalizeForFuzzyMatch normalizedContent else normalizedContent in
  matched ← match_edits replacementBaseContent totalEdits 0 normalizedEdits;
  let matchedEdits := sort_by matchIndex matched in
  no_overlaps matchedEdits;;
  newContent ← (if fuzzy then applyReplacementsPreservingUnchangedLines normalizedContent replacementBaseContent matchedEdits
                else Ok (applyReplacements replacementBaseContent matchedEdits 0));
  throw_if (bool_decide (normalizedContent = newContent)) (NoChange totalEdits);;
  Ok (normalizedContent, newContent).
End Match.
