(* ===== verification/EditSpec.v ===== *)
(** What edits do to text: replacements apart from each other, the lines they
    touch, the normalization that fuzzy matching works in, and the matches that
    [applyEditsToNormalizedContent] replaces. *)
From Stdlib Require Import Sorted.
From stdpp Require Import sorting.
From S2P Require Import Prelude JsBase JsText EditDiff.

(** * Replacements *)

(** [s] with each old text replaced by the new one, in order. *)
Inductive replaced : jsstr -> list (jsstr * jsstr) -> jsstr -> Prop :=
| replaced_nil s : replaced s [] s
| replaced_cons gap old new rest rest' es :
    replaced rest es rest' -> replaced (gap ++ old ++ rest) ((old, new) :: es) (gap ++ new ++ rest').

(** Matches in order, apart from each other, between two positions. *)
Fixpoint apart (from : nat) (ms : list MatchedEdit) (upto : nat) : Prop :=
  match ms with
  | [] => (from <= upto)%nat
  | m :: ms => (from <= matchIndex m)%nat /\ apart (matchIndex m + matchLength m) ms upto
  end.

Lemma apart_le ms from upto : apart from ms upto -> (from <= upto)%nat.
Proof. revert from. induction ms as [|m ms IH]; intros from; cbn; [done|]. intros [H1 H2%IH]. lia. Qed.

Lemma apart_app ms1 ms2 from upto : apart from (ms1 ++ ms2) upto <-> exists mid, apart from ms1 mid /\ apart mid ms2 upto.
Proof.
  revert from. induction ms1 as [|m ms1 IH]; intros from; cbn.
  - split; [intros H; exists from; by split|]. intros (mid & Hle & H). destruct ms2 as [|m ms2]; cbn in *; [lia|]. split; [lia|tauto].
  - rewrite IH. naive_solver.
Qed.

Lemma apart_from ms a a' upto : apart a ms upto -> ms <> [] -> (forall m, head ms = Some m -> a' <= matchIndex m)%nat -> apart a' ms upto.
Proof. destruct ms as [|m ms]; [done|]. intros [_ H] _ Ha. split; [by apply Ha|done]. Qed.

Lemma apart_upto ms a u u' : apart a ms u -> (u <= u')%nat -> apart a ms u'.
Proof. revert a. induction ms as [|m ms IH]; intros a; cbn; [lia|]. intros [H1 H2] Hu. split; [done|by apply IH]. Qed.

Lemma apart_elem a ms u m : apart a ms u -> m ∈ ms -> (a <= matchIndex m)%nat /\ (matchIndex m + matchLength m <= u)%nat.
Proof.
  revert a. induction ms as [|m1 ms IH]; intros a H Hin; [by apply elem_of_nil in Hin|]. destruct H as [Ha Hb].
  apply elem_of_cons in Hin as [->|Hin]; [split; [done|by apply apart_le in Hb]|]. specialize (IH _ Hb Hin). lia.
Qed.

(** What a match found in [base], and what it puts there. *)
Definition match_text (base : jsstr) (m : MatchedEdit) : jsstr * jsstr := (take (matchLength m) (drop (matchIndex m) base), me_newText m).

Lemma apply_skip ms s off k :
  (off <= k)%nat -> apart k ms (off + length s) -> applyReplacements s ms off = take (k - off) s ++ applyReplacements (drop (k - off) s) ms k.
Proof.
  unfold applyReplacements. revert k. induction ms as [|m ms IH]; intros k Hk Ha; cbn [foldr]; [by rewrite take_drop|].
  destruct Ha as [H1 H2]. pose proof (apart_le _ _ _ H2) as Hle. rewrite (IH k Hk) by (clear -H1 H2; destruct ms; cbn in *; [lia|split; [lia|tauto]]).
  assert (length (take (k - off) s) = k - off)%nat as Hl by (rewrite length_take; lia). unfold substring_to, substring_from.
  replace (Z.to_nat (Z.of_nat (matchIndex m) - Z.of_nat off)) with (k - off + (matchIndex m - k))%nat by lia.
  replace (Z.to_nat (Z.of_nat (matchIndex m) - Z.of_nat off + Z.of_nat (matchLength m))) with (k - off + (matchIndex m - k + matchLength m))%nat by lia.
  replace (Z.to_nat (Z.of_nat (matchIndex m) - Z.of_nat k)) with (matchIndex m - k)%nat by lia.
  replace (Z.to_nat (Z.of_nat (matchIndex m) - Z.of_nat k + Z.of_nat (matchLength m))) with (matchIndex m - k + matchLength m)%nat by lia.
  by rewrite take_app_add', drop_app_add', <- !app_assoc by done.
Qed.

Lemma apply_replaced ms s off :
  apart off ms (off + length s) ->
  replaced s ((fun m => (take (matchLength m) (drop (matchIndex m - off) s), me_newText m)) <$> ms) (applyReplacements s ms off).
Proof.
  revert s off. induction ms as [|m ms IH]; intros s off; [intros _; apply replaced_nil|]. intros [H1 H2]. pose proof (apart_le _ _ _ H2) as Hle.
  set (e := (matchIndex m + matchLength m)%nat) in *. set (i := (matchIndex m - off)%nat).
  assert (s = take i s ++ take (matchLength m) (drop i s) ++ drop (e - off) s) as Es.
  { replace (e - off)%nat with (i + matchLength m)%nat by (subst i e; lia). by rewrite <- drop_drop, !take_drop. }
  change (applyReplacements s (m :: ms) off) with
    (substring_to (applyReplacements s ms off) (Z.of_nat (matchIndex m) - Z.of_nat off) ++ me_newText m
     ++ substring_from (applyReplacements s ms off) (Z.of_nat (matchIndex m) - Z.of_nat off + Z.of_nat (matchLength m))).
  rewrite (apply_skip ms s off e) by (subst e; first [lia|done]). unfold substring_to, substring_from.
  replace (Z.to_nat (Z.of_nat (matchIndex m) - Z.of_nat off + Z.of_nat (matchLength m))) with (e - off)%nat by (subst e; lia).
  replace (Z.to_nat (Z.of_nat (matchIndex m) - Z.of_nat off)) with i by (subst i; lia).
  assert (length (take (e - off) s) = e - off)%nat as Hl by (rewrite length_take; subst e; lia).
  rewrite take_app_le, take_take, Nat.min_l by (rewrite ?Hl; subst e i; lia). rewrite drop_app_ge, Hl, Nat.sub_diag, drop_0 by (rewrite Hl; lia).
  rewrite Es at 1. cbn [fmap list_fmap]. apply replaced_cons.
  assert ((fun m => (take (matchLength m) (drop (matchIndex m - off) s), me_newText m)) <$> ms
    = (fun m => (take (matchLength m) (drop (matchIndex m - e) (drop (e - off) s)), me_newText m)) <$> ms) as ->.
  { clear -H1 H2. apply list_fmap_ext. intros i m' Hi. apply list_elem_of_lookup_2, (apart_elem _ _ _ _ H2) in Hi. rewrite drop_drop. do 3 f_equal. subst e. lia. }
  apply IH. rewrite length_drop. by replace (e + (length s - (e - off)))%nat with (off + length s)%nat by (subst e; lia).
Qed.

(** * Lines and their spans *)

Lemma lines_concat s : concat (splitLinesWithEndings s) = s.
Proof.
  induction s as [|u s IH]; [done|]. cbn [splitLinesWithEndings]. destruct (u =? newline); cbn; [by rewrite IH|].
  destruct (splitLinesWithEndings s) as [|l ls]; cbn in *; [by rewrite <- IH|by rewrite IH].
Qed.

Lemma lines_ne s : Forall (fun l => l <> []) (splitLinesWithEndings s).
Proof.
  induction s as [|u s IH]; [constructor|]. cbn [splitLinesWithEndings]. destruct (u =? newline); [by constructor|].
  destruct (splitLinesWithEndings s) as [|l ls]; [by repeat constructor|]. inversion IH; subst. by constructor.
Qed.

(** Where the line [i] starts. *)
Definition pos (lines : list jsstr) (i : nat) : nat := length (concat (take i lines)).
#[global] Arguments pos : simpl never.

Lemma pos_S lines i line : lines !! i = Some line -> pos lines (S i) = (pos lines i + length line)%nat.
Proof. intros H. unfold pos. rewrite (take_S_r _ _ _ H), concat_app, length_app. cbn. by rewrite app_nil_r. Qed.

Lemma pos_mono lines i j : (i <= j)%nat -> (pos lines i <= pos lines j)%nat.
Proof.
  intros H. unfold pos. replace j with (i + (j - i))%nat by lia. rewrite <- take_take_drop, concat_app, length_app. lia.
Qed.

Lemma pos_all lines i : (length lines <= i)%nat -> pos lines i = length (concat lines).
Proof. intros H. unfold pos. by rewrite take_ge. Qed.

Lemma spans_lookup off lines i : spans_from off lines !! i = (fun _ => LineSpan_ (off + pos lines i) (off + pos lines (S i))) <$> lines !! i.
Proof.
  revert off i. induction lines as [|l lines IH]; intros off [|i]; [done..| |].
  - cbn. f_equal. f_equal; unfold pos; cbn; [lia|]. rewrite app_nil_r. lia.
  - cbn [spans_from lookup list_lookup]. rewrite IH. destruct (lines !! i); [|done]. cbn. f_equal. unfold pos. cbn. rewrite !length_app. f_equal; lia.
Qed.

Lemma spans_length off lines : length (spans_from off lines) = length lines.
Proof. revert off. induction lines as [|l lines IH]; intros off; cbn; [done|]. by rewrite IH. Qed.

Lemma start_line_Some n lines r i :
  start_line n lines r = Some i -> exists line, (n <= i)%nat /\ lines !! (i - n)%nat = Some line /\ (sp_start line <= r < sp_end line)%nat.
Proof.
  revert n. induction lines as [|l lines IH]; intros n; cbn [start_line]; [done|]. destruct (_ && _) eqn:E; intros H.
  - injection H as <-. apply andb_true_iff in E as [E1%Nat.leb_le E2%Nat.ltb_lt]. exists l. rewrite Nat.sub_diag. auto.
  - apply IH in H as (line & Hle & Hl & Hr). exists line. replace (i - n)%nat with (S (i - S n)) by lia. split; [lia|done].
Qed.

Lemma start_line_None n lines r i line : start_line n lines r = None -> lines !! i = Some line -> ~ (sp_start line <= r < sp_end line)%nat.
Proof.
  revert n i. induction lines as [|l lines IH]; intros n i; cbn [start_line]; [done|]. destruct (_ && _) eqn:E; [done|]. intros H.
  destruct i as [|i]; [|by apply (IH (S n))]. intros [= <-]. apply andb_false_iff in E as [E%Nat.leb_gt|E%Nat.ltb_ge]; lia.
Qed.

Lemma end_line_spec j lines r :
  let e := end_line j lines r in
  (j <= e <= j + length lines)%nat /\ (forall k line, (j + k < e)%nat -> lines !! k = Some line -> (sp_end line < r)%nat) /\
  (forall line, lines !! (e - j)%nat = Some line -> (r <= sp_end line)%nat).
Proof.
  revert j. induction lines as [|l lines IH]; intros j; cbn [end_line length]; [split_and!; [lia|lia|intros; lia|done]|].
  destruct (Nat.ltb_spec (sp_end l) r).
  - destruct (IH (S j)) as (H1 & H2 & H3). cbn zeta. split_and!; [lia|lia| |].
    + intros [|k] line Hk; [by intros [= <-]|]. cbn. apply H2. lia.
    + replace (end_line (S j) lines r - j)%nat with (S (end_line (S j) lines r - S j)) by lia. exact H3.
  - cbn zeta. split_and!; [lia|lia|intros; lia|]. rewrite Nat.sub_diag. by intros line [= <-].
Qed.

(** The lines that a range touches, at least the one it starts in. *)
Definition touches (m : MatchedEdit) (from to : nat) : Prop :=
  (matchIndex m < to /\ (from < matchIndex m + matchLength m \/ from <= matchIndex m))%nat.

Lemma range_spec lines m a b :
  getReplacementLineRange (spans_from 0 lines) m = Ok (a, b) ->
  (a < b <= length lines)%nat /\ (pos lines a <= matchIndex m < pos lines (S a))%nat /\ (matchIndex m + matchLength m <= pos lines b)%nat /\
  forall k, (a <= k < b)%nat -> touches m (pos lines k) (pos lines (S k)).
Proof.
  unfold getReplacementLineRange. destruct (start_line _ _ _) as [i|] eqn:Es; [|done]. rewrite spans_length. split_if; [done|]. intros [= -> <-].
  apply Nat.leb_gt in Heqb0. apply start_line_Some in Es as (line & _ & Hl & Hr). rewrite Nat.sub_0_r, spans_lookup in Hl.
  destruct (lines !! a) as [l|] eqn:Ea; [|done]. injection Hl as <-. cbn in Hr.
  destruct (end_line_spec a (drop a (spans_from 0 lines)) (matchIndex m + matchLength m)) as (H1 & H2 & H3).
  set (e := end_line a _ _) in *.
  assert (forall k, (k < length lines)%nat -> exists l', spans_from 0 lines !! k = Some (LineSpan_ (pos lines k) (pos lines (S k))) /\ lines !! k = Some l') as Hsp.
  { intros k Hk. apply lookup_lt_is_Some in Hk as [l' Hl']. exists l'. by rewrite spans_lookup, Hl'. }
  split_and!; [lia|lia|lia|lia| |].
  - destruct (Hsp e Heqb0) as (l' & Hl' & _). specialize (H3 (LineSpan_ (pos lines e) (pos lines (S e)))). cbn in H3. apply H3.
    rewrite lookup_drop. by replace (a + (e - a))%nat with e by lia.
  - intros k Hk. pose proof (pos_mono lines (S a) (S k) ltac:(lia)). unfold touches. split; [lia|].
    destruct (decide (k = a)) as [->|]; [right; lia|left]. destruct (Hsp (pred k) ltac:(lia)) as (l' & Hl' & _).
    specialize (H2 (pred k - a)%nat (LineSpan_ (pos lines (pred k)) (pos lines (S (pred k))))). cbn in H2.
    replace (S (pred k)) with k in H2 by lia. apply H2; [lia|]. rewrite lookup_drop. replace (a + (pred k - a))%nat with (pred k) by lia.
    rewrite Hl'. by replace (S (pred k)) with k by lia.
Qed.

Lemma pos_search lines r : (r < length (concat lines))%nat -> exists i line, lines !! i = Some line /\ (pos lines i <= r < pos lines (S i))%nat.
Proof.
  revert r. induction lines as [|l lines IH]; intros r Hr; cbn in Hr; [lia|]. rewrite length_app in Hr. destruct (decide (r < length l)%nat).
  - exists 0%nat, l. split; [done|]. unfold pos. cbn. rewrite app_nil_r. lia.
  - destruct (IH (r - length l)%nat) as (i & line & Hl & Hp); [lia|]. exists (S i), line. split; [done|]. unfold pos in *. cbn [take concat] in *. rewrite !length_app. lia.
Qed.

Lemma range_error lines m e :
  (matchIndex m + matchLength m <= length (concat lines))%nat -> (matchLength m = 0 -> matchIndex m = 0)%nat ->
  getReplacementLineRange (spans_from 0 lines) m = Err e -> e = RangeOutside /\ concat lines = [].
Proof.
  intros Hb H0 H. assert (e = RangeOutside) as ->. { unfold getReplacementLineRange in H. destruct (start_line _ _ _); [destruct (_ <=? _)%nat|]; congruence. }
  split; [done|]. destruct (decide (length (concat lines) = 0)%nat) as [E|E]; [by destruct (concat lines)|exfalso].
  destruct (pos_search lines (matchIndex m)) as (i & line & Hl & Hp); [destruct (decide (matchLength m = 0)%nat); lia|].
  unfold getReplacementLineRange in H. destruct (start_line _ _ _) as [a|] eqn:Es.
  - apply start_line_Some in Es as (l & _ & Ha & _). rewrite Nat.sub_0_r, spans_lookup in Ha. destruct (lines !! a) as [la|] eqn:Ela; [|done]. apply lookup_lt_Some in Ela.
    destruct (end_line_spec a (drop a (spans_from 0 lines)) (matchIndex m + matchLength m)) as (_ & H2 & _). rewrite spans_length in H.
    destruct (Nat.leb_spec (length lines) (end_line a (drop a (spans_from 0 lines)) (matchIndex m + matchLength m))); [|done].
    destruct (lookup_lt_is_Some_2 lines (pred (length lines)) ltac:(lia)) as [ll Hll].
    specialize (H2 (pred (length lines) - a)%nat (LineSpan_ (pos lines (pred (length lines))) (pos lines (length lines)))). cbn in H2.
    rewrite lookup_drop, spans_lookup in H2. replace (a + (pred (length lines) - a))%nat with (pred (length lines)) in H2 by lia. rewrite Hll in H2. cbn in H2.
    replace (S (pred (length lines))) with (length lines) in H2 by lia. rewrite (pos_all lines (length lines)) in H2 by lia. specialize (H2 ltac:(lia) eq_refl). lia.
  - apply (start_line_None _ _ _ i (LineSpan_ (pos lines i) (pos lines (S i))) Es); [by rewrite spans_lookup, Hl|done].
Qed.

(** * Groups *)

Section Groups.
Variable lines : list jsstr.
Abbreviation P := (pos lines).

Definition group_ok (g : Group) : Prop :=
  (g_startLine g < g_endLine g <= length lines)%nat /\ g_replacements g <> [] /\
  apart (P (g_startLine g)) (g_replacements g) (P (g_endLine g)) /\
  forall k, (g_startLine g <= k < g_endLine g)%nat -> exists m, m ∈ g_replacements g /\ touches m (P k) (P (S k)).

Fixpoint groups_ok (from : nat) (gs : list Group) : Prop :=
  match gs with
  | [] => True
  | g :: gs => (from <= g_startLine g)%nat /\ group_ok g /\ groups_ok (g_endLine g) gs
  end.

Definition groups_end (from : nat) (gs : list Group) : nat := default from (g_endLine <$> last gs).

Lemma groups_ok_snoc from gs g : groups_ok from (gs ++ [g]) <-> groups_ok from gs /\ (groups_end from gs <= g_startLine g)%nat /\ group_ok g.
Proof.
  revert from. induction gs as [|g0 gs IH]; intros from; cbn [app groups_ok]; [unfold groups_end; cbn; tauto|]. rewrite IH.
  assert (groups_end from (g0 :: gs) = groups_end (g_endLine g0) gs) as ->; [|tauto]. unfold groups_end. rewrite last_cons. by destruct (last gs).
Qed.

Definition grouped (gs : list Group) : list MatchedEdit := concat (g_replacements <$> gs).

Lemma grouped_snoc gs g : grouped (gs ++ [g]) = grouped gs ++ g_replacements g.
Proof. unfold grouped. rewrite fmap_app, concat_app. cbn. by rewrite app_nil_r. Qed.

Lemma single_ok m a b : getReplacementLineRange (spans_from 0 lines) m = Ok (a, b) -> group_ok (Group_ a b [m]).
Proof.
  intros (H1 & H2 & H3 & H4)%range_spec. unfold group_ok. cbn -[pos]. split_and!; try done; try lia. intros k Hk. exists m. split; [by left|auto].
Qed.

Lemma head_bound ms a u m : apart a ms u -> head ms = Some m -> (a <= matchIndex m)%nat.
Proof. destruct ms; [done|]. intros [H _] [= ->]. done. Qed.

Lemma step_ok gs m gs' rest :
  groups_ok 0 gs -> (exists u, apart 0 (grouped gs ++ m :: rest) u) -> group_step (spans_from 0 lines) gs m = Ok gs' ->
  groups_ok 0 gs' /\ grouped gs' = grouped gs ++ [m].
Proof.
  intros Hg [u Ha] H. unfold group_step in H. res_inv. destruct x as [a b]. pose proof (single_ok _ _ _ H) as Hs. apply range_spec in H as (H1 & H2 & H3 & H4).
  destruct gs as [|cur gs _] using rev_ind; [cbn in H0; injection H0 as <-; split; [cbn; split_and!; [lia|exact Hs|done]|done]|].
  rewrite last_snoc, removelast_last in H0. rewrite grouped_snoc in *. apply groups_ok_snoc in Hg as Hg'. destruct Hg' as (Hgs & Hc & Hok).
  destruct (Nat.ltb_spec a (g_endLine cur)); injection H0 as <-; [|split; [|by rewrite !grouped_snoc]].
  - rewrite grouped_snoc. cbn [g_replacements]. split; [|by rewrite app_assoc]. apply groups_ok_snoc. cbn [g_startLine g_endLine]. split; [done|]. split; [done|].
    destruct Hok as (Hr & Hne & Hap & Ht). rewrite <- app_assoc in Ha. apply apart_app in Ha as (m1 & _ & Ha). apply apart_app in Ha as (m2 & Hm2 & Hm & _).
    assert (g_startLine cur <= a)%nat as Hle.
    { destruct (g_replacements cur) as [|m0 ms]; [done|]. pose proof (apart_le _ _ _ (proj2 Hm2)). destruct Hap as [Hp _].
      destruct (decide (g_startLine cur <= a)%nat); [done|]. pose proof (pos_mono lines (S a) (g_startLine cur) ltac:(lia)). lia. }
    split_and!; cbn -[pos]; [lia|lia|by destruct (g_replacements cur)| |].
    + apply apart_app. exists m2. split; [eapply apart_from; [exact Hm2|done|intros m0; by apply (head_bound _ _ _ _ Hap)]|]. split; [done|cbn -[pos]].
      pose proof (pos_mono lines b (Nat.max (g_endLine cur) b) ltac:(lia)). lia.
    + intros k Hk. setoid_rewrite elem_of_app. destruct (decide (k < g_endLine cur)%nat).
      * destruct (Ht k ltac:(lia)) as (m0 & ? & ?). eauto.
      * exists m. split; [right; by left|]. apply H4. lia.
  - apply groups_ok_snoc. split; [done|]. split; [|done]. unfold groups_end. by rewrite last_snoc.
Qed.

Lemma groups_built ms gs gs' :
  groups_ok 0 gs -> (exists u, apart 0 (grouped gs ++ ms) u) -> foldM (group_step (spans_from 0 lines)) gs ms = Ok gs' ->
  groups_ok 0 gs' /\ grouped gs' = grouped gs ++ ms.
Proof.
  revert gs. induction ms as [|m ms IH]; intros gs Hg Ha H; cbn in H; [injection H as <-; by rewrite app_nil_r|]. res_inv.
  destruct (step_ok gs m x ms Hg Ha H) as [Hx Ex]. destruct (IH x Hx) as [Hg' E']; [by rewrite Ex, <- app_assoc|done|]. split; [done|].
  by rewrite E', Ex, <- app_assoc.
Qed.
End Groups.

(** * What stays

    The lines [o] of a text, and the lines [b] of the text the matches were found
    in, from the position [from] on: a run of lines that no match touches is kept
    from [o]; a run of lines each of which some match touches is rewritten from
    [b]. *)
Section Overlay.
Variable base : jsstr.

Inductive overlaid : nat -> list jsstr -> list jsstr -> list MatchedEdit -> jsstr -> Prop :=
| overlaid_end from o b : length o = length b -> overlaid from o b [] (concat o)
| overlaid_group from ko kb mo mb ro rb ms ms' out out' :
    length ko = length kb -> length mo = length mb ->
    let start := (from + length (concat kb))%nat in
    let stop := (start + length (concat mb))%nat in
    (forall k line, mb !! k = Some line -> exists m, m ∈ ms /\ touches m (start + pos mb k) (start + pos mb (S k))) ->
    replaced (concat mb) (match_text base <$> ms) out ->
    overlaid stop ro rb ms' out' ->
    overlaid from (ko ++ mo ++ ro) (kb ++ mb ++ rb) (ms ++ ms') (concat ko ++ out ++ out').

Variables originalLines lines : list jsstr.
Hypothesis same_count : length originalLines = length lines.
Hypothesis base_lines : concat lines = base.
Abbreviation P := (pos lines).

Lemma slice_split {A} (l : list A) i j : (i <= j)%nat -> drop i l = slice l i j ++ drop j l.
Proof. intros H. unfold slice. by rewrite drop_take_drop. Qed.

Lemma slice_length {A} (l : list A) i j : (i <= j <= length l)%nat -> length (slice l i j) = (j - i)%nat.
Proof. intros H. unfold slice. rewrite length_drop, length_take. lia. Qed.

Lemma pos_slice i j : (i <= j)%nat -> (P i + length (concat (slice lines i j)))%nat = P j.
Proof.
  intros H. unfold pos. rewrite <- length_app, <- concat_app. do 2 f_equal. unfold slice.
  replace (take i lines) with (take i (take j lines)) by (rewrite take_take; f_equal; lia). apply take_drop.
Qed.

Lemma slice_concat i j : (i <= j)%nat -> slice base (P i) (P j) = concat (slice lines i j).
Proof.
  intros H. unfold slice. assert (base = concat (take j lines) ++ concat (drop j lines)) as -> by (by rewrite <- concat_app, take_drop).
  rewrite (take_app_length' _ _ (P j)) by done.
  assert (concat (take j lines) = concat (take i lines) ++ concat (drop i (take j lines))) as E.
  { rewrite <- concat_app. f_equal. rewrite <- (take_drop i (take j lines)) at 1. f_equal. rewrite take_take. f_equal. lia. }
  rewrite E. by apply drop_app_length'.
Qed.

Lemma pos_slice_k i j k : (i + k <= j)%nat -> (P i + pos (slice lines i j) k)%nat = P (i + k).
Proof.
  intros H. unfold pos. rewrite <- length_app, <- concat_app. do 2 f_equal. unfold slice. rewrite <- take_take_drop. f_equal.
  rewrite skipn_firstn_comm, take_take. f_equal. lia.
Qed.

Lemma span_at_start i : (i < length lines)%nat -> span_at (spans_from 0 lines) i = LineSpan_ (P i) (P (S i)).
Proof. intros [l Hl]%lookup_lt_is_Some. unfold span_at. by rewrite spans_lookup, Hl. Qed.

Lemma match_text_slice i j ms : apart (P i) ms (P j) ->
  (fun m => (take (matchLength m) (drop (matchIndex m - P i) (slice base (P i) (P j))), me_newText m)) <$> ms = match_text base <$> ms.
Proof.
  intros Ha. apply list_fmap_ext. intros n m Hm. unfold match_text. f_equal. apply list_elem_of_lookup_2, (apart_elem _ _ _ _ Ha) in Hm.
  unfold slice.
  rewrite drop_drop, skipn_firstn_comm, take_take. replace (P i + (matchIndex m - P i))%nat with (matchIndex m) by lia. f_equal. lia.
Qed.

Lemma group_replaced g : group_ok lines g ->
  replaced (concat (slice lines (g_startLine g) (g_endLine g))) (match_text base <$> g_replacements g) (group_text base (spans_from 0 lines) g).
Proof.
  intros (Hr & _ & Ha & _). unfold group_text. rewrite !span_at_start by lia. cbn [sp_start sp_end]. replace (S (pred (g_endLine g))) with (g_endLine g) by lia.
  rewrite <- (match_text_slice _ _ _ Ha), <- slice_concat by lia. apply apply_replaced. rewrite slice_length; [by replace (_ + (_ - _))%nat with (P (g_endLine g)) by (pose proof (apart_le _ _ _ Ha); lia)|].
  pose proof (apart_le _ _ _ Ha). pose proof (pos_mono lines (g_endLine g) (length lines) ltac:(lia)). rewrite (pos_all lines (length lines)), base_lines in H0 by lia. lia.
Qed.

Lemma overlay_ok k gs : (k <= length lines)%nat -> groups_ok lines k gs ->
  overlaid (P k) (drop k originalLines) (drop k lines) (grouped gs) (overlay_groups originalLines base (spans_from 0 lines) k gs).
Proof.
  revert k. induction gs as [|g gs IH]; intros k Hk.
  - intros _. cbn. apply overlaid_end. rewrite !length_drop. lia.
  - intros (Hkg & Hg & Hgs). destruct Hg as (Hr & Hg'). pose proof (conj Hr Hg' : group_ok lines g) as Hg. cbn [overlay_groups].
    change (grouped (g :: gs)) with (g_replacements g ++ grouped gs).
    rewrite (slice_split originalLines k (g_startLine g)), (slice_split lines k (g_startLine g)) by done.
    rewrite (slice_split originalLines (g_startLine g) (g_endLine g)), (slice_split lines (g_startLine g) (g_endLine g)) by lia.
    apply overlaid_group.
    + rewrite !slice_length; lia.
    + rewrite !slice_length; lia.
    + rewrite pos_slice by done. intros i line Hi. apply lookup_lt_Some in Hi. rewrite slice_length in Hi by lia. rewrite !pos_slice_k by lia.
      replace (g_startLine g + S i)%nat with (S (g_startLine g + i)) by lia. apply Hg'. lia.
    + by apply group_replaced.
    + rewrite !pos_slice by lia. apply IH; [lia|done].
Qed.
End Overlay.

Lemma preserving_ok content base ms out :
  apart 0 ms (length base) -> sorted_by matchIndex ms -> applyReplacementsPreservingUnchangedLines content base ms = Ok out ->
  overlaid base 0 (splitLinesWithEndings content) (splitLinesWithEndings base) ms out.
Proof.
  intros Ha Hs H. unfold applyReplacementsPreservingUnchangedLines, getLineSpans in H. rewrite spans_length in H. destruct (negb _) eqn:Heqb; [done|].
  apply negb_false_iff, Nat.eqb_eq in Heqb. res_inv. rewrite sort_by_sorted_id in H by done.
  destruct (groups_built (splitLinesWithEndings base) ms [] x) as [Hg Eg]; [done|by exists (length base)|done|]. cbn in Eg. rewrite <- Eg.
  apply (overlay_ok base _ _ Heqb (lines_concat base) 0 x); [lia|done].
Qed.

(** * Plain characters *)

Definition ascii_unit (u : Z) : Z :=
  let u := if single_quote u then 0x27 else u in
  let u := if double_quote u then 0x22 else u in
  let u := if dash u then 0x2D else u in
  if wide_space u then 0x20 else u.

Lemma to_ascii_units s : to_ascii s = ascii_unit <$> s.
Proof. unfold to_ascii, replace_class. by rewrite <- !list_fmap_compose. Qed.



Lemma ascii_unit_cases u :
  (ascii_unit u = 0x27 /\ 0x2018 <= u <= 0x201B) \/ (ascii_unit u = 0x22 /\ 0x201C <= u <= 0x201F) \/
  (ascii_unit u = 0x2D /\ (0x2010 <= u <= 0x2015 \/ u = 0x2212)) \/
  (ascii_unit u = 0x20 /\ (u = 0xA0 \/ 0x2002 <= u <= 0x200A \/ u = 0x202F \/ u = 0x205F \/ u = 0x3000)) \/
  (ascii_unit u = u /\ single_quote u = false /\ double_quote u = false /\ dash u = false /\ wide_space u = false).
Proof.
  unfold ascii_unit. destruct (single_quote u) eqn:E1; [left; split; [done|]; unfold single_quote, in_range in E1; bool_lia|].
  destruct (double_quote u) eqn:E2; [right; left; split; [done|]; unfold double_quote, in_range in E2; bool_lia|].
  destruct (dash u) eqn:E3; [right; right; left; split; [done|]|].
  { unfold dash, in_range in E3. apply orb_true_iff in E3 as [E3|E3]; bool_lia. }
  destruct (wide_space u) eqn:E4; [right; right; right; left; split; [done|]|by do 4 right].
  unfold wide_space, in_range in E4. repeat apply orb_true_iff in E4 as [E4|E4]; bool_lia.
Qed.

Lemma ascii_unit_newline u : ascii_unit u = newline <-> u = newline.
Proof. unfold newline. destruct (ascii_unit_cases u) as [[-> H]|[[-> H]|[[-> H]|[[-> H]|[-> H]]]]]; lia. Qed.

Lemma ascii_unit_idem u : ascii_unit (ascii_unit u) = ascii_unit u.
Proof. destruct (ascii_unit_cases u) as [[-> H]|[[-> H]|[[-> H]|[[-> H]|[E H]]]]]; try done. by rewrite !E. Qed.

Lemma is_space_spec u :
  is_space u = true <-> 9 <= u <= 13 \/ u = 0x20 \/ u = 0xA0 \/ u = 0x1680 \/ 0x2000 <= u <= 0x200A \/ u = 0x2028 \/ u = 0x2029 \/ u = 0x202F \/ u = 0x205F \/ u = 0x3000 \/ u = 0xFEFF.
Proof. unfold is_space, in_range. rewrite !orb_true_iff, !andb_true_iff, !Z.leb_le, !Z.eqb_eq. lia. Qed.

Lemma ascii_unit_space u : is_space (ascii_unit u) = is_space u.
Proof.
  apply eq_true_iff_eq. rewrite !is_space_spec. destruct (ascii_unit_cases u) as [[-> H]|[[-> H]|[[-> H]|[[-> H]|[-> H]]]]]; lia.
Qed.

(** * The space of fuzzy matching *)

Lemma split_lines_map (f : Z -> Z) (s : jsstr) : (forall u, f u = newline <-> u = newline) -> split_lines (f <$> s) = (fmap f : jsstr -> jsstr) <$> split_lines s.
Proof.
  intros Hf. induction s as [|u s IH]; [done|]. cbn [fmap list_fmap split_lines]. rewrite IH. destruct (split_lines_cons s) as (l & ls & ->).
  destruct (decide (u = newline)) as [->|Hu]; [by rewrite (proj2 (Hf newline) eq_refl)|].
  rewrite (proj2 (Z.eqb_neq u newline)), (proj2 (Z.eqb_neq (f u) newline)) by (rewrite ?Hf; done). done.
Qed.

Lemma trim_end_map (f : Z -> Z) (s : jsstr) : (forall u, is_space (f u) = is_space u) -> trim_end (f <$> s) = f <$> trim_end s.
Proof.
  intros Hf. induction s as [|u s IH]; [done|]. cbn [fmap list_fmap trim_end]. rewrite IH. destruct (trim_end s); cbn; [|done]. rewrite Hf. by destruct (is_space u).
Qed.

Lemma trim_end_idem s : trim_end (trim_end s) = trim_end s.
Proof.
  induction s as [|u s IH]; [done|]. cbn. destruct (trim_end s) as [|v t] eqn:E; [destruct (is_space u) eqn:Eu; [done|cbn; by rewrite Eu]|].
  cbn in *. by rewrite IH.
Qed.


Section Fuzzy.
Context {normalize : jsstr -> jsstr} {Laws : Normalizer normalize}.
Abbreviation fuzzy := (normalizeForFuzzyMatch normalize).

Definition fuzzy_line (line : jsstr) : jsstr := to_ascii (trim_end (normalize line)).

Lemma normalize_split s : split_lines (normalize s) = normalize <$> split_lines s.
Proof.
  rewrite normalize_lines. destruct (split_lines_cons s) as (l & ls & E). pose proof (split_lines_no_newline s) as H. rewrite E in *. cbn [fmap list_fmap].
  apply split_join_lines. change (normalize l :: (normalize <$> ls)) with (normalize <$> (l :: ls)). apply Forall_fmap. eapply Forall_impl; [exact H|]. apply normalize_newline.
Qed.

Lemma trim_newline s : newline ∉ s -> newline ∉ trim_end s.
Proof. intros H. destruct (trim_end_prefix s) as (rest & E & _). rewrite E in H. set_solver. Qed.

Lemma split_join ls : ls <> [] -> Forall (fun l => newline ∉ l) ls -> split_lines (join_lines ls) = ls.
Proof. destruct ls as [|l ls]; [done|]. intros _. apply split_join_lines. Qed.

(** Line by line. *)
Lemma fuzzy_lines s : split_lines (fuzzy s) = fuzzy_line <$> split_lines s.
Proof.
  unfold normalizeForFuzzyMatch. rewrite to_ascii_units, split_lines_map by apply ascii_unit_newline. rewrite split_join.
  - rewrite normalize_split. rewrite <- !list_fmap_compose. apply list_fmap_ext. intros i l _. cbn. unfold fuzzy_line. by rewrite to_ascii_units.
  - rewrite normalize_split. destruct (split_lines_cons s) as (l & ls & ->). done.
  - apply Forall_fmap. eapply Forall_impl; [apply split_lines_no_newline|]. apply trim_newline.
Qed.

Lemma fuzzy_line_stable l : newline ∉ l -> fuzzy_line (fuzzy_line l) = fuzzy_line l.
Proof.
  intros Hl. unfold fuzzy_line at 1. assert (normalize (fuzzy_line l) = fuzzy_line l) as ->.
  { apply normalize_ascii. destruct (trim_end_prefix (normalize l)) as (rest & E & _). apply (normalize_prefix _ rest). rewrite <- E. apply normalize_idem. }
  unfold fuzzy_line. rewrite !to_ascii_units, trim_end_map by apply ascii_unit_space. rewrite trim_end_idem, <- list_fmap_compose.
  apply list_fmap_ext. intros i u _. apply ascii_unit_idem.
Qed.

Lemma fuzzy_idem s : fuzzy (fuzzy s) = fuzzy s.
Proof.
  assert (split_lines (fuzzy (fuzzy s)) = split_lines (fuzzy s)) as E; [|by rewrite <- (join_split_lines (fuzzy (fuzzy s))), E, join_split_lines].
  rewrite !fuzzy_lines, <- list_fmap_compose. apply list_fmap_ext. intros i l Hl. apply fuzzy_line_stable.
  pose proof (split_lines_no_newline s) as H. rewrite Forall_forall in H. apply H. by eapply list_elem_of_lookup_2.
Qed.

(** When the two sides have the same lines: unless the last line has nothing but
    white space in it, and no line feed. *)
Lemma lines_count s : (length (splitLinesWithEndings s) + (if decide (last (split_lines s) = Some []) then 1 else 0))%nat = length (split_lines s).
Proof.
  induction s as [|u s IH]; [done|]. cbn [splitLinesWithEndings split_lines]. destruct (split_lines_cons s) as (l & ls & E).
  destruct (u =? newline).
  - cbn [length]. rewrite <- IH, last_cons, E. cbn [last]. rewrite last_cons. cbn. destruct (last ls); by case_decide.
  - rewrite E in *. destruct (splitLinesWithEndings s) as [|l1 ls1] eqn:Es; cbn [length] in *.
    + rewrite !last_cons in *. destruct (last ls) eqn:El; repeat case_decide; simplify_eq; try lia; destruct ls; cbn in *; try done; try lia.
    + rewrite !last_cons in *. destruct (last ls) eqn:El; repeat case_decide; simplify_eq; try lia.
      exfalso. apply last_None in El. subst ls. pose proof (lines_ne s) as Hne. pose proof (lines_concat s) as Hc. rewrite Es in *.
      assert (split_lines s = [[]] -> s = []) as Hs by (intros H'; by rewrite <- (join_split_lines s), H'). rewrite (Hs E) in Hc. cbn in Hc.
      apply Forall_cons in Hne as [Hne _]. by destruct l1.
Qed.

Definition last_line (s : jsstr) : jsstr := default [] (last (split_lines s)).

Lemma count_differs s :
  (length (splitLinesWithEndings s) =? length (splitLinesWithEndings (fuzzy s)))%nat = false <->
  last_line s <> [] /\ Forall (fun u => is_space u = true) (normalize (last_line s)).
Proof.
  pose proof (lines_count s) as H1. pose proof (lines_count (fuzzy s)) as H2. rewrite fuzzy_lines, length_fmap, fmap_last in H2.
  unfold last_line. destruct (last (split_lines s)) as [l|] eqn:E; [|apply last_None in E; by destruct (split_lines_ne s)]. cbn [default fmap option_fmap option_map from_option] in *.
  rewrite Nat.eqb_neq. assert (fuzzy_line l = [] <-> Forall (fun u => is_space u = true) (normalize l)) as Hf.
  { rewrite <- trim_end_nil. unfold fuzzy_line. rewrite to_ascii_units. split; [apply fmap_nil_inv|by intros ->]. }
  rewrite <- Hf. assert (l = [] -> fuzzy_line l = []) as Hl by (intros ->; unfold fuzzy_line; by rewrite (proj2 (normalize_nil []))).
  destruct (decide (l = [])) as [->|Hne]; [rewrite (Hl eq_refl) in H2|rewrite decide_False in H1 by congruence; destruct (decide (fuzzy_line l = [])) as [E2|E2]].
  - rewrite !decide_True in * by done. split; [lia|tauto].
  - rewrite E2, decide_True in H2 by done. split; [done|lia].
  - rewrite decide_False in H2 by congruence. split; [lia|tauto].
Qed.
End Fuzzy.

(** * Matches *)

Section Matched.
Context {normalize : jsstr -> jsstr} {Laws : Normalizer normalize}.
Abbreviation fuzzy := (normalizeForFuzzyMatch normalize).

(** The first place of the old text, or of what it is in the space of fuzzy
    matching, and the only one: in that space no two are apart. *)
Definition matched (is_fuzzy : bool) (base : jsstr) (edit : Edit) (m : MatchedEdit) : Prop :=
  exists old, (old = oldText edit \/ is_fuzzy = true /\ old = fuzzy (oldText edit) /\ forall k, ~ occurs_at base (oldText edit) k) /\
    occurs_at base old (matchIndex m) /\ (forall j, (j < matchIndex m)%nat -> ~ occurs_at base old j) /\
    matchLength m = length old /\ me_newText m = newText edit /\
    forall i j, fuzzy (oldText edit) <> [] -> occurs_at (fuzzy base) (fuzzy (oldText edit)) i -> occurs_at (fuzzy base) (fuzzy (oldText edit)) j ->
      ~ (i + length (fuzzy (oldText edit)) <= j)%nat.

Lemma count_single base old : countOccurrences normalize base old <= 1 -> forall i j, fuzzy old <> [] -> occurs_at (fuzzy base) (fuzzy old) i -> occurs_at (fuzzy base) (fuzzy old) j -> ~ (i + length (fuzzy old) <= j)%nat.
Proof. unfold countOccurrences, len. intros H i j Hne. apply split_on_twice; [done|lia]. Qed.

Lemma count_many base old : 1 < countOccurrences normalize base old -> fuzzy old <> [] -> exists i j, occurs_at (fuzzy base) (fuzzy old) i /\ occurs_at (fuzzy base) (fuzzy old) j /\ (i + length (fuzzy old) <= j)%nat.
Proof. unfold countOccurrences, len. intros H Hne. apply split_on_many; [done|lia]. Qed.

(** Fuzzy matching is asked for, and [base] is in its space; or no edit needs it. *)
Definition right_base (is_fuzzy : bool) (base : jsstr) (edits : list Edit) : Prop :=
  if is_fuzzy then fuzzy base = base else Forall (fun edit => usedFuzzyMatch (fuzzyFindText normalize base (oldText edit)) = false) edits.

Lemma match_edit_ok is_fuzzy base total i edit m : right_base is_fuzzy base [edit] -> match_edit normalize base total i edit = Ok m -> editIndex m = i /\ matched is_fuzzy base edit m.
Proof.
  intros Hb H. unfold match_edit in H. res_inv. apply negb_false_iff in H. apply Z.ltb_ge in H0. split; [done|]. cbn. pose proof (count_single _ _ H0) as Hs.
  unfold fuzzyFindText in H |- *. destruct (index_of base (oldText edit) 0) as [k|] eqn:Ek.
  - apply index_of_occurs in Ek as [Ho Hf]. exists (oldText edit). cbn. rewrite Nat2Z.id. split_and!; auto.
  - destruct (index_of (fuzzy base) (fuzzy (oldText edit)) 0) as [k|] eqn:Ek2; [|discriminate H]. cbn. destruct is_fuzzy; cbn in Hb.
    + apply index_of_occurs in Ek2 as [Ho Hf]. pose proof (index_of_absent _ _ Ek) as Hno. exists (fuzzy (oldText edit)). rewrite Nat2Z.id. rewrite Hb in Ho, Hf. cbn. split_and!; auto.
    + apply Forall_cons in Hb as [Hb _]. unfold fuzzyFindText in Hb. by rewrite Ek, Ek2 in Hb.
Qed.

Lemma match_edits_ok is_fuzzy base total i edits ms : right_base is_fuzzy base edits -> match_edits normalize base total i edits = Ok ms ->
  Forall2 (matched is_fuzzy base) edits ms /\ editIndex <$> ms = seq i (length edits).
Proof.
  intros Hb. revert i ms. induction edits as [|edit edits IH]; intros i ms H; cbn in H; res_inv; [by split|].
  assert (right_base is_fuzzy base [edit] /\ right_base is_fuzzy base edits) as [Hb1 Hb2].
  { destruct is_fuzzy; [done|]. cbn in *. apply Forall_cons in Hb as [? ?]. by repeat constructor. }
  destruct (match_edit_ok _ _ _ _ _ _ Hb1 H) as [E1 H1]. destruct (IH Hb2 _ _ H0) as [H2 E2]. split; [by constructor|]. cbn. by rewrite E1, E2.
Qed.

(** There is one place for an edit. *)
Lemma matched_place is_fuzzy base edit m m' : matched is_fuzzy base edit m -> matched is_fuzzy base edit m' -> matchIndex m' = matchIndex m /\ matchLength m' = matchLength m.
Proof.
  intros (old & Ho & Hoc & Hf & -> & _) (old' & Ho' & Hoc' & Hf' & -> & _).
  assert (old' = old) as ->; [|split; [|done]; destruct (Nat.lt_trichotomy (matchIndex m') (matchIndex m)) as [H|[H|H]]; [by destruct (Hf _ H)|done|by destruct (Hf' _ H)]].
  destruct Ho as [->|(_ & -> & Hn)], Ho' as [->|(_ & -> & Hn')]; [done|by destruct (Hn' _ Hoc)|by destruct (Hn _ Hoc')|done].
Qed.

Lemma matched_bound is_fuzzy base edit m : matched is_fuzzy base edit m -> (matchIndex m + matchLength m <= length base)%nat.
Proof. intros (old & _ & H%occurs_at_bound & _ & -> & _). done. Qed.

Lemma check_overlaps_apart (base : jsstr) prev ms :
  sorted_by matchIndex (prev :: ms) -> Forall (fun m => matchIndex m + matchLength m <= length base)%nat (prev :: ms) -> check_overlaps prev ms = Ok tt ->
  apart (matchIndex prev + matchLength prev) ms (length base).
Proof.
  revert prev. induction ms as [|m ms IH]; intros prev Hs Hb H; [by apply Forall_cons in Hb as [? _]|]. cbn in H. res_inv. apply Nat.ltb_ge in H.
  inversion Hs; subst. apply Forall_cons in Hb as [_ Hb]. split; [done|]. destruct x. by apply IH.
Qed.

Lemma no_overlaps_apart (base : jsstr) ms :
  sorted_by matchIndex ms -> Forall (fun m => matchIndex m + matchLength m <= length base)%nat ms -> no_overlaps ms = Ok tt -> apart 0 ms (length base).
Proof. destruct ms as [|m ms]; cbn; [lia|]. intros Hs Hb H. split; [lia|]. by apply check_overlaps_apart. Qed.

(** What edits make of [content]: matched in [base], apart from each other and in
    the order of their places. *)
Definition edited (is_fuzzy : bool) (content : jsstr) (edits : list Edit) (new : jsstr) : Prop :=
  let base := if is_fuzzy then fuzzy content else content in
  exists ms0 ms, Forall2 (matched is_fuzzy base) edits ms0 /\ ms ≡ₚ ms0 /\ apart 0 ms (length base) /\
    if is_fuzzy then overlaid base 0 (splitLinesWithEndings content) (splitLinesWithEndings base) ms new
    else replaced content (match_text content <$> ms) new.

Lemma needs_fuzzy_base content edits : let f := needs_fuzzy normalize content edits in right_base f (if f then fuzzy content else content) edits.
Proof.
  cbn zeta. destruct (needs_fuzzy normalize content edits) eqn:E; cbn; [apply fuzzy_idem|]. unfold needs_fuzzy in E. apply Forall_forall. intros e He.
  destruct (usedFuzzyMatch _) eqn:Eu; [|done]. exfalso. apply not_true_iff_false in E. apply E, existsb_exists. exists e. split; [by apply list_elem_of_In|done].
Qed.

Lemma found_bounds is_fuzzy (base : jsstr) edits ms : Forall2 (matched is_fuzzy base) edits ms -> Forall (fun m => matchIndex m + matchLength m <= length base)%nat (sort_by matchIndex ms).
Proof. intros H. rewrite (sort_by_perm matchIndex). induction H; constructor; [by eapply matched_bound|done]. Qed.

Lemma edited_of ms (is_fuzzy : bool) content edits new :
  let base := if is_fuzzy then fuzzy content else content in
  Forall2 (matched is_fuzzy base) edits ms -> no_overlaps (sort_by matchIndex ms) = Ok tt ->
  (if is_fuzzy then applyReplacementsPreservingUnchangedLines content base (sort_by matchIndex ms) else Ok (applyReplacements base (sort_by matchIndex ms) 0)) = Ok new ->
  edited is_fuzzy content edits new.
Proof.
  intros base Hm Hv Hn. assert (apart 0 (sort_by matchIndex ms) (length base)) as Ha.
  { apply no_overlaps_apart; [apply sort_by_sorted|by eapply found_bounds|done]. }
  exists ms, (sort_by matchIndex ms). fold base. split_and!; [done|apply sort_by_perm|done|]. destruct is_fuzzy.
  - apply preserving_ok; [done|apply sort_by_sorted|done].
  - injection Hn as <-. pose proof (apply_replaced (sort_by matchIndex ms) base 0 Ha) as Hr. erewrite list_fmap_ext; [exact Hr|].
    intros i m _. unfold match_text. by rewrite Nat.sub_0_r.
Qed.

Lemma applyEdits_ok content edits base new :
  applyEditsToNormalizedContent normalize content edits = Ok (base, new) ->
  base = content /\ new <> content /\ edited (needs_fuzzy normalize content (edit_to_lf <$> edits)) content (edit_to_lf <$> edits) new.
Proof.
  unfold applyEditsToNormalizedContent. intros H. pose proof (needs_fuzzy_base content (edit_to_lf <$> edits)) as Hb. cbn zeta in Hb.
  set (f := needs_fuzzy _ _ _) in *. set (es := edit_to_lf <$> edits) in *. res_inv. apply bool_decide_eq_false in H3.
  split; [done|]. split; [congruence|]. destruct (match_edits_ok _ _ _ _ _ _ Hb H0) as [Hm _]. destruct x1. by apply (edited_of x0).
Qed.

(** * Refusals *)

(** When there is reason for an error, whether or not another one is thrown. *)
Definition refused (content : jsstr) (edits : list Edit) (e : edit_err) : Prop :=
  let f := needs_fuzzy normalize content edits in
  let base := if f then fuzzy content else content in
  match e with
  | EmptyOldText i total => total = length edits /\ exists edit, edits !! i = Some edit /\ oldText edit = []
  | NotFound i total =>
      total = length edits /\ exists edit, edits !! i = Some edit /\
        (forall k, ~ occurs_at base (oldText edit) k) /\ (forall k, ~ occurs_at (fuzzy base) (fuzzy (oldText edit)) k)
  | Duplicate i total count =>
      total = length edits /\ exists edit, edits !! i = Some edit /\ count = countOccurrences normalize base (oldText edit) /\ 1 < count /\
        (fuzzy (oldText edit) = [] \/
         exists j k, occurs_at (fuzzy base) (fuzzy (oldText edit)) j /\ occurs_at (fuzzy base) (fuzzy (oldText edit)) k /\ (j + length (fuzzy (oldText edit)) <= k)%nat)
  | Overlap i j =>
      exists ei ej mi mj, edits !! i = Some ei /\ edits !! j = Some ej /\ matched f base ei mi /\ matched f base ej mj /\
        (matchIndex mi < matchIndex mj \/ matchIndex mi = matchIndex mj /\ i < j)%nat /\ (matchIndex mj < matchIndex mi + matchLength mi)%nat
  | NoChange total => total = length edits /\ edited f content edits content
  | RangeOutside => f = true /\ content = []
  | LineCountDiffers => f = true /\ last_line content <> [] /\ Forall (fun u => is_space u = true) (normalize (last_line content))
  end.

(** The checks in their order: the texts to look for, one edit after the other;
    their places, one edit after the other; overlaps; lines; and that something
    changes. *)
Definition check_of (e : edit_err) : nat * nat :=
  match e with
  | EmptyOldText i _ => (0, i)
  | NotFound i _ | Duplicate i _ _ => (1, i)
  | Overlap _ _ => (2, 0)
  | RangeOutside | LineCountDiffers => (3, 0)
  | NoChange _ => (4, 0)
  end%nat.

Definition no_later (e e' : edit_err) : Prop :=
  (fst (check_of e) < fst (check_of e') \/ fst (check_of e) = fst (check_of e') /\ snd (check_of e) <= snd (check_of e'))%nat.

Lemma not_empty_err i total edits e : check_not_empty i total edits = Err e ->
  exists k edit, e = EmptyOldText (i + k) total /\ edits !! k = Some edit /\ oldText edit = [] /\ forall j edit', (j < k)%nat -> edits !! j = Some edit' -> oldText edit' <> [].
Proof.
  revert i. induction edits as [|edit edits IH]; intros i H; cbn [check_not_empty] in H; [done|]. apply bind_Err in H as [H|(u & Hu & H)].
  - apply throw_if_Err in H as [H <-]. exists 0%nat, edit. rewrite Nat.add_0_r. apply Nat.eqb_eq in H. split_and!; [done|done|by destruct (oldText edit)|lia].
  - apply throw_if_Ok, Nat.eqb_neq in Hu. apply IH in H as (k & edit' & -> & Hk & Ho & Hb). exists (S k), edit'. replace (i + S k)%nat with (S i + k)%nat by lia. split_and!; [done..|].
    intros [|j] e' Hj He; [injection He as <-; by intros E; rewrite E in Hu|apply (Hb j); [lia|done]].
Qed.

Lemma not_empty_ok i total edits u j edit : check_not_empty i total edits = Ok u -> edits !! j = Some edit -> oldText edit <> [].
Proof.
  revert i j. induction edits as [|e edits IH]; intros i j H Hj; [done|]. cbn [check_not_empty] in H. apply bind_Ok in H as (v & Hv & H). apply throw_if_Ok, Nat.eqb_neq in Hv.
  destruct j as [|j]; [injection Hj as <-; intros E; by rewrite E in Hv|by eapply IH].
Qed.

Lemma match_edit_err base total i edit e : match_edit normalize base total i edit = Err e ->
  (e = NotFound i total /\ (forall k, ~ occurs_at base (oldText edit) k) /\ forall k, ~ occurs_at (fuzzy base) (fuzzy (oldText edit)) k) \/
  exists count, e = Duplicate i total count /\ count = countOccurrences normalize base (oldText edit) /\ 1 < count.
Proof.
  unfold match_edit. intros [H|(u & _ & H)]%bind_Err.
  - left. apply throw_if_Err in H as [H <-]. apply negb_true_iff in H. unfold fuzzyFindText in H.
    destruct (index_of base (oldText edit) 0) eqn:E1; [discriminate H|]. destruct (index_of (fuzzy base) (fuzzy (oldText edit)) 0) eqn:E2; [discriminate H|].
    split; [done|]. split; by apply index_of_absent.
  - right. apply bind_Err in H as [H|(v & _ & H)]; [|done]. apply throw_if_Err in H as [H <-]. apply Z.ltb_lt in H. eauto.
Qed.

(** An edit that has its place is neither nowhere nor at two places. *)
Lemma match_edit_placed base total i edit m : match_edit normalize base total i edit = Ok m ->
  ~ ((forall k, ~ occurs_at base (oldText edit) k) /\ (forall k, ~ occurs_at (fuzzy base) (fuzzy (oldText edit)) k)) /\ ~ 1 < countOccurrences normalize base (oldText edit).
Proof.
  unfold match_edit. intros H. res_inv. apply negb_false_iff in H. apply Z.ltb_ge in H0. split; [|lia]. intros [H1 H2]. unfold fuzzyFindText in H.
  destruct (index_of base (oldText edit) 0) as [k|] eqn:E1; [apply index_of_occurs in E1 as [E1 _]; by apply (H1 k)|].
  destruct (index_of (fuzzy base) (fuzzy (oldText edit)) 0) as [k|] eqn:E2; [apply index_of_occurs in E2 as [E2 _]; by apply (H2 k)|done].
Qed.

Lemma match_edits_err base total i edits e : match_edits normalize base total i edits = Err e ->
  exists k edit, edits !! k = Some edit /\ match_edit normalize base total (i + k) edit = Err e /\
    forall j edit', (j < k)%nat -> edits !! j = Some edit' -> exists m, match_edit normalize base total (i + j) edit' = Ok m.
Proof.
  revert i. induction edits as [|edit edits IH]; intros i H; cbn [match_edits] in H; [done|]. apply bind_Err in H as [H|(m & Hm & H)].
  - exists 0%nat, edit. rewrite Nat.add_0_r. split_and!; [done|done|lia].
  - apply bind_Err in H as [H|(ms & _ & H)]; [|done]. apply IH in H as (k & edit' & Hk & H & Hb). exists (S k), edit'. replace (i + S k)%nat with (S i + k)%nat by lia. split_and!; [done..|].
    intros [|j] e' Hj He; [injection He as <-; rewrite Nat.add_0_r; by exists m|]. replace (i + S j)%nat with (S i + j)%nat by lia. apply (Hb j); [lia|done].
Qed.

Lemma match_edits_all base total i edits ms j edit : match_edits normalize base total i edits = Ok ms -> edits !! j = Some edit -> exists m, match_edit normalize base total (i + j) edit = Ok m.
Proof.
  revert i j ms. induction edits as [|e edits IH]; intros i j ms H Hj; [done|]. cbn [match_edits] in H. apply bind_Ok in H as (m & Hm & H). apply bind_Ok in H as (ms' & H & _).
  destruct j as [|j]; [injection Hj as <-; rewrite Nat.add_0_r; by exists m|]. replace (i + S j)%nat with (S i + j)%nat by lia. by eapply IH.
Qed.

Abbreviation in_order := (key_before matchIndex editIndex).

Lemma check_overlaps_err prev ms e : StronglySorted in_order (prev :: ms) -> check_overlaps prev ms = Err e ->
  exists mi mj, e = Overlap (editIndex mi) (editIndex mj) /\ mi ∈ prev :: ms /\ mj ∈ prev :: ms /\ in_order mi mj /\ (matchIndex mj < matchIndex mi + matchLength mi)%nat.
Proof.
  revert prev. induction ms as [|m ms IH]; intros prev Hs H; cbn [check_overlaps] in H; [done|]. apply StronglySorted_inv in Hs as [Hs Hh].
  apply bind_Err in H as [H|(u & _ & H)].
  - apply throw_if_Err in H as [H <-]. apply Nat.ltb_lt in H. apply Forall_cons in Hh as [Hh _]. exists prev, m. split_and!; [done|by left|by right; left|done|done].
  - apply (IH m Hs) in H as (mi & mj & -> & Hi & Hj & Hb). exists mi, mj. split; [done|]. split; [by right|]. split; [by right|done].
Qed.

Lemma no_overlaps_err ms e : StronglySorted in_order ms -> no_overlaps ms = Err e ->
  exists mi mj, e = Overlap (editIndex mi) (editIndex mj) /\ mi ∈ ms /\ mj ∈ ms /\ in_order mi mj /\ (matchIndex mj < matchIndex mi + matchLength mi)%nat.
Proof. destruct ms as [|m ms]; [done|]. apply check_overlaps_err. Qed.

(** Matches apart from each other do not reach into one another. *)
Lemma apart_no_overlap ms u mi mj : StronglySorted in_order ms -> apart 0 ms u -> mi ∈ ms -> mj ∈ ms -> in_order mi mj -> (matchIndex mi + matchLength mi <= matchIndex mj)%nat.
Proof.
  intros Hs Ha Hi Hj Hb. apply list_elem_of_split in Hi as (l1 & l2 & ->). apply elem_of_app in Hj as [Hj|Hj].
  - apply list_elem_of_split in Hj as (k1 & k2 & ->). rewrite <- app_assoc in Hs. apply StronglySorted_app_1_r in Hs.
    cbn in Hs. apply StronglySorted_inv in Hs as [_ Hs]. rewrite Forall_app, Forall_cons in Hs. destruct Hs as (_ & Hs & _). unfold key_before in *. lia.
  - apply elem_of_cons in Hj as [->|Hj]; [unfold key_before in Hb; lia|]. apply apart_app in Ha as (mid & _ & Ha). destruct Ha as [_ Ha]. by apply (apart_elem _ _ _ mj Ha) in Hj as [? _].
Qed.

(** Each match belongs to the edit of its number. *)
Lemma matched_edit is_fuzzy base edits ms m : Forall2 (matched is_fuzzy base) edits ms -> editIndex <$> ms = seq 0 (length edits) -> m ∈ ms ->
  exists edit, edits !! editIndex m = Some edit /\ matched is_fuzzy base edit m.
Proof.
  intros Hm Hi Hin. apply list_elem_of_lookup in Hin as [k Hk]. pose proof (Forall2_lookup_r _ _ _ _ _ Hm Hk) as (edit & He & Hmt).
  assert ((editIndex <$> ms) !! k = Some (editIndex m)) as H by (by rewrite list_lookup_fmap, Hk). rewrite Hi in H.
  apply lookup_seq in H as [-> _]. eauto.
Qed.

Lemma matched_start is_fuzzy base edit m : matched is_fuzzy base edit m -> matchLength m = 0%nat -> matchIndex m = 0%nat.
Proof.
  intros (old & _ & _ & Hf & Hl & _) H0. rewrite Hl in H0. destruct old; [|done]. destruct (matchIndex m) as [|n]; [done|]. exfalso. apply (Hf 0%nat); [lia|].
  split; [lia|done].
Qed.

Lemma preserving_err content ms edits e :
  Forall2 (matched true (fuzzy content)) edits ms -> applyReplacementsPreservingUnchangedLines content (fuzzy content) (sort_by matchIndex ms) = Err e ->
  (e = RangeOutside /\ content = []) \/ (e = LineCountDiffers /\ last_line content <> [] /\ Forall (fun u => is_space u = true) (normalize (last_line content))).
Proof.
  intros Hm H. unfold applyReplacementsPreservingUnchangedLines, getLineSpans in H. rewrite spans_length in H.
  destruct (length _ =? length _)%nat eqn:Ec; cbn [negb] in H; [left|right; injection H as <-; split; [done|by apply count_differs]].
  apply bind_Err in H as [H|(gs & _ & H)]; [|done]. apply foldM_Err in H as (gs & m & Hin & H). rewrite !(sort_by_perm matchIndex) in Hin.
  unfold group_step in H. apply bind_Err in H as [H|([a b] & _ & H)]; [|destruct (last gs); [destruct (_ <? _)%nat|]; done].
  apply list_elem_of_lookup in Hin as [k Hk]. pose proof (Forall2_lookup_r _ _ _ _ _ Hm Hk) as (edit & _ & Hmt).
  apply range_error in H as [-> H]; rewrite ?lines_concat in *; [|by eapply matched_bound|by eapply matched_start]. split; [done|].
  rewrite H in Ec. apply Nat.eqb_eq in Ec. rewrite <- (lines_concat content). by destruct (splitLinesWithEndings content).
Qed.

(** Lines that can be kept: as many as in the space of fuzzy matching, and some. *)
Lemma preserving_lines content ms new : ms <> [] -> applyReplacementsPreservingUnchangedLines content (fuzzy content) ms = Ok new ->
  content <> [] /\ ~ (last_line content <> [] /\ Forall (fun u => is_space u = true) (normalize (last_line content))).
Proof.
  intros Hne H. split.
  - intros ->. assert (fuzzy [] = []) as E by (unfold normalizeForFuzzyMatch; rewrite (proj2 (normalize_nil [])); done). rewrite E in H.
    unfold applyReplacementsPreservingUnchangedLines in H. cbn in H. destruct (sort_by matchIndex ms) as [|m l] eqn:Es; [|done].
    pose proof (sort_by_perm matchIndex ms) as Hp. rewrite Es in Hp. by apply Permutation_nil in Hp.
  - intros Hd%count_differs. unfold applyReplacementsPreservingUnchangedLines, getLineSpans in H. rewrite spans_length, Hd in H. done.
Qed.

Lemma numbered_sorted n (ms : list MatchedEdit) : forall i, editIndex <$> ms = seq i n -> StronglySorted (fun a b => (editIndex a < editIndex b)%nat) ms.
Proof.
  revert ms. induction n as [|n IH]; intros [|m ms] i E; try done; [constructor|]. cbn in E. injection E as E1 E2. constructor; [by eapply IH|].
  apply Forall_forall. intros m' Hin. apply (list_elem_of_fmap_2 editIndex) in Hin. rewrite E2 in Hin. apply elem_of_seq in Hin. lia.
Qed.

Section Checks.
Variables (content : jsstr) (edits : list Edit).
Let f := needs_fuzzy normalize content edits.
Let base := if f then fuzzy content else content.

(** The first [n] checks have passed. *)
Definition passed (n : nat) : Prop := forall e, refused content edits e -> (n <= fst (check_of e))%nat.

Lemma not_empty_passed total u : check_not_empty 0 total edits = Ok u -> passed 1.
Proof.
  intros H e He. destruct e; cbn in *; try lia. destruct He as (_ & edit & Hl & Ho). by apply (not_empty_ok _ _ _ _ _ _ H Hl) in Ho.
Qed.

(** The reasons of an edit that has its place. *)
Lemma placed_no_reason total k i m edit e : edits !! i = Some edit -> match_edit normalize base total k edit = Ok m -> refused content edits e -> check_of e = (1, i)%nat -> False.
Proof.
  intros Hl [Hn Hd]%match_edit_placed He Hc. destruct e; cbn in Hc; try done; injection Hc as <-; destruct He as (_ & edit' & Hl' & H); fold f base in H; rewrite Hl in Hl'; injection Hl' as <-.
  - by apply Hn.
  - destruct H as (-> & H & _). by apply Hd.
Qed.

Lemma places_passed total ms : passed 1 -> match_edits normalize base total 0 edits = Ok ms -> passed 2.
Proof.
  intros H1 Hms e He. specialize (H1 e He). destruct (decide (2 <= fst (check_of e))%nat) as [|Hn]; [done|exfalso].
  assert (exists i edit, check_of e = (1, i)%nat /\ edits !! i = Some edit) as (i & edit & Hc & Hl) by (destruct e; cbn in *; try lia; destruct He as (_ & edit & Hl & _); eauto).
  destruct (match_edits_all _ _ _ _ _ _ _ Hms Hl) as [m Hm]. by eapply placed_no_reason.
Qed.

Lemma overlaps_passed ms u : passed 2 -> Forall2 (matched f base) edits ms -> editIndex <$> ms = seq 0 (length edits) -> no_overlaps (sort_by matchIndex ms) = Ok u -> passed 3.
Proof.
  intros H2 Hm Hi Ho e He. specialize (H2 e He). destruct e; cbn in *; try lia. exfalso. fold f base in He. destruct He as (ei & ej & mi & mj & Ei & Ej & Mi & Mj & Hb & Hlt).
  assert (forall k edit m, edits !! k = Some edit -> matched f base edit m -> exists m', m' ∈ ms /\ editIndex m' = k /\ matchIndex m' = matchIndex m /\ matchLength m' = matchLength m) as Hfind.
  { intros k edit m Hk Hmk. pose proof (Forall2_lookup_l _ _ _ _ _ Hm Hk) as (m' & Hk' & Hm'). exists m'. split; [by eapply list_elem_of_lookup_2|].
    split; [|by apply (matched_place f base edit)]. assert ((editIndex <$> ms) !! k = Some (editIndex m')) as E by (by rewrite list_lookup_fmap, Hk'). rewrite Hi in E.
    apply lookup_seq in E as [-> _]. done. }
  destruct (Hfind _ _ _ Ei Mi) as (mi' & Hin & Ni & Pi & Li). destruct (Hfind _ _ _ Ej Mj) as (mj' & Hjn & Nj & Pj & _). clear Hfind.
  assert (apart 0 (sort_by matchIndex ms) (length base)) as Ha by (destruct u; apply no_overlaps_apart; [apply sort_by_sorted|by eapply found_bounds|done]).
  rewrite <- (sort_by_perm matchIndex ms) in Hin, Hjn.
  pose proof (apart_no_overlap _ _ mi' mj' (sort_by_stable matchIndex editIndex ms (numbered_sorted _ _ _ Hi)) Ha Hin Hjn) as H. unfold key_before in H. lia.
Qed.

Lemma lines_passed ms new : passed 3 -> Forall2 (matched f base) edits ms ->
  (if f then applyReplacementsPreservingUnchangedLines content base (sort_by matchIndex ms) else Ok (applyReplacements base (sort_by matchIndex ms) 0)) = Ok new -> passed 4.
Proof.
  intros H3 Hm H e He. specialize (H3 e He). destruct (decide (4 <= fst (check_of e))%nat) as [|Hn]; [done|exfalso].
  assert (f = true) as Ef by (destruct e; cbn in *; try lia; apply He). assert (sort_by matchIndex ms <> []) as Hne.
  { intros E. pose proof (sort_by_perm matchIndex ms) as Hp. rewrite E in Hp. apply Permutation_nil in Hp. subst ms. inversion Hm as [Hes|]. unfold f in Ef. by rewrite <- Hes in Ef. }
  unfold base in H. rewrite Ef in H. apply preserving_lines in H as [H1 H2]; [|done]. destruct e; cbn in *; try lia; [by destruct He|by apply H2; destruct He as [_ He]].
Qed.
End Checks.

(** The error is that of the first check for which there is reason, and there is
    an error when there is reason for one. *)
Lemma applyEdits_checks content edits :
  let edits' := edit_to_lf <$> edits in
  match applyEditsToNormalizedContent normalize content edits with
  | Err e => refused content edits' e /\ forall e', refused content edits' e' -> no_later e e'
  | Ok (_, new) => new <> content /\ passed content edits' 4
  end.
Proof.
  intros es. unfold applyEditsToNormalizedContent. fold es. pose proof (needs_fuzzy_base content es) as Hb. cbn zeta in Hb.
  set (f := needs_fuzzy normalize content es) in *. set (base := if f then fuzzy content else content) in *.
  assert (forall n e, fst (check_of e) = n -> snd (check_of e) = 0%nat -> passed content es n -> forall e', refused content es e' -> no_later e e') as Hfirst.
  { intros n e E1 E2 Hp e' He. specialize (Hp e' He). unfold no_later. lia. }
  destruct (check_not_empty 0 (length es) es) as [u|e] eqn:E0; cbn [mbind result_bind].
  2: { apply not_empty_err in E0 as (k & edit & -> & Hk & Ho & Hbef). split; [by split; [|exists edit]|]. intros e' He. unfold no_later. cbn.
       destruct e' as [k' n'| | | | | |]; cbn; try lia. destruct (decide (k <= k')%nat); [lia|exfalso]. destruct He as (_ & edit' & Hl & Hn). apply (Hbef k' edit'); [lia|done|done]. }
  pose proof (not_empty_passed content es _ _ E0) as P1.
  destruct (match_edits _ base _ 0 es) as [ms|e] eqn:Ems; cbn [mbind result_bind].
  2: { apply match_edits_err in Ems as (k & edit & Hk & H & Hbef).
       assert (check_of e = (1, k)%nat /\ refused content es e) as [Hc Hr].
       { apply match_edit_err in H as [(-> & H)|(count & -> & -> & H)]; (split; [done|]); cbn; fold f base; [by eauto 6|].
         split; [done|]. exists edit. split; [done|]. split; [done|]. split; [done|]. destruct (decide (fuzzy (oldText edit) = [])); [by left|right]. by apply count_many. }
       split; [done|]. intros e' He. pose proof (P1 e' He). unfold no_later. rewrite Hc. cbn. destruct (decide (1 < fst (check_of e'))%nat); [lia|].
       destruct (decide (k <= snd (check_of e'))%nat); [lia|exfalso].
       assert (exists i edit', check_of e' = (1, i)%nat /\ es !! i = Some edit') as (i & edit' & Hc' & Hl) by (destruct e'; cbn in *; try lia; destruct He as (_ & edit' & Hl & _); eauto).
       rewrite Hc' in *. cbn in *. destruct (Hbef i edit') as [m Hm]; [lia|done|]. by eapply placed_no_reason. }
  pose proof (places_passed content es _ _ P1 Ems) as P2. destruct (match_edits_ok _ _ _ _ _ _ Hb Ems) as [Hm Hi].
  destruct (no_overlaps _) as [v|e] eqn:Ev; cbn [mbind result_bind].
  2: { apply no_overlaps_err in Ev as (mi & mj & -> & Hmi & Hmj & Ho & Hlt); [|by eapply sort_by_stable, numbered_sorted]. rewrite (sort_by_perm matchIndex) in Hmi, Hmj.
       destruct (matched_edit _ _ _ _ _ Hm Hi Hmi) as (ei & Hei & Hmi'). destruct (matched_edit _ _ _ _ _ Hm Hi Hmj) as (ej & Hej & Hmj'). split; [by exists ei, ej, mi, mj|].
       by apply (Hfirst 2%nat). }
  pose proof (overlaps_passed content es _ _ P2 Hm Hi Ev) as P3.
  match goal with |- match (?m ≫= _) with _ => _ end => destruct m as [new|e] eqn:En; cbn [mbind result_bind] end.
  2: { subst base. destruct f eqn:Ef; [|done]. apply (preserving_err _ _ _ _ Hm) in En as [[-> H]|[-> H]]; (split; [done|by apply (Hfirst 3%nat)]). }
  pose proof (lines_passed content es _ _ P3 Hm En) as P4. unfold throw_if. case_bool_decide as Hnc; cbn; [|done].
  split; [|by apply (Hfirst 4%nat)]. split; [done|]. apply (edited_of ms); [done|by destruct v|]. etrans; [exact En|congruence].
Qed.
End Matched.
