(* ===== verification/DiffString.v ===== *)
(** The diff shown for an edit: [generateDiffString] of
    [packages/agent/src/harness/tools/edit-diff.ts].

    [Diff.diffLines] of the diff library is a parameter: what it returns is a list
    of changes ([diff_of]). *)
From S2P Require Import Prelude JsBase JsText EditDiff EditSpec.

(** A change of the library: text added, removed, or in both. *)
Inductive part_kind : Type := PartAdded | PartRemoved | PartCommon.
#[export] Instance part_kind_eq_dec : EqDecision part_kind.
Proof. solve_decision. Defined.

Record Change : Type := Change_ { ch_value : jsstr; ch_kind : part_kind }.

Definition is_change (part : Change) : bool := match ch_kind part with PartCommon => false | _ => true end.

(** * Rows *)

Inductive diff_row : Type :=
| RowAdded (lineNum : nat) (line : jsstr)
| RowRemoved (lineNum : nat) (line : jsstr)
| RowContext (lineNum : nat) (line : jsstr)
| RowDots.

Definition js_of_nat (n : nat) : jsstr := js_of_Z (Z.of_nat n).

Definition row_text (lineNumWidth : nat) (row : diff_row) : jsstr :=
  match row with
  | RowAdded n line => js "+" ++ pad_start (js_of_nat n) lineNumWidth ++ js " " ++ line
  | RowRemoved n line => js "-" ++ pad_start (js_of_nat n) lineNumWidth ++ js " " ++ line
  | RowContext n line => js " " ++ pad_start (js_of_nat n) lineNumWidth ++ js " " ++ line
  | RowDots => js " " ++ pad_start [] lineNumWidth ++ js " ..."
  end.

(** The locals of [generateDiffString]; a row is a line of [output] before it is
    printed. *)
Record DiffState : Type := DiffState_ {
  output : list diff_row;
  oldLineNum : nat;
  newLineNum : nat;
  lastWasChange : bool;
  firstChangedLine : option nat;
}.

Definition start_state : DiffState := DiffState_ [] 1 1 false None.

Definition push_added (st : DiffState) (line : jsstr) : DiffState :=
  DiffState_ (output st ++ [RowAdded (newLineNum st) line]) (oldLineNum st) (S (newLineNum st)) (lastWasChange st) (firstChangedLine st).
Definition push_removed (st : DiffState) (line : jsstr) : DiffState :=
  DiffState_ (output st ++ [RowRemoved (oldLineNum st) line]) (S (oldLineNum st)) (newLineNum st) (lastWasChange st) (firstChangedLine st).
Definition push_context (st : DiffState) (line : jsstr) : DiffState :=
  DiffState_ (output st ++ [RowContext (oldLineNum st) line]) (S (oldLineNum st)) (S (newLineNum st)) (lastWasChange st) (firstChangedLine st).
Definition push_dots (st : DiffState) : DiffState :=
  DiffState_ (output st ++ [RowDots]) (oldLineNum st) (newLineNum st) (lastWasChange st) (firstChangedLine st).
Definition skip_lines (n : nat) (st : DiffState) : DiffState :=
  DiffState_ (output st) (oldLineNum st + n) (newLineNum st + n) (lastWasChange st) (firstChangedLine st).
Definition set_lastWasChange (b : bool) (st : DiffState) : DiffState :=
  DiffState_ (output st) (oldLineNum st) (newLineNum st) b (firstChangedLine st).
Definition note_change (st : DiffState) : DiffState :=
  DiffState_ (output st) (oldLineNum st) (newLineNum st) (lastWasChange st)
    (match firstChangedLine st with None => Some (newLineNum st) | Some n => Some n end).

(** [part.value.split("\n")] without the empty piece after the last line feed. *)
Definition raw_lines (value : jsstr) : list jsstr :=
  let raw := split_lines value in
  if bool_decide (last raw = Some []) then removelast raw else raw.

Section Generate.
Variable contextLines : nat.

(** The context lines of an unchanged part. *)
Definition context_step (raw : list jsstr) (nextPartIsChange : bool) (st : DiffState) : DiffState :=
  let hasLeadingChange := lastWasChange st in
  let hasTrailingChange := nextPartIsChange in
  if hasLeadingChange && hasTrailingChange then
    if (length raw <=? contextLines * 2)%nat then foldl push_context st raw
    else
      let leadingLines := take contextLines raw in
      let trailingLines := drop (length raw - contextLines) raw in
      let skippedLines := (length raw - length leadingLines - length trailingLines)%nat in
      foldl push_context (skip_lines skippedLines (push_dots (foldl push_context st leadingLines))) trailingLines
  else if hasLeadingChange then
    let shownLines := take contextLines raw in
    let skippedLines := (length raw - length shownLines)%nat in
    let st := foldl push_context st shownLines in
    if (0 <? skippedLines)%nat then skip_lines skippedLines (push_dots st) else st
  else if hasTrailingChange then
    let skippedLines := (length raw - contextLines)%nat in
    let st := if (0 <? skippedLines)%nat then skip_lines skippedLines (push_dots st) else st in
    foldl push_context st (drop skippedLines raw)
  else skip_lines (length raw) st.

Definition part_step (part : Change) (nextPartIsChange : bool) (st : DiffState) : DiffState :=
  let raw := raw_lines (ch_value part) in
  match ch_kind part with
  | PartAdded => set_lastWasChange true (foldl push_added (note_change st) raw)
  | PartRemoved => set_lastWasChange true (foldl push_removed (note_change st) raw)
  | PartCommon => set_lastWasChange false (context_step raw nextPartIsChange st)
  end.

Fixpoint parts_loop (parts : list Change) (st : DiffState) : DiffState :=
  match parts with
  | [] => st
  | part :: parts => parts_loop parts (part_step part (match parts with next :: _ => is_change next | [] => false end) st)
  end.

(** The text of the diff and the first changed line of the new file. *)
Definition generateDiffString (diffLines : jsstr -> jsstr -> list Change) (oldContent newContent : jsstr) : jsstr * option nat :=
  let parts := diffLines oldContent newContent in
  let maxLineNum := Nat.max (length (split_lines oldContent)) (length (split_lines newContent)) in
  let lineNumWidth := length (js_of_nat maxLineNum) in
  let st := parts_loop parts start_state in
  (join_lines (row_text lineNumWidth <$> output st), firstChangedLine st).
End Generate.

(** * What the library computes *)

Definition on_old (part : Change) : bool := match ch_kind part with PartAdded => false | _ => true end.
Definition on_new (part : Change) : bool := match ch_kind part with PartRemoved => false | _ => true end.

(** The text of one side, and its lines. *)
Definition side_text (on : Change -> bool) (parts : list Change) : jsstr := concat (ch_value <$> List.filter on parts).
Definition side_lines (on : Change -> bool) (parts : list Change) : list jsstr := concat (raw_lines ∘ ch_value <$> List.filter on parts).

(** A part takes in whole lines: it ends with a line feed, or is the last of its
    side. *)
Definition ends_line (s : jsstr) : Prop := last s = Some newline.

Fixpoint whole_lines (on : Change -> bool) (parts : list Change) : Prop :=
  match parts with
  | [] => True
  | part :: parts => (on part = true -> ends_line (ch_value part) \/ List.filter on parts = []) /\ whole_lines on parts
  end.

Record diff_of (oldContent newContent : jsstr) (parts : list Change) : Prop := {
  diff_old : side_text on_old parts = oldContent;
  diff_new : side_text on_new parts = newContent;
  diff_old_lines : whole_lines on_old parts;
  diff_new_lines : whole_lines on_new parts;
  diff_parts_ne : Forall (fun part => ch_value part <> []) parts;
}.

(** * Lines of a side *)

Lemma raw_lines_nil : raw_lines [] = [].
Proof. done. Qed.

Lemma raw_lines_ends a : raw_lines (a ++ [newline]) = split_lines a.
Proof. unfold raw_lines. rewrite split_lines_at. cbn [split_lines]. cbv zeta. rewrite last_snoc, bool_decide_true by done. apply removelast_last. Qed.

Lemma raw_lines_app a b : ends_line a -> raw_lines (a ++ b) = raw_lines a ++ raw_lines b.
Proof.
  intros [a' ->]%last_Some. rewrite raw_lines_ends, <- app_assoc. cbn [app]. unfold raw_lines. rewrite split_lines_at, last_app. cbn zeta.
  destruct (last (split_lines b)) as [l|] eqn:E; [|apply last_None in E; by destruct (split_lines_ne b)].
  case_bool_decide; [|done]. apply removelast_app, split_lines_ne.
Qed.

Lemma side_lines_text on parts : whole_lines on parts -> side_lines on parts = raw_lines (side_text on parts).
Proof.
  unfold side_lines, side_text. induction parts as [|part parts IH]; [done|]. intros [Hp Hps]. cbn [List.filter]. destruct (on part); [|by apply IH].
  cbn [fmap list_fmap concat]. rewrite (IH Hps). destruct (Hp eq_refl) as [He| ->]; [by rewrite raw_lines_app|]. cbn. by rewrite !app_nil_r.
Qed.

(** * What the rows say *)

Definition row_ok (old new : list jsstr) (row : diff_row) : Prop :=
  match row with
  | RowAdded n line => (0 < n)%nat /\ new !! pred n = Some line
  | RowRemoved n line => (0 < n)%nat /\ old !! pred n = Some line
  | RowContext n line => (0 < n)%nat /\ old !! pred n = Some line
  | RowDots => True
  end.

Definition added_numbers (rows : list diff_row) : list nat := omap (fun row => match row with RowAdded n _ => Some n | _ => None end) rows.
Definition removed_numbers (rows : list diff_row) : list nat := omap (fun row => match row with RowRemoved n _ => Some n | _ => None end) rows.

(** The lines, numbered from [n], without those whose numbers are in [ns]. *)
Fixpoint without (ns : list nat) (n : nat) (lines : list jsstr) : list jsstr :=
  match lines with
  | [] => []
  | line :: lines => if decide (n ∈ ns) then without ns (S n) lines else line :: without ns (S n) lines
  end.

Lemma without_app ns n l1 l2 : without ns n (l1 ++ l2) = without ns n l1 ++ without ns (n + length l1) l2.
Proof.
  revert n. induction l1 as [|l l1 IH]; intros n; cbn [app without length]; [by rewrite Nat.add_0_r|]. replace (n + S (length l1))%nat with (S n + length l1)%nat by lia.
  rewrite IH. by case_decide.
Qed.

Lemma without_above ns n lines : Forall (fun k => k < n)%nat ns -> without ns n lines = lines.
Proof.
  revert n. induction lines as [|l lines IH]; intros n H; [done|]. cbn. rewrite Forall_forall in H. rewrite decide_False by (intros Hin; apply H in Hin; lia).
  rewrite IH; [done|]. apply Forall_forall. intros k Hk. apply H in Hk. lia.
Qed.

Lemma without_below ns ns' n lines : Forall (fun k => n + length lines <= k)%nat ns' -> without (ns ++ ns') n lines = without ns n lines.
Proof.
  revert n. induction lines as [|l lines IH]; intros n H; [done|]. cbn [length] in H. cbn [without].
  rewrite IH by (eapply Forall_impl; [exact H|]; cbn; intros; lia). destruct (decide (n ∈ ns)), (decide (n ∈ ns ++ ns')); try done; [set_solver|].
  exfalso. apply elem_of_app in e as [|e]; [done|]. rewrite Forall_forall in H. apply H in e. lia.
Qed.

(** [old] and [new] are the lines passed so far. *)
Record accounted_rows (old new : list jsstr) (st : DiffState) : Prop := {
  acc_old : oldLineNum st = S (length old);
  acc_new : newLineNum st = S (length new);
  acc_rows : Forall (row_ok old new) (output st);
  acc_same : without (removed_numbers (output st)) 1 old = without (added_numbers (output st)) 1 new;
  acc_first : match firstChangedLine st with
              | None => old = new
              | Some n => (0 < n)%nat /\ (n <= S (length old))%nat /\ (n <= S (length new))%nat /\ take (pred n) old = take (pred n) new
              end;
}.

Lemma row_ok_app old new old' new' row : row_ok old new row -> row_ok (old ++ old') (new ++ new') row.
Proof. destruct row; cbn; [..|done]; intros [H1 H2]; (split; [done|by apply lookup_app_l_Some]). Qed.

Lemma removed_below old new rows : Forall (row_ok old new) rows -> Forall (fun k => k < S (length old))%nat (removed_numbers rows).
Proof.
  induction 1 as [|row rows Hr _ IH]; [constructor|]. unfold removed_numbers in *. cbn. destruct row; cbn in *; try done. constructor; [|done].
  destruct Hr as [H1 H2%lookup_lt_Some]. lia.
Qed.

Lemma added_below old new rows : Forall (row_ok old new) rows -> Forall (fun k => k < S (length new))%nat (added_numbers rows).
Proof.
  induction 1 as [|row rows Hr _ IH]; [constructor|]. unfold added_numbers in *. cbn. destruct row; cbn in *; try done. constructor; [|done].
  destruct Hr as [H1 H2%lookup_lt_Some]. lia.
Qed.

Lemma take_app_same n (a b a' b' : list jsstr) : (n <= length a)%nat -> (n <= length b)%nat -> take n a = take n b -> take n (a ++ a') = take n (b ++ b').
Proof. intros H1 H2 H. by rewrite !take_app_le. Qed.

(** Lines on both sides, shown or not. *)
Lemma acc_both old new st lines rows :
  accounted_rows old new st -> Forall (row_ok (old ++ lines) (new ++ lines)) rows -> removed_numbers rows = [] -> added_numbers rows = [] ->
  accounted_rows (old ++ lines) (new ++ lines)
    (DiffState_ (output st ++ rows) (oldLineNum st + length lines) (newLineNum st + length lines) (lastWasChange st) (firstChangedLine st)).
Proof.
  intros [Ho Hn Hr Hs Hf] Hrows Er Ea. split; cbn [output oldLineNum newLineNum firstChangedLine].
  - rewrite Ho, length_app. lia.
  - rewrite Hn, length_app. lia.
  - apply Forall_app. split; [|done]. eapply Forall_impl; [exact Hr|]. intros row. apply row_ok_app.
  - unfold removed_numbers, added_numbers in *. rewrite !omap_app, Er, Ea, !app_nil_r, !without_app. f_equal; [done|].
    rewrite !without_above; [done|by eapply added_below|by eapply removed_below].
  - destruct (firstChangedLine st) as [n|]; [|by subst]. destruct Hf as (? & ? & ? & ?). rewrite !length_app. split_and!; try lia. apply take_app_same; [lia|lia|done].
Qed.

Lemma acc_context old new st line : accounted_rows old new st -> accounted_rows (old ++ [line]) (new ++ [line]) (push_context st line).
Proof.
  intros H. pose proof (acc_both old new st [line] [RowContext (oldLineNum st) line] H) as Hb. cbn [length] in Hb. rewrite !Nat.add_1_r in Hb.
  apply Hb; [|done..]. repeat constructor; rewrite (acc_old _ _ _ H); [lia|]. by apply list_lookup_middle.
Qed.

Lemma acc_dots old new st : accounted_rows old new st -> accounted_rows old new (push_dots st).
Proof.
  intros H. pose proof (acc_both old new st [] [RowDots] H) as Hb. cbn [length] in Hb. rewrite !app_nil_r, !Nat.add_0_r in Hb. apply Hb; [by repeat constructor|done..].
Qed.

Lemma acc_skip old new st lines : accounted_rows old new st -> accounted_rows (old ++ lines) (new ++ lines) (skip_lines (length lines) st).
Proof. intros H. pose proof (acc_both old new st lines [] H) as Hb. rewrite app_nil_r in Hb. by apply Hb. Qed.

Lemma acc_contexts old new st lines : accounted_rows old new st -> accounted_rows (old ++ lines) (new ++ lines) (foldl push_context st lines).
Proof.
  revert old new st. induction lines as [|line lines IH]; intros old new st H; cbn [foldl]; [by rewrite !app_nil_r|].
  rewrite (cons_middle line old lines), (cons_middle line new lines), !app_assoc. by apply IH, acc_context.
Qed.

Lemma acc_note old new st : accounted_rows old new st -> accounted_rows old new (note_change st) /\ firstChangedLine (note_change st) <> None.
Proof.
  intros [Ho Hn Hr Hs Hf]. split; [split; try done; cbn|cbn; by destruct (firstChangedLine st)]. destruct (firstChangedLine st); [done|]. subst. rewrite Hn. split_and!; [lia..|done].
Qed.

Lemma acc_last old new st b : accounted_rows old new st -> accounted_rows old new (set_lastWasChange b st).
Proof. by intros [Ho Hn Hr Hs Hf]. Qed.

Lemma acc_added old new st lines : accounted_rows old new st -> firstChangedLine st <> None -> accounted_rows old (new ++ lines) (foldl push_added st lines).
Proof.
  revert new st. induction lines as [|line lines IH]; intros new st H Hne; cbn [foldl]; [by rewrite app_nil_r|].
  rewrite (cons_middle line new lines), app_assoc. apply IH; [|done]. destruct H as [Ho Hn Hr Hs Hf]. split; cbn [push_added output oldLineNum newLineNum firstChangedLine].
  - done.
  - rewrite Hn, length_app. cbn. lia.
  - apply Forall_app. split; [eapply Forall_impl; [exact Hr|]; intros row Hrow; rewrite <- (app_nil_r old); by apply row_ok_app|].
    repeat constructor; rewrite Hn; [lia|]. by apply list_lookup_middle.
  - unfold removed_numbers, added_numbers in *. rewrite !omap_app. cbn [omap list_omap]. rewrite app_nil_r, Hs, Hn, without_app. cbn [without].
    rewrite decide_True by (apply elem_of_app; right; left). rewrite app_nil_r. symmetry. apply without_below. constructor; [lia|constructor].
  - destruct (firstChangedLine st) as [n|]; [|done]. destruct Hf as (? & ? & ? & ?). rewrite length_app. split_and!; try lia.
    rewrite <- (app_nil_r old). apply take_app_same; [lia|lia|done].
Qed.

Lemma acc_removed old new st lines : accounted_rows old new st -> firstChangedLine st <> None -> accounted_rows (old ++ lines) new (foldl push_removed st lines).
Proof.
  revert old st. induction lines as [|line lines IH]; intros old st H Hne; cbn [foldl]; [by rewrite app_nil_r|].
  rewrite (cons_middle line old lines), app_assoc. apply IH; [|done]. destruct H as [Ho Hn Hr Hs Hf]. split; cbn [push_removed output oldLineNum newLineNum firstChangedLine].
  - rewrite Ho, length_app. cbn. lia.
  - done.
  - apply Forall_app. split; [eapply Forall_impl; [exact Hr|]; intros row Hrow; rewrite <- (app_nil_r new); by apply row_ok_app|].
    repeat constructor; rewrite Ho; [lia|]. by apply list_lookup_middle.
  - unfold removed_numbers, added_numbers in *. rewrite !omap_app. cbn [omap list_omap]. rewrite app_nil_r, <- Hs, Ho, without_app. cbn [without].
    rewrite decide_True by (apply elem_of_app; right; left). rewrite app_nil_r. apply without_below. constructor; [lia|constructor].
  - destruct (firstChangedLine st) as [n|]; [|done]. destruct Hf as (? & ? & ? & ?). rewrite length_app. split_and!; try lia.
    rewrite <- (app_nil_r new). apply take_app_same; [lia|lia|done].
Qed.

Lemma context_step_acc contextLines old new st raw next : accounted_rows old new st -> accounted_rows (old ++ raw) (new ++ raw) (context_step contextLines raw next st).
Proof.
  intros H. unfold context_step. destruct (lastWasChange st && next); [|destruct (lastWasChange st); [|destruct next; [|by apply acc_skip]]].
  - destruct (Nat.leb_spec (length raw) (contextLines * 2)); [by apply acc_contexts|]. set (a := take contextLines raw). set (c := drop (length raw - contextLines) raw).
    set (b := drop contextLines (take (length raw - contextLines) raw)).
    assert (raw = a ++ b ++ c) as E.
    { subst a b c. by rewrite (drop_take_drop raw contextLines (length raw - contextLines) ltac:(lia)), take_drop. }
    assert (length raw - length a - length c = length b)%nat as -> by (rewrite E, !length_app; lia).
    rewrite E at 1 2. rewrite !app_assoc, <- !(app_assoc _ a b). rewrite !app_assoc. by apply acc_contexts, acc_skip, acc_dots, acc_contexts.
  - set (a := take contextLines raw). set (b := drop contextLines raw). assert (raw = a ++ b) as E by (subst a b; by rewrite take_drop).
    assert (length raw - length a = length b)%nat as -> by (rewrite E, length_app; lia). rewrite E, !app_assoc. clearbody a b. destruct (Nat.ltb_spec 0 (length b)).
    + by apply acc_skip, acc_dots, acc_contexts.
    + destruct b; [|cbn in *; lia]. rewrite !app_nil_r. by apply acc_contexts.
  - set (k := (length raw - contextLines)%nat). destruct (Nat.ltb_spec 0 k).
    + assert (length (take k raw) = k) as Hk by (rewrite length_take; lia). replace (skip_lines k) with (skip_lines (length (take k raw))) by (by rewrite Hk). rewrite <- (take_drop k raw) at 1 2. rewrite !app_assoc. by apply acc_contexts, acc_skip, acc_dots.
    + assert (k = 0)%nat as -> by lia. by apply acc_contexts.
Qed.

Lemma parts_loop_acc contextLines parts old new st :
  accounted_rows old new st -> accounted_rows (old ++ side_lines on_old parts) (new ++ side_lines on_new parts) (parts_loop contextLines parts st).
Proof.
  unfold side_lines. revert old new st. induction parts as [|part parts IH]; intros old new st H; [cbn; by rewrite !app_nil_r|].
  destruct part as [value kind]. cbn [List.filter parts_loop]. set (next := match parts with next :: _ => is_change next | [] => false end).
  unfold on_old at 1, on_new at 1, part_step. cbn [ch_kind ch_value]. destruct kind; cbn [fmap list_fmap concat]; rewrite ?app_assoc; apply IH, acc_last; cbn [compose ch_value].
  - destruct (acc_note _ _ _ H). by apply acc_added.
  - destruct (acc_note _ _ _ H). by apply acc_removed.
  - by apply context_step_acc.
Qed.

Lemma start_acc : accounted_rows [] [] start_state.
Proof. by split. Qed.
