(* ===== verification/EditTool.v ===== *)
(** The edit tool: [packages/agent/src/harness/tools/edit.ts], over the file
    systems of [JsonlStorage].

    The arguments a model gives are JSON.  Each [await] of [execute] is the end of
    a turn; other calls may run before the next.  What the diff library makes of
    the two texts is a parameter. *)
From S2P Require Import Prelude JsBase JsText Json JsonParse JsonlStorage SerialQueue EditDiff EditSpec DiffString.

(** * Arguments *)

Definition is_string (v : option json) : bool := match v with Some (JStr _) => true | _ => false end.

Definition isSingleEditInput (value : json) : bool :=
  match value with
  | JObj edit => is_string (obj_get edit (js "oldText")) && is_string (obj_get edit (js "newText"))
  | _ => false
  end.

(** [args.edits] made an array, where it is the text of one or a single edit. *)
Definition unwrap_edits (args : list (jsstr * json)) : list (jsstr * json) :=
  match obj_get args (js "edits") with
  | Some (JStr text) =>
      match parse text with
      | Some (JArr parsed) => obj_set args (js "edits") (JArr parsed)
      | Some parsed => if isSingleEditInput parsed then obj_set args (js "edits") (JArr [parsed]) else args
      | None => args
      end
  | Some edits => if isSingleEditInput edits then obj_set args (js "edits") (JArr [edits]) else args
  | None => args
  end.

Definition prepareEditArguments (input : json) : json :=
  match input with
  | JObj args =>
      let legacy := unwrap_edits args in
      match obj_get legacy (js "oldText"), obj_get legacy (js "newText") with
      | Some (JStr oldText), Some (JStr newText) =>
          let edits := match obj_get legacy (js "edits") with Some (JArr edits) => edits | _ => [] end in
          let edits := edits ++ [JObj [(js "oldText", JStr oldText); (js "newText", JStr newText)]] in
          JObj (obj_set (obj_delete (obj_delete legacy (js "oldText")) (js "newText")) (js "edits") (JArr edits))
      | _, _ => JObj legacy
      end
  | _ => input
  end.

(** * The tool *)

Inductive FileKind : Type := KindFile | KindDirectory | KindSymlink.

Inductive tool_err : Type :=
| ToolInputInvalid
| ToolAborted
| ToolAccess (code : string)
| ToolNotFile
| ToolEdit (e : edit_err).

Record EditToolDetails : Type := EditToolDetails_ { d_diff : jsstr; d_patch : jsstr; d_firstChangedLine : option nat }.

(** The files, and the signals that were aborted. *)
Record tool_world (FS : Type) : Type := ToolWorld { tw_files : FS; tw_aborted : gset nat }.
Arguments ToolWorld {FS}.
Arguments tw_files {FS}.
Arguments tw_aborted {FS}.

Section Tool.
Context {FS : Type} `{FileSystem FS}.
Variable fileInfo : jsstr -> FS -> result string FileKind.
Variable normalize : jsstr -> jsstr.
Variable diffLines : jsstr -> jsstr -> list Change.
Variable createTwoFilesPatch : jsstr -> jsstr -> jsstr -> jsstr -> nat -> jsstr.

Abbreviation world := (tool_world FS).
Abbreviation edit_job := (job world tool_err EditToolDetails).

Definition generateUnifiedPatch (path oldContent newContent : jsstr) (contextLines : nat) : jsstr :=
  createTwoFilesPatch path path oldContent newContent contextLines.

(** [context.abortSignal?.aborted]. *)
Definition aborted (signal : option nat) (w : world) : bool :=
  match signal with Some n => bool_decide (n ∈ tw_aborted w) | None => false end.

Definition validateEditInput (edits : list Edit) : result tool_err (list Edit) :=
  match edits with [] => Err ToolInputInvalid | _ => Ok edits end.

(** The text written back, and the texts it was made of. *)
Definition edit_text (raw : jsstr) (edits : list Edit) : result edit_err (jsstr * (jsstr * jsstr)) :=
  let '(bom, content) := stripBom raw in
  let originalEnding := detectLineEnding content in
  let normalizedContent := normalizeToLF content in
  applied ← applyEditsToNormalizedContent normalize normalizedContent edits;
  let '(baseContent, newContent) := applied in
  Ok (bom ++ restoreLineEndings newContent originalEnding, (baseContent, newContent)).

Section Execute.
Variables path absolutePath : jsstr.
Variable edits : list Edit.
Variable signal : option nat.

Definition edit_report (baseContent newContent : jsstr) (w : world) : world * edit_job :=
  if aborted signal w then (w, Done (Err ToolAborted))
  else
    let '(diff, firstChangedLine) := generateDiffString 4 diffLines baseContent newContent in
    (w, Done (Ok (EditToolDetails_ diff (generateUnifiedPatch path baseContent newContent 4) firstChangedLine))).

Definition edit_write (raw : jsstr) (w : world) : world * edit_job :=
  if aborted signal w then (w, Done (Err ToolAborted))
  else
    match edit_text raw edits with
    | Err e => (w, Done (Err (ToolEdit e)))
    | Ok (finalContent, (baseContent, newContent)) =>
        if aborted signal w then (w, Done (Err ToolAborted))
        else
          let '(fs, r) := writeFile absolutePath finalContent (tw_files w) in
          let w := ToolWorld fs (tw_aborted w) in
          match r with
          | Err code => (w, Done (Err (ToolAccess code)))
          | Ok _ => (w, Turn (edit_report baseContent newContent))
          end
    end.

Definition edit_read (kind : FileKind) (w : world) : world * edit_job :=
  match kind with
  | KindDirectory => (w, Done (Err ToolNotFile))
  | _ =>
      match readTextFile absolutePath (tw_files w) with
      | Err code => (w, Done (Err (ToolAccess code)))
      | Ok raw => (w, Turn (edit_write raw))
      end
  end.

Definition edit_start (w : world) : world * edit_job :=
  if aborted signal w then (w, Done (Err ToolAborted))
  else
    match fileInfo absolutePath (tw_files w) with
    | Err code => (w, Done (Err (ToolAccess code)))
    | Ok kind => (w, Turn (edit_read kind))
    end.

(** [execute], when the queue of the file has come to it. *)
Definition edit_execute : edit_job :=
  match validateEditInput edits with
  | Err e => Done (Err e)
  | Ok _ => Turn edit_start
  end.
End Execute.
End Tool.

(** * Line endings *)

(** No carriage returns; or one before every line feed and nowhere else. *)
Definition one_ending (content : jsstr) : Prop := 13 ∉ content \/ (exists t, 13 ∉ t /\ content = restoreLineEndings t crlf).

Lemma replace_crlf_cons u x : u <> 13 -> replace_crlf (u :: x) = u :: replace_crlf x.
Proof. intros Hu. destruct x as [|v x]; cbn; [done|]. by rewrite (proj2 (Z.eqb_neq u 13) Hu). Qed.

Lemma replace_crlf_id x : 13 ∉ x -> replace_crlf x = x.
Proof. induction x as [|u x IH]; [done|]. intros [Hu Hx]%not_elem_of_cons. rewrite replace_crlf_cons by done. by rewrite IH. Qed.

Lemma unit_for_id (x : jsstr) : 13 ∉ x -> replace_class (fun u => u =? 13) 10 x = x.
Proof.
  unfold replace_class. induction x as [|u x IH]; [done|]. intros [Hu Hx]%not_elem_of_cons. cbn. rewrite (proj2 (Z.eqb_neq u 13)) by done. f_equal. by apply IH.
Qed.

Lemma normalize_plain x : 13 ∉ x -> normalizeToLF x = x.
Proof. intros H. unfold normalizeToLF. rewrite replace_crlf_id by done. by apply unit_for_id. Qed.

Lemma normalize_no_cr x : 13 ∉ normalizeToLF x.
Proof. unfold normalizeToLF, replace_class. intros (u & Hu & _)%list_elem_of_fmap. destruct (Z.eqb_spec u 13); congruence. Qed.

Lemma restore_cons u x : restoreLineEndings (u :: x) crlf = (if u =? 10 then crlf else [u]) ++ restoreLineEndings x crlf.
Proof. unfold restoreLineEndings. by rewrite bool_decide_true. Qed.

Lemma restore_app a b : restoreLineEndings (a ++ b) crlf = restoreLineEndings a crlf ++ restoreLineEndings b crlf.
Proof. induction a as [|u a IH]; [done|]. cbn [app]. by rewrite !restore_cons, IH, app_assoc. Qed.

Lemma restore_plain a : 10 ∉ a -> restoreLineEndings a crlf = a.
Proof. induction a as [|u a IH]; [done|]. intros [Hu Ha]%not_elem_of_cons. rewrite restore_cons, (proj2 (Z.eqb_neq u 10)), IH by done. done. Qed.

Lemma replace_restore x : 13 ∉ x -> replace_crlf (restoreLineEndings x crlf) = x.
Proof.
  induction x as [|u x IH]; [done|]. intros [Hu Hx]%not_elem_of_cons. rewrite restore_cons. destruct (Z.eqb_spec u 10) as [->|Hn]; cbn [app crlf].
  - change (replace_crlf (13 :: 10 :: restoreLineEndings x crlf)) with (10 :: replace_crlf (restoreLineEndings x crlf)). by rewrite IH.
  - rewrite replace_crlf_cons by done. by rewrite IH.
Qed.

Lemma normalize_restore x : 13 ∉ x -> normalizeToLF (restoreLineEndings x crlf) = x.
Proof. intros H. unfold normalizeToLF. rewrite replace_restore by done. by apply unit_for_id. Qed.

Lemma occurs_cons pat (x : jsstr) u k : occurs_at x (u :: pat) k -> x !! k = Some u.
Proof. intros [_ H]. apply (f_equal (fun l => l !! 0%nat)) in H. cbn in H. rewrite lookup_take_lt in H by (cbn; lia). rewrite lookup_drop, Nat.add_0_r in H. exact H. Qed.

Lemma occurs_middle a pat b : occurs_at (a ++ pat ++ b) pat (length a).
Proof. split; [rewrite length_app; lia|]. by rewrite drop_app_length, take_app_length. Qed.

Lemma first_unit a u pat b : u ∉ a -> index_of (a ++ (u :: pat) ++ b) (u :: pat) 0 = Some (length a).
Proof.
  intros Ha. apply index_of_first; [apply occurs_middle|]. intros j Hj Ho%occurs_cons. rewrite lookup_app_l in Ho by done.
  apply Ha. by eapply list_elem_of_lookup_2.
Qed.

Lemma detect_plain x : 13 ∉ x -> detectLineEnding x = lf.
Proof.
  intros H. unfold detectLineEnding. destruct (index_of x crlf 0) as [k|] eqn:E; [|by destruct (index_of x lf 0)].
  exfalso. apply index_of_occurs in E as [Ho _]. apply occurs_cons in Ho. apply H. by eapply list_elem_of_lookup_2.
Qed.

Lemma detect_restore x : 13 ∉ x -> 10 ∈ x -> detectLineEnding (restoreLineEndings x crlf) = crlf.
Proof.
  intros H13 H10. apply list_elem_of_split_l in H10 as (a & b & -> & Ha). rewrite restore_app, restore_cons, restore_plain, Z.eqb_refl by done.
  apply not_elem_of_app in H13 as [H13 _]. unfold detectLineEnding. set (r := restoreLineEndings b crlf).
  assert (index_of (a ++ crlf ++ r) crlf 0 = Some (length a)) as -> by apply (first_unit a 13 [10] _ H13).
  assert (index_of (a ++ crlf ++ r) lf 0 = Some (S (length a))) as ->.
  { change (crlf ++ r) with ([13] ++ [10] ++ r). rewrite app_assoc.
    replace (S (length a)) with (length (a ++ [13])) by (rewrite length_app; cbn; lia). apply first_unit. set_solver. }
  by rewrite (proj2 (Nat.ltb_lt (length a) (S (length a)))) by lia.
Qed.

Lemma ending_cases content : detectLineEnding content = lf \/ detectLineEnding content = crlf.
Proof. unfold detectLineEnding. destruct (index_of content crlf 0), (index_of content lf 0); auto. destruct (_ <? _)%nat; auto. Qed.

Lemma endings_kept content : restoreLineEndings (normalizeToLF content) (detectLineEnding content) = content <-> one_ending content.
Proof.
  split.
  - intros E. destruct (ending_cases content) as [D|D]; rewrite D in E.
    + left. rewrite <- E. apply normalize_no_cr.
    + right. exists (normalizeToLF content). split; [apply normalize_no_cr|done].
  - intros [H|(t & H & ->)].
    + rewrite detect_plain, normalize_plain by done. done.
    + rewrite normalize_restore by done. destruct (decide (10 ∈ t)) as [Hin|Hin]; [by rewrite detect_restore|].
      rewrite restore_plain, detect_plain by done. done.
Qed.

(** * What an edit of a text is *)

Section EditText.
Context {normalize : jsstr -> jsstr} {Laws : Normalizer normalize}.

Lemma strip_bom_spec raw : exists bom content, stripBom raw = (bom, content) /\ raw = bom ++ content /\ (bom = [] \/ bom = [bom_unit]).
Proof.
  unfold stripBom, starts_with. case_bool_decide as Hb; [|exists [], raw; auto]. exists [bom_unit], (drop 1 raw). split_and!; [done| |by right].
  destruct raw as [|u raw]; [done|]. cbn in Hb. injection Hb as ->. done.
Qed.

Lemma edit_text_ok raw edits final base new : edit_text normalize raw edits = Ok (final, (base, new)) ->
  exists bom content, (bom = [] \/ bom = [bom_unit]) /\ raw = bom ++ content /\ final = bom ++ restoreLineEndings new (detectLineEnding content) /\
    base = normalizeToLF content /\ new <> normalizeToLF content /\
    edited (normalize := normalize) (needs_fuzzy normalize (normalizeToLF content) (edit_to_lf <$> edits)) (normalizeToLF content) (edit_to_lf <$> edits) new.
Proof.
  unfold edit_text. destruct (strip_bom_spec raw) as (bom & content & -> & -> & Hb). intros H. res_inv. destruct x as [b n]. simplify_eq.
  apply applyEdits_ok in H as (-> & Hne & He). exists bom, content. by split_and!.
Qed.

(** An edit of the text of a file: between the byte order mark and with the line
    ending it had; where its line endings were of one kind it is read back as it
    was. *)
Definition text_edited (edits : list Edit) (before after : jsstr) : Prop :=
  exists bom content new, (bom = [] \/ bom = [bom_unit]) /\
    before = bom ++ content /\
    (one_ending content -> before = bom ++ restoreLineEndings (normalizeToLF content) (detectLineEnding content)) /\
    after = bom ++ restoreLineEndings new (detectLineEnding content) /\
    new <> normalizeToLF content /\
    edited (normalize := normalize) (needs_fuzzy normalize (normalizeToLF content) (edit_to_lf <$> edits)) (normalizeToLF content) (edit_to_lf <$> edits) new.

Lemma edit_text_edited raw edits final base new : edit_text normalize raw edits = Ok (final, (base, new)) -> text_edited edits raw final.
Proof.
  intros (bom & content & Hb & -> & -> & -> & Hne & He)%edit_text_ok. exists bom, content, new. split_and!; try done. intros Ho%endings_kept. by rewrite Ho.
Qed.
End EditText.
