(* ===== verification/ConcurrencyTheorems.v ===== *)
(** What sessions and their storages promise to callers that do not wait for each
    other.  Each with an instance on a schedule. *)
From S2P Require Import Prelude JsBase Json JsonText JsFloat JsonParse SessionTypes SessionState SessionFork SessionInv SessionBranch SessionForkSpec JsonlCodec JsonlStorage JsonlTheorems SerialQueue StorageQueue SessionObject.

(** * Lines *)

(** C22: However calls and turns interleave, when nothing waits any more the world
    and the answers are those of the operations run whole, one after the other,
    in the order of the calls. *)
Theorem line_is_serial {W E R : Type} (w : W) (evs : list (event W E R)) :
  unsealed evs -> let x := schedule (w, new_MutationLine) evs in ln_tail (snd x) = [] ->
  fst x = fst (outcomes 0 evs w) /\ ln_settled (snd x) ≡ₚ snd (outcomes 0 evs w).
Proof.
  intros Hu x Ht. destruct (schedule_drained evs (w, new_MutationLine) Hu eq_refl) as [H1 H2]. fold x in H1, H2.
  unfold drained in H1, H2. rewrite Ht in H1, H2. cbn in H1, H2. by rewrite app_nil_r in H2.
Qed.

(** Reads a number, and adds to it in its next turn. *)
Definition add_later (n : Z) : job Z string Z := Turn (fun w => (w, Turn (fun _ => (w + n, Done (Ok (w + n)))))).

Definition two_adds : list (event Z string Z) := [Call (add_later 1); Next; Call (add_later 10); Next; Next; Reject "late"%string; Next; Next; Next].

Lemma line_is_serial_witness :
  unsealed two_adds /\ fst (schedule (0, new_MutationLine) two_adds) = 11 /\ snd (outcomes 0 two_adds 0) = [(0%nat, Ok 1); (1%nat, Ok 11); (2%nat, Err "late"%string)].
Proof.
  assert (unsealed two_adds) as Hu by (repeat constructor).
  split; [exact Hu|]. split; [|reflexivity]. destruct (line_is_serial 0 two_adds Hu eq_refl) as [-> _]. reflexivity.
Defined.

(** C23: Every call to a storage settles, once: after the turns of the calls before
    it and its own, whatever is called meanwhile; and a storage that is asked to
    close is closed when they have had their turns, and one more. *)
Theorem storage_calls_settle {W E R : Type} (closedError : E) (m : nat) (w : W) (evs1 evs2 : list (queue_event W E R)) :
  Forall (fun e => match e with QCall op => within m op | _ => True end) evs1 ->
  let x := queue_schedule closedError (w, new_queued) evs1 in
  let y := queue_schedule closedError x evs2 in
  let waiting := length (ln_tail (q_line (snd x))) in
  NoDup (ln_settled (q_line (snd y))).*1 /\
  ((waiting * S m <= queue_turns evs2)%nat -> forall n, (n < ln_issued (q_line (snd x)))%nat -> n ∈ (ln_settled (q_line (snd y))).*1) /\
  (q_state (snd x) = LifeClosing -> (waiting * S m < queue_turns evs2)%nat -> q_state (snd y) = LifeClosed /\ ln_tail (q_line (snd y)) = []).
Proof.
  intros Hm x y waiting.
  assert (Hx : (fst x, q_line (snd x)) = schedule (w, new_MutationLine) (line_events closedError true evs1)) by apply queue_schedule_line.
  assert (Hy : (fst y, q_line (snd y)) = schedule (fst x, q_line (snd x)) (line_events closedError (is_open (snd x)) evs2)) by apply queue_schedule_line.
  apply (f_equal snd) in Hx, Hy. cbn [snd] in Hx, Hy.
  assert (accounted (q_line (snd x))) as Hax by (rewrite Hx; apply schedule_accounted, new_accounted).
  assert (accounted (q_line (snd y))) as Hay by (rewrite Hy; by apply schedule_accounted).
  assert (Forall (fun ns => within m (slot_job (snd ns))) (ln_tail (q_line (snd x)))) as Hw by (apply queue_schedule_within; [done|apply Forall_nil_2]).
  assert (Forall2 (fun k ns => within k (slot_job (snd ns))) (replicate waiting m) (ln_tail (q_line (snd x)))) as Hw2.
  { subst waiting. clear -Hw. induction Hw; cbn; by constructor. }
  assert (sum_list (S <$> replicate waiting m) = waiting * S m)%nat as Hsum.
  { clear. induction waiting as [|k IH]; cbn; [done|]. rewrite IH. lia. }
  split_and!.
  - unfold accounted in Hay. assert (NoDup ((ln_settled (q_line (snd y))).*1 ++ (ln_tail (q_line (snd y))).*1)) as Hnd by (rewrite Hay; apply NoDup_seq).
    by apply NoDup_app in Hnd as [Hnd _].
  - intros Hn n Hlt. assert (n ∈ (ln_settled (q_line (snd x))).*1 ++ (ln_tail (q_line (snd x))).*1) as Hin by (rewrite Hax; apply elem_of_seq; lia).
    rewrite Hy. apply elem_of_app in Hin as [Hin|Hin].
    + destruct (schedule_settled (line_events closedError (is_open (snd x)) evs2) (fst x, q_line (snd x))) as [more Hmore]. cbn [snd] in Hmore. rewrite Hmore, fmap_app. set_solver.
    + revert n Hlt Hin. assert ((ln_tail (q_line (snd x))).*1 ⊆ (ln_settled (snd (schedule (fst x, q_line (snd x)) (line_events closedError (is_open (snd x)) evs2)))).*1) as Hsub; [|set_solver].
      apply (schedule_settles _ _ _ [] (replicate waiting m)); [cbn; by rewrite app_nil_r|done|]. rewrite Hsum, queue_turns_line. done.
  - intros Hc Hn. assert (q_state (snd y) = LifeClosed) as Hcl by (apply (queue_closes closedError evs2 x (replicate waiting m)); [done|done|by rewrite Hsum]).
    split; [done|]. assert (closed_idle (snd y)) as Hi; [|by apply Hi]. apply queue_schedule_idle, queue_schedule_idle. done.
Qed.

(** A commit to memory, a fork, and a close while both wait. *)
Definition one_write : list Write := [PutWrite KindValue (js "app") (js "k") JNull].

Definition closing_calls : list (queue_event StorageState session_err storage_answer) :=
  [QCall (bind_job (memory_commit one_write (NInt 1)) (fun r => Done (Committed <$> r))); QCall (memory_fork ForkTree); QClose; QCall (memory_fork ForkTree)].

Lemma storage_calls_settle_witness :
  let y := queue_schedule memory_closed (queue_schedule memory_closed (new_StorageState, new_queued) closing_calls) [QNext; QNext; QNext; QNext; QNext] in
  q_state (snd y) = LifeClosed /\ (forall n, (n < 3)%nat -> n ∈ (ln_settled (q_line (snd y))).*1).
Proof.
  assert (Forall (fun e => match e with QCall op => within 1 op | _ => True end) closing_calls) as Hm.
  { repeat (apply Forall_cons_2); [|constructor; intros s; constructor|exact I|constructor; intros s; constructor|apply Forall_nil_2].
    constructor. intros s. cbn -[commit]. destruct (commit one_write (NInt 1) s). constructor. }
  destruct (storage_calls_settle memory_closed 1 new_StorageState closing_calls [QNext; QNext; QNext; QNext; QNext] Hm) as (_ & Hs & Hc).
  split; [apply Hc; [reflexivity|apply le_n]|]. intros n Hn. apply Hs; [apply le_S, le_n|exact Hn].
Defined.

(** Sealing a line, as closing a session does, starts nothing new: the
    operation that has started goes on to its end, and every other call, waiting
    or still to come, is refused. *)
Theorem sealed_line_starts_nothing {W E R : Type} (w : W) (l : MutationLine W E R) (e : E) (evs : list (event W E R)) :
  ln_sealedError l = None -> one_started l -> Forall (fun ev => match ev with Reject _ => False | _ => True end) evs ->
  let y := schedule (w, seal e l) evs in ln_tail (snd y) = [] ->
  let '(w', first) := match ln_tail l with (n, Running j) :: _ => let '(w', r) := run_job j w in (w', Some (n, r)) | _ => (w, None) end in
  fst y = w' /\ forall n r, (n, r) ∈ ln_settled (snd y) -> (n, r) ∈ ln_settled l \/ Some (n, r) = first \/ r = Err e.
Proof.
  intros Hn Hone Hev y Ht. assert (drained y = (fst y, ln_settled (snd y))) as Hd by (unfold drained; rewrite Ht; cbn; by rewrite app_nil_r).
  assert (ln_sealedError (seal e l) = Some e) as Hs by (cbn; by rewrite Hn).
  pose proof (sealed_world evs (w, seal e l) e Hs) as Hw. fold y in Hw. rewrite Hd in Hw.
  assert (forall n r, (n, r) ∈ ln_settled (snd y) -> (n, r) ∈ snd (drained (w, seal e l)) \/ r = Err e) as Hr.
  { intros n r H. apply (sealed_settled evs (w, seal e l) e n r Hs Hev). fold y. by rewrite Hd. }
  unfold one_started in Hone. unfold drained in Hw, Hr. cbn [snd fst] in Hw, Hr. rewrite Hs in Hw, Hr. cbn [ln_tail seal ln_settled] in Hw, Hr.
  destruct (ln_tail l) as [|[n0 [op|j]] rest]; cbn [drop] in Hone; cbn [run_slots run_slot] in Hw, Hr; [| |destruct (run_job j w) as [w' r0]];
    rewrite ?(run_waiting e _ rest Hone) in Hw, Hr; cbn in Hw, Hr; (split; [done|]); intros n r Hin; destruct (Hr n r Hin) as [H|H]; eauto;
    rewrite ?app_nil_r in H; (apply elem_of_app in H as [H|H] || idtac); eauto; try (apply elem_of_cons in H as [H|H]);
    try (right; left; congruence); right; right; try congruence; apply list_elem_of_fmap in H as (? & [= _ ->] & _); done.
Qed.

(** Sealed between the two turns of the first of two operations. *)
Definition half_done : Z * MutationLine Z string Z := schedule (0, new_MutationLine) [Call (add_later 1); Call (add_later 10); Next].

Lemma sealed_line_starts_nothing_witness :
  let y := schedule (fst half_done, seal "closed"%string (snd half_done)) [Next; Call (add_later 100); Next; Next] in
  fst y = 1 /\ forall n r, (n, r) ∈ ln_settled (snd y) -> r = Ok 1 \/ r = Err "closed"%string.
Proof.
  assert (one_started (snd half_done)) as Hone by (repeat constructor).
  destruct (sealed_line_starts_nothing (fst half_done) (snd half_done) "closed"%string [Next; Call (add_later 100); Next; Next] eq_refl Hone) as [Hw Hr].
  - repeat constructor.
  - reflexivity.
  - split; [rewrite Hw; reflexivity|]. intros n r Hin. destruct (Hr n r Hin) as [H|[H|H]].
    + cbn in H. by apply elem_of_nil in H.
    + left. by injection H.
    + by right.
Defined.

(** * Storages *)

(** C19: The storage in a file, whose commits wait for their appends while calls go
    on and others change the file system, answers every call as a storage would
    whose commits happen at once, called the same way; and between two commits it
    has the same session in memory and the same files. *)
Theorem jsonl_storage_atomic {FS : Type} {Files : FileSystem FS} (p : jsstr) (w : FS * StorageState) (acts : list storage_action) :
  exists acts', visible acts' = visible acts /\
    let x := storage_run (jsonl_commit p) (w, new_queued) acts in
    let y := storage_run (atomic_commit p) (w, new_queued) acts' in
    ln_settled (q_line (snd x)) = ln_settled (q_line (snd y)) /\ q_state (snd x) = q_state (snd y) /\
    ((forall n j, head (ln_tail (q_line (snd x))) = Some (n, Running j) -> exists r, j = Done r) -> fst x = fst y).
Proof.
  destruct (storage_refines p (w, new_queued) (w, new_queued) acts (simulates_new p w)) as (acts' & Hv & Hs). exists acts'. split; [done|]. cbn zeta.
  pose proof (simulates_between p _ _ Hs) as Hb. destruct Hs as (H1 & _ & H3 & _). done.
Qed.

Definition start_fs : TestFS * StorageState := (TestFS_ (<[js "s.jsonl" := []]> ∅) [], new_StorageState).

(** Two commits called together; another file appears while the first waits. *)
Definition two_commits : list storage_action :=
  [CallCommit one_write (NInt 1); CallCommit one_write (NInt 2); TakeTurn; Elsewhere (TestFS_ (<[js "other" := [65]]> (<[js "s.jsonl" := []]> ∅)) []);
   TakeTurn; TakeTurn; TakeTurn; CallClose; TakeTurn; TakeTurn; TakeTurn; TakeTurn; TakeTurn].

Definition after_commits := storage_run (jsonl_commit (js "s.jsonl")) (start_fs, new_queued) two_commits.

Lemma jsonl_storage_atomic_witness :
  exists acts', visible acts' = visible two_commits /\
    fst (storage_run (atomic_commit (js "s.jsonl")) (start_fs, new_queued) acts') = fst after_commits /\
    q_state (snd after_commits) = LifeClosed /\ (ln_settled (q_line (snd after_commits))).*1 = [0%nat; 1%nat].
Proof.
  destruct (jsonl_storage_atomic (js "s.jsonl") start_fs two_commits) as (acts' & Hv & _ & _ & H). exists acts'. split; [exact Hv|].
  split; [symmetry; apply H; intros n j Hh; vm_compute in Hh; discriminate Hh|]. vm_compute. auto.
Defined.

(** * Sessions *)

(** C16: Callers that append to the branches of a session without waiting for each
    other, over any storage that keeps its laws, never overwrite each other: when
    nothing waits any more, every branch has grown by the appends to it that
    succeeded, in the order of the calls, each under the one before. *)
Theorem session_appends_chain {W E : Type} `{Laws : StorageLaws W E} (w : W) (clients : list client) :
  session_inv (storage_state w) -> Forall named_branch (appends clients) ->
  let x := foldl client_step (w, new_MutationLine) clients in ln_tail (snd x) = [] ->
  session_inv (storage_state (fst x)) /\
  forall b path, branch_entries (storage_state w) b path ->
    exists added, branch_entries (storage_state (fst x)) b (rev added ++ path) /\
      e_new <$> added = chain (e_id <$> head path) (succeeded b 0 (appends clients) (ln_settled (snd x))).
Proof.
  intros Hs Hn x Ht. destruct (client_schedule clients (w, new_MutationLine) eq_refl) as [Hx _]. fold x in Hx.
  destruct (schedule_drained (client_event <$> clients) (w, new_MutationLine) (client_unsealed clients) eq_refl) as [H1 H2].
  rewrite <- Hx in H1, H2. unfold drained in H1, H2. rewrite Ht in H1, H2. cbn in H1, H2. rewrite app_nil_r in H2.
  destruct (outcomes 0 (client_event <$> clients) w) as [w' rs] eqn:Eo. cbn in H1, H2. subst w'.
  destruct (outcomes_chain clients 0 w (fst x) rs Hs Hn Eo) as [Hs' Hb]. split; [done|]. intros b path Hp.
  destruct (Hb b path Hp) as (added & Ha & Hc). exists added. split; [done|]. by rewrite (succeeded_perm _ _ _ _ _ H2).
Qed.

Definition user_message (text : string) : branch_entry := BranchMessage (JObj [(js "role", JStr (js "user")); (js "content", JStr (js text))]).
Definition append_to (b id : string) : client := Append (AppendCall (js b) (user_message id) (js id) (NInt 100)).

(** A session with two empty branches. *)
Definition two_branches : StorageState :=
  fst (commit [PutWrite KindValue (js "shuvpi.branch.tip") (js "main") JNull; PutWrite KindValue (js "shuvpi.branch.tip") (js "side") JNull] (NInt 1) new_StorageState).

(** Four appends at once; the fourth takes an id that is taken by then. *)
Definition four_appends : list client :=
  [append_to "main" "a"; append_to "side" "b"; Proceed; append_to "main" "c"; append_to "main" "b";
   Proceed; Proceed; Proceed; Proceed; Proceed; Proceed; Proceed; Proceed; Proceed; Proceed; Proceed].

Lemma two_branches_inv : session_inv two_branches.
Proof.
  assert (Forall names_of_write [PutWrite KindValue (js "shuvpi.branch.tip") (js "main") JNull; PutWrite KindValue (js "shuvpi.branch.tip") (js "side") JNull]) as Hw by (repeat constructor).
  destruct (commit_outcome new_StorageState _ _ (NInt 1) new_StorageState_inv represents_new Hw) as [(e & E & _)|(s' & p & _ & E & Hs & _)]; unfold two_branches; rewrite E; [exact new_StorageState_inv|exact Hs].
Qed.

Lemma session_appends_chain_witness :
  exists path, branch_entries (fst (foldl (client_step (E := session_err)) (two_branches, new_MutationLine) four_appends)) (js "main") path /\ e_id <$> path = [js "c"; js "a"].
Proof.
  assert (branch_entries two_branches (js "main") []) as Hb.
  { exists None. split; [|constructor]. split; [reflexivity|]. eexists. vm_compute. reflexivity. }
  destruct (@session_appends_chain StorageState session_err memory_storage memory_laws two_branches four_appends two_branches_inv) as [_ H]; [repeat constructor|vm_compute; reflexivity|].
  destruct (H (js "main") [] Hb) as (added & Hp & Hc). exists (rev added ++ []). split; [exact Hp|].
  rewrite app_nil_r. replace (e_id <$> rev added) with (rev (ne_id <$> (e_new <$> added))); [rewrite Hc; vm_compute; reflexivity|].
  rewrite <- list_fmap_compose. symmetry. apply map_rev.
Defined.
