(* ===== verification/SessionTheorems.v ===== *)
(** The properties of harness sessions, each with an instance on a small
    session. *)
From Stdlib Require Import Sorted.
From stdpp Require Import sorting.
From S2P Require Import Prelude JsBase JsFloat Json SortedIds SessionTypes SessionState SessionFork SessionInv SessionBranch SessionForkSpec BranchSummary.

(** * A small session

    A branch of a message [m1], a custom entry [c2] and a message [m3], a side
    branch [m4] from [m1], a configured lane [main] at [m3], a value, a list and
    a usage row. *)

Definition sample_message (id : string) (parent : option string) : Write :=
  insertEntry (NewEntry_ (js id) (js <$> parent) None (MessageEntry (JObj []) false)).

Definition sample_usage : Usage := Usage_ (NInt 3) (NInt 2) (NInt 0) (NInt 0) None None (NInt 5) (Cost_ (NInt 0) (NInt 0) (NInt 0) (NInt 0) (NInt 0)).

Definition sample_writes : list Write :=
  [sample_message "m1" None;
   insertEntry (NewEntry_ (js "c2") (Some (js "m1")) (Some (js "note")) (CustomEntry None));
   sample_message "m3" (Some "c2"%string);
   sample_message "m4" (Some "m1"%string);
   PutWrite KindValue (js "shuvpi.branch.tip") (js "main") (JStr (js "m3"));
   PutWrite KindValue (js "shuvpi.lane.config") (js "main") (JObj []);
   PutWrite KindValue (js "shuvpi.lane.state") (js "main") (JObj []);
   PutWrite KindValue (js "app") (js "k") (JNum (NInt 7));
   PutWrite KindList (js "app") (js "k") (JNum (NInt 1));
   PutWrite KindList (js "app") (js "k") (JNum (NInt 2));
   insertUsage (UsageDraft_ (js "u1") sample_usage None false None)].

Definition sample_session : StorageState := fst (commit sample_writes (NInt 100) new_StorageState).

Lemma sample_writes_names : Forall names_of_write sample_writes.
Proof. repeat constructor. Qed.

Lemma sample_session_inv : session_inv sample_session.
Proof.
  destruct (commit_outcome _ _ sample_writes (NInt 100) new_StorageState_inv represents_new sample_writes_names)
    as [(e & E & _)|(s' & p & _ & E & Hs & _)]; unfold sample_session; rewrite E; [exact new_StorageState_inv|exact Hs].
Qed.

(** * Commits *)

(** C14: a commit that succeeds does to what the session stores exactly what its
    writes say, in order, under consecutive sequence numbers from the session's
    next one: entries and usage rows are added, a value is the last one put, a
    list grows at its end, a deleted address is empty; different addresses do
    not interfere. *)
Theorem session_commit_refines s t writes now s' r :
  session_inv s -> represents s t -> Forall names_of_write writes -> commit writes now s = (s', Ok r) ->
  represents s' (foldl table_write t (imap (fun i w => commitWrite w (nextSeq s + Z.of_nat i) now) writes)) /\
  cr_firstSeq r = nextSeq s /\ cr_seqs r = imap (fun i _ => nextSeq s + Z.of_nat i) writes /\ cr_stats r = stats s' /\
  nextSeq s' = nextSeq s + len writes.
Proof.
  intros Hs Ht Hn H. destruct (commit_outcome s t writes now Hs Ht Hn) as [(e & E & _)|(s1 & p & Ep & E & Hs1 & Ht1 & Hq)];
    rewrite E in H; [done|]. injection H as <- <-. apply prepareCommit_Ok in Ep as [-> _]. cbn.
  split_and!; [exact Ht1|done| |done|exact Hq]. rewrite fmap_imap. apply imap_ext. intros i w _. apply commitWrite_seq.
Qed.

(** C15: whatever the writes, as long as their addresses are valid, a commit
    leaves a well-formed session: every entry under its id and after its parent,
    ids used once, sequences increasing and below the next one, totals equal to
    what they count, values and lists under their addresses; and a commit that
    throws leaves the session as it was. *)
Theorem session_commit_safe s writes now :
  session_inv s -> Forall names_of_write writes ->
  session_inv (fst (commit writes now s)) /\ (forall e, snd (commit writes now s) = Err e -> fst (commit writes now s) = s).
Proof.
  intros Hs Hn. destruct (commit_outcome s _ writes now Hs (tables_of_represents s Hs) Hn) as [(e & E & _)|(s' & p & _ & E & Hs' & _)];
    rewrite E; cbn; auto. done.
Qed.

(** A list that grows and a value that is deleted under the same names. *)
Definition more_writes : list Write :=
  [PutWrite KindList (js "app") (js "k") (JNum (NInt 3)); DeleteWrite KindValue (js "app") (js "k")].

Lemma session_commit_refines_witness :
  let s' := fst (commit more_writes (NInt 200) sample_session) in
  le_value <$> elements_at (listValues s') (physicalKey (js "app") (js "k")) = [JNum (NInt 1); JNum (NInt 2); JNum (NInt 3)] /\
  value_at s' (js "app") (js "k") = None /\ nextSeq s' = 14.
Proof.
  assert (names_ok (js "app") (js "k")) as Hk by reflexivity.
  destruct (commit more_writes (NInt 200) sample_session) as [s' [r|e]] eqn:E; [|vm_compute in E; discriminate E].
  destruct (session_commit_refines sample_session (tables_of sample_session) more_writes (NInt 200) s' r
    sample_session_inv (tables_of_represents _ sample_session_inv)) as ([_ _ Hv Hl] & _ & _ & _ & Hn); [repeat constructor|exact E|].
  cbn [fst]. rewrite (Hl _ _ Hk), (Hv _ _ Hk), Hn. vm_compute. auto.
Defined.

(** A second [m1] after a new entry: nothing is stored. *)
Lemma session_commit_safe_witness :
  fst (commit [sample_message "m5" (Some "m3"%string); sample_message "m1" None] (NInt 200) sample_session) = sample_session /\
  is_Ok (snd (commit [sample_message "m5" (Some "m3"%string)] (NInt 200) sample_session)) = true.
Proof.
  split; [|vm_compute; reflexivity].
  assert (Forall names_of_write [sample_message "m5" (Some "m3"%string); sample_message "m1" None]) as Hn by repeat constructor.
  destruct (session_commit_safe sample_session _ (NInt 200) sample_session_inv Hn) as [_ H].
  apply (H (SessionError "Duplicate entry or usage id")). vm_compute. reflexivity.
Defined.

(** Validation does not look at addresses: with an empty namespace the commit
    throws after the entry before it is stored. *)
Example session_commit_invalid_address :
  let '(s', r) := commit [sample_message "x" None; PutWrite KindValue [] [] JNull] (NInt 1) new_StorageState in
  r = Err (SessionTypeError "Value namespace must not be empty") /\ e_id <$> entriesBySeq s' = [js "x"] /\ nextSeq s' = 2.
Proof. vm_compute. auto. Qed.

(** * Scans *)

(** A scan of a branch returns, in the order asked for and up to the limit,
    exactly the entries among its start and its ancestors that pass the type,
    custom type and cursor filters and come no later than the first one that
    stops the scan. *)
Theorem scanBranch_follows_ancestry s fuel q e0 :
  session_inv s -> entries s !! bs_start q = Some e0 -> (length (entriesBySeq s) <= fuel)%nat ->
  exists l, scanBranch s fuel q = Some (Ok (limited (bs_limit q) l)) /\
    StronglySorted (scanned_before (bs_oldestFirst q)) l /\ forall e, e ∈ l <-> branch_selected s q e.
Proof. apply scanBranch_selected. Qed.

(** The messages of the main branch down to its first entry. *)
Definition sample_scan : BranchScan := BranchScan_ (js "m3") None (Some (js "m1")) (Some TypeMessage) None false None None.

Lemma scanBranch_follows_ancestry_witness :
  exists l, scanBranch sample_session 4 sample_scan = Some (Ok l) /\ e_id <$> l = [js "m3"; js "m1"].
Proof.
  assert (exists e0, entries sample_session !! bs_start sample_scan = Some e0) as [e0 H0] by (vm_compute; eauto).
  destruct (scanBranch_follows_ancestry sample_session 4 sample_scan e0 sample_session_inv H0) as (l & E & _);
    [vm_compute; lia|].
  exists l. split; [exact E|]. vm_compute in E. injection E as <-. vm_compute. reflexivity.
Defined.

(** A scan of the entries returns exactly those that match its filters, in
    sequence order either way, the first of them when it is limited. *)
Theorem session_scanEntries_complete s q :
  session_inv s ->
  exists l, scanEntries s q = limited (es_limit q) l /\ StronglySorted (scanned_before (negb (es_descending q))) l /\
    forall e, e ∈ l <-> entry_selected s q e.
Proof. apply scanEntries_selected. Qed.

(** The two newest messages past the first entry. *)
Definition sample_entry_scan : EntryScan := EntryScan_ (Some TypeMessage) None (Some 2) None true (Some 2).

Lemma session_scanEntries_complete_witness :
  exists l, scanEntries sample_session sample_entry_scan = take 2 l /\ e_id <$> take 2 l = [js "m4"; js "m3"].
Proof.
  destruct (session_scanEntries_complete sample_session sample_entry_scan sample_session_inv) as (l & E & _).
  exists l. split; [exact E|]. change (take 2 l) with (limited (es_limit sample_entry_scan) l). rewrite <- E. vm_compute. reflexivity.
Defined.

(** With more rounds than there are entries every walk up a branch ends:
    a scan returns its entries, and fails only for a start that is not stored,
    never for a missing parent; a fork returns a session or an error. *)
Theorem session_walks_end s fuel :
  session_inv s -> (length (entriesBySeq s) < fuel)%nat ->
  (forall q, exists r, scanBranch s fuel q = Some r /\ (is_Ok r = false <-> entries s !! bs_start q = None)) /\
  (forall options, exists r, createFork s fuel options = Some r).
Proof.
  intros Hs Hf. split; [|intros; by apply createFork_total]. intros q.
  destruct (entries s !! bs_start q) as [e0|] eqn:H0.
  - destruct (scanBranch_selected s fuel q e0 Hs H0) as (l & -> & _); [lia|]. by eexists.
  - unfold scanBranch. rewrite H0. by eexists.
Qed.

Lemma session_walks_end_witness :
  exists r, scanBranch sample_session 5 sample_scan = Some r /\ is_Ok r = true.
Proof.
  destruct (session_walks_end sample_session 5 sample_session_inv) as [H _]; [vm_compute; lia|].
  destruct (H sample_scan) as (r & E & _). exists r. split; [exact E|]. vm_compute in E. injection E as <-. reflexivity.
Defined.

(** * Forks *)

(** The main branch forked at [c2], and the whole session. *)
Definition sample_branch_fork : ForkOptions := ForkBranch (js "main") (Some (js "c2")) false.

Definition forked (options : ForkOptions) : StorageState :=
  match createFork sample_session 5 options with Some (Ok d) => d | _ => new_StorageState end.

Lemma forked_branch : createFork sample_session 5 sample_branch_fork = Some (Ok (forked sample_branch_fork)).
Proof. vm_compute. reflexivity. Qed.

Lemma forked_tree : createFork sample_session 5 ForkTree = Some (Ok (forked ForkTree)).
Proof. vm_compute. reflexivity. Qed.

Lemma sample_fuel : (length (entriesBySeq sample_session) < 5)%nat.
Proof. vm_compute. lia. Qed.

(** Whatever is forked, the destination is a well-formed session that
    numbers on from the source: its entries are entries of the source in the
    same order, its usage starts empty, and each address holds what the fork
    policy makes of what the source holds there, lists element by element. *)
Theorem fork_keeps_session s fuel options d :
  session_inv s -> (length (entriesBySeq s) < fuel)%nat -> createFork s fuel options = Some (Ok d) ->
  session_inv d /\ exists plan, selectForkPlan s fuel options = Some (Ok plan) /\ fork_of s d plan.
Proof.
  intros Hs Hf H. destruct (createFork_result s fuel options d Hs Hf H) as (plan & Hp & _ & Hd & Hfork). split; [done|]. by exists plan.
Qed.

(** The tree fork keeps all four entries and its numbering; usage starts at
    nothing. *)
Lemma fork_keeps_session_witness :
  session_inv (forked ForkTree) /\ (e_id <$> entriesBySeq (forked ForkTree)) = [js "m1"; js "c2"; js "m3"; js "m4"] /\
  nextSeq (forked ForkTree) = 12 /\ usage (forked ForkTree) = [].
Proof.
  destruct (fork_keeps_session sample_session 5 ForkTree (forked ForkTree) sample_session_inv sample_fuel forked_tree)
    as [Hd (plan & Hp & [_ _ _ Hu Hn])].
  split; [exact Hd|]. rewrite Hu, Hn. vm_compute. auto.
Defined.

(** C21: a branch fork takes exactly the path that ends at the entry asked for
    (its parent with [before], the tip of the branch by default), and the
    destination's branch has that tip. *)
Theorem fork_branch_is_path s fuel branch entryId before d :
  session_inv s -> (length (entriesBySeq s) < fuel)%nat ->
  createFork s fuel (ForkBranch branch entryId before) = Some (Ok d) ->
  exists tip path destinationTip dpath,
    stored_tip s branch tip /\ ancestry s tip path /\
    fork_point before path (requested_of entryId tip) destinationTip /\
    stored_tip d branch destinationTip /\ ancestry d destinationTip dpath /\ (forall e, e ∈ entriesBySeq d <-> e ∈ dpath).
Proof.
  intros Hs Hf H. destruct (createFork_result s fuel _ d Hs Hf H) as (plan & Hp & _ & Hd & Hfork).
  destruct (selectForkPlan_outcome s fuel branch entryId before Hs Hf) as (r & E & Hr). rewrite E in Hp. injection Hp as ->.
  destruct (Hr plan eq_refl) as (tip & Htip & path & dt & dpath & ids & -> & Ha & Hpoint & Hda & Hids).
  pose proof (fork_of_branch_entries _ _ _ _ _ _ Hs Hfork Hda Hids) as Hin.
  exists tip, path, dt, dpath. split_and!; [done|done|done|by eapply fork_tip| |done].
  apply (fork_ancestry s); [done|done| |done]. intros e. apply Hin.
Qed.

Lemma fork_branch_is_path_witness :
  (e_id <$> entriesBySeq (forked sample_branch_fork)) = [js "m1"; js "c2"] /\
  exists tip dpath, ancestry (forked sample_branch_fork) tip dpath /\ length dpath = 2%nat /\ stored_tip (forked sample_branch_fork) (js "main") tip.
Proof.
  split; [vm_compute; reflexivity|].
  destruct (fork_branch_is_path sample_session 5 (js "main") (Some (js "c2")) false (forked sample_branch_fork)
    sample_session_inv sample_fuel forked_branch) as (tip & path & dt & dpath & _ & _ & _ & Hst & Ha & Hin).
  exists dt, dpath. split; [exact Ha|]. split; [|exact Hst].
  destruct Hst as (_ & seq & Hv). assert (dt = Some (js "c2")) as ->.
  { vm_compute in Hv. destruct dt as [id|]; [|discriminate Hv]. injection Hv as <- _. reflexivity. }
  inversion Ha as [|id e path' He Hr]; subst. vm_compute in He. injection He as <-.
  inversion Hr as [|id' e' path'' He' Hr']; subst. vm_compute in He'. injection He' as <-.
  inversion Hr'; subst. reflexivity.
Defined.

(** Forks carry no work in flight, and application state only with the
    whole tree: results, operations and pending data are never copied, lane
    states are idle, and values and lists outside the reserved namespaces are
    all there in a tree fork and none of them in a branch fork. *)
Theorem fork_carries_state s fuel options d ns key :
  session_inv s -> (length (entriesBySeq s) < fuel)%nat -> createFork s fuel options = Some (Ok d) -> names_ok ns key ->
  let stored (x : StorageState) := (value_at x ns key, elements_at (listValues x) (physicalKey ns key)) in
  (in_flight ns -> stored d = (None, [])) /\
  (ns = js "shuvpi.lane.state" -> forall v seq, value_at d ns key = Some (v, seq) -> v = idle_lane_state) /\
  (application ns -> stored d = if whole_tree options then stored s else (None, [])).
Proof.
  intros Hs Hf H Hn. destruct (createFork_result s fuel options d Hs Hf H) as (plan & _ & Ht & _ & [_ Hv Hl _ _]).
  specialize (Hv ns key Hn). specialize (Hl ns key Hn). cbn zeta. split_and!.
  - intros Hi. rewrite Hv, Hl. f_equal.
    + destruct (value_at s ns key); [|done]. by apply in_flight_kept.
    + apply omap_nothing. intros e. unfold kept_element. by rewrite in_flight_kept.
  - intros -> v seq E. rewrite Hv in E. destruct (value_at s _ key) as [[v0 seq0]|]; [|done]. by apply lane_state_kept in E.
  - intros Ha. rewrite Hv, Hl, <- Ht.
    destruct (is_tree plan) eqn:Et; f_equal; unfold kept_value, kept_element.
    + destruct (value_at s ns key) as [[v seq]|]; [|done]. cbn. by rewrite application_kept, Et.
    + apply omap_all. intros [seq v]. by rewrite application_kept, Et.
    + destruct (value_at s ns key) as [[v seq]|]; [|done]. cbn. by rewrite application_kept, Et.
    + apply omap_nothing. intros e. by rewrite application_kept, Et.
Qed.

(** Both forks of the sample: the value and the list of the application, and the
    lane made idle. *)
Lemma fork_carries_state_witness :
  value_at (forked ForkTree) (js "app") (js "k") = Some (JNum (NInt 7), 8) /\
  value_at (forked sample_branch_fork) (js "app") (js "k") = None /\
  exists seq, value_at (forked sample_branch_fork) (js "shuvpi.lane.state") (js "main") = Some (idle_lane_state, seq).
Proof.
  assert (names_ok (js "app") (js "k")) as Hk by reflexivity.
  assert (application (js "app")) as Happ by (split; [vm_compute; discriminate|reflexivity]).
  destruct (fork_carries_state sample_session 5 ForkTree _ (js "app") (js "k") sample_session_inv sample_fuel forked_tree Hk) as (_ & _ & H1).
  destruct (fork_carries_state sample_session 5 sample_branch_fork _ (js "app") (js "k") sample_session_inv sample_fuel forked_branch Hk) as (_ & _ & H2).
  assert (names_ok (js "shuvpi.lane.state") (js "main")) as Hl by reflexivity.
  destruct (fork_carries_state sample_session 5 sample_branch_fork _ (js "shuvpi.lane.state") (js "main") sample_session_inv sample_fuel forked_branch Hl)
    as (_ & H3 & _).
  apply (f_equal fst) in H1, H2; [|exact Happ|exact Happ]. cbn [fst whole_tree sample_branch_fork] in H1, H2.
  split; [rewrite H1; vm_compute; reflexivity|]. split; [exact H2|].
  destruct (value_at (forked sample_branch_fork) (js "shuvpi.lane.state") (js "main")) as [[v seq]|] eqn:E;
    [|vm_compute in E; discriminate E].
  exists seq. rewrite (H3 eq_refl v seq eq_refl). reflexivity.
Defined.

(** What is summarized when a branch is left for a target: the entries of the
    branch, oldest first, that are not on the path of the target.  The common
    ancestor is the deepest entry of both paths: all that is on both is at or above
    it. *)
Theorem branch_left_entries (s : StorageState) (fuel : nat) (oldTip target : jsstr) (eo et : Entry) :
  session_inv s -> entries s !! oldTip = Some eo -> entries s !! target = Some et -> entries s !! [] = None -> (length (entriesBySeq s) < fuel)%nat ->
  exists r, collectEntriesForBranchSummary s fuel (Some oldTip) target = Some (Ok r) /\
    StronglySorted (fun x y => e_seq x < e_seq y) (collected r) /\
    (forall e, e ∈ collected r <-> on_path s oldTip e /\ ~ on_path s target e) /\
    match commonAncestorId r with
    | Some c => exists e, entries s !! c = Some e /\ on_path s oldTip e /\ on_path s target e /\ forall e', on_path s oldTip e' -> on_path s target e' -> on_path s c e'
    | None => forall e, on_path s oldTip e -> ~ on_path s target e
    end.
Proof.
  intros Hs Ho Ht Hn Hf. destruct (find_path_ok s Hs fuel oldTip eo Ho) as (oldPath & Eo & Hao); [lia|]. destruct (find_path_ok s Hs fuel target et Ht) as (targetPath & Et & Hat); [lia|].
  pose proof (common_spec s Hs oldTip target oldPath targetPath Hao Hat) as [Hin Hc]. set (common := e_id <$> head _) in *.
  exists (CollectEntriesResult_ (rev (above common oldPath)) common). split_and!; [| | |exact Hc].
  - unfold collectEntriesForBranchSummary. destruct oldTip as [|u oldTip]; [congruence|]. rewrite Eo. cbn [mbind option_bind]. rewrite Et. cbn [mbind option_bind]. fold common.
    rewrite (collect_loop_above s Hs fuel common _ oldPath Hn Hao); [done|]. pose proof (ancestry_length _ _ (stored_ok s Hs) _ _ Hao). lia.
  - cbn [collected]. apply (StronglySorted_rev (fun x y => e_seq y < e_seq x)). pose proof (ancestry_decreasing _ _ (stored_ok s Hs) _ _ Hao) as Hd.
    destruct (above_split common oldPath) as [[-> _]|(e & b & E & _)]; [done|]. rewrite E in Hd. by apply StronglySorted_app in Hd as (_ & ? & _).
  - intros e. cbn [collected]. by rewrite list_elem_of_In, <- in_rev, <- list_elem_of_In.
Qed.

Lemma branch_left_entries_witness :
  exists r, collectEntriesForBranchSummary sample_session 9 (Some (js "m3")) (js "m4") = Some (Ok r) /\ commonAncestorId r = Some (js "m1") /\ e_id <$> collected r = [js "c2"; js "m3"].
Proof.
  destruct (entries sample_session !! js "m3") as [eo|] eqn:Ho; [|vm_compute in Ho; discriminate Ho]. destruct (entries sample_session !! js "m4") as [et|] eqn:Ht; [|vm_compute in Ht; discriminate Ht].
  destruct (branch_left_entries sample_session 9 (js "m3") (js "m4") eo et sample_session_inv Ho Ht) as (r & E & _); [vm_compute; reflexivity|vm_compute; lia|].
  exists r. split; [exact E|]. vm_compute in E. injection E as <-. vm_compute. auto.
Defined.
