(* ===== verification/StateDiff.v ===== *)
(** [packages/chord/src/state/diff.ts]: a compact batch of operations between
    two immutable revisions of a replicated state.

    The code compares containers by identity, so a revision is JSON whose arrays
    and objects carry the identity of the object that holds them.  The loops
    push to one growing batch, [out] here, and stop when it is too long. *)
From S2P Require Import Prelude JsBase JsFloat Json DeltaOps DeltaDiff.

Definition DEFAULT_OVERLAP_SCAN : N := 65536.
Definition MAX_DELTA_OPERATIONS : Z := 4096.

(** * Revisions *)

#[local] Unset Elimination Schemes.
Inductive rev : Type :=
| RNull
| RBool (b : bool)
| RNum (n : jsnum)
| RStr (s : jsstr)
| RArr (id : positive) (l : list rev)
| RObj (id : positive) (o : list (jsstr * rev)).
#[local] Set Elimination Schemes.

Lemma rev_ind (P : rev -> Prop) :
  P RNull -> (forall b, P (RBool b)) -> (forall n, P (RNum n)) -> (forall s, P (RStr s)) ->
  (forall id l, Forall P l -> P (RArr id l)) ->
  (forall id o, Forall (fun kv => P (snd kv)) o -> P (RObj id o)) ->
  forall r, P r.
Proof.
  intros Hnull Hbool Hnum Hstr Harr Hobj.
  fix F 1. intros [| b | n | s | id l | id o];
    [exact Hnull|exact (Hbool b)|exact (Hnum n)|exact (Hstr s)|clear Hobj|clear Harr].
  - apply Harr. induction l as [|j l IH]; constructor; [apply F|exact IH].
  - apply Hobj. induction o as [|[k j] o IH]; constructor; [apply F|exact IH].
Qed.

(** The JSON a revision holds. *)
Fixpoint erase (r : rev) : json :=
  match r with
  | RNull => JNull
  | RBool b => JBool b
  | RNum n => JNum n
  | RStr s => JStr s
  | RArr _ l => JArr (erase <$> l)
  | RObj _ o => JObj ((fun kv => (fst kv, erase (snd kv))) <$> o)
  end.

(** [left === right] *)
Definition strict_eq (left right : rev) : bool :=
  match left, right with
  | RArr i _, RArr j _ | RObj i _, RObj j _ => (i =? j)%positive
  | RNull, RNull => true
  | RBool a, RBool b => Bool.eqb a b
  | RNum a, RNum b => num_strict_eq a b
  | RStr a, RStr b => bool_decide (a = b)
  | _, _ => false
  end.

Fixpoint equalJson (left right : rev) {struct left} : bool :=
  strict_eq left right ||
  match left, right with
  | RArr _ l, RArr _ r =>
      (length l =? length r)%nat &&
      (fix go l r := match l, r with
                     | a :: l, b :: r => equalJson a b && go l r
                     | _, _ => true
                     end) l r
  | RObj _ l, RObj _ r =>
      (length (obj_keys l) =? length (obj_keys r))%nat &&
      (fix go l := match l with
                   | [] => true
                   | (k, a) :: l => match obj_get r k with Some b => equalJson a b | None => false end && go l
                   end) l
  | _, _ => false
  end.

(** * Permutations *)

Record Positions : Type := Positions_ { indices : list N; used : nat }.

(** [positions.get(value)] and the entry set back; keys are compared by
    SameValueZero, which is [===] on JSON. *)
Fixpoint position_of (positions : list (rev * Positions)) (value : rev) : option Positions :=
  match positions with
  | [] => None
  | (k, e) :: positions => if strict_eq k value then Some e else position_of positions value
  end.

Fixpoint set_position (positions : list (rev * Positions)) (value : rev) (e : Positions) : list (rev * Positions) :=
  match positions with
  | [] => [(value, e)]
  | (k, e') :: positions => if strict_eq k value then (k, e) :: positions else (k, e') :: set_position positions value e
  end.

Fixpoint index_positions (index : N) (before : list rev) (positions : list (rev * Positions)) : list (rev * Positions) :=
  match before with
  | [] => positions
  | value :: before =>
      index_positions (index + 1) before
        match position_of positions value with
        | None => set_position positions value (Positions_ [index] 0)
        | Some e => set_position positions value (Positions_ (indices e ++ [index]) (used e))
        end
  end.

Fixpoint take_positions (after : list rev) (positions : list (rev * Positions)) (result : list N) : option (list N) :=
  match after with
  | [] => Some result
  | value :: after =>
      match position_of positions value with
      | None => None
      | Some e =>
          match indices e !! used e with
          | None => None
          | Some i => take_positions after (set_position positions value (Positions_ (indices e) (S (used e)))) (result ++ [i])
          end
      end
  end.

Definition permutation (before after : list rev) : option (list N) :=
  if negb (length before =? length after)%nat then None
  else take_positions after (index_positions 0 before []) [].

(** * The operations pushed *)

Definition too_many (out : list Op) : bool := MAX_DELTA_OPERATIONS <? len out.

Definition emitSet (p : path) (value : rev) (out : list Op) : list Op :=
  match p with
  | [] => out ++ [OpR (erase value)]
  | _ => out ++ [OpS p (erase value)]
  end.

Definition emitString (before after : jsstr) (p : path) (out : list Op) : list Op :=
  if bool_decide (before = after) then out
  else if (length before <? length after)%nat && bool_decide (take (length before) after = before) then
    out ++ [OpA p (drop (length before) after)]
  else
    let shared := overlap before after DEFAULT_OVERLAP_SCAN overlap_probe_default overlap_candidates_default in
    if (shared =? 0)%nat then out ++ [OpS p (JStr after)]
    else
      let out := out ++ [OpT p (N.of_nat (length before - shared))] in
      if (shared <? length after)%nat then out ++ [OpA p (drop shared after)] else out.

(** The inner loops of [emitSameLengthShift]: the elements of [long] from
    [offset] on are those of [short]. *)
Fixpoint same_elements (long short : list rev) : bool :=
  match long, short with
  | x :: long, y :: short => strict_eq x y && same_elements long short
  | _, _ => true
  end.

(** A candidate offset of [long] where [short] starts, among the first 16
    offsets from [offset] on that show its first element. *)
Fixpoint shift_loop (long short : list rev) (fuel offset candidates : nat) : option nat :=
  match fuel, candidates with
  | S fuel, S candidates' =>
      if negb (match long !! offset, short !! 0%nat with Some x, Some y => strict_eq x y | _, _ => false end) then
        shift_loop long short fuel (S offset) candidates
      else if same_elements (drop offset long) short then Some offset
      else shift_loop long short fuel (S offset) candidates'
  | _, _ => None
  end.

(** [true] with the two operations pushed, or [false]. *)
Definition emitSameLengthShift (before after : list rev) (p : path) (out : list Op) : option (list Op) :=
  let length_ := length before in
  if (length_ <? 2)%nat then None
  else
    match shift_loop before after (length_ - 1) 1 16 with
    | Some removed =>
        Some (out ++ [OpP p 0 (N.of_nat removed) [];
                      OpP p (N.of_nat (length_ - removed)) 0 (erase <$> drop (length_ - removed) after)])
    | None =>
        match shift_loop after before (length_ - 1) 1 16 with
        | Some inserted =>
            Some (out ++ [OpP p 0 0 (erase <$> take inserted after); OpP p (N.of_nat length_) (N.of_nat inserted) []])
        | None => None
        end
    end.

(** The number of equal leading elements, at most [room]. *)
Fixpoint common (room : nat) (before after : list rev) : nat :=
  match room, before, after with
  | S room, b :: before, a :: after => if equalJson b a then S (common room before after) else 0%nat
  | _, _, _ => 0%nat
  end.

Fixpoint mismatches (before after : list rev) : nat :=
  match before, after with
  | b :: before, a :: after => ((if strict_eq b a then 0 else 1) + mismatches before after)%nat
  | _, _ => 0%nat
  end.

(** * The differ *)

Section Recursion.
Variable diffValue : rev -> rev -> path -> list Op -> list Op.

Fixpoint diff_indices (p : path) (index : N) (before after : list rev) (out : list Op) {struct after} : list Op :=
  match after, before with
  | a :: after, b :: before =>
      if too_many out then out
      else diff_indices p (index + 1) before after (diffValue b a (p ++ [SNum index]) out)
  | _, _ => out
  end.

(** The array cases of more than one mismatch. *)
Definition reorder (before after : list rev) (p : path) (out : list Op) : option (list Op) :=
  match permutation before after with
  | Some order => Some (out ++ [OpM p order])
  | None => emitSameLengthShift before after p out
  end.

Definition diffArray (before after : list rev) (p : path) (out : list Op) : list Op :=
  if (length before =? length after)%nat then
    match mismatches before after with
    | 0%nat => out
    | 1%nat => diff_indices p 0 before after out
    | _ => match reorder before after p out with Some out => out | None => diff_indices p 0 before after out end
    end
  else
    let shortest := Nat.min (length before) (length after) in
    let prefix := common shortest before after in
    let suffix := common (shortest - prefix) (List.rev before) (List.rev after) in
    out ++ [OpP p (N.of_nat prefix) (N.of_nat (length before - prefix - suffix))
              (erase <$> take (length after - suffix - prefix) (drop prefix after))].

Fixpoint diff_keys (before : list (jsstr * rev)) (p : path) (after : list (jsstr * rev)) (out : list Op) {struct after} : list Op :=
  match after with
  | [] => out
  | (key, a) :: after =>
      if too_many out then out
      else diff_keys before p after
             match obj_get before key with
             | Some b => diffValue b a (p ++ [SStr key]) out
             | None => emitSet (p ++ [SStr key]) a out
             end
  end.

Fixpoint drop_keys (after : list (jsstr * rev)) (p : path) (keys : list jsstr) (out : list Op) : list Op :=
  match keys with
  | [] => out
  | key :: keys =>
      if too_many out then out
      else drop_keys after p keys (if obj_has after key then out else out ++ [OpD (p ++ [SStr key])])
  end.

Definition diffObject (bid aid : positive) (before after : list (jsstr * rev)) (p : path) (out : list Op) : list Op :=
  if existsb reserved (obj_keys before ++ obj_keys after) then
    if equalJson (RObj bid before) (RObj aid after) then out else emitSet p (RObj aid after) out
  else drop_keys after p (obj_keys before) (diff_keys before p after out).
End Recursion.

Fixpoint diffValue (before after : rev) (p : path) (out : list Op) {struct after} : list Op :=
  if strict_eq before after || too_many out then out
  else
    match before, after with
    | RStr b, RStr a => match p with [] => emitSet p after out | _ => emitString b a p out end
    | RArr _ b, RArr _ a => diffArray diffValue b a p out
    | RObj i b, RObj j a => diffObject diffValue i j b a p out
    | _, _ => emitSet p after out
    end.

(** * Costs *)

Definition digits (n : Z) : Z := len (js_of_Z n).

Fixpoint jsonCost (value : json) : Z :=
  match value with
  | JNull => 4
  | JStr s => len s + 2
  | JNum n => len (number_text n)
  | JBool b => if b then 4 else 5
  | JArr l => 2 + (fix go (first : bool) l := match l with
                   | [] => 0
                   | x :: l => jsonCost x + (if first then 0 else 1) + go false l
                   end) true l
  | JObj o => 2 + (fix go (first : bool) o := match o with
                   | [] => 0
                   | (k, x) :: o => len k + 3 + jsonCost x + (if first then 0 else 1) + go false o
                   end) true o
  end.

Definition segment_cost (s : seg) : Z := match s with SStr s => len s + 2 | SNum n => digits (Z.of_N n) end.

Definition pathCost (p : path) : Z :=
  2 + (fix go (first : bool) p := match p with
       | [] => 0
       | s :: p => segment_cost s + (if first then 0 else 1) + go false p
       end) true p.

Definition operationCost (op : Op) : Z :=
  match op with
  | OpR v => 6 + jsonCost v
  | OpS p v => 7 + pathCost p + jsonCost v
  | OpD p => 6 + pathCost p
  | OpA p s => 7 + pathCost p + len s + 2
  | OpT p n => 7 + pathCost p + digits (Z.of_N n)
  | OpP p i r items => 10 + pathCost p + digits (Z.of_N i) + digits (Z.of_N r) + jsonCost (JArr items)
  | OpM p m => 7 + pathCost p + jsonCost (JArr ((fun n => JNum (NInt (Z.of_N n))) <$> m))
  end.

Definition starts_with_replace (ops : list Op) : bool := match ops with OpR _ :: _ => true | _ => false end.

Definition diffRevisions (before after : rev) : list Op :=
  let operations := diffValue before after [] [] in
  if too_many operations then [OpR (erase after)]
  else if bool_decide (operations = []) || starts_with_replace operations then operations
  else
    let deltaCost := foldl (fun cost op => cost + (operationCost op + 1)) 2 operations in
    if deltaCost <? 65536 then operations
    else
      let snapshotCost := jsonCost (erase after) + 6 in
      if snapshotCost <=? deltaCost then [OpR (erase after)] else operations.
