(* ===== verification/StateDiffSpec.v ===== *)
(** The batches of [diffRevisions] turn one revision into the other. *)
From Stdlib Require Import Sorted.
From S2P Require Import Prelude JsBase Json DeltaOps DeltaApply DeltaDiff StateDiff.

(** * Revisions on a heap

    Objects are immutable, so one identity stands for one value in both
    revisions: [h] is that value. *)

Section Heap.
Variable h : positive -> rev.

Inductive grounded : rev -> Prop :=
| grounded_null : grounded RNull
| grounded_bool b : grounded (RBool b)
| grounded_num n : grounded (RNum n)
| grounded_str s : grounded (RStr s)
| grounded_arr id l : h id = RArr id l -> Forall grounded l -> grounded (RArr id l)
| grounded_obj id o : h id = RObj id o -> Forall (fun kv => grounded (snd kv)) o -> grounded (RObj id o).

Definition rev_ok (r : rev) : Prop := grounded r /\ json_wf (erase r).

Abbreviation eqv a b := (json_eqv (erase a) (erase b)).

Lemma rev_ok_arr id l : rev_ok (RArr id l) -> Forall rev_ok l.
Proof using.
  intros [Hg Hw]. inversion Hg as [| | | |? ? _ Hl|]; inversion Hw as [| | | |? Hwl|]; subst.
  rewrite Forall_forall in Hl |- *. intros x Hx. split; [by apply Hl|].
  rewrite Forall_forall in Hwl. apply Hwl. by apply list_elem_of_fmap_2.
Qed.

Lemma rev_ok_obj id o : rev_ok (RObj id o) -> Forall (fun kv => rev_ok (snd kv)) o.
Proof using.
  intros [Hg Hw]. inversion Hg as [| | | | |? ? _ Ho]; inversion Hw as [| | | | |? _ _ Hwo]; subst.
  rewrite Forall_forall in Ho |- *. intros [k x] Hx. split; [by apply (Ho (k, x))|].
  rewrite Forall_forall in Hwo. apply (Hwo (k, erase x)). by apply (list_elem_of_fmap_2 (fun kv => (fst kv, erase (snd kv))) o (k, x)).
Qed.

Lemma obj_get_erase o k : obj_get ((fun kv => (fst kv, erase (snd kv))) <$> o) k = erase <$> obj_get o k.
Proof using. induction o as [|[k' v] o IH]; cbn; [done|]. by case_decide. Qed.

Lemma obj_keys_erase o : obj_keys ((fun kv => (fst kv, erase (snd kv))) <$> o) = obj_keys o.
Proof using. unfold obj_keys. rewrite <- list_fmap_compose. by apply list_fmap_ext. Qed.

Lemma rev_ok_keys id o : rev_ok (RObj id o) -> NoDup (obj_keys o).
Proof using. intros [_ Hw]. inversion Hw as [| | | | |? Hs _ _]; subst. rewrite <- obj_keys_erase. by apply obj_sorted_NoDup. Qed.

Lemma strict_eq_eqv a b : rev_ok a -> rev_ok b -> strict_eq a b = true -> eqv a b.
Proof using.
  intros [Ha Hwa] [Hb Hwb]. destruct a, b; cbn [strict_eq]; try done; intros H.
  - apply Bool.eqb_prop in H. by subst.
  - cbn. inversion Hwa; inversion Hwb; subst. constructor. by apply num_strict_eq_eqv.
  - apply bool_decide_eq_true in H. by subst.
  - apply Pos.eqb_eq in H. subst. inversion Ha; inversion Hb; subst. assert (RArr id0 l = RArr id0 l0) as [= ->] by congruence. done.
  - apply Pos.eqb_eq in H. subst. inversion Ha; inversion Hb; subst. assert (RObj id0 o = RObj id0 o0) as [= ->] by congruence. done.
Qed.

Lemma equalJson_eqv a : forall b, rev_ok a -> rev_ok b -> equalJson a b = true -> eqv a b.
Proof using.
  induction a as [|b0|n0|s0|i l IH|i o IH] using rev_ind; intros b Ha Hb H; cbn [equalJson] in H;
    (apply orb_true_iff in H as [H|H]; [by apply strict_eq_eqv|]); destruct b as [| | | |j r|j r]; try done.
  - apply andb_true_iff in H as [Hlen H]. apply Nat.eqb_eq in Hlen. apply rev_ok_arr in Ha, Hb. constructor.
    revert r Hlen Hb H. induction IH as [|x l Hx _ IHl]; intros [|y r] Hlen Hb H; try done.
    apply andb_true_iff in H as [H1 H2]. apply Forall_cons in Ha as [Hax Ha], Hb as [Hby Hb]. apply Forall2_cons. split; [by apply Hx|].
    apply IHl; [done|by injection Hlen|done|done].
  - apply andb_true_iff in H as [Hlen H]. apply Nat.eqb_eq in Hlen. constructor. intros k. rewrite !obj_get_erase.
    cut (option_Forall2 (fun x y => eqv x y) (obj_get o k) (obj_get r k)); [by destruct 1; constructor|].
    apply obj_eqv_keys; [by eapply rev_ok_keys|by eapply rev_ok_keys|done|].
    apply rev_ok_obj in Ha, Hb. clear Hlen. intros k' a Hin. induction IH as [|[k1 x] o Hx _ IHo]; [by apply elem_of_nil in Hin|].
    apply andb_true_iff in H as [H1 H2]. apply Forall_cons in Ha as [Hax Ha]. apply elem_of_cons in Hin as [[= -> ->]|Hin]; [|by apply IHo].
    destruct (obj_get r k1) as [y|] eqn:Ey; [|done]. exists y. split; [done|]. apply Hx; [done| |done].
    rewrite Forall_forall in Hb. by apply (Hb (k1, y)), obj_get_Some_elem.
Qed.

(** * Permutations *)

Definition rest (ps : list (rev * Positions)) : list N := concat ((fun ke => drop (used (snd ke)) (indices (snd ke))) <$> ps).

(** Every index of an entry is that of an element equal to its key. *)
Definition positions_ok (before : list rev) (ps : list (rev * Positions)) : Prop :=
  Forall (fun ke => rev_ok (fst ke) /\ forall i, i ∈ indices (snd ke) -> exists b, before !! N.to_nat i = Some b /\ eqv (fst ke) b) ps.

Lemma position_of_Some ps v e before :
  positions_ok before ps -> rev_ok v -> position_of ps v = Some e ->
  forall i, i ∈ indices e -> exists b, before !! N.to_nat i = Some b /\ eqv b v.
Proof using.
  intros Hps Hv H. induction Hps as [|[k e'] ps [Hk Hi] _ IH]; cbn in H; [done|].
  destruct (strict_eq k v) eqn:E; [|by apply IH]. injection H as ->. intros i Hin.
  destruct (Hi i Hin) as (b & Hb & He). exists b. split; [done|]. rewrite <- He. by apply strict_eq_eqv.
Qed.

Lemma set_position_ok ps v e e' before :
  positions_ok before ps -> rev_ok v -> position_of ps v = Some e ->
  (forall i, i ∈ indices e' -> i ∈ indices e \/ exists b, before !! N.to_nat i = Some b /\ eqv b v) ->
  positions_ok before (set_position ps v e').
Proof using.
  intros Hps Hv H Hi. induction Hps as [|[k e0] ps [Hk Hik] Hps IH]; cbn in H |- *; [done|].
  destruct (strict_eq k v) eqn:E; [|constructor; [done|by apply IH]]. injection H as ->. constructor; [|done].
  split; [done|]. intros i Hin. destruct (Hi i Hin) as [Hin'|(b & Hb & He)]; [by apply Hik|].
  exists b. split; [done|]. cbn. rewrite He. by apply strict_eq_eqv.
Qed.

Lemma set_position_new ps v e before :
  positions_ok before ps -> rev_ok v -> position_of ps v = None ->
  (forall i, i ∈ indices e -> exists b, before !! N.to_nat i = Some b /\ eqv v b) -> positions_ok before (set_position ps v e).
Proof using.
  intros Hps Hv H Hi. induction Hps as [|[k e0] ps Hk Hps IH]; cbn in H |- *; [by apply Forall_singleton|].
  destruct (strict_eq k v); [done|]. constructor; [done|by apply IH].
Qed.

Lemma rest_set ps v e e' : position_of ps v = Some e ->
  exists l1 l2, rest ps = l1 ++ drop (used e) (indices e) ++ l2 /\ rest (set_position ps v e') = l1 ++ drop (used e') (indices e') ++ l2.
Proof using.
  induction ps as [|[k e0] ps IH]; cbn; [done|]. destruct (strict_eq k v).
  - intros [= ->]. by exists [], (rest ps).
  - intros H. destruct (IH H) as (l1 & l2 & H1 & H2). exists (drop (used e0) (indices e0) ++ l1), l2.
    unfold rest in *. cbn. rewrite H1, H2, <- !app_assoc. done.
Qed.

Lemma rest_new ps v e : position_of ps v = None -> rest (set_position ps v e) = rest ps ++ drop (used e) (indices e).
Proof using.
  unfold rest. induction ps as [|[k e0] ps IH]; cbn; [by rewrite app_nil_r|]. destruct (strict_eq k v); [done|].
  intros H. cbn. by rewrite IH, <- app_assoc.
Qed.

Lemma index_positions_ok before suf : forall i ps,
  drop i before = suf -> Forall rev_ok suf -> positions_ok before ps ->
  (forall n, n ∈ rest ps -> (N.to_nat n < i)%nat) -> NoDup (rest ps) -> Forall (fun ke => used (snd ke) = 0%nat) ps ->
  let ps' := index_positions (N.of_nat i) suf ps in positions_ok before ps' /\ NoDup (rest ps').
Proof using.
  induction suf as [|v suf IH]; intros i ps Hd Hok Hps Hlt Hnd Hu; cbn; [done|].
  apply Forall_cons in Hok as [Hv Hok].
  assert (Hget : before !! i = Some v) by (rewrite <- (Nat.add_0_r i), <- lookup_drop, Hd; done).
  assert (Hi : before !! N.to_nat (N.of_nat i) = Some v) by by rewrite Nat2N.id.
  replace (N.of_nat i + 1)%N with (N.of_nat (S i)) by lia.
  assert (Hd' : drop (S i) before = suf) by (rewrite <- Nat.add_1_r, <- drop_drop, Hd; done).
  assert (Hnew : N.of_nat i ∉ rest ps) by (intros H%Hlt; lia).
  destruct (position_of ps v) as [e|] eqn:E.
  - assert (Hue : used e = 0%nat).
    { clear -Hu E. induction Hu as [|[k e0] ps Hu0 _ IH]; cbn in E; [done|]. destruct (strict_eq k v); [by injection E as <-|by apply IH]. }
    destruct (rest_set ps v e (Positions_ (indices e ++ [N.of_nat i]) (used e)) E) as (l1 & l2 & H1 & H2).
    cbn [used indices] in H2. rewrite Hue, !drop_0 in *.
    assert (Hp : rest (set_position ps v (Positions_ (indices e ++ [N.of_nat i]) 0)) ≡ₚ N.of_nat i :: rest ps).
    { rewrite H2, H1. rewrite <- !app_assoc. cbn. by rewrite <- !Permutation_middle. }
    apply IH; [done|done| | | |].
    + eapply set_position_ok; [done|done|done|]. cbn. intros n [Hn| ->%list_elem_of_singleton]%elem_of_app; [by left|right; by exists v].
    + intros n. rewrite Hp, elem_of_cons. intros [->|H%Hlt]; lia.
    + rewrite Hp. by apply NoDup_cons.
    + clear -Hu E. induction Hu as [|[k e0] ps Hu0 Hu IH]; cbn in *; [done|]. destruct (strict_eq k v); constructor; auto.
  - assert (Hp : rest (set_position ps v (Positions_ [N.of_nat i] 0)) ≡ₚ N.of_nat i :: rest ps).
    { rewrite rest_new by done. cbn. by rewrite <- Permutation_cons_append. }
    apply IH; [done|done| | | |].
    + eapply set_position_new; [done|done|done|]. cbn. intros n ->%list_elem_of_singleton. by exists v.
    + intros n. rewrite Hp, elem_of_cons. intros [->|H%Hlt]; lia.
    + rewrite Hp. by apply NoDup_cons.
    + clear -Hu E. induction Hu as [|[k e0] ps Hu0 Hu IH]; cbn in *; [by repeat constructor|].
      destruct (strict_eq k v); [done|]. constructor; auto.
Qed.

Lemma take_positions_ok before after : forall ps acc m,
  Forall rev_ok after -> positions_ok before ps -> NoDup (acc ++ rest ps) -> take_positions after ps acc = Some m ->
  exists new, m = acc ++ new /\ NoDup m /\
    Forall2 (fun i a => exists b, before !! N.to_nat i = Some b /\ eqv b a) new after.
Proof using.
  induction after as [|v after IH]; intros ps acc m Hok Hps Hnd H; cbn in H.
  - injection H as <-. exists []. rewrite app_nil_r. split_and!; [done| |done]. by apply NoDup_app in Hnd as [? _].
  - apply Forall_cons in Hok as [Hv Hok]. destruct (position_of ps v) as [e|] eqn:E; [|done].
    destruct (indices e !! used e) as [i|] eqn:Ei; [|done].
    set (e' := Positions_ (indices e) (S (used e))) in H.
    destruct (rest_set ps v e e' E) as (l1 & l2 & H1 & H2). rewrite (drop_S _ i) in H1 by done. cbn [e' used indices] in H2.
    destruct (IH (set_position ps v e') (acc ++ [i]) m) as (new & -> & Hm & Hnew); [done| | |done|].
    + eapply set_position_ok; [done|done|done|]. intros n Hn. by left.
    + rewrite H2. rewrite H1 in Hnd. eapply NoDup_Permutation_proper; [|exact Hnd]. rewrite <- app_assoc. apply Permutation_app_head.
      cbn. by rewrite Permutation_middle.
    + exists (i :: new). rewrite <- app_assoc in Hm |- *. split_and!; [done|done|]. constructor; [|done].
      eapply position_of_Some; [done|done|done|]. by apply list_elem_of_lookup_2 in Ei.
Qed.

(** A permutation found is one, and puts equal elements in place. *)
Lemma permutation_ok before after m :
  Forall rev_ok before -> Forall rev_ok after -> permutation before after = Some m ->
  length m = length before /\ is_permutation m /\
  Forall2 (fun i a => exists b, before !! N.to_nat i = Some b /\ eqv b a) m after.
Proof using.
  intros Hb Ha. unfold permutation. destruct (length before =? length after)%nat eqn:El; [|done]. cbn [negb]. intros H.
  apply Nat.eqb_eq in El.
  destruct (index_positions_ok before before 0 []) as [Hps Hnd]; [done|done|constructor| |constructor|constructor|].
  { intros n Hn. by apply elem_of_nil in Hn. }
  destruct (take_positions_ok before after _ [] m Ha Hps Hnd H) as (new & E & Hm & Hnew). cbn in E. subst new.
  pose proof (Forall2_length _ _ _ Hnew) as Hlen. split_and!; [lia| |done]. split; [done|]. apply Forall_forall. intros i Hi.
  apply list_elem_of_lookup in Hi as [j Hj]. destruct (Forall2_lookup_l _ _ _ _ _ Hnew Hj) as (a & _ & b & Hb' & _).
  apply lookup_lt_Some in Hb'. lia.
Qed.

(** * What a batch does *)

(** The operations pushed are valid and, unless the batch is too long, turn
    [before] into [after] at [p]. *)
Definition emits (before after : rev) (p : path) (f : list Op -> list Op) : Prop :=
  forall out, exists new, f out = out ++ new /\ Forall op_wf new /\
    (too_many (out ++ new) = false -> forall root, get_at root p = Some (erase before) -> turns_into new root p (erase after)).

Lemma too_many_app out new : too_many (out ++ new) = false -> too_many out = false.
Proof using. unfold too_many. rewrite len_app. pose proof (len_nonneg new). rewrite !Z.ltb_ge. lia. Qed.

(** Pushing a fixed list of operations. *)
Lemma emits_push before after p new :
  Forall op_wf new -> (forall root, get_at root p = Some (erase before) -> turns_into new root p (erase after)) ->
  emits before after p (fun out => out ++ new).
Proof using. intros H1 H2 out. by exists new. Qed.

Lemma emits_nothing before after p : eqv before after -> emits before after p (fun out => out).
Proof using. intros H out. exists []. rewrite app_nil_r. split_and!; [done|done|]. intros _ root Hr. by eapply turns_into_nil. Qed.

Lemma emits_ext before after p f g : (forall out, f out = g out) -> emits before after p g -> emits before after p f.
Proof using. intros E H out. rewrite E. apply H. Qed.

Lemma emits_emitSet before after p : path_wf p -> rev_ok after -> emits before after p (emitSet p after).
Proof using.
  intros Hp [_ Ha]. apply (emits_ext _ _ _ _ (fun out => out ++ DeltaDiff.emitSet p (erase after))).
  - intros out. unfold emitSet, DeltaDiff.emitSet. rewrite cloneJson_id by done. by destruct p.
  - apply emits_push; [by apply emitSet_op_wf|]. intros root Hr. by eapply turns_into_emitSet.
Qed.

Lemma emits_emitString b a p : path_wf p -> p <> [] -> str_wf a -> emits (RStr b) (RStr a) p (emitString b a p).
Proof using.
  intros Hp Hne Ha. apply (emits_ext _ _ _ _ (fun out => out ++ diffString DEFAULT_OVERLAP_SCAN b a p)).
  - intros out. unfold emitString, diffString. rewrite (bool_decide_false (p = [])) by done.
    split_if; [by rewrite app_nil_r|]. split_if; [done|]. split_if; [done|]. split_if; [|done]. by rewrite <- app_assoc.
  - apply emits_push; [by apply diffString_op_wf|]. intros root Hr. by apply diffString_turns.
Qed.

(** * Arrays *)

Abbreviation eqvs l r := (Forall2 (fun x y => eqv x y) l r).

Lemma eqvs_refl l : eqvs l l.
Proof using. by induction l; constructor. Qed.

Lemma eqvs_sym l r : eqvs l r -> eqvs r l.
Proof using. induction 1; constructor; [by symmetry|done]. Qed.

Lemma eqvs_erase l r : eqvs l r -> Forall2 json_eqv (erase <$> l) (erase <$> r).
Proof using. intros H. by apply Forall2_fmap. Qed.

Lemma eqvs_arr i l r : eqvs l r -> json_eqv (JArr (erase <$> l)) (erase (RArr i r)).
Proof using. intros H. constructor. by apply eqvs_erase. Qed.

Lemma permute_turns before after p i m root :
  Forall rev_ok before -> Forall rev_ok after -> permutation before after = Some m ->
  get_at root p = Some (JArr (erase <$> before)) -> turns_into [OpM p m] root p (erase (RArr i after)).
Proof using.
  intros Hb Ha Hm Hg. destruct (permutation_ok _ _ _ Hb Ha Hm) as (Hlen & Hperm & Hnew).
  exists (JArr (omap (nth_N (erase <$> before)) m)). split.
  - cbn [foldM]. assert (applyOp (Some root) (OpM p m) = Ok (Some (put_at root p (JArr (omap (nth_N (erase <$> before)) m))))) as ->; [|done].
    cbn [applyOp]. apply on_container_Ok. do 3 eexists. split; [done|]. split; [done|]. split; [done|]. split; [|done].
    unfold permute_op. rewrite length_fmap, Hlen, Nat.eqb_refl. done.
  - constructor. clear Hlen Hperm Hm Hg Ha. induction Hnew as [|n a m after (b & Hget & He) _ IH]; [constructor|].
    cbn [omap list_omap]. rewrite nth_N_lookup, list_lookup_fmap, Hget. by constructor.
Qed.

Lemma same_elements_eqv long : forall short,
  Forall rev_ok long -> Forall rev_ok short -> same_elements long short = true -> (length long <= length short)%nat ->
  eqvs long (take (length long) short).
Proof using.
  induction long as [|x long IH]; intros [|y short] Hl Hs H Hlen; cbn in *; try lia; try constructor;
    apply andb_true_iff in H as [H1 H2]; apply Forall_cons in Hl as [Hx Hl], Hs as [Hy Hs].
  - by apply strict_eq_eqv.
  - apply IH; [done|done|done|lia].
Qed.

Lemma shift_loop_Some long short fuel : forall offset c k,
  shift_loop long short fuel offset c = Some k -> (offset <= k < offset + fuel)%nat /\ same_elements (drop k long) short = true.
Proof using.
  induction fuel as [|fuel IH]; intros offset [|c] k; cbn; try done. split_if; [intros H%IH; split; [lia|tauto]|].
  split_if; [intros [= <-]; split; [lia|done]|]. intros H%IH. split; [lia|tauto].
Qed.

(** Two splices at once. *)
Lemma two_splices root p l i1 r1 items1 i2 r2 items2 l1 l2 v :
  get_at root p = Some (JArr l) -> (N.to_nat i1 <= length l)%nat ->
  l1 = take (N.to_nat i1) l ++ items1 ++ drop (N.to_nat i1 + N.to_nat r1) l -> (N.to_nat i2 <= length l1)%nat ->
  l2 = take (N.to_nat i2) l1 ++ items2 ++ drop (N.to_nat i2 + N.to_nat r2) l1 -> json_eqv (JArr l2) v ->
  turns_into [OpP p i1 r1 items1; OpP p i2 r2 items2] root p v.
Proof using.
  intros Hg H1 -> H2 -> Hv. eexists. split; [|exact Hv]. cbn [foldM]. rewrite (splice_apply root p l) by done.
  cbn [mbind result_bind]. rewrite (splice_apply _ p _ i2 r2 items2 (get_put_at _ _ _ _ Hg)) by done.
  cbn [mbind result_bind]. by erewrite put_put_at by done.
Qed.

Lemma shift_removed_turns before after p i root k :
  Forall rev_ok before -> Forall rev_ok after -> length before = length after -> (1 <= k < length before)%nat ->
  same_elements (drop k before) after = true -> get_at root p = Some (JArr (erase <$> before)) ->
  turns_into [OpP p 0 (N.of_nat k) []; OpP p (N.of_nat (length before - k)) 0 (erase <$> drop (length before - k) after)]
    root p (erase (RArr i after)).
Proof using.
  intros Hb Ha Hlen Hk Hs Hg. apply same_elements_eqv in Hs; [|by apply Forall_drop|done|rewrite length_drop; lia].
  rewrite length_drop in Hs.
  eapply (two_splices root p (erase <$> before)); [done|cbn; lia|reflexivity| |reflexivity|].
  - change (N.to_nat 0) with 0%nat. rewrite take_0, ?Nat2N.id. cbn [app Nat.add]. rewrite ?Nat2N.id. rewrite length_drop, length_fmap. lia.
  - change (N.to_nat 0) with 0%nat. rewrite take_0, ?Nat2N.id. cbn [app Nat.add]. rewrite ?Nat2N.id, Nat.add_0_r, <- fmap_drop.
    rewrite (take_ge (erase <$> drop k before)), (drop_ge (erase <$> drop k before)), app_nil_r by (rewrite length_fmap, length_drop; lia).
    rewrite <- fmap_app. apply eqvs_arr. rewrite <- (take_drop (length before - k) after) at 2.
    apply Forall2_app; [done|apply eqvs_refl].
Qed.

Lemma shift_inserted_turns before after p i root k :
  Forall rev_ok before -> Forall rev_ok after -> length before = length after -> (1 <= k < length before)%nat ->
  same_elements (drop k after) before = true -> get_at root p = Some (JArr (erase <$> before)) ->
  turns_into [OpP p 0 0 (erase <$> take k after); OpP p (N.of_nat (length before)) (N.of_nat k) []] root p (erase (RArr i after)).
Proof using.
  intros Hb Ha Hlen Hk Hs Hg. apply same_elements_eqv in Hs; [|by apply Forall_drop|done|rewrite length_drop; lia].
  rewrite length_drop in Hs.
  eapply (two_splices root p (erase <$> before)); [done|cbn; lia|reflexivity| |reflexivity|].
  - change (N.to_nat 0) with 0%nat. rewrite take_0, ?Nat2N.id. cbn [app Nat.add]. rewrite ?Nat2N.id, drop_0, length_app, !length_fmap, length_take. lia.
  - change (N.to_nat 0) with 0%nat. rewrite take_0, ?Nat2N.id. cbn [app Nat.add]. rewrite ?Nat2N.id, drop_0, <- fmap_app.
    rewrite (drop_ge _ (length before + k)) by (rewrite length_fmap, length_app, length_take; lia).
    rewrite app_nil_r, <- fmap_take. apply eqvs_arr. rewrite take_app, length_take.
    rewrite (take_ge (take k after)) by (rewrite length_take; lia).
    replace (length before - (k `min` length after))%nat with (length after - k)%nat by lia.
    cut (eqvs (take k after ++ take (length after - k) before) (take k after ++ drop k after)); [by rewrite take_drop|].
    apply Forall2_app; [apply eqvs_refl|by apply eqvs_sym].
Qed.

Lemma common_eqv room : forall before after,
  Forall rev_ok before -> Forall rev_ok after ->
  let n := common room before after in (n <= room)%nat /\ eqvs (take n before) (take n after).
Proof using.
  induction room as [|room IH]; intros [|b before] [|a after] Hb Ha; cbn; try (split; [lia|constructor]).
  apply Forall_cons in Hb as [Hb0 Hb], Ha as [Ha0 Ha]. destruct (equalJson b a) eqn:E; [|split; [lia|constructor]].
  destruct (IH before after Hb Ha) as [H1 H2]. split; [lia|]. cbn. constructor; [by apply equalJson_eqv|done].
Qed.

Lemma common_suffix_eqv room before after :
  Forall rev_ok before -> Forall rev_ok after ->
  let n := common room (List.rev before) (List.rev after) in
  (n <= room)%nat /\ eqvs (drop (length before - n) before) (drop (length after - n) after).
Proof using.
  intros Hb Ha. destruct (common_eqv room (List.rev before) (List.rev after)) as [H1 H2]; [by apply Forall_rev..|].
  split; [done|]. apply Forall2_rev in H2. by rewrite !firstn_rev, !rev_involutive in H2.
Qed.

(** The splice of arrays of different lengths. *)
Lemma resize_turns before after p i root :
  Forall rev_ok before -> Forall rev_ok after -> get_at root p = Some (JArr (erase <$> before)) ->
  let shortest := Nat.min (length before) (length after) in
  let prefix := common shortest before after in
  let suffix := common (shortest - prefix) (List.rev before) (List.rev after) in
  turns_into [OpP p (N.of_nat prefix) (N.of_nat (length before - prefix - suffix))
      (erase <$> take (length after - suffix - prefix) (drop prefix after))] root p (erase (RArr i after)).
Proof using.
  intros Hb Ha Hg shortest. destruct (common_eqv shortest before after Hb Ha) as [Hp1 Hp2].
  set (prefix := common shortest before after) in *. intros prefix'. subst prefix'.
  destruct (common_suffix_eqv (shortest - prefix) before after Hb Ha) as [Hs1 Hs2].
  set (suffix := common (shortest - prefix) _ _) in *. clearbody prefix suffix. cbn zeta.
  eexists. split.
  { cbn [foldM]. rewrite (splice_apply root p (erase <$> before)) by (done || (rewrite length_fmap; lia)). reflexivity. }
  rewrite !Nat2N.id, <- fmap_take, <- fmap_drop, <- !fmap_app. apply eqvs_arr.
  replace (prefix + (length before - prefix - suffix))%nat with (length before - suffix)%nat by lia.
  cut (eqvs (take prefix before ++ take (length after - suffix - prefix) (drop prefix after) ++ drop (length before - suffix) before)
    (take prefix after ++ take (length after - suffix - prefix) (drop prefix after) ++ drop (length after - suffix - prefix) (drop prefix after))).
  { by rewrite !take_drop. }
  apply Forall2_app; [done|]. apply Forall2_app; [apply eqvs_refl|]. rewrite drop_drop.
  by replace (prefix + (length after - suffix - prefix))%nat with (length after - suffix)%nat by lia.
Qed.

(** * The differ *)

Section Differ.
Variable dv : rev -> rev -> path -> list Op -> list Op.

Definition differ_ok (after : rev) : Prop :=
  forall before p, path_wf p -> rev_ok before -> rev_ok after -> emits before after p (dv before after p).

Lemma diff_indices_emits p after : path_wf p -> forall before pre out,
  length before = length after -> Forall differ_ok after -> Forall rev_ok before -> Forall rev_ok after ->
  exists new, diff_indices dv p (N.of_nat (length pre)) before after out = out ++ new /\ Forall op_wf new /\
    (too_many (out ++ new) = false -> forall root, get_at root p = Some (JArr (pre ++ (erase <$> before))) ->
     exists l, foldM applyOp (Some root) new = Ok (Some (put_at root p (JArr (pre ++ l)))) /\ Forall2 json_eqv l (erase <$> after)).
Proof using.
  intros Hp. induction after as [|a after IH]; intros [|b before] pre out Hlen Hdv Hb Ha; try done.
  { exists []. cbn. rewrite app_nil_r. split_and!; [done|done|]. intros _ root Hg. exists []. by rewrite put_get_at. }
  apply Forall_cons in Hdv as [Hd Hdv], Hb as [Hb0 Hb], Ha as [Ha0 Ha]. cbn [diff_indices].
  destruct (too_many out) eqn:Et.
  { exists []. rewrite app_nil_r. split_and!; [done|done|congruence]. }
  destruct (Hd b (p ++ [SNum (N.of_nat (length pre))])) with (out := out) as (new1 & E1 & W1 & T1); [by apply path_wf_snoc|done|done|].
  assert (Hidx : forall v, N.of_nat (length (pre ++ [v : json])) = (N.of_nat (length pre) + 1)%N) by (intros; rewrite length_app; cbn; lia).
  rewrite <- (Hidx JNull), E1.
  destruct (IH before (pre ++ [JNull]) (out ++ new1)) as (new2 & E2 & W2 & _); [by injection Hlen|done|done|done|].
  exists (new1 ++ new2). rewrite E2, app_assoc. split_and!; [done|by apply Forall_app|]. intros Hmany root Hg.
  rewrite fmap_cons in Hg.
  assert (Hrc : read_child (JArr (pre ++ erase b :: (erase <$> before))) (SNum (N.of_nat (length pre))) = Some (erase b)).
  { cbn. rewrite nth_N_lookup, Nat2N.id. by apply list_lookup_middle. }
  destruct (T1 (too_many_app _ _ Hmany) root) as (v & Hf & Hv); [apply get_at_snoc; eauto|].
  erewrite put_at_snoc in Hf by done.
  assert (put_child (JArr (pre ++ erase b :: (erase <$> before))) (SNum (N.of_nat (length pre))) v = JArr ((pre ++ [v]) ++ (erase <$> before))) as Hpc.
  { cbn. rewrite Nat2N.id, insert_app_r_alt, Nat.sub_diag by lia. cbn. by rewrite <- app_assoc. }
  rewrite Hpc in Hf.
  destruct (IH before (pre ++ [v]) (out ++ new1)) as (new2' & E2' & _ & T2); [by injection Hlen|done|done|done|].
  assert (new2' = new2) as ->.
  { rewrite (Hidx v), <- (Hidx JNull), E2 in E2'. by apply app_inv_head in E2'. }
  destruct (T2 Hmany (put_at root p (JArr ((pre ++ [v]) ++ (erase <$> before))))) as (l & Hl & He); [by eapply get_put_at|].
  exists (v :: l). rewrite foldM_app, Hf. cbn [mbind result_bind]. rewrite Hl. erewrite put_put_at by done.
  rewrite <- app_assoc. split; [done|]. by constructor.
Qed.

Lemma indices_emits p i j before after :
  path_wf p -> length before = length after -> Forall differ_ok after -> Forall rev_ok before -> Forall rev_ok after ->
  emits (RArr i before) (RArr j after) p (diff_indices dv p 0 before after).
Proof using.
  intros Hp Hlen Hdv Hb Ha out. destruct (diff_indices_emits p after Hp before [] out Hlen Hdv Hb Ha) as (new & E & W & T).
  exists new. split_and!; [done|done|]. intros Hm root Hg. destruct (T Hm root Hg) as (l & Hl & He). exists (JArr l).
  split; [done|]. by constructor.
Qed.

Lemma mismatches_0 before : forall after,
  length before = length after -> Forall rev_ok before -> Forall rev_ok after -> mismatches before after = 0%nat -> eqvs before after.
Proof using.
  induction before as [|b before IH]; intros [|a after] Hlen Hb Ha H; try done. cbn in H.
  apply Forall_cons in Hb as [Hb0 Hb], Ha as [Ha0 Ha]. destruct (strict_eq b a) eqn:E; [|lia].
  constructor; [by apply strict_eq_eqv|]. apply IH; [by injection Hlen|done|done|done].
Qed.

Lemma erase_wf_list l : Forall rev_ok l -> Forall json_wf (erase <$> l).
Proof using. intros H. apply Forall_fmap. eapply Forall_impl; [exact H|]. by intros x [_ Hx]. Qed.

Lemma path_wf_op p op : path_wf p -> op_path op = p ->
  match op with OpM _ m => is_permutation m | OpP _ _ _ items => Forall json_wf items | _ => False end -> op_wf op.
Proof using. intros [Hp1 Hp2] <-. destruct op; try done; intros H; (split; [split|split]); done. Qed.

Lemma reorder_emits p i j before after out out' :
  path_wf p -> length before = length after -> Forall rev_ok before -> Forall rev_ok after ->
  reorder before after p out = Some out' ->
  exists new, out' = out ++ new /\ Forall op_wf new /\
    (too_many (out ++ new) = false -> forall root, get_at root p = Some (erase (RArr i before)) -> turns_into new root p (erase (RArr j after))).
Proof using.
  intros Hp Hlen Hb Ha. unfold reorder. destruct (permutation before after) as [m|] eqn:Em.
  { intros [= <-]. exists [OpM p m]. split_and!; [done| |].
    - apply Forall_singleton. eapply path_wf_op; [done|done|]. by destruct (permutation_ok _ _ _ Hb Ha Em) as (_ & ? & _).
    - intros _ root Hg. exact (permute_turns before after p j m root Hb Ha Em Hg). }
  unfold emitSameLengthShift. split_if; [done|].
  destruct (shift_loop before after _ _ _) as [k|] eqn:Ek.
  { apply shift_loop_Some in Ek as [Hk Hs]. intros [= <-]. eexists. split_and!; [done| |].
    - apply Forall_cons. split; [by eapply path_wf_op|]. apply Forall_singleton. eapply path_wf_op; [done|done|].
      by apply erase_wf_list, Forall_drop.
    - intros _ root Hg. apply shift_removed_turns; [done|done|done|lia|done|done]. }
  destruct (shift_loop after before _ _ _) as [k|] eqn:Ek'; [|done].
  apply shift_loop_Some in Ek' as [Hk Hs]. intros [= <-]. eexists. split_and!; [done| |].
  - apply Forall_cons. split; [|apply Forall_singleton; by eapply path_wf_op]. eapply path_wf_op; [done|done|].
    by apply erase_wf_list, Forall_take.
  - intros _ root Hg. apply shift_inserted_turns; [done|done|done|lia|done|done].
Qed.

Lemma diffArray_emits p i j before after :
  path_wf p -> Forall differ_ok after -> Forall rev_ok before -> Forall rev_ok after ->
  emits (RArr i before) (RArr j after) p (diffArray dv before after p).
Proof using.
  intros Hp Hdv Hb Ha. unfold diffArray. destruct (length before =? length after)%nat eqn:El.
  - apply Nat.eqb_eq in El. pose proof (indices_emits p i j before after Hp El Hdv Hb Ha) as Hidx.
    destruct (mismatches before after) as [|[|n]] eqn:Em; [|done|].
    + apply emits_nothing. by apply eqvs_arr, mismatches_0.
    + intros out. destruct (reorder before after p out) as [out'|] eqn:Er; [by eapply reorder_emits|apply Hidx].
  - apply (emits_push (RArr i before) (RArr j after)).
    + apply Forall_singleton. eapply path_wf_op; [done|done|]. by apply erase_wf_list, Forall_take, Forall_drop.
    + intros root Hg. by apply resize_turns.
Qed.

(** * Objects *)

Abbreviation erase_obj o := ((fun kv => (fst kv, erase (snd kv))) <$> o).

Lemma emitSet_new_emits p k a out :
  path_wf p -> str_wf k -> reserved k = false -> rev_ok a ->
  exists new, emitSet (p ++ [SStr k]) a out = out ++ new /\ Forall op_wf new /\
    forall root o, get_at root p = Some (JObj o) ->
    foldM applyOp (Some root) new = Ok (Some (put_at root p (JObj (obj_set o k (erase a))))).
Proof using.
  intros Hp Hk Hr [_ Ha]. exists (DeltaDiff.emitSet (p ++ [SStr k]) (erase a)). split_and!.
  - unfold emitSet, DeltaDiff.emitSet. rewrite cloneJson_id by done. by destruct p.
  - apply emitSet_op_wf; [|done]. apply path_wf_snoc; [done| |done]. cbn. by rewrite Hr.
  - intros root o Hg. rewrite (emitSet_new root p k (erase a) o Hg). by rewrite cloneJson_id.
Qed.

(** The entry of one key, whatever the object holds by then. *)
Definition key_step (before : list (jsstr * rev)) (p : path) (k : jsstr) (a : rev) (out : list Op) : list Op :=
  match obj_get before k with
  | Some b => dv b a (p ++ [SStr k]) out
  | None => emitSet (p ++ [SStr k]) a out
  end.

Lemma key_step_emits before p k a out :
  path_wf p -> differ_ok a -> str_wf k -> reserved k = false -> rev_ok a -> (forall b, obj_get before k = Some b -> rev_ok b) ->
  exists new, key_step before p k a out = out ++ new /\ Forall op_wf new /\
    (too_many (out ++ new) = false -> forall root o, get_at root p = Some (JObj o) -> obj_get o k = erase <$> obj_get before k ->
     exists v, foldM applyOp (Some root) new = Ok (Some (put_at root p (JObj (obj_set o k v)))) /\ json_eqv v (erase a)).
Proof using.
  intros Hp Hd Hk Hr Ha Hb. unfold key_step. destruct (obj_get before k) as [b|] eqn:Eb.
  - destruct (Hd b (p ++ [SStr k])) with (out := out) as (new & E & W & T);
      [apply path_wf_snoc; [done|cbn; by rewrite Hr|done]|by apply Hb|done|].
    exists new. split_and!; [done|done|]. intros Hm root o Hg Ho.
    assert (Hrc : read_child (JObj o) (SStr k) = Some (erase b)) by exact Ho.
    destruct (T Hm root) as (v & Hf & Hv); [apply get_at_snoc; eauto|]. exists v. split; [|done].
    rewrite Hf. by erewrite put_at_snoc by done.
  - destruct (emitSet_new_emits p k a out Hp Hk Hr Ha) as (new & E & W & T). exists new. split_and!; [done|done|].
    intros _ root o Hg _. exists (erase a). split; [by apply T|done].
Qed.

Lemma diff_keys_emits before p l : forall out,
  path_wf p -> Forall (fun kv => differ_ok (snd kv)) l -> Forall (fun kv => rev_ok (snd kv)) l ->
  Forall (fun k => str_wf k /\ reserved k = false) (obj_keys l) -> NoDup (obj_keys l) ->
  (forall k b, obj_get before k = Some b -> rev_ok b) ->
  exists new, diff_keys dv before p l out = out ++ new /\ Forall op_wf new /\
    (too_many (out ++ new) = false -> forall root o, get_at root p = Some (JObj o) ->
     (forall k, k ∈ obj_keys l -> obj_get o k = erase <$> obj_get before k) ->
     exists o', foldM applyOp (Some root) new = Ok (Some (put_at root p (JObj o'))) /\
       (forall k a, (k, a) ∈ l -> exists v, obj_get o' k = Some v /\ json_eqv v (erase a)) /\
       (forall k, k ∉ obj_keys l -> obj_get o' k = obj_get o k)).
Proof using.
  induction l as [|[k a] l IH]; intros out Hp Hdv Ha Hk Hnd Hb.
  { exists []. cbn. rewrite app_nil_r. split_and!; [done|done|]. intros _ root o Hg _. exists o.
    rewrite put_get_at by done. split_and!; [done| |done]. by intros ? ? ?%elem_of_nil. }
  apply Forall_cons in Hdv as [Hd Hdv], Ha as [Ha0 Ha], Hk as [[Hk0 Hr0] Hk]. apply NoDup_cons in Hnd as [Hni Hnd].
  cbn [diff_keys fst snd] in *. destruct (too_many out) eqn:Et.
  { exists []. rewrite app_nil_r. split_and!; [done|done|congruence]. }
  change (match obj_get before k with Some b => dv b a (p ++ [SStr k]) out | None => emitSet (p ++ [SStr k]) a out end)
    with (key_step before p k a out).
  destruct (key_step_emits before p k a out Hp Hd Hk0 Hr0 Ha0 (Hb k)) as (new1 & E1 & W1 & T1). rewrite E1.
  destruct (IH (out ++ new1) Hp Hdv Ha Hk Hnd Hb) as (new2 & E2 & W2 & T2).
  exists (new1 ++ new2). rewrite E2, app_assoc. split_and!; [done|by apply Forall_app|]. intros Hm root o Hg Ho.
  destruct (T1 (too_many_app _ _ Hm) root o Hg) as (v & Hf & Hv); [apply Ho; by left|].
  destruct (T2 Hm (put_at root p (JObj (obj_set o k v))) (obj_set o k v)) as (o' & Hf' & Hin & Hout); [by eapply get_put_at| |].
  { intros k' Hk'. rewrite obj_get_set, decide_False; [apply Ho; by right|]. by intros <-. }
  exists o'. rewrite foldM_app, Hf. cbn [mbind result_bind]. rewrite Hf'. erewrite put_put_at by done. split_and!; [done| |].
  - intros k' a' [[= -> ->]|Hin']%elem_of_cons; [|by apply Hin]. rewrite Hout by done. rewrite obj_get_set, decide_True by done. eauto.
  - intros k' Hk'. cbn in Hk'. apply not_elem_of_cons in Hk' as [Hne Hk']. rewrite Hout by done. by rewrite obj_get_set, decide_False.
Qed.

Lemma drop_keys_emits after p ks : forall out,
  path_wf p -> Forall (fun k => str_wf k /\ reserved k = false) ks ->
  exists new, drop_keys after p ks out = out ++ new /\ Forall op_wf new /\
    (too_many (out ++ new) = false -> forall root o, get_at root p = Some (JObj o) ->
     exists o', foldM applyOp (Some root) new = Ok (Some (put_at root p (JObj o'))) /\
       forall k, obj_get o' k = if decide (k ∈ ks /\ obj_has after k = false) then None else obj_get o k).
Proof using.
  induction ks as [|k ks IH]; intros out Hp Hk.
  { exists []. cbn. rewrite app_nil_r. split_and!; [done|done|]. intros _ root o Hg. exists o. rewrite put_get_at by done.
    split; [done|]. intros k. rewrite decide_False; [done|]. by intros [?%elem_of_nil _]. }
  apply Forall_cons in Hk as [[Hk0 Hr0] Hk]. cbn [drop_keys]. destruct (too_many out) eqn:Et.
  { exists []. rewrite app_nil_r. split_and!; [done|done|congruence]. }
  destruct (obj_has after k) eqn:Eh.
  - destruct (IH out Hp Hk) as (new & E & W & T). exists new. split_and!; [done|done|]. intros Hm root o Hg.
    destruct (T Hm root o Hg) as (o' & Hf & Ho'). exists o'. split; [done|]. intros k'. rewrite Ho'.
    apply decide_ext. rewrite elem_of_cons. intuition congruence.
  - destruct (IH (out ++ [OpD (p ++ [SStr k])]) Hp Hk) as (new & E & W & T). exists (OpD (p ++ [SStr k]) :: new).
    rewrite E, <- app_assoc. split_and!; [done| |].
    + apply Forall_cons. split; [|done].
      destruct (path_wf_snoc p (SStr k) Hp) as [H1 H2]; [cbn; by rewrite Hr0|done|].
      split; [split; [done|cbn; by destruct p]|]. split; done.
    + intros Hm root o Hg. rewrite <- app_assoc in T.
      destruct (T Hm (put_at root p (JObj (obj_delete o k))) (obj_delete o k)) as (o' & Hf & Ho'); [by eapply get_put_at|].
      exists o'. change (OpD (p ++ [SStr k]) :: new) with (emitDelete (p ++ [SStr k]) ++ new).
      rewrite foldM_app, (emitDelete_apply _ _ _ _ Hg). cbn [mbind result_bind]. rewrite Hf.
      split; [by erewrite put_put_at by done|]. intros k'. rewrite Ho', obj_get_delete.
      destruct (decide (k = k')) as [->|].
      * rewrite (decide_True (P := k' ∈ k' :: ks /\ _)); [by case_decide|]. split; [by left|done].
      * apply decide_ext. rewrite elem_of_cons. intuition congruence.
Qed.

Lemma rev_ok_key_wf id o : rev_ok (RObj id o) -> Forall str_wf (obj_keys o).
Proof using.
  intros [_ Hw]. inversion Hw as [| | | | |? _ Hk _]; subst.
  rewrite <- obj_keys_erase. unfold obj_keys. by apply Forall_fmap.
Qed.

Lemma keys_safe (l1 l2 : list (jsstr * rev)) ks :
  existsb reserved (obj_keys l1 ++ obj_keys l2) = false -> ks = obj_keys l1 \/ ks = obj_keys l2 -> Forall str_wf ks ->
  Forall (fun k => str_wf k /\ reserved k = false) ks.
Proof using.
  intros H Hks Hw. rewrite Forall_forall in Hw |- *. intros k Hk. split; [by apply Hw|].
  apply not_true_iff_false. intros Hr. apply not_true_iff_false in H. apply H, existsb_exists. exists k.
  split; [|done]. apply list_elem_of_In, elem_of_app. destruct Hks as [-> | ->]; auto.
Qed.

Lemma diffObject_emits p i j before after :
  path_wf p -> Forall (fun kv => differ_ok (snd kv)) after -> rev_ok (RObj i before) -> rev_ok (RObj j after) ->
  emits (RObj i before) (RObj j after) p (diffObject dv i j before after p).
Proof using.
  intros Hp Hdv Hb Ha. unfold diffObject. destruct (existsb reserved _) eqn:Er.
  { destruct (equalJson (RObj i before) (RObj j after)) eqn:E; [by apply emits_nothing, equalJson_eqv|by apply emits_emitSet]. }
  intros out. pose proof (rev_ok_obj _ _ Hb) as Hbv. pose proof (rev_ok_obj _ _ Ha) as Hav.
  destruct (diff_keys_emits before p after out Hp Hdv Hav) as (new1 & E1 & W1 & T1).
  { eapply keys_safe; [done|by right|by eapply rev_ok_key_wf]. }
  { by eapply rev_ok_keys. }
  { intros k b Hk%obj_get_Some_elem. rewrite Forall_forall in Hbv. by apply (Hbv (k, b)). }
  destruct (drop_keys_emits after p (obj_keys before) (out ++ new1) Hp) as (new2 & E2 & W2 & T2).
  { eapply keys_safe; [done|by left|by eapply rev_ok_key_wf]. }
  exists (new1 ++ new2). rewrite E1, E2, app_assoc. split_and!; [done|by apply Forall_app|]. intros Hm root Hg.
  destruct (T1 (too_many_app _ _ Hm) root _ Hg) as (o1 & Hf1 & Hin & Hout); [intros k _; apply obj_get_erase|].
  destruct (T2 Hm (put_at root p (JObj o1)) o1) as (o2 & Hf2 & Hdel); [by eapply get_put_at|].
  exists (JObj o2). rewrite foldM_app, Hf1. cbn [mbind result_bind]. rewrite Hf2. split; [by erewrite put_put_at by done|].
  constructor. intros k. rewrite Hdel, obj_get_erase. destruct (obj_get after k) as [a|] eqn:Ek.
  - rewrite decide_False by (unfold obj_has; rewrite Ek; naive_solver).
    destruct (Hin k a) as (v & -> & Hv); [by apply obj_get_Some_elem|]. by constructor.
  - case_decide as Hd; [constructor|]. rewrite Hout by by apply obj_get_None. rewrite obj_get_erase.
    destruct (obj_get before k) as [b|] eqn:Eb; [|constructor]. exfalso. apply Hd.
    split; [|by unfold obj_has; rewrite Ek]. apply obj_has_elem. unfold obj_has. by rewrite Eb.
Qed.
End Differ.

Lemma diffValue_ok after : differ_ok diffValue after.
Proof using.
  induction after as [|b0|n0|s0|i l IH|i o IH] using rev_ind; intros before p Hp Hb Ha;
    (match goal with |- emits _ ?a _ _ => destruct (strict_eq before a) eqn:Es end;
     [apply (emits_ext _ _ _ _ (fun out => out)); [intros out; cbn [diffValue]; by rewrite Es|by apply emits_nothing, strict_eq_eqv]|]);
    intros out; cbn [diffValue]; rewrite Es; cbn [orb];
    (destruct (too_many out) eqn:Et; [exists []; rewrite app_nil_r; split_and!; [done|done|congruence]|]);
    destruct before as [|b|n|s|j r|j r]; try by apply emits_emitSet.
  - destruct p as [|x p]; [by apply emits_emitSet|]. apply emits_emitString; [done|done|]. destruct Ha as [_ Hw]. by inversion Hw.
  - apply diffArray_emits; [done|done|by eapply rev_ok_arr|by eapply rev_ok_arr].
  - by apply diffObject_emits.
Qed.
End Heap.

(** The whole batch, as the applier takes it. *)
Lemma diffRevisions_turns h before after : rev_ok h before -> rev_ok h after ->
  let ops := diffRevisions before after in
  len ops <= MAX_DELTA_OPERATIONS /\ Forall op_wf ops /\
  exists v, apply (Some (erase before)) (op_to_json <$> ops) = Ok (Some v) /\ json_eqv v (erase after).
Proof.
  intros [Hgb Hb] [Hga Ha].
  assert (Hreplace : len [OpR (erase after)] <= MAX_DELTA_OPERATIONS /\ Forall op_wf [OpR (erase after)] /\
    turns_into [OpR (erase after)] (erase before) [] (erase after)).
  { split; [done|]. split; [by apply Forall_singleton|]. by exists (erase after). }
  destruct (diffValue_ok h after before [] (conj eq_refl (Forall_nil_2 _)) (conj Hgb Hb) (conj Hga Ha) []) as (new & E & W & T).
  cbn [app] in E. assert (Hfull : too_many new = false -> len new <= MAX_DELTA_OPERATIONS /\ Forall op_wf new /\
    turns_into new (erase before) [] (erase after)).
  { intros Hm. split; [by apply Z.ltb_ge|]. split; [done|]. by apply T. }
  cut (let ops := diffRevisions before after in len ops <= MAX_DELTA_OPERATIONS /\ Forall op_wf ops /\
    turns_into ops (erase before) [] (erase after)).
  { intros (H1 & H2 & v & H3 & H4). split; [done|]. split; [done|]. exists v. split; [|done]. unfold apply.
    rewrite applyOps_typed; [exact H3|]. eapply Forall_impl; [exact H2|apply op_wf_ok]. }
  unfold diffRevisions. cbn zeta. rewrite E. destruct (too_many new) eqn:Em; [done|].
  split_if; [by apply Hfull|]. split_if; [by apply Hfull|]. split_if; [done|by apply Hfull].
Qed.
