(* ===== verification/FacetGraph.v ===== *)
(** The facets of a host and the order they are activated in:
    [packages/chord/src/facets/host.ts].

    A facet provides services and requires services.  Before a host starts its
    facets, every service has one provider, every requirement is met in its mode,
    and facets that depend on each other are put in an order: Kahn's algorithm,
    over the counts of the providers that have not been placed. *)
From stdpp Require Import relations.
From S2P Require Import Prelude JsBase ServiceState.

(** * Facets *)

Record FacetServiceReference : Type := Reference_ { rf_serviceId : jsstr; rf_mode : ServiceMode }.

#[export] Instance reference_eq_dec : EqDecision FacetServiceReference.
Proof. assert (EqDecision ServiceMode) by solve_decision. solve_decision. Defined.
#[export] Instance mode_eq_dec : EqDecision ServiceMode.
Proof. solve_decision. Defined.

Record FacetShape : Type := FacetShape_ {
  fs_facetId : jsstr;
  fs_requires : list FacetServiceReference;
  fs_provides : list FacetServiceReference;
}.

(** A facet names a service in a mode once, however often it uses it. *)
Definition recordServiceReference (target : list FacetServiceReference) (id : jsstr) (mode : ServiceMode) : list FacetServiceReference :=
  if existsb (fun reference => bool_decide (rf_serviceId reference = id) && bool_decide (rf_mode reference = mode)) target then target
  else target ++ [Reference_ id mode].

Definition sameReferences (left right : list FacetServiceReference) : bool :=
  bool_decide (length left = length right) &&
  forallb (fun reference =>
    existsb (fun other => bool_decide (rf_serviceId other = rf_serviceId reference) && bool_decide (rf_mode other = rf_mode reference)) right) left.

Definition sameFacetShape (left right : FacetShape) : bool :=
  sameReferences (fs_requires left) (fs_requires right) && sameReferences (fs_provides left) (fs_provides right).

(** * Who provides what *)

(** A service of a source outside has no facet. *)
Record Provider : Type := Provider_ { pv_facetId : option jsstr; pv_mode : ServiceMode }.

Inductive FacetError : Type :=
| ProvidedInBothModes (serviceId : jsstr)
| ProvidedByHostAnd (serviceId facetId : jsstr)
| ProvidedByBoth (serviceId first second : jsstr)
| NotProvided (facetId serviceId : jsstr) (mode : ServiceMode)
| ProvidedAs (facetId serviceId : jsstr) (mode : ServiceMode) (provider : option jsstr) (provided : ServiceMode)
| NoRecord
| DependencyCycle (cycle : list jsstr).

Definition add_provision (facetId : jsstr) (providers : gmap jsstr Provider) (provision : FacetServiceReference) : result FacetError (gmap jsstr Provider) :=
  match providers !! rf_serviceId provision with
  | Some existing =>
      if bool_decide (pv_mode existing <> rf_mode provision) then Err (ProvidedInBothModes (rf_serviceId provision))
      else match pv_facetId existing with
           | None => Err (ProvidedByHostAnd (rf_serviceId provision) facetId)
           | Some first => Err (ProvidedByBoth (rf_serviceId provision) first facetId)
           end
  | None => Ok (<[rf_serviceId provision := Provider_ (Some facetId) (rf_mode provision)]> providers)
  end.

Definition all_providers (records : list FacetShape) (externalServices : list (jsstr * ServiceMode)) : result FacetError (gmap jsstr Provider) :=
  foldM (fun providers record => foldM (add_provision (fs_facetId record)) providers (fs_provides record))
    (foldl (fun providers '(serviceId, mode) => <[serviceId := Provider_ None mode]> providers) ∅ externalServices) records.

(** A map from facets to sets of facets, which are iterated in the order of
    insertion. *)
#[export] Abbreviation facet_graph := (gmap jsstr (list jsstr)).

Definition set_add (id : jsstr) (ids : list jsstr) : list jsstr := if decide (id ∈ ids) then ids else ids ++ [id].

Definition no_edges (records : list FacetShape) : facet_graph := foldl (fun g record => <[fs_facetId record := []]> g) ∅ records.

(** [graph.get(from)!.add(to)]: it throws where there is no set. *)
Definition add_edge (from to : jsstr) (g : facet_graph) : result FacetError facet_graph :=
  match g !! from with Some ids => Ok (<[from := set_add to ids]> g) | None => Err NoRecord end.

(** The two graphs: whom a facet depends on, and who depends on it. *)
Record Graphs : Type := Graphs_ { gr_dependencies : facet_graph; gr_dependents : facet_graph }.

Definition add_requirement (providers : gmap jsstr Provider) (facetId : jsstr) (graphs : Graphs) (requirement : FacetServiceReference) : result FacetError Graphs :=
  match providers !! rf_serviceId requirement with
  | None => Err (NotProvided facetId (rf_serviceId requirement) (rf_mode requirement))
  | Some provider =>
      if bool_decide (pv_mode provider <> rf_mode requirement)
      then Err (ProvidedAs facetId (rf_serviceId requirement) (rf_mode requirement) (pv_facetId provider) (pv_mode provider))
      else match pv_facetId provider with
           | None => Ok graphs
           | Some id =>
               if decide (id = facetId) then Ok graphs
               else
                 dependencies ← add_edge facetId id (gr_dependencies graphs);
                 dependents ← add_edge id facetId (gr_dependents graphs);
                 mret (Graphs_ dependencies dependents)
           end
  end.

Definition all_requirements (providers : gmap jsstr Provider) (records : list FacetShape) : result FacetError Graphs :=
  foldM (fun graphs record => foldM (add_requirement providers (fs_facetId record)) graphs (fs_requires record))
    (Graphs_ (no_edges records) (no_edges records)) records.

(** * The order *)

(** The facets that wait for one that was placed: a count that is missing is
    [NaN], which stays so and is never zero. *)
Fixpoint release_dependents (dependents : list jsstr) (remaining : gmap jsstr Z) (ready : list jsstr) : gmap jsstr Z * list jsstr :=
  match dependents with
  | [] => (remaining, ready)
  | dependent :: dependents =>
      match remaining !! dependent with
      | Some n => release_dependents dependents (<[dependent := n - 1]> remaining) (if n - 1 =? 0 then ready ++ [dependent] else ready)
      | None => release_dependents dependents remaining ready
      end
  end.

(** [None] when the fuel is used up. *)
Fixpoint order_loop (fuel : nat) (dependents : facet_graph) (remaining : gmap jsstr Z) (ready order : list jsstr) : option (gmap jsstr Z * list jsstr) :=
  match ready with
  | [] => Some (remaining, order)
  | id :: ready =>
      match fuel with
      | O => None
      | S fuel =>
          let '(remaining, ready) := release_dependents (default [] (dependents !! id)) remaining ready in
          order_loop fuel dependents remaining ready (order ++ [id])
      end
  end.

Definition topologicalOrder (records : list FacetShape) (graphs : Graphs) : option (result FacetError (list jsstr)) :=
  let remaining := (fun values => Z.of_nat (length values)) <$> gr_dependencies graphs in
  let ids := fs_facetId <$> records in
  match order_loop (length records) (gr_dependents graphs) remaining (filter (fun id => remaining !! id = Some 0) ids) [] with
  | None => None
  | Some (remaining, order) =>
      Some (if bool_decide (length order <> length records)
            then Err (DependencyCycle (filter (fun id => 0 < default 0 (remaining !! id)) ids))
            else Ok order)
  end.

Definition validateFacets (records : list FacetShape) (externalServices : list (jsstr * ServiceMode)) : option (result FacetError (list jsstr)) :=
  match (providers ← all_providers records externalServices; all_requirements providers records) with
  | Err e => Some (Err e)
  | Ok graphs => topologicalOrder records graphs
  end.

(** * What the checks mean *)

Section Spec.
Variables (records : list FacetShape) (externalServices : list (jsstr * ServiceMode)).
#[local] Abbreviation ids := (fs_facetId <$> records).

(** All references of one kind, with the facets they belong to. *)
Definition references (part : FacetShape -> list FacetServiceReference) : list (jsstr * FacetServiceReference) :=
  record ← records; (fun reference => (fs_facetId record, reference)) <$> part record.

Definition offers (serviceId : jsstr) (provider : Provider) : Prop :=
  match pv_facetId provider with
  | None => (serviceId, pv_mode provider) ∈ externalServices
  | Some id => (id, Reference_ serviceId (pv_mode provider)) ∈ references fs_provides
  end.

(** [a] requires what another facet, [b], provides. *)
Definition depends (a b : jsstr) : Prop :=
  a <> b /\ exists reference, (a, reference) ∈ references fs_requires /\ (b, reference) ∈ references fs_provides.

Definition error_means (e : FacetError) : Prop :=
  match e with
  | ProvidedInBothModes serviceId => exists p q, offers serviceId p /\ offers serviceId q /\ pv_mode p <> pv_mode q
  | ProvidedByHostAnd serviceId facetId => exists mode, offers serviceId (Provider_ None mode) /\ offers serviceId (Provider_ (Some facetId) mode)
  | ProvidedByBoth serviceId first second =>
      first <> second /\ exists mode, offers serviceId (Provider_ (Some first) mode) /\ offers serviceId (Provider_ (Some second) mode)
  | NotProvided facetId serviceId mode => (facetId, Reference_ serviceId mode) ∈ references fs_requires /\ forall p, ~ offers serviceId p
  | ProvidedAs facetId serviceId mode provider provided =>
      (facetId, Reference_ serviceId mode) ∈ references fs_requires /\ offers serviceId (Provider_ provider provided) /\ provided <> mode
  | NoRecord => False
  | DependencyCycle cycle => cycle ⊆ ids /\ exists id, id ∈ cycle /\ tc depends id id
  end.

(** An order that can be started: every service has one provider, every
    requirement is met, and whoever provides it comes first. *)
Definition startable (order : list jsstr) : Prop :=
  order ≡ₚ ids /\
  (forall serviceId p q, offers serviceId p -> offers serviceId q -> p = q) /\
  (forall id reference, (id, reference) ∈ references fs_requires -> exists p, offers (rf_serviceId reference) p /\ pv_mode p = rf_mode reference) /\
  forall a b front back, depends a b -> order = front ++ a :: back -> b ∈ front.

Lemma references_elem part id reference : (id, reference) ∈ references part <-> exists record, record ∈ records /\ fs_facetId record = id /\ reference ∈ part record.
Proof.
  unfold references. rewrite list_elem_of_bind. setoid_rewrite list_elem_of_fmap. split.
  - intros (r & (x & [= -> ->] & Hx) & Hr). eauto.
  - intros (r & Hr & <- & Hx). exists r. eauto.
Qed.

Lemma references_ids part id reference : (id, reference) ∈ references part -> id ∈ ids.
Proof. intros (r & Hr & <- & _)%references_elem. by apply list_elem_of_fmap_2. Qed.

Lemma foldM_references {B} (f : jsstr -> B -> FacetServiceReference -> result FacetError B) part b :
  foldM (fun b record => foldM (f (fs_facetId record)) b (part record)) b records = foldM (fun b x => f (fst x) b (snd x)) b (references part).
Proof.
  unfold references. revert b. induction records as [|r rs IH]; intros b; [done|]. cbn. change (foldr _ _ _) with (mbind (M := list) (fun record => (fun reference => (fs_facetId record, reference)) <$> part record) rs) in *. rewrite foldM_app. clear -IH.
  assert (foldM (f (fs_facetId r)) b (part r) = foldM (fun b x => f (fst x) b (snd x)) b ((fun reference => (fs_facetId r, reference)) <$> part r)) as ->.
  { generalize b. clear. induction (part r) as [|x l IH]; intros b; [done|]. cbn. destruct (f (fs_facetId r) b x); [apply IH|done]. }
  destruct (foldM _ b _); cbn; [apply IH|done].
Qed.

(** ** Providers *)

Definition outside_providers : gmap jsstr Provider := foldl (fun providers '(serviceId, mode) => <[serviceId := Provider_ None mode]> providers) ∅ externalServices.

Lemma outside_lookup : NoDup externalServices.*1 -> forall s p, outside_providers !! s = Some p <-> pv_facetId p = None /\ (s, pv_mode p) ∈ externalServices.
Proof.
  intros Hn s p. unfold outside_providers. enough (forall m : gmap jsstr Provider, foldl (fun providers '(serviceId, mode) => <[serviceId := Provider_ None mode]> providers) m externalServices !! s = Some p <->
    (pv_facetId p = None /\ (s, pv_mode p) ∈ externalServices) \/ (m !! s = Some p /\ s ∉ externalServices.*1)) as H by (rewrite H, lookup_empty; naive_solver).
  induction externalServices as [|[s0 mode] l IH]; intros m; cbn; [set_solver|]. cbn in Hn. apply NoDup_cons in Hn as [Hni Hn].
  rewrite (IH Hn), elem_of_cons, not_elem_of_cons. destruct (decide (s = s0)) as [->|Hs]; [rewrite lookup_insert_eq|rewrite lookup_insert_ne by done; naive_solver].
  split; [|intros [[Hp [Em|H]]|[_ [[] _]]]; [|by eauto|done]].
  - intros [[Hp H]|[[= <-] H]]; [by eauto|]. left. split; [done|by left].
  - right. destruct p as [pf pm]; cbn in *. injection Em as ->. by subst.
Qed.

Definition known (done_ : list (jsstr * FacetServiceReference)) (providers : gmap jsstr Provider) : Prop :=
  forall s p, providers !! s = Some p <-> outside_providers !! s = Some p \/ exists id, pv_facetId p = Some id /\ (id, Reference_ s (pv_mode p)) ∈ done_.

Lemma known_step done_ providers id reference providers' :
  known done_ providers -> add_provision id providers reference = Ok providers' -> known (done_ ++ [(id, reference)]) providers'.
Proof.
  unfold add_provision. intros Hk. destruct (providers !! rf_serviceId reference) as [e|] eqn:Ee; [by destruct (bool_decide _), (pv_facetId e)|].
  intros [= <-] s p. destruct (decide (rf_serviceId reference = s)) as [<-|Hs].
  - rewrite lookup_insert_eq. split.
    + intros [= <-]. right. exists id. split; [done|]. destruct reference. apply elem_of_app. right. by apply list_elem_of_singleton.
    + assert (~ (outside_providers !! rf_serviceId reference = Some p \/ exists id, pv_facetId p = Some id /\ (id, Reference_ (rf_serviceId reference) (pv_mode p)) ∈ done_)) as Hno by (rewrite <- (Hk _ p), Ee; done).
      intros [H|(id' & Hp & [H|[= -> <-]%list_elem_of_singleton]%elem_of_app)]; [naive_solver..|]. destruct p; cbn in *. by subst.
  - rewrite lookup_insert_ne by done. rewrite (Hk s p). split; [intros [H|(id' & Hp & H)]; [by left|right; exists id'; set_solver]|].
    intros [H|(id' & Hp & [H|[= -> <-]%list_elem_of_singleton]%elem_of_app)]; [by left|right; eauto|done].
Qed.

Lemma known_all todo done_ providers :
  known done_ providers -> match foldM (fun ps x => add_provision (fst x) ps (snd x)) providers todo with
  | Ok providers' => known (done_ ++ todo) providers'
  | Err e => exists front id reference back ps, todo = front ++ (id, reference) :: back /\ known (done_ ++ front) ps /\ add_provision id ps reference = Err e
  end.
Proof.
  revert done_ providers. induction todo as [|[id reference] todo IH]; intros done_ providers Hk; cbn; [by rewrite app_nil_r|].
  destruct (add_provision id providers reference) as [ps|e] eqn:Ea; cbn.
  - specialize (IH _ _ (known_step _ _ _ _ _ Hk Ea)). destruct (foldM _ ps todo) as [ps'|e]; [by rewrite <- app_assoc in IH|].
    destruct IH as (front & id' & r' & back & ps1 & -> & Hk1 & He). exists ((id, reference) :: front), id', r', back, ps1. split_and!; [done|by rewrite <- app_assoc in Hk1|done].
  - exists [], id, reference, todo, providers. split_and!; [done|by rewrite app_nil_r|done].
Qed.

Lemma known_offers providers : NoDup externalServices.*1 -> known (references fs_provides) providers -> forall s p, providers !! s = Some p <-> offers s p.
Proof.
  intros Hn Hk s p. rewrite (Hk s p), (outside_lookup Hn s p). unfold offers. destruct (pv_facetId p) as [id|]; naive_solver.
Qed.

Lemma all_providers_spec : NoDup externalServices.*1 -> NoDup (references fs_provides) ->
  match all_providers records externalServices with
  | Ok providers => forall s p, providers !! s = Some p <-> offers s p
  | Err e => error_means e
  end.
Proof.
  intros Hn Hp. unfold all_providers. change (foldl _ ∅ externalServices) with outside_providers. rewrite (foldM_references add_provision).
  pose proof (known_all (references fs_provides) [] outside_providers) as H. destruct (foldM _ outside_providers _) as [ps|e].
  - apply known_offers; [done|]. apply H. intros s p. set_solver.
  - destruct H as (front & id & reference & back & ps & El & Hk & He); [intros s p; set_solver|]. cbn [app] in Hk.
    unfold add_provision in He. destruct (ps !! rf_serviceId reference) as [q|] eqn:Eq; [|done].
    assert (offers (rf_serviceId reference) q) as Hq.
    { apply Hk in Eq as [Eq|(id' & E1 & E2)]; [apply (outside_lookup Hn) in Eq as [E1 E2]|]; unfold offers; rewrite E1; [done|]. rewrite El. set_solver. }
    assert (offers (rf_serviceId reference) (Provider_ (Some id) (rf_mode reference))) as Ho.
    { unfold offers; cbn. rewrite El. destruct reference; cbn. set_solver. }
    case_bool_decide as Hm; [injection He as <-; by exists q, (Provider_ (Some id) (rf_mode reference))|].
    destruct q as [[first|] m]; cbn in *; injection He as <-; cbn; [|exists m; by subst]. split; [|exists m; by subst].
    intros ->. subst m. apply Hk in Eq as [Eq|(id' & [= <-] & E2)]; [by apply (outside_lookup Hn) in Eq as [[=] _]|]. rewrite El in Hp.
    apply NoDup_app in Hp as (_ & Hp & _). apply (Hp _ E2). destruct reference; cbn. left.
Qed.

(** ** The graphs *)

Definition graph_of (edge : jsstr -> jsstr -> Prop) (g : facet_graph) : Prop :=
  forall a, a ∈ ids -> exists bs, g !! a = Some bs /\ NoDup bs /\ forall b, b ∈ bs <-> edge a b.

Lemma graph_of_iff edge edge' g : (forall a b, edge a b <-> edge' a b) -> graph_of edge g -> graph_of edge' g.
Proof. intros He Hg a Ha. destruct (Hg a Ha) as (bs & ? & ? & Hbs). exists bs. split_and!; [done..|]. intros b. by rewrite Hbs. Qed.

Lemma set_add_elem id bs b : b ∈ set_add id bs <-> b ∈ bs \/ b = id.
Proof. unfold set_add. case_decide; set_solver. Qed.

Lemma set_add_NoDup id bs : NoDup bs -> NoDup (set_add id bs).
Proof. unfold set_add. case_decide; [done|]. intros Hn. apply NoDup_app. split_and!; [done|set_solver|apply NoDup_singleton]. Qed.

Lemma no_edges_graph edge : (forall a b, ~ edge a b) -> graph_of edge (no_edges records).
Proof.
  intros He. unfold graph_of, no_edges. enough (forall (g : facet_graph) a, a ∈ ids \/ g !! a = Some [] -> foldl (fun g record => <[fs_facetId record := []]> g) g records !! a = Some []) as H.
  { intros a Ha. exists []. split_and!; [by apply H; left|apply NoDup_nil_2|]. intros b. specialize (He a b). set_solver. }
  induction records as [|r rs IH]; intros g a Ha; cbn; [set_solver|]. apply IH. cbn in Ha.
  destruct (decide (fs_facetId r = a)) as [<-|Hne]; [right; apply lookup_insert_eq|rewrite lookup_insert_ne by done; set_solver].
Qed.

Lemma add_edge_graph edge g from to : graph_of edge g -> from ∈ ids ->
  exists g', add_edge from to g = Ok g' /\ graph_of (fun a b => edge a b \/ (a = from /\ b = to)) g'.
Proof.
  intros Hg Hf. destruct (Hg from Hf) as (bs & Eb & Hn & Hbs). unfold add_edge. rewrite Eb. eexists. split; [done|]. intros a Ha.
  destruct (decide (from = a)) as [<-|Hne].
  - exists (set_add to bs). split_and!; [apply lookup_insert_eq|by apply set_add_NoDup|]. intros b. rewrite set_add_elem, Hbs. naive_solver.
  - destruct (Hg a Ha) as (cs & Ec & Hnc & Hcs). exists cs. rewrite lookup_insert_ne by done. split_and!; [done..|]. intros b. rewrite Hcs. naive_solver.
Qed.

Definition depends_in (done_ : list (jsstr * FacetServiceReference)) (a b : jsstr) : Prop :=
  a <> b /\ exists reference, (a, reference) ∈ done_ /\ (b, reference) ∈ references fs_provides.

Definition drawn (done_ : list (jsstr * FacetServiceReference)) (graphs : Graphs) : Prop :=
  graph_of (depends_in done_) (gr_dependencies graphs) /\ graph_of (flip (depends_in done_)) (gr_dependents graphs).

Definition met (x : jsstr * FacetServiceReference) : Prop := exists p, offers (rf_serviceId (snd x)) p /\ pv_mode p = rf_mode (snd x).

Lemma depends_in_app done_ id reference a b :
  depends_in (done_ ++ [(id, reference)]) a b <-> depends_in done_ a b \/ (a = id /\ a <> b /\ (b, reference) ∈ references fs_provides).
Proof. unfold depends_in. setoid_rewrite elem_of_app. setoid_rewrite list_elem_of_singleton. naive_solver. Qed.

Lemma drawn_step providers done_ graphs id reference :
  (forall s p, providers !! s = Some p <-> offers s p) -> drawn done_ graphs -> (id, reference) ∈ references fs_requires ->
  match add_requirement providers id graphs reference with
  | Ok graphs' => drawn (done_ ++ [(id, reference)]) graphs' /\ met (id, reference)
  | Err e => error_means e
  end.
Proof.
  intros Hp [Hd Hd'] Hin. apply references_ids in Hin as Hid. unfold add_requirement. destruct (providers !! rf_serviceId reference) as [p|] eqn:Ep.
  2:{ destruct reference; cbn in *. split; [done|]. intros p Hq%Hp. congruence. }
  apply Hp in Ep as Ho. case_bool_decide as Hm; [destruct reference, p; cbn in *; eauto|].
  assert (forall b, (b, reference) ∈ references fs_provides <-> pv_facetId p = Some b) as Hb.
  { intros b. split.
    - intros Hb. assert (offers (rf_serviceId reference) (Provider_ (Some b) (rf_mode reference))) as Hq by (by destruct reference).
      apply Hp in Hq. rewrite Ep in Hq. by injection Hq as ->.
    - intros Eb. unfold offers in Ho. rewrite Eb, Hm in Ho. by destruct reference. }
  assert (met (id, reference)) as Hmet by (exists p; done). unfold drawn.
  destruct (pv_facetId p) as [b|] eqn:Eb; [destruct (decide (b = id)) as [->|Hne]|].
  1,3: split; [|done]; split; (eapply graph_of_iff; [|eassumption]); intros a c; unfold flip; rewrite depends_in_app, Hb; naive_solver.
  assert (b ∈ ids) as Hbi by (eapply references_ids; by apply Hb).
  destruct (add_edge_graph _ _ id b Hd Hid) as (g & -> & Hg). destruct (add_edge_graph _ _ b id Hd' Hbi) as (g' & -> & Hg'). cbn.
  split; [|done]. split; (eapply graph_of_iff; [|eassumption]); intros a c; unfold flip; rewrite depends_in_app, Hb; naive_solver.
Qed.

Lemma all_requirements_spec providers : (forall s p, providers !! s = Some p <-> offers s p) ->
  match all_requirements providers records with
  | Ok graphs => graph_of depends (gr_dependencies graphs) /\ graph_of (flip depends) (gr_dependents graphs) /\ Forall met (references fs_requires)
  | Err e => error_means e
  end.
Proof.
  intros Hp. unfold all_requirements. rewrite (foldM_references (add_requirement providers)).
  enough (forall todo done_ graphs, todo ⊆ references fs_requires -> drawn done_ graphs -> Forall met done_ ->
    match foldM (fun g x => add_requirement providers (fst x) g (snd x)) graphs todo with Ok graphs' => drawn (done_ ++ todo) graphs' /\ Forall met (done_ ++ todo) | Err e => error_means e end) as H.
  { specialize (H (references fs_requires) [] (Graphs_ (no_edges records) (no_edges records))).
    destruct (foldM _ _ _) as [graphs|e]; [|apply H; [done| |done]; split; apply no_edges_graph; intros a b; unfold flip, depends_in; set_solver].
    destruct H as [[Hd Hd'] Hm]; [done|split; apply no_edges_graph; intros a b; unfold flip, depends_in; set_solver|done|done]. }
  induction todo as [|[id reference] todo IH]; intros done_ graphs Hs Hd Hm; cbn; [by rewrite app_nil_r|].
  pose proof (drawn_step providers done_ graphs id reference Hp Hd ltac:(set_solver)) as H. destruct (add_requirement _ _ _ _) as [graphs'|e]; cbn; [|done].
  destruct H as [Hd' Hx]. specialize (IH (done_ ++ [(id, reference)]) graphs' ltac:(set_solver) Hd'). rewrite <- app_assoc in IH. apply IH.
  apply Forall_app. by split; [|apply Forall_singleton].
Qed.

(** ** Placing facets *)

Lemma filter_elem_ext (P Q : jsstr -> Prop) `{forall x, Decision (P x)} `{forall x, Decision (Q x)} (l : list jsstr) :
  (forall x, x ∈ l -> P x <-> Q x) -> filter P l = filter Q l.
Proof.
  induction l as [|x l IH]; intros H1; [done|]. rewrite !filter_cons, IH by set_solver. apply decide_ext, H1. left.
Qed.

Lemma release_spec ds remaining ready : NoDup ds -> (forall d, d ∈ ds -> is_Some (remaining !! d)) ->
  exists remaining', release_dependents ds remaining ready = (remaining', ready ++ filter (fun d => remaining !! d = Some 1) ds) /\
    forall k, remaining' !! k = if decide (k ∈ ds) then Z.pred <$> remaining !! k else remaining !! k.
Proof.
  revert remaining ready. induction ds as [|d ds IH]; intros remaining ready Hn Hs; [exists remaining; cbn; split; [by rewrite app_nil_r|done]|].
  apply NoDup_cons in Hn as [Hni Hn]. destruct (Hs d) as [n En]; [left|]. cbn [release_dependents]. rewrite En.
  destruct (IH (<[d := n - 1]> remaining) (if n - 1 =? 0 then ready ++ [d] else ready) Hn) as (rem' & -> & Hk).
  { intros d' Hd'. rewrite lookup_insert_ne by (intros ->; done). apply Hs. by right. }
  exists rem'. split.
  - f_equal. rewrite filter_cons. assert (filter (fun d' => <[d := n - 1]> remaining !! d' = Some 1) ds = filter (fun d' => remaining !! d' = Some 1) ds) as ->.
    { apply filter_elem_ext. intros d' Hd'. rewrite lookup_insert_ne by (intros ->; done). done. }
    destruct (Z.eqb_spec (n - 1) 0); [rewrite decide_True by (rewrite En; f_equal; lia); by rewrite <- app_assoc|by rewrite decide_False by (rewrite En; intros [= ->]; lia)].
  - intros k. rewrite Hk. destruct (decide (k = d)) as [->|Hne].
    + rewrite decide_False by done. rewrite decide_True by left. by rewrite lookup_insert_eq, En.
    + rewrite lookup_insert_ne by done. apply decide_ext. set_solver.
Qed.

Definition unplaced (order : list jsstr) (bs : list jsstr) : list jsstr := filter (fun b => b ∉ order) bs.

Lemma unplaced_nil order bs : unplaced order bs = [] <-> bs ⊆ order.
Proof.
  unfold unplaced. split.
  - intros Hf b Hb. destruct (decide (b ∈ order)) as [|Hn]; [done|]. assert (b ∈ filter (fun b => b ∉ order) bs) as Hin by (by apply list_elem_of_filter). rewrite Hf in Hin. by apply elem_of_nil in Hin.
  - intros Hs. destruct (filter _ bs) as [|b l] eqn:E; [done|]. assert (b ∈ filter (fun b => b ∉ order) bs) as Hin by (rewrite E; left). apply list_elem_of_filter in Hin as [? ?]. by destruct H; apply Hs.
Qed.

Lemma unplaced_skip order id bs : id ∉ bs -> unplaced (order ++ [id]) bs = unplaced order bs.
Proof. intros Hb. apply filter_elem_ext. intros b Hin. rewrite elem_of_app, list_elem_of_singleton. split; [tauto|]. intros Hno [?| ->]; done. Qed.

Lemma unplaced_place order id bs : NoDup bs -> id ∈ bs -> id ∉ order -> length (unplaced order bs) = S (length (unplaced (order ++ [id]) bs)).
Proof.
  intros Hn Hin Ho. apply list_elem_of_split in Hin as (l1 & l2 & ->). apply NoDup_app in Hn as (_ & Hd & Hn2). apply NoDup_cons in Hn2 as [Hi2 _].
  assert (id ∉ l1) as Hi1 by (intros Hi; apply (Hd _ Hi); left). unfold unplaced. rewrite !filter_app, !filter_cons.
  rewrite decide_True by done. rewrite decide_False by set_solver. fold (unplaced order l1) (unplaced order l2) (unplaced (order ++ [id]) l1) (unplaced (order ++ [id]) l2).
  rewrite !unplaced_skip by done. rewrite !length_app. cbn. lia.
Qed.

Section Placing.
Variables (dependencies dependents : facet_graph).
Hypothesis Hdeps : graph_of depends dependencies.
Hypothesis Hback : graph_of (flip depends) dependents.

Record placed (remaining : gmap jsstr Z) (ready order : list jsstr) : Prop := Placed_ {
  pl_once : NoDup (order ++ ready);
  pl_counts : forall a, a ∈ ids -> remaining !! a = Some (Z.of_nat (length (unplaced order (default [] (dependencies !! a)))));
  pl_ready : forall a, a ∈ order ++ ready <-> a ∈ ids /\ forall b, depends a b -> b ∈ order;
  pl_order : forall a b front back, depends a b -> order = front ++ a :: back -> b ∈ front;
}.

Lemma depends_ids a b : depends a b -> a ∈ ids /\ b ∈ ids.
Proof. intros [_ (r & Ha & Hb)]. split; by eapply references_ids. Qed.

Lemma count_zero a order : a ∈ ids -> length (unplaced order (default [] (dependencies !! a))) = 0%nat <-> forall b, depends a b -> b ∈ order.
Proof.
  intros Ha. rewrite length_zero_iff_nil, unplaced_nil. destruct (Hdeps a Ha) as (bs & -> & _ & Hbs). change (default [] (Some bs)) with bs. split; [intros H b Hb; by apply H, Hbs|intros H b Hb; by apply H, Hbs].
Qed.

Lemma placed_step remaining id ready order remaining' ready' :
  placed remaining (id :: ready) order -> release_dependents (default [] (dependents !! id)) remaining ready = (remaining', ready') ->
  placed remaining' ready' (order ++ [id]).
Proof.
  intros [Ho Hc Hr Hs] He. assert (id ∈ ids) as Hid by (apply Hr; apply elem_of_app; right; left).
  assert (id ∉ order) as Hni by (apply NoDup_app in Ho as (_ & Hd & _); intros Hin; apply (Hd _ Hin); left).
  destruct (Hback id Hid) as (ds & Eds & Hnd & Hds). rewrite Eds in He. cbn in He. unfold flip in Hds.
  assert (forall a, depends a id -> exists bs, dependencies !! a = Some bs /\ NoDup bs /\ id ∈ bs) as Hin.
  { intros a Ha. destruct (Hdeps a) as (bs & ? & ? & Hbs); [by apply depends_ids in Ha as [? _]|]. exists bs. by rewrite Hbs. }
  destruct (release_spec ds remaining ready Hnd) as (rem' & Er & Hk).
  { intros d Hd. rewrite Hc by (by apply Hds, depends_ids in Hd as [? _]). done. }
  rewrite Er in He. injection He as <- <-.
  assert (forall a, a ∈ ids -> rem' !! a = Some (Z.of_nat (length (unplaced (order ++ [id]) (default [] (dependencies !! a)))))) as Hc'.
  { intros a Ha. rewrite Hk, (Hc a Ha). case_decide as Hd.
    - apply Hds in Hd. destruct (Hin a Hd) as (bs & -> & Hnb & Hb). change (default [] (Some bs)) with bs. rewrite (unplaced_place order id bs) by done. cbn [fmap option_fmap option_map]. f_equal. lia.
    - destruct (Hdeps a Ha) as (bs & -> & _ & Hbs). change (default [] (Some bs)) with bs. rewrite unplaced_skip; [done|]. by rewrite Hbs, <- Hds. }
  assert (forall d, d ∈ ds -> remaining !! d = Some 1 <-> forall b, depends d b -> b ∈ order ++ [id]) as Hnew.
  { intros d Hd. apply Hds in Hd. assert (d ∈ ids) as Hdi by (by apply depends_ids in Hd as [? _]). rewrite <- count_zero, (Hc d Hdi) by done.
    destruct (Hin d Hd) as (bs & -> & Hnb & Hb). change (default [] (Some bs)) with bs. rewrite (unplaced_place order id bs) by done. split; [intros [= ?]; lia|intros ->; done]. }
  split.
  - change (NoDup (order ++ [id] ++ ready)) in Ho. rewrite (app_assoc order) in Ho. rewrite app_assoc. apply NoDup_app. split_and!; [done| |by apply NoDup_filter].
    rewrite <- app_assoc. cbn [app].
    intros a Ha [_ Hd]%list_elem_of_filter. apply Hr in Ha as [_ Ha]. apply Hni, Ha. by apply Hds.
  - done.
  - intros a. rewrite (elem_of_app (order ++ [id])), (elem_of_app ready), (elem_of_app order), list_elem_of_singleton, list_elem_of_filter. split.
    + intros H. destruct (decide (a ∈ order ++ id :: ready)) as [Ha|Hna].
      * apply Hr in Ha as [Ha Hb]. split; [done|]. intros b Hd. apply elem_of_app. left. by apply Hb.
      * rewrite elem_of_app, elem_of_cons in Hna. assert (remaining !! a = Some 1 /\ a ∈ ds) as [H1 Hd] by tauto. split; [by apply Hds, depends_ids in Hd as [? _]|].
        intros b Hb. by apply (Hnew a Hd).
    + intros [Ha Hb]. destruct (decide (a ∈ ds)) as [Hd|Hd].
      * right. right. split; [|done]. by apply (Hnew a Hd).
      * assert (a ∈ order ++ id :: ready) as Hin'; [|rewrite elem_of_app, elem_of_cons in Hin'; tauto]. apply Hr. split; [done|].
        intros b Hab. apply Hb in Hab as Hbo. apply elem_of_app in Hbo as [|E%list_elem_of_singleton]; [done|]. subst b. by destruct Hd; apply Hds.
  - intros a b front back Hab E. destruct back as [|c back _] using rev_ind.
    + apply app_inj_tail in E as [<- <-]. apply (proj1 (Hr id)); [apply elem_of_app; right; left|done].
    + rewrite app_comm_cons, app_assoc in E. apply app_inj_tail in E as [E _]. by eapply Hs.
Qed.

(** With as much fuel as there are facets the loop comes to its end. *)
Lemma loop_placed fuel remaining ready order :
  placed remaining ready order -> (length ids <= fuel + length order)%nat ->
  exists remaining' order', order_loop fuel dependents remaining ready order = Some (remaining', order') /\ placed remaining' [] order'.
Proof.
  revert remaining ready order. induction fuel as [|fuel IH]; intros remaining [|id ready] order Hp Hf; cbn [order_loop]; [by eauto| |by eauto|].
  - exfalso. assert (order ++ id :: ready ⊆+ ids) as Hs%submseteq_length by (apply NoDup_submseteq; [apply Hp|]; intros a Ha; by apply (pl_ready _ _ _ Hp) in Ha as [? _]).
    rewrite length_app in Hs. cbn in Hs. lia.
  - destruct (release_dependents _ remaining ready) as [remaining' ready'] eqn:Er. apply IH; [by eapply placed_step|]. rewrite length_app. cbn. lia.
Qed.

Lemma placed_start : NoDup ids -> placed ((fun values => Z.of_nat (length values)) <$> dependencies)
  (filter (fun id => ((fun values => Z.of_nat (length values)) <$> dependencies) !! id = Some 0) ids) [].
Proof.
  intros Hn. set (remaining := _ <$> dependencies).
  assert (forall a, a ∈ ids -> remaining !! a = Some (Z.of_nat (length (unplaced [] (default [] (dependencies !! a)))))) as Hc.
  { intros a Ha. unfold remaining. rewrite lookup_fmap. destruct (Hdeps a Ha) as (bs & -> & _ & _). cbn [fmap option_fmap option_map]. change (default [] (Some bs)) with bs.
    do 3 f_equal. unfold unplaced. induction bs as [|b bs IH]; [done|]. rewrite filter_cons, decide_True by apply not_elem_of_nil. by rewrite <- IH. }
  split; [by apply NoDup_filter|done| |by intros a b [|] back].
  intros a. cbn [app]. rewrite list_elem_of_filter. split.
  - intros [H Ha]. split; [done|]. apply count_zero; [done|]. rewrite (Hc a Ha) in H. injection H as H. lia.
  - intros [Ha H]. split; [|done]. rewrite (Hc a Ha). apply count_zero in H; [|done]. by rewrite H.
Qed.
End Placing.

(** Whoever goes on for ever among finitely many comes back. *)
Lemma finite_cycle {A} (R : relation A) (S : list A) x : x ∈ S -> (forall y, y ∈ S -> exists z, z ∈ S /\ R y z) -> exists y, y ∈ S /\ tc R y y.
Proof.
  revert R x. induction S as [|s S IH]; intros R x Hx Hs; [by apply elem_of_nil in Hx|].
  destruct (Hs s) as (z & Hz & Hr); [left|]. apply elem_of_cons in Hz as [->|Hz]; [exists s; split; [left|by apply tc_once]|].
  destruct (IH (fun y z => R y z \/ exists u, R y u /\ u = s /\ R s z) z Hz) as (y & Hy & Hc).
  - intros y Hy. destruct (Hs y) as (u & Hu & Hru); [by right|]. apply elem_of_cons in Hu as [->|Hu]; [exists z|exists u]; split; eauto.
  - exists y. split; [by right|]. clear -Hc. revert Hc. generalize y at 1 3 as a. generalize y as b. clear. intros b a Hc.
    assert (forall y z, (R y z \/ exists u, R y u /\ u = s /\ R s z) -> tc R y z) as Ht.
    { intros y z [H|(u & H & -> & H')]; [by apply tc_once|]. eapply tc_l; [done|by apply tc_once]. }
    induction Hc as [|a c b H _ IH]; [by apply Ht|]. etrans; [by apply Ht|done].
Qed.

Lemma topologicalOrder_spec graphs : NoDup ids -> graph_of depends (gr_dependencies graphs) -> graph_of (flip depends) (gr_dependents graphs) ->
  exists r, topologicalOrder records graphs = Some r /\
    match r with
    | Ok order => order ≡ₚ ids /\ forall a b front back, depends a b -> order = front ++ a :: back -> b ∈ front
    | Err e => error_means e
    end.
Proof.
  intros Hn Hd Hb. unfold topologicalOrder.
  assert (placed (gr_dependencies graphs) ((fun values => Z.of_nat (length values)) <$> gr_dependencies graphs)
    (filter (fun id => ((fun values => Z.of_nat (length values)) <$> gr_dependencies graphs) !! id = Some 0) ids) []) as Hst by (by apply placed_start).
  eapply loop_placed with (fuel := length records) in Hst as (remaining & order & -> & Hp); [|done|done|rewrite length_fmap; lia].
  eexists. split; [done|]. destruct Hp as [Ho Hc Hr Hs]. rewrite app_nil_r in Ho. setoid_rewrite app_nil_r in Hr.
  assert (order ⊆ ids) as Hsub by (intros a Ha; by apply Hr in Ha as [? _]). case_bool_decide as Hl.
  - cbn. split; [intros a Ha; by apply list_elem_of_filter in Ha as [_ ?]|].
    assert (forall a, a ∈ filter (fun id => 0 < default 0 (remaining !! id)) ids <-> a ∈ ids /\ a ∉ order) as Hcyc.
    { intros a. rewrite list_elem_of_filter. enough (a ∈ ids -> 0 < default 0 (remaining !! a) <-> a ∉ order) by tauto. intros Ha. rewrite (Hc a Ha).
      change (default 0 (Some ?x)) with x. rewrite Hr. pose proof (count_zero _ Hd a order Ha) as H0. split; [intros Hlt [_ H]; apply H0 in H; lia|].
      intros H. destruct (decide (0 < Z.of_nat (length (unplaced order (default [] (gr_dependencies graphs !! a)))))); [done|]. destruct H. split; [done|]. apply H0. lia. }
    assert (exists a, a ∈ ids /\ a ∉ order) as (a & Ha).
    { destruct (decide (Forall (fun a => a ∈ order) ids)) as [Hf|Hf]; [|apply not_Forall_Exists, Exists_exists in Hf as (a & ? & ?); [by exists a|solve_decision]].
      rewrite Forall_forall in Hf. destruct Hl. rewrite <- (length_fmap fs_facetId records). apply Permutation_length, NoDup_Permutation; [done..|]. intros a. split; auto. }
    apply (finite_cycle depends _ a); [by apply Hcyc|]. intros b Hb'. apply Hcyc in Hb' as [Hbi Hbo].
    destruct (Hd b Hbi) as (bs & Eb & _ & Hbs).
    destruct (decide (Forall (fun c => c ∈ order) bs)) as [Hf|Hf].
    { destruct Hbo. apply Hr. split; [done|]. intros c Hc'. rewrite Forall_forall in Hf. by apply Hf, Hbs. }
    apply not_Forall_Exists, Exists_exists in Hf as (c & Hcb & Hco); [|solve_decision]. apply Hbs in Hcb. exists c. split; [|done]. apply Hcyc. split; [by apply depends_ids in Hcb as [_ ?]|done].
  - split; [|done]. assert (order ⊆+ ids) as Hsm by (by apply NoDup_submseteq). apply submseteq_length_Permutation; [done|]. rewrite length_fmap. lia.
Qed.

Lemma provides_once : NoDup ids -> Forall (fun record => NoDup (fs_provides record)) records -> NoDup (references fs_provides).
Proof.
  unfold references. induction records as [|r rs IH]; intros Hn Hp; cbn; [apply NoDup_nil_2|]. cbn in Hn. apply NoDup_cons in Hn as [Hni Hn]. apply Forall_cons in Hp as [Hr Hp].
  apply NoDup_app. split_and!; [apply NoDup_fmap_2; [by intros x y [= ->]|done]| |by apply IH].
  intros [id x] (y & [= -> ->] & _)%list_elem_of_fmap. change (foldr _ _ _) with (mbind (M := list) (fun record => (fun reference => (fs_facetId record, reference)) <$> fs_provides record) rs).
  intros (r' & (z & [= Ei _] & _)%list_elem_of_fmap & Hr')%list_elem_of_bind. apply Hni. rewrite Ei. by apply list_elem_of_fmap_2.
Qed.

Lemma validateFacets_spec : NoDup ids -> NoDup externalServices.*1 -> Forall (fun record => NoDup (fs_provides record)) records ->
  exists r, validateFacets records externalServices = Some r /\ match r with Ok order => startable order | Err e => error_means e end.
Proof.
  intros Hn Hx Hp. unfold validateFacets. pose proof (all_providers_spec Hx (provides_once Hn Hp)) as H. destruct (all_providers _ _) as [providers|e]; cbn; [|by eexists].
  pose proof (all_requirements_spec providers H) as Hq. destruct (all_requirements _ _) as [graphs|e]; cbn; [|by eexists]. destruct Hq as (Hd & Hb & Hm).
  destruct (topologicalOrder_spec graphs Hn Hd Hb) as (r & -> & Hr). exists r. split; [done|]. destruct r as [order|e]; [|done]. destruct Hr as [Ho Hs].
  split_and!; [done| | |done].
  - intros s p q Ep Eq. apply H in Ep, Eq. congruence.
  - intros id reference Hin. rewrite Forall_forall in Hm. exact (Hm _ Hin).
Qed.
End Spec.

(** * The life of a facet

    [FacetLifecycle]: what a facet acquires is given back when it is disposed of,
    last things first.  What a facet hands over runs outside; while it is started
    it may acquire more. *)

Inductive LifecycleState : Type := SettingUp | Prepared | Active | Disposing | Dead.

#[export] Instance lifecycle_state_eq_dec : EqDecision LifecycleState.
Proof. solve_decision. Defined.

Section Lifecycle.
Context {O E : Type}.
Variable misuse : E.

Definition Disposal : Type := SM O E unit.

(** A function of the facet that runs while it is activated: it may [own], which
    may throw, and do anything outside. *)
Inductive callback (A : Type) : Type :=
| CbReturn (r : result E A)
| CbOwn (disposal : Disposal) (next : result E unit -> callback A)
| CbOutside (step : O -> O) (next : O -> callback A).
Arguments CbReturn {A} r.
Arguments CbOwn {A} disposal next.
Arguments CbOutside {A} step next.

Record FacetLifecycle : Type := Lifecycle_ {
  lc_effects : list Disposal;
  lc_observations : list (callback Disposal);
  lc_activate : list (callback unit);
  lc_state : LifecycleState;
  lc_serviceAccess : bool;
}.
Implicit Types (lc : FacetLifecycle) (o : O).
#[local] Abbreviation world := (FacetLifecycle * O)%type.

Definition new_FacetLifecycle : FacetLifecycle := Lifecycle_ [] [] [] SettingUp false.

Definition assertSettingUp lc : result E unit := throw_if (bool_decide (lc_state lc <> SettingUp)) misuse.
Definition assertRunning lc : result E unit := throw_if (bool_decide (lc_state lc <> SettingUp) && bool_decide (lc_state lc <> Active)) misuse.
Definition assertActive lc : result E unit := throw_if (bool_decide (lc_state lc <> Active)) misuse.
Definition assertServiceAccess lc : result E unit := throw_if (negb (lc_serviceAccess lc)) misuse.

Definition revoke lc : FacetLifecycle := Lifecycle_ (lc_effects lc) (lc_observations lc) (lc_activate lc) (lc_state lc) false.

Definition push_effect (disposal : Disposal) lc : FacetLifecycle :=
  Lifecycle_ (lc_effects lc ++ [disposal]) (lc_observations lc) (lc_activate lc) (lc_state lc) (lc_serviceAccess lc).

Definition own (disposal : Disposal) lc : FacetLifecycle * result E unit :=
  match assertRunning lc with Err e => (lc, Err e) | Ok _ => (push_effect disposal lc, Ok tt) end.

Definition observe (start : callback Disposal) lc : FacetLifecycle * result E unit :=
  match assertSettingUp lc with
  | Err e => (lc, Err e)
  | Ok _ => (Lifecycle_ (lc_effects lc) (lc_observations lc ++ [start]) (lc_activate lc) (lc_state lc) (lc_serviceAccess lc), Ok tt)
  end.

Definition onActivate (f : callback unit) lc : FacetLifecycle * result E unit :=
  match assertSettingUp lc with
  | Err e => (lc, Err e)
  | Ok _ => (Lifecycle_ (lc_effects lc) (lc_observations lc) (lc_activate lc ++ [f]) (lc_state lc) (lc_serviceAccess lc), Ok tt)
  end.

Definition prepared lc : FacetLifecycle * result E unit :=
  match assertSettingUp lc with
  | Err e => (lc, Err e)
  | Ok _ => (Lifecycle_ (lc_effects lc) (lc_observations lc) (lc_activate lc) Prepared (lc_serviceAccess lc), Ok tt)
  end.

Fixpoint run_callback {A} (f : callback A) : SM world E A :=
  match f with
  | CbReturn r => fun w => (w, r)
  | CbOwn disposal next => fun w => let '(lc, r) := own disposal (fst w) in run_callback (next r) (lc, snd w)
  | CbOutside step next => fun w => let o := step (snd w) in run_callback (next o) (fst w, o)
  end.

Definition start_observation (start : callback Disposal) : SM world E unit :=
  disposal ← run_callback start; modify (fun w => (push_effect disposal (fst w), snd w)).

Definition activate : SM world E unit := fun w =>
  let lc := fst w in
  if bool_decide (lc_state lc <> Prepared) then (w, Err misuse)
  else
    (for_each start_observation (lc_observations lc);; for_each run_callback (lc_activate lc))
      (Lifecycle_ (lc_effects lc) (lc_observations lc) (lc_activate lc) Active true, snd w).

(** Every effect runs, whatever those before it threw. *)
Fixpoint collect (effects : list Disposal) (o : O) : O * list E :=
  match effects with
  | [] => (o, [])
  | effect :: effects =>
      let '(o, r) := effect o in
      let '(o, errors) := collect effects o in
      (o, match r with Err e => e :: errors | Ok _ => errors end)
  end.

(** One error is thrown as it is, several together. *)
Definition thrown (errors : list E) : result (list E) unit := match errors with [] => Ok tt | _ => Err errors end.

Definition dispose : SM world (list E) unit := fun w =>
  let '(lc, o) := w in
  if decide (lc_state lc = Dead) then (w, Ok tt)
  else
    let '(o, errors) := collect (reverse (lc_effects lc)) o in
    ((Lifecycle_ [] [] [] Dead false, o), thrown errors).

(** * The facets of a host *)

Record FacetKernel : Type := Kernel_ {
  k_facets : list (jsstr * FacetLifecycle);
  k_activationOrder : list jsstr;
  k_outside : O;
}.
Implicit Types (k : FacetKernel).

(** [this.#facets.get(id)!.lifecycle.activate()] *)
Definition activate_facet (id : jsstr) : SM FacetKernel E unit := fun k =>
  match amap_get (k_facets k) id with
  | None => (k, Err misuse)
  | Some lc =>
      let '((lc, o), r) := activate (lc, k_outside k) in
      (Kernel_ (amap_set (k_facets k) id lc) (k_activationOrder k) o, r)
  end.

Definition activate_facets : SM FacetKernel E unit := fun k => for_each activate_facet (k_activationOrder k) k.

Fixpoint dispose_each (order : list jsstr) (facets : list (jsstr * FacetLifecycle)) (o : O) : list (jsstr * FacetLifecycle) * O * list (list E) :=
  match order with
  | [] => (facets, o, [])
  | id :: order =>
      match amap_get facets id with
      | None => dispose_each order facets o
      | Some lc =>
          let '((_, o), r) := dispose (lc, o) in
          let '(facets, o, errors) := dispose_each order (amap_delete facets id) o in
          (facets, o, match r with Err e => e :: errors | Ok _ => errors end)
      end
  end.

Definition disposeLifecycles k : FacetKernel * list (list E) :=
  let order := if bool_decide (k_activationOrder k = []) then reverse (k_facets k).*1 else reverse (k_activationOrder k) in
  let '(facets, o, errors) := dispose_each order (k_facets k) (k_outside k) in
  (Kernel_ facets (k_activationOrder k) o, errors).

Lemma collect_app a b o : collect (a ++ b) o = let '(o1, e1) := collect a o in let '(o2, e2) := collect b o1 in (o2, e1 ++ e2).
Proof.
  revert o. induction a as [|f a IH]; intros o; cbn; [by destruct (collect b o)|]. destruct (f o) as [o1 r]. rewrite IH.
  destruct (collect a o1) as [o2 e1], (collect b o2) as [o3 e2]. by destruct r.
Qed.

(** What a facet holds, in the order in which it gives it back. *)
Definition held (facets : list (jsstr * FacetLifecycle)) (id : jsstr) : list Disposal :=
  match amap_get facets id with Some lc => if decide (lc_state lc = Dead) then [] else reverse (lc_effects lc) | None => [] end.

Lemma dispose_held lc o : let '(w, r) := dispose (lc, o) in
  collect (if decide (lc_state lc = Dead) then [] else reverse (lc_effects lc)) o = (snd w, match r with Err e => e | Ok _ => [] end).
Proof. unfold dispose. case_decide; [done|]. destruct (collect _ o) as [o' errors]. by destruct errors. Qed.

Lemma dispose_each_spec order facets o : NoDup order ->
  let '(facets', o', errors) := dispose_each order facets o in
  collect (order ≫= held facets) o = (o', mjoin errors) /\ forall kv, kv ∈ facets' <-> kv ∈ facets /\ fst kv ∉ order.
Proof.
  revert facets o. induction order as [|id order IH]; intros facets o Hn; cbn [dispose_each]; [split; [done|]; intros kv; set_solver|]. apply NoDup_cons in Hn as [Hni Hn].
  rewrite bind_cons, collect_app. unfold held at 1. destruct (amap_get facets id) as [lc|] eqn:Eg.
  - pose proof (dispose_held lc o) as Hd. destruct (dispose (lc, o)) as [[lc' o1] r]. rewrite Hd. cbn [snd].
    specialize (IH (amap_delete facets id) o1 Hn). destruct (dispose_each _ _ o1) as [[facets' o'] errors]. destruct IH as [Hc Hk].
    assert (order ≫= held (amap_delete facets id) = order ≫= held facets) as Eh.
    { clear -Hni. induction order as [|x order IH]; [done|]. apply not_elem_of_cons in Hni as [Hx Hni]. rewrite !bind_cons, IH by done. f_equal.
      unfold held. rewrite amap_get_delete. by rewrite decide_False by done. }
    rewrite Eh in Hc. rewrite Hc. cbn. split; [by destruct r|]. intros kv. rewrite Hk, amap_delete_elem, not_elem_of_cons. tauto.
  - cbn [collect]. specialize (IH facets o Hn). destruct (dispose_each _ _ o) as [[facets' o'] errors]. destruct IH as [Hc Hk]. rewrite Hc. split; [done|].
    intros [id' lc]. rewrite Hk, not_elem_of_cons. split; [|tauto]. intros [Hin Ho]. split_and!; [done| |done]. cbn. intros ->.
    apply amap_get_None in Eg. destruct Eg. by apply (list_elem_of_fmap_2 fst) in Hin.
Qed.

Lemma callback_state {A} (f : callback A) s w w' r : lc_state (fst w) = s -> run_callback f w = (w', r) -> lc_state (fst w') = s.
Proof.
  intros Hs. revert w Hs. induction f as [r0|d next IH|step next IH]; intros w Hs; cbn; [by intros [= <- <-]| |].
  - unfold own. destruct (assertRunning (fst w)); by apply IH.
  - by apply IH.
Qed.

Lemma activate_active lc o : lc_state lc = Prepared -> lc_state (fst (fst (activate (lc, o)))) = Active.
Proof.
  intros Hp. unfold activate. cbn. rewrite bool_decide_false by (intros H; by destruct H). cbn.
  set (w := (_, o)). unfold mbind, sm_bind at 1.
  assert (forall w' r, for_each start_observation (lc_observations lc) w = (w', r) -> lc_state (fst w') = Active) as H1.
  { intros w' r H. apply (for_each_invariant (fun w => lc_state (fst w) = Active)) in H; [done| |done]. intros start s s' r' _ Hs. unfold start_observation, mbind, sm_bind.
    destruct (run_callback start s) as [s1 [d|e]] eqn:Er; apply (callback_state _ Active) in Er; [|done| |done]; [by intros [= <- _]|by intros [= <- _]]. }
  destruct (for_each start_observation _ w) as [w1 [u|e]]; [|by eapply H1]. specialize (H1 _ _ eq_refl).
  destruct (for_each run_callback _ w1) as [w2 r] eqn:Er. apply (for_each_invariant (fun w => lc_state (fst w) = Active)) in Er; [done| |done].
  intros f s s' r' _ Hs H. by eapply callback_state.
Qed.

Definition state_of k id : option LifecycleState := lc_state <$> amap_get (k_facets k) id.

(** How far the activation came: the facets in front are active, the others but
    the one that failed are as they were. *)
Lemma started order k k' r : NoDup order -> (forall id, id ∈ order -> state_of k id = Some Prepared) -> for_each activate_facet order k = (k', r) ->
  k_activationOrder k' = k_activationOrder k /\ (k_facets k').*1 = (k_facets k).*1 /\
  exists front back, order = front ++ back /\ (forall id, id ∈ front -> state_of k' id = Some Active) /\ (r = Ok tt -> back = []) /\
    forall id, id ∉ front -> Some id <> head back -> amap_get (k_facets k') id = amap_get (k_facets k) id.
Proof.
  revert k. induction order as [|id order IH]; intros k Hn Hp; cbn; [intros [= <- <-]; split_and!; [done..|]; exists [], []; split_and!; [done|intros id Hid; by apply elem_of_nil in Hid|done|done]|].
  apply NoDup_cons in Hn as [Hni Hn]. unfold mbind, sm_bind. assert (state_of k id = Some Prepared) as Hid by (apply Hp; left).
  unfold state_of in Hid. unfold activate_facet at 1. destruct (amap_get (k_facets k) id) as [lc|] eqn:El; [|done]. injection Hid as Hid.
  pose proof (activate_active lc (k_outside k) Hid) as Ha. destruct (activate (lc, k_outside k)) as [[lc' o'] r1]. cbn in Ha.
  set (k1 := Kernel_ _ _ _). assert ((k_facets k1).*1 = (k_facets k).*1) as Hk1 by (by eapply amap_keys_set_present). destruct r1 as [[]|e].
  - intros H. apply IH in H as (Ho & Hk & front & back & -> & Hf & Hr & Hs); [|done|].
    + split_and!; [done|congruence|]. exists (id :: front), back. split_and!; [done| |done|].
      * intros id' [->|Hin]%elem_of_cons; [|by apply Hf]. unfold state_of. destruct (decide (Some id = head back)) as [Eb|Eb].
        { destruct back as [|b back]; [done|]. injection Eb as <-. destruct Hni. set_solver. }
        rewrite Hs; [|set_solver|done]. unfold k1. cbn. rewrite amap_get_set, decide_True by done. cbn. by rewrite Ha.
      * intros id' [Hne Hin]%not_elem_of_cons Hh. rewrite Hs by done. unfold k1. cbn. by rewrite amap_get_set, decide_False.
    + intros id' Hin. unfold state_of, k1. cbn. rewrite amap_get_set, decide_False by (intros ->; done). apply Hp. by right.
  - intros [= <- <-]. split_and!; [done|done|]. exists [], (id :: order). split_and!; [done|set_solver|done|]. intros id' _ Hh. unfold k1. cbn. rewrite amap_get_set, decide_False; [done|]. intros ->. by apply Hh.
Qed.
End Lifecycle.
Arguments CbReturn {O E A} r.
Arguments CbOwn {O E A} disposal next.
Arguments CbOutside {O E A} step next.
