(* ===== verification/ReplicatedState.v ===== *)
(** Replicated states and their replicas: [packages/chord/src/services/state.ts].

    A [MutableReplicatedStateImpl] keeps the current revision and tells its
    listeners of every change, one change after the other, also when listeners
    change the state again or subscribe while they are told.  A
    [ReplicatedStateReplica] starts from a snapshot and applies the batches that
    follow.  Drafts of revisions (state/draft.ts) are proxies and not modelled: a
    change is the revision its callback leads to. *)
From S2P Require Import Prelude JsBase Json DeltaOps DeltaApply DeltaDiff StateDiff StateDiffSpec.

(** * Applying operations to equal values

    A replica has a value equal to that of its source, but not the same: the
    members of objects may come in another order.  Operations do not see the
    difference. *)

Section Respects.
#[local] Infix "≈" := json_eqv (at level 70).

Lemma eqvs_lookup l l' i : Forall2 json_eqv l l' -> option_Forall2 json_eqv (l !! i) (l' !! i).
Proof. intros H. by apply Forall2_lookup. Qed.

Lemma nth_N_eqv l l' i : Forall2 json_eqv l l' -> option_Forall2 json_eqv (nth_N l i) (nth_N l' i).
Proof. intros H. rewrite !nth_N_lookup. by apply eqvs_lookup. Qed.

Lemma some_eqv c o : option_Forall2 json_eqv (Some c) o -> exists c', o = Some c' /\ c ≈ c'.
Proof. inversion 1. eauto. Qed.

Lemma child_of_eqv full a b s c : a ≈ b -> child_of full a s = Ok c -> exists c', child_of full b s = Ok c' /\ c ≈ c'.
Proof.
  intros [|x|x y Hn|x|l l' Hl|o o' Ho]; cbn; try done.
  - destruct s as [k|i]; [done|]. intros H%ok_or_Ok. pose proof (nth_N_eqv _ _ i Hl) as E. rewrite H in E. apply some_eqv in E as (c' & -> & Hc). by exists c'.
  - intros H%ok_or_Ok. specialize (Ho (seg_key s)). rewrite H in Ho. apply some_eqv in Ho as (c' & -> & Hc). by exists c'.
Qed.

Lemma obj_set_eqv o o' k v v' : JObj o ≈ JObj o' -> v ≈ v' -> JObj (obj_set o k v) ≈ JObj (obj_set o' k v').
Proof. inversion 1 as [| | | | |? ? Ho]; subst. intros Hv. constructor. intros k'. rewrite !obj_get_set. case_decide; [by constructor|apply Ho]. Qed.

Lemma put_child_eqv a b s c c' : a ≈ b -> c ≈ c' -> put_child a s c ≈ put_child b s c'.
Proof.
  intros H Hc. destruct H as [|x|x y Hn|x|l l' Hl|o o' Ho]; cbn; try (by constructor).
  - destruct s as [k|i]; [by constructor|]. constructor. by apply Forall2_insert.
  - apply obj_set_eqv; [by constructor|done].
Qed.

Definition respects (f : json -> result delta_err json) : Prop := forall a b a', a ≈ b -> f a = Ok a' -> exists b', f b = Ok b' /\ a' ≈ b'.

Lemma modify_at_eqv full f p : respects f -> respects (fun node => modify_at full f node p).
Proof.
  intros Hf. induction p as [|s p IH]; intros a b a' Hab; cbn; [by apply Hf|].
  intros (c & Hc & (c1 & H1 & [= <-])%bind_Ok)%bind_Ok. destruct (child_of_eqv _ _ _ _ _ Hab Hc) as (d & -> & Hcd).
  destruct (IH _ _ _ Hcd H1) as (d1 & H2 & Hd). cbn. rewrite H2. cbn. eexists. split; [done|]. by apply put_child_eqv.
Qed.

Lemma isObj_eqv a b : a ≈ b -> isObj a = isObj b.
Proof. by destruct 1. Qed.

Lemma js_splice_eqv l l' i r items : Forall2 json_eqv l l' -> Forall2 json_eqv (fst (js_splice l i r items)) (fst (js_splice l' i r items)).
Proof.
  intros Hl. apply Forall2_length in Hl as He. unfold js_splice. rewrite <- He. cbn [fst].
  apply Forall2_app; [by apply Forall2_take|]. apply Forall2_app; [|by apply Forall2_drop]. induction items; by constructor.
Qed.

Lemma write_child_eqv a b key v v' : a ≈ b -> v ≈ v' -> write_child a key v ≈ write_child b key v'.
Proof.
  intros H Hv. destruct H as [|x|x y Hn|x|l l' Hl|o o' Ho]; cbn; try (by constructor).
  - destruct key as [k|i]; [by constructor|]. rewrite (Forall2_length _ _ _ Hl). split_if; constructor; [by apply Forall2_insert|].
    apply Forall2_app; [done|by constructor].
  - apply obj_set_eqv; [by constructor|done].
Qed.

Lemma read_string_eqv full a b key s : a ≈ b -> read_string full a key = Ok s -> read_string full b key = Ok s.
Proof.
  unfold read_string. intros H. enough (option_Forall2 json_eqv (read_child a key) (read_child b key)) as Hr.
  { destruct (read_child a key) as [[]|]; try done. apply some_eqv in Hr as (c' & -> & Hc). by inversion Hc. }
  destruct H as [|x|x y Hn|x|l l' Hl|o o' Ho]; cbn; try constructor; [|apply Ho]. destruct key; [constructor|by apply nth_N_eqv].
Qed.

Lemma assertKey_eqv a b key : a ≈ b -> assertKey a key = assertKey b key.
Proof. intros H. destruct H as [|x|x y Hn|x|l l' Hl|o o' Ho]; try done. cbn. by rewrite (Forall2_length _ _ _ Hl). Qed.

Lemma delete_child_eqv full key : respects (fun parent => delete_child full parent key).
Proof.
  intros a b a' H. destruct H as [|x|x y Hn|x|l l' Hl|o o' Ho]; cbn; try done.
  - destruct key as [k|i]; [done|]. rewrite (Forall2_length _ _ _ Hl). intros (u & -> & [= <-])%bind_Ok. cbn [mbind result_bind]. eexists. split; [done|]. constructor. exact (js_splice_eqv l l' i 1 [] Hl).
  - intros [= <-]. eexists. split; [done|]. constructor. intros k. rewrite !obj_get_delete. case_decide; [constructor|apply Ho].
Qed.

Lemma child_op_eqv op full key : respects (child_op op full key).
Proof.
  intros a b a' H. unfold child_op. rewrite (assertKey_eqv _ _ _ H). destruct (assertKey b key) as [[]|]; [|done]. cbn.
  destruct op; try (by intros [= <-]; eexists); try (intros [= <-]; eexists; split; [done|]; by apply write_child_eqv).
  - by apply delete_child_eqv.
  - intros (s' & Hs & [= <-])%bind_Ok. rewrite (read_string_eqv _ _ _ _ _ H Hs). cbn. eexists. split; [done|]. by apply write_child_eqv.
  - intros (s' & Hs & [= <-])%bind_Ok. rewrite (read_string_eqv _ _ _ _ _ H Hs). cbn. eexists. split; [done|]. by apply write_child_eqv.
Qed.

Lemma on_container_eqv p f a b r : respects f -> a ≈ b -> on_container p f (Some a) = Ok r -> exists r', on_container p f (Some b) = Ok r' /\ option_Forall2 json_eqv r r'.
Proof.
  intros Hf Hab. cbn. destruct (modify_at p _ a p) as [a'|e] eqn:E; [|done]. intros [= <-].
  eapply (modify_at_eqv p (fun node => throw_if (negb (isObj node)) (PathError (path_to_json p));; f node)) in E as (b' & E' & Hb); [|clear -Hf|done].
  - rewrite E'. cbn. eexists. split; [done|]. by constructor.
  - intros x y x' Hxy. rewrite (isObj_eqv _ _ Hxy). destruct (throw_if _ _) as [[]|]; [|done]. by apply Hf.
Qed.

Lemma applyOp_eqv op a b r : a ≈ b -> applyOp (Some a) op = Ok r -> exists r', applyOp (Some b) op = Ok r' /\ option_Forall2 json_eqv r r'.
Proof.
  intros Hab. destruct op; cbn [applyOp]; try (apply on_container_eqv; [apply child_op_eqv|done]).
  - intros [= <-]. eexists. split; [done|]. by constructor.
  - apply on_container_eqv; [|done]. intros x y x' H. destruct H as [|? |? ? ?|?|l l' Hl|o o' Ho]; cbn [splice_op]; try done.
    rewrite !spliceItems_js_splice. intros [= <-]. eexists. split; [done|]. constructor. exact (js_splice_eqv l l' index remove items Hl).
  - apply on_container_eqv; [|done]. intros x y x' H. destruct H as [|? |? ? ?|?|l l' Hl|o o' Ho]; cbn; try done.
    rewrite (Forall2_length _ _ _ Hl). intros (u & -> & [= <-])%bind_Ok. cbn. eexists. split; [done|]. constructor.
    clear u. match goal with |- Forall2 _ (omap _ ?m) _ => induction m as [|i m IH]; cbn; [constructor|] end. destruct (nth_N_eqv _ _ i Hl); [by constructor|done].
Qed.

Lemma applyOps_eqv ops a b a' : a ≈ b -> applyOps (Some a) ops = Ok (Some a') -> exists b', applyOps (Some b) ops = Ok (Some b') /\ a' ≈ b'.
Proof.
  unfold applyOps. revert a b. induction ops as [|op ops IH]; intros a b Hab; cbn; [intros [= <-]; by exists b|].
  intros (r & (op' & -> & Hr)%bind_Ok & Hf)%bind_Ok. cbn. destruct (applyOp_eqv _ _ _ _ Hab Hr) as (r' & -> & Hrr). cbn.
  destruct Hrr as [x y Hxy|]; [by eapply IH|]. exfalso. clear -Hr. destruct op'; cbn in Hr; try done; by destruct (modify_at _ _ _ _).
Qed.
End Respects.

(** * Replicas *)

Inductive StateError : Type :=
| DeltaThrown (e : delta_err)
| NotStrictJson
| NotABase
| BeforeHydration
| SequenceGap
| Reentrant.

(** What a tree may hold: [assertPrimitive] refuses numbers that are not finite. *)
Fixpoint strict_json (v : json) : bool :=
  match v with
  | JNum n => isFinite n
  | JArr l => forallb strict_json l
  | JObj o => forallb (fun kv => strict_json (snd kv)) o
  | _ => true
  end.

(** [JsonRevisionStore.adopt]: the tree is checked and frozen. *)
Definition adopt (v : option json) : result StateError json :=
  match v with Some v => if strict_json v then Ok v else Err NotStrictJson | None => Err NotStrictJson end.

Inductive DeliveryKind : Type := HydrateDelivery | UpdateDelivery.
#[export] Instance delivery_kind_eq_dec : EqDecision DeliveryKind.
Proof. solve_decision. Defined.

(** What a listener is told: a value, the sequence it has, and whether it is the
    first.  [rp_told] is all that was told, in order; listeners are numbered and
    do not call the replica back. *)
Record ReplicatedStateReplica : Type := Replica_ {
  rp_listeners : list nat;
  rp_value : option json;
  rp_sequence : option N;
  rp_told : list (nat * (DeliveryKind * N * json));
}.

Definition new_Replica : ReplicatedStateReplica := Replica_ [] None None [].

Definition clear (r : ReplicatedStateReplica) : ReplicatedStateReplica := Replica_ (rp_listeners r) None None (rp_told r).

Definition deliverAll (kind : DeliveryKind) (sequence : N) (r : ReplicatedStateReplica) : ReplicatedStateReplica :=
  match rp_value r with
  | None => r
  | Some value => Replica_ (rp_listeners r) (rp_value r) (rp_sequence r) (rp_told r ++ ((fun l => (l, (kind, sequence, value))) <$> rp_listeners r))
  end.

Definition installed (kind : DeliveryKind) (sequence : N) (next : json) (r : ReplicatedStateReplica) : ReplicatedStateReplica :=
  deliverAll kind sequence (Replica_ (rp_listeners r) (Some next) (Some sequence) (rp_told r)).

(** A [Set]: a listener that is there already keeps its place; it is told the
    value again. *)
Definition replica_subscribe (l : nat) (r : ReplicatedStateReplica) : ReplicatedStateReplica :=
  let listeners := if decide (l ∈ rp_listeners r) then rp_listeners r else rp_listeners r ++ [l] in
  match rp_value r, rp_sequence r with
  | Some value, Some sequence => Replica_ listeners (Some value) (Some sequence) (rp_told r ++ [(l, (HydrateDelivery, sequence, value))])
  | _, _ => Replica_ listeners (rp_value r) (rp_sequence r) (rp_told r)
  end.

Definition replica_unsubscribe (l : nat) (r : ReplicatedStateReplica) : ReplicatedStateReplica :=
  Replica_ (filter (fun l' => l' <> l) (rp_listeners r)) (rp_value r) (rp_sequence r) (rp_told r).

Definition applied (target : option json) (ops : list Op) : result StateError json :=
  match applyImmutable target ops with Err e => Err (DeltaThrown e) | Ok v => adopt v end.

Definition hydrate (sequence : N) (ops : list Op) : SM ReplicatedStateReplica StateError unit := fun r =>
  match (throw_if (negb (isBase ops)) NotABase;; applied None ops) with
  | Err e => (clear r, Err e)
  | Ok next => (installed HydrateDelivery sequence next r, Ok tt)
  end.

Definition update (sequence : N) (ops : list Op) : SM ReplicatedStateReplica StateError unit := fun r =>
  match rp_sequence r, rp_value r with
  | Some current, Some value =>
      if bool_decide (sequence <> current + 1)%N then (clear r, Err SequenceGap)
      else match applied (Some value) ops with
           | Err e => (clear r, Err e)
           | Ok next => (installed UpdateDelivery sequence next r, Ok tt)
           end
  | _, _ => (r, Err BeforeHydration)
  end.

(** ** Replicas and the revisions of their source *)

Section Replica.
Variable h : positive -> rev.
(** The revisions a source went through, the first one at sequence 0. *)
Variable revisions : list rev.
Hypothesis revisions_ok : Forall (rev_ok h) revisions.

Inductive message : Type :=
| Snapshot (sequence : N)
| Batch (sequence : N).

(** What a source sends: a base of a revision, or the batch that leads to it. *)
Definition receive (m : message) : SM ReplicatedStateReplica StateError unit := fun r =>
  match m with
  | Snapshot i => match revisions !! N.to_nat i with Some v => hydrate i [OpR (erase v)] r | None => (r, Ok tt) end
  | Batch i =>
      match revisions !! pred (N.to_nat i), revisions !! N.to_nat i with
      | Some before, Some after => if bool_decide (i = 0)%N then (r, Ok tt) else update i (diffRevisions before after) r
      | _, _ => (r, Ok tt)
      end
  end.

Definition receive_all (ms : list message) (r : ReplicatedStateReplica) : ReplicatedStateReplica := foldl (fun r m => fst (receive m r)) r ms.

(** Cold, or with the revision of its sequence. *)
Definition truthful (r : ReplicatedStateReplica) : Prop :=
  match rp_sequence r, rp_value r with
  | Some i, Some v => json_wf v /\ exists source, revisions !! N.to_nat i = Some source /\ json_eqv (erase source) v
  | None, None => True
  | _, _ => False
  end.

Lemma strict_of_wf v : json_wf v -> strict_json v = true.
Proof.
  induction v as [|b|n|s|l IH|o IH]; intros Hw; cbn; try done; inversion Hw as [| |? _ Hf| |? Hl|? _ _ Ho]; subst; [done| |];
    apply forallb_forall; intros x Hx%list_elem_of_In; rewrite Forall_forall in IH; apply (IH x Hx).
  - rewrite Forall_forall in Hl. by apply Hl.
  - rewrite Forall_forall in Ho. by apply Ho.
Qed.

Lemma revision_wf i v : revisions !! i = Some v -> rev_ok h v.
Proof. intros H. rewrite Forall_forall in revisions_ok. by apply revisions_ok, (list_elem_of_lookup_2 _ i). Qed.

Lemma installed_fields kind i v r : rp_value (installed kind i v r) = Some v /\ rp_sequence (installed kind i v r) = Some i.
Proof. done. Qed.

Lemma applied_base v : json_wf v -> applied None [OpR v] = Ok v.
Proof.
  intros Hv. unfold applied. assert (applyImmutable None [OpR v] = Ok (Some v)) as -> by reflexivity. cbn [adopt]. by rewrite strict_of_wf.
Qed.

Lemma applied_batch before after v : rev_ok h before -> rev_ok h after -> json_wf v -> json_eqv (erase before) v ->
  exists v', applied (Some v) (diffRevisions before after) = Ok v' /\ json_wf v' /\ json_eqv (erase after) v'.
Proof.
  intros Hb Ha Hv He. destruct (diffRevisions_turns h before after Hb Ha) as (_ & Hw & w & Hap & Hwe). unfold apply in Hap.
  destruct (applyOps_eqv _ _ _ _ He Hap) as (v' & Hap' & Hv'). assert (json_wf v') as Hwf.
  { apply (applyOps_wf (Some v) (op_to_json <$> diffRevisions before after) (Some v')); [done| |exact Hap']. apply Forall_fmap. eapply Forall_impl; [exact Hw|]. intros op. apply op_to_json_wf. }
  exists v'. unfold applied. apply (applyImmutable_applyOps (Some v)) in Hap' as ->; [|done|done]. cbn. rewrite strict_of_wf by done.
  split_and!; [done|done|]. etrans; [by symmetry|done].
Qed.

Lemma receive_truthful m r : truthful r -> truthful (fst (receive m r)).
Proof.
  intros Hr. destruct m as [i|i]; cbn.
  - destruct (revisions !! N.to_nat i) as [v|] eqn:Ev; [|done]. unfold hydrate. cbn. rewrite applied_base by (by apply revision_wf in Ev as [_ ?]). cbn.
    apply revision_wf in Ev as Hok. split; [apply Hok|]. exists v. split; [done|]. done.
  - destruct (revisions !! pred _) as [before|] eqn:Eb; [|done]. destruct (revisions !! N.to_nat i) as [after|] eqn:Ea; [|done]. case_bool_decide as Hi; [done|].
    unfold update. destruct (rp_sequence r) as [c|] eqn:Es; [|done]. destruct (rp_value r) as [v|] eqn:Ev; [|done]. case_bool_decide as Hs; [done|].
    unfold truthful in Hr. rewrite Es, Ev in Hr. destruct Hr as (Hw & source & Hc & He).
    assert (source = before) as -> by (rewrite Hs in Eb; replace (pred (N.to_nat (c + 1))) with (N.to_nat c) in Eb by lia; congruence).
    destruct (applied_batch before after v) as (v' & -> & Hw' & He'); [by eapply revision_wf|by eapply revision_wf|done|done|].
    cbn. split; [done|]. by exists after.
Qed.

Lemma receive_all_truthful ms r : truthful r -> truthful (receive_all ms r).
Proof. revert r. induction ms as [|m ms IH]; intros r Hr; [done|]. cbn. by apply IH, receive_truthful. Qed.

Lemma receive_snapshot i v r : revisions !! N.to_nat i = Some v ->
  exists r', receive (Snapshot i) r = (r', Ok tt) /\ rp_sequence r' = Some i /\ rp_value r' = Some (erase v).
Proof. intros Ev. cbn. rewrite Ev. unfold hydrate. cbn. rewrite applied_base by (by apply revision_wf in Ev as [_ ?]). by eexists. Qed.

Lemma receive_batch i v after r : truthful r -> rp_sequence r = Some i -> rp_value r = Some v -> revisions !! S (N.to_nat i) = Some after ->
  exists r' v', receive (Batch (i + 1)) r = (r', Ok tt) /\ rp_sequence r' = Some (i + 1)%N /\ rp_value r' = Some v' /\
    rp_listeners r' = rp_listeners r /\ rp_told r' = rp_told r ++ ((fun l => (l, (UpdateDelivery, i + 1, v'))) <$> rp_listeners r)%N.
Proof.
  intros Hr Es Ev Ea. unfold truthful in Hr. rewrite Es, Ev in Hr. destruct Hr as (Hw & source & Hc & He). cbn.
  replace (pred (N.to_nat (i + 1))) with (N.to_nat i) by lia. replace (N.to_nat (i + 1)) with (S (N.to_nat i)) by lia. rewrite Hc, Ea.
  rewrite bool_decide_false by lia. unfold update. rewrite Es, Ev, bool_decide_false by naive_solver.
  destruct (applied_batch source after v) as (v' & -> & _); [by eapply revision_wf|by eapply revision_wf|done|done|]. by exists (installed UpdateDelivery (i + 1) v' r), v'.
Qed.

(** Batches in their order, from where the replica stands. *)
Fixpoint batches (i : N) (n : nat) : list message := match n with O => [] | S n => Batch (i + 1) :: batches (i + 1) n end.

Lemma receive_batches n i v r : truthful r -> rp_sequence r = Some i -> rp_value r = Some v -> (N.to_nat i + n < length revisions)%nat ->
  rp_sequence (receive_all (batches i n) r) = Some (i + N.of_nat n)%N.
Proof.
  revert i v r. induction n as [|n IH]; intros i v r Hr Es Ev Hl; cbn [batches receive_all foldl]; [rewrite Es; f_equal; lia|].
  destruct (lookup_lt_is_Some_2 revisions (S (N.to_nat i))) as [after Ea]; [lia|].
  destruct (receive_batch i v after r Hr Es Ev Ea) as (r' & v' & Er & Es' & Ev' & _). pose proof (receive_truthful (Batch (i + 1)) r Hr) as Hr'. rewrite Er in Hr' |- *.
  cbn [fst] in *. change (rp_sequence (receive_all (batches (i + 1) n) r') = Some (i + N.of_nat (S n))%N). rewrite (IH (i + 1)%N v' r' Hr' Es' Ev'); [f_equal; lia|lia].
Qed.
End Replica.

(** * States that change

    Listeners are functions, known by number.  What one does when it is called is
    a [script]: it reads and changes the state, subscribes and unsubscribes, also
    itself, and does anything outside; so everything may happen while a change is
    told.  The callback of a change is a script too. *)

Section Source.
Context {Ctx W Ex : Type}.
(** The errors of reentrant changes, and the one error made of several. *)
Variable reentrant : Ex.
Variable aggregate : list Ex -> Ex.

Record Publication : Type := Publication_ { pb_value : rev; pb_ops : list Op; pb_sequence : nat; pb_context : Ctx }.

Record MutableReplicatedState : Type := Mutable_ {
  ms_listeners : list (nat * nat);
  ms_sourceListeners : list nat;
  ms_publications : list Publication;
  ms_value : rev;
  ms_sequence : nat;
  ms_changing : bool;
  ms_delivering : bool;
}.

Definition new_MutableReplicatedState (initial : rev) : MutableReplicatedState := Mutable_ [] [] [] initial 0 false false.

(** A call of a listener, or of a listener of the operations. *)
Inductive call : Type :=
| Tell (l : nat) (kind : DeliveryKind) (sequence : nat) (value : rev) (context : option Ctx)
| Forward (l : nat) (publication : Publication).

Inductive happening : Type :=
| Committed (publication : Publication)
| Called (c : call).

Inductive script : Type :=
| Return (r : result Ex (option rev))
| Outside (step : W -> W) (next : W -> script)
| Look (next : rev -> script)
| Change (context : Ctx) (mutate : rev -> script) (next : result Ex unit -> script)
| Replace (context : Ctx) (value : rev) (next : result Ex unit -> script)
| Subscribe (l : nat) (next : result Ex unit -> script)
| Unsubscribe (l : nat) (next : script)
| SubscribeSource (l : nat) (next : script)
| UnsubscribeSource (l : nat) (next : script).

(** The state, what happened so far, and everything else. *)
Record world : Type := World_ { wd_state : MutableReplicatedState; wd_happened : list happening; wd_outside : W }.
Implicit Types (w : world) (m : MutableReplicatedState).

Definition with_state (f : MutableReplicatedState -> MutableReplicatedState) w : world := World_ (f (wd_state w)) (wd_happened w) (wd_outside w).
Definition happens (e : happening) w : world := World_ (wd_state w) (wd_happened w ++ [e]) (wd_outside w).

Definition with_listeners (ls : list (nat * nat)) m : MutableReplicatedState :=
  Mutable_ ls (ms_sourceListeners m) (ms_publications m) (ms_value m) (ms_sequence m) (ms_changing m) (ms_delivering m).
Definition with_sources (ls : list nat) m : MutableReplicatedState :=
  Mutable_ (ms_listeners m) ls (ms_publications m) (ms_value m) (ms_sequence m) (ms_changing m) (ms_delivering m).
Definition with_publications (ps : list Publication) m : MutableReplicatedState :=
  Mutable_ (ms_listeners m) (ms_sourceListeners m) ps (ms_value m) (ms_sequence m) (ms_changing m) (ms_delivering m).
Definition with_changing (b : bool) m : MutableReplicatedState :=
  Mutable_ (ms_listeners m) (ms_sourceListeners m) (ms_publications m) (ms_value m) (ms_sequence m) b (ms_delivering m).
Definition with_delivering (b : bool) m : MutableReplicatedState :=
  Mutable_ (ms_listeners m) (ms_sourceListeners m) (ms_publications m) (ms_value m) (ms_sequence m) (ms_changing m) b.

Section Calls.
(** What calling does; [None] when the fuel is used up. *)
Variable calls : call -> world -> option (world * result Ex (option rev)).

Definition invoke (c : call) w : option (world * result Ex (option rev)) := calls c (happens (Called c) w).

(** Every one is called, whatever those before it threw. *)
Fixpoint tell_all (cs : list call) w : option (world * list Ex) :=
  match cs with
  | [] => Some (w, [])
  | c :: cs =>
      '(w, r) ← invoke c w;
      '(w, errors) ← tell_all cs w;
      Some (w, match r with Err e => e :: errors | Ok _ => errors end)
  end.

(** One publication: first the listeners of the operations, then those listeners
    that have not been told a later value, as they are subscribed by then. *)
Definition tell_publication (p : Publication) w : option (world * list Ex) :=
  '(w, e1) ← tell_all ((fun l => Forward l p) <$> ms_sourceListeners (wd_state w)) w;
  '(w, e2) ← tell_all ((fun '(l, _) => Tell l UpdateDelivery (pb_sequence p) (pb_value p) (Some (pb_context p))) <$>
                       filter (fun '(_, hydratedSequence) => (hydratedSequence < pb_sequence p)%nat) (ms_listeners (wd_state w))) w;
  Some (w, e1 ++ e2).

Fixpoint deliver_loop (fuel : nat) w : option (world * list Ex) :=
  match ms_publications (wd_state w) with
  | [] => Some (w, [])
  | p :: rest =>
      match fuel with
      | O => None
      | S fuel =>
          '(w, e1) ← tell_publication p (with_state (with_publications rest) w);
          '(w, e2) ← deliver_loop fuel w;
          Some (w, e1 ++ e2)
      end
  end.

Definition thrown_together (errors : list Ex) : result Ex unit := match errors with [] => Ok tt | [e] => Err e | _ => Err (aggregate errors) end.

Definition publish (next : rev) (ops : list Op) (context : Ctx) w : world :=
  let m := wd_state w in
  let p := Publication_ next ops (S (ms_sequence m)) context in
  happens (Committed p)
    (World_ (Mutable_ (ms_listeners m) (ms_sourceListeners m) (ms_publications m ++ [p]) next (S (ms_sequence m)) (ms_changing m) (ms_delivering m)) (wd_happened w) (wd_outside w)).

Definition commit (fuel : nat) (next : rev) (context : Ctx) w : option (world * result Ex unit) :=
  match diffRevisions (ms_value (wd_state w)) next with
  | [] => Some (w, Ok tt)
  | ops =>
      let w := publish next ops context w in
      if ms_delivering (wd_state w) then Some (w, Ok tt)
      else
        '(w, errors) ← deliver_loop fuel (with_state (with_delivering true) w);
        Some (with_state (with_delivering false) w, thrown_together errors)
  end.

Definition subscribe (l : nat) w : option (world * result Ex unit) :=
  let m := wd_state w in
  '(w, r) ← invoke (Tell l HydrateDelivery (ms_sequence m) (ms_value m) None) (with_state (with_listeners (amap_set (ms_listeners m) l (ms_sequence m))) w);
  Some (match r with
        | Err e => (with_state (fun m => with_listeners (amap_delete (ms_listeners m) l) m) w, Err e)
        | Ok _ => (w, Ok tt)
        end).

Fixpoint exec (fuel : nat) (s : script) w : option (world * result Ex (option rev)) :=
  match s with
  | Return r => Some (w, r)
  | Outside step next => let o := step (wd_outside w) in exec fuel (next o) (World_ (wd_state w) (wd_happened w) o)
  | Look next => exec fuel (next (ms_value (wd_state w))) w
  | Change context mutate next =>
      if ms_changing (wd_state w) then exec fuel (next (Err reentrant)) w
      else
        '(w, produced) ← exec fuel (mutate (ms_value (wd_state w))) (with_state (with_changing true) w);
        let w := with_state (with_changing false) w in
        '(w, r) ← match produced with
                  | Err e => Some (w, Err e)
                  | Ok None => Some (w, Ok tt)
                  | Ok (Some v) => if strict_eq v (ms_value (wd_state w)) then Some (w, Ok tt) else commit fuel v context w
                  end;
        exec fuel (next r) w
  | Replace context value next =>
      if ms_changing (wd_state w) then exec fuel (next (Err reentrant)) w
      else '(w, r) ← commit fuel value context w; exec fuel (next r) w
  | Subscribe l next => '(w, r) ← subscribe l w; exec fuel (next r) w
  | Unsubscribe l next => exec fuel next (with_state (fun m => with_listeners (amap_delete (ms_listeners m) l) m) w)
  | SubscribeSource l next =>
      exec fuel next (with_state (fun m => with_sources (if decide (l ∈ ms_sourceListeners m) then ms_sourceListeners m else ms_sourceListeners m ++ [l]) m) w)
  | UnsubscribeSource l next => exec fuel next (with_state (fun m => with_sources (filter (fun l' => l' <> l) (ms_sourceListeners m)) m) w)
  end.
End Calls.

(** What the listeners are. *)
Variable listens : call -> script.

(** Calls within calls, as deep as the fuel. *)
Fixpoint calls (fuel : nat) (c : call) w : option (world * result Ex (option rev)) :=
  match fuel with O => None | S fuel => exec (calls fuel) fuel (listens c) w end.

(** What a program does with a state. *)
Definition run (fuel : nat) (s : script) w : option (world * result Ex (option rev)) := exec (calls fuel) fuel s w.

(** ** What a listener is told *)

Definition committed (es : list happening) : list Publication := omap (fun e => match e with Committed p => Some p | _ => None end) es.

Definition told (l : nat) (es : list happening) : list (DeliveryKind * nat * option rev) :=
  omap (fun e => match e with Called (Tell l' kind sequence value _) => if decide (l' = l) then Some (kind, sequence, Some value) else None | _ => None end) es.

(** The first revision and all that were committed. *)
Variable initial : rev.
Definition revisions_of (es : list happening) : list rev := initial :: (pb_value <$> committed es).

(** First a value at its sequence, then every later one up to [j]. *)
Definition in_order (rs : list rev) (i j : nat) : list (DeliveryKind * nat * option rev) :=
  (HydrateDelivery, i, rs !! i) :: ((fun k => (UpdateDelivery, k, rs !! k)) <$> seq (S i) (j - i)).

(** The listener is not subscribed twice; others may be. *)
Definition once (l : nat) (es : list happening) : Prop := (length (filter (fun d => fst (fst d) = HydrateDelivery) (told l es)) <= 1)%nat.

Lemma in_order_app rs x i j : (i < length rs)%nat -> (j < length rs)%nat -> in_order (rs ++ x) i j = in_order rs i j.
Proof.
  intros Hi Hj. unfold in_order. rewrite lookup_app_l by done. f_equal. apply list_fmap_ext. intros n k Hk%lookup_seq. rewrite lookup_app_l by lia. done.
Qed.

Lemma in_order_snoc rs i j : (i <= j)%nat -> in_order rs i (S j) = in_order rs i j ++ [(UpdateDelivery, S j, rs !! S j)].
Proof.
  intros Hij. unfold in_order. replace (S j - i)%nat with (S (j - i)) by lia. rewrite seq_S, fmap_app. cbn. do 4 f_equal; f_equal; f_equal; lia.
Qed.

Lemma in_order_inj rs rs' i i' j j' : in_order rs i j = in_order rs' i' j' -> i = i' /\ (j - i = j' - i')%nat.
Proof. intros H. injection H as -> _ H. split; [done|]. apply (f_equal length) in H. by rewrite !length_fmap, !length_seq in H. Qed.

Lemma committed_app a b : committed (a ++ b) = committed a ++ committed b.
Proof. apply omap_app. Qed.
Lemma told_app l a b : told l (a ++ b) = told l a ++ told l b.
Proof. apply omap_app. Qed.

Lemma once_prefix l a b : once l (a ++ b) -> once l a.
Proof. unfold once. intros H. rewrite told_app, filter_app, length_app in H. lia. Qed.

(** The listener whose account is kept. *)
Variable one : nat.

(** [b]: changes are being told; [q] publications were taken from the queue; the
    listener was told up to [k], or up to [k - 1] as long as it is in [rest]. *)
Record telling (b : bool) (q k : nat) (rest : list (nat * nat)) (w : world) : Prop := Telling_ {
  te_count : length (committed (wd_happened w)) = ms_sequence (wd_state w);
  te_value : revisions_of (wd_happened w) !! ms_sequence (wd_state w) = Some (ms_value (wd_state w));
  te_sequences : forall i p, committed (wd_happened w) !! i = Some p -> pb_sequence p = S i;
  te_queue : ms_publications (wd_state w) = drop q (committed (wd_happened w));
  te_bounds : (k <= q <= ms_sequence (wd_state w))%nat;
  te_delivering : ms_delivering (wd_state w) = b;
  te_idle : b = false -> q = ms_sequence (wd_state w) /\ k = ms_sequence (wd_state w) /\ rest = [];
  te_once : NoDup (ms_listeners (wd_state w)).*1;
  te_rest_once : NoDup rest.*1;
  te_listeners : forall h, (one, h) ∈ ms_listeners (wd_state w) -> (h <= ms_sequence (wd_state w))%nat /\
    told one (wd_happened w) = in_order (revisions_of (wd_happened w)) h (if decide (one ∈ rest.*1) then pred k else Nat.max h k);
  te_rest : forall h, (one, h) ∈ rest -> (h < k)%nat /\ told one (wd_happened w) = in_order (revisions_of (wd_happened w)) h (pred k);
  te_told : told one (wd_happened w) = [] \/ exists i j, (i <= j <= ms_sequence (wd_state w))%nat /\ told one (wd_happened w) = in_order (revisions_of (wd_happened w)) i j;
}.

Definition extends (w w' : world) : Prop := exists es, wd_happened w' = wd_happened w ++ es.

#[local] Instance extends_preorder : PreOrder extends.
Proof.
  split; [intros w; exists []; by rewrite app_nil_r|]. intros w1 w2 w3 [es1 H1] [es2 H2]. exists (es1 ++ es2). by rewrite H2, H1, app_assoc.
Qed.

(** What any step does to the account: the queue and the round stay while changes
    are told, and all is told when they are not. *)
Definition keeps (w w' : world) : Prop :=
  extends w w' /\ forall b q k rest, telling b q k rest w -> once one (wd_happened w') -> exists q' k', telling b q' k' rest w' /\ (b = true -> q' = q /\ k' = k).

#[local] Instance keeps_preorder : PreOrder keeps.
Proof.
  split; [intros w; split; [done|]; intros b q k rest H _; by exists q, k|]. intros w1 w2 w3 [E1 H1] [E2 H2]. split; [by etrans|]. intros b q k rest H Ho.
  destruct (H1 b q k rest H) as (q1 & k1 & T1 & K1); [destruct E2 as [es E2]; rewrite E2 in Ho; by eapply once_prefix|].
  destruct (H2 b q1 k1 rest T1 Ho) as (q2 & k2 & T2 & K2). exists q2, k2. split; [done|]. intros Hb. destruct (K1 Hb) as [-> ->]. by apply K2.
Qed.

(** Only some fields matter. *)
Lemma telling_same b q k rest w w' :
  committed (wd_happened w') = committed (wd_happened w) -> told one (wd_happened w') = told one (wd_happened w) ->
  ms_publications (wd_state w') = ms_publications (wd_state w) -> ms_value (wd_state w') = ms_value (wd_state w) ->
  ms_sequence (wd_state w') = ms_sequence (wd_state w) -> ms_delivering (wd_state w') = ms_delivering (wd_state w) ->
  NoDup (ms_listeners (wd_state w')).*1 -> ms_listeners (wd_state w') ⊆ ms_listeners (wd_state w) ->
  telling b q k rest w -> telling b q k rest w'.
Proof.
  intros Ec Et Ep Ev Es Ed Hn Hl [H1 H2 H3 H4 H5 H6 H7 H8 H9 H10 H11 H12]. assert (revisions_of (wd_happened w') = revisions_of (wd_happened w)) as Er by (unfold revisions_of; by rewrite Ec).
  split; rewrite ?Er, ?Ec, ?Ep, ?Ev, ?Es, ?Ed; try done.
  - intros h Hin. rewrite Et. by apply H10, Hl.
  - intros h Hin. rewrite Et. by apply H11.
  - rewrite Et. apply H12.
Qed.

Lemma keeps_same w w' es :
  wd_happened w' = wd_happened w ++ es -> committed es = [] -> (forall l, told l es = []) ->
  ms_publications (wd_state w') = ms_publications (wd_state w) -> ms_value (wd_state w') = ms_value (wd_state w) ->
  ms_sequence (wd_state w') = ms_sequence (wd_state w) -> ms_delivering (wd_state w') = ms_delivering (wd_state w) ->
  (NoDup (ms_listeners (wd_state w)).*1 -> NoDup (ms_listeners (wd_state w')).*1) -> ms_listeners (wd_state w') ⊆ ms_listeners (wd_state w) ->
  keeps w w'.
Proof.
  intros Eh Hc Ht ? ? ? ? Hn ?. split; [by exists es|]. intros b q k rest T _. exists q, k. split; [|done]. apply (telling_same b q k rest w w'); try done.
  - by rewrite Eh, committed_app, Hc, app_nil_r.
  - by rewrite Eh, told_app, Ht, app_nil_r.
  - apply Hn, T.
Qed.

Lemma told_tell l l' kind i v c : told l [Called (Tell l' kind i v c)] = if decide (l' = l) then [(kind, i, Some v)] else [].
Proof. unfold told. cbn. by case_decide. Qed.

#[local] Arguments told : simpl never.
#[local] Arguments committed : simpl never.

Lemma revisions_length w : length (revisions_of (wd_happened w)) = S (length (committed (wd_happened w))).
Proof. unfold revisions_of. cbn. by rewrite length_fmap. Qed.

(** Before the subscription of [once] nothing was told. *)
Lemma hydrate_first l es i v c : once l (es ++ [Called (Tell l HydrateDelivery i v c)]) -> (told l es = [] \/ exists a b rs, told l es = in_order rs a b) -> told l es = [].
Proof.
  unfold once. intros Ho [H|(a & b & rs & H)]; [done|]. rewrite told_app, told_tell, decide_True, H in Ho by done.
  unfold in_order in Ho. rewrite filter_app, length_app, !filter_cons, !decide_True in Ho by done. cbn [length] in Ho. lia.
Qed.

(** Telling another listener, whatever becomes of the others who listen. *)
Lemma telling_other b q k rest rest' l kind i v c ls w :
  l <> one -> (forall h, (one, h) ∈ rest' <-> (one, h) ∈ rest) -> NoDup rest'.*1 -> (b = false -> rest' = []) -> NoDup ls.*1 -> (forall h, (one, h) ∈ ls -> (one, h) ∈ ms_listeners (wd_state w)) ->
  telling b q k rest w -> telling b q k rest' (happens (Called (Tell l kind i v c)) (with_state (with_listeners ls) w)).
Proof.
  intros Hne Hr Hn Hb Hls Hl [H1 H2 H3 H4 H5 H6 H7 H8 H9 H10 H11 H12]. set (w' := happens _ _).
  assert (committed (wd_happened w') = committed (wd_happened w)) as Ec by (cbn; rewrite committed_app; apply app_nil_r).
  assert (revisions_of (wd_happened w') = revisions_of (wd_happened w)) as Er by (unfold revisions_of; by rewrite Ec).
  assert (told one (wd_happened w') = told one (wd_happened w)) as Et by (cbn; rewrite told_app, told_tell, decide_False by done; apply app_nil_r).
  assert (one ∈ rest'.*1 <-> one ∈ rest.*1) as Hin1 by (rewrite !list_elem_of_fmap; split; intros ([? h] & E & Hin); cbn in E; rewrite <- E in Hin; exists (one, h); (split; [done|]); by apply Hr).
  split; rewrite ?Er, ?Ec, ?Et; try done.
  - intros E. destruct (H7 E) as (? & ? & _). auto.
  - intros h Hin%Hl. destruct (H10 h Hin) as [? ->]. split; [done|]. f_equal. by apply decide_ext.
  - intros h Hin%Hr. by apply H11.
Qed.

Lemma telling_hydrate b q k rest l w :
  let w' := happens (Called (Tell l HydrateDelivery (ms_sequence (wd_state w)) (ms_value (wd_state w)) None))
              (with_state (with_listeners (amap_set (ms_listeners (wd_state w)) l (ms_sequence (wd_state w)))) w) in
  telling b q k rest w -> once one (wd_happened w') -> telling b q k rest w'.
Proof.
  destruct (decide (l = one)) as [->|Hne].
  2: { intros w' T _. apply (telling_other b q k rest); try done; [apply T|intros E; by destruct (te_idle _ _ _ _ _ T E) as (_ & _ & ?)|apply amap_set_NoDup, T|]. intros h [He|Hin]%amap_set_elem; [congruence|done]. }
  intros w' [H1 H2 H3 H4 H5 H6 H7 H8 H9 H10 H11 H12] Ho. set (n := ms_sequence (wd_state w)) in *.
  assert (told one (wd_happened w) = []) as Hl.
  { eapply hydrate_first; [exact Ho|]. destruct H12 as [H|(i & j & _ & H)]; [by left|right; eauto]. }
  assert (forall h, (one, h) ∉ rest) as Hr by (intros h Hin; apply H11 in Hin as [_ Hin]; by rewrite Hl in Hin).
  assert (committed (wd_happened w') = committed (wd_happened w)) as Ec by (cbn; rewrite committed_app; apply app_nil_r).
  assert (revisions_of (wd_happened w') = revisions_of (wd_happened w)) as Er by (unfold revisions_of; by rewrite Ec).
  assert (told one (wd_happened w') = in_order (revisions_of (wd_happened w)) n n) as Hnew.
  { cbn. rewrite told_app, told_tell, Hl, decide_True by done. unfold in_order. by rewrite Nat.sub_diag, H2. }
  split; rewrite ?Er, ?Ec; try done.
  - by apply amap_set_NoDup.
  - intros h [[= ->]|Hin]%amap_set_elem.
    + split; [done|]. rewrite Hnew, decide_False by (intros ([? ?] & -> & Hin)%list_elem_of_fmap; by apply Hr in Hin). f_equal. change (ms_sequence (wd_state w)) with n. lia.
    + apply H10 in Hin as [_ Hin]. by rewrite Hl in Hin.
  - intros h Hin. by apply Hr in Hin.
  - right. exists n, n. split; [cbn; lia|done].
Qed.

(** A listener in [rest] is told the value of the round. *)
Lemma telling_update q k l h rest p w :
  committed (wd_happened w) !! pred k = Some p -> pb_sequence p = k -> telling true q k ((l, h) :: rest) w ->
  telling true q k rest (happens (Called (Tell l UpdateDelivery (pb_sequence p) (pb_value p) (Some (pb_context p)))) w).
Proof.
  intros Hp Hk T. destruct (decide (l = one)) as [->|Hne].
  2: { replace w with (with_state (with_listeners (ms_listeners (wd_state w))) w) by (destruct w as [[] ? ?]; done). apply (telling_other true q k ((l, h) :: rest)); try done; [| |apply T].
       - intros h'. rewrite elem_of_cons. split; [by right|]. intros [He|?]; [congruence|done].
       - pose proof (te_rest_once _ _ _ _ _ T) as Hn. by apply NoDup_cons in Hn as [_ Hn]. }
  destruct T as [H1 H2 H3 H4 H5 H6 H7 H8 H9 H10 H11 H12]. set (w' := happens _ w).
  destruct (H11 h) as [Hhk Hl]; [left|].
  assert (committed (wd_happened w') = committed (wd_happened w)) as Ec by (cbn; rewrite committed_app; apply app_nil_r).
  assert (revisions_of (wd_happened w') = revisions_of (wd_happened w)) as Er by (unfold revisions_of; by rewrite Ec).
  assert (told one (wd_happened w') = in_order (revisions_of (wd_happened w)) h k) as Hnew.
  { cbn. rewrite told_app, told_tell, Hl, decide_True, Hk by done. destruct k as [|k]; [lia|]. cbn [pred] in *. rewrite in_order_snoc by lia. do 3 f_equal.
    change (Some (pb_value p) = (pb_value <$> committed (wd_happened w)) !! k). by rewrite list_lookup_fmap, Hp. }
  apply NoDup_cons in H9 as [Hni H9]. cbn in Hni. split; rewrite ?Er, ?Ec; try done.
  - intros h' Hin. specialize (H10 h' Hin) as [Hb Ht]. split; [done|].
    rewrite decide_True in Ht by (left). rewrite Hl in Ht. apply in_order_inj in Ht as [<- _]. rewrite Hnew, decide_False by done. f_equal. lia.
  - intros h' Hin. destruct Hni. by apply (list_elem_of_fmap_2 fst) in Hin.
  - right. exists h, k. split; [|done]. cbn. lia.
Qed.

Lemma telling_publish b q k rest next ops context w :
  telling b q k rest w ->
  let w' := publish next ops context w in telling true q k rest (with_state (with_delivering true) w').
Proof.
  intros [H1 H2 H3 H4 H5 H6 H7 H8 H9 H10 H11 H12] w'. set (n := ms_sequence (wd_state w)) in *.
  assert (committed (wd_happened w') = committed (wd_happened w) ++ [Publication_ next ops (S n) context]) as Ec by (cbn; by rewrite committed_app).
  assert (revisions_of (wd_happened w') = revisions_of (wd_happened w) ++ [next]) as Er by (unfold revisions_of; rewrite Ec, fmap_app; done).
  assert (forall l, told l (wd_happened w') = told l (wd_happened w)) as Et by (intros l; cbn; rewrite told_app; apply app_nil_r).
  assert (forall i j, (i <= n)%nat -> (j <= n)%nat -> in_order (revisions_of (wd_happened w')) i j = in_order (revisions_of (wd_happened w)) i j) as Eo.
  { intros i j Hi Hj. rewrite Er. apply in_order_app; rewrite revisions_length; lia. }
  split; cbn [with_state with_delivering wd_state wd_happened wd_outside ms_listeners ms_publications ms_value ms_sequence ms_delivering] in *;
    change (wd_state w') with (Mutable_ (ms_listeners (wd_state w)) (ms_sourceListeners (wd_state w)) (ms_publications (wd_state w) ++ [Publication_ next ops (S n) context]) next (S n) (ms_changing (wd_state w)) (ms_delivering (wd_state w)));
    cbn [ms_listeners ms_publications ms_value ms_sequence ms_delivering]; try done.
  - rewrite Ec, length_app, H1. cbn. lia.
  - rewrite Er, lookup_app_r; rewrite revisions_length, H1; [|lia]. by rewrite Nat.sub_diag.
  - intros i p. rewrite Ec, lookup_app_Some. intros [Hp|[Hi Hp]]; [by apply H3|]. apply list_lookup_singleton_Some in Hp as [Hi' <-]. cbn. lia.
  - rewrite Ec, H4, drop_app_le by lia. done.
  - lia.
  - intros h Hin. destruct (H10 h Hin) as [Hb Ht]. split; [lia|]. rewrite Et, Ht, Eo; [done|lia|case_decide; lia].
  - intros h Hin. destruct (H11 h Hin) as [Hb Ht]. split; [done|]. rewrite Et, Ht, Eo; [done|lia|lia].
  - rewrite Et. destruct H12 as [H|(i & j & Hij & H)]; [by left|right]. exists i, j. split; [lia|]. rewrite Eo by lia. done.
Qed.

(** ** Steps keep the account *)

Lemma extends_committed w w' i p : extends w w' -> committed (wd_happened w) !! i = Some p -> committed (wd_happened w') !! i = Some p.
Proof. intros [es ->] Hp. rewrite committed_app. by apply lookup_app_l_Some. Qed.

Lemma once_extends w w' : extends w w' -> once one (wd_happened w') -> once one (wd_happened w).
Proof. intros [es ->]. apply once_prefix. Qed.

Lemma keeps_forward l p w : keeps w (happens (Called (Forward l p)) w).
Proof. by apply (keeps_same _ _ [Called (Forward l p)]). Qed.

Lemma keeps_hydrate l w : keeps w (happens (Called (Tell l HydrateDelivery (ms_sequence (wd_state w)) (ms_value (wd_state w)) None))
  (with_state (with_listeners (amap_set (ms_listeners (wd_state w)) l (ms_sequence (wd_state w)))) w)).
Proof. split; [by eexists|]. intros b q k rest T Ho. exists q, k. split; [by apply telling_hydrate|done]. Qed.

Lemma keeps_unsubscribe l w : keeps w (with_state (fun m => with_listeners (amap_delete (ms_listeners m) l) m) w).
Proof.
  apply (keeps_same _ _ []); try done; cbn; [by rewrite app_nil_r|apply amap_delete_NoDup|]. intros kv. by rewrite amap_delete_elem; intros [? _].
Qed.

Lemma telling_snapshot k w : telling true (S k) k [] w ->
  telling true (S k) (S k) (filter (fun '(_, h) => (h < S k)%nat) (ms_listeners (wd_state w))) w.
Proof.
  intros [H1 H2 H3 H4 H5 H6 H7 H8 H9 H10 H11 H12]. set (rest := filter _ _).
  assert (forall l h, (l, h) ∈ rest <-> (h < S k)%nat /\ (l, h) ∈ ms_listeners (wd_state w)) as Hr by (intros l h; unfold rest; by rewrite list_elem_of_filter).
  assert (forall h, (one, h) ∈ ms_listeners (wd_state w) -> told one (wd_happened w) = in_order (revisions_of (wd_happened w)) h (Nat.max h k)) as Ht by (intros h Hin; by apply H10).
  split; try done.
  - lia.
  - unfold rest. clear -H8. induction (ms_listeners (wd_state w)) as [|[l h] ls IH]; [done|]. cbn in H8. apply NoDup_cons in H8 as [Hni H8]. rewrite filter_cons.
    case_decide; [|by apply IH]. cbn. apply NoDup_cons. split; [|by apply IH]. intros (kv & -> & [_ Hin]%list_elem_of_filter)%list_elem_of_fmap. apply Hni. by apply list_elem_of_fmap_2.
  - intros h Hin. split; [by apply H10 in Hin as [? _]|]. rewrite (Ht h Hin). f_equal. clear H10. case_decide as Hd.
    + apply list_elem_of_fmap in Hd as ([l' h'] & El & [Hh Hin']%Hr). cbn in El. rewrite <- El in Hin'. apply amap_get_elem in Hin, Hin'; [|done..]. cbn in *. assert (h = h') as -> by congruence. lia.
    + assert (~ (h < S k)%nat) by (intros Hh; apply Hd; apply (list_elem_of_fmap_2 fst rest (one, h)); by apply Hr). lia.
  - intros h [Hh Hin]%Hr. split; [done|]. rewrite (Ht h Hin). f_equal. cbn. lia.
Qed.

Lemma telling_pop k p rest w : telling true k k [] w -> ms_publications (wd_state w) = p :: rest ->
  telling true (S k) k [] (with_state (with_publications rest) w) /\ committed (wd_happened w) !! k = Some p /\ pb_sequence p = S k.
Proof.
  intros [H1 H2 H3 H4 H5 H6 H7 H8 H9 H10 H11 H12] Ep. rewrite Ep in H4.
  assert (committed (wd_happened w) !! k = Some p) as Hp by (rewrite <- (Nat.add_0_r k), <- lookup_drop, <- H4; done).
  split; [|split; [done|by apply H3]]. apply lookup_lt_Some in Hp as Hl. rewrite H1 in Hl. split; try done; cbn.
  - apply (f_equal (drop 1)) in H4. rewrite drop_drop in H4. rewrite Nat.add_1_r in H4. exact H4.
  - lia.
Qed.

Section Keeping.
Variable calls : call -> world -> option (world * result Ex (option rev)).
Hypothesis calls_keep : forall c w w' r, calls c w = Some (w', r) -> keeps w w'.

Lemma forwarded p ls w w' es : tell_all calls ((fun l => Forward l p) <$> ls) w = Some (w', es) -> keeps w w'.
Proof.
  revert w w' es. induction ls as [|l ls IH]; intros w w' es; cbn [fmap list_fmap tell_all]; [by intros [= <- _]|]. unfold invoke.
  destruct (calls _ _) as [[w1 r]|] eqn:E1; cbn; [|done]. destruct (tell_all _ _ w1) as [[w2 es']|] eqn:E2; cbn; [|done]. intros [= <- _].
  etrans; [apply (keeps_forward l p)|]. etrans; [by eapply calls_keep|by eapply IH].
Qed.

Lemma all_told p rest q k w w' es : tell_all calls ((fun '(l, _) => Tell l UpdateDelivery (pb_sequence p) (pb_value p) (Some (pb_context p))) <$> rest) w = Some (w', es) ->
  extends w w' /\ (committed (wd_happened w) !! pred k = Some p -> pb_sequence p = k -> telling true q k rest w -> once one (wd_happened w') -> telling true q k [] w').
Proof.
  revert w w' es. induction rest as [|[l h] rest IH]; intros w w' es; cbn [fmap list_fmap tell_all]; [by intros [= <- _]|]. unfold invoke.
  set (w0 := happens _ w). assert (extends w w0) as E0 by (by eexists).
  destruct (calls _ w0) as [[w1 r]|] eqn:E1; cbn; [|done]. destruct (tell_all _ _ w1) as [[w2 es']|] eqn:E2; cbn; [|done]. intros [= <- _].
  apply calls_keep in E1 as [E1 K1]. destruct (IH _ _ _ E2) as [E3 K3]. split; [by etrans; [|etrans]|]. intros Hp Hk T Ho.
  destruct (K1 true q k rest) as (q' & k' & T1 & Hqk); [by apply (telling_update _ _ _ h)|by eapply once_extends|]. destruct (Hqk eq_refl) as [-> ->].
  apply K3; [|done..]. eapply extends_committed; [|exact Hp]. by etrans.
Qed.

Lemma publication_told k p w w' es : tell_publication calls p w = Some (w', es) ->
  extends w w' /\ (committed (wd_happened w) !! k = Some p -> pb_sequence p = S k -> telling true (S k) k [] w -> once one (wd_happened w') -> telling true (S k) (S k) [] w').
Proof.
  unfold tell_publication. destruct (tell_all _ _ w) as [[w1 es1]|] eqn:E1; cbn [mbind option_bind]; [|done].
  destruct (tell_all _ _ w1) as [[w2 es2]|] eqn:E2; cbn [mbind option_bind]; [|done]. intros [= <- _].
  apply forwarded in E1 as [E1 K1]. apply (all_told _ _ (S k) (S k)) in E2 as [E2 K2]. split; [by etrans|]. intros Hp Hs T Ho.
  destruct (K1 _ _ _ _ T) as (q' & k' & T1 & Hqk); [by eapply once_extends|]. destruct (Hqk eq_refl) as [-> ->].
  apply K2; [by eapply extends_committed|done| |done]. rewrite Hs. by apply telling_snapshot.
Qed.

Lemma loop_tells fuel k w w' es : deliver_loop calls fuel w = Some (w', es) ->
  extends w w' /\ (telling true k k [] w -> once one (wd_happened w') -> exists k', telling true k' k' [] w' /\ ms_publications (wd_state w') = []).
Proof.
  revert k w w' es. induction fuel as [|fuel IH]; intros k w w' es; cbn [deliver_loop]; destruct (ms_publications (wd_state w)) as [|p rest] eqn:Ep; try done;
    try (intros [= <- _]; split; [done|by exists k]).
  destruct (tell_publication _ p _) as [[w1 es1]|] eqn:E1; cbn [mbind option_bind]; [|done].
  destruct (deliver_loop _ fuel w1) as [[w2 es2]|] eqn:E2; cbn [mbind option_bind]; [|done]. intros [= <- _].
  apply (publication_told k) in E1 as [[ex E1] K1]. destruct (IH (S k) _ _ _ E2) as [E2' K2]. split; [etrans; [|done]; by exists ex|]. intros T Ho.
  destruct (telling_pop _ _ _ _ T Ep) as (T1 & Hp & Hs). apply K2; [|done]. apply K1; [done..|]. by eapply once_extends.
Qed.

Lemma keeps_commit fuel next context w w' r : commit calls fuel next context w = Some (w', r) -> keeps w w'.
Proof.
  unfold commit. destruct (diffRevisions _ next) as [|op ops]; [by intros [= <- _]|]. set (w1 := publish _ _ _ _).
  assert (extends w w1) as E1 by (by eexists). change (ms_delivering (wd_state w1)) with (ms_delivering (wd_state w)). destruct (ms_delivering (wd_state w)) eqn:Ed.
  - intros [= <- _]. split; [done|]. intros b q k rest T _. exists q, k. split; [|done]. rewrite (te_delivering _ _ _ _ _ T) in Ed. subst b.
    apply (telling_publish _ _ _ _ next (op :: ops) context) in T as T1. pose proof (te_delivering _ _ _ _ _ T) as Ed. pose proof (te_once _ _ _ _ _ T) as Hn.
    by apply (telling_same true q k rest (with_state (with_delivering true) w1)).
  - destruct (deliver_loop _ _ _) as [[w2 es]|] eqn:El; cbn [mbind option_bind]; [|done]. intros [= <- _]. split; [transitivity w1; [done|]; apply (loop_tells _ 0) in El as [[es' El] _]; by exists es'|].
    intros b q k rest T Ho. rewrite (te_delivering _ _ _ _ _ T) in Ed. subst b. destruct (te_idle _ _ _ _ _ T eq_refl) as (-> & -> & ->).
    apply (telling_publish _ _ _ _ next (op :: ops) context) in T. apply (loop_tells _ (ms_sequence (wd_state w))) in El as [_ K]. destruct (K T Ho) as (k' & [H1 H2 H3 H4 H5 H6 H7 H8 H9 H10 H11 H12] & Ep).
    exists (ms_sequence (wd_state w2)), (ms_sequence (wd_state w2)). split; [|done]. rewrite Ep in H4. symmetry in H4. apply (f_equal length) in H4. rewrite length_drop, H1 in H4. cbn in H4.
    assert (k' = ms_sequence (wd_state w2)) as -> by lia. split; try done; cbn; first [lia|rewrite Ep, drop_ge; [done|lia]].
Qed.

Lemma keeps_subscribe l w w' r : subscribe calls l w = Some (w', r) -> keeps w w'.
Proof.
  unfold subscribe, invoke. destruct (calls _ _) as [[w1 r1]|] eqn:E1; cbn [mbind option_bind]; [|done]. intros H1.
  assert (keeps w w1) as K1 by (etrans; [apply (keeps_hydrate l)|by eapply calls_keep]). destruct r1 as [v|e]; injection H1 as <- _; [done|]. etrans; [done|apply keeps_unsubscribe].
Qed.

Lemma keeps_exec fuel s w w' r : exec calls fuel s w = Some (w', r) -> keeps w w'.
Proof.
  revert w w' r. induction s as [r0|step next IH|next IH|c mutate IHm next IH|c v next IH|l next IH|l next IH|l next IH|l next IH]; intros w w' r; cbn [exec].
  - by intros [= <- _].
  - intros H1%IH. etrans; [|exact H1]. apply (keeps_same _ _ []); try done. cbn. by rewrite app_nil_r.
  - apply IH.
  - destruct (ms_changing _); [apply IH|]. destruct (exec _ _ (mutate _) _) as [[w1 produced]|] eqn:E1; cbn [mbind option_bind]; [|done]. apply IHm in E1.
    set (w2 := with_state (with_changing false) w1).
    assert (keeps w w2) as K2.
    { etrans; [apply (keeps_same _ (with_state (with_changing true) w) []); try done; cbn; by rewrite app_nil_r|]. etrans; [exact E1|]. apply (keeps_same _ _ []); try done; cbn; by rewrite app_nil_r. }
    destruct (match produced with Ok None => _ | _ => _ end) as [[w3 r3]|] eqn:E3; cbn [mbind option_bind]; [|done]. intros H1%IH. etrans; [exact K2|]. etrans; [|exact H1].
    destruct produced as [[v|]|e]; [|by injection E3 as <- _|by injection E3 as <- _]. destruct (strict_eq v _); [by injection E3 as <- _|by eapply keeps_commit].
  - destruct (ms_changing _); [apply IH|]. destruct (commit _ _ v c w) as [[w1 r1]|] eqn:E1; cbn [mbind option_bind]; [|done]. intros H1%IH. etrans; [by eapply keeps_commit|done].
  - destruct (subscribe _ l w) as [[w1 r1]|] eqn:E1; cbn [mbind option_bind]; [|done]. intros H1%IH. etrans; [by eapply keeps_subscribe|done].
  - intros H1%IH. etrans; [apply keeps_unsubscribe|exact H1].
  - intros H1%IH. etrans; [|exact H1]. apply (keeps_same _ _ []); try done. cbn. by rewrite app_nil_r.
  - intros H1%IH. etrans; [|exact H1]. apply (keeps_same _ _ []); try done. cbn. by rewrite app_nil_r.
Qed.
End Keeping.


Lemma keeps_calls fuel c w w' r : calls fuel c w = Some (w', r) -> keeps w w'.
Proof. revert c w w' r. induction fuel as [|fuel IH]; intros c w w' r; cbn [calls]; [done|]. by apply keeps_exec. Qed.

Lemma run_keeps fuel s w w' r : run fuel s w = Some (w', r) -> keeps w w'.
Proof. apply keeps_exec. intros c w1 w2 r1. apply keeps_calls. Qed.

Lemma telling_new o : telling false 0 0 [] (World_ (new_MutableReplicatedState initial) [] o).
Proof. split; try done; cbn; [apply NoDup_nil_2|apply NoDup_nil_2|by intros ? ?%elem_of_nil|by intros ? ?%elem_of_nil|by left]. Qed.
End Source.
