(* ===== verification/ChordTheorems.v ===== *)
(** What the facets of a host and the replicated states of chord guarantee
    ([packages/chord/src/facets/host.ts], [services/state.ts]). *)
From stdpp Require Import relations.
From S2P Require Import Prelude JsBase Json DeltaOps DeltaDiff ServiceState StateDiff StateDiffSpec FacetGraph ReplicatedState.

(** * Facets *)

(** C13: [validateFacets] ends, and puts the facets of a host in an order in which
    every facet comes after those it depends on, when every service has one
    provider and every requirement is met; every error it throws otherwise means
    what it says, and a cycle is one. *)
Theorem facets_ordered records externalServices :
  NoDup (fs_facetId <$> records) -> NoDup externalServices.*1 -> Forall (fun record => NoDup (fs_provides record)) records ->
  exists r, validateFacets records externalServices = Some r /\
    match r with Ok order => startable records externalServices order | Err e => error_means records externalServices e end.
Proof. apply validateFacets_spec. Qed.

Definition reference (name : string) (mode : ServiceMode) : FacetServiceReference := Reference_ (js name) mode.

(** A view on a store that a log and a clock from outside feed, given last first. *)
Definition sample_facets : list FacetShape :=
  [FacetShape_ (js "view") [reference "store" Singleton; reference "log" Keyed] [];
   FacetShape_ (js "log") [reference "clock" Singleton] [reference "log" Keyed];
   FacetShape_ (js "store") [reference "log" Keyed] [reference "store" Singleton]].

Definition sample_services : list (jsstr * ServiceMode) := [(js "clock", Singleton)].

Ltac no_dup := repeat (apply NoDup_cons; split; [cbn; rewrite ?not_elem_of_cons; repeat split; try (by apply not_elem_of_nil); vm_compute; discriminate|]); apply NoDup_nil_2.

Lemma facets_ordered_witness :
  validateFacets sample_facets sample_services = Some (Ok [js "log"; js "store"; js "view"]) /\
  startable sample_facets sample_services [js "log"; js "store"; js "view"].
Proof.
  assert (validateFacets sample_facets sample_services = Some (Ok [js "log"; js "store"; js "view"])) as E by (vm_compute; reflexivity).
  split; [exact E|]. destruct (facets_ordered sample_facets sample_services) as (r & Er & Hr); [no_dup|no_dup| |].
  { repeat apply Forall_cons_2; try apply Forall_nil_2; no_dup. }
  rewrite E in Er. injection Er as <-. exact Hr.
Defined.

Example facets_refused :
  validateFacets [FacetShape_ (js "a") [reference "b" Singleton] [reference "a" Singleton]; FacetShape_ (js "b") [reference "a" Singleton] [reference "b" Singleton];
                  FacetShape_ (js "c") [reference "a" Singleton] []] [] = Some (Err (DependencyCycle [js "a"; js "b"; js "c"])) /\
  validateFacets [FacetShape_ (js "a") [reference "b" Singleton] []] [(js "b", Keyed)] = Some (Err (ProvidedAs (js "a") (js "b") Singleton None Keyed)) /\
  validateFacets [FacetShape_ (js "a") [reference "b" Singleton] []] [] = Some (Err (NotProvided (js "a") (js "b") Singleton)).
Proof. vm_compute. auto. Qed.

(** C37: started in that order, a facet is touched only when all it depends on
    are active; whatever throws while they are disposed of, every effect of every
    facet is run once, in the reverse order, so that what depends on a facet gives
    back what it holds before that facet does. *)
Theorem facets_start_and_stop {O E} (misuse : E) records externalServices order (k k' : FacetKernel (O := O) (E := E)) r :
  NoDup (fs_facetId <$> records) -> NoDup externalServices.*1 -> Forall (fun record => NoDup (fs_provides record)) records ->
  validateFacets records externalServices = Some (Ok order) ->
  k_activationOrder k = order -> (k_facets k).*1 = fs_facetId <$> records -> (forall id, id ∈ order -> state_of k id = Some Prepared) ->
  activate_facets misuse k = (k', r) ->
  (forall a b, depends records a b -> amap_get (k_facets k') a <> amap_get (k_facets k) a -> state_of k' b = Some Active) /\
  (r = Ok tt -> forall id, id ∈ order -> state_of k' id = Some Active) /\
  let '(k'', errors) := disposeLifecycles k' in
  k_facets k'' = [] /\ collect (reverse order ≫= held (k_facets k')) (k_outside k') = (k_outside k'', mjoin errors) /\
  forall a b, depends records a b -> exists x y z, reverse order = x ++ a :: y ++ b :: z.
Proof.
  intros Hn Hx Hp Hv Ho Hk Hs Ha. destruct (validateFacets_spec records externalServices Hn Hx Hp) as (v & Ev & Hst). rewrite Hv in Ev. injection Ev as <-.
  destruct Hst as (Hperm & _ & _ & Hbefore). assert (NoDup order) as Hno by (by rewrite Hperm).
  unfold activate_facets in Ha. rewrite Ho in Ha. destruct (started misuse order k k' r Hno Hs Ha) as (Ho' & Hk' & front & back & Eo & Hf & Hr & Hsame).
  assert (forall a b, depends records a b -> exists x y z, order = x ++ b :: y ++ a :: z) as Hdep.
  { intros a b Hab. assert (a ∈ order) as Hin by (rewrite Hperm; by apply depends_ids in Hab as [? _]). apply list_elem_of_split in Hin as (f & z & Hin).
    pose proof (Hbefore a b f z Hab Hin) as Hb. apply list_elem_of_split in Hb as (x & y & ->). exists x, y, z. by rewrite Hin, <- app_assoc. }
  split_and!.
  - intros a b Hab Hch. apply Hf. destruct (Hdep a b Hab) as (x & y & z & E1). destruct (decide (a ∈ front)) as [Hin|Hin].
    + apply list_elem_of_split in Hin as (f & g & Ef). subst front. rewrite Eo, <- app_assoc in E1. assert (b ∈ f) as Hb; [|set_solver].
      apply (Hbefore a b f (g ++ back) Hab). by rewrite Eo, <- app_assoc.
    + destruct back as [|c back]; [destruct Hch; by apply Hsame|]. destruct (decide (a = c)) as [->|Hne]; [by apply (Hbefore c b front back)|].
      destruct Hch. apply Hsame; [done|]. cbn. congruence.
  - intros Hr' id Hin. apply Hf. rewrite Eo, (Hr Hr'), app_nil_r in Hin. done.
  - unfold disposeLifecycles. rewrite Ho', Ho. case_bool_decide as En.
    + assert (k_facets k' = []) as E0.
      { apply (fmap_nil_inv fst). rewrite Hk', Hk. apply Permutation_nil. by rewrite <- Hperm, En. }
      rewrite E0, En. cbn. split_and!; [done|done|]. intros a b Hab. destruct (Hdep a b Hab) as (x & y & z & E1). rewrite En in E1. by destruct x.
    + pose proof (dispose_each_spec (reverse order) (k_facets k') (k_outside k')) as Hd. destruct (dispose_each _ _ _) as [[facets o] errors]. cbn.
      destruct Hd as [Hc Hd]; [by rewrite reverse_Permutation|]. split_and!; [|done|].
      * destruct facets as [|kv facets]; [done|]. destruct (Hd kv) as [Hd' _]. destruct Hd' as [Hin Hni]; [left|]. destruct Hni. rewrite elem_of_reverse, Hperm, <- Hk, <- Hk'. by apply list_elem_of_fmap_2.
      * intros a b Hab. destruct (Hdep a b Hab) as (x & y & z & ->). exists (reverse z), (reverse y), (reverse x).
        by rewrite !reverse_app, !reverse_cons, !reverse_app, !reverse_cons, <- !app_assoc.
Qed.

(** A facet that holds one thing, and acquires another when it is started; the
    store fails to give the second back. *)
Definition gives_back (n : nat) : Disposal (O := list nat) (E := nat) := fun o => (o ++ [n], if (n =? 21)%nat then Err n else Ok tt).

Definition sample_lifecycle (n : nat) : FacetLifecycle (O := list nat) (E := nat) :=
  Lifecycle_ [gives_back (10 * n)] [] [CbOwn (gives_back (10 * n + 1)) (fun r => CbReturn r)] Prepared false.

Definition sample_kernel : FacetKernel (O := list nat) (E := nat) :=
  Kernel_ [(js "view", sample_lifecycle 3); (js "log", sample_lifecycle 1); (js "store", sample_lifecycle 2)] [js "log"; js "store"; js "view"] [].

Lemma facets_start_and_stop_witness :
  let '(k', r) := activate_facets 0%nat sample_kernel in
  let '(k'', errors) := disposeLifecycles k' in
  r = Ok tt /\ k_outside k'' = [31; 30; 21; 20; 11; 10]%nat /\ mjoin errors = [21%nat] /\ k_facets k'' = [].
Proof.
  destruct (activate_facets 0%nat sample_kernel) as [k' r] eqn:Ea. destruct (disposeLifecycles k') as [k'' errors] eqn:Ed.
  pose proof (facets_start_and_stop 0%nat sample_facets sample_services [js "log"; js "store"; js "view"] sample_kernel k' r) as H.
  rewrite Ed in H. destruct H as (_ & _ & Hk & Hc & _); [no_dup|no_dup|repeat apply Forall_cons_2; try apply Forall_nil_2; no_dup|vm_compute; reflexivity|reflexivity|reflexivity| |exact Ea|].
  { intros id Hin. repeat (apply elem_of_cons in Hin as [->|Hin]; [vm_compute; reflexivity|]). by apply elem_of_nil in Hin. }
  vm_compute in Ea. injection Ea as <- <-. cbn [k_facets k_outside] in Hc.
  assert ((k_outside k'', mjoin errors) = ([31; 30; 21; 20; 11; 10], [21])%nat) as Eo by (rewrite <- Hc; vm_compute; reflexivity).
  injection Eo as Eo Ee. split_and!; [reflexivity|exact Eo|exact Ee|exact Hk].
Defined.

(** * Replicated states *)

(** C12: a replica never shows a value its source did not have: whatever snapshots
    and batches of a source reach it, in any order, doubled or lost, it is cold or
    has a value equal to the revision of its sequence.  After a snapshot, the
    batches that follow it bring it to the last one, and no listener changes
    that. *)
Theorem replica_follows_source h revisions ms i v n listeners :
  Forall (rev_ok h) revisions -> revisions !! N.to_nat i = Some v -> (N.to_nat i + n < length revisions)%nat ->
  let r := receive_all revisions ms (Replica_ listeners None None []) in
  truthful revisions r /\
  let r' := receive_all revisions (Snapshot i :: batches i n) r in
  rp_sequence r' = Some (i + N.of_nat n)%N /\ truthful revisions r'.
Proof.
  intros Hok Ev Hn r. assert (truthful revisions r) as Hr by (by apply (receive_all_truthful h)). split; [done|].
  destruct (receive_snapshot h revisions Hok i v r Ev) as (r1 & E1 & Es & Ev1). pose proof (receive_truthful h revisions Hok (Snapshot i) r Hr) as Hr1.
  cbn [receive_all foldl]. rewrite E1 in Hr1 |- *. cbn [fst] in *. change (foldl _ r1 (batches i n)) with (receive_all revisions (batches i n) r1).
  split; [|by apply (receive_all_truthful h)]. by eapply (receive_batches h).
Qed.

(** A text that grows in a list that shrinks; the other item is shared. *)
Definition state_at (n : positive) (text : string) (items : list rev) : rev := RObj n [(js "items", RArr (n + 1) items); (js "text", RStr (js text))].
Definition kept_item : rev := RObj 1 [(js "name", RStr (js "x"))].
Definition sample_revisions : list rev := [state_at 2 "a" [kept_item; RNull]; state_at 4 "ab" [kept_item; RNull]; state_at 6 "abc" [kept_item]].
Definition sample_heap (id : positive) : rev :=
  match id with
  | 1 => kept_item
  | 2 => state_at 2 "a" [kept_item; RNull]
  | 3 => RArr 3 [kept_item; RNull]
  | 4 => state_at 4 "ab" [kept_item; RNull]
  | 5 => RArr 5 [kept_item; RNull]
  | 6 => state_at 6 "abc" [kept_item]
  | _ => RArr 7 [kept_item]
  end%positive.

Lemma sample_revisions_ok : Forall (rev_ok sample_heap) sample_revisions.
Proof.
  repeat apply Forall_cons_2; try apply Forall_nil_2; split; cbn;
    repeat first [apply grounded_obj; [reflexivity|] | apply grounded_arr; [reflexivity|] | apply grounded_str | apply grounded_null
    | apply wf_obj | apply wf_arr | apply wf_null | apply wf_str | apply js_str_wf | apply Forall_nil_2 | apply Forall_cons_2
    | progress cbn [fst snd fmap list_fmap] | (unfold obj_sorted; repeat constructor; vm_compute; (discriminate || congruence))].
Qed.

(** A batch that comes too early, a snapshot, a batch that comes twice and clears
    the replica, and the snapshot again. *)
Lemma replica_follows_source_witness :
  let r := receive_all sample_revisions [Batch 2; Snapshot 0; Batch 1; Batch 1] (Replica_ [7%nat] None None []) in
  let r' := receive_all sample_revisions (Snapshot 0 :: batches 0 2) r in
  rp_value r = None /\ rp_sequence r' = Some 2%N /\ rp_value r' = Some (erase (state_at 6 "abc" [kept_item])) /\
  truthful sample_revisions r' /\ fst <$> (snd <$> rp_told r') = [(HydrateDelivery, 0); (UpdateDelivery, 1); (HydrateDelivery, 0); (UpdateDelivery, 1); (UpdateDelivery, 2)]%N.
Proof.
  destruct (replica_follows_source sample_heap sample_revisions [Batch 2; Snapshot 0; Batch 1; Batch 1] 0 (state_at 2 "a" [kept_item; RNull]) 2 [7%nat]
    sample_revisions_ok eq_refl ltac:(vm_compute; lia)) as (_ & Hs & Ht).
  split_and!; [vm_compute; reflexivity|exact Hs|vm_compute; reflexivity|exact Ht|vm_compute; reflexivity].
Defined.

(** C11: a listener [l] that is not subscribed twice in the run is told a value, and
    then every value committed later, once each, in the order of the sequence, with
    nothing left out, whatever listeners and the callbacks of changes do meanwhile:
    change the state again, subscribe others any number of times, unsubscribe, or
    throw.  If [l] is still subscribed when the program is done, it has been told
    everything.  (Subscribed again, a listener may be left behind, see
    [resubscribed_is_left_behind].) *)
Theorem listeners_told_in_order {Ctx W Ex} (reentrant : Ex) (aggregate : list Ex -> Ex) (listens : call (Ctx := Ctx) -> script (W := W)) initial fuel s o w r l :
  run reentrant aggregate listens fuel s (World_ (new_MutableReplicatedState initial) [] o) = Some (w, r) -> once l (wd_happened w) ->
  (told l (wd_happened w) = [] \/
   exists i j, (i <= j <= ms_sequence (wd_state w))%nat /\ told l (wd_happened w) = in_order (revisions_of initial (wd_happened w)) i j) /\
  (forall i, (l, i) ∈ ms_listeners (wd_state w) -> told l (wd_happened w) = in_order (revisions_of initial (wd_happened w)) i (ms_sequence (wd_state w))) /\
  revisions_of initial (wd_happened w) !! ms_sequence (wd_state w) = Some (ms_value (wd_state w)).
Proof.
  intros Hrun Ho. destruct (run_keeps reentrant aggregate listens initial l fuel s _ _ _ Hrun) as [_ K]. destruct (K _ _ _ _ (telling_new initial l o) Ho) as (q & k & T & _).
  destruct (te_idle _ _ _ _ _ _ _ T eq_refl) as (-> & -> & _). split_and!; [apply T| |apply T]. intros i Hin. destruct (te_listeners _ _ _ _ _ _ _ T i Hin) as [Hi ->].
  f_equal. rewrite decide_False by apply not_elem_of_nil. lia.
Qed.

(** The first listener changes the state when it sees the first revision, and
    subscribes the second while the third is not told yet; the third listener is
    subscribed over and over. *)
Definition sample_listens (c : call (Ctx := unit)) : script (W := unit) (Ex := nat) :=
  match c with
  | Tell 1 UpdateDelivery 1 _ _ => Replace tt (state_at 6 "abc" [kept_item]) (fun _ => Subscribe 3 (fun _ => Subscribe 2 (fun _ => Return (Err 5%nat))))
  | _ => Return (Ok None)
  end%nat.

Definition sample_script : script (W := unit) (Ex := nat) (Ctx := unit) :=
  Subscribe 3 (fun _ => Subscribe 1 (fun _ => Change tt (fun _ => Replace tt RNull (fun r => match r with Err _ => Return (Ok (Some (state_at 4 "ab" [kept_item; RNull]))) | Ok _ => Return (Ok None) end))
    (fun r => match r with Err e => Return (Err e) | Ok _ => Return (Ok None) end))).

Definition sample_outcome := run 0%nat (fun _ => 9%nat) sample_listens 5 sample_script (World_ (new_MutableReplicatedState (state_at 2 "a" [kept_item; RNull])) [] tt).

Lemma listeners_told_in_order_witness :
  exists w, sample_outcome = Some (w, Err 5%nat) /\
    fst <$> told 1 (wd_happened w) = [(HydrateDelivery, 0); (UpdateDelivery, 1); (UpdateDelivery, 2)]%nat /\
    fst <$> told 2 (wd_happened w) = [(HydrateDelivery, 2)]%nat /\ ~ once 3 (wd_happened w) /\
    told 2 (wd_happened w) = in_order (revisions_of (state_at 2 "a" [kept_item; RNull]) (wd_happened w)) 2 2.
Proof.
  destruct sample_outcome as [[w r]|] eqn:E; [|vm_compute in E; discriminate E].
  assert (r = Err 5%nat /\ fst <$> told 1 (wd_happened w) = [(HydrateDelivery, 0); (UpdateDelivery, 1); (UpdateDelivery, 2)]%nat /\
    fst <$> told 2 (wd_happened w) = [(HydrateDelivery, 2)]%nat /\ (2%nat, 2%nat) ∈ ms_listeners (wd_state w) /\ ms_sequence (wd_state w) = 2%nat /\ once 2 (wd_happened w) /\
    ~ once 3 (wd_happened w)) as (-> & H1 & H2 & Hin & Hs & Ho & Ht).
  { vm_compute in E. injection E as <- <-. split_and!; try (vm_compute; reflexivity); [apply (bool_decide_unpack _); vm_compute; reflexivity|vm_compute; lia]. }
  exists w. split_and!; [done..|].
  destruct (listeners_told_in_order 0%nat (fun _ => 9%nat) sample_listens (state_at 2 "a" [kept_item; RNull]) 5 sample_script tt w (Err 5%nat) 2 E Ho) as (_ & H & _).
  rewrite (H 2%nat Hin), Hs. reflexivity.
Defined.

(** Subscribed again while a change is told, a listener is told the latest value
    and then, from the copy of the listeners made before, the earlier one, which
    is the last it hears. *)
Example resubscribed_is_left_behind :
  exists w r, run 0%nat (fun _ => 9%nat) sample_listens 5
      (Subscribe 1 (fun _ => Subscribe 2 (fun _ => Replace tt (state_at 4 "ab" [kept_item; RNull]) (fun _ => Return (Ok None)))))
      (World_ (new_MutableReplicatedState (state_at 2 "a" [kept_item; RNull])) [] tt) = Some (w, r) /\
    ms_sequence (wd_state w) = 2%nat /\ fst <$> told 2 (wd_happened w) = [(HydrateDelivery, 0); (HydrateDelivery, 2); (UpdateDelivery, 1)]%nat.
Proof. eexists _, _. split; [vm_compute; reflexivity|]. vm_compute. auto. Qed.
