(* ===== verification/StorageTheorems.v ===== *)
(** What [MemoryStorage] of [packages/durable/src/storage/memory.ts] guarantees:
    commits, documents, scans, the entries in sight of a conversation. *)
From S2P Require Import Prelude JsBase JsonText Json DeltaOps DeltaApply DurableTypes SortedIds MemoryStorage MemoryStorageInv MemoryStorageTables MemoryStorageDocuments MemoryStorageCommit MemoryStorageSpec MemoryStorageScans.

(** * A sample session *)

Lemma pair_of_snd {A B} (p : A * B) b : snd p = b -> p = (fst p, b).
Proof. by destruct p; cbn; intros ->. Qed.

(** A conversation with two entries, the second of which moves its head, forked at
    the first; a task; a document of the session with a base and a delta. *)
Definition sample_conversation : ConversationRecord := Conversation 2 None None.
Definition sample_fork : ConversationRecord := Conversation 5 (Some (Parent 2 3)) None.
Definition sample_entry (id c : Id) (head : option Id) : EntryRecord := Entry id c (js "message") None None head None None.
Definition sample_task : TaskRecord := Task 6 2 (js "turn") 1 JNull [] false false (TaskPending JNull None).
Definition sample_document : DocumentCreate := DocCreate 7 (js "todo") None ScopeSession None.

Definition sample_writes : list StorageWrite :=
  [WriteConversation sample_conversation; WriteEntry (sample_entry 3 2 None); WriteEntry (sample_entry 4 2 (Some 3));
   WriteConversation sample_fork; WriteTask sample_task; WriteEntry (sample_entry 8 5 None);
   WriteDocumentCreate sample_document (ContentBase 1 (JObj []))].

Definition sample_delta : list Op := [OpS [SStr (js "done")] (JBool true)].

Definition sample_storage : MemoryStorage := fst (commit sample_writes new_MemoryStorage).
Definition sample_storage2 : MemoryStorage := fst (commit [WriteDocumentChange 7 (ContentDelta 1 sample_delta)] sample_storage).

Lemma sample_storage_inv : storage_inv sample_storage.
Proof.
  unfold sample_storage. destruct (commit sample_writes new_MemoryStorage) as [m r] eqn:E. exact (commit_inv _ _ _ _ new_MemoryStorage_inv E).
Qed.

Lemma sample_storage2_inv : storage_inv sample_storage2.
Proof.
  unfold sample_storage2. destruct (commit [WriteDocumentChange 7 (ContentDelta 1 sample_delta)] sample_storage) as [m r] eqn:E.
  exact (commit_inv _ _ _ _ sample_storage_inv E).
Qed.

(** A document of a conversation that keeps its history, changed and retired in
    a later commit. *)
Definition sample_rewindable : DocumentCreate := DocCreate 10 (js "plan") None (ScopeConversation 2) (Some (HistoryRewindable ForkAsOf)).
Definition sample_end : list StorageWrite := [WriteDocumentChange 10 (ContentDelta 1 sample_delta); WriteDocumentRetire 10].

Definition sample_storage3 : MemoryStorage :=
  fst (commit [WriteDocumentCreate sample_rewindable (ContentBase 1 (JObj []))] sample_storage2).
Definition sample_storage4 : MemoryStorage := fst (commit sample_end sample_storage3).

Lemma sample_storage3_inv : storage_inv sample_storage3.
Proof.
  unfold sample_storage3. destruct (commit [WriteDocumentCreate sample_rewindable (ContentBase 1 (JObj []))] sample_storage2) as [m r] eqn:E.
  exact (commit_inv _ _ _ _ sample_storage2_inv E).
Qed.

Lemma sample_forest : forest_ok (state sample_storage2).
Proof. apply forest_check_ok. vm_compute. reflexivity. Qed.

(** * Commits *)

(** C2: every commit, successful or not, keeps the invariant: the indexes list
    exactly the records they index in increasing order, the ids are disjoint and
    below [nextId], sequences are below [nextSeq], document revisions form chains
    from a base, and the current document of an address is the one alive. *)
Theorem commit_keeps_invariant ws m m' r : storage_inv m -> commit ws m = (m', r) -> storage_inv m'.
Proof. apply commit_inv. Qed.

Lemma commit_keeps_invariant_witness : storage_inv new_MemoryStorage /\ storage_inv sample_storage.
Proof.
  split; [exact new_MemoryStorage_inv|].
  refine (commit_keeps_invariant sample_writes new_MemoryStorage _ (snd (commit sample_writes new_MemoryStorage)) new_MemoryStorage_inv _).
  apply surjective_pairing.
Defined.

(** C10: a commit is atomic: one that throws leaves the storage unchanged. *)
Theorem commit_atomic ws m m' e : storage_inv m -> commit ws m = (m', Err e) -> m' = m.
Proof.
  intros Hinv Hm. destruct (commit_cases ws m Hinv) as [[e' He]|(claimed & actions & H1 & H2 & H3 & H4)]; [congruence|].
  destruct (commit_run _ _ _ _ Hinv H1 H2 H3 H4) as (m1 & m2 & E & _). congruence.
Qed.

(** The conversation is new, but the entry's id is taken. *)
Lemma commit_atomic_witness :
  let ws := [WriteConversation (Conversation 9 None None); WriteEntry (sample_entry 3 9 None)] in
  exists e, commit ws sample_storage = (sample_storage, Err e).
Proof.
  intros ws. destruct (commit ws sample_storage) as [m' [q|e]] eqn:E; [vm_compute in E; discriminate|].
  exists e. f_equal. exact (commit_atomic ws _ m' e sample_storage_inv E).
Defined.

(** C9: a successful commit returns the sequence the storage had next and
    increments it, and implements the plain tables: every write puts its record
    under its id, in order, entries with the sequence. *)
Theorem commit_refines_tables ws m m' q :
  storage_inv m -> commit ws m = (m', Ok q) ->
  q = nextSeq m /\ nextSeq m' = q + 1 /\ tables_of (state m') = foldl (put q) (tables_of (state m)) ws.
Proof.
  intros Hinv Hm. destruct (commit_result _ _ _ _ _ Hinv (tables_of_implements _) Hm) as (H1 & H2 & _ & H3 & _).
  split_and!; [done|done|]. symmetry. by apply implements_tables_of.
Qed.

Lemma commit_refines_tables_witness :
  tables_of (state sample_storage) = foldl (put 1) (tables_of (state new_MemoryStorage)) sample_writes.
Proof.
  assert (commit sample_writes new_MemoryStorage = (sample_storage, Ok 1)) as E.
  { unfold sample_storage. apply pair_of_snd. vm_compute. reflexivity. }
  exact (proj2 (proj2 (commit_refines_tables _ _ _ _ new_MemoryStorage_inv E))).
Defined.

(** Conversations and entries are immutable: a successful commit keeps
    those there are, with the sequences of the entries, and adds those written
    under ids nothing had. *)
Theorem commit_never_overwrites ws m m' q id :
  storage_inv m -> commit ws m = (m', Ok q) ->
  (forall v, conversations (state m) !! id = Some v -> conversations (state m') !! id = Some v) /\
  (forall e, entries (state m) !! id = Some e ->
    entries (state m') !! id = Some e /\ entryCommitSeqs (state m') !! id = entryCommitSeqs (state m) !! id) /\
  (forall e, WriteEntry e ∈ ws -> (forall t, ~ owner (state m) (entry_id e) t) /\
    entries (state m') !! entry_id e = Some e /\ entryCommitSeqs (state m') !! entry_id e = Some q).
Proof.
  intros Hinv Hm. split_and!.
  - intros v. by eapply commit_keeps_conversation.
  - intros e. by eapply commit_keeps_entry.
  - intros e He. split; [by eapply commit_fresh|by eapply commit_adds_entry].
Qed.

Lemma commit_never_overwrites_witness :
  entries (state sample_storage2) !! 3 = Some (sample_entry 3 2 None) /\ entryCommitSeqs (state sample_storage2) !! 3 = Some 1.
Proof.
  assert (commit [WriteDocumentChange 7 (ContentDelta 1 sample_delta)] sample_storage = (sample_storage2, Ok 2)) as E.
  { unfold sample_storage2. apply pair_of_snd. vm_compute. reflexivity. }
  destruct (commit_never_overwrites _ _ _ _ 3 sample_storage_inv E) as (_ & H & _).
  destruct (H (sample_entry 3 2 None)) as [H1 H2]; [vm_compute; reflexivity|]. split; [exact H1|]. rewrite H2. vm_compute. reflexivity.
Defined.

(** A minted id belongs to no record, is not minted again and changes no
    record; minting fails, changing nothing, exactly when the storage is closed
    or the safe integers are used up. *)
Theorem mintId_is_fresh m m' r :
  storage_inv m -> mintId m = (m', r) ->
  match r with
  | Ok id => id = nextId m /\ nextId m' = id + 1 /\ state m' = state m /\ storage_inv m' /\ forall t, ~ owner (state m) id t
  | Err _ => m' = m /\ (closed m = true \/ isSafeInteger (NInt (nextId m)) = false)
  end.
Proof.
  intros Hinv. unfold mintId, assertOpen, reads_state, gets, modify, mbind, sm_bind.
  destruct (closed m) eqn:Hc; cbn [throw_if]. { intros [= <- <-]. auto. }
  destruct (isSafeInteger (NInt (nextId m))) eqn:Hs; cbn [throw_if negb]; intros [= <- <-]; [|by auto].
  destruct Hinv as [H1 H2 H3]. split_and!; [done|done|done| |].
  - split; [done|done|]. intros id t Ht. cbn. specialize (H3 id t Ht). lia.
  - intros t Ht. specialize (H3 _ t Ht). lia.
Qed.

Lemma mintId_is_fresh_witness :
  let m := fst (mintId sample_storage) in snd (mintId sample_storage) = Ok 9 /\ nextId m = 10 /\ storage_inv m.
Proof.
  assert (snd (mintId sample_storage) = Ok 9) as E by (vm_compute; reflexivity).
  destruct (mintId_is_fresh _ _ _ sample_storage_inv (pair_of_snd _ _ E)) as (_ & H1 & _ & H2 & _). cbn zeta. auto.
Defined.

(** A submission written last in a commit is the one found by its id and by
    its request; whatever a request finds is a stored submission of that
    conversation and request. *)
Theorem submissionByRequest_latest ws v r m m' q :
  storage_inv m -> commit (ws ++ [WriteSubmission v]) m = (m', Ok q) -> sub_requestId v = Some r ->
  (submission m' (sub_id v) = Ok (Some v) /\ submissionByRequest m' (sub_conversationId v) r = Ok (Some v)) /\
  forall c' r' v', submissionByRequest m' c' r' = Ok (Some v') ->
    sub_conversationId v' = c' /\ sub_requestId v' = Some r' /\ submission m' (sub_id v') = Ok (Some v').
Proof.
  intros Hinv Hm Hr. destruct (commit_records_request _ _ _ _ _ _ Hinv Hm Hr) as [Hv Hreq].
  destruct (commit_result _ _ _ _ _ Hinv (tables_of_implements _) Hm) as (_ & _ & [_ Ho] & _).
  destruct (so_submissions _ _ (si_state _ (commit_inv _ _ _ _ Hinv Hm))) as [Hk Hix].
  unfold submission, submissionByRequest, assertOpen. rewrite Ho. cbn [throw_if mbind result_bind]. split.
  - rewrite Hv. split; [done|]. unfold request_id in Hreq. by rewrite Hreq, Hv.
  - intros c' r' v'. destruct (submissionIdsByRequest (state m') !! c' ≫= (fun x => x !! r')) as [id|] eqn:E; [|done].
    intros [= Hv']. destruct (Hix c' r' id E) as (v0 & Hv0 & Hc & Hr'). assert (v0 = v') as -> by congruence.
    rewrite (Hk id v' Hv0). split_and!; [done|done|congruence].
Qed.

Definition sample_submission : SubmissionRecord :=
  Submission 11 2 (Some (js "request-1")) InputQueued.

Lemma submissionByRequest_latest_witness :
  exists m, submissionByRequest m 2 (js "request-1") = Ok (Some sample_submission).
Proof.
  exists (fst (commit ([] ++ [WriteSubmission sample_submission]) sample_storage)).
  assert (commit ([] ++ [WriteSubmission sample_submission]) sample_storage =
    (fst (commit ([] ++ [WriteSubmission sample_submission]) sample_storage), Ok 2)) as E.
  { apply pair_of_snd. vm_compute. reflexivity. }
  exact (proj2 (proj1 (submissionByRequest_latest [] sample_submission (js "request-1") _ _ _ sample_storage_inv E eq_refl))).
Defined.

(** * Documents *)

(** Distinct addresses have distinct keys, so documents of different kinds,
    scopes or family keys never share an address entry. *)
Theorem addressKey_injective a1 a2 : address_wf a1 -> address_wf a2 -> addressKey a1 = addressKey a2 <-> a1 = a2.
Proof. intros H1 H2. split; [by apply addressKey_inj|by intros ->]. Qed.

Definition sample_address (key : option jsstr) : DocumentAddress := DocAddress (js "todo") (ScopeConversation 2) key.

Lemma sample_address_wf key : from_option str_wf True key -> address_wf (sample_address key).
Proof. intros H. split; [apply js_str_wf|]. by destruct key. Qed.

Lemma addressKey_injective_witness : addressKey (sample_address None) <> addressKey (sample_address (Some (js "singleton"))).
Proof.
  intros H%(addressKey_injective _ _ (sample_address_wf None I) (sample_address_wf (Some (js "singleton")) (js_str_wf _))).
  discriminate H.
Defined.

(** [findDocument] finds the current document of an address: the one record
    with the address that is not retired, or nothing when there is none. *)
Theorem findDocument_current m a :
  storage_inv m -> closed m = false -> address_wf a ->
  map_Forall (fun _ d => address_wf (record_address (sd_record d))) (documents (state m)) ->
  exists o, findDocument m a Current = Ok o /\
    match o with
    | Some r =>
        sd_record <$> documents (state m) !! doc_id r = Some r /\ record_address r = a /\ doc_retiredAt r = None /\
        forall id d, documents (state m) !! id = Some d -> record_address (sd_record d) = a -> doc_retiredAt (sd_record d) = None -> id = doc_id r
    | None => forall id d, documents (state m) !! id = Some d -> record_address (sd_record d) = a -> doc_retiredAt (sd_record d) <> None
    end.
Proof.
  intros Hinv Hopen Ha Hwf. unfold findDocument, assertOpen. rewrite Hopen. cbn [throw_if mbind result_bind].
  change (documentAddresses (state m) !! addressKey a ≫= ai_currentId) with (current_id (state m) (addressKey a)).
  pose proof (si_current _ Hinv (addressKey a)) as Hcur. destruct (current_id (state m) (addressKey a)) as [id|].
  - destruct (proj1 (Hcur id) eq_refl) as (d & Hd & Hk & Hr). exists (Some (sd_record d)). rewrite Hd. split; [done|].
    destruct (so_documents _ _ (si_state _ Hinv)) as [Hkey _]. rewrite (Hkey id d Hd). split_and!.
    + by rewrite Hd.
    + apply addressKey_inj; [exact (Hwf id d Hd)|done|done].
    + done.
    + intros id' d' Hd' Ha' Hr'. enough (Some id = Some id') by congruence. apply Hcur. exists d'. split_and!; [done| |done].
      unfold doc_addr, recordAddressKey. by rewrite Ha'.
  - exists None. split; [done|]. intros id d Hd Hda Hr. enough (None = Some id) by done. apply Hcur. exists d. split_and!; [done| |done].
    unfold doc_addr, recordAddressKey. by rewrite Hda.
Qed.

Lemma findDocument_current_witness : exists r, findDocument sample_storage2 (DocAddress (js "todo") ScopeSession None) Current = Ok (Some r).
Proof.
  destruct (findDocument_current sample_storage2 (DocAddress (js "todo") ScopeSession None)) as (o & Ho & Hspec).
  - exact sample_storage2_inv.
  - vm_compute. reflexivity.
  - split; [apply js_str_wf|exact I].
  - assert (documents (state sample_storage2) = {[ 7 := default (StoredState (DocRecord 0 [] None 0 None ScopeSession None) [])
      (documents (state sample_storage2) !! 7) ]}) as -> by (vm_compute; reflexivity).
    apply map_Forall_singleton. split; [|vm_compute; exact I]. change (str_wf (js "todo")). apply js_str_wf.
  - destruct o as [r|]; [eauto|]. exfalso. revert Hspec. destruct (documents (state sample_storage2) !! 7) as [d|] eqn:E; [|vm_compute in E; discriminate].
    intros H. apply (H 7 d E); vm_compute in E; injection E as <-; reflexivity.
Defined.

(** The content a commit writes for a document that stays alive is what the
    document then reads as: the value of a base, or the deltas of the version
    applied to the value before. *)
Theorem document_change_visible ws m m' q id c r version value :
  storage_inv m -> commit ws m = (m', Ok q) -> document m id Current = Ok (Some (StoredDoc r version value)) ->
  WriteDocumentChange id c ∈ ws -> WriteDocumentRetire id ∉ ws ->
  match c with
  | ContentBase v x => document m' id Current = Ok (Some (StoredDoc r v x))
  | ContentDelta v ops =>
      v = version /\ forall x, applyImmutable (Some value) ops = Ok (Some x) ->
        document m' id Current = Ok (Some (StoredDoc r version x))
  end.
Proof. apply commit_changes_document. Qed.

Lemma document_change_visible_witness :
  document sample_storage2 7 Current =
  Ok (Some (StoredDoc (record_of_create sample_document 1 false) 1 (JObj [(js "done", JBool true)]))).
Proof.
  assert (commit [WriteDocumentChange 7 (ContentDelta 1 sample_delta)] sample_storage = (sample_storage2, Ok 2)) as E.
  { unfold sample_storage2. apply pair_of_snd. vm_compute. reflexivity. }
  refine (proj2 (document_change_visible _ _ _ _ 7 (ContentDelta 1 sample_delta) (record_of_create sample_document 1 false) 1 (JObj []) sample_storage_inv E _ _ _) _ _).
  - vm_compute. reflexivity.
  - left.
  - intros H%list_elem_of_singleton. discriminate H.
  - vm_compute. reflexivity.
Defined.

(** Reads as of a sequence already committed never change: after any
    successful commit they give the same version and value, or the same error. *)
Theorem document_past_stable ws m m' q id p :
  storage_inv m -> commit ws m = (m', Ok q) -> is_Some (documents (state m) !! id) -> p < nextSeq m ->
  reading (document m' id (At p)) = reading (document m id (At p)).
Proof.
  intros Hinv Hm [d Hd] Hp. destruct (commit_existing_document _ _ _ _ _ _ Hinv Hm Hd) as (a & Hd' & _ & _ & Ha & _).
  destruct (commit_result _ _ _ _ _ Hinv (tables_of_implements _) Hm) as (-> & _ & [Hc Hc'] & _).
  eapply document_past; eauto; congruence.
Qed.

Lemma document_past_stable_witness :
  reading (document sample_storage4 10 (At 3)) = Ok (Some (1, JObj [])) /\ document sample_storage4 10 Current = Ok None.
Proof.
  assert (commit sample_end sample_storage3 = (sample_storage4, Ok 4)) as E.
  { unfold sample_storage4. apply pair_of_snd. vm_compute. reflexivity. }
  split; [|vm_compute; reflexivity].
  rewrite (document_past_stable _ _ _ _ 10 3 sample_storage3_inv E); [vm_compute; reflexivity| |vm_compute; reflexivity].
  assert (bool_decide (is_Some (documents (state sample_storage3) !! 10)) = true) as H by (vm_compute; reflexivity).
  exact (bool_decide_eq_true_1 _ H).
Defined.

(** Reading a current document fails only when one of its deltas does not
    apply: a base is never missing and no delta crosses a version boundary. *)
Theorem document_read_errors m id e :
  storage_inv m -> closed m = false -> document m id Current = Err e -> exists de, e = DeltaError de.
Proof.
  intros Hinv Hopen. unfold document, assertOpen. rewrite Hopen. cbn [throw_if mbind result_bind].
  destruct (documents (state m) !! id) as [d|] eqn:Hd; [|done]. cbn [revisions_at].
  destruct (so_documents _ _ (si_state _ Hinv)) as (_ & _ & _ & _ & Hst). destruct (Hst id d Hd) as (_ & _ & _ & _ & Hch).
  unfold isAliveAt. destruct (doc_retiredAt (sd_record d)) eqn:Hr; [done|].
  destruct Hch as [Hch|(_ & _ & [? ?])]; [|done].
  destruct (materialize (sd_revisions d)) as [[v x]|e'] eqn:E; [done|]. intros [= <-]. by eapply chain_materialize.
Qed.

(** A delta that deletes below a property that is not there. *)
Lemma document_read_errors_witness :
  let m := fst (commit [WriteDocumentChange 7 (ContentDelta 1 [OpD [SStr (js "a"); SStr (js "b")]])] sample_storage) in
  exists de, document m 7 Current = Err (DeltaError de).
Proof.
  intros m. destruct (document m 7 Current) as [o|e] eqn:E; [exfalso; vm_compute in E; discriminate|].
  destruct (document_read_errors m 7 e) as [de ->]; [|vm_compute; reflexivity|exact E|eauto].
  subst m. destruct (commit [WriteDocumentChange 7 (ContentDelta 1 [OpD [SStr (js "a"); SStr (js "b")]])] sample_storage) as [m r] eqn:Em.
  exact (commit_inv _ _ _ _ sample_storage_inv Em).
Defined.

(** * Scans *)

(** On increasing ids the binary searches end and split the list at the
    target, insertion adds an id and removal takes it out, in order. *)
Theorem sorted_ids_operations ids id :
  increasing ids ->
  (forall x, x ∈ take (lowerBound ids id) ids <-> x ∈ ids /\ x < id) /\
  (forall x, x ∈ drop (upperBound ids id) ids <-> x ∈ ids /\ id < x) /\
  (id ∉ ids -> increasing (insertSorted ids id) /\ forall x, x ∈ insertSorted ids id <-> x = id \/ x ∈ ids) /\
  increasing (removeSorted ids id) /\ (forall x, x ∈ removeSorted ids id <-> x <> id /\ x ∈ ids).
Proof.
  intros H. split_and!.
  - intros x. rewrite (separates_elems _ _ _ _ (lowerBound_separates ids id H)). by rewrite Z.ltb_lt.
  - intros x. rewrite (separates_elems_drop _ _ _ _ H (upperBound_separates ids id H)). by rewrite Z.leb_gt.
  - by apply insertSorted_spec.
  - by apply removeSorted_spec.
  - by apply removeSorted_spec.
Qed.

Lemma sorted_ids_operations_witness : increasing (insertSorted [2; 5; 9] 7) /\ insertSorted [2; 5; 9] 7 = [2; 5; 7; 9].
Proof.
  split; [|vm_compute; reflexivity].
  refine (proj1 (proj1 (proj2 (proj2 (sorted_ids_operations [2; 5; 9] 7 _))) _)).
  - repeat constructor.
  - set_solver.
Defined.

(** Reading conversations, tasks or documents page by page, with any page
    size of at least one, ends and yields exactly the records of the query - by
    status index, scope, kind and point - once each, by increasing id. *)
Theorem scans_complete m limit :
  storage_inv m -> closed m = false -> (1 <= limit)%nat ->
  (forall fuel, (length (conversationIds (state m)) < fuel)%nat ->
    exists l, read_pages (fun cursor => Some (scanConversations m cursor limit)) fuel None = Some (Ok l) /\
      enumerates conv_id (fun v => conversations (state m) !! conv_id v = Some v) l) /\
  (forall query fuel,
    (length (match tq_status query with None => taskIds (state m) | Some st => taskIdsByStatus (state m) st end) < fuel)%nat ->
    exists l, read_pages (fun cursor => Some (scanTasks m query cursor limit)) fuel None = Some (Ok l) /\
      enumerates task_id (fun t => tasks (state m) !! task_id t = Some t /\
        task_matches query t = true /\ opt_matches (tq_status query) (status_of t) = true) l) /\
  (forall query fuel, (length (default [] (documentIdsByScope (state m) !! scopeKey (dq_scope query))) < fuel)%nat ->
    exists l, read_pages (fun cursor => Some (scanDocuments m query cursor limit)) fuel None = Some (Ok l) /\
      enumerates doc_id (fun r => sd_record <$> documents (state m) !! doc_id r = Some r /\
        doc_scope r = dq_scope query /\ opt_matches (dq_kind query) (doc_kind r) = true /\ isAliveAt r (dq_at query) = true) l).
Proof.
  intros H1 H2 H3. split_and!.
  - intros fuel Hf. by apply scanConversations_pages.
  - intros query fuel Hf. by apply scanTasks_pages.
  - intros query fuel Hf. by apply scanDocuments_pages.
Qed.

Lemma scans_complete_witness :
  enumerates conv_id (fun v => conversations (state sample_storage) !! conv_id v = Some v) [sample_conversation; sample_fork] /\
  exists l, l = [sample_task] /\ enumerates task_id (fun t => tasks (state sample_storage) !! task_id t = Some t /\
    task_matches (TaskQuery_ (Some 2) None (Some Pending) None None) t = true /\
    opt_matches (Some Pending) (status_of t) = true) l.
Proof.
  destruct (scans_complete sample_storage 1 sample_storage_inv) as (Hc & Ht & _); [vm_compute; reflexivity|lia|]. split.
  - destruct (Hc 3%nat) as (l & Hl & Hspec); [vm_compute; lia|]. vm_compute in Hl. injection Hl as <-. exact Hspec.
  - destruct (Ht (TaskQuery_ (Some 2) None (Some Pending) None None) 2%nat) as (l & Hl & Hspec); [vm_compute; lia|].
    exists l. split; [|exact Hspec]. vm_compute in Hl. injection Hl as <-. reflexivity.
Defined.

(** * The entries in sight *)

(** In a forest of conversations, reading entries page by page ends and
    yields the entries a conversation sees - its own and its ancestors' up to
    where it forked - within the bounds of the query, newest first. *)
Theorem scanEntries_complete m query limit fuel :
  storage_inv m -> closed m = false -> forest_ok (state m) -> is_Some (conversations (state m) !! eq_conversationId query) ->
  (1 <= limit)%nat -> (length (conversationIds (state m)) <= fuel)%nat ->
  exists l, sees m (eq_conversationId query) (eq_maxEntryId query) (eq_minEntryId query) l /\
    forall pages, (length l < pages)%nat ->
      read_pages (fun cursor => scanEntries m fuel query cursor limit) pages None = Some (Ok l).
Proof.
  intros Hinv Hopen Hforest Hc Hl Hf. destruct (scanEntries_page m Hinv Hopen Hforest query limit fuel Hc Hl Hf None) as (l & Hs & _).
  exists l. split; [exact Hs|]. intros pages Hp. by apply (read_entry_pages m Hinv Hopen Hforest query limit fuel Hc Hl Hf pages None l).
Qed.

(** The fork sees its own entry and the first of its parent, not the second. *)
Lemma scanEntries_complete_witness :
  sees sample_storage2 5 None None [sample_entry 8 5 None; sample_entry 3 2 None].
Proof.
  assert (bool_decide (is_Some (conversations (state sample_storage2) !! 5)) = true) as Hc by (vm_compute; reflexivity).
  destruct (scanEntries_complete sample_storage2 (EntryQuery_ 5 None None) 1 2 sample_storage2_inv) as (l & Hs & Hl);
    [vm_compute; reflexivity|exact sample_forest|exact (bool_decide_eq_true_1 _ Hc)|lia|vm_compute; lia|].
  specialize (Hl (S (length l + 2)) ltac:(lia)).
  assert (read_pages (fun cursor => scanEntries sample_storage2 2 (EntryQuery_ 5 None None) cursor 1) 2 None =
    Some (Ok [sample_entry 8 5 None; sample_entry 3 2 None])) as E by (vm_compute; reflexivity).
  rewrite (read_pages_more _ 2 (S (length l + 2)) None _ ltac:(lia) E) in Hl. injection Hl as <-. exact Hs.
Defined.

(** In a forest of conversations, [findLatestHeadMarker] ends and finds the
    newest entry in sight, at or before the given one, that moves the head. *)
Theorem findLatestHeadMarker_latest m c upper fuel :
  storage_inv m -> closed m = false -> forest_ok (state m) -> is_Some (conversations (state m) !! c) ->
  (length (conversationIds (state m)) <= fuel)%nat ->
  exists r, findLatestHeadMarker m fuel c upper = Some (Ok r) /\ latest_head m c upper r.
Proof.
  intros Hinv Hopen Hforest Hc Hf. unfold findLatestHeadMarker, assertOpen. rewrite Hopen. cbn [throw_if].
  rewrite decide_True by done. destruct (so_conversations _ _ (si_state _ Hinv)) as [_ [_ Hin]].
  assert (c ∈ conversationIds (state m)) as [i Hi]%list_elem_of_lookup by by apply Hin.
  destruct (head_marker_loop_latest m Hinv Hforest i c upper Hi) as (r & Hr & Hloop). exists r.
  split; [|done]. apply Hloop. apply lookup_lt_Some in Hi. lia.
Qed.

Lemma findLatestHeadMarker_latest_witness :
  latest_head sample_storage2 2 None (Some (sample_entry 4 2 (Some 3), 3)) /\ latest_head sample_storage2 5 None None.
Proof.
  assert (forall c, bool_decide (is_Some (conversations (state sample_storage2) !! c)) = true ->
    exists r, findLatestHeadMarker sample_storage2 2 c None = Some (Ok r) /\ latest_head sample_storage2 c None r) as H.
  { intros c Hc. apply (findLatestHeadMarker_latest sample_storage2 c None 2 sample_storage2_inv);
      [vm_compute; reflexivity|exact sample_forest|exact (bool_decide_eq_true_1 _ Hc)|vm_compute; lia]. }
  split.
  - destruct (H 2 ltac:(vm_compute; reflexivity)) as (r & Hr & Hl). vm_compute in Hr. injection Hr as <-. exact Hl.
  - destruct (H 5 ltac:(vm_compute; reflexivity)) as (r & Hr & Hl). vm_compute in Hr. injection Hr as <-. exact Hl.
Defined.
