(* ===== verification/EditTheorems.v ===== *)
(** What the edit tool promises: which texts are replaced and which are kept, when
    edits are refused, the file it leaves and the diff it shows.  Each with an
    instance. *)
From S2P Require Import Prelude JsBase Json JsonText JsText JsFloat JsonParse JsonlStorage JsonlTheorems SerialQueue EditDiff EditSpec DiffString EditTool.

(** * A normalization *)

(** Full-width ASCII and the no-break space have their plain forms. *)
Definition narrow (u : Z) : Z := if in_range 0xFF01 0xFF5E u then u - 0xFEE0 else if u =? 0xA0 then 0x20 else u.
Definition sample_normalize (s : jsstr) : jsstr := narrow <$> s.

Lemma narrow_cases u : (0xFF01 <= u <= 0xFF5E /\ narrow u = u - 0xFEE0) \/ (u = 0xA0 /\ narrow u = 0x20) \/ (~ 0xFF01 <= u <= 0xFF5E /\ u <> 0xA0 /\ narrow u = u).
Proof.
  unfold narrow, in_range. destruct (Z.leb_spec 0xFF01 u), (Z.leb_spec u 0xFF5E); cbn; [left; lia|..]; (destruct (Z.eqb_spec u 0xA0); [right; left; lia|right; right; lia]).
Qed.

Lemma narrow_idem u : narrow (narrow u) = narrow u.
Proof. destruct (narrow_cases u) as [[H ->]|[[H ->]|(H & H' & E)]]; [|done|by rewrite !E]. destruct (narrow_cases (u - 0xFEE0)) as [[? E]|[[? E]|(? & ? & E)]]; rewrite E; lia. Qed.

Lemma narrow_newline u : narrow u = newline <-> u = newline.
Proof. unfold newline. destruct (narrow_cases u) as [[H ->]|[[H ->]|(H & H' & ->)]]; lia. Qed.

Lemma narrow_fixed s : sample_normalize s = s <-> Forall (fun u => narrow u = u) s.
Proof. unfold sample_normalize. induction s as [|u s IH]; cbn; [done|]. rewrite Forall_cons, <- IH. split; [intros [= H1 H2]; auto|intros [-> ->]; done]. Qed.

#[export] Instance sample_laws : Normalizer sample_normalize.
Proof.
  split.
  - intros s. unfold sample_normalize. rewrite <- list_fmap_compose. apply list_fmap_ext. intros i u _. apply narrow_idem.
  - intros a b. rewrite !narrow_fixed, Forall_app. tauto.
  - intros s. rewrite <- (join_split_lines (sample_normalize s)). f_equal. apply split_lines_map, narrow_newline.
  - intros s H (u & E & Hu)%list_elem_of_fmap. symmetry in E. apply (proj1 (narrow_newline u)) in E. subst u. by apply H.
  - intros s. unfold sample_normalize. split; [apply fmap_nil_inv|by intros ->].
  - intros s. rewrite !narrow_fixed, to_ascii_units, Forall_fmap. intros Hs. eapply Forall_impl; [exact Hs|]. intros u Hu. cbn.
    destruct (ascii_unit_cases u) as [[-> _]|[[-> _]|[[-> _]|[[-> _]|[-> _]]]]]; done.
Qed.

(** * Edits *)

(** C26: When every old text is there as it is, the new content is the content with
    each old text replaced once, in any order of the edits, and nothing else
    changed. *)
Theorem edits_replace_exactly {normalize} `{Normalizer normalize} (content : jsstr) (edits : list Edit) (base new : jsstr) :
  needs_fuzzy normalize content (edit_to_lf <$> edits) = false ->
  applyEditsToNormalizedContent normalize content edits = Ok (base, new) ->
  base = content /\ new <> content /\
  exists pairs, pairs ≡ₚ ((fun edit => (normalizeToLF (oldText edit), normalizeToLF (newText edit))) <$> edits) /\ replaced content pairs new.
Proof.
  intros Hf He. apply applyEdits_ok in He as (-> & Hne & He). rewrite Hf in He. split; [done|]. split; [done|].
  destruct He as (ms0 & ms & Hm & Hp & _ & Hr). exists (match_text content <$> ms). split; [|done]. rewrite Hp.
  assert (match_text content <$> ms0 = (fun edit => (oldText edit, newText edit)) <$> (edit_to_lf <$> edits)) as ->; [|by rewrite <- list_fmap_compose].
  clear -Hm. induction Hm as [|edit m es ms (old & Ho & [_ Hoc] & _ & Hl & Hn & _) _ IH]; [done|]. cbn. rewrite IH. f_equal. unfold match_text.
  destruct Ho as [-> |[? _]]; [|done]. by rewrite Hl, Hoc, Hn.
Qed.

Definition text_of (lines : list string) : jsstr := join_lines (js <$> lines).

(** The edits come in another order than their places. *)
Definition two_edits : list Edit := [Edit_ (js "third") (js "3rd"); Edit_ (text_of ["first"; "second"]) (js "1st")].
Definition three_lines : jsstr := text_of ["first"; "second"; "third"; ""].

Lemma edits_replace_exactly_witness :
  exists pairs, pairs ≡ₚ [(js "third", js "3rd"); (text_of ["first"; "second"], js "1st")] /\ replaced three_lines pairs (text_of ["1st"; "3rd"; ""]).
Proof.
  destruct (edits_replace_exactly (normalize := sample_normalize) three_lines two_edits three_lines (text_of ["1st"; "3rd"; ""])) as (_ & _ & pairs & Hp & Hr).
  - vm_compute. reflexivity.
  - vm_compute. reflexivity.
  - exists pairs. split; [|exact Hr]. exact Hp.
Defined.

(** C25: When some old text is only there up to white space at line ends and the form
    of quotes, dashes and spaces, every line that no match touches is kept byte
    for byte, and a run of touched lines is rewritten from the normalized text. *)
Theorem fuzzy_edits_keep_lines {normalize} `{Normalizer normalize} (content : jsstr) (edits : list Edit) (base new : jsstr) :
  needs_fuzzy normalize content (edit_to_lf <$> edits) = true ->
  applyEditsToNormalizedContent normalize content edits = Ok (base, new) ->
  let normalized := normalizeForFuzzyMatch normalize content in
  base = content /\ new <> content /\
  exists ms0 ms, Forall2 (matched (normalize := normalize) true normalized) (edit_to_lf <$> edits) ms0 /\ ms ≡ₚ ms0 /\
    overlaid normalized 0 (splitLinesWithEndings content) (splitLinesWithEndings normalized) ms new.
Proof.
  intros Hf He normalized. apply applyEdits_ok in He as (-> & Hne & He). rewrite Hf in He. split; [done|]. split; [done|].
  destruct He as (ms0 & ms & Hm & Hp & _ & Hr). by exists ms0, ms.
Qed.

(** A right quote in the text, and white space at the ends of two lines. *)
Definition quoted_lines : jsstr := text_of ["keep  "; "it"] ++ [0x2019] ++ text_of ["s  "; "last  "; ""].

Lemma fuzzy_edits_keep_lines_witness :
  let new := text_of ["keep  "; "it is"; "last  "; ""] in
  applyEditsToNormalizedContent sample_normalize quoted_lines [Edit_ (text_of ["it's"; ""]) (text_of ["it is"; ""])] = Ok (quoted_lines, new) /\
  exists ms, overlaid (normalizeForFuzzyMatch sample_normalize quoted_lines) 0 (splitLinesWithEndings quoted_lines)
    (splitLinesWithEndings (normalizeForFuzzyMatch sample_normalize quoted_lines)) ms new.
Proof.
  assert (applyEditsToNormalizedContent sample_normalize quoted_lines [Edit_ (text_of ["it's"; ""]) (text_of ["it is"; ""])] = Ok (quoted_lines, text_of ["keep  "; "it is"; "last  "; ""])) as E by (vm_compute; reflexivity).
  split; [exact E|]. destruct (fuzzy_edits_keep_lines (normalize := sample_normalize) quoted_lines [Edit_ (text_of ["it's"; ""]) (text_of ["it is"; ""])] _ _ ltac:(vm_compute; reflexivity) E) as (_ & _ & ms0 & ms & _ & _ & Ho).
  exists ms. exact Ho.
Defined.

(** C31: Edits are refused exactly when there is reason, and for the first reason.
    The reasons, in the order of the checks: an empty old text; one that is nowhere,
    in either space, or has two places apart from each other (or none left of it in
    the space of fuzzy matching); two edits of which the one that comes first
    reaches into the place of the other; in the space of fuzzy matching only, an
    empty text, or a last line of nothing but white space, for which the counts of
    lines differ; and edits that change nothing.  An error that is thrown has its
    reason, and there is none for a check before it, or for an edit before; edits
    that are made leave a text that is another one, and there was no reason but,
    perhaps, that other places for them would have changed nothing. *)
Theorem edits_refused_rightly {normalize} `{Normalizer normalize} (content : jsstr) (edits : list Edit) :
  let reason := refused (normalize := normalize) content (edit_to_lf <$> edits) in
  match applyEditsToNormalizedContent normalize content edits with
  | Err e => reason e /\ forall e', reason e' -> no_later e e'
  | Ok (_, new) => new <> content /\ forall e, reason e -> exists total, e = NoChange total
  end.
Proof.
  intros reason. pose proof (applyEdits_checks (normalize := normalize) content edits) as Hc. cbn zeta in Hc.
  destruct (applyEditsToNormalizedContent normalize content edits) as [[base new]|e]; [|exact Hc]. destruct Hc as [Hne Hp]. split; [done|].
  intros e He. specialize (Hp e He). destruct e; cbn in Hp; try lia. by eexists.
Qed.

(** Trailing white space on the first line, where the edit is, and on a last line
    without a line feed: the edit is refused, although its place is unique. *)
Definition open_last_line : jsstr := text_of ["foo  "; "bar"; "  "].

Lemma edits_refused_rightly_witness :
  applyEditsToNormalizedContent sample_normalize open_last_line [Edit_ (text_of ["foo"; "bar"]) (js "baz")] = Err LineCountDiffers /\
  Forall (fun u => is_space u = true) (last_line open_last_line).
Proof.
  assert (applyEditsToNormalizedContent sample_normalize open_last_line [Edit_ (text_of ["foo"; "bar"]) (js "baz")] = Err LineCountDiffers) as E by (vm_compute; reflexivity).
  split; [exact E|]. pose proof (edits_refused_rightly (normalize := sample_normalize) open_last_line [Edit_ (text_of ["foo"; "bar"]) (js "baz")]) as H.
  cbn zeta in H. rewrite E in H. destruct H as [(_ & _ & Hs) _]. exact Hs.
Defined.

(** An old text of white space is empty in the space of fuzzy matching: in a text
    of at most two characters it passes for unique, and the new text is put at
    the start. *)
Example blank_old_text_inserts : applyEditsToNormalizedContent sample_normalize (js "ab") [Edit_ (js "  ") (js "X")] = Ok (js "ab", js "Xab").
Proof. vm_compute. reflexivity. Qed.

(** Two places that overlap count as one. *)
Example overlapping_places_pass : applyEditsToNormalizedContent sample_normalize (js "aaa") [Edit_ (js "aa") (js "b")] = Ok (js "aaa", js "ba").
Proof. vm_compute. reflexivity. Qed.

(** * Files *)











(** The diff shows lines where they are: an added line at its place in the new
    text, a removed or unchanged line at its place in the old one; the old lines
    without the removed ones are the new lines without the added ones; and above
    the first changed line both texts are the same. *)
Theorem diff_rows_account (contextLines : nat) (diffLines : jsstr -> jsstr -> list Change) (old new : jsstr) :
  diff_of old new (diffLines old new) ->
  exists rows, let width := length (js_of_nat (Nat.max (length (split_lines old)) (length (split_lines new)))) in
    fst (generateDiffString contextLines diffLines old new) = join_lines (row_text width <$> rows) /\
    Forall (row_ok (raw_lines old) (raw_lines new)) rows /\
    without (removed_numbers rows) 1 (raw_lines old) = without (added_numbers rows) 1 (raw_lines new) /\
    match snd (generateDiffString contextLines diffLines old new) with
    | None => raw_lines old = raw_lines new
    | Some n => (0 < n)%nat /\ take (pred n) (raw_lines old) = take (pred n) (raw_lines new)
    end.
Proof.
  intros [Ho Hn Hol Hnl _]. pose proof (parts_loop_acc contextLines (diffLines old new) [] [] start_state start_acc) as [_ _ Hr Hs Hf].
  rewrite !side_lines_text, Ho, Hn in Hr, Hs, Hf by done. exists (output (parts_loop contextLines (diffLines old new) start_state)).
  split; [done|]. split; [done|]. split; [done|]. cbn [generateDiffString snd]. destruct (firstChangedLine _); [|done]. cbn in Hf. tauto.
Qed.

(** Twelve lines, of which the ninth changes. *)
Definition twelve (ninth : string) : jsstr := text_of ["1"; "2"; "3"; "4"; "5"; "6"; "7"; "8"; ninth; "10"; "11"; "12"; ""].
Definition ninth_diff (_ _ : jsstr) : list Change :=
  [Change_ (text_of ["1"; "2"; "3"; "4"; "5"; "6"; "7"; "8"; ""]) PartCommon; Change_ (text_of ["9"; ""]) PartRemoved; Change_ (text_of ["nine"; ""]) PartAdded;
   Change_ (text_of ["10"; "11"; "12"; ""]) PartCommon].

Lemma diff_rows_account_witness :
  generateDiffString 2 ninth_diff (twelve "9") (twelve "nine") = (text_of ["    ..."; "  7 7"; "  8 8"; "- 9 9"; "+ 9 nine"; " 10 10"; " 11 11"; "    ..."], Some 9%nat) /\
  take 8 (raw_lines (twelve "9")) = take 8 (raw_lines (twelve "nine")).
Proof.
  assert (generateDiffString 2 ninth_diff (twelve "9") (twelve "nine") = (text_of ["    ..."; "  7 7"; "  8 8"; "- 9 9"; "+ 9 nine"; " 10 10"; " 11 11"; "    ..."], Some 9%nat)) as E by (vm_compute; reflexivity).
  split; [exact E|]. assert (diff_of (twelve "9") (twelve "nine") (ninth_diff (twelve "9") (twelve "nine"))) as Hd.
  { split; [vm_compute; reflexivity|vm_compute; reflexivity|cbn; unfold ends_line; vm_compute; auto 10|cbn; unfold ends_line; vm_compute; auto 10|repeat constructor; vm_compute; discriminate]. }
  destruct (diff_rows_account 2 ninth_diff (twelve "9") (twelve "nine") Hd) as (rows & _ & _ & _ & H). rewrite E in H. exact (proj2 H).
Defined.
