(* ===== verification/AiTheorems.v ===== *)
(** What the frames of an assistant message replay to.  With an instance. *)
From S2P Require Import Prelude JsBase JsText JsFloat Json JsonText JsonParse SessionTypes AiTypes StreamingJson AssistantFrames AssistantFramesSpec AgentMessages Retry.

(** C39: The frames the encoder makes of a stream of events it accepts, whose blocks
    start in order, each at the next index, are accepted by the reducer and replay to
    the message of the start event with the content the events tell: an ended block
    is what its end event says, an open one what its start held and what the deltas
    add beyond that; so a reader that is late, and sees in the start what later
    deltas bring again, ends up with the same text.  When the blocks do not start in
    order, which the encoder does not look at (see [restarted_block_not_replayable]),
    the reducer refuses the frames. *)
Theorem frames_replay (partialParse : jsstr -> option json) (events : list AssistantMessageEvent) (st : Encoder) (frames : list AssistantMessageFrame) :
  encode_events partialParse events new_Encoder = Ok (st, frames) ->
  match events with
  | EvStart partial :: later =>
      let blocks := tell_all partialParse later [] in
      (in_order 0 later ->
       reduceAssistantMessageFrames partialParse frames = Ok (Some (with_content (shown partialParse <$> blocks) (cloneStartMessage partial))) /\
       forall i c deltas, blocks !! i = Some (ToldText c deltas) -> tc_text c `prefix_of` deltas ->
         shown partialParse <$> blocks !! i = Some (BlockText (TextContent_ deltas (tc_textSignature c)))) /\
      (~ in_order 0 later -> exists e, reduceAssistantMessageFrames partialParse frames = Err e)
  | _ => reduceAssistantMessageFrames partialParse frames = Ok None
  end.
Proof.
  intros He. destruct events as [|event later]; [by injection He as _ <-|]. cbn [encode_events] in He. apply bind_Ok in He as ([st1 frame] & Hev & He).
  destruct event as [partial| | | | | | | | | | | ]; try discriminate Hev.
  - intros blocks. injection Hev as <- <-. apply bind_Ok in He as ([st2 rest] & Hrest & [= <- <-]). cbn [fst snd] in *.
    assert (forall rs, foldM (reduce_frame partialParse) (Reducer_ (cloneStartMessage partial) ∅) rest = rs ->
      reduceAssistantMessageFrames partialParse (FrStart (cloneStartMessage partial) :: rest) = (r ← rs; Ok (Some (settle_reducer partialParse r)))) as Hred.
    { intros rs <-. unfold reduceAssistantMessageFrames. cbn [reduce_before throw_if mbind result_bind]. by destruct (foldM _ _ rest). }
    change (option_list (Some ?x) ++ ?y) with (x :: y). split; [intros Ho|intros Ho].
    + destruct (encode_events_step partialParse _ _ _ _ _ _ _ (started_in_step partialParse partial) Ho Hrest) as (r & Hr & Hi). fold blocks in Hi. split.
      * rewrite (Hred _ Hr). cbn. do 2 f_equal. by eapply settle_shown.
      * intros i c deltas Hb Hp. rewrite Hb. cbn. by rewrite (beyond_prefix _ _ Hp).
    + destruct (encode_events_disordered partialParse _ _ _ _ _ _ _ (started_in_step partialParse partial) Ho Hrest) as [e Hr]. exists e. by rewrite (Hred _ Hr).
  - injection Hev as <- <-. apply bind_Ok in He as ([st2 rest] & Hrest & [= <- <-]). destruct later; [by injection Hrest as _ <-|discriminate Hrest].
Qed.

Definition message_of (content : list content_block) : AssistantMessage :=
  AssistantMessage_ content (js "api") (js "provider") (js "model") None None None None emptyUsage StopStop None None None None (NInt 7).

Definition call_with (arguments : json) : content_block := BlockToolCall (ToolCall_ (js "call") (js "read") arguments None None).
Definition path_arguments (path : string) : json := JObj [(js "path", JStr (js path))].
Definition text_block (text : string) : content_block := BlockText (TextContent_ (js text) None).

(** The text is read late: its start already holds the first two deltas.  So is
    the call: its start holds the arguments of the first two of its deltas. *)
Definition late_events : list AssistantMessageEvent :=
  let m text path := message_of [text_block text; call_with (path_arguments path)] in
  [EvStart (message_of []); EvTextStart 0 (m "Hello" "/e"); EvTextDelta 0 (js "Hel") (m "Hello" "/e"); EvTextDelta 0 (js "lo") (m "Hello" "/e"); EvTextDelta 0 (js " you") (m "Hello you" "/e");
   EvToolcallStart 1 (m "Hello you" "/e"); EvToolcallDelta 1 (js_json "{'path':") (m "Hello you" "/etc"); EvToolcallDelta 1 (js_json "'/etc'") (m "Hello you" "/etc"); EvToolcallDelta 1 (js "}") (m "Hello you" "/etc")].

(** Closes what is left open, where it can. *)
Definition sample_partial (text : jsstr) : option json := parse (text ++ js "}").

Lemma frames_replay_witness :
  exists st frames, encode_events sample_partial late_events new_Encoder = Ok (st, frames) /\
    length frames = 6%nat /\
    reduceAssistantMessageFrames sample_partial frames = Ok (Some (with_content [text_block "Hello you"; call_with (path_arguments "/etc")] (cloneStartMessage (message_of [])))).
Proof.
  destruct (encode_events sample_partial late_events new_Encoder) as [[st frames]|] eqn:E; [|vm_compute in E; discriminate E].
  exists st, frames. split; [reflexivity|]. split; [vm_compute in E; injection E as _ <-; reflexivity|].
  destruct (frames_replay sample_partial late_events st frames E) as [H _]. destruct H as [H _]; [vm_compute; auto|]. rewrite H. vm_compute. reflexivity.
Defined.

(** The encoder forgets a block that has ended, and accepts that it starts again;
    the frames are refused. *)
Definition restarted_events : list AssistantMessageEvent :=
  let m := message_of [text_block "a"] in [EvStart m; EvTextStart 0 m; EvTextEnd 0 (js "a") m; EvTextStart 0 m].

Example restarted_block_not_replayable :
  is_Ok (encode_events sample_partial restarted_events new_Encoder) = true /\
  (encoded ← encode_events sample_partial restarted_events new_Encoder; reduceAssistantMessageFrames sample_partial (snd encoded)) = Err (AlreadyExists 0).
Proof. vm_compute. auto. Qed.

(** A backslash before a [u] that no four digits follow is not doubled. *)
Example repair_leaves_bad_unicode : repairJson (js_json "{'path':'C:\users'}") = js_json "{'path':'C:\users'}" /\ parseJsonWithRepair (js_json "{'path':'C:\users'}") = None.
Proof. vm_compute. auto. Qed.

(** JSON whose strings hold raw control characters, and backslashes that are not
    doubled although no escape follows, is repaired to the text of the value, and
    so is read as the value meant. *)
Theorem repair_restores (w : jsstr -> jsstr) (v : json) :
  json_wf v -> json_prints v = true -> written w v -> repairJson (json_text w v) = stringify v /\ parse (repairJson (json_text w v)) = Some v.
Proof.
  intros Hw Hp Hv. assert (repairJson (json_text w v) = stringify v) as E; [|rewrite E; split; [done|by apply parse_stringify]].
  pose proof (restores_value w v Hv []) as H. cbn [repair] in H. by rewrite !app_nil_r in H.
Qed.

(** Quotes are escaped and nothing else. *)
Definition careless (s : jsstr) : jsstr := 0x22 :: concat ((fun u => if u =? 0x22 then [0x5C; 0x22] else [u]) <$> s) ++ [0x22].
Definition careless_value : json := JObj [(js "pattern", JStr (js "\d+")); (js "text", JStr (js "a" ++ [10] ++ js "b"))].

Lemma careless_string s : str_wf s -> is_well_formed s = true -> forallb (fun u => negb (u =? 0x5C)) s = true -> written_string careless s.
Proof.
  intros Hs Hw Hb. apply (written_string_ _ s (concat ((fun u => if u =? 0x22 then [0x5C; 0x22] else [u]) <$> s))); [done..| |done].
  clear Hs Hw. induction s as [|u s IH]; [constructor|]. cbn in Hb |- *. apply andb_true_iff in Hb as [Hu Hb]. apply negb_true_iff, Z.eqb_neq in Hu.
  destruct (Z.eqb_spec u 0x22) as [->|Hq]; [by apply sloppy_quote, IH|by apply sloppy_raw; [..|apply IH]].
Qed.

Lemma repair_restores_witness :
  parse (json_text careless careless_value) = None /\ parse (repairJson (json_text careless careless_value)) = Some careless_value.
Proof.
  split; [vm_compute; reflexivity|]. apply (repair_restores careless careless_value).
  - repeat constructor; try (vm_compute; congruence); set_solver.
  - vm_compute. reflexivity.
  - apply written_obj; repeat apply Forall_cons_2; try apply Forall_nil_2; cbn [fst snd]; try apply written_str; try (apply careless_string; [repeat constructor; vm_compute; congruence|vm_compute; reflexivity..]).
    apply (written_string_ _ _ (js "\d+")); [repeat constructor; vm_compute; congruence|vm_compute; reflexivity| |vm_compute; reflexivity].
    apply sloppy_single; [vm_compute; reflexivity|]. repeat (apply sloppy_raw; [vm_compute; congruence..|]). apply sloppy_nil.
Defined.

(** * Calls that are tried again *)

(** C38: In any world that answers the calls and interrupts or completes the sleeps: a
    call is made at most once and then once for each try the policy allows.  Every
    try follows an error that is worth one, is announced with its number, waits the
    delay that was announced, no longer than the cap, and is announced again before
    it starts.  What is returned is the last answer: no error, or an error not
    worth a try, or the one after the last try; or, when a sleep is interrupted, the
    answer before it as one that was aborted.  The end is announced once if anything
    was tried again, and never otherwise, as a success exactly if the last answer is
    one. *)
Theorem retries_as_announced (responses : nat -> AssistantMessage) (wakes : nat -> bool) (policy : option RetryPolicy) :
  let p := default default_policy policy in
  let maxAttempts := if rp_enabled p then rp_maxRetries p else 0 in
  exists w r, retryAssistantCall (told_produce responses) (told_sleep wakes) told_callback policy (World_ 0 0 []) = (w, Ok r) /\
    outcome_from responses wakes p maxAttempts 0 (Z.to_nat maxAttempts) (w_trace w) r /\
    forall attempt, retryDelayMs p attempt <= default DEFAULT_MAX_AGENT_RETRY_DELAY_MS (rp_maxAgentDelayMs p).
Proof.
  intros p maxAttempts. destruct (retry_loop_trace responses wakes p maxAttempts (Z.to_nat maxAttempts) 0 None (World_ 0 0 []) eq_refl eq_refl eq_refl) as (w & r & trace & E & Ht & Ho).
  exists w, r. split_and!; [exact E|by rewrite Ht|]. intros attempt. unfold retryDelayMs. lia.
Qed.

Definition failing (text : string) : AssistantMessage :=
  AssistantMessage_ [] (js "api") (js "provider") (js "model") None None None None emptyUsage StopError None (Some (js text)) None None (NInt 7).

(** Two failures that pass, one that does not. *)
Example retries_sample :
  let policy := RetryPolicy_ true 5 1000 None in
  let answers i := match i with 0%nat => failing "HTTP 503" | 1%nat => failing "Rate-limit hit" | _ => failing "Quota exceeded (429)" end in
  w_trace (fst (retryAssistantCall (told_produce answers) (told_sleep (fun _ => true)) told_callback (Some policy) (World_ 0 0 []))) =
    [Called; Event (RetryScheduled 1 5 1000 (js "HTTP 503")); Slept 1000; Event RetryAttemptStart; Called;
     Event (RetryScheduled 2 5 2000 (js "Rate-limit hit")); Slept 2000; Event RetryAttemptStart; Called;
     Event (RetryFinished false 2 (Some (js "Quota exceeded (429)")))].
Proof. vm_compute. reflexivity. Qed.
