(* ===== verification/AgentTheorems.v ===== *)
(** What the loop of an agent ([packages/agent/src/agent-loop.ts]), the object
    around it ([agent.ts]) and the replay of system messages
    ([packages/ai/src/utils/transcript.ts]) guarantee. *)
From stdpp Require Import gmultiset.
From S2P Require Import Prelude JsBase Json JsonText JsText JsFloat JsonParse SessionTypes JsonlTheorems AiTypes AgentMessages Transcript AssistantFrames SerialQueue AgentLoop AgentLoopSpec Agent AgentSpec.

(** * A run to try things on

    The outside world counts the requests.  The first answer calls two tools, which
    run at the same time and take their turns the other way round; the second
    answer is an end. *)

Definition sample_usage : Usage := emptyUsage.

Definition sample_answer (content : list content_block) (stopReason : StopReason) : AssistantMessage :=
  AssistantMessage_ content (js "api") (js "provider") (js "model") None None None None sample_usage stopReason None None None None (NInt 1).

Definition sample_call (id : string) : ToolCall := ToolCall_ (js id) (js "echo") (JObj []) None None.

Definition sample_user (text : string) : AgentMessage := AgentLlm (MsgUser (UserMessage_ (InputString (js text)) (NInt 2))).

Definition sample_result (text : string) : AgentToolResult := AgentToolResult_ (Some [InputText (TextContent_ (js text) None)]) None None None.

Definition sample_tool : Tool := Tool_ (js "echo") (js "Says it again") (JObj [(js "type", JStr (js "object"))]) None.

Definition echo_tool {Out E} : AgentTool Out E :=
  AgentTool_ sample_tool None (fun id _ => ToolTurn (fun o => (o, [sample_result "half"], ToolTurn (fun o => (o, [], ToolDone (Ok (sample_result "all"))))))) None.

Definition sample_surroundings (calls : list ToolCall) : Surroundings nat jsstr :=
  Surroundings_ (fun _ o => (o, Ok tt)) (fun _ => false) (fun _ => NInt 3) (fun e => e) (fun _ call => Ok (tool_arguments call)) (fun _ => [1; 0; 1]%nat)
    (fun _ _ _ _ o =>
      let answer := if decide (o = 0%nat) then sample_answer (BlockToolCall <$> calls) StopToolUse else sample_answer [] StopStop in
      (S o, Ok (EventStream_ [fun o => (o, Ok (EvStart (sample_answer [] StopPending)))] (fun o => (o, Ok answer))))).

Definition sample_config {Out E} : AgentLoopConfig Out E :=
  AgentLoopConfig_ (AgentModel_ (js "model") (js "api") (js "provider")) None None
    (fun messages o => (o, Ok (omap (fun m => match m with AgentLlm m => Some m | _ => None end) messages)))
    None None None None None None None None None None.

Definition sample_context {Out E} : AgentContext Out E := AgentContext_ [] (Some [echo_tool]).

Definition sample_sr : Surroundings nat jsstr := sample_surroundings [sample_call "a"; sample_call "b"].

Definition sample_run (fuel : nat) : world nat * result jsstr (option (list AgentMessage)) :=
  runAgentLoop sample_sr fuel [sample_user "hello"] sample_context sample_config (World [] 0%nat).

Definition sample_events : list AgentEvent := wl_events (fst (sample_run 5)).

Definition sample_messages : list AgentMessage := match snd (sample_run 5) with Ok (Some l) => l | _ => [] end.

Lemma sample_starts_once : streams_start_once sample_sr.
Proof. intros model messages reasoning key o o' response. cbn. intros [= _ <-]. constructor. Qed.

Lemma sample_not_aborted : never_aborted sample_sr.
Proof. done. Qed.

Lemma sample_runs : sample_run 5 = (World sample_events 2%nat, Ok (Some sample_messages)).
Proof. vm_compute. reflexivity. Qed.

(** A run that came to its end, from prompts or from where the context stands. *)
Definition completes {Out E} (sr : Surroundings Out E) (fuel : nat) (prompts : list AgentMessage) (context : AgentContext Out E) (config : AgentLoopConfig Out E)
    (o : Out) (w : world Out) (new : list AgentMessage) : Prop :=
  runAgentLoop sr fuel prompts context config (World [] o) = (w, Ok (Some new)) \/
  runAgentLoopContinue sr fuel context config (World [] o) = (w, Ok (inr (Some new))).

Lemma completes_watched {Out E} (sr : Surroundings Out E) fuel prompts context config o w new :
  streams_start_once sr -> completes sr fuel prompts context config o w new -> watched (never_aborted sr) (wl_events w) (at_end new).
Proof.
  intros Hs [H|H].
  - destruct (runs_runAgentLoop sr fuel prompts context config Hs (World [] o) _ _ (watched_none _) H) as (y & Hy & ->). done.
  - destruct (runs_runAgentLoopContinue sr fuel context config Hs (World [] o) _ _ (watched_none _) H) as (y & Hy & ->). done.
Qed.

(** * The loop *)

(** C5: the events of a run follow the protocol: turns one after the other, messages
    that start, are updated and end, calls of tools that end after they started and
    before the results are shown.  The messages shown are the messages returned, in
    order, and the last event, and no other, is the end of the run with them. *)
Theorem run_protocol {Out E} (sr : Surroundings Out E) fuel prompts context config o w new :
  streams_start_once sr -> completes sr fuel prompts context config o w new ->
  watched (never_aborted sr) (wl_events w) (Watch_ AfterRun None ∅ new) /\
  omap shown_message (wl_events w) = new /\
  exists front, wl_events w = front ++ [OnAgentEnd new] /\ Forall (fun e => match e with OnAgentEnd _ => False | _ => True end) front.
Proof.
  intros Hs Hc. pose proof (completes_watched _ _ _ _ _ _ _ _ Hs Hc) as H. split; [done|]. split; [by eapply watched_messages in H|].
  exact (watched_end _ _ _ H).
Qed.

Lemma run_protocol_witness :
  watched (never_aborted sample_sr) sample_events (Watch_ AfterRun None ∅ sample_messages) /\ omap shown_message sample_events = sample_messages /\
  exists front, sample_events = front ++ [OnAgentEnd sample_messages] /\ Forall (fun e => match e with OnAgentEnd _ => False | _ => True end) front.
Proof. exact (run_protocol sample_sr 5 _ _ _ 0%nat _ _ sample_starts_once (or_introl sample_runs)). Defined.

(** C6: every turn that ends tells the results of its calls: of none when the
    response failed, of all, as errors, when it was cut off by the token limit, and
    else of the calls in their order, of all of them unless the run was aborted.
    In what the run returns, the results stand right behind their response. *)
Theorem turns_answered {Out E} (sr : Surroundings Out E) fuel prompts context config o w new m results :
  streams_start_once sr -> completes sr fuel prompts context config o w new -> OnTurnEnd (assistant_llm m) results ∈ wl_events w ->
  turn_answered (never_aborted sr) m results /\ exists front back, new = front ++ assistant_llm m :: (result_llm <$> results) ++ back.
Proof. intros Hs Hc. exact (watched_turns _ _ _ _ _ (completes_watched _ _ _ _ _ _ _ _ Hs Hc)). Qed.

Definition sample_tool_answer : AssistantMessage := sample_answer [BlockToolCall (sample_call "a"); BlockToolCall (sample_call "b")] StopToolUse.

Definition sample_tool_result (id : string) : ToolResultMessage :=
  ToolResultMessage_ (js id) (js "echo") [InputText (TextContent_ (js "all") None)] None None false (NInt 3).

Lemma turns_answered_witness :
  turn_answered (never_aborted sample_sr) sample_tool_answer [sample_tool_result "a"; sample_tool_result "b"] /\
  exists front back, sample_messages = front ++ assistant_llm sample_tool_answer :: (result_llm <$> [sample_tool_result "a"; sample_tool_result "b"]) ++ back.
Proof.
  apply (turns_answered sample_sr 5 [sample_user "hello"] sample_context sample_config 0%nat (World sample_events 2%nat));
    [exact sample_starts_once|left; exact sample_runs|].
  apply (list_elem_of_lookup_2 _ 18%nat). vm_compute. reflexivity.
Defined.

(** C7: however the turns of tools that run at the same time interleave, at no time
    have more calls of an id ended than were started, and at the end all have. *)
Theorem tools_settle {Out E} (sr : Surroundings Out E) fuel prompts context config o w new front back id :
  streams_start_once sr -> completes sr fuel prompts context config o w new -> wl_events w = front ++ back ->
  (count ended_tool id front <= count started_tool id front)%nat /\ count ended_tool id (wl_events w) = count started_tool id (wl_events w).
Proof.
  intros Hs Hc Ew. pose proof (completes_watched _ _ _ _ _ _ _ _ Hs Hc) as H. split.
  - rewrite Ew in H. destruct (watched_prefix _ _ _ _ H) as (y & Hy). pose proof (watched_tools _ _ _ id Hy). lia.
  - pose proof (watched_tools _ _ _ id H) as Hc'. cbn in Hc'. rewrite multiplicity_empty in Hc'. lia.
Qed.

Lemma tools_settle_witness :
  (count ended_tool (js "b") (take 11 sample_events) <= count started_tool (js "b") (take 11 sample_events))%nat /\
  count ended_tool (js "b") sample_events = count started_tool (js "b") sample_events.
Proof.
  apply (tools_settle sample_sr 5 [sample_user "hello"] sample_context sample_config 0%nat (World sample_events 2%nat) sample_messages _ (drop 11 sample_events));
    [exact sample_starts_once|left; exact sample_runs|]. vm_compute. reflexivity.
Defined.

(** C30: before a request the model is told of the tools there are.  Replaying the
    transcript with the messages that [declareToolChanges] makes of the pending ones
    gives the tools of the context, up to their order; the other messages are those
    that were pending; and what was declared is not declared again. *)
Theorem tools_declared {Out E} (context : AgentContext Out E) pending timestamp timestamp' :
  NoDup (names (context_tools context)) -> Forall tool_ok (context_tools context) -> Forall tool_ok (all_added (ctx_messages context ++ pending)) ->
  let messages := declareToolChanges context pending timestamp in
  getCurrentTools (ctx_messages context ++ messages) ≡ₚ context_tools context /\
  filter (fun m => not_system m = true) messages = filter (fun m => not_system m = true) pending /\
  declareToolChanges (add_messages context messages) [] timestamp' = [].
Proof. intros Hn Oc Op. split_and!; [by apply declared_tools|apply declare_keeps|by apply declared_once]. Qed.

Definition renamed_tool (name : string) : Tool := Tool_ (js name) (js "Says it again") (JObj [(js "type", JStr (js "object"))]) None.

Lemma tools_okb tools : forallb (fun t => writableb (tool_json t)) tools = true -> Forall tool_ok tools.
Proof. intros H%forallb_Forall. eapply Forall_impl; [exact H|]. intros t Ht. by apply writableb_spec in Ht. Qed.

Definition tool_named {Out E} (name : string) : AgentTool Out E := AgentTool_ (renamed_tool name) None (fun _ _ => ToolDone (Ok (sample_result "all"))) None.

(** Two tools were declared; one of them went, and another came. *)
Definition declared_before : AgentMessage :=
  AgentLlm (MsgSystem (SystemMessage_ (InputString (js "Be brief.")) None (Some [renamed_tool "echo"; renamed_tool "gone"]) None (NInt 0))).

Definition changed_context : AgentContext nat jsstr := AgentContext_ [declared_before] (Some [tool_named "new"; tool_named "echo"]).

Lemma tools_declared_witness :
  let messages := declareToolChanges changed_context [sample_user "hello"] (NInt 5) in
  getCurrentTools (ctx_messages changed_context ++ messages) ≡ₚ context_tools changed_context /\
  filter (fun m => not_system m = true) messages = filter (fun m => not_system m = true) [sample_user "hello"] /\
  declareToolChanges (add_messages changed_context messages) [] (NInt 6) = [].
Proof.
  apply (tools_declared changed_context [sample_user "hello"] (NInt 5) (NInt 6)); [|apply tools_okb; vm_compute; reflexivity..].
  apply (bool_decide_unpack _). vm_compute. exact I.
Defined.

(** The tools come in the order of the declarations, which need not be the order of
    the context. *)
Example declared_order :
  declareToolChanges (AgentContext_ [declared_before] (Some [tool_named "gone"; tool_named "echo"]) : AgentContext nat jsstr) [] (NInt 5) = [] /\
  getCurrentTools [declared_before] = [renamed_tool "echo"; renamed_tool "gone"].
Proof. split; vm_compute; reflexivity. Qed.

(** * The object around the loop *)

(** C29: what the object makes of the events of a run: the messages returned are
    appended to its messages, nothing is left that streams and no call is left that
    runs. *)
Theorem agent_follows_run {Out E T} (sr : Surroundings Out E) fuel prompts context config o w new (s : AgentState T) :
  streams_start_once sr -> completes sr fuel prompts context config o w new ->
  as_streamingMessage s = None -> as_pendingToolCalls s = ∅ ->
  let s' := foldl reduce_event s (wl_events w) in
  as_messages s' = as_messages s ++ new /\ as_streamingMessage s' = None /\ as_pendingToolCalls s' = ∅.
Proof.
  intros Hs Hc Hst Hp. pose proof (completes_watched _ _ _ _ _ _ _ _ Hs Hc) as H. destruct (watched_follows _ s _ _ Hst Hp H) as (Hm & Hst' & Hp').
  split_and!; [done|done|]. apply set_eq. intros id. split; [intros Hin%Hp'; cbn in Hin; multiset_solver|set_solver].
Qed.

Definition sample_state : AgentState nat := AgentState_ (AgentModel_ (js "model") (js "api") (js "provider")) (js "off") [] [declared_before] true None ∅ None.

Lemma agent_follows_run_witness :
  let s' := foldl reduce_event sample_state sample_events in
  as_messages s' = declared_before :: sample_messages /\ as_streamingMessage s' = None /\ as_pendingToolCalls s' = ∅.
Proof. exact (agent_follows_run sample_sr 5 _ _ _ 0%nat _ _ sample_state sample_starts_once (or_introl sample_runs) eq_refl eq_refl). Defined.

(** C28: between runs the object is idle.  While a run is active, [prompt],
    [continue] and [reset] throw and change nothing.  When none is, the object is
    idle after [prompt], whatever becomes of the run it starts, failures of hooks,
    tools, listeners and of the model included; it is idle after [reset], which
    leaves the system message and nothing else: no other message, no error, nothing
    queued; and an object that is idle is idle after [continue], whether it refuses
    or runs. *)
Theorem agent_settles {T Ext E} (op : AgentOptions (T := T) (Ext := Ext) (E := E)) fuel w :
  let a := wl_outside w in
  (ag_activeRun a <> None ->
     (forall input, exists e, prompt op fuel input w = (w, Err e)) /\ (exists e, continue_ op fuel w = (w, Err e)) /\ (exists e, reset op a = (a, Err e))) /\
  (ag_activeRun a = None ->
     (forall input, idle (wl_outside (fst (prompt op fuel input w)))) /\
     (let '(a', r) := reset op a in
      r = Ok tt /\ idle a' /\ hasQueuedMessages a' = false /\ as_errorMessage (ag_state a') = None /\
      as_messages (ag_state a') = AgentLlm <$> (MsgSystem <$> option_list (getCurrentSystemMessage (as_messages (ag_state a))))) /\
     (idle a -> idle (wl_outside (fst (continue_ op fuel w))))).
Proof.
  intros a. split.
  - intros Ha. unfold prompt, continue_, reset, a in *. destruct (ag_activeRun (wl_outside w)) as [b|] eqn:Ea; [|done]. split_and!; [intros input|..]; by eexists.
  - intros Ha. assert (forall m v, ag_activeRun (wl_outside v) = None -> idle (wl_outside (fst (runWithLifecycle op m v)))) as Hrun.
    { intros m v Hv. destruct (runWithLifecycle op m v) as [v' r] eqn:Em. by apply lifecycle_idle in Em as [(_ & _ & Hn)|[_ Hw]]. }
    split_and!.
    + intros input. unfold prompt. unfold a in Ha. rewrite Ha. by apply Hrun.
    + unfold reset. rewrite Ha. split_and!; try done. cbn. by destruct (getCurrentSystemMessage _).
    + intros Hi. unfold continue_. unfold a in Ha. rewrite Ha. destruct (last (as_messages (ag_state (wl_outside w)))) as [m|]; [|done]. destruct (forallb _ _); [done|].
      destruct m as [[| |m|]| | | | |]; try by apply Hrun.
      destruct (drain (ag_steeringQueue (wl_outside w))) as [steering [|m1 queued]]; [|by apply Hrun].
      destruct (drain _) as [followUps [|m2 queued]]; [done|by apply Hrun].
Qed.

(** An object whose model never answers. *)
Definition failing_options : AgentOptions (T := nat) (Ext := nat) (E := jsstr) :=
  AgentOptions_ (fun _ => echo_tool) (fun _ o => (o, Ok [])) None (fun _ _ _ _ o => (o, Err (js "no network"))) None None None None None None None ModeParallel []
    (fun _ call => Ok (tool_arguments call)) (fun _ => []) (fun _ => NInt 0) js (fun e => e).

Definition sample_agent (steering followUps : list AgentMessage) : Agent nat nat :=
  Agent_ (createMutableAgentState (fun _ => sample_tool) (Some (js "Be brief.")) (AgentModel_ (js "model") (js "api") (js "provider")) (js "off") [0%nat] [])
    (Queue_ QueueOneAtATime steering) (Queue_ QueueAll followUps) None false 0%nat.

Definition failing_run := prompt failing_options 3 (PromptMessages [sample_user "hello"]) (World [] (sample_agent [] [])).

Lemma agent_settles_witness :
  let a := wl_outside (fst failing_run) in
  idle a /\ idle (fst (reset failing_options a)) /\ length (as_messages (ag_state a)) = 3%nat /\ length (as_messages (ag_state (fst (reset failing_options a)))) = 1%nat.
Proof.
  intros a. assert (idle a) as Hi.
  { destruct (agent_settles failing_options 3 (World [] (sample_agent [] []))) as [_ H]. destruct H as (H & _ & _); [reflexivity|]. exact (H (PromptMessages [sample_user "hello"])). }
  split; [exact Hi|]. destruct (agent_settles failing_options 3 (fst failing_run)) as [_ H]. destruct H as (_ & H & _); [exact (proj1 Hi)|].
  fold a in H. split; [|vm_compute; auto]. destruct (reset failing_options a) as [a' r]. apply H.
Defined.

(** The failure is a message of the transcript. *)
Example failure_shown :
  (fun m => match m with AgentLlm (MsgAssistant m) => am_errorMessage m | _ => None end) <$> as_messages (ag_state (wl_outside (fst failing_run))) = [None; None; Some (js "no network")].
Proof. vm_compute. reflexivity. Qed.

(** C27: a prompt ends, and what was queued is delivered.  When no hook interferes
    and the model only answers, the run needs no more requests than one and the
    messages queued; the prompt, the steering messages and then the follow-ups are
    in the transcript, each once and in order, whatever the modes of the queues, and
    the queues are empty. *)
Theorem queued_delivered {T Ext E} (op : AgentOptions (T := T) (Ext := Ext) (E := E)) fuel input w :
  let a := wl_outside w in
  plain_options op -> ag_activeRun a = None -> (length (pq_messages (ag_steeringQueue a)) + length (pq_messages (ag_followUpQueue a)) < fuel)%nat ->
  exists w' more, prompt op fuel input w = (w', Ok true) /\
    as_messages (ag_state (wl_outside w')) = as_messages (ag_state a) ++ more /\
    delivered more = delivered (normalizePromptInput input (op_now op (ag_ext a)) ++ pq_messages (ag_steeringQueue a) ++ pq_messages (ag_followUpQueue a)) /\
    hasQueuedMessages (wl_outside w') = false.
Proof.
  intros a Hop Ha Hf. destruct (goes_prompt op Hop fuel input w Ha Hf) as (w' & done_ & Er & more & -> & Em & Ed & Es & Ef).
  exists w', more. split_and!; [done..|]. unfold hasQueuedMessages, hasItems. by rewrite Es, Ef.
Qed.

Definition answering_options : AgentOptions (T := nat) (Ext := nat) (E := jsstr) :=
  AgentOptions_ (fun _ => echo_tool) (fun _ o => (o, Ok [])) None (fun _ _ _ _ o => (o, Ok (EventStream_ [] (fun o => (o, Ok (sample_answer [] StopStop)))))) None None None None None None None
    ModeParallel [] (fun _ call => Ok (tool_arguments call)) (fun _ => []) (fun _ => NInt 0) js (fun e => e).

Lemma answering_plain : plain_options answering_options.
Proof.
  assert (forall {A} (P : A -> Prop) r, P r -> ext_only (T := nat) (Ext := nat) (E := jsstr) P (fun a => (a, Ok r))) as Hret.
  { intros A P r Hr a. exists (ag_ext a), r. split; [by destruct a|done]. }
  constructor; try done; [intros; by apply Hret|]. intros model messages reasoning key. apply Hret. split; [constructor|]. by apply Hret.
Qed.

Lemma queued_delivered_witness :
  let a := sample_agent [sample_user "one"; sample_user "two"] [sample_user "three"; sample_user "four"] in
  exists w' more, prompt answering_options 5 (PromptMessages [sample_user "zero"]) (World [] a) = (w', Ok true) /\
    as_messages (ag_state (wl_outside w')) = as_messages (ag_state a) ++ more /\
    delivered more = delivered ([sample_user "zero"] ++ [sample_user "one"; sample_user "two"] ++ [sample_user "three"; sample_user "four"]) /\
    hasQueuedMessages (wl_outside w') = false.
Proof.
  intros a. apply (queued_delivered answering_options 5 (PromptMessages [sample_user "zero"]) (World [] a)); [exact answering_plain|reflexivity|].
  cbn. lia.
Defined.

(** * Transcripts *)

(** What providers get that take no system messages in the middle says what the
    transcript says: the same prompt, sections and tools, in one message at the
    front, before all other messages. *)
Theorem collapse_says_the_same messages :
  let collapsed := collapseSystemMessages messages in
  getCurrentSystemMessage (AgentLlm <$> collapsed) = getCurrentSystemMessage (AgentLlm <$> messages) /\
  getCurrentSystemPrompt (AgentLlm <$> collapsed) = getCurrentSystemPrompt (AgentLlm <$> messages) /\
  getCurrentTools (AgentLlm <$> collapsed) = getCurrentTools (AgentLlm <$> messages) /\
  withoutInitialSystemMessage collapsed = filter (fun m => isSystemMessage (AgentLlm m) = None) messages.
Proof.
  destruct (collapse_same messages) as [Et Em]. split_and!; [done|unfold getCurrentSystemPrompt; by rewrite Em|done|].
  unfold collapseSystemMessages. clear Et Em. unfold withoutInitialSystemMessage.
  destruct (getCurrentSystemMessage (AgentLlm <$> messages)); [reflexivity|].
  assert (getInitialSystemMessage (AgentLlm <$> filter (fun m => isSystemMessage (AgentLlm m) = None) messages) = None) as ->; [|done].
  destruct (filter _ messages) as [|m rest] eqn:Ef; [done|]. cbn. assert (m ∈ filter (fun m => isSystemMessage (AgentLlm m) = None) messages) as Hm by (rewrite Ef; left).
  by apply list_elem_of_filter in Hm as [Hm _].
Qed.

(** What is declared after the message that leads. *)
Definition later_tools (messages : list AgentMessage) : list Tool :=
  all_added (match getInitialSystemMessage messages with Some _ => tail messages | None => messages end).

(** Whether a transport adds tools in place or not, the model has the current
    tools: the tools of the request and those added later together, or those of the
    request alone.  Tools are added in place only if the transport can and no tool
    was taken back or declared again. *)
Theorem request_tools_complete messages supportsToolAdditions :
  let t := resolveTranscriptTools messages supportsToolAdditions in
  tt_requestTools t ++ (if tt_anchorsAdditions t then later_tools messages else []) = getCurrentTools messages /\
  (tt_anchorsAdditions t = true -> supportsToolAdditions = true /\ NoDup (names (all_added messages)) /\ Forall (fun m => default [] (sy_toolsRemoved m) = []) (systems messages)).
Proof.
  unfold resolveTranscriptTools. cbn [tt_requestTools tt_anchorsAdditions]. destruct supportsToolAdditions; cbn [andb]; [|by rewrite app_nil_r].
  destruct (hasNonAdditiveToolChanges messages) eqn:Ea; cbn [negb]; [by rewrite app_nil_r|]. apply additive_tools in Ea as Et. split.
  - rewrite Et. unfold later_tools. destruct messages as [|m messages]; [done|]. by destruct m as [[]| | | | |].
  - intros _. split_and!; [done|rewrite <- Et; apply current_tools_by_name|]. by eapply additive_removes_nothing.
Qed.

Definition system_with (added : list Tool) (removed : list jsstr) : AgentMessage :=
  AgentLlm (MsgSystem (SystemMessage_ (InputString []) None (Some added) (Some removed) (NInt 0))).

Example request_tools_samples :
  let added := [system_with [renamed_tool "a"] []; sample_user "hello"; system_with [renamed_tool "b"] []] in
  resolveTranscriptTools added true = TranscriptTools_ [renamed_tool "a"] true /\
  resolveTranscriptTools added false = TranscriptTools_ [renamed_tool "a"; renamed_tool "b"] false /\
  resolveTranscriptTools (added ++ [system_with [] [js "a"]]) true = TranscriptTools_ [renamed_tool "b"] false.
Proof. vm_compute. repeat split. Qed.
