(* ===== verification/HarnessTheorems.v ===== *)
(** What the revision differ ([packages/chord/src/state/diff.ts]), the truncation of
    tool output ([packages/agent/src/harness/utils/truncate.ts]) and the codec of
    service states ([packages/chord/src/services/state-codec.ts]) guarantee. *)
From S2P Require Import Prelude JsBase Json JsonText DeltaOps DeltaApply JsText DeltaDiff DeltaCodec Truncate ServiceState JsFloat SessionTypes AiTypes AgentMessages LaneReducer StateDiff StateDiffSpec.

(** * What a watcher of a lane sees is the lane.  With instances. *)

(** The entries a list of events adds to a lane. *)
Definition added (lane : jsstr) (events : list HarnessEvent) : list TranscriptEntry := omap (entry_of_event lane) events.

Definition messages_of (entries : list TranscriptEntry) : Z := Z.of_nat (length (base.filter (fun e => is_message_entry e = true) entries)).

Lemma messages_of_cons e entries : messages_of (e :: entries) = (if is_message_entry e then 1 else 0) + messages_of entries.
Proof. unfold messages_of. rewrite filter_cons. destruct (is_message_entry e); cbn [decide]; case_decide; try done. cbn [length]. lia. Qed.

Lemma watch_app s a b : watch s (a ++ b) = watch (watch s a) b.
Proof. apply foldl_app. Qed.

Lemma watch_cons s e events : watch s (e :: events) = watch (fst (reduceLaneSnapshot s e)) events.
Proof. done. Qed.

Lemma watch_lane s events : ls_lane (watch s events) = ls_lane s.
Proof. revert s. induction events as [|e events IH]; intros s; [done|]. rewrite watch_cons, IH. apply reduce_rest. Qed.

Lemma watch_lane_all (path : list TranscriptEntry) (s : LaneSnapshot) (events : list HarnessEvent) :
  ls_transcript s = buildContextEntries path -> snapshot_ok s ->
  let s' := watch s events in
  ls_transcript s' = buildContextEntries (path ++ added (ls_lane s) events) /\
  ls_messageCount s' = ls_messageCount s + messages_of (added (ls_lane s) events) /\
  snapshot_ok s' /\
  s' = watch s (base.filter (fun e => foreign s e = false) events).
Proof.
  revert path s. induction events as [|e events IH]; intros path s Ht Hs s'; subst s'.
  - change (added (ls_lane s) []) with (@nil TranscriptEntry). change (messages_of []) with 0. cbn [watch foldl]. rewrite app_nil_r. split_and!; [done|lia|done|done].
  - rewrite watch_cons. destruct (reduce_rest s e) as [Hl Hr]. pose proof (reduce_ok s e Hs) as Hok.
    assert (forall e', foreign (fst (reduceLaneSnapshot s e)) e' = foreign s e') as Hfe by (intros e'; unfold foreign; by rewrite Hl).
    unfold added. cbn [omap list_omap]. destruct (entry_of_event (ls_lane s) e) as [entry|] eqn:Ee.
    + destruct (IH (path ++ [entry]) (fst (reduceLaneSnapshot s e))) as (H1 & H2 & H3 & H4); [|done|].
      { rewrite Hr, buildContextEntries_snoc. unfold add_entry. cbn [ls_transcript]. rewrite <- Ht. done. }
      rewrite Hl in *. unfold added in *. rewrite <- app_assoc in H1. rewrite messages_of_cons. split_and!; [exact H1| |exact H3|].
      * rewrite H2, Hr. unfold add_entry, is_message_entry. cbn [ls_messageCount]. destruct (te_body entry); lia.
      * rewrite H4 at 1. rewrite filter_cons. case_decide as Hf; [|destruct (foreign s e) eqn:Ef; [|done]; apply foreign_entry in Ef; congruence].
        rewrite watch_cons. f_equal. apply list_filter_iff. intros e'. by rewrite Hfe.
    + destruct Hr as [Hr1 Hr2]. destruct (IH path (fst (reduceLaneSnapshot s e))) as (H1 & H2 & H3 & H4); [by rewrite Hr1|done|].
      rewrite Hl, Hr2 in *. unfold added in *. split_and!; [exact H1|exact H2|exact H3|]. rewrite H4 at 1. rewrite filter_cons. case_decide as Hf.
      * rewrite watch_cons. f_equal. apply list_filter_iff. intros e'. by rewrite Hfe.
      * assert (fst (reduceLaneSnapshot s e) = s) as -> by (unfold reduceLaneSnapshot; destruct (foreign s e); done).
        done.
Qed.

(** C36: Whatever happens on a lane and on others, in whatever order: the transcript a
    watcher has is what the context of a path consists of, the path growing by the
    entries added to the lane; it counts their messages; the events of other lanes
    might as well not have come; and at no time are two running tools shown for one
    call. *)
Theorem watch_follows_lane (path : list TranscriptEntry) (s : LaneSnapshot) (events : list HarnessEvent) :
  ls_transcript s = buildContextEntries path -> snapshot_ok s ->
  let s' := watch s events in
  ls_transcript s' = buildContextEntries (path ++ added (ls_lane s) events) /\
  ls_messageCount s' = ls_messageCount s + messages_of (added (ls_lane s) events) /\
  snapshot_ok s' /\
  s' = watch s (base.filter (fun e => foreign s e = false) events).
Proof. apply watch_lane_all. Qed.

(** A lane whose transcript begins with a compaction, in the middle of a run with
    a tool. *)
Definition text_of_role (text : string) : AgentMessage := AgentLlm (user_text (js text) (NInt 1)).
Definition result_for (id : string) : AgentMessage := AgentLlm (MsgToolResult (ToolResultMessage_ (js id) (js "read") [] None None false (NInt 3))).

Definition sample_entry (i : Z) (body : TranscriptBody) : TranscriptEntry := TranscriptEntry_ (js_of_Z i) None i (NInt 4) body.

Definition sample_lane_path : list TranscriptEntry :=
  [sample_entry 1 (TMessage (text_of_role "old") false); sample_entry 2 (TCompaction (js "summary") [] (NInt 9) None None false); sample_entry 3 (TMessage (text_of_role "new") false)].

Definition sample_snapshot : LaneSnapshot :=
  LaneSnapshot_ (js "main") (buildContextEntries sample_lane_path) (Some (js "3")) None (LaneConfiguration_ (js "p", js "m") (js "off") []) 2 emptyUsage
    (Some (LaneOperation_ (js "run") KindRun (NInt 5) None OperationOpen None None None [ToolRunning (js "c") (js "read") JNull None])) [] false.

Definition on_lane (lane : string) (payload : LanePayload) : HarnessEvent := HarnessEvent_ (Some (js lane)) payload.

Lemma watch_follows_lane_witness :
  let events := [on_lane "main" (ToolStart (js "run") (js "d") (js "edit") JNull); on_lane "other" (EntryAdded (sample_entry 9 (TMessage (text_of_role "elsewhere") false)));
                 on_lane "main" (EntryAdded (sample_entry 4 (TMessage (result_for "c") false)))] in
  te_id <$> ls_transcript (watch sample_snapshot events) = [js "2"; js "3"; js "4"] /\ ls_messageCount (watch sample_snapshot events) = 3.
Proof.
  intros events. destruct (watch_follows_lane sample_lane_path sample_snapshot events) as (H1 & H2 & _); [reflexivity| |rewrite H1, H2; vm_compute; auto].
  intros o [= <-]. apply NoDup_singleton.
Defined.

(** * Committed entries *)

Definition committed (items : list TranscriptNew) (seqs : list Seq) (timestamp : jsnum) : list TranscriptEntry :=
  zip_with (fun entry seq => materialize entry seq timestamp) items seqs.

(** The result an entry brings. *)
Definition result_id (entry : TranscriptEntry) : option jsstr :=
  match te_body entry with TMessage (AgentLlm (MsgToolResult m)) _ => Some (tr_toolCallId m) | _ => None end.

Definition running (s : LaneSnapshot) : list jsstr := match ls_operation s with Some o => lt_toolCallId <$> lo_runningTools o | None => [] end.

Definition streaming (s : LaneSnapshot) : option AssistantMessage := o ← ls_operation s; lo_streamingMessage o.

Definition operation_id (s : LaneSnapshot) : option jsstr := lo_id <$> ls_operation s.

Lemma drop_tool_subset id o : lt_toolCallId <$> lo_runningTools (drop_tool id o) ⊆ lt_toolCallId <$> lo_runningTools o.
Proof.
  unfold drop_tool. destruct (tool_index _ _) as [[i ?]|] eqn:E; [|done]. cbn [lo_runningTools set_tools]. intros x (t & -> & Ht)%list_elem_of_fmap. apply list_elem_of_fmap_2.
  by eapply elem_of_sublist, sublist_delete.
Qed.

(** One committed entry. *)
Lemma committed_entry s entry runId :
  snapshot_ok s ->
  let s' := watch s (entryLifecycleEvents entry (ls_lane s) runId) in
  ls_tipId s' = Some (te_id entry) /\ added (ls_lane s) (entryLifecycleEvents entry (ls_lane s) runId) = [entry] /\
  running s' ⊆ running s /\ (forall id, result_id entry = Some id -> id ∉ running s') /\ operation_id s' = operation_id s /\
  (is_message_entry entry = true -> runId = operation_id s -> runId <> None -> streaming s' = None) /\
  (is_message_entry entry = false -> streaming s' = streaming s).
Proof.
  intros Hs s'. subst s'.
  assert (forall s1, ls_lane s1 = ls_lane s -> watch s1 [HarnessEvent_ (Some (ls_lane s)) (EntryAdded entry)] = add_entry entry s1) as Hadd.
  { intros s1 Hl. cbn. unfold reduceLaneSnapshot, foreign. cbn. by rewrite Hl, bool_decide_eq_true_2. }
  assert (forall s1, snapshot_ok s1 -> running (add_entry entry s1) ⊆ running s1 /\ (forall id, result_id entry = Some id -> id ∉ running (add_entry entry s1)) /\
    operation_id (add_entry entry s1) = operation_id s1 /\ streaming (add_entry entry s1) = streaming s1) as Hrun.
  { intros s1 H1. unfold running, result_id, operation_id, streaming, add_entry. cbn [ls_operation].
    destruct (te_body entry) as [[[| | |m]| | | | |] t| | |]; try (split_and!; [done|by intros ? [=]|done|done]). destruct (ls_operation s1) as [o|] eqn:Eo; cbn; [|set_solver].
    destruct (drop_tool_unique (tr_toolCallId m) o (H1 _ Eo)) as [_ Hd]. split_and!; [apply drop_tool_subset|by intros id [= <-]| |]; unfold drop_tool; by destruct (tool_index _ _) as [[]|]. }
  unfold entryLifecycleEvents, added, is_message_entry. destruct (te_body entry) as [message t| | |] eqn:Eb.
  - set (e1 := HarnessEvent_ _ (MessageStart _ _)). set (e2 := HarnessEvent_ _ (MessageEnd _ _ _)).
    change [e1; e2; HarnessEvent_ (Some (ls_lane s)) (EntryAdded entry)] with ([e1; e2] ++ [HarnessEvent_ (Some (ls_lane s)) (EntryAdded entry)]). rewrite watch_app.
    rewrite Hadd by apply watch_lane. set (s2 := watch s [e1; e2]).
    assert (forall id f o, (forall o, lo_runningTools (f o) = lo_runningTools o /\ lo_id (f o) = lo_id o) -> running (on_operation id f o) = running o /\ operation_id (on_operation id f o) = operation_id o) as Hon.
    { intros id f s1 Hf. unfold running, operation_id, on_operation. destruct (ls_operation s1) as [o|] eqn:Eo; [|by rewrite Eo]. case_bool_decide; [|by rewrite Eo]. cbn. by destruct (Hf o) as [-> ->]. }
    assert (forall p s0, ls_lane s0 = ls_lane s -> foreign s0 (HarnessEvent_ (Some (ls_lane s)) p) = false) as Hown by (intros p s0 Hl; unfold foreign; cbn; by rewrite Hl, bool_decide_eq_true_2).
    set (s1 := fst (reduceLaneSnapshot s e1)). assert (running s1 = running s /\ operation_id s1 = operation_id s /\ ls_lane s1 = ls_lane s) as (Hr1 & Hi1 & Hl1).
    { split_and!; [| |apply reduce_rest]; subst s1 e1; unfold reduceLaneSnapshot; rewrite Hown by done; cbn [he_payload]; destruct runId as [rid|]; try done;
        destruct message as [[| |m|]| | | | |]; try done; cbn [fst]; case_bool_decide; try done; by apply Hon. }
    assert (s2 = match runId with Some rid => on_operation rid (set_streaming None) s1 | None => s1 end) as Es2.
    { subst s2 e2. cbn [watch foldl]. fold s1. unfold reduceLaneSnapshot at 1. rewrite Hown by done. cbn [he_payload]. by destruct runId. }
    assert (running s2 = running s /\ operation_id s2 = operation_id s) as [Hr2 Hi2].
    { rewrite Es2, <- Hr1, <- Hi1. destruct runId as [rid|]; [|done]. by apply Hon. }
    destruct (Hrun s2) as (H1 & H2 & H3 & H4).
    { subst s2. cbn. by apply reduce_ok, reduce_ok. }
    split_and!; [done|cbn; by rewrite bool_decide_eq_true_2|by rewrite <- Hr2|done|by rewrite H3| |done].
    intros _ Hrid Hne. rewrite H4, Es2. destruct runId as [rid|]; [|done]. unfold streaming, on_operation. unfold operation_id in Hrid, Hi1. rewrite <- Hi1 in Hrid.
    destruct (ls_operation s1) as [o|]; [|done]. injection Hrid as ->. by rewrite bool_decide_eq_true_2.
  - destruct (Hrun s Hs) as (? & ? & ? & ?). rewrite Hadd by done. split_and!; [done|cbn; by rewrite bool_decide_eq_true_2|done|done|done|done|done].
  - destruct (Hrun s Hs) as (? & ? & ? & ?). rewrite Hadd by done. split_and!; [done|cbn; by rewrite bool_decide_eq_true_2|done|done|done|done|done].
  - destruct (Hrun s Hs) as (? & ? & ? & ?). rewrite Hadd by done. split_and!; [done|cbn; by rewrite bool_decide_eq_true_2|done|done|done|done|done].
Qed.

(** Every entry is on the one before. *)
Fixpoint linked (tip : option jsstr) (entries : list TranscriptEntry) : Prop :=
  match entries with
  | [] => True
  | entry :: entries => te_parentId entry = tip /\ linked (Some (te_id entry)) entries
  end.

Definition tip_after (tip : option jsstr) (entries : list TranscriptEntry) : option jsstr :=
  match last entries with Some entry => Some (te_id entry) | None => tip end.

Lemma tip_after_cons tip entry entries : tip_after tip (entry :: entries) = tip_after (Some (te_id entry)) entries.
Proof. unfold tip_after. rewrite last_cons. by destruct (last entries). Qed.

Lemma chain_linked items : forall tip seqs timestamp, linked tip (committed (chainEntries tip items) seqs timestamp).
Proof. induction items as [|[id body] items IH]; intros tip [|seq seqs] timestamp; cbn; [done..|]. split; [done|apply IH]. Qed.

Lemma committed_all entries : forall path s runId,
  ls_transcript s = buildContextEntries path -> snapshot_ok s ->
  let s' := watch s (concat ((fun entry => entryLifecycleEvents entry (ls_lane s) runId) <$> entries)) in
  ls_transcript s' = buildContextEntries (path ++ entries) /\
  ls_tipId s' = tip_after (ls_tipId s) entries /\
  running s' ⊆ running s /\ (forall entry id, entry ∈ entries -> result_id entry = Some id -> id ∉ running s') /\
  operation_id s' = operation_id s /\
  (runId = operation_id s -> runId <> None -> streaming s = None \/ Exists (fun e => is_message_entry e = true) entries -> streaming s' = None).
Proof.
  induction entries as [|entry entries IH]; intros path s runId Ht Hs; cbn [fmap list_fmap concat].
  - split_and!; [by rewrite app_nil_r|done|done|set_solver|done|]. intros _ _ [H|H%Exists_nil]; done.
  - rewrite watch_app. set (s1 := watch s (entryLifecycleEvents entry (ls_lane s) runId)).
    destruct (committed_entry s entry runId Hs) as (Htip & Hadd & Hr & Hres & Hop & Hst & Hst'). fold s1 in Htip, Hr, Hres, Hop, Hst, Hst'.
    destruct (watch_lane_all path s (entryLifecycleEvents entry (ls_lane s) runId) Ht Hs) as (H1 & _ & Hs1 & _). fold s1 in H1, Hs1. rewrite Hadd in H1.
    assert (ls_lane s1 = ls_lane s) as Hl by apply watch_lane. destruct (IH (path ++ [entry]) s1 runId H1 Hs1) as (I1 & I2 & I3 & I4 & I5 & I6). rewrite Hl in *.
    split_and!.
    + by rewrite <- app_assoc in I1.
    + by rewrite I2, tip_after_cons, Htip.
    + by etrans.
    + intros e id [->|He]%elem_of_cons Hid; [|by eapply I4]. intros Hin. apply I3 in Hin. by apply (Hres id).
    + by rewrite I5.
    + intros Hrid Hne Hor. apply I6; [by rewrite Hop|done|]. destruct (is_message_entry entry) eqn:Em; [left; by apply Hst|]. rewrite (Hst' eq_refl).
      destruct Hor as [?|[?|?]%Exists_cons]; [by left|congruence|by right].
Qed.

(** The events of a commit of entries chained to the tip of the lane show them: the
    transcript is that of the path that grew by them, each on the one before, and
    the tip is the last; a call whose result was committed is no longer shown as
    running; and when a message of the running operation is committed, nothing is
    shown as streaming. *)
Theorem committed_entries_shown (path : list TranscriptEntry) (s : LaneSnapshot) (items : list (jsstr * TranscriptBody)) (seqs : list Seq)
  (timestamp : jsnum) (runId : option jsstr) (firstWriteIndex : nat) :
  ls_transcript s = buildContextEntries path -> snapshot_ok s -> (firstWriteIndex + length items <= length seqs)%nat ->
  let new := chainEntries (ls_tipId s) items in
  let s' := watch s (committedEntryEvents new seqs timestamp (ls_lane s) runId firstWriteIndex) in
  let entries := committed new (drop firstWriteIndex seqs) timestamp in
  te_id <$> entries = fst <$> items /\ te_body <$> entries = snd <$> items /\ linked (ls_tipId s) entries /\
  ls_transcript s' = buildContextEntries (path ++ entries) /\
  ls_tipId s' = tip_after (ls_tipId s) entries /\
  (forall entry id, entry ∈ entries -> result_id entry = Some id -> id ∉ running s') /\
  (runId = operation_id s -> runId <> None -> Exists (fun e => is_message_entry e = true) entries -> streaming s' = None).
Proof.
  intros Ht Hs Hlen new s' entries. assert (forall items tip seqs, (length items <= length seqs)%nat ->
    te_id <$> committed (chainEntries tip items) seqs timestamp = fst <$> items /\ te_body <$> committed (chainEntries tip items) seqs timestamp = snd <$> items) as Hids.
  { clear. induction items as [|[id body] items IH]; intros tip [|seq seqs] Hl; cbn in *; try lia; [done..|]. destruct (IH (Some id) seqs ltac:(lia)) as [E1 E2]. unfold committed in *. by rewrite E1, E2. }
  assert (committedEntryEvents new seqs timestamp (ls_lane s) runId firstWriteIndex = concat ((fun entry => entryLifecycleEvents entry (ls_lane s) runId) <$> entries)) as Ee.
  { unfold committedEntryEvents, entries, committed. f_equal. generalize new (drop firstWriteIndex seqs). intros l. induction l as [|n l IH]; intros [|q qs]; [done..|]. cbn. by rewrite IH. }
  destruct (committed_all entries path s runId Ht Hs) as (H1 & H2 & _ & H4 & _ & H6). rewrite <- Ee in H1, H2, H4, H6. fold s' in H1, H2, H4, H6.
  destruct (Hids items (ls_tipId s) (drop firstWriteIndex seqs)) as [Hi Hb]; [rewrite length_drop; lia|].
  split_and!; [exact Hi|exact Hb|apply chain_linked|exact H1|exact H2|exact H4|]. intros ? ? ?. apply H6; auto.
Qed.

Lemma committed_entries_shown_witness :
  let items := [(js "e1", TMessage (result_for "c") false); (js "e2", TMessage (text_of_role "more") false)] in
  let s' := watch sample_snapshot (committedEntryEvents (chainEntries (Some (js "3")) items) [7; 8; 9] (NInt 6) (js "main") (Some (js "run")) 1) in
  ls_tipId s' = Some (js "e2") /\ (js "c" ∉ running s') /\ te_id <$> ls_transcript s' = [js "2"; js "3"; js "e1"; js "e2"].
Proof.
  intros items s'. destruct (committed_entries_shown sample_lane_path sample_snapshot items [7; 8; 9] (NInt 6) (Some (js "run")) 1) as (_ & _ & _ & H1 & H2 & H3 & _);
    [reflexivity|intros o [= <-]; apply NoDup_singleton|cbn; lia|].
  split; [exact H2|]. split; [|change (te_id <$> ls_transcript s') with (te_id <$> ls_transcript (watch sample_snapshot (committedEntryEvents (chainEntries (ls_tipId sample_snapshot) items) [7; 8; 9] (NInt 6) (ls_lane sample_snapshot) (Some (js "run")) 1))); rewrite H1; vm_compute; reflexivity].
  eapply H3; [left|reflexivity].
Defined.

(** C24: between two immutable revisions that may share parts, [diffRevisions]
    emits at most 4096 operations, all of them valid, and applying them to the
    first revision gives a value equal to the second. *)
Theorem diffRevisions_then_apply h before after :
  grounded h before -> grounded h after -> json_wf (erase before) -> json_wf (erase after) ->
  let ops := diffRevisions before after in
  len ops <= MAX_DELTA_OPERATIONS /\ Forall op_wf ops /\
  exists v, apply (Some (erase before)) (op_to_json <$> ops) = Ok (Some v) /\ json_eqv v (erase after).
Proof. intros Hgb Hga Hb Ha. exact (diffRevisions_turns h before after (conj Hgb Hb) (conj Hga Ha)). Qed.

(** Three items and a text; the middle item is dropped, the others shared, and
    the text grows. *)
Definition item (id : positive) (name : string) : rev := RObj id [(js "name", RStr (js name))].

Definition revision_before : rev :=
  RObj 1 [(js "items", RArr 2 [item 5 "x"; item 6 "y"; item 7 "z"]); (js "text", RStr (js "hel"))].
Definition revision_after : rev :=
  RObj 3 [(js "items", RArr 4 [item 5 "x"; item 7 "z"]); (js "text", RStr (js "hello"))].

Definition revisions (id : positive) : rev :=
  match id with
  | 1 => revision_before
  | 2 => RArr 2 [item 5 "x"; item 6 "y"; item 7 "z"]
  | 3 => revision_after
  | 4 => RArr 4 [item 5 "x"; item 7 "z"]
  | 5 => item 5 "x"
  | 6 => item 6 "y"
  | _ => item 7 "z"
  end%positive.

(** Two items that change places, three that move up by one with a new one at
    the end. *)
Example diffRevisions_orders :
  diffRevisions (RArr 2 [item 5 "x"; item 6 "y"; item 7 "z"]) (RArr 4 [item 6 "y"; item 5 "x"; item 7 "z"]) = [OpM [] [1; 0; 2]%N] /\
  diffRevisions (RArr 2 [item 5 "x"; item 6 "y"; item 7 "z"]) (RArr 4 [item 6 "y"; item 7 "z"; RNull]) =
    [OpP [] 0 1 []; OpP [] 2 0 [JNull]].
Proof. vm_compute. auto. Qed.

Ltac ground :=
  repeat first [apply grounded_obj; [reflexivity|] | apply grounded_arr; [reflexivity|] | apply grounded_str
    | apply Forall_nil_2 | apply Forall_cons_2 | progress cbn [fst snd]].

Lemma revisions_wf : json_wf (erase revision_before) /\ json_wf (erase revision_after).
Proof.
  split; cbn; repeat first [apply wf_obj | apply wf_arr | apply wf_str | apply js_str_wf | apply Forall_nil_2 | apply Forall_cons_2
    | progress cbn [fst snd fmap list_fmap] | (unfold obj_sorted; repeat constructor; vm_compute; (discriminate || congruence))].
Qed.

Lemma diffRevisions_then_apply_witness :
  diffRevisions revision_before revision_after = [OpP [SStr (js "items")] 1 1 []; OpA [SStr (js "text")] (js "lo")] /\
  exists v, apply (Some (erase revision_before)) (op_to_json <$> diffRevisions revision_before revision_after) = Ok (Some v) /\
    json_eqv v (erase revision_after).
Proof.
  split; [vm_compute; reflexivity|]. destruct revisions_wf as [H1 H2].
  apply (diffRevisions_then_apply revisions revision_before revision_after); [ground|ground|exact H1|exact H2].
Defined.

(** * Truncation *)

(** A Node runtime and a browser. *)
Definition node_buffer : option (jsstr -> Z) := Some (fun s => len (utf8_encode s)).
Definition no_buffer : option (jsstr -> Z) := None.

Lemma node_buffer_ok : buffer_ok node_buffer.
Proof. by intros s _. Qed.

(** Without [Buffer] the length computed unit by unit is the size of the
    UTF-8 encoding, unpaired surrogates included, as it is with [Buffer]. *)
Theorem utf8ByteLength_encoded runtimeBuffer s :
  buffer_ok runtimeBuffer -> str_wf s -> utf8ByteLength runtimeBuffer s = len (utf8_encode s).
Proof. intros Hb Hs. rewrite (utf8ByteLength_count runtimeBuffer Hb) by done. by apply count_bytes_encode. Qed.

(** Two bytes, an unpaired surrogate and a pair. *)
Lemma utf8ByteLength_encoded_witness :
  utf8ByteLength no_buffer [0x61; 0xE9; 0xD800; 0xD83D; 0xDE00] = 10 /\ len (utf8_encode [0x61; 0xE9; 0xD800; 0xD83D; 0xDE00]) = 10.
Proof.
  assert (str_wf [0x61; 0xE9; 0xD800; 0xD83D; 0xDE00]) as Hs.
  { repeat apply Forall_cons_2; try apply Forall_nil_2; unfold unit_ok; lia. }
  rewrite (utf8ByteLength_encoded no_buffer _ I Hs). split; reflexivity.
Defined.

(** [truncateHead] never throws for limits that are not negative; it keeps
    text within the limits as it is, and otherwise returns the longest run of
    complete first lines within both limits, with true counts. *)
Theorem truncateHead_spec runtimeBuffer s options :
  buffer_ok runtimeBuffer -> str_wf s -> 0 <= max_lines options -> 0 <= max_bytes options ->
  let lines := splitLinesForCounting s in
  let size (t : jsstr) := len (utf8_encode t) in
  exists r, truncateHead runtimeBuffer s options = Ok r /\ totalLines r = len lines /\ totalBytes r = size s /\
    if (len lines <=? max_lines options) && (size s <=? max_bytes options) then truncated r = false /\ content r = s
    else
      truncated r = true /\
      exists n, longest_head (max_lines options) (max_bytes options) lines n /\
        content r = join_lines (take n lines) /\ outputLines r = Z.of_nat n /\ outputBytes r = size (content r).
Proof. intros Hb Hs Hl Hm. by apply truncateHead_result. Qed.

Definition sample_text : jsstr := js "one" ++ [newline] ++ js "two" ++ [newline] ++ js "three".

Lemma sample_text_wf : str_wf sample_text.
Proof.
  unfold sample_text. repeat (apply Forall_app; split); try apply js_str_wf;
    (apply Forall_cons_2; [unfold unit_ok, newline; lia|apply Forall_nil_2]).
Qed.

Lemma truncateHead_spec_witness :
  exists r, truncateHead no_buffer sample_text (TruncationOptions_ None (Some 8)) = Ok r /\
    content r = js "one" ++ [newline] ++ js "two" /\ truncated r = true.
Proof.
  destruct (truncateHead_spec no_buffer sample_text (TruncationOptions_ None (Some 8)) I sample_text_wf) as (r & Hr & _);
    [vm_compute; discriminate|vm_compute; discriminate|].
  exists r. split; [exact Hr|]. vm_compute in Hr. injection Hr as <-. split; reflexivity.
Defined.

(** [truncateTail] keeps text within the limits as it is, otherwise returns
    the longest run of complete last lines within both limits, or, when the last
    line alone is too long, the longest end of it that fits and does not split a
    character. *)
Theorem truncateTail_spec runtimeBuffer s options :
  buffer_ok runtimeBuffer -> str_wf s -> 0 <= max_lines options -> 0 <= max_bytes options ->
  let lines := splitLinesForCounting s in
  let size (t : jsstr) := len (utf8_encode t) in
  let r := truncateTail runtimeBuffer s options in
  totalLines r = len lines /\ totalBytes r = size s /\
  if (len lines <=? max_lines options) && (size s <=? max_bytes options) then truncated r = false /\ content r = s
  else
    truncated r = true /\ outputBytes r = size (content r) /\
    if lastLinePartial r then
      exists line start, last lines = Some line /\ max_bytes options < size line /\
        longest_tail line (max_bytes options) start /\ content r = to_well_formed (drop start line) /\
        outputLines r = 1 /\ outputBytes r <= max_bytes options
    else
      exists n, longest_last (max_lines options) (max_bytes options) lines n /\
        content r = join_lines (drop n lines) /\ outputLines r = len lines - Z.of_nat n.
Proof. intros Hb Hs Hl Hm. by apply truncateTail_result. Qed.

(** Five bytes of "a", an emoji and "bc": the pair is kept whole. *)
Lemma truncateTail_spec_witness :
  let line := [0x61; 0xD83D; 0xDE00; 0x62; 0x63] in
  content (truncateTail node_buffer line (TruncationOptions_ None (Some 5))) = js "bc" /\
  longest_tail line 5 3.
Proof.
  intros line. split; [vm_compute; reflexivity|].
  assert (str_wf line) as Hs by (repeat apply Forall_cons_2; try apply Forall_nil_2; unfold unit_ok; lia).
  destruct (truncateTail_spec node_buffer line (TruncationOptions_ None (Some 5)) node_buffer_ok Hs) as (_ & _ & H);
    [vm_compute; discriminate|vm_compute; discriminate|].
  cbv zeta in H. replace ((len (splitLinesForCounting line) <=? max_lines (TruncationOptions_ None (Some 5))) && (len (utf8_encode line) <=? 5))
    with false in H by (vm_compute; reflexivity).
  destruct H as (_ & _ & H). replace (lastLinePartial _) with true in H by (vm_compute; reflexivity).
  destruct H as (l & start & Hl & _ & Ht & Hc & _). assert (l = line) as -> by (vm_compute in Hl; injection Hl as <-; reflexivity).
  replace (content (truncateTail node_buffer line (TruncationOptions_ None (Some 5)))) with (js "bc") in Hc by (vm_compute; reflexivity).
  change (max_bytes (TruncationOptions_ None (Some 5))) with 5 in Ht.
  do 6 (destruct start as [|start]; [try (vm_compute in Hc; discriminate); exact Ht|]).
  exfalso. destruct Ht as [Hle _]. cbn in Hle. lia.
Defined.

(** When only the final newline exceeds the byte limit, the text is cut by
    bytes but [truncatedBy] says lines. *)
Example truncatedBy_final_newline :
  exists r, truncateHead node_buffer (js "abc" ++ [newline]) (TruncationOptions_ None (Some 3)) = Ok r /\
    content r = js "abc" /\ totalLines r = 1 /\ truncatedBy r = Some Lines.
Proof. eexists. vm_compute. split_and!; reflexivity. Qed.

(** * Service states *)

(** Updates of a subscription decode to what was sent: after the snapshot,
    whatever the decoder held before, every update is decoded to the update
    encoded, through replaced, spawned and closed instances. *)
Theorem service_stream_roundtrip snapshot updates er er1 er2 dr wire_snapshot wire_updates :
  snapshot_wf snapshot -> Forall update_wf updates ->
  encodeSnapshot snapshot er = (er1, Ok wire_snapshot) -> map_each encodeUpdate updates er1 = (er2, Ok wire_updates) ->
  exists dr1 dr2, decodeSnapshot wire_snapshot dr = (dr1, Ok snapshot) /\ map_each decodeUpdate wire_updates dr1 = (dr2, Ok updates).
Proof.
  intros Hs Hu H1 H2. destruct (snapshot_sim _ _ _ _ dr Hs H1) as (dr1 & G1 & R1).
  destruct (map_each_sim _ decodeUpdate registry_sync update_wf _ _ _ _ _ update_sim Hu R1 H2) as (dr2 & G2 & _).
  by exists dr1, dr2.
Qed.

Lemma service_op_wf k v : reserved (js k) = false -> json_wf v -> op_wf (OpS [SStr (js k)] v).
Proof.
  intros Hk Hv. split_and!; [|by apply Forall_singleton, js_str_wf|done].
  split; [|done]. cbn. by rewrite Hk.
Qed.

(** A state of an instance is spawned, updated twice and closed. *)
Definition service_address : ServiceInstanceAddress := ServiceState.Address (js "k") 1.
Definition service_ops : list Op := [OpR (JObj []); OpS [SStr (js "n")] (JBool true)].
Definition service_snapshot : ServiceSubscriptionSnapshot (list Op) :=
  SubscriptionSnapshot (js "counter") Keyed [].
Definition service_updates : list (ServiceProviderUpdate (list Op)) :=
  [Spawned (InstanceSnapshot (Some service_address) [MethodMember (js "inc"); StateMember (js "value") 0 service_ops]);
   StateUpdate (Some service_address) (js "value") 1 [OpS [SStr (js "n")] (JBool false)];
   StateUpdate (Some service_address) (js "value") 2 [OpS [SStr (js "n")] JNull];
   Closed service_address].

Lemma service_stream_roundtrip_witness :
  exists er1 er2 wire_snapshot wire_updates dr1 dr2,
    encodeSnapshot service_snapshot ∅ = (er1, Ok wire_snapshot) /\
    map_each encodeUpdate service_updates er1 = (er2, Ok wire_updates) /\
    map_each decodeUpdate wire_updates dr1 = (dr2, Ok service_updates).
Proof.
  destruct (encodeSnapshot service_snapshot ∅) as [er1 [ws|e]] eqn:E1; [|vm_compute in E1; discriminate].
  destruct (map_each encodeUpdate service_updates er1) as [er2 [wu|e]] eqn:E2;
    [|injection E1 as <- <-; vm_compute in E2; discriminate].
  assert (forall v, json_wf v -> Forall op_wf [OpS [SStr (js "n")] v]) as Hset.
  { intros v Hv. apply Forall_cons_2; [|apply Forall_nil_2]. apply service_op_wf; [vm_compute; reflexivity|exact Hv]. }
  assert (Forall op_wf service_ops) as Hops.
  { apply Forall_cons_2; [|apply Hset; wf_json]. split_and!; [split; [reflexivity|exact I]|apply Forall_nil_2|wf_json]. }
  destruct (service_stream_roundtrip service_snapshot service_updates ∅ er1 er2 ∅ ws wu) as (dr1 & dr2 & _ & Hd);
    [apply Forall_nil_2| |exact E1|exact E2|].
  - apply Forall_cons_2; [apply Forall_cons_2; [exact I|]; apply Forall_cons_2; [exact Hops|apply Forall_nil_2]|].
    apply Forall_cons_2; [apply Hset; wf_json|]. apply Forall_cons_2; [apply Hset; wf_json|]. apply Forall_cons_2; [exact I|apply Forall_nil_2].
  - do 6 eexists. split; [reflexivity|]. split; [exact E2|exact Hd].
Defined.
